(* ===== verification/_CoqProject ===== *)
-Q . S2P
Prelude.v
Bytes.v
Ids.v
File.v
Log.v
LogProofs.v
LogState.v
LogStateProofs.v
LogReplay.v
LogPending.v
LogCrash.v
Table.v
TableSpec.v
TableOps.v
TableRefine.v
TableStore.v
TableEnact.v
Instances.v
TableThms.v
LogThms.v
Index.v
IndexProofs.v
IndexEnact.v
IndexThms.v
Compress.v
Stats.v
StatsThms.v
Options.v
OptionsThms.v
Column.v
HashColumn.v
ColumnTables.v
ColumnLinks.v
ColumnProofs.v
ColumnValues.v
ColumnMap.v
ColumnEnact.v
Frames.v
ColumnPending.v
ColumnSession.v
ColumnOpen.v
ColumnRecover.v
ColumnThms.v
ColumnReindex.v
ColumnIter.v
BTreeNode.v
BTree.v
Overlay.v
BTreeIter.v
Db.v
DbOpen.v
Migration.v
KeyOrder.v
DbOverlay.v
DbColumns.v
DbEnact.v
DbReplay.v
DbRefine.v
DbNew.v
DbSteps.v
DbPipeline.v
DbRecover.v
DbShutdown.v
DbThms.v
DbClose.v
DbTorn.v
MigrationProofs.v
MigrationThms.v
BTreeCodec.v
BTreeLookup.v
BTreeThms.v
BTreeShape.v
EntryStore.v
EntryLogic.v
TreeRep.v
TreeOps.v
TreeChange.v
TreeCommit.v
TreeSession.v
TreeThms.v
