(* ===== verification/Prelude.v ===== *)
(** * Verification of parity-db

    parity-db is an embedded key-value database. A database has columns; a column
    maps keys to values. This library models the crate under src/src and proves
    what its clients and its own components rely on.

    ** The program

    A commit (src/src/db.rs) is put in a queue and its values in the commit
    overlay, where reads see them at once. The log worker takes a commit from the
    queue, plans its writes on the columns and collects the changed index chunks
    and value entries in one log record (src/src/log.rs); from then on reads see
    them in the log overlay. The flush worker makes log files durable, the commit
    worker reads their records back and enacts them on the files of the tables,
    the cleanup worker frees the log files. After a crash the log files are
    replayed.

    A hash column (src/src/column.rs) has an index table (src/src/index.rs) from
    the first bits of a key to addresses, and 256 value tables (src/src/table.rs),
    one per size of entries; a full index is replaced by one of twice the size,
    chunk by chunk. An ordered column (src/src/btree) keeps a B-tree in the
    entries of its value tables.

    ** The files

    Shared:
    - this file: outcomes of Rust code, the state monad [ST], machine integers;
    - [Bytes]: bytes, little and big endian integers, slices;
    - [Ids]: [Key], [Address], the two [TableId]s (lib.rs, index.rs, table.rs);
    - [File]: [TableFile] (file.rs), a file as the list of its bytes;
    - [Instances]: concrete functions for the parameters, used by the examples.

    The log (log.rs):
    - [Log]: [LogWriter], [LogReader], the format of a record, [LogQuery];
      [LogProofs]: reading back what was written;
    - [LogState]: the struct [Log], the life of the log files from appending to
      the pool; [LogStateProofs]: its invariant [log_ok];
    - [LogReplay]: the loop of [DbInner::enact_logs] over one record;
    - [LogPending]: the records that wait in the log files and the overlays, and
      reading a record of which the end is missing; [LogCrash]: opening the files
      that a crash left and reading them again;
    - [LogThms]: the theorems.

    Value tables (table.rs):
    - [Table]: entries, headers, free list, chains of parts, reference counters,
      planned writes, enactment, all on bytes;
    - [TableSpec]: slots, chains and the free list as predicates on those bytes,
      [TableOps], [TableRefine]: the operations on them;
    - [TableStore]: the contract, a finite map from addresses to stored values;
    - [TableEnact]: from the log to the file; [TableThms]: the theorems.

    Index tables (index.rs): [Index], [IndexProofs] (an index as a map from 50
    bits of a key and a position to an address), [IndexEnact], [IndexThms].

    [Compress] (compress.rs), [Stats] and [StatsThms] (stats.rs), [Options] and
    [OptionsThms] (options.rs).

    Hash columns (column.rs):
    - [Column]: keys, the choice of a table, [write_existing_value_plan] and
      [write_new_value_plan]; [HashColumn]: lookup, [write_plan], reindexing,
      enactment, validation, iteration;
    - [ColumnTables], [ColumnValues]: the tables as one store; [ColumnLinks]: how
      the index and the store belong together; [ColumnProofs], [ColumnMap],
      [ColumnSession]: a column as a map from keys to values with their counters,
      [col_repr]; [ColumnOpen]: a new column;
    - [ColumnEnact], [ColumnPending]: enacting a record on a column, and what the
      records that wait hold for it; [ColumnRecover]: validating the entries of
      a record, and what replaying the log over the files that a crash left
      gives;
    - [ColumnThms], [ColumnReindex], [ColumnIter]: the theorems.

    Ordered columns (btree/mod.rs, node.rs, btree.rs, iter.rs):
    - [BTreeNode]: nodes, moves within them, their encoding; [BTree]: lookup,
      changes with splits and rebalancing, [BTreeTable]; [BTreeIter]: the
      iterator, merged with the overlay;
    - [KeyOrder], [BTreeCodec], [BTreeLookup]: the order of keys and changes of
      sorted lists of pairs, the content of a node, the tree of stored nodes as a sorted list; [BTreeThms];
    - [BTreeShape]: what the moves within a node do to its
      separators and children, and the bytes a node takes;
    - [EntryStore], [EntryLogic]: the entries of the tables as a map
      from addresses, and a separation logic of entries and of room for entries
      on the proof mode of Iris, with a weakest precondition of code that plans
      writes; entries may be left behind, so the logic is affine;
    - [TreeRep]: a tree of a given height as an assertion on its entries;
      [TreeOps], [TreeChange], [TreeCommit]: the code of node.rs, btree.rs and
      mod.rs in the order of its calls, up to a whole commit, and that the
      assertion gives the tree that lookup reads;
    - [TreeSession]: a new column, and a commit within a record of the log;
      [TreeThms].

    The database (db.rs, and the dispatch of column.rs):
    - [Overlay]: the commit overlay and the change sets of a commit; [Db]:
      [DbInner] and the operations of the workers; [DbOpen]: opening, the turns
      of the worker loops, shutdown;
    - [Frames]: what an operation leaves alone, and that queries see
      a log only through its view; [DbOverlay]: the overlay is the queue;
      [DbColumns], [DbRefine]: a record over all columns, the database as a map;
      [DbEnact], [DbPipeline]: enacting, flushing and cleaning leave it alone;
      [DbReplay], [DbRecover]: replaying the log, opening after a crash;
      [DbNew]: a new database; [DbSteps]: steps of the workers; [DbThms];
      [DbShutdown], [DbClose]: what closing a database leaves; [DbTorn]: death
      while a record is written.

    Migration (migration.rs, and the file names of index.rs, table.rs and
    display.rs): [Migration], with the directories of both databases, and the
    databases while they are open; [MigrationProofs]: the items of a column as
    the changes that are committed, the names of the files of a column;
    [MigrationThms].

    ** How code is modelled

    A function that may fail returns an [outcome]: a value, an [Err], a panic,
    undefined behaviour of an [unsafe] block, a thread that waits for a lock it
    holds ([Deadlock]) or a loop that did not end within its fuel. A method that
    changes its object is in the state monad [ST]. Integers are [Z] with their
    wrap-around written out where it can matter ([wrap16], [wrap32], [wrap64]).
    [HashMap]s are [gmap]s, listed in any order ([HashMapOrder]) where the code
    iterates over them; a [BTreeMap] is a list in the order of the keys; arrays
    are lists whose length the code keeps. Files and memory maps are lists of
    bytes. Operations of [DbInner] are atomic steps: each holds the locks it
    needs, and the workers interleave between them ([DbSteps.db_step]).

    Code of other crates is a parameter: crc32fast ([Crc32]), blake2 ([Blake2]),
    lz4 and snap ([Codecs], [CodecLaws]), hex ([Hex]), and the content of
    uninitialised buffers ([Uninit]).

    ** The theorems

    - Database ([DbThms]): any history of commits, reads, turns of all the
      workers and crashes on hash columns answers as one map and a queue, which a
      crash empties ([db_refines]); what a crash left can be opened again and
      holds all that was logged ([crash_recovers]); in every interleaving of the
      workers the overlay is exactly the queue ([overlay_is_queue]); a new
      database is empty. [DbTorn]: whatever part of the record of a commit was
      written when the process died, the commit is recovered as a whole or not at
      all ([commit_atomic]).
      [DbClose]: a database that is dropped leaves no log and is opened
      again with every commit applied ([close_reopens]).
    - Migration ([MigrationThms]): migrating every column of a database of
      hash columns into a new directory, and what the database that is opened
      there holds ([migrate_copies]); the files of a column
      ([deplace_column_files]).
    - Hash columns ([ColumnThms], [ColumnIter], [ColumnReindex]): a record of
      writes refines the update of a map with reference counts; iteration visits
      the items of the map; a reindex step returns what it passed.
    - Value tables ([TableThms]): a record of operations refines an abstract
      store, and replaying the record onto the old file in any order gives the
      new table; the reads agree; counters balance and lock.
    - Index tables ([IndexThms]): insertion, lookup, recovery of key prefixes,
      replay of a record, validation.
    - Log ([LogThms]): the roles of log files, a record is read back as it was
      written or rejected, what it makes visible and for how long.
    - Ordered columns ([BTreeThms], [TreeThms]): the encoding of nodes, and lookup
      against the sorted list of the tree's entries; a commit with any changes to
      a tree of any size keeps a search tree and makes of its pairs what the
      changes make of a sorted list ([ordered_commit]), also as a record that the
      log worker writes ([ordered_record]); a new column is empty
      ([ordered_open]). The room a commit needs is bounded by its keys and values
      and 32 levels of nodes ([TreeCommit.commit_cost]); a tree of more levels
      would need more entries than a table can address.
    - Metadata and statistics: round trips, and accounting of the counters.

    Some theorems state where the code does not do what it means to: waiting for
    an own lock in [write_reindex_plan] and [validate_plan]; a bound that admits
    writes outside of a memory map; a salt that is used for writing and not for
    reading; a panic on a log of unknown columns; ordered columns that lose
    values when they are reference counted, and leak an entry when nodes merge;
    a compression threshold that is not stored; log files too short to be opened,
    and a log that is not fit for a second crash after a torn record; a migration
    that empties values with a counter above one.

    ** Fuel

    Loops that are not structural take fuel, chosen from the data: the chain of
    parts of a value visits each entry at most once ([filled] turns), the free
    list likewise, a record is read at most as many times as it has bytes, a
    change list shrinks with every turn, and a tree is at most [BTree.MAX_DEPTH]
    nodes deep (64; a tree of height 64 would need more entries than addresses).
    The theorems on these operations show a result, so that the fuel is enough.

    ** Not modelled

    Threads, condition variables and the locks between operations (they are the
    atomicity of a step); a crash comes between two operations or two entries of
    a record that is enacted ([DbRecover.dies]), or while a record is appended
    ([LogCrash.dying_append]), and what was written before it is in the files: a
    write to a table or an index that is cut in the middle, and data that the
    operating system loses, are not modelled; the files of a directory other than their bytes
    (fsync order, madvise, file locks); errors of the file system during a
    migration; printing and text statistics (dump, write_stats); the test-only
    is_balanced; the administration tool and its benchmarks under src/admin. The history
    of [db_refines] and the theorems on crashes are about databases of hash
    columns; for ordered columns the theorems go up to the record of a commit in
    the log, and enacting it on the files is covered by the theorems on value
    tables. *)

From Stdlib Require Export ZArith Lia Bool.
From stdpp Require Export base option list gmap fin_maps numbers list_numbers.
From stdpp Require Export strings.
From stdpp Require Import options.
#[local] Set Default Proof Using "Type*".

#[global] Open Scope Z_scope.

(** ** Errors (src/src/error.rs) *)

(** The kinds of [std::io::Error] the code distinguishes. *)
Inductive IoErrorKind :=
| UnexpectedEof
| NotFound
| AlreadyExists
| OtherIo.

(** [pub enum Error]. *)
Inductive Error :=
| Io (e : IoErrorKind)
| Corruption (msg : string)
| InvalidConfiguration (msg : string)
| InvalidInput (msg : string)
| InvalidValueData
| Background (e : Error)
| Locked (e : IoErrorKind)
| Migration (msg : string)
| Compression
| DatabaseNotFound.

(** The outcome of running a Rust expression: a value, an [Err] propagated
    with [?], a panic (failed assertion, out-of-range slice, [unwrap] of
    [None], [unreachable!]), undefined behaviour of an [unsafe] block, a thread
    that waits for a lock it holds itself, or a loop that has not finished
    within the fuel the model was given. *)
Inductive outcome (A : Type) :=
| Ok (a : A)
| Err (e : Error)
| Panic
| Undefined
| Deadlock
| NoFuel.
Arguments Ok {A} a.
Arguments Err {A} e.
Arguments Panic {A}.
Arguments Undefined {A}.
Arguments Deadlock {A}.
Arguments NoFuel {A}.

#[global] Instance outcome_ret : MRet outcome := fun A a => Ok a.
#[global] Instance outcome_bind : MBind outcome := fun A B f m =>
  match m with
  | Ok a => f a
  | Err e => Err e
  | Panic => Panic
  | Undefined => Undefined
  | Deadlock => Deadlock
  | NoFuel => NoFuel
  end.
#[global] Instance outcome_fmap : FMap outcome := fun A B f m =>
  m ≫= fun a => Ok (f a).

(** [assert!(b)]. *)
Definition rust_assert (b : bool) : outcome unit := if b then Ok tt else Panic.

(** [o.unwrap()] on an option. *)
Definition unwrap {A} (o : option A) : outcome A :=
  match o with Some a => Ok a | None => Panic end.

(** ** State and outcome

    Code that mutates a structure behind [&mut] or a lock is a function from
    the state to the outcome and the state left behind, also when the outcome
    is an error: what was written before a [?] stays written. *)
Definition ST (S A : Type) : Type := S → outcome A * S.

#[global] Instance ST_ret S : MRet (ST S) := fun A a s => (Ok a, s).
#[global] Instance ST_bind S : MBind (ST S) := fun A B f m s =>
  match m s with
  | (Ok a, s') => f a s'
  | (Err e, s') => (Err e, s')
  | (Panic, s') => (Panic, s')
  | (Undefined, s') => (Undefined, s')
  | (Deadlock, s') => (Deadlock, s')
  | (NoFuel, s') => (NoFuel, s')
  end.

Definition get_st {S} : ST S S := fun s => (Ok s, s).
Definition put_st {S} (s' : S) : ST S unit := fun _ => (Ok tt, s').
Definition modify_st {S} (f : S → S) : ST S unit := fun s => (Ok tt, f s).
Definition gets_st {S A} (f : S → A) : ST S A := fun s => (Ok (f s), s).

(** A pure outcome inside stateful code. *)
Definition lift_st {S A} (m : outcome A) : ST S A := fun s => (m, s).

(** Running stateful code on a component of a larger state. *)
Definition zoom {S T A} (get : S → T) (set : T → S → S) (m : ST T A) : ST S A :=
  fun s => let '(r, t) := m (get s) in (r, set t s).

(** ** Machine integers

    The release profile of Cargo.toml leaves overflow checks off: [+], [-],
    [*] wrap, and a shift amount is taken modulo the width. *)
Definition wrap8 (z : Z) : Z := z mod 2 ^ 8.
Definition wrap16 (z : Z) : Z := z mod 2 ^ 16.
Definition wrap32 (z : Z) : Z := z mod 2 ^ 32.
Definition wrap64 (z : Z) : Z := z mod 2 ^ 64.

(** Two's complement reading of a 64-bit pattern, for [i64]. *)
Definition swrap64 (z : Z) : Z := (z + 2 ^ 63) mod 2 ^ 64 - 2 ^ 63.

Definition shl64 (x n : Z) : Z := wrap64 (Z.shiftl x (n mod 64)).
Definition shr64 (x n : Z) : Z := Z.shiftr x (n mod 64).

Definition is_u8 (z : Z) : Prop := 0 ≤ z < 2 ^ 8.
Definition is_u16 (z : Z) : Prop := 0 ≤ z < 2 ^ 16.
Definition is_u32 (z : Z) : Prop := 0 ≤ z < 2 ^ 32.
Definition is_u64 (z : Z) : Prop := 0 ≤ z < 2 ^ 64.

Definition U32_MAX : Z := 2 ^ 32 - 1.
Definition U64_MAX : Z := 2 ^ 64 - 1.

(** ** Tactics *)

(** The hint database of the development: length computations and the
    equations of the monads. *)
Create HintDb pdb.
Create Rewrite HintDb pdb.

Ltac len := autorewrite with pdb; simpl; try lia.

(** Splits conjunctions and existentials of the hypotheses. *)
Ltac split_hyps :=
  repeat match goal with
  | H : _ ∧ _ |- _ => destruct H
  | H : ∃ _, _ |- _ => destruct H
  end.

(** Case analysis on the condition of an [if] of the goal, with the
    boolean comparison turned into arithmetic. *)
Ltac case_if :=
  match goal with
  | |- context [if Z.eqb ?a ?b then _ else _] => destruct (Z.eqb_spec a b)
  | |- context [if Z.leb ?a ?b then _ else _] => destruct (Z.leb_spec a b)
  | |- context [if Z.ltb ?a ?b then _ else _] => destruct (Z.ltb_spec a b)
  | |- context [if Nat.eqb ?a ?b then _ else _] => destruct (Nat.eqb_spec a b)
  | |- context [if Nat.leb ?a ?b then _ else _] => destruct (Nat.leb_spec a b)
  | |- context [if Nat.ltb ?a ?b then _ else _] => destruct (Nat.ltb_spec a b)
  | |- context [if ?b then _ else _] => destruct b eqn:?
  end.

(** ** Monad equations *)

Lemma outcome_bind_Ok {A B} (f : A → outcome B) (a : A) : (Ok a ≫= f) = f a.
Proof. reflexivity. Qed.

Lemma outcome_bind_inv {A B} (m : outcome A) (f : A → outcome B) (b : B) :
  (m ≫= f) = Ok b → ∃ a, m = Ok a ∧ f a = Ok b.
Proof. destruct m; try discriminate. intros H. by exists a. Qed.

Lemma ST_bind_Ok {S A B} (m : ST S A) (f : A → ST S B) (s s' : S) (a : A) :
  m s = (Ok a, s') → (m ≫= f) s = f a s'.
Proof. intros H. unfold mbind, ST_bind. by rewrite H. Qed.

Lemma ST_bind_inv {S A B} (m : ST S A) (f : A → ST S B) (s s' : S) (b : B) :
  (m ≫= f) s = (Ok b, s') → ∃ a s1, m s = (Ok a, s1) ∧ f a s1 = (Ok b, s').
Proof.
  unfold mbind, ST_bind. destruct (m s) as [[] s1] eqn:E; try discriminate.
  intros H. by exists a, s1.
Qed.

Lemma zoom_Ok {S T A} (get : S → T) (set : T → S → S) (m : ST T A) s a t :
  m (get s) = (Ok a, t) → zoom get set m s = (Ok a, set t s).
Proof. intros H. unfold zoom. by rewrite H. Qed.

(** ** Integers *)

Lemma wrap64_small z : is_u64 z → wrap64 z = z.
Proof. intros. by apply Z.mod_small. Qed.

Lemma wrap32_small z : is_u32 z → wrap32 z = z.
Proof. intros. by apply Z.mod_small. Qed.

Lemma wrap64_range z : is_u64 (wrap64 z).
Proof. apply Z.mod_pos_bound. lia. Qed.

Lemma swrap64_small z : - 2 ^ 63 ≤ z < 2 ^ 63 → swrap64 z = z.
Proof. intros. unfold swrap64. rewrite Z.mod_small by lia. lia. Qed.

#[export] Hint Resolve wrap64_range : pdb.
#[export] Hint Rewrite @length_app @length_drop @length_take @length_replicate
  @length_insert @length_fmap @length_seqZ @length_reverse : pdb.
