(* ===== verification/Bytes.v ===== *)
(** * Bytes, little and big endian integers, slices

    What the code uses of [u8], [to_le_bytes], [from_le_bytes],
    [from_be_bytes] and slice indexing. *)

From Stdlib Require Export Strings.Byte.
From S2P Require Import Prelude.
From stdpp Require Import options.
#[local] Set Default Proof Using "Type*".

#[global] Instance byte_eq_dec : EqDecision byte := Byte.byte_eq_dec.

#[global] Program Instance byte_countable : Countable byte :=
  inj_countable Byte.to_N Byte.of_N _.
Next Obligation. intros b. apply Byte.of_to_N. Qed.

Abbreviation bytes := (list byte).

(** [b as u64]. *)
Definition byte_val (b : byte) : Z := Z.of_N (Byte.to_N b).

(** [z as u8]. *)
Definition byte_of (z : Z) : byte := default x00 (Byte.of_N (Z.to_N (z mod 2 ^ 8))).

(** [uN::to_le_bytes], N = 8 n. *)
Fixpoint le_encode (n : nat) (z : Z) : bytes :=
  match n with
  | O => []
  | S n' => byte_of z :: le_encode n' (z / 2 ^ 8)
  end.

(** [uN::from_le_bytes]. *)
Fixpoint le_decode (bs : bytes) : Z :=
  match bs with
  | [] => 0
  | b :: bs' => byte_val b + 2 ^ 8 * le_decode bs'
  end.

(** [uN::to_be_bytes] and [uN::from_be_bytes]. *)
Definition be_encode (n : nat) (z : Z) : bytes := reverse (le_encode n z).
Definition be_decode (bs : bytes) : Z := le_decode (reverse bs).

(** [&l[a..b]]: panics unless [a <= b <= l.len()]. *)
Definition slice {A} (a b : nat) (l : list A) : outcome (list A) :=
  if (a <=? b)%nat && (b <=? length l)%nat then Ok (take (b - a) (drop a l)) else Panic.

(** [l[a..a + d.len()].copy_from_slice(d)]. *)
Definition splice {A} (a : nat) (d l : list A) : outcome (list A) :=
  if (a + length d <=? length l)%nat then Ok (take a l ++ d ++ drop (a + length d) l)
  else Panic.

(** [let len = dest.len().min(d.len()); dest[0..len].copy_from_slice(&d[0..len])]. *)
Definition copy_into {A} (d dest : list A) : list A :=
  let len := Nat.min (length dest) (length d) in take len d ++ drop len dest.

(** Lexicographic comparison of byte strings, [Ord for [u8]]. *)
Fixpoint bytes_compare (a b : bytes) : comparison :=
  match a, b with
  | [], [] => Eq
  | [], _ :: _ => Lt
  | _ :: _, [] => Gt
  | x :: a', y :: b' =>
      match byte_val x ?= byte_val y with
      | Eq => bytes_compare a' b'
      | c => c
      end
  end.

(** ** Bytes *)

Lemma byte_val_range b : 0 ≤ byte_val b < 2 ^ 8.
Proof. unfold byte_val. destruct b; vm_compute; split; congruence. Qed.

Lemma byte_of_val b : byte_of (byte_val b) = b.
Proof. destruct b; reflexivity. Qed.

Lemma byte_val_inj a b : byte_val a = byte_val b → a = b.
Proof. intros H. by rewrite <- (byte_of_val a), H, byte_of_val. Qed.

Lemma byte_val_of z : byte_val (byte_of z) = z mod 2 ^ 8.
Proof.
  unfold byte_val, byte_of.
  pose proof (Z.mod_pos_bound z (2 ^ 8) ltac:(lia)) as Hz.
  destruct (Byte.of_N (Z.to_N (z mod 2 ^ 8))) as [b|] eqn:E; simpl.
  - apply Byte.to_of_N in E. rewrite E. lia.
  - apply Byte.of_N_None_iff in E. lia.
Qed.

(** ** Little endian *)

Lemma length_le_encode n z : length (le_encode n z) = n.
Proof. revert z. induction n; intros; simpl; auto. Qed.

Lemma length_be_encode n z : length (be_encode n z) = n.
Proof. unfold be_encode. by rewrite length_reverse, length_le_encode. Qed.

Lemma le_decode_encode n z : le_decode (le_encode n z) = z mod 2 ^ (8 * Z.of_nat n).
Proof.
  revert z. induction n as [|n IH]; intros z.
  - simpl. by rewrite Z.mod_1_r.
  - cbn [le_encode le_decode]. rewrite IH, byte_val_of.
    replace (8 * Z.of_nat (S n)) with (8 + 8 * Z.of_nat n) by lia.
    rewrite Z.pow_add_r by lia. rewrite Z.rem_mul_r by lia. lia.
Qed.

Lemma le_decode_encode_small n z :
  0 ≤ z < 2 ^ (8 * Z.of_nat n) → le_decode (le_encode n z) = z.
Proof. intros. rewrite le_decode_encode. by apply Z.mod_small. Qed.

Lemma le_decode_range bs : 0 ≤ le_decode bs < 2 ^ (8 * Z.of_nat (length bs)).
Proof.
  induction bs as [|b bs IH]; [simpl; lia|].
  cbn [le_decode length]. pose proof (byte_val_range b).
  replace (8 * Z.of_nat (S (length bs))) with (8 + 8 * Z.of_nat (length bs)) by lia.
  rewrite Z.pow_add_r by lia. nia.
Qed.

Lemma le_encode_decode bs : le_encode (length bs) (le_decode bs) = bs.
Proof.
  induction bs as [|b bs IH]; [done|]. cbn [le_encode le_decode length].
  pose proof (byte_val_range b). f_equal.
  - apply byte_val_inj. rewrite byte_val_of.
    rewrite (Z.mul_comm (2 ^ 8)), Z.mod_add by lia. by apply Z.mod_small.
  - rewrite (Z.mul_comm (2 ^ 8)), Z.div_add by lia.
    rewrite Z.div_small by lia. by rewrite Z.add_0_l.
Qed.

Lemma le_encode_inj n a b :
  0 ≤ a < 2 ^ (8 * Z.of_nat n) → 0 ≤ b < 2 ^ (8 * Z.of_nat n) →
  le_encode n a = le_encode n b → a = b.
Proof.
  intros Ha Hb H. by rewrite <- (le_decode_encode_small n a), H, le_decode_encode_small.
Qed.

Lemma le_decode_app a b :
  le_decode (a ++ b) = le_decode a + 2 ^ (8 * Z.of_nat (length a)) * le_decode b.
Proof.
  induction a as [|x a IH]; [simpl; lia|].
  cbn [le_decode app length]. rewrite IH.
  replace (8 * Z.of_nat (S (length a))) with (8 + 8 * Z.of_nat (length a)) by lia.
  rewrite Z.pow_add_r by lia. lia.
Qed.

Lemma be_decode_encode n z : be_decode (be_encode n z) = z mod 2 ^ (8 * Z.of_nat n).
Proof. unfold be_decode, be_encode. by rewrite reverse_involutive, le_decode_encode. Qed.

Lemma be_decode_range bs : 0 ≤ be_decode bs < 2 ^ (8 * Z.of_nat (length bs)).
Proof. unfold be_decode. rewrite <- (length_reverse bs). apply le_decode_range. Qed.

#[export] Hint Rewrite @length_le_encode @length_be_encode : pdb.

#[global] Arguments le_encode : simpl never.
#[global] Arguments le_decode : simpl never.

(** ** Slices *)

Lemma slice_Ok {A} (a b : nat) (l : list A) :
  (a ≤ b ≤ length l)%nat → slice a b l = Ok (take (b - a) (drop a l)).
Proof.
  intros [? ?]. unfold slice.
  destruct (Nat.leb_spec a b), (Nat.leb_spec b (length l)); simpl; (reflexivity || lia).
Qed.

Lemma splice_Ok {A} (a : nat) (d l : list A) :
  (a + length d ≤ length l)%nat →
  splice a d l = Ok (take a l ++ d ++ drop (a + length d) l).
Proof. intros. unfold splice. by destruct (Nat.leb_spec (a + length d) (length l)); [|lia]. Qed.

Lemma length_spliced {A} (a : nat) (d l : list A) :
  (a + length d ≤ length l)%nat →
  length (take a l ++ d ++ drop (a + length d) l) = length l.
Proof. intros. len. Qed.

Lemma take_drop_splice_same {A} (a : nat) (d l : list A) :
  (a ≤ length l)%nat → take (length d) (drop a (take a l ++ d ++ drop (a + length d) l)) = d.
Proof.
  intros. rewrite drop_app_length' by len.
  by rewrite take_app_length.
Qed.

(** A window before or after the spliced range is not affected. *)
Lemma take_drop_splice_before {A} (a b n : nat) (d l : list A) :
  (b + n ≤ a)%nat → (a ≤ length l)%nat →
  take n (drop b (take a l ++ d ++ drop (a + length d) l)) = take n (drop b l).
Proof.
  intros. rewrite drop_app_le by len. rewrite take_app_le by len.
  rewrite !take_drop_commute, take_take. do 2 f_equal. lia.
Qed.

Lemma take_drop_splice_after {A} (a b : nat) (d l : list A) :
  (a + length d ≤ b)%nat → (a ≤ length l)%nat →
  drop b (take a l ++ d ++ drop (a + length d) l) = drop b l.
Proof.
  intros. rewrite drop_app_ge by len. rewrite drop_app_ge by len.
  rewrite drop_drop. f_equal. len.
Qed.

Lemma copy_into_prefix {A} (d dest : list A) :
  (length d ≤ length dest)%nat → copy_into d dest = d ++ drop (length d) dest.
Proof.
  intros. unfold copy_into. rewrite Nat.min_r by lia. by rewrite (take_ge d) by lia.
Qed.

Lemma length_copy_into {A} (d dest : list A) : length (copy_into d dest) = length dest.
Proof. unfold copy_into. len. Qed.

#[export] Hint Rewrite @length_copy_into : pdb.

(** ** Comparison *)

Lemma bytes_compare_eq a b : bytes_compare a b = Eq ↔ a = b.
Proof.
  revert b. induction a as [|x a IH]; intros [|y b]; simpl; try (split; congruence).
  destruct (Z.compare_spec (byte_val x) (byte_val y)) as [E|E|E].
  - apply byte_val_inj in E as ->. rewrite IH. split; congruence.
  - split; [discriminate|]. intros [= -> _]. lia.
  - split; [discriminate|]. intros [= -> _]. lia.
Qed.

Lemma bytes_compare_refl a : bytes_compare a a = Eq.
Proof. by apply bytes_compare_eq. Qed.

Lemma bytes_compare_antisym a b : bytes_compare b a = CompOpp (bytes_compare a b).
Proof.
  revert b. induction a as [|x a IH]; intros [|y b]; simpl; try done.
  rewrite (Z.compare_antisym (byte_val x) (byte_val y)).
  destruct (byte_val x ?= byte_val y); simpl; auto.
Qed.

Lemma bytes_compare_trans a b c :
  bytes_compare a b = Lt → bytes_compare b c = Lt → bytes_compare a c = Lt.
Proof.
  revert b c. induction a as [|x a IH]; intros [|y b] [|z c]; simpl; try done.
  destruct (Z.compare_spec (byte_val x) (byte_val y)),
    (Z.compare_spec (byte_val y) (byte_val z)); try done; intros.
  - destruct (Z.compare_spec (byte_val x) (byte_val z)); try lia; eauto.
  - destruct (Z.compare_spec (byte_val x) (byte_val z)); try lia; eauto.
  - destruct (Z.compare_spec (byte_val x) (byte_val z)); try lia; eauto.
  - destruct (Z.compare_spec (byte_val x) (byte_val z)); try lia; eauto.
Qed.
