(* ===== verification/Ids.v ===== *)
(** * Identifiers: keys, table identifiers, value addresses

    The newtypes the other components exchange: [Key] (src/src/lib.rs), the
    [TableId] of index tables (src/src/index.rs), the [TableId] of value tables
    (src/src/table.rs) and [Address] (src/src/index.rs). *)

From S2P Require Import Prelude.
From S2P Require Import Bytes.
From stdpp Require Import options.
#[local] Set Default Proof Using "Type*".

(** [KEY_SIZE] and [type Key = [u8; KEY_SIZE]]: a list of 32 bytes. *)
Definition KEY_SIZE : nat := 32.
Definition Key : Type := bytes.
Definition is_key (k : Key) : Prop := length k = KEY_SIZE.

(** [type ColId = u8]. *)
Definition ColId : Type := Z.

(** [CHUNK_LEN], [CHUNK_ENTRIES] and the chunk of 64 eight-byte entries. *)
Definition CHUNK_ENTRIES_BITS : Z := 6.
Definition CHUNK_ENTRIES : nat := 64.
Definition ENTRY_BYTES : nat := 8.
Definition CHUNK_LEN : nat := CHUNK_ENTRIES * ENTRY_BYTES.
Definition Chunk : Type := bytes.
Definition is_chunk (c : Chunk) : Prop := length c = CHUNK_LEN.
Definition EMPTY_CHUNK : Chunk := replicate CHUNK_LEN x00.

(** [SIZE_TIERS_BITS] and [SIZE_TIERS] of src/src/table.rs. *)
Definition SIZE_TIERS_BITS : Z := 8.
Definition SIZE_TIERS : nat := 256.

(** ** [TableId] of an index table: column in the high byte, index bits in the
    low byte of a [u16]. *)
Record IndexTableId := MkIndexTableId { index_table_u16 : Z }.

#[global] Instance IndexTableId_eq_dec : EqDecision IndexTableId.
Proof. solve_decision. Defined.
#[global] Program Instance IndexTableId_countable : Countable IndexTableId :=
  inj_countable' index_table_u16 MkIndexTableId _.
Next Obligation. by intros []. Qed.

Module IndexTableId.
Definition new (col : ColId) (index_bits : Z) : IndexTableId :=
  MkIndexTableId (Z.lor (wrap16 (Z.shiftl col 8)) index_bits).
Definition from_u16 (id : Z) : IndexTableId := MkIndexTableId id.
Definition as_u16 (t : IndexTableId) : Z := index_table_u16 t.
Definition col (t : IndexTableId) : ColId := wrap8 (Z.shiftr (index_table_u16 t) 8).
Definition index_bits (t : IndexTableId) : Z := wrap8 (Z.land (index_table_u16 t) 0xff).
Definition total_chunks (t : IndexTableId) : Z := shl64 1 (index_bits t).
Definition total_entries (t : IndexTableId) : Z :=
  wrap64 (total_chunks t * Z.of_nat CHUNK_ENTRIES).
End IndexTableId.

(** ** [TableId] of a value table: column and size tier. *)
Record ValueTableId := MkValueTableId { value_table_u16 : Z }.

#[global] Instance ValueTableId_eq_dec : EqDecision ValueTableId.
Proof. solve_decision. Defined.
#[global] Program Instance ValueTableId_countable : Countable ValueTableId :=
  inj_countable' value_table_u16 MkValueTableId _.
Next Obligation. by intros []. Qed.

Module ValueTableId.
Definition new (col : ColId) (size_tier : Z) : ValueTableId :=
  MkValueTableId (Z.lor (wrap16 (Z.shiftl col 8)) size_tier).
Definition from_u16 (id : Z) : ValueTableId := MkValueTableId id.
Definition as_u16 (t : ValueTableId) : Z := value_table_u16 t.
Definition col (t : ValueTableId) : ColId := wrap8 (Z.shiftr (value_table_u16 t) 8).
Definition size_tier (t : ValueTableId) : Z := wrap8 (Z.land (value_table_u16 t) 0xff).
End ValueTableId.

(** ** [Address]: offset of the entry in its value table, size tier in the low
    [SIZE_TIERS_BITS] bits. *)
Record Address := MkAddress { address_u64 : Z }.

#[global] Instance Address_eq_dec : EqDecision Address.
Proof. solve_decision. Defined.

Module Address.
Definition new (offset size_tier : Z) : Address :=
  MkAddress (Z.lor (shl64 offset SIZE_TIERS_BITS) size_tier).
Definition from_u64 (a : Z) : Address := MkAddress a.
Definition offset (a : Address) : Z := shr64 (address_u64 a) SIZE_TIERS_BITS.
Definition size_tier (a : Address) : Z :=
  wrap8 (Z.land (address_u64 a) (Z.shiftl 1 SIZE_TIERS_BITS - 1)).
Definition as_u64 (a : Address) : Z := address_u64 a.
End Address.

(** ** Packing a field above [n] low bits *)

(** [(hi << n) | lo] for [lo] of [n] bits is [hi * 2^n + lo]. *)
Lemma lor_shiftl_add hi lo n :
  0 ≤ n → 0 ≤ lo < 2 ^ n → Z.lor (Z.shiftl hi n) lo = hi * 2 ^ n + lo.
Proof.
  intros Hn Hlo. rewrite Z.shiftl_mul_pow2 by done. symmetry.
  rewrite Z.add_nocarry_lxor, <- Z.lxor_lor; try done.
  all: apply Z.bits_inj'; intros i Hi; rewrite Z.land_spec, Z.bits_0;
    destruct (Z.lt_ge_cases i n).
  1, 3: by rewrite Z.mul_pow2_bits_low by lia.
  all: rewrite <- (Z.mod_small lo (2 ^ n)), Z.mod_pow2_bits_high by lia;
    by rewrite andb_false_r.
Qed.

Lemma pack_low hi lo n : 0 ≤ n → 0 ≤ lo < 2 ^ n →
  Z.land (Z.lor (Z.shiftl hi n) lo) (2 ^ n - 1) = lo.
Proof.
  intros Hn Hlo. rewrite lor_shiftl_add by done.
  replace (2 ^ n - 1) with (Z.ones n) by (rewrite Z.ones_equiv; lia).
  rewrite Z.land_ones by done. rewrite Z.add_comm, Z.mod_add by lia.
  by apply Z.mod_small.
Qed.

Lemma pack_high hi lo n : 0 ≤ n → 0 ≤ lo < 2 ^ n →
  Z.shiftr (Z.lor (Z.shiftl hi n) lo) n = hi.
Proof.
  intros Hn Hlo. rewrite lor_shiftl_add, Z.shiftr_div_pow2 by done.
  rewrite Z.add_comm, Z.div_add by lia. rewrite Z.div_small by done. lia.
Qed.

Lemma lor_shiftl_range hi lo n m : 0 ≤ n → 0 ≤ lo < 2 ^ n → 0 ≤ m → 0 ≤ hi < 2 ^ m →
  0 ≤ Z.lor (Z.shiftl hi n) lo < 2 ^ (m + n).
Proof. intros. rewrite lor_shiftl_add, Z.pow_add_r by lia. nia. Qed.

(** ** Round trips of the identifiers *)

Lemma wrap16_shiftl8 c : is_u8 c → wrap16 (Z.shiftl c 8) = Z.shiftl c 8.
Proof.
  unfold is_u8. intros. apply Z.mod_small. rewrite Z.shiftl_mul_pow2 by lia. lia.
Qed.

Lemma index_id_new c b : is_u8 c → is_u8 b →
  IndexTableId.col (IndexTableId.new c b) = c ∧
  IndexTableId.index_bits (IndexTableId.new c b) = b ∧
  is_u16 (IndexTableId.as_u16 (IndexTableId.new c b)).
Proof.
  intros Hc Hb. unfold IndexTableId.col, IndexTableId.index_bits, IndexTableId.as_u16,
    IndexTableId.new; simpl.
  rewrite wrap16_shiftl8 by done. unfold is_u8, is_u16, wrap8 in *. split; [|split].
  - rewrite pack_high by lia. by apply Z.mod_small.
  - change 255 with (2 ^ 8 - 1). rewrite pack_low by lia. by apply Z.mod_small.
  - apply (lor_shiftl_range _ _ 8 8); lia.
Qed.

Lemma value_id_new c b : is_u8 c → is_u8 b →
  ValueTableId.col (ValueTableId.new c b) = c ∧
  ValueTableId.size_tier (ValueTableId.new c b) = b ∧
  is_u16 (ValueTableId.as_u16 (ValueTableId.new c b)).
Proof.
  intros Hc Hb. unfold ValueTableId.col, ValueTableId.size_tier, ValueTableId.as_u16,
    ValueTableId.new; simpl.
  rewrite wrap16_shiftl8 by done. unfold is_u8, is_u16, wrap8 in *. split; [|split].
  - rewrite pack_high by lia. by apply Z.mod_small.
  - change 255 with (2 ^ 8 - 1). rewrite pack_low by lia. by apply Z.mod_small.
  - apply (lor_shiftl_range _ _ 8 8); lia.
Qed.

Lemma address_new o t : 0 ≤ o < 2 ^ 56 → is_u8 t →
  Address.offset (Address.new o t) = o ∧ Address.size_tier (Address.new o t) = t ∧
  is_u64 (Address.as_u64 (Address.new o t)).
Proof.
  intros Ho Ht. unfold Address.offset, Address.size_tier, Address.as_u64, Address.new,
    SIZE_TIERS_BITS, shl64, shr64; cbn [address_u64].
  change (8 mod 64) with 8.
  assert (wrap64 (Z.shiftl o 8) = Z.shiftl o 8) as ->.
  { apply wrap64_small. unfold is_u64. rewrite Z.shiftl_mul_pow2 by lia. lia. }
  unfold is_u8, is_u64 in *. split; [|split].
  - by rewrite pack_high by lia.
  - change (Z.shiftl 1 8 - 1) with (2 ^ 8 - 1). rewrite pack_low by lia.
    by apply Z.mod_small.
  - apply (lor_shiftl_range _ _ 8 56); lia.
Qed.

(** An address is determined by its offset and its tier. *)
Lemma address_offset_tier a : is_u64 (Address.as_u64 a) →
  Address.new (Address.offset a) (Address.size_tier a) = a.
Proof.
  destruct a as [z]. unfold Address.new, Address.offset, Address.size_tier,
    Address.as_u64, SIZE_TIERS_BITS, shl64, shr64, is_u64; cbn [address_u64]. intros Hz.
  change (8 mod 64) with 8. f_equal.
  change (Z.shiftl 1 8 - 1) with (Z.ones 8). rewrite Z.land_ones by lia.
  rewrite Z.shiftr_div_pow2 by lia.
  pose proof (Z.mod_pos_bound z (2 ^ 8) ltac:(lia)).
  pose proof (Z.div_mod z (2 ^ 8) ltac:(lia)).
  assert (0 ≤ z / 2 ^ 8 < 2 ^ 56) by (split; [apply Z.div_pos|apply Z.div_lt_upper_bound]; lia).
  rewrite wrap64_small by (unfold is_u64; rewrite Z.shiftl_mul_pow2; lia).
  unfold wrap8. rewrite Z.mod_mod by lia. rewrite lor_shiftl_add by lia. lia.
Qed.
