(* ===== verification/File.v ===== *)
(** * Value table files (src/src/file.rs)

    A file is the list of its bytes. What the operating system may refuse
    (no space, permissions) is not modelled; a read past the end of the file
    is [UnexpectedEof], as [read_exact_at] reports it. *)

From S2P Require Import Prelude.
From S2P Require Import Bytes.
From S2P Require Import Ids.
From stdpp Require Import options.
#[local] Set Default Proof Using "Type*".

(** ** Files of the operating system *)

(** [File::set_len]. *)
Definition set_len (n : nat) (f : bytes) : bytes :=
  take n f ++ replicate (n - length f) x00.

(** [FileExt::read_exact_at] into a buffer of [n] bytes. *)
Definition read_exact_at (n offset : nat) (f : bytes) : outcome bytes :=
  if (offset + n <=? length f)%nat then Ok (take n (drop offset f))
  else Err (Io UnexpectedEof).

(** [FileExt::write_all_at]: a hole between the end of the file and the offset
    reads as zeros. *)
Definition write_all_at (d : bytes) (offset : nat) (f : bytes) : bytes :=
  let f' := f ++ replicate (offset - length f) x00 in
  take offset f' ++ d ++ drop (offset + length d) f'.

(** ** [TableFile] *)

Definition GROW_SIZE_BYTES : Z := 256 * 1024.

Record TableFile := MkTableFile {
  file : option bytes;
  capacity : Z;
  dirty : bool;
  file_id : ValueTableId;
}.

Module TableFile.

(** [TableFile::open]: [existing] is the content of the file at the path, if
    there is one. *)
Definition open (existing : option bytes) (entry_size : Z) (id : ValueTableId) : TableFile :=
  match existing with
  | Some f =>
      if (length f =? 0)%nat then
        let capacity := GROW_SIZE_BYTES / entry_size in
        MkTableFile (Some (set_len (Z.to_nat (wrap64 (capacity * entry_size))) f))
          capacity false id
      else MkTableFile (Some f) (Z.of_nat (length f) / entry_size) false id
  | None => MkTableFile None 0 false id
  end.

(** [TableFile::read_at]. *)
Definition read_at (t : TableFile) (n : nat) (offset : Z) : outcome bytes :=
  f ← unwrap (file t); read_exact_at n (Z.to_nat offset) f.

(** [TableFile::write_at]. *)
Definition write_at (buf : bytes) (offset : Z) : ST TableFile unit := fun t =>
  let t := MkTableFile (file t) (capacity t) true (file_id t) in
  match file t with
  | Some f =>
      (Ok tt, MkTableFile (Some (write_all_at buf (Z.to_nat offset) f)) (capacity t)
                true (file_id t))
  | None => (Panic, t)
  end.

(** [TableFile::grow], which creates the file ([create_file]) when there is
    none. *)
Definition grow (entry_size : Z) : ST TableFile unit := fun t =>
  let capacity := wrap64 (capacity t + GROW_SIZE_BYTES / entry_size) in
  let f := default [] (file t) in
  (Ok tt, MkTableFile (Some (set_len (Z.to_nat (wrap64 (capacity * entry_size))) f))
            capacity (dirty t) (file_id t)).

(** [TableFile::flush]: the data reaches the disk, the dirty flag is reset. *)
Definition flush : ST TableFile unit := fun t =>
  (Ok tt, MkTableFile (file t) (capacity t) false (file_id t)).

End TableFile.

(** ** Reads of what was written *)

Lemma length_set_len n f : length (set_len n f) = n.
Proof. unfold set_len. len. Qed.

Lemma set_len_prefix n f : (length f ≤ n)%nat → set_len n f = f ++ replicate (n - length f) x00.
Proof. intros. unfold set_len. by rewrite take_ge by lia. Qed.

Lemma length_write_all_at d o f :
  length (write_all_at d o f) = Nat.max (length f) (o + length d).
Proof. unfold write_all_at. len. Qed.

#[export] Hint Rewrite length_set_len length_write_all_at : pdb.

(** A write reads back, whatever the file held. *)
Lemma read_write_same d o f : read_exact_at (length d) o (write_all_at d o f) = Ok d.
Proof.
  unfold read_exact_at. rewrite length_write_all_at.
  destruct (Nat.leb_spec (o + length d) (Nat.max (length f) (o + length d))); [|lia].
  f_equal. unfold write_all_at. apply take_drop_splice_same. len.
Qed.

(** The window [o', o' + n) of the file, when the write covers its first
    [length d] bytes: the data followed by what was there. *)
Lemma read_write_prefix d o n f :
  (length d ≤ n)%nat → (o + n ≤ length f)%nat →
  read_exact_at n o (write_all_at d o f) = Ok (d ++ take (n - length d) (drop (o + length d) f)).
Proof.
  intros. unfold read_exact_at. rewrite length_write_all_at.
  destruct (Nat.leb_spec (o + n) (Nat.max (length f) (o + length d))); [|lia].
  f_equal. unfold write_all_at. replace (o - length f)%nat with 0%nat by lia.
  rewrite app_nil_r, drop_app_length' by len.
  rewrite take_app_ge by lia. done.
Qed.

(** A disjoint window is unchanged. *)
Lemma read_write_other d o o' n f :
  (o' + n ≤ o ∨ o + length d ≤ o')%nat → (o' + n ≤ length f)%nat →
  read_exact_at n o' (write_all_at d o f) = read_exact_at n o' f.
Proof.
  intros Hdis Hlen. unfold read_exact_at. rewrite length_write_all_at.
  destruct (Nat.leb_spec (o' + n) (length f)); [|lia].
  destruct (Nat.leb_spec (o' + n) (Nat.max (length f) (o + length d))); [|lia].
  f_equal. unfold write_all_at. destruct Hdis.
  - rewrite take_drop_splice_before by len. by rewrite drop_app_le, take_app_le by len.
  - replace (o - length f)%nat with 0%nat by lia. rewrite app_nil_r.
    by rewrite take_drop_splice_after by len.
Qed.

(** Growing a file does not change a window that was inside it. *)
Lemma read_set_len o n m f :
  (o + n ≤ length f)%nat → (length f ≤ m)%nat →
  read_exact_at n o (set_len m f) = read_exact_at n o f.
Proof.
  intros. unfold read_exact_at. rewrite length_set_len.
  destruct (Nat.leb_spec (o + n) m), (Nat.leb_spec (o + n) (length f)); try lia.
  f_equal. rewrite set_len_prefix by done. by rewrite drop_app_le, take_app_le by len.
Qed.
