(* ===== verification/Log.v ===== *)
(** * The write-ahead log (src/src/log.rs)

    [LogWriter] collects the index chunks and value entries a record modifies,
    [LogChange::flush_to_file] serialises them, [LogReader] reads them back, and
    [LogOverlays] makes them visible to queries until they are enacted. The
    iteration order of a [HashMap] and the CRC-32 function of crc32fast are
    parameters. *)

From S2P Require Import Prelude.
From S2P Require Import Bytes.
From S2P Require Import Ids.
From stdpp Require Import options.
#[local] Set Default Proof Using "Type*".

(** ** Parameters *)

(** The order in which [HashMap::iter] enumerates a map: unspecified, each
    entry once. *)
Class HashMapOrder := {
  iter : ∀ {K A : Type} `{Countable K}, gmap K A → list (K * A);
  iter_perm : ∀ {K A : Type} `{Countable K} (m : gmap K A), iter m ≡ₚ map_to_list m;
}.

(** [crc32fast::Hasher]: the checksum of the bytes it was updated with. *)
Class Crc32 := {
  crc32 : bytes → Z;
  crc32_range : ∀ bs, is_u32 (crc32 bs);
}.

(** ** Constants *)

Definition BEGIN_RECORD : Z := 1.
Definition INSERT_INDEX : Z := 2.
Definition INSERT_VALUE : Z := 3.
Definition END_RECORD : Z := 4.
Definition DROP_TABLE : Z := 5.
Definition MAX_LOG_POOL_SIZE : nat := 16.

(** [LogAction], with the payloads of [InsertIndexAction] and
    [InsertValueAction]. *)
Inductive LogAction :=
| BeginRecord
| InsertIndex (table : IndexTableId) (index : Z)
| InsertValue (table : ValueTableId) (index : Z)
| DropTable (table : IndexTableId)
| EndRecord.

(** ** Overlays *)

(** [IndexLogOverlay]: chunk index to (record id, mask of modified entries,
    chunk). *)
Abbreviation IndexLogOverlay := (gmap Z (Z * Z * Chunk)).

(** [ValueLogOverlay]: entry index to (record id, entry). *)
Abbreviation ValueLogOverlay := (gmap Z (Z * bytes)).

Record LogOverlays := MkLogOverlays {
  ov_index : gmap IndexTableId IndexLogOverlay;
  ov_value : gmap ValueTableId ValueLogOverlay;
  ov_last_record_id : gmap ColId Z;
}.

Definition empty_overlays : LogOverlays := MkLogOverlays ∅ ∅ ∅.

(** [LogOverlays::last_record_id]. *)
Definition last_record_id (o : LogOverlays) (col : ColId) : Z :=
  default U64_MAX (ov_last_record_id o !! col).

(** ** [trait LogQuery] *)

Class LogQuery (L : Type) := {
  with_index : ∀ {R : Type}, L → IndexTableId → Z → (Chunk → R) → option R;
  value : L → ValueTableId → Z → bytes → bool * bytes;
}.

(** What a client may rely on: both queries read one finite view of the log,
    and [value] copies the common prefix into the destination. *)
Class LogView (L : Type) `{LogQuery L} := {
  index_view : L → IndexTableId → Z → option Chunk;
  value_view : L → ValueTableId → Z → option bytes;
  with_index_view : ∀ {R : Type} l t i (f : Chunk → R),
    with_index l t i f = f <$> index_view l t i;
  value_value_view : ∀ l t i dest,
    value l t i dest =
      match value_view l t i with
      | Some d => (true, copy_into d dest)
      | None => (false, dest)
      end;
}.

(** Looking an entry up in a map of overlays. *)
Definition overlay_lookup {K A : Type} `{Countable K} (m : gmap K (gmap Z A)) (t : K) (i : Z)
  : option A := m !! t ≫= fun o => o !! i.

(** [impl LogQuery for LogOverlays]. *)
#[global] Instance LogOverlays_query : LogQuery LogOverlays := {
  with_index R o t i f :=
    (fun '(_, _, data) => f data) <$> overlay_lookup (ov_index o) t i;
  value o t i dest :=
    match overlay_lookup (ov_value o) t i with
    | Some (_, d) => (true, copy_into d dest)
    | None => (false, dest)
    end;
}.

(** ** [LogChange] and [LogWriter] *)

Record LogChange := MkLogChange {
  local_index : gmap IndexTableId IndexLogOverlay;
  local_values : gmap ValueTableId ValueLogOverlay;
  change_record_id : Z;
  dropped_tables : list IndexTableId;
}.

(** [LogChange::new]. *)
Definition LogChange_new (record_id : Z) : LogChange := MkLogChange ∅ ∅ record_id [].

(** [LogChange::local_values_changes]. *)
Definition local_values_changes (c : LogChange) (id : ValueTableId) : option ValueLogOverlay :=
  local_values c !! id.

Record LogWriter := MkLogWriter {
  writer_overlays : LogOverlays;
  writer_log : LogChange;
}.

Module LogWriter.

(** [LogWriter::new]. *)
Definition new (overlays : LogOverlays) (record_id : Z) : LogWriter :=
  MkLogWriter overlays (LogChange_new record_id).

(** [LogWriter::record_id]. *)
Definition record_id (w : LogWriter) : Z := change_record_id (writer_log w).

(** [LogWriter::insert_index]. *)
Definition insert_index (table : IndexTableId) (index sub : Z) (data : Chunk)
    (w : LogWriter) : LogWriter :=
  let log := writer_log w in
  let overlay := default ∅ (local_index log !! table) in
  let entry :=
    match overlay !! index with
    | Some (_, mask, _) => (change_record_id log, Z.lor mask (shl64 1 sub), data)
    | None => (change_record_id log, shl64 1 sub, data)
    end in
  MkLogWriter (writer_overlays w)
    (MkLogChange (<[table := <[index := entry]> overlay]> (local_index log))
       (local_values log) (change_record_id log) (dropped_tables log)).

(** [LogWriter::insert_value]. *)
Definition insert_value (table : ValueTableId) (index : Z) (data : bytes)
    (w : LogWriter) : LogWriter :=
  let log := writer_log w in
  let overlay := default ∅ (local_values log !! table) in
  MkLogWriter (writer_overlays w)
    (MkLogChange (local_index log)
       (<[table := <[index := (change_record_id log, data)]> overlay]> (local_values log))
       (change_record_id log) (dropped_tables log)).

(** [LogWriter::drop_table]. *)
Definition drop_table (id : IndexTableId) (w : LogWriter) : LogWriter :=
  let log := writer_log w in
  MkLogWriter (writer_overlays w)
    (MkLogChange (local_index log) (local_values log) (change_record_id log)
       (dropped_tables log ++ [id])).

(** [LogWriter::drain]. *)
Definition drain (w : LogWriter) : LogChange := writer_log w.

End LogWriter.

(** [impl LogQuery for LogWriter]: the record's own changes first, then the
    shared overlays. *)
#[global] Instance LogWriter_query : LogQuery LogWriter := {
  with_index R w t i f :=
    match overlay_lookup (local_index (writer_log w)) t i with
    | Some (_, _, data) => Some (f data)
    | None => with_index (writer_overlays w) t i f
    end;
  value w t i dest :=
    match overlay_lookup (local_values (writer_log w)) t i with
    | Some (_, d) => (true, copy_into d dest)
    | None => value (writer_overlays w) t i dest
    end;
}.

(** ** Masks of modified entries *)

(** [u64::trailing_zeros]. *)
Fixpoint pos_trailing_zeros (p : positive) : nat :=
  match p with
  | xO q => S (pos_trailing_zeros q)
  | _ => 0
  end.
Definition trailing_zeros (z : Z) : nat :=
  match z with
  | Zpos p => pos_trailing_zeros p
  | _ => 64
  end.

(** The entries [i] visited by
    [while mask != 0 { let i = mask.trailing_zeros(); mask &= !(1 << i); ... }].
    A [u64] has at most 64 bits set. *)
Fixpoint mask_loop (fuel : nat) (mask : Z) : list nat :=
  match fuel with
  | O => []
  | S fuel' =>
      if mask =? 0 then []
      else
        let i := trailing_zeros mask in
        i :: mask_loop fuel' (Z.ldiff mask (Z.shiftl 1 (Z.of_nat i)))
  end.
Definition mask_entries (mask : Z) : list nat := mask_loop 64 mask.

(** ** Serialising a record *)

(** [&chunk[i * ENTRY_BYTES..(i + 1) * ENTRY_BYTES]]. *)
Definition chunk_entry (chunk : Chunk) (i : nat) : bytes :=
  take ENTRY_BYTES (drop (i * ENTRY_BYTES) chunk).

Section Flush.
Context `{!HashMapOrder, !Crc32}.

(** The two nested loops over [self.local_index]. *)
Definition flush_index_entry (id : IndexTableId) (e : Z * (Z * Z * Chunk)) : bytes :=
  let '(index, (_, mask, chunk)) := e in
  le_encode 1 INSERT_INDEX ++ le_encode 2 (IndexTableId.as_u16 id) ++ le_encode 8 index ++
  le_encode 8 mask ++ concat (chunk_entry chunk <$> mask_entries mask).
Definition flush_indexes (m : gmap IndexTableId IndexLogOverlay) : bytes :=
  concat ((fun '(id, overlay) => concat (flush_index_entry id <$> iter overlay)) <$> iter m).

(** The two nested loops over [self.local_values]. *)
Definition flush_value_entry (id : ValueTableId) (e : Z * (Z * bytes)) : bytes :=
  let '(index, (_, v)) := e in
  le_encode 1 INSERT_VALUE ++ le_encode 2 (ValueTableId.as_u16 id) ++ le_encode 8 index ++ v.
Definition flush_values (m : gmap ValueTableId ValueLogOverlay) : bytes :=
  concat ((fun '(id, overlay) => concat (flush_value_entry id <$> iter overlay)) <$> iter m).

(** The loop over [self.dropped_tables]. *)
Definition flush_drops (l : list IndexTableId) : bytes :=
  concat ((fun id => le_encode 1 DROP_TABLE ++ le_encode 2 (IndexTableId.as_u16 id)) <$> l).

(** Everything [flush_to_file] passes to its [write] closure, in order: this is
    what the checksum covers. *)
Definition flush_body (c : LogChange) : bytes :=
  le_encode 1 BEGIN_RECORD ++ le_encode 8 (change_record_id c) ++
  flush_indexes (local_index c) ++ flush_values (local_values c) ++
  flush_drops (dropped_tables c) ++ le_encode 1 END_RECORD.

Record FlushedLog := MkFlushedLog {
  flushed_index : gmap IndexTableId IndexLogOverlay;
  flushed_values : gmap ValueTableId ValueLogOverlay;
  flushed_bytes : Z;
}.

(** [LogChange::flush_to_file]: the bytes appended to the log file, and the
    [FlushedLog]. *)
Definition flush_to_file (c : LogChange) : bytes * FlushedLog :=
  let body := flush_body c in
  let checksum := crc32 body in
  let bytes_ := wrap64 (Z.of_nat (length body) + 4) in
  (body ++ le_encode 4 checksum,
   MkFlushedLog (local_index c) (local_values c) bytes_).

End Flush.

(** ** [LogReader] *)

Record Cleared := MkCleared {
  cleared_index : list (IndexTableId * Z);
  cleared_values : list (ValueTableId * Z);
}.

(** The buffered file is its content and a position; the CRC hasher is the
    bytes it has been updated with. *)
Record LogReader := MkLogReader {
  reader_file : bytes;
  reader_pos : nat;
  reader_record_id : Z;
  read_bytes : Z;
  reader_crc : bytes;
  validate : bool;
  cleared : Cleared;
}.

Module LogReader.

Definition new (file : bytes) (pos : nat) (validate : bool) : LogReader :=
  MkLogReader file pos 0 0 [] validate (MkCleared [] []).

(** [LogReader::reset]. *)
Definition reset (r : LogReader) : LogReader :=
  MkLogReader (reader_file r) (reader_pos r - Z.to_nat (read_bytes r)) 0 0 []
    (validate r) (MkCleared [] []).

(** [self.file.read_exact(buf)] for a buffer of [n] bytes. *)
Definition read_exact (n : nat) : ST LogReader bytes := fun r =>
  if (reader_pos r + n <=? length (reader_file r))%nat then
    (Ok (take n (drop (reader_pos r) (reader_file r))),
     MkLogReader (reader_file r) (reader_pos r + n) (reader_record_id r) (read_bytes r)
       (reader_crc r) (validate r) (cleared r))
  else (Err (Io UnexpectedEof), r).

Definition add_read_bytes (n : nat) (r : LogReader) : LogReader :=
  MkLogReader (reader_file r) (reader_pos r) (reader_record_id r)
    (wrap64 (read_bytes r + Z.of_nat n)) (reader_crc r) (validate r) (cleared r).

Definition update_crc (buf : bytes) (r : LogReader) : LogReader :=
  if validate r then
    MkLogReader (reader_file r) (reader_pos r) (reader_record_id r) (read_bytes r)
      (reader_crc r ++ buf) (validate r) (cleared r)
  else r.

(** [LogReader::read], and the closure [read_buf] of [LogReader::next]. *)
Definition read (n : nat) : ST LogReader bytes :=
  buf ← read_exact n;
  _ ← modify_st (add_read_bytes n);
  _ ← modify_st (update_crc buf);
  mret buf.

Definition set_record_id (id : Z) (r : LogReader) : LogReader :=
  MkLogReader (reader_file r) (reader_pos r) id (read_bytes r) (reader_crc r)
    (validate r) (cleared r).

Definition push_cleared_index (e : IndexTableId * Z) (r : LogReader) : LogReader :=
  MkLogReader (reader_file r) (reader_pos r) (reader_record_id r) (read_bytes r)
    (reader_crc r) (validate r)
    (MkCleared (cleared_index (cleared r) ++ [e]) (cleared_values (cleared r))).

Definition push_cleared_value (e : ValueTableId * Z) (r : LogReader) : LogReader :=
  MkLogReader (reader_file r) (reader_pos r) (reader_record_id r) (read_bytes r)
    (reader_crc r) (validate r)
    (MkCleared (cleared_index (cleared r)) (cleared_values (cleared r) ++ [e])).

Definition take_crc (r : LogReader) : LogReader :=
  MkLogReader (reader_file r) (reader_pos r) (reader_record_id r) (read_bytes r)
    [] (validate r) (cleared r).

Section Next.
Context `{!Crc32}.

(** [LogReader::next]. *)
Definition next : ST LogReader LogAction :=
  buf ← read 1;
  let tag := le_decode buf in
  if tag =? BEGIN_RECORD then
    buf ← read 8;
    _ ← modify_st (set_record_id (le_decode buf));
    mret BeginRecord
  else if tag =? INSERT_INDEX then
    buf ← read 2;
    let table := IndexTableId.from_u16 (le_decode buf) in
    buf ← read 8;
    let index := le_decode buf in
    _ ← modify_st (push_cleared_index (table, index));
    mret (InsertIndex table index)
  else if tag =? INSERT_VALUE then
    buf ← read 2;
    let table := ValueTableId.from_u16 (le_decode buf) in
    buf ← read 8;
    let index := le_decode buf in
    _ ← modify_st (push_cleared_value (table, index));
    mret (InsertValue table index)
  else if tag =? END_RECORD then
    buf ← read_exact 4;
    _ ← modify_st (add_read_bytes 4);
    r ← get_st;
    if validate r then
      let checksum := le_decode buf in
      let expected := crc32 (reader_crc r) in
      _ ← modify_st take_crc;
      if checksum =? expected then mret EndRecord
      else lift_st (Err (Corruption "Log record CRC-32 mismatch"))
    else mret EndRecord
  else if tag =? DROP_TABLE then
    buf ← read 2;
    mret (DropTable (IndexTableId.from_u16 (le_decode buf)))
  else lift_st (Err (Corruption "Bad log entry type")).

End Next.

(** [LogReader::drain]. *)
Definition drain (r : LogReader) : Cleared := cleared r.

End LogReader.

(** ** The queries read a finite view *)

#[global] Program Instance LogOverlays_view : LogView LogOverlays := {
  index_view o t i := snd <$> overlay_lookup (ov_index o) t i;
  value_view o t i := snd <$> overlay_lookup (ov_value o) t i;
}.
Next Obligation.
  intros R o t i f. unfold with_index; simpl.
  by destruct (overlay_lookup (ov_index o) t i) as [[[]]|].
Qed.
Next Obligation.
  intros o t i dest. unfold value; simpl.
  by destruct (overlay_lookup (ov_value o) t i) as [[]|].
Qed.

#[global] Program Instance LogWriter_view : LogView LogWriter := {
  index_view w t i :=
    match overlay_lookup (local_index (writer_log w)) t i with
    | Some (_, _, data) => Some data
    | None => index_view (writer_overlays w) t i
    end;
  value_view w t i :=
    match overlay_lookup (local_values (writer_log w)) t i with
    | Some (_, data) => Some data
    | None => value_view (writer_overlays w) t i
    end;
}.
Next Obligation.
  intros R w t i f. unfold with_index at 1; simpl.
  destruct (overlay_lookup (local_index (writer_log w)) t i) as [[[]]|]; [done|].
  by destruct (overlay_lookup (ov_index (writer_overlays w)) t i) as [[[]]|].
Qed.
Next Obligation.
  intros w t i dest. unfold value at 1; simpl.
  destruct (overlay_lookup (local_values (writer_log w)) t i) as [[]|]; [done|].
  by destruct (overlay_lookup (ov_value (writer_overlays w)) t i) as [[]|].
Qed.

Lemma overlay_lookup_empty {K A} `{Countable K} (t : K) i :
  overlay_lookup (∅ : gmap K (gmap Z A)) t i = None.
Proof. unfold overlay_lookup. by rewrite lookup_empty. Qed.

Lemma overlay_lookup_insert {K A} `{Countable K} (m : gmap K (gmap Z A)) t i t' i' a :
  overlay_lookup (<[t := <[i := a]> (default ∅ (m !! t))]> m) t' i' =
  if decide (t = t' ∧ i = i') then Some a else overlay_lookup m t' i'.
Proof.
  unfold overlay_lookup. rewrite lookup_insert.
  destruct (decide (t = t')) as [<-|Ht]; simpl.
  - rewrite lookup_insert. destruct (decide (i = i')) as [<-|Hi].
    + by rewrite decide_True.
    + rewrite decide_False by tauto. by destruct (m !! t); simpl; rewrite ?lookup_empty.
  - by rewrite decide_False by tauto.
Qed.

(** A logged value is what the writer reads back; every other entry, and the
    index view, are as before. *)
Lemma value_view_insert_value t i d w t' i' :
  value_view (LogWriter.insert_value t i d w) t' i' =
  if decide (t = t' ∧ i = i') then Some d else value_view w t' i'.
Proof.
  unfold value_view; simpl. unfold LogWriter.insert_value; simpl.
  rewrite overlay_lookup_insert.
  by destruct (decide (t = t' ∧ i = i')).
Qed.

(** The data of an entry that the record itself changes. *)
Definition own_value (w : LogWriter) (t : ValueTableId) (i : Z) : option bytes :=
  snd <$> overlay_lookup (local_values (writer_log w)) t i.

Lemma own_value_insert_value t i d w t' i' :
  own_value (LogWriter.insert_value t i d w) t' i' =
  if decide (t = t' ∧ i = i') then Some d else own_value w t' i'.
Proof.
  unfold own_value, LogWriter.insert_value; simpl. rewrite overlay_lookup_insert.
  by destruct (decide (t = t' ∧ i = i')).
Qed.

Lemma value_view_own w t i :
  value_view w t i =
  match own_value w t i with Some d => Some d | None => value_view (writer_overlays w) t i end.
Proof.
  unfold value_view at 1, own_value; simpl.
  by destruct (overlay_lookup (local_values (writer_log w)) t i) as [[]|].
Qed.

Lemma index_view_insert_value t i d w t' i' :
  index_view (LogWriter.insert_value t i d w) t' i' = index_view w t' i'.
Proof. done. Qed.

Lemma index_view_insert_index t i sub c w t' i' :
  index_view (LogWriter.insert_index t i sub c w) t' i' =
  if decide (t = t' ∧ i = i') then Some c else index_view w t' i'.
Proof.
  unfold index_view; simpl. unfold LogWriter.insert_index; simpl.
  rewrite overlay_lookup_insert. destruct (decide (t = t' ∧ i = i')); [|done].
  by destruct (default ∅ (local_index (writer_log w) !! t) !! i) as [[[]]|].
Qed.

Lemma value_view_insert_index t i sub c w t' i' :
  value_view (LogWriter.insert_index t i sub c w) t' i' = value_view w t' i'.
Proof. done. Qed.
