(* ===== verification/LogProofs.v ===== *)
(** * Reading back what was logged

    [LogReader] against [LogChange::flush_to_file] (src/src/log.rs): every
    action is read back as it was written, the masks of index entries enumerate
    the modified entries in order, and a record whose bytes are intact passes
    its checksum. *)

From S2P Require Import Prelude.
From S2P Require Import Bytes.
From S2P Require Import Ids.
From S2P Require Import Log.
From stdpp Require Import options.
#[local] Set Default Proof Using "Type*".

(** ** The reader's position *)

(** The reader stands before the bytes [d], which [rest] follows. *)
Definition reader_at (r : LogReader) (d rest : bytes) : Prop :=
  drop (reader_pos r) (reader_file r) = d ++ rest ∧ (reader_pos r ≤ length (reader_file r))%nat.

(** [r'] is [r] after the bytes [d] were read and hashed. *)
Record advanced (d : bytes) (r r' : LogReader) : Prop := {
  adv_file : reader_file r' = reader_file r;
  adv_pos : reader_pos r' = (reader_pos r + length d)%nat;
  adv_bytes : read_bytes r' = wrap64 (read_bytes r + Z.of_nat (length d));
  adv_crc : reader_crc r' = if validate r then reader_crc r ++ d else reader_crc r;
  adv_validate : validate r' = validate r;
  adv_record : reader_record_id r' = reader_record_id r;
  adv_cleared : cleared r' = cleared r;
}.

Lemma reader_at_split r (a b rest : bytes) : reader_at r (a ++ b) rest ↔ reader_at r a (b ++ rest).
Proof. unfold reader_at. by rewrite <- (assoc_L (++)). Qed.

Lemma reader_at_length r (d rest : bytes) : reader_at r d rest →
  (reader_pos r + length d ≤ length (reader_file r))%nat.
Proof.
  intros [Hd Hp]. assert (Hl : length (d ++ rest) = (length (reader_file r) - reader_pos r)%nat)
    by (rewrite <- Hd; len). rewrite length_app in Hl. lia.
Qed.

Lemma advanced_at (d rest : bytes) r r' : reader_at r d rest → advanced d r r' →
  reader_at r' [] rest.
Proof.
  intros Hr [Hf Hp _ _ _]. pose proof (reader_at_length _ _ _ Hr). destruct Hr as [Hd _].
  split; [|rewrite Hf, Hp; lia].
  by rewrite Hf, Hp, <- drop_drop, Hd, drop_app_length.
Qed.

Lemma wrap64_add_l a b : wrap64 (wrap64 a + b) = wrap64 (a + b).
Proof. unfold wrap64. apply Zplus_mod_idemp_l. Qed.

Lemma advanced_trans (a b : bytes) r r1 r2 : advanced a r r1 → advanced b r1 r2 →
  advanced (a ++ b) r r2.
Proof.
  intros [F1 P1 B1 C1 V1 R1 L1] [F2 P2 B2 C2 V2 R2 L2]. split; try congruence.
  - rewrite P2, P1. len.
  - rewrite B2, B1, wrap64_add_l. f_equal. len.
  - rewrite C2, V1, C1. destruct (validate r); [by rewrite (assoc_L (++))|done].
Qed.

Lemma reader_read r (d rest : bytes) n : reader_at r d rest → n = length d →
  ∃ r', LogReader.read n r = (Ok d, r') ∧ advanced d r r'.
Proof.
  intros Hr ->. pose proof (reader_at_length _ _ _ Hr) as Hl. destruct Hr as [Hd Hp].
  unfold LogReader.read, LogReader.read_exact. eexists. split.
  { erewrite ST_bind_Ok.
    2: { destruct (Nat.leb_spec (reader_pos r + length d) (length (reader_file r))); [|lia].
         by rewrite Hd, take_app_length. }
    do 2 erewrite ST_bind_Ok by done. done. }
  unfold LogReader.update_crc, LogReader.add_read_bytes. cbn [validate].
  destruct (validate r) eqn:E; split; cbn; by rewrite ?E.
Qed.

(** ** Masks *)

Lemma pos_trailing_zeros_spec p :
  Z.testbit (Zpos p) (Z.of_nat (pos_trailing_zeros p)) = true ∧
  (∀ i, 0 ≤ i < Z.of_nat (pos_trailing_zeros p) → Z.testbit (Zpos p) i = false).
Proof.
  induction p as [p IH|p IH|]; cbn [pos_trailing_zeros].
  - split; [done|]. intros i Hi. lia.
  - destruct IH as [H1 H2]. change (Zpos (xO p)) with (2 * Zpos p).
    rewrite Nat2Z.inj_succ. split.
    + by rewrite Z.testbit_even_succ by lia.
    + intros i Hi. destruct (Z.eq_dec i 0) as [->|Hne]; [by rewrite Z.testbit_even_0|].
      replace i with (Z.succ (i - 1)) by lia. rewrite Z.testbit_even_succ by lia.
      apply H2. lia.
  - split; [done|]. intros i Hi. lia.
Qed.

Lemma trailing_zeros_spec z : 0 < z →
  Z.testbit z (Z.of_nat (trailing_zeros z)) = true ∧
  (∀ i, 0 ≤ i < Z.of_nat (trailing_zeros z) → Z.testbit z i = false).
Proof. destruct z as [|p|p]; [done| |done]. intros _. apply pos_trailing_zeros_spec. Qed.

(** The set bits of [z] among [n..n+k), in increasing order. *)
Definition bits_from (n k : nat) (z : Z) : list nat :=
  filter (fun i => Z.testbit z (Z.of_nat i) = true) (seq n k).

Lemma testbit_small z n i : 0 ≤ z < 2 ^ n → 0 ≤ n ≤ i → Z.testbit z i = false.
Proof. intros Hz Hi. rewrite <- (Z.mod_small z (2 ^ n)) by lia. by apply Z.mod_pow2_bits_high. Qed.

Lemma testbit_clear z i j : 0 ≤ i → 0 ≤ j →
  Z.testbit (Z.ldiff z (Z.shiftl 1 i)) j = Z.testbit z j && negb (j =? i).
Proof.
  intros Hi Hj. rewrite Z.ldiff_spec, Z.shiftl_1_l, Z.pow2_bits_eqb by done. by rewrite Z.eqb_sym.
Qed.

Lemma bits_from_none n k z : (∀ j, (n ≤ j < n + k)%nat → Z.testbit z (Z.of_nat j) = false) →
  bits_from n k z = [].
Proof.
  intros Hz. unfold bits_from. induction k as [|k IH] in n, Hz |- *; [done|]. cbn [seq].
  rewrite filter_cons_False by (rewrite Hz by lia; done). apply IH. intros j Hj. apply Hz. lia.
Qed.

Lemma bits_from_ext n k z z' :
  (∀ j, (n ≤ j < n + k)%nat → Z.testbit z (Z.of_nat j) = Z.testbit z' (Z.of_nat j)) →
  bits_from n k z = bits_from n k z'.
Proof.
  intros Hz. unfold bits_from. induction k as [|k IH] in n, Hz |- *; [done|]. cbn [seq].
  rewrite !filter_cons. rewrite (Hz n) by lia. rewrite (IH (S n)); [done|].
  intros j Hj. apply Hz. lia.
Qed.

(** The first set bit comes first, the others follow. *)
Lemma bits_from_split n k z i : (n ≤ i < n + k)%nat →
  (∀ j, (n ≤ j < i)%nat → Z.testbit z (Z.of_nat j) = false) → Z.testbit z (Z.of_nat i) = true →
  bits_from n k z = i :: bits_from (S i) (n + k - S i) z.
Proof.
  intros Hi Hlow Hbit. unfold bits_from.
  replace k with ((i - n) + (1 + (n + k - S i)))%nat at 1 by lia.
  rewrite seq_app, filter_app, seq_app. replace (n + (i - n))%nat with i by lia. cbn [seq app].
  fold (bits_from n (i - n) z). rewrite bits_from_none by (intros j Hj; apply Hlow; lia).
  cbn [app]. rewrite filter_cons_True by done. by replace (i + 1)%nat with (S i) by lia.
Qed.

Lemma mask_loop_bits fuel : ∀ n z, 0 ≤ z → (64 ≤ n + fuel)%nat → (n ≤ 64)%nat →
  (∀ j, 0 ≤ j < Z.of_nat n → Z.testbit z j = false) →
  (∀ j, 64 ≤ j → Z.testbit z j = false) →
  mask_loop fuel z = bits_from n (64 - n) z.
Proof.
  induction fuel as [|fuel IH]; intros n z Hz Hn Hn64 Hlow Hhigh; cbn [mask_loop].
  - by replace (64 - n)%nat with 0%nat by lia.
  - destruct (Z.eqb_spec z 0) as [->|Hnz].
    { symmetry. apply bits_from_none. intros. apply Z.bits_0. }
    destruct (trailing_zeros_spec z ltac:(lia)) as [Hbit Hbelow].
    set (i := trailing_zeros z) in *.
    assert (Hi : (n ≤ i < 64)%nat).
    { split; apply Nat.nlt_ge || apply Nat.nle_gt; intros Hc.
      - by rewrite Hlow in Hbit by lia.
      - by rewrite Hhigh in Hbit by lia. }
    rewrite (bits_from_split n (64 - n) z i) by (done || lia || (intros; apply Hbelow; lia)).
    f_equal. replace (n + (64 - n) - S i)%nat with (64 - S i)%nat by lia.
    assert (Hc : ∀ j, 0 ≤ j → Z.testbit (Z.ldiff z (Z.shiftl 1 (Z.of_nat i))) j =
      Z.testbit z j && negb (j =? Z.of_nat i)) by (intros; apply testbit_clear; lia).
    rewrite (IH (S i)); try lia.
    + apply bits_from_ext. intros j Hj. rewrite Hc by lia.
      destruct (Z.eqb_spec (Z.of_nat j) (Z.of_nat i)); [lia|]. by rewrite andb_true_r.
    + apply Z.ldiff_nonneg. by left.
    + intros j Hj. rewrite Hc by lia. destruct (Z.eqb_spec j (Z.of_nat i)); [by rewrite andb_false_r|].
      rewrite Hbelow by lia. done.
    + intros j Hj. rewrite Hc by lia. by rewrite Hhigh by lia.
Qed.

(** The loop over a mask visits exactly its set bits, in increasing order. *)
Lemma mask_entries_bits mask : is_u64 mask → mask_entries mask = bits_from 0 64 mask.
Proof.
  intros Hm. unfold is_u64 in Hm. apply (mask_loop_bits 64 0); try lia.
  intros j Hj. by apply (testbit_small mask 64).
Qed.

(** ** Actions *)

Section Next.
Context `{!HashMapOrder, !Crc32}.

(** One read of a fixed-width field. *)
Lemma read_field r n z (rest : bytes) : reader_at r [] (le_encode n z ++ rest) →
  0 ≤ z < 2 ^ (8 * Z.of_nat n) →
  ∃ r', LogReader.read n r = (Ok (le_encode n z), r') ∧ advanced (le_encode n z) r r' ∧
    reader_at r' [] rest ∧ le_decode (le_encode n z) = z.
Proof.
  intros Hr Hz. rewrite <- reader_at_split, app_nil_l in Hr.
  destruct (reader_read r _ _ n Hr) as (r' & E & Ha); [len|].
  exists r'. split_and!; [done|done|by eapply advanced_at|by apply le_decode_encode_small].
Qed.

Ltac pick_tag := unfold BEGIN_RECORD, INSERT_INDEX, INSERT_VALUE, DROP_TABLE, END_RECORD;
  cbn [Z.eqb Pos.eqb].

Ltac read_next_field H r' Hadv Hat Hdec :=
  let E := fresh "E" in
  destruct (read_field _ _ _ _ H) as (r' & E & Hadv & Hat & Hdec);
    [cbn; unfold is_u16, is_u64, BEGIN_RECORD, INSERT_INDEX, INSERT_VALUE, DROP_TABLE,
       END_RECORD in *; lia|];
  erewrite ST_bind_Ok by exact E; rewrite Hdec; cbv zeta; clear E.

Lemma next_begin r id (rest : bytes) : is_u64 id →
  reader_at r [] (le_encode 1 BEGIN_RECORD ++ le_encode 8 id ++ rest) →
  ∃ r', LogReader.next r = (Ok BeginRecord, LogReader.set_record_id id r') ∧
    advanced (le_encode 1 BEGIN_RECORD ++ le_encode 8 id) r r' ∧ reader_at r' [] rest.
Proof.
  intros Hid Hr. unfold LogReader.next. read_next_field Hr r1 A1 Hr1 D1. pick_tag.
  read_next_field Hr1 r2 A2 Hr2 D2. erewrite ST_bind_Ok by done.
  exists r2. split_and!; [done|by eapply advanced_trans|done].
Qed.

Lemma next_index r id i (rest : bytes) : is_u16 (IndexTableId.as_u16 id) → is_u64 i →
  let hd := le_encode 1 INSERT_INDEX ++ le_encode 2 (IndexTableId.as_u16 id) ++ le_encode 8 i in
  reader_at r [] (hd ++ rest) →
  ∃ r', LogReader.next r = (Ok (InsertIndex id i), LogReader.push_cleared_index (id, i) r') ∧
    advanced hd r r' ∧ reader_at r' [] rest.
Proof.
  intros Hid Hi hd Hr. unfold hd in *. rewrite <- !(assoc_L (++)) in Hr. unfold LogReader.next.
  read_next_field Hr r1 A1 Hr1 D1. pick_tag.
  read_next_field Hr1 r2 A2 Hr2 D2. read_next_field Hr2 r3 A3 Hr3 D3.
  erewrite ST_bind_Ok by done.
  exists r3. split_and!; [by destruct id|eauto using advanced_trans|done].
Qed.

Lemma next_value r id i (rest : bytes) : is_u16 (ValueTableId.as_u16 id) → is_u64 i →
  let hd := le_encode 1 INSERT_VALUE ++ le_encode 2 (ValueTableId.as_u16 id) ++ le_encode 8 i in
  reader_at r [] (hd ++ rest) →
  ∃ r', LogReader.next r = (Ok (InsertValue id i), LogReader.push_cleared_value (id, i) r') ∧
    advanced hd r r' ∧ reader_at r' [] rest.
Proof.
  intros Hid Hi hd Hr. unfold hd in *. rewrite <- !(assoc_L (++)) in Hr. unfold LogReader.next.
  read_next_field Hr r1 A1 Hr1 D1. pick_tag.
  read_next_field Hr1 r2 A2 Hr2 D2. read_next_field Hr2 r3 A3 Hr3 D3.
  erewrite ST_bind_Ok by done.
  exists r3. split_and!; [by destruct id|eauto using advanced_trans|done].
Qed.

Lemma next_drop r id (rest : bytes) : is_u16 (IndexTableId.as_u16 id) →
  let hd := le_encode 1 DROP_TABLE ++ le_encode 2 (IndexTableId.as_u16 id) in
  reader_at r [] (hd ++ rest) →
  ∃ r', LogReader.next r = (Ok (DropTable id), r') ∧ advanced hd r r' ∧ reader_at r' [] rest.
Proof.
  intros Hid hd Hr. unfold hd in *. rewrite <- !(assoc_L (++)) in Hr. unfold LogReader.next.
  read_next_field Hr r1 A1 Hr1 D1. pick_tag.
  read_next_field Hr1 r2 A2 Hr2 D2.
  exists r2. split_and!; [by destruct id|eauto using advanced_trans|done].
Qed.

(** The end of a record, with the checksum of what was hashed before and of the
    end tag itself, or with any other checksum. *)
Lemma next_end r crc (rest : bytes) : is_u32 crc →
  reader_at r [] (le_encode 1 END_RECORD ++ le_encode 4 crc ++ rest) →
  ∃ r', LogReader.next r =
      (if validate r && negb (crc =? crc32 (reader_crc r ++ le_encode 1 END_RECORD))
       then Err (Corruption "Log record CRC-32 mismatch") else Ok EndRecord, r') ∧
    reader_at r' [] rest ∧ reader_record_id r' = reader_record_id r ∧
    cleared r' = cleared r ∧ validate r' = validate r ∧
    reader_file r' = reader_file r ∧ reader_pos r' = (reader_pos r + 5)%nat ∧
    read_bytes r' = wrap64 (read_bytes r + 5).
Proof.
  intros Hc Hr. unfold LogReader.next. read_next_field Hr r1 A1 Hr1 D1. pick_tag.
  pose proof (reader_at_length r1 (le_encode 4 crc) rest Hr1) as Hl. rewrite length_le_encode in Hl.
  erewrite ST_bind_Ok.
  2: { unfold LogReader.read_exact. destruct (Nat.leb_spec (reader_pos r1 + 4)
         (length (reader_file r1))); [|lia].
       destruct Hr1 as [-> _]. by rewrite app_nil_l, take_app_length' by len. }
  rewrite le_decode_encode_small by exact Hc. do 2 erewrite ST_bind_Ok by done.
  cbn [validate LogReader.add_read_bytes reader_crc].
  set (R c := MkLogReader (reader_file r1) (reader_pos r1 + 4) (reader_record_id r1)
                (wrap64 (read_bytes r1 + 4)) c (validate r) (cleared r1)).
  pose proof A1 as [F1 P1 B1 C1 V1 R1 L1]. rewrite length_le_encode in P1, B1.
  assert (HR : ∀ c, reader_at (R c) [] rest ∧ reader_record_id (R c) = reader_record_id r ∧
    cleared (R c) = cleared r ∧ validate (R c) = validate r ∧
    reader_file (R c) = reader_file r ∧ reader_pos (R c) = (reader_pos r + 5)%nat ∧
    read_bytes (R c) = wrap64 (read_bytes r + 5)).
  { intros c. cbn. split_and!; try done; try lia.
    - destruct Hr1 as [Hd _]. split; cbn; [|lia]. rewrite <- drop_drop, Hd, app_nil_l.
      by apply drop_app_length'; len.
    - rewrite B1, wrap64_add_l. f_equal. lia. }
  rewrite V1. destruct (validate r) eqn:Ev; cbn [andb].
  - erewrite ST_bind_Ok by done. rewrite C1.
    destruct (crc =? _); cbn [negb]; eexists; (split; [reflexivity|apply (HR [])]).
  - eexists. split; [reflexivity|]. apply (HR (reader_crc r1)).
Qed.

End Next.
