(* ===== verification/LogState.v ===== *)
(** * The log files and their life cycle (struct [Log] of src/src/log.rs)

    Records are appended to one log file; a full file is flushed, then read and
    enacted, then queued for cleanup, then emptied and returned to a pool. Log
    files found when the database is opened are replayed. The directory is a
    map from log ids to file contents; a handle is an id and a position. Locks
    make each operation atomic; a wait that only another thread can end does
    not return ([NoFuel]). *)

From S2P Require Import Prelude.
From S2P Require Import Bytes.
From S2P Require Import Ids.
From S2P Require Import File.
From S2P Require Import Log.
From stdpp Require Import options.
#[local] Set Default Proof Using "Type*".

(** ** State *)

Record Handle := MkHandle { h_id : Z; h_pos : nat }.

Inductive ReadingState := Reading_ | Idle.
#[global] Instance ReadingState_eq_dec : EqDecision ReadingState.
Proof. solve_decision. Defined.

Record LogFiles := MkLogFiles {
  lg_overlays : LogOverlays;
  appending : option (Handle * Z);
  reading_file : option Handle;
  reading_state : ReadingState;
  flushing : option Handle;
  next_record_id : Z;
  log_dirty : bool;
  log_pool : list Handle;
  cleanup_queue : list Handle;
  replay_queue : list (Handle * Z);
  next_log_id : Z;
  sync : bool;
  disk : gmap Z bytes;
}.

Definition set_overlays (o : LogOverlays) (l : LogFiles) : LogFiles :=
  MkLogFiles o (appending l) (reading_file l) (reading_state l) (flushing l) (next_record_id l)
    (log_dirty l) (log_pool l) (cleanup_queue l) (replay_queue l) (next_log_id l) (sync l) (disk l).
Definition set_appending (a : option (Handle * Z)) (l : LogFiles) : LogFiles :=
  MkLogFiles (lg_overlays l) a (reading_file l) (reading_state l) (flushing l) (next_record_id l)
    (log_dirty l) (log_pool l) (cleanup_queue l) (replay_queue l) (next_log_id l) (sync l) (disk l).
Definition set_reading (r : option Handle) (s : ReadingState) (l : LogFiles) : LogFiles :=
  MkLogFiles (lg_overlays l) (appending l) r s (flushing l) (next_record_id l)
    (log_dirty l) (log_pool l) (cleanup_queue l) (replay_queue l) (next_log_id l) (sync l) (disk l).
Definition set_flushing (f : option Handle) (l : LogFiles) : LogFiles :=
  MkLogFiles (lg_overlays l) (appending l) (reading_file l) (reading_state l) f (next_record_id l)
    (log_dirty l) (log_pool l) (cleanup_queue l) (replay_queue l) (next_log_id l) (sync l) (disk l).
Definition set_next_record_id (n : Z) (l : LogFiles) : LogFiles :=
  MkLogFiles (lg_overlays l) (appending l) (reading_file l) (reading_state l) (flushing l) n
    (log_dirty l) (log_pool l) (cleanup_queue l) (replay_queue l) (next_log_id l) (sync l) (disk l).
Definition set_log_dirty (b : bool) (l : LogFiles) : LogFiles :=
  MkLogFiles (lg_overlays l) (appending l) (reading_file l) (reading_state l) (flushing l)
    (next_record_id l) b (log_pool l) (cleanup_queue l) (replay_queue l) (next_log_id l) (sync l)
    (disk l).
Definition set_queues (pool cleanup : list Handle) (replay : list (Handle * Z)) (l : LogFiles)
    : LogFiles :=
  MkLogFiles (lg_overlays l) (appending l) (reading_file l) (reading_state l) (flushing l)
    (next_record_id l) (log_dirty l) pool cleanup replay (next_log_id l) (sync l) (disk l).
Definition set_disk (next : Z) (d : gmap Z bytes) (l : LogFiles) : LogFiles :=
  MkLogFiles (lg_overlays l) (appending l) (reading_file l) (reading_state l) (flushing l)
    (next_record_id l) (log_dirty l) (log_pool l) (cleanup_queue l) (replay_queue l) next (sync l) d.

(** ** Operations *)

(** [sort_by_key], which is stable. *)
Fixpoint insert_by {A} (key : A → Z) (x : A) (l : list A) : list A :=
  match l with
  | [] => [x]
  | y :: l' => if key x <=? key y then x :: l else y :: insert_by key x l'
  end.
Definition sort_by_key {A} (key : A → Z) (l : list A) : list A := foldr (insert_by key) [] l.

(** [Log::open_log_file]: the id of the first record, if the file is not
    empty. *)
Definition open_log_file (f : bytes) : outcome (option Z) :=
  if (length f =? 0)%nat then Ok None
  else buf ← read_exact_at 9 0 f; Ok (Some (le_decode (drop 1 buf))).

(** The loop of [Log::open] over the log files of the directory. *)
Fixpoint open_logs (files : list (Z * bytes)) (logs : list (Handle * Z)) (max_id : Z)
    (d : gmap Z bytes) : outcome (list (Handle * Z) * Z * gmap Z bytes) :=
  match files with
  | [] => Ok (logs, max_id, d)
  | (nlog, f) :: files =>
      record_id ← open_log_file f;
      match record_id with
      | Some record_id =>
          open_logs files (logs ++ [(MkHandle nlog 0, record_id)])
            (if nlog >? max_id then nlog else max_id) (<[nlog := f]> d)
      | None => open_logs files logs max_id d
      end
  end.

(** [Log::open]: [files] are the log files in the order [read_dir] lists them. *)
Definition open_log (sync_wal : bool) (files : list (Z * bytes)) : outcome LogFiles :=
  '(logs, max_log_id, d) ← open_logs files [] 0 ∅;
  let logs := sort_by_key snd logs in
  let next_log_id := match logs with [] => 0 | _ => wrap32 (max_log_id + 1) end in
  Ok (MkLogFiles empty_overlays None None Idle None 1 true [] [] logs next_log_id sync_wal d).

(** [Log::replay_record_id]. *)
Definition replay_record_id (l : LogFiles) : option Z :=
  snd <$> head (replay_queue l).

(** [Log::drop_log]. *)
Definition drop_log (id : Z) : ST LogFiles unit := fun l =>
  match disk l !! id with
  | Some _ => (Ok tt, set_disk (next_log_id l) (delete id (disk l)) l)
  | None => (Err (Io NotFound), l)
  end.

Fixpoint drop_logs (ids : list Z) : ST LogFiles unit :=
  match ids with
  | [] => mret tt
  | id :: ids => _ ← drop_log id; drop_logs ids
  end.

(** [Log::clear_replay_logs]. *)
Definition clear_replay_logs : ST LogFiles unit :=
  l ← get_st;
  _ ← modify_st (set_reading None (reading_state l));
  _ ← (match reading_file l with Some h => drop_log (h_id h) | None => mret tt end);
  _ ← modify_st (fun l => set_queues (log_pool l) (cleanup_queue l) [] l);
  _ ← drop_logs (h_id ∘ fst <$> replay_queue l);
  _ ← modify_st (set_overlays empty_overlays);
  _ ← modify_st (fun l => set_reading (reading_file l) Idle l);
  modify_st (set_log_dirty false).

(** [Log::begin_record]. *)
Definition begin_record : ST LogFiles LogWriter :=
  l ← get_st;
  _ ← modify_st (set_next_record_id (wrap64 (next_record_id l + 1)));
  mret (LogWriter.new (lg_overlays l) (next_record_id l)).

(** Merging the changes of a record into the shared overlays. *)
Definition extend_index (o : gmap IndexTableId IndexLogOverlay)
    (c : gmap IndexTableId IndexLogOverlay) : gmap IndexTableId IndexLogOverlay :=
  map_fold (fun id overlay acc => <[id := overlay ∪ default ∅ (acc !! id)]> acc) o c.
Definition extend_value (o : gmap ValueTableId ValueLogOverlay)
    (c : gmap ValueTableId ValueLogOverlay) : gmap ValueTableId ValueLogOverlay :=
  map_fold (fun id overlay acc => <[id := overlay ∪ default ∅ (acc !! id)]> acc) o c.
Definition extend_last (record_id : Z) (o : gmap ColId Z)
    (c : gmap ValueTableId ValueLogOverlay) : gmap ColId Z :=
  map_fold (fun id _ acc => <[ValueTableId.col id := record_id]> acc) o c.

Section Records.
Context `{!HashMapOrder, !Crc32}.

(** The first part of [Log::end_record]: a file to append to. *)
Definition activate_appending : ST LogFiles (Handle * Z) :=
  l ← get_st;
  match appending l with
  | Some a => mret a
  | None =>
      h ← (match log_pool l with
           | h :: pool =>
               _ ← modify_st (set_queues pool (cleanup_queue l) (replay_queue l)); mret h
           | [] =>
               let id := next_log_id l in
               _ ← modify_st (set_disk (wrap32 (id + 1))
                     (<[id := default [] (disk l !! id)]> (disk l)));
               mret (MkHandle id 0)
           end);
      _ ← modify_st (set_appending (Some (h, 0)));
      mret (h, 0)
  end.

(** [Log::end_record]. *)
Definition end_record (log : LogChange) : ST LogFiles Z :=
  l ← get_st;
  _ ← lift_st (rust_assert (wrap64 (change_record_id log + 1) =? next_record_id l));
  let record_id := change_record_id log in
  '(h, size) ← activate_appending;
  let '(data, fl) := flush_to_file log in
  _ ← modify_st (fun l => set_disk (next_log_id l)
        (<[h_id h := write_all_at data (h_pos h) (default [] (disk l !! h_id h))]> (disk l)) l);
  _ ← modify_st (fun l => set_overlays
        (MkLogOverlays (extend_index (ov_index (lg_overlays l)) (flushed_index fl))
           (extend_value (ov_value (lg_overlays l)) (flushed_values fl))
           (extend_last record_id (ov_last_record_id (lg_overlays l)) (flushed_values fl))) l);
  _ ← modify_st (set_appending (Some (MkHandle (h_id h) (h_pos h + length data),
        wrap64 (size + flushed_bytes fl))));
  _ ← modify_st (set_log_dirty true);
  mret (flushed_bytes fl).

(** Removing one entry of an overlay if it belongs to the record; [rec] is the
    record id of an entry. *)
Definition clear_entry {K A : Type} `{Countable K} (rec : A → Z) (record_id : Z)
    (o : gmap K (gmap Z A)) (e : K * Z) : gmap K (gmap Z A) :=
  let '(table, index) := e in
  match o !! table with
  | Some overlay =>
      match overlay !! index with
      | Some a => if rec a =? record_id then <[table := delete index overlay]> o else o
      | None => o
      end
  | None => o
  end.

(** [Log::end_read]. *)
Definition end_read (cleared : Cleared) (record_id : Z) : ST LogFiles unit :=
  l ← get_st;
  _ ← (if next_record_id l <=? record_id
       then modify_st (set_next_record_id (wrap64 (record_id + 1))) else mret tt);
  let o := lg_overlays l in
  let index := foldl (clear_entry (fun '(r, _, _) => r) record_id) (ov_index o) (cleared_index cleared) in
  let values := foldl (clear_entry fst record_id) (ov_value o) (cleared_values cleared) in
  let index := filter (fun '(_, overlay) => overlay ≠ ∅) index in
  modify_st (set_overlays (MkLogOverlays index values (ov_last_record_id o))).

(** The first part of [Log::flush_one]: the file that was flushing is read next,
    the file that was being read is queued for cleanup. *)
Definition flush_advance : ST LogFiles (bool * bool) :=
  l ← get_st;
  match flushing l with
  | None => mret (false, false)
  | Some f =>
      match reading_state l with
      | Reading_ => lift_st NoFuel
      | Idle =>
          cleanup ←
            match reading_file l with
            | Some r =>
                _ ← modify_st (set_queues (log_pool l) (cleanup_queue l ++ [r])
                                 (replay_queue l));
                _ ← modify_st (set_reading None Idle);
                mret true
            | None => mret false
            end;
          _ ← modify_st (set_flushing None);
          _ ← modify_st (set_reading (Some (MkHandle (h_id f) 0)) Reading_);
          mret (true, cleanup)
      end
  end.

(** The second part: a file that has grown enough is no longer appended to. *)
Definition flush_rotate (min_size : Z) : ST LogFiles unit :=
  l ← get_st;
  let cur_size := match appending l with Some (_, size) => size | None => 0 end in
  if (0 <? cur_size) && (min_size <? cur_size) then
    _ ← modify_st (set_appending None);
    modify_st (set_flushing (fst <$> appending l))
  else mret tt.

(** [Log::flush_one]: whether a file is flushing, whether the reader has a new
    file, whether there is a file to clean up. *)
Definition flush_one (min_size : Z) : ST LogFiles (bool * bool * bool) :=
  '(read_next, cleanup) ← flush_advance;
  _ ← flush_rotate min_size;
  l ← get_st;
  mret (match flushing l with Some _ => true | None => false end, read_next, cleanup).

(** [Log::replay_next]. *)
Definition replay_next : ST LogFiles (option Z) :=
  l ← get_st;
  _ ← (match reading_file l with
       | Some r =>
           _ ← modify_st (set_reading None (reading_state l));
           modify_st (set_queues (log_pool l) (cleanup_queue l ++ [r]) (replay_queue l))
       | None => mret tt
       end);
  l ← get_st;
  match replay_queue l with
  | (h, _) :: queue =>
      _ ← modify_st (set_queues (log_pool l) (cleanup_queue l) queue);
      _ ← modify_st (set_reading (Some h) Reading_);
      mret (Some (h_id h))
  | [] => _ ← modify_st (set_reading (reading_file l) Idle); mret None
  end.

(** [Log::clean_logs]. *)
Definition clean_logs (count : nat) : ST LogFiles bool :=
  l ← get_st;
  _ ← lift_st (rust_assert (count <=? length (cleanup_queue l))%nat);
  let cleaned := take count (cleanup_queue l) in
  _ ← modify_st (set_queues (log_pool l) (drop count (cleanup_queue l)) (replay_queue l));
  _ ← modify_st (fun l => set_disk (next_log_id l)
        (foldr (fun h d => <[h_id h := []]> d) (disk l) cleaned) l);
  l ← get_st;
  let pool := sort_by_key h_id
    (log_pool l ++ ((fun h => MkHandle (h_id h) 0) <$> cleaned)) in
  _ ← modify_st (set_queues (take MAX_LOG_POOL_SIZE pool) (cleanup_queue l) (replay_queue l));
  _ ← drop_logs (h_id <$> drop MAX_LOG_POOL_SIZE pool);
  l ← get_st;
  mret (negb (length (cleanup_queue l) =? 0)%nat).

(** [Log::num_dirty_logs]. *)
Definition num_dirty_logs (l : LogFiles) : nat := length (cleanup_queue l).

(** The position of the reader's file is that of the handle. *)
Definition put_reader (r : LogReader) (l : LogFiles) : LogFiles :=
  set_reading ((fun h => MkHandle (h_id h) (reader_pos r)) <$> reading_file l) (reading_state l) l.

(** [Log::read_next]. *)
Definition read_next (validate : bool) : ST LogFiles (option LogReader) := fun l =>
  match reading_state l, reading_file l with
  | Reading_, Some h =>
      let reader := LogReader.new (default [] (disk l !! h_id h)) (h_pos h) validate in
      let '(a, reader) := LogReader.next reader in
      let l := put_reader reader l in
      match a with
      | Ok BeginRecord => (Ok (Some reader), l)
      | Ok _ => (Err (Corruption "Bad log record structure"), l)
      | Err (Io UnexpectedEof) => (Ok None, set_reading (reading_file l) Idle l)
      | Err e => (Err e, l)
      | Panic => (Panic, l)
      | Undefined => (Undefined, l)
      | Deadlock => (Deadlock, l)
      | NoFuel => (NoFuel, l)
      end
  | _, _ => (Ok None, l)
  end.

(** [Log::kill_logs]. *)
Definition kill_logs : ST LogFiles unit :=
  l ← get_st;
  _ ← modify_st (set_queues [] (cleanup_queue l) (replay_queue l));
  _ ← drop_logs (h_id <$> log_pool l);
  match reading_file l with
  | Some r => _ ← modify_st (set_reading None (reading_state l)); drop_log (h_id r)
  | None => mret tt
  end.

End Records.
