(* ===== verification/LogStateProofs.v ===== *)
(** * Invariants of the log files

    No two roles share a log file, no log file is orphaned, pooled files are
    empty, the writer stands at the end of its file: an invariant of every
    operation of struct [Log] (src/src/log.rs). What a record logged is visible
    through the overlays from the moment it ends until it is enacted. *)

From S2P Require Import Prelude.
From S2P Require Import Bytes.
From S2P Require Import Ids.
From S2P Require Import File.
From S2P Require Import Log.
From S2P Require Import LogProofs.
From S2P Require Import LogState.
From stdpp Require Import sorting options.
#[local] Open Scope Z_scope.
#[local] Set Default Proof Using "Type*".

(** ** The invariant *)

Definition opt_id (o : option Handle) : list Z := match o with Some h => [h_id h] | None => [] end.

(** The ids of the log files in each role. *)
Definition log_ids (l : LogFiles) : list Z :=
  opt_id (fst <$> appending l) ++ opt_id (flushing l) ++ opt_id (reading_file l) ++
  (h_id <$> log_pool l) ++ (h_id <$> cleanup_queue l) ++ (h_id ∘ fst <$> replay_queue l).

Record log_ok (l : LogFiles) : Prop := {
  ok_nodup : NoDup (log_ids l);
  ok_disk : ∀ id, is_Some (disk l !! id) ↔ id ∈ log_ids l;
  ok_next : 0 ≤ next_log_id l ∧ ∀ id, id ∈ log_ids l → 0 ≤ id < next_log_id l;
  ok_pool : Forall (fun h => h_pos h = 0%nat ∧ disk l !! h_id h = Some []) (log_pool l);
  ok_append : ∀ h s f, appending l = Some (h, s) → disk l !! h_id h = Some f → h_pos h = length f;
}.

(** ** Sorting *)

Lemma insert_by_perm {A} (key : A → Z) x l : insert_by key x l ≡ₚ x :: l.
Proof.
  induction l as [|y l IH]; cbn; [done|]. destruct (key x <=? key y); [done|].
  rewrite IH. apply Permutation_swap.
Qed.

Lemma sort_by_key_perm {A} (key : A → Z) (l : list A) : sort_by_key key l ≡ₚ l.
Proof.
  unfold sort_by_key. induction l as [|x l IH]; cbn; [done|]. by rewrite insert_by_perm, IH.
Qed.

Lemma sort_by_key_sorted {A} (key : A → Z) (l : list A) :
  StronglySorted (fun x y => key x ≤ key y) (sort_by_key key l).
Proof.
  unfold sort_by_key. induction l as [|x l IH]; cbn; [constructor|].
  induction IH as [|y l' Hs IHs Hy]; cbn; [by repeat constructor|].
  destruct (Z.leb_spec (key x) (key y)) as [Hxy|Hxy].
  - constructor; [by constructor|]. constructor; [done|].
    eapply Forall_impl; [exact Hy|]. cbn. lia.
  - constructor; [done|]. rewrite insert_by_perm. constructor; [lia|done].
Qed.

(** ** Dropping files *)

Lemma foldr_delete_comm (d : gmap Z bytes) id ids :
  foldr delete (delete id d) ids = delete id (foldr delete d ids).
Proof. induction ids as [|k ids IH]; cbn; [done|]. rewrite IH. apply delete_delete. Qed.

Lemma drop_logs_spec ids : ∀ l, NoDup ids → (∀ id, id ∈ ids → is_Some (disk l !! id)) →
  drop_logs ids l = (Ok tt, set_disk (next_log_id l) (foldr delete (disk l) ids) l).
Proof.
  induction ids as [|id ids IH]; intros l Hnd Hin; [by destruct l|].
  apply NoDup_cons in Hnd as [Hni Hnd]. destruct (Hin id ltac:(set_solver)) as [f Hf].
  cbn [drop_logs]. erewrite ST_bind_Ok by (unfold drop_log; by rewrite Hf).
  rewrite IH; [|done|].
  - cbn. by rewrite foldr_delete_comm.
  - intros k Hk. cbn. rewrite lookup_delete_ne by set_solver. apply Hin. set_solver.
Qed.

Lemma foldr_delete_lookup (d : gmap Z bytes) ids k :
  foldr delete d ids !! k = if decide (k ∈ ids) then None else d !! k.
Proof.
  induction ids as [|id ids IH]; cbn; [by rewrite decide_False by set_solver|].
  destruct (decide (k = id)) as [->|Hne].
  - rewrite lookup_delete_eq, decide_True by set_solver. done.
  - rewrite lookup_delete_ne, IH by done. repeat case_decide; set_solver.
Qed.

(** ** Preservation *)

(** Files changed roles, and nothing else changed. *)
Lemma log_ok_move l l' : log_ok l → log_ids l' ≡ₚ log_ids l → disk l' = disk l →
  next_log_id l' = next_log_id l → log_pool l' ⊆ log_pool l →
  (∀ h s, appending l' = Some (h, s) → appending l = Some (h, s)) → log_ok l'.
Proof.
  intros [Hnd Hd [Hn0 Hn] Hp Ha] Hids Hdisk Hnext Hpool Happ. split.
  - by rewrite Hids.
  - intros id. rewrite Hdisk, Hids. apply Hd.
  - rewrite Hnext. split; [done|]. intros id. rewrite Hids. apply Hn.
  - rewrite Forall_forall in Hp |- *. intros h Hh. rewrite Hdisk. apply Hp. by apply Hpool.
  - intros h s f. rewrite Hdisk. intros E Hf. apply (Ha h s f); [by apply Happ|done].
Qed.

Ltac run_log := unfold mbind, ST_bind, mret, ST_ret, modify_st, get_st; cbn [fst snd].

Ltac move_log :=
  run_log; eapply log_ok_move; [eassumption| | | | |]; try done; try set_solver;
  unfold log_ids; cbn; rewrite ?fmap_app; cbn.

Lemma begin_record_ok l : log_ok l → log_ok (begin_record l).2.
Proof. intros Hok. by move_log. Qed.

Lemma end_read_ok c rid l : log_ok l → log_ok (end_read c rid l).2.
Proof.
  intros Hok. unfold end_read. erewrite ST_bind_Ok by done.
  destruct (next_record_id l <=? rid); (erewrite ST_bind_Ok by done); by move_log.
Qed.

Lemma put_reader_ok r l : log_ok l → log_ok (put_reader r l).
Proof.
  intros Hok. unfold put_reader. move_log. by destruct (reading_file l).
Qed.

Lemma read_next_ok `{!Crc32} v l : log_ok l → log_ok (read_next v l).2.
Proof.
  intros Hok. unfold read_next. destruct (reading_state l), (reading_file l) as [h|] eqn:Eh; try done.
  set (rd := LogReader.new _ _ _). destruct (LogReader.next rd) as [a rd'].
  pose proof (put_reader_ok rd' l Hok) as Hok'.
  destruct a as [[]|[[]| | | | | | | | |]| | | |]; try done. by move_log.
Qed.

Lemma flush_advance_ok l : log_ok l → let s := flush_advance l in
  log_ok s.2 ∧ (∀ a, s.1 = Ok a → flushing s.2 = None).
Proof.
  intros Hok. unfold flush_advance. erewrite ST_bind_Ok by done.
  destruct (flushing l) as [f|] eqn:Ef; [|done].
  destruct (reading_state l) eqn:Es; [done|]. cbv zeta.
  destruct (reading_file l) as [r|] eqn:Er; (split; [|done]); move_log; rewrite Ef, Er; cbn.
  - solve_Permutation.
  - done.
Qed.

Lemma flush_rotate_ok min l : log_ok l → flushing l = None → log_ok (flush_rotate min l).2.
Proof.
  intros Hok Hf. unfold flush_rotate. erewrite ST_bind_Ok by done.
  destruct (_ && _); [|done]. move_log. rewrite Hf. cbn. by destruct (appending l) as [[]|].
Qed.

Lemma flush_one_ok min l : log_ok l → log_ok (flush_one min l).2.
Proof.
  intros Hok. unfold flush_one, mbind, ST_bind. destruct (flush_advance_ok l Hok) as [H1 H2].
  destruct (flush_advance l) as [[[a b]| | | | |] l1]; try done.
  specialize (H2 _ eq_refl). pose proof (flush_rotate_ok min l1 H1 H2) as H3.
  by destruct (flush_rotate min l1) as [[[]| | | | |] l2].
Qed.

Lemma replay_next_ok l : log_ok l → log_ok (replay_next l).2.
Proof.
  intros Hok. unfold replay_next. erewrite ST_bind_Ok by done.
  destruct (reading_file l) as [r|] eqn:Er; (erewrite ST_bind_Ok by done);
    erewrite ST_bind_Ok by done; cbn [replay_queue set_queues set_reading];
    destruct (replay_queue l) as [|[h k] q] eqn:Eq; move_log; rewrite ?Er, ?Eq; cbn; try done.
  all: solve_Permutation.
Qed.

(** Some files are dropped: they leave every role and the directory. *)
Lemma log_ok_drop l l' ids : log_ok l → log_ids l ≡ₚ ids ++ log_ids l' →
  disk l' = foldr delete (disk l) ids → next_log_id l' = next_log_id l →
  log_pool l' ⊆ log_pool l →
  (∀ h s, appending l' = Some (h, s) → appending l = Some (h, s)) → log_ok l'.
Proof.
  intros [Hnd Hd [Hn0 Hn] Hp Ha] Hids Hdisk Hnext Hpool Happ.
  rewrite Hids in Hnd. apply NoDup_app in Hnd as (_ & Hdis & Hnd).
  assert (Hlk : ∀ id, id ∈ log_ids l' → disk l' !! id = disk l !! id).
  { intros id Hid. rewrite Hdisk, foldr_delete_lookup, decide_False; [done|].
    intros Hx. by apply (Hdis id). }
  split; [done|..].
  - intros id. rewrite Hdisk, foldr_delete_lookup. case_decide as Hin.
    + split; [by intros []|]. intros Hx. by destruct (Hdis id).
    + rewrite Hd, Hids, elem_of_app. tauto.
  - rewrite Hnext. split; [done|]. intros id Hid. apply Hn. rewrite Hids. apply elem_of_app. by right.
  - rewrite Forall_forall in Hp |- *. intros h Hh. rewrite Hlk; [by apply Hp, Hpool|].
    unfold log_ids. rewrite !elem_of_app. do 3 right. left. by apply list_elem_of_fmap_2.
  - intros h s f Happ'. rewrite Hlk; [by apply Ha with s, Happ|].
    unfold log_ids. rewrite Happ'. apply list_elem_of_here.
Qed.

Lemma clear_replay_logs_ok l : log_ok l →
  ∃ l', clear_replay_logs l = (Ok tt, l') ∧ log_ok l' ∧ replay_queue l' = [] ∧
    reading_file l' = None ∧ lg_overlays l' = empty_overlays ∧ cleanup_queue l' = cleanup_queue l ∧
    next_record_id l' = next_record_id l ∧ appending l' = appending l ∧ flushing l' = flushing l ∧
    ∀ id f, disk l' !! id = Some f → disk l !! id = Some f.
Proof.
  intros Hok. set (ids := opt_id (reading_file l) ++ (h_id ∘ fst <$> replay_queue l)).
  assert (Hperm : log_ids l ≡ₚ ids ++ opt_id (fst <$> appending l) ++ opt_id (flushing l) ++
    (h_id <$> log_pool l) ++ (h_id <$> cleanup_queue l)).
  { unfold log_ids, ids. solve_Permutation. }
  pose proof (ok_nodup l Hok) as Hnd. rewrite Hperm in Hnd. apply NoDup_app in Hnd as (Hnd & _).
  assert (Hin : ∀ id, id ∈ ids → is_Some (disk l !! id)).
  { intros id Hid. apply (ok_disk l Hok). rewrite Hperm. set_solver. }
  set (l' := set_log_dirty false (set_reading None Idle (set_overlays empty_overlays
    (set_queues (log_pool l) (cleanup_queue l) []
       (set_disk (next_log_id l) (foldr delete (disk l) ids) l))))).
  assert (Hrun : clear_replay_logs l = (Ok tt, l')).
  { unfold clear_replay_logs. do 2 erewrite ST_bind_Ok by done.
    unfold ids in *. destruct (reading_file l) as [h|] eqn:Er; cbn [opt_id app] in *.
    - apply NoDup_cons in Hnd as [Hni Hnd].
      erewrite ST_bind_Ok.
      2: { unfold drop_log. cbn. destruct (Hin (h_id h)) as [f ->]; [set_solver|]. done. }
      erewrite ST_bind_Ok by done. erewrite ST_bind_Ok.
      2: { rewrite drop_logs_spec; [done|done|]. intros id Hid. cbn.
           rewrite lookup_delete_ne by set_solver. apply Hin. set_solver. }
      do 2 erewrite ST_bind_Ok by done. unfold modify_st, l', ids. cbn.
      by rewrite foldr_delete_comm.
    - do 2 erewrite ST_bind_Ok by done. erewrite ST_bind_Ok.
      2: { rewrite drop_logs_spec; done. }
      do 2 erewrite ST_bind_Ok by done. unfold modify_st, l', ids. cbn. done. }
  exists l'. split_and!; try done.
  - eapply (log_ok_drop l l' ids); try done. unfold log_ids at 2. cbn. rewrite app_nil_r. done.
  - intros id f. cbn. rewrite foldr_delete_lookup. by case_decide.
Qed.

Lemma kill_logs_ok l : log_ok l → ∃ l', kill_logs l = (Ok tt, l') ∧ log_ok l' ∧ log_pool l' = [] ∧
  lg_overlays l' = lg_overlays l ∧ next_record_id l' = next_record_id l ∧ appending l' = appending l ∧
  flushing l' = flushing l ∧ reading_file l' = None ∧ cleanup_queue l' = cleanup_queue l ∧
  replay_queue l' = replay_queue l ∧
  ∀ id, id ∈ opt_id (fst <$> appending l) ++ opt_id (flushing l) → disk l' !! id = disk l !! id.
Proof.
  intros Hok. set (ids := (h_id <$> log_pool l) ++ opt_id (reading_file l)).
  assert (Hperm : log_ids l ≡ₚ ids ++ opt_id (fst <$> appending l) ++ opt_id (flushing l) ++
    (h_id <$> cleanup_queue l) ++ (h_id ∘ fst <$> replay_queue l)).
  { unfold log_ids, ids. solve_Permutation. }
  pose proof (ok_nodup l Hok) as Hnd. rewrite Hperm in Hnd. apply NoDup_app in Hnd as (Hnd & _).
  assert (Hin : ∀ id, id ∈ ids → is_Some (disk l !! id)).
  { intros id Hid. apply (ok_disk l Hok). rewrite Hperm. set_solver. }
  set (l' := set_reading None (reading_state l) (set_queues [] (cleanup_queue l) (replay_queue l)
    (set_disk (next_log_id l) (foldr delete (disk l) ids) l))).
  assert (Hrun : kill_logs l = (Ok tt, l')).
  { unfold kill_logs. do 2 erewrite ST_bind_Ok by done. unfold ids in *.
    apply NoDup_app in Hnd as (Hnd & Hdis & _).
    erewrite ST_bind_Ok.
    2: { rewrite drop_logs_spec; [done|done|]. intros id Hid. cbn. apply Hin. set_solver. }
    unfold l', ids. destruct (reading_file l) as [h|] eqn:Er; cbn [opt_id] in *.
    - erewrite ST_bind_Ok by done. unfold drop_log. cbn.
      rewrite foldr_delete_lookup.
      rewrite decide_False by (intros Hx; apply (Hdis _ Hx); set_solver).
      destruct (Hin (h_id h)) as [f Hf]; [set_solver|]. rewrite Hf.
      unfold set_disk, set_reading, set_queues. cbn. rewrite foldr_app. cbn.
      by rewrite foldr_delete_comm.
    - rewrite app_nil_r. destruct l. cbn in *. by subst. }
  exists l'. split_and!; try done; [eapply (log_ok_drop l l' ids); try done; set_solver|].
  intros id Hid. cbn. rewrite foldr_delete_lookup, decide_False; [done|]. intros Hx.
  pose proof (ok_nodup l Hok) as Hnd'. rewrite Hperm in Hnd'. apply NoDup_app in Hnd' as (_ & Hdis & _).
  apply (Hdis _ Hx). rewrite !elem_of_app in *. tauto.
Qed.

(** *** Cleaning up *)

Lemma foldr_empty_lookup (d : gmap Z bytes) (hs : list Handle) k :
  foldr (fun h d => <[h_id h := []]> d) d hs !! k =
  if decide (k ∈ h_id <$> hs) then Some [] else d !! k.
Proof.
  induction hs as [|h hs IH]; cbn; [by rewrite decide_False by set_solver|].
  destruct (decide (k = h_id h)) as [->|Hne].
  - rewrite lookup_insert_eq, decide_True by set_solver. done.
  - rewrite lookup_insert_ne, IH by done. repeat case_decide; set_solver.
Qed.

(** The state after the cleaned files were emptied and pooled, before the pool
    is cut. *)
Definition pooled (count : nat) (l : LogFiles) : LogFiles :=
  set_disk (next_log_id l)
    (foldr (fun h d => <[h_id h := []]> d) (disk l) (take count (cleanup_queue l)))
    (set_queues (sort_by_key h_id (log_pool l ++
         ((fun h => MkHandle (h_id h) 0) <$> take count (cleanup_queue l))))
       (drop count (cleanup_queue l)) (replay_queue l) l).

Lemma pooled_ok count l : log_ok l → log_ok (pooled count l).
Proof.
  intros [Hnd Hd [Hn0 Hn] Hp Ha]. unfold pooled. set (cl := take count (cleanup_queue l)).
  assert (Hcl : h_id <$> ((fun h => MkHandle (h_id h) 0) <$> cl) = h_id <$> cl)
    by (by rewrite <- list_fmap_compose).
  assert (Hids : log_ids (pooled count l) ≡ₚ log_ids l).
  { unfold log_ids, pooled. cbn. fold cl. rewrite sort_by_key_perm, fmap_app, Hcl.
    rewrite <- (take_drop count (cleanup_queue l)) at 2. fold cl. rewrite fmap_app.
    solve_Permutation. }
  fold (pooled count l) in *. unfold pooled in *. fold cl in Hids |- *.
  assert (Hin : ∀ k, k ∈ h_id <$> cl → k ∈ log_ids l).
  { intros k Hk. unfold log_ids. rewrite <- (take_drop count (cleanup_queue l)). fold cl.
    rewrite fmap_app, !elem_of_app. tauto. }
  split.
  - by rewrite Hids.
  - intros id. rewrite Hids. cbn. rewrite foldr_empty_lookup. case_decide as Hk; [|apply Hd].
    split; [intros _; by apply Hin|eauto].
  - split; [done|]. intros id. rewrite Hids. apply Hn.
  - cbn. rewrite sort_by_key_perm. apply Forall_app. split.
    + eapply Forall_impl; [exact Hp|]. cbn. intros h [H1 H2]. split; [done|].
      rewrite foldr_empty_lookup. by case_decide.
    + apply Forall_fmap, Forall_forall. intros h Hh. cbn. split; [done|].
      rewrite foldr_empty_lookup, decide_True; [done|]. by apply list_elem_of_fmap_2.
  - cbn. intros h s f Happ. rewrite foldr_empty_lookup. case_decide as Hk; [|by apply Ha with s].
    exfalso. unfold log_ids in Hnd. rewrite Happ in Hnd. cbn in Hnd.
    rewrite <- (take_drop count (cleanup_queue l)) in Hnd. fold cl in Hnd.
    rewrite fmap_app in Hnd. apply NoDup_cons in Hnd as [Hni _]. set_solver.
Qed.

Lemma clean_logs_ok count l : log_ok l → (count ≤ length (cleanup_queue l))%nat →
  ∃ l', clean_logs count l = (Ok (negb (length (cleanup_queue l) =? count)%nat), l') ∧ log_ok l' ∧
    (length (log_pool l') ≤ MAX_LOG_POOL_SIZE)%nat ∧
    StronglySorted (fun x y => h_id x ≤ h_id y) (log_pool l') ∧
    cleanup_queue l' = drop count (cleanup_queue l) ∧
    lg_overlays l' = lg_overlays l ∧ next_record_id l' = next_record_id l ∧
    appending l' = appending l ∧ flushing l' = flushing l ∧ reading_file l' = reading_file l ∧
    reading_state l' = reading_state l ∧ replay_queue l' = replay_queue l ∧
    (∀ id, id ∉ h_id <$> log_pool l → id ∉ h_id <$> take count (cleanup_queue l) → disk l' !! id = disk l !! id).
Proof.
  intros Hok Hc. pose proof (pooled_ok count l Hok) as Hok1.
  set (pool := log_pool (pooled count l)).
  set (ids := h_id <$> drop MAX_LOG_POOL_SIZE pool).
  assert (Hperm : log_ids (pooled count l) ≡ₚ ids ++ log_ids (set_queues (take MAX_LOG_POOL_SIZE pool)
    (cleanup_queue (pooled count l)) (replay_queue l) (pooled count l))).
  { unfold log_ids, ids. cbn [log_pool set_queues]. fold pool.
    rewrite <- (take_drop MAX_LOG_POOL_SIZE pool) at 1. rewrite fmap_app. cbn. solve_Permutation. }
  assert (Hnd : NoDup ids)
    by (pose proof (ok_nodup _ Hok1) as Hnd; rewrite Hperm in Hnd; by apply NoDup_app in Hnd as [Hnd _]).
  set (l' := set_disk (next_log_id l) (foldr delete (disk (pooled count l)) ids)
    (set_queues (take MAX_LOG_POOL_SIZE pool) (drop count (cleanup_queue l)) (replay_queue l) l)).
  assert (Hrun : clean_logs count l = (Ok (negb (length (drop count (cleanup_queue l)) =? 0)%nat), l')).
  { unfold clean_logs. erewrite ST_bind_Ok by done. erewrite ST_bind_Ok.
    2: { unfold lift_st, rust_assert. by rewrite (proj2 (Nat.leb_le _ _) Hc). }
    do 4 erewrite ST_bind_Ok by done. erewrite ST_bind_Ok.
    2: { rewrite drop_logs_spec; [done|exact Hnd|]. intros id Hid.
         apply (ok_disk _ Hok1). rewrite Hperm. by apply elem_of_app; left. }
    by erewrite ST_bind_Ok by done. }
  exists l'. split_and!.
  - rewrite Hrun. do 3 f_equal. rewrite length_drop.
    destruct (Nat.eqb_spec (length (cleanup_queue l) - count) 0),
      (Nat.eqb_spec (length (cleanup_queue l)) count); (done || lia).
  - eapply (log_ok_drop (pooled count l) l' ids Hok1); try done.
    intros h Hh. by eapply elem_of_take in Hh as (? & Hh & _); apply list_elem_of_lookup_2 in Hh.
  - change (log_pool l') with (take MAX_LOG_POOL_SIZE pool). rewrite length_take.
    apply Nat.le_min_l.
  - change (log_pool l') with (take MAX_LOG_POOL_SIZE pool).
    pose proof (sort_by_key_sorted h_id (log_pool l ++
      ((fun h => MkHandle (h_id h) 0) <$> take count (cleanup_queue l)))) as Hs.
    change (sort_by_key h_id _) with pool in Hs.
    rewrite <- (take_drop MAX_LOG_POOL_SIZE pool) in Hs. by apply StronglySorted_app_1_l in Hs.
  - done.
  - done.
  - done.
  - done.
  - done.
  - done.
  - done.
  - done.
  - intros id Hpool Hcl. cbn. rewrite foldr_delete_lookup, foldr_empty_lookup, !decide_False; [done|done|].
    intros Hin. assert (Hin' : id ∈ h_id <$> pool).
    { unfold ids in Hin. rewrite <- (take_drop MAX_LOG_POOL_SIZE pool), fmap_app. by apply elem_of_app; right. }
    apply list_elem_of_fmap in Hin' as (h & -> & Hh).
    change pool with (sort_by_key h_id (log_pool l ++
      ((fun h => MkHandle (h_id h) 0) <$> take count (cleanup_queue l)))) in Hh.
    rewrite sort_by_key_perm in Hh. apply elem_of_app in Hh as [Hh|(h' & -> & Hh)%list_elem_of_fmap].
    + by apply Hpool, list_elem_of_fmap_2.
    + apply Hcl. cbn. by apply (list_elem_of_fmap_2 h_id).
Qed.

(** *** Appending *)

Section Append.
Context `{!HashMapOrder, !Crc32}.

Lemma activate_ok l : log_ok l → next_log_id l + 1 < 2 ^ 32 →
  ∃ h size l' f, activate_appending l = (Ok (h, size), l') ∧ log_ok l' ∧
    appending l' = Some (h, size) ∧ disk l' !! h_id h = Some f ∧ h_pos h = length f ∧
    lg_overlays l' = lg_overlays l ∧ next_record_id l' = next_record_id l ∧
    (appending l = None → f = [] ∧ size = 0) ∧ (appending l ≠ None → l' = l) ∧
    flushing l' = flushing l ∧ reading_file l' = reading_file l ∧
    reading_state l' = reading_state l ∧ (∀ id, id ≠ h_id h → disk l' !! id = disk l !! id).
Proof.
  intros Hok Hnext. unfold activate_appending. erewrite ST_bind_Ok by done.
  destruct (appending l) as [[h size]|] eqn:Ea.
  { assert (is_Some (disk l !! h_id h)) as [f Hf].
    { apply (ok_disk l Hok). unfold log_ids. rewrite Ea. apply list_elem_of_here. }
    exists h, size, l, f. split_and!; try done. by eapply (ok_append l Hok). }
  destruct (log_pool l) as [|h pool] eqn:Ep.
  - set (id := next_log_id l) in *.
    assert (Hni : id ∉ log_ids l) by (intros Hin; apply (proj2 (ok_next l Hok)) in Hin; unfold id in Hin; lia).
    assert (Hnone : disk l !! id = None).
    { destruct (disk l !! id) as [f|] eqn:E; [|done]. destruct Hni. apply (ok_disk l Hok). eauto. }
    do 2 erewrite ST_bind_Ok by done. rewrite Hnone. cbn [default].
    eexists (MkHandle id 0), 0, _, []. split; [reflexivity|]. split_and!; try done.
    + destruct Hok as [Hnd Hd [Hn0 Hn] Hp Ha]. unfold log_ids in *. rewrite Ea in *. cbn in *.
      assert (Hw : wrap32 (id + 1) = id + 1).
      { unfold wrap32. apply Z.mod_small. unfold id in *. lia. }
      split; cbn.
      * by constructor.
      * intros k. rewrite elem_of_cons, <- Hd, lookup_insert_is_Some. naive_solver.
      * rewrite Hw. split; [unfold id in *; lia|].
        intros k. rewrite elem_of_cons. fold id in Hn0. intros [->|Hk]; [|apply Hn in Hk]; lia.
      * rewrite Ep. constructor.
      * intros h s f [= <- <-]. cbn. rewrite lookup_insert_eq. by intros [= <-].
    + cbn. by rewrite lookup_insert_eq.
    + intros k Hk. cbn. by rewrite lookup_insert_ne.
  - pose proof (ok_pool l Hok) as Hpl. rewrite Ep in Hpl. apply Forall_cons in Hpl as [[Hp0 Hpe] Hpl].
    do 2 erewrite ST_bind_Ok by done.
    eexists h, 0, _, []. split; [reflexivity|]. split_and!; try done.
    destruct Hok as [Hnd Hd [Hn0 Hn] Hp Ha]. unfold log_ids in *. rewrite Ea, Ep in *. cbn in *.
    assert (Hperm : h_id h :: opt_id (flushing l) ++ opt_id (reading_file l) ++
      (h_id <$> pool) ++ (h_id <$> cleanup_queue l) ++ (h_id ∘ fst <$> replay_queue l) ≡ₚ
      opt_id (flushing l) ++ opt_id (reading_file l) ++ h_id h :: (h_id <$> pool) ++
      (h_id <$> cleanup_queue l) ++ (h_id ∘ fst <$> replay_queue l)) by solve_Permutation.
    split; cbn.
    + by rewrite Hperm.
    + intros k. rewrite Hperm. apply Hd.
    + split; [done|]. intros k. rewrite Hperm. apply Hn.
    + done.
    + intros h' s f [= <- <-]. rewrite Hpe. intros [= <-]. done.
Qed.

(** Merging the overlays of a record: its entries cover the older ones. *)
Lemma extend_lookup {K A} `{Countable K} (o c : gmap K (gmap Z A)) k :
  map_fold (fun id overlay acc => <[id := overlay ∪ default ∅ (acc !! id)]> acc) o c !! k =
  match c !! k with Some overlay => Some (overlay ∪ default ∅ (o !! k)) | None => o !! k end.
Proof.
  revert k. apply (map_fold_weak_ind (fun r c => ∀ k, r !! k =
    match c !! k with Some overlay => Some (overlay ∪ default ∅ (o !! k)) | None => o !! k end)).
  - intros k. by rewrite lookup_empty.
  - intros id overlay c' r Hid IH k. rewrite !lookup_insert. case_decide as E; [subst k|apply IH].
    by rewrite IH, Hid.
Qed.

Lemma extend_overlay {K A} `{Countable K} (o c : gmap K (gmap Z A)) k i :
  overlay_lookup
    (map_fold (fun id overlay acc => <[id := overlay ∪ default ∅ (acc !! id)]> acc) o c) k i =
  match overlay_lookup c k i with Some x => Some x | None => overlay_lookup o k i end.
Proof.
  unfold overlay_lookup. rewrite extend_lookup. destruct (c !! k) as [ov|]; cbn; [|done].
  rewrite lookup_union. destruct (ov !! i) as [x|]; destruct (o !! k) as [ov'|]; cbn.
  - by destruct (ov' !! i).
  - by rewrite lookup_empty.
  - by destruct (ov' !! i).
  - by rewrite lookup_empty.
Qed.

Lemma write_all_at_end (d f : bytes) : write_all_at d (length f) f = f ++ d.
Proof.
  unfold write_all_at. rewrite Nat.sub_diag. cbn [replicate]. rewrite app_nil_r.
  rewrite take_ge, drop_ge by lia. by rewrite app_nil_r.
Qed.

Lemma log_ok_append l l' h size s' f data : log_ok l → appending l = Some (h, size) →
  disk l !! h_id h = Some f → log_ids l' = log_ids l → next_log_id l' = next_log_id l →
  log_pool l' = log_pool l → disk l' = <[h_id h := f ++ data]> (disk l) →
  appending l' = Some (MkHandle (h_id h) (length (f ++ data)), s') → log_ok l'.
Proof.
  intros [Hnd Hd [Hn0 Hn] Hp Ha] Happ Hf Hids Hnext Hpool Hdisk Happ'.
  split; rewrite ?Hids, ?Hnext, ?Hpool, ?Hdisk; [done| |done| |].
  - intros id. rewrite lookup_insert_is_Some, Hd. split; [|].
    + intros [<-|[_ ?]]; [|done]. apply Hd. eauto.
    + intros Hid. destruct (decide (h_id h = id)); auto.
  - rewrite Forall_forall in Hp |- *. intros k Hk. destruct (Hp k Hk) as [Hk1 Hk2].
    split; [done|]. rewrite lookup_insert_ne; [done|]. intros E.
    unfold log_ids in Hnd. rewrite Happ in Hnd. cbn in Hnd. apply NoDup_cons in Hnd as [Hni _].
    apply Hni. rewrite E, !elem_of_app. do 2 right. left. by apply list_elem_of_fmap_2.
  - intros k s0 f0. rewrite Happ'. intros [= <- <-]. cbn. rewrite lookup_insert_eq.
    by intros [= <-].
Qed.

(** [end_record]: the bytes of the record are appended to the current log file,
    and the overlays show what the writer of the record saw. *)
Lemma end_record_spec l (w : LogWriter) : log_ok l → next_log_id l + 1 < 2 ^ 32 →
  writer_overlays w = lg_overlays l → wrap64 (LogWriter.record_id w + 1) = next_record_id l →
  ∃ l' h f,
    end_record (LogWriter.drain w) l = (Ok (flushed_bytes (flush_to_file (writer_log w)).2), l') ∧
    log_ok l' ∧ (∃ size, appending l' = Some (h, size) ∧
      (appending l = None → size = flushed_bytes (flush_to_file (writer_log w)).2)) ∧
    flushing l' = flushing l ∧ reading_file l' = reading_file l ∧
    reading_state l' = reading_state l ∧
    disk l' !! h_id h = Some (f ++ (flush_to_file (writer_log w)).1) ∧
    (∀ h0 s0, appending l = Some (h0, s0) → h_id h = h_id h0 ∧ disk l !! h_id h0 = Some f) ∧
    (appending l = None → f = []) ∧
    next_record_id l' = next_record_id l ∧
    (∀ t i, value_view (lg_overlays l') t i = value_view w t i) ∧
    (∀ t i, index_view (lg_overlays l') t i = index_view w t i) ∧
    (∀ id, id ≠ h_id h → disk l' !! id = disk l !! id) ∧
    (∀ t i, overlay_lookup (ov_value (lg_overlays l')) t i =
      match overlay_lookup (local_values (writer_log w)) t i with
      | Some e => Some e | None => overlay_lookup (ov_value (lg_overlays l)) t i end) ∧
    (∀ t i, overlay_lookup (ov_index (lg_overlays l')) t i =
      match overlay_lookup (local_index (writer_log w)) t i with
      | Some e => Some e | None => overlay_lookup (ov_index (lg_overlays l)) t i end).
Proof.
  intros Hok Hnext Hov Hrid. unfold end_record. erewrite ST_bind_Ok by done.
  erewrite ST_bind_Ok.
  2: { unfold lift_st, rust_assert, LogWriter.drain. unfold LogWriter.record_id in Hrid.
       by rewrite Hrid, Z.eqb_refl. }
  destruct (activate_ok l Hok Hnext) as
    (h & size & l1 & f & Hact & Hok1 & Ha1 & Hf & Hpos & Ho1 & Hn1 & Hnew & Hold & K1 & K2 & K3 & K4).
  erewrite ST_bind_Ok by exact Hact. cbv beta iota. unfold LogWriter.drain.
  destruct (flush_to_file (writer_log w)) as [data fl] eqn:Efl.
  assert (Ev : flushed_values fl = local_values (writer_log w)) by (unfold flush_to_file in Efl; by injection Efl as <- <-).
  assert (Ex : flushed_index fl = local_index (writer_log w)) by (unfold flush_to_file in Efl; by injection Efl as <- <-).
  do 4 erewrite ST_bind_Ok by done. cbn [disk].
  rewrite Hf. cbn [default id]. rewrite Hpos, write_all_at_end.
  eexists _, (MkHandle (h_id h) (length f + length data)), f. split; [reflexivity|].
  split_and!.
  - eapply (log_ok_append l1 _ h size _ f data); try done.
    + unfold log_ids. by rewrite Ha1.
    + cbn. by rewrite length_app.
  - eexists. split; [done|]. intros Happ. destruct (Hnew Happ) as [_ ->].
    assert (E : flushed_bytes fl = wrap64 (flushed_bytes fl)).
    { unfold flush_to_file in Efl. injection Efl as _ <-. cbn. unfold wrap64. by rewrite Zmod_mod. }
    by rewrite Z.add_0_l, <- E.
  - done.
  - done.
  - done.
  - cbn. by rewrite lookup_insert_eq.
  - intros h0 s0 Happ. rewrite (Hold ltac:(congruence)) in *. rewrite Happ in Ha1.
    injection Ha1 as <- <-. done.
  - intros Happ. by apply Hnew.
  - done.
  - intros t i. cbn. unfold value_view; cbn. unfold extend_value. rewrite extend_overlay.
    rewrite Ev, Ho1, <- Hov.
    by destruct (overlay_lookup (local_values (writer_log w)) t i) as [[]|].
  - intros t i. cbn. unfold index_view; cbn. unfold extend_index. rewrite extend_overlay.
    rewrite Ex, Ho1, <- Hov.
    by destruct (overlay_lookup (local_index (writer_log w)) t i) as [[[]]|].
  - intros id Hid. cbn in Hid |- *. rewrite lookup_insert_ne by done. by apply K4.
  - intros t i. cbn. unfold extend_value. by rewrite extend_overlay, Ev, Ho1.
  - intros t i. cbn. unfold extend_index. by rewrite extend_overlay, Ex, Ho1.
Qed.

Lemma end_record_queues c l n l' : end_record c l = (Ok n, l') →
  cleanup_queue l' = cleanup_queue l ∧ replay_queue l' = replay_queue l.
Proof.
  unfold end_record. erewrite ST_bind_Ok by done. unfold mbind, ST_bind, lift_st.
  destruct (rust_assert _); try done. unfold activate_appending, mbind, ST_bind, get_st, modify_st, mret, ST_ret.
  destruct (appending l) as [[h s]|].
  - destruct (flush_to_file c). by intros [= _ <-].
  - destruct (log_pool l); destruct (flush_to_file c); by intros [= _ <-].
Qed.

End Append.

(** ** Leaving the overlays *)

(** Removing one entry of a map of overlays. *)
Lemma overlay_delete {K A} `{Countable K} (o : gmap K (gmap Z A)) t ov i t' i' :
  o !! t = Some ov →
  overlay_lookup (<[t := delete i ov]> o) t' i' =
  if decide (t = t' ∧ i = i') then None else overlay_lookup o t' i'.
Proof.
  intros Ho. unfold overlay_lookup. rewrite lookup_insert.
  destruct (decide (t = t')) as [<-|Ht]; cbn; [|by rewrite decide_False by tauto].
  rewrite lookup_delete. destruct (decide (i = i')) as [<-|Hi].
  - by rewrite decide_True.
  - rewrite decide_False by tauto. by rewrite Ho.
Qed.

(** The entries of the record, and no others, leave the overlays. *)
Lemma clear_entries_lookup {K A} `{Countable K} (rec : A → Z) rid l :
  ∀ (o : gmap K (gmap Z A)) t i,
  overlay_lookup (foldl (clear_entry rec rid) o l) t i =
  match overlay_lookup o t i with
  | Some a => if bool_decide ((t, i) ∈ l) && (rec a =? rid) then None else Some a
  | None => None
  end.
Proof.
  induction l as [|[t0 i0] l IH]; intros o t i; cbn [foldl].
  { rewrite bool_decide_false by set_solver. by destruct (overlay_lookup o t i). }
  assert (Hone : overlay_lookup (clear_entry rec rid o (t0, i0)) t i =
    match overlay_lookup o t i with
    | Some a => if bool_decide ((t, i) = (t0, i0)) && (rec a =? rid) then None else Some a
    | None => None
    end).
  { unfold clear_entry.
    assert (Hid : overlay_lookup o t i = match overlay_lookup o t i with
      | Some a => Some a | None => None end) by (by destruct (overlay_lookup o t i)).
    destruct (decide ((t, i) = (t0, i0))) as [E|E].
    - injection E as -> ->. rewrite bool_decide_true by done. cbn [andb].
      unfold overlay_lookup at 2. destruct (o !! t0) as [ov|] eqn:Eo; cbn.
      + destruct (ov !! i0) as [a|] eqn:Ei; cbn.
        * destruct (rec a =? rid); [by rewrite (overlay_delete _ _ ov), decide_True|].
          unfold overlay_lookup. by rewrite Eo.
        * unfold overlay_lookup. by rewrite Eo.
      + unfold overlay_lookup. by rewrite Eo.
    - rewrite bool_decide_false by done. cbn [andb]. rewrite <- Hid.
      destruct (o !! t0) as [ov|] eqn:Eo; [|done]. destruct (ov !! i0) as [a|]; [|done].
      destruct (rec a =? rid); [|done]. rewrite (overlay_delete _ _ ov), decide_False; naive_solver. }
  rewrite IH, Hone. destruct (overlay_lookup o t i) as [a|]; [|done].
  destruct (rec a =? rid) eqn:Er; rewrite ?andb_false_r, ?andb_true_r; [|by rewrite Er, andb_false_r].
  destruct (decide ((t, i) = (t0, i0))) as [E|E].
  - rewrite bool_decide_true by done. by rewrite bool_decide_true by set_solver.
  - rewrite bool_decide_false, Er, andb_true_r by done.
    destruct (decide ((t, i) ∈ l)); [by rewrite !bool_decide_true by set_solver|].
    by rewrite !bool_decide_false by set_solver.
Qed.

(** Dropping the empty overlays of index tables changes no lookup. *)
Lemma filter_overlay {K A} `{Countable K} `{EqDecision A} (o : gmap K (gmap Z A)) t i :
  overlay_lookup (filter (fun '(_, overlay) => overlay ≠ ∅) o) t i = overlay_lookup o t i.
Proof.
  unfold overlay_lookup. destruct (o !! t) as [ov|] eqn:Eo.
  - destruct (decide (ov = ∅)) as [->|Hne].
    + rewrite map_lookup_filter_None_2; [by cbn; rewrite lookup_empty|].
      right. intros x Hx. rewrite Eo in Hx. injection Hx as <-. naive_solver.
    + by rewrite (map_lookup_filter_Some_2 _ _ _ ov).
  - rewrite map_lookup_filter_None_2; [done|by left].
Qed.

(** [end_read]: the entries of the record leave the overlays. *)
Lemma end_read_spec (l : LogFiles) (c : Cleared) (rid : Z) :
  ∃ l', end_read c rid l = (Ok tt, l') ∧
    (∀ t i, overlay_lookup (ov_value (lg_overlays l')) t i =
      match overlay_lookup (ov_value (lg_overlays l)) t i with
      | Some (r, d) =>
          if bool_decide ((t, i) ∈ cleared_values c) && (r =? rid) then None else Some (r, d)
      | None => None
      end) ∧
    (∀ t i, overlay_lookup (ov_index (lg_overlays l')) t i =
      match overlay_lookup (ov_index (lg_overlays l)) t i with
      | Some (r, mask, chunk) =>
          if bool_decide ((t, i) ∈ cleared_index c) && (r =? rid) then None
          else Some (r, mask, chunk)
      | None => None
      end) ∧
    next_record_id l' = (if next_record_id l <=? rid then wrap64 (rid + 1) else next_record_id l).
Proof.
  unfold end_read. erewrite ST_bind_Ok by done.
  destruct (next_record_id l <=? rid); (erewrite ST_bind_Ok by done);
    (eexists; split; [reflexivity|]);
    cbn [lg_overlays set_overlays ov_value ov_index]; (split_and!; [| |done]).
  all: intros t i; rewrite ?filter_overlay, clear_entries_lookup.
  1, 3: by destruct (overlay_lookup _ t i) as [[]|].
  all: by destruct (overlay_lookup _ t i) as [[[]]|].
Qed.

(** ** Opening *)

Lemma open_logs_ok files : ∀ logs max d,
  NoDup (files.*1 ++ (h_id ∘ fst <$> logs)) → Forall (fun id => 0 ≤ id < 2 ^ 32 - 1) files.*1 →
  (∀ id, is_Some (d !! id) ↔ id ∈ (h_id ∘ fst <$> logs)) →
  (∀ id, id ∈ (h_id ∘ fst <$> logs) → 0 ≤ id ≤ max) → 0 ≤ max < 2 ^ 32 - 1 →
  ∀ logs' max' d', open_logs files logs max d = Ok (logs', max', d') →
  NoDup (h_id ∘ fst <$> logs') ∧ (∀ id, is_Some (d' !! id) ↔ id ∈ (h_id ∘ fst <$> logs')) ∧
  (∀ id, id ∈ (h_id ∘ fst <$> logs') → 0 ≤ id ≤ max') ∧ 0 ≤ max' < 2 ^ 32 - 1.
Proof.
  induction files as [|[id f] files IH]; intros logs max d Hnd Hrg Hd Hle Hmax logs' max' d'; cbn.
  - intros [= <- <- <-]. done.
  - cbn in Hnd, Hrg. apply NoDup_cons in Hnd as [Hni Hnd]. apply Forall_cons in Hrg as [Hid Hrg].
    destruct (open_log_file f) as [[rid|]| | | | |]; cbn; try done; [|by apply IH].
    apply IH; try done.
    + rewrite fmap_app. cbn. rewrite (assoc_L (++)). apply NoDup_app. split_and!; [done| |].
      * intros x Hx ->%list_elem_of_singleton. done.
      * apply NoDup_singleton.
    + intros k. rewrite lookup_insert_is_Some, fmap_app, elem_of_app, <- Hd. cbn.
      rewrite list_elem_of_singleton. destruct (decide (id = k)) as [<-|Hne]; [tauto|].
      assert (k ≠ id) by congruence. tauto.
    + intros k. rewrite fmap_app, elem_of_app. cbn. rewrite list_elem_of_singleton.
      destruct (Z.gtb_spec id max); intros [Hk| ->]; try lia; apply Hle in Hk; lia.
    + destruct (Z.gtb_spec id max); lia.
Qed.

Lemma open_log_ok sync_wal files l : NoDup files.*1 →
  Forall (fun id => 0 ≤ id < 2 ^ 32 - 1) files.*1 → open_log sync_wal files = Ok l →
  log_ok l ∧ StronglySorted (fun x y => x.2 ≤ y.2) (replay_queue l) ∧ lg_overlays l = empty_overlays.
Proof.
  intros Hnd Hrg. unfold open_log.
  destruct (open_logs files [] 0 ∅) as [[[logs max] d]| | | | |] eqn:E; cbn; try done.
  destruct (open_logs_ok files [] 0 ∅ ltac:(by rewrite app_nil_r) Hrg) with (logs' := logs) (max' := max) (d' := d)
    as (H1 & H2 & H3 & H4); [| |lia|done|].
  { intros id. rewrite lookup_empty. split; [by intros []|by intros ?%elem_of_nil]. }
  { by intros id ?%elem_of_nil. }
  intros [= <-]. split_and!; [|apply sort_by_key_sorted|done].
  assert (Hids : ∀ n, log_ids (MkLogFiles empty_overlays None None Idle None 1 true [] []
    (sort_by_key snd logs) n sync_wal d) ≡ₚ (h_id ∘ fst <$> logs))
    by (intros n; unfold log_ids; cbn; by rewrite sort_by_key_perm).
  split; cbn [disk next_log_id log_pool appending]; [by rewrite Hids|..].
  - intros id. rewrite Hids. apply H2.
  - assert (Hn : match sort_by_key snd logs with [] => 0 | _ => wrap32 (max + 1) end =
      match sort_by_key snd logs with [] => 0 | _ => max + 1 end).
    { destruct (sort_by_key snd logs); [done|]. unfold wrap32. apply Z.mod_small. lia. }
    rewrite Hn. split; [destruct (sort_by_key snd logs); lia|]. intros id. rewrite Hids. intros Hid.
    pose proof (H3 id Hid). pose proof (sort_by_key_perm snd logs) as Hp.
    destruct (sort_by_key snd logs); [|lia].
    apply Permutation_nil in Hp. subst. by apply elem_of_nil in Hid.
  - constructor.
  - done.
Qed.

(** ** The operations as steps *)

Inductive LogOp :=
| LBegin
| LEnd (c : LogChange)
| LEndRead (c : Cleared) (record_id : Z)
| LFlush (min_size : Z)
| LReplayNext
| LClean (count : nat)
| LReadNext (validate : bool)
| LPutReader (r : LogReader)
| LClearReplay
| LKill.

Definition log_op `{!HashMapOrder, !Crc32} (op : LogOp) (l : LogFiles) : LogFiles :=
  match op with
  | LBegin => (begin_record l).2
  | LEnd c => (end_record c l).2
  | LEndRead c rid => (end_read c rid l).2
  | LFlush n => (flush_one n l).2
  | LReplayNext => (replay_next l).2
  | LClean n => (clean_logs n l).2
  | LReadNext v => (read_next v l).2
  | LPutReader r => put_reader r l
  | LClearReplay => (clear_replay_logs l).2
  | LKill => (kill_logs l).2
  end.

Lemma end_record_ok `{!HashMapOrder, !Crc32} c l : log_ok l → next_log_id l + 1 < 2 ^ 32 →
  log_ok (end_record c l).2.
Proof.
  intros Hok Hn. destruct (Z.eqb_spec (wrap64 (change_record_id c + 1)) (next_record_id l)) as [E|E].
  - destruct (end_record_spec l (MkLogWriter (lg_overlays l) c) Hok Hn eq_refl E)
      as (l' & h & f & Hrun & Hok' & _). cbn in Hrun. by rewrite Hrun.
  - unfold end_record. erewrite ST_bind_Ok by done. unfold mbind, ST_bind, lift_st, rust_assert.
    by destruct (Z.eqb_spec (wrap64 (change_record_id c + 1)) (next_record_id l)).
Qed.

Lemma log_op_ok `{!HashMapOrder, !Crc32} op l : log_ok l → next_log_id l + 1 < 2 ^ 32 →
  log_ok (log_op op l).
Proof.
  intros Hok Hn. destruct op; cbn [log_op].
  - by apply begin_record_ok.
  - by apply end_record_ok.
  - by apply end_read_ok.
  - by apply flush_one_ok.
  - by apply replay_next_ok.
  - destruct (Nat.leb_spec count (length (cleanup_queue l))) as [Hc|Hc].
    + destruct (clean_logs_ok count l Hok Hc) as (l' & -> & Hok' & _). done.
    + unfold clean_logs. erewrite ST_bind_Ok by done. unfold mbind, ST_bind, lift_st, rust_assert.
      by destruct (Nat.leb_spec count (length (cleanup_queue l))); [lia|].
  - by apply read_next_ok.
  - by apply put_reader_ok.
  - by destruct (clear_replay_logs_ok l Hok) as (l' & -> & Hok' & _).
  - by destruct (kill_logs_ok l Hok) as (l' & -> & Hok' & _).
Qed.
