(* ===== verification/LogReplay.v ===== *)
(** * Replaying a record

    The loop of [DbInner::enact_logs] (src/src/db.rs) over the actions of one
    record, for any handlers of the actions: on the bytes that
    [LogChange::flush_to_file] wrote, it hands every logged entry to its
    handler, once, and accepts the checksum. *)

From S2P Require Import Prelude.
From S2P Require Import Bytes.
From S2P Require Import Ids.
From S2P Require Import Log.
From S2P Require Import LogProofs.
From stdpp Require Import options.
#[local] Set Default Proof Using "Type*".

(** ** The loop *)

Section Loop.
Context `{!HashMapOrder, !Crc32}.
Context {S : Type} (handle : LogAction → ST (S * LogReader) unit).

Definition next_action : ST (S * LogReader) LogAction :=
  fun '(s, r) => let '(a, r') := LogReader.next r in (a, (s, r')).

(** [loop { match reader.next()? { ... } }]. Each action takes bytes of the
    file, so the length of the file bounds their number. *)
Fixpoint record_loop (fuel : nat) : ST (S * LogReader) unit :=
  match fuel with
  | O => lift_st NoFuel
  | Datatypes.S fuel' =>
      a ← next_action;
      match a with
      | BeginRecord => lift_st (Err (Corruption "Bad log record"))
      | EndRecord => mret tt
      | a => _ ← handle a; record_loop fuel'
      end
  end.

(** ** The entries of a record, in the order they are written *)

Inductive LogEntry :=
| EIndex (id : IndexTableId) (i mask : Z) (chunk : Chunk)
| EValue (id : ValueTableId) (i : Z) (v : bytes)
| EDrop (id : IndexTableId).

Definition entry_action (e : LogEntry) : LogAction :=
  match e with
  | EIndex id i _ _ => InsertIndex id i
  | EValue id i _ => InsertValue id i
  | EDrop id => DropTable id
  end.

Definition entry_head (e : LogEntry) : bytes :=
  match e with
  | EIndex id i _ _ =>
      le_encode 1 INSERT_INDEX ++ le_encode 2 (IndexTableId.as_u16 id) ++ le_encode 8 i
  | EValue id i _ =>
      le_encode 1 INSERT_VALUE ++ le_encode 2 (ValueTableId.as_u16 id) ++ le_encode 8 i
  | EDrop id => le_encode 1 DROP_TABLE ++ le_encode 2 (IndexTableId.as_u16 id)
  end.

Definition entry_payload (e : LogEntry) : bytes :=
  match e with
  | EIndex _ _ mask chunk => le_encode 8 mask ++ concat (chunk_entry chunk <$> mask_entries mask)
  | EValue _ _ v => v
  | EDrop _ => []
  end.

Definition entry_bytes (e : LogEntry) : bytes := entry_head e ++ entry_payload e.

Definition entry_wf (e : LogEntry) : Prop :=
  match e with
  | EIndex id i mask _ => is_u16 (IndexTableId.as_u16 id) ∧ is_u64 i ∧ is_u64 mask
  | EValue id i _ => is_u16 (ValueTableId.as_u16 id) ∧ is_u64 i
  | EDrop id => is_u16 (IndexTableId.as_u16 id)
  end.

Definition record_entries (c : LogChange) : list LogEntry :=
  ('(id, overlay) ← iter (local_index c);
   (fun '(i, (_, mask, chunk)) => EIndex id i mask chunk) <$> iter overlay) ++
  ('(id, overlay) ← iter (local_values c);
   (fun '(i, (_, v)) => EValue id i v) <$> iter overlay) ++
  (EDrop <$> dropped_tables c).

Lemma flush_body_entries c : flush_body c =
  le_encode 1 BEGIN_RECORD ++ le_encode 8 (change_record_id c) ++
  concat (entry_bytes <$> record_entries c) ++ le_encode 1 END_RECORD.
Proof.
  unfold flush_body, record_entries, flush_indexes, flush_values, flush_drops.
  rewrite !fmap_app, !concat_app, <- !(assoc_L (++)).
  assert (H1 : ∀ l, concat (entry_bytes <$> ('(id, overlay) ← l;
     (fun '(i, (_, mask, chunk)) => EIndex id i mask chunk) <$> iter overlay)) =
    concat ((fun '(id, overlay) => concat (flush_index_entry id <$> iter overlay)) <$> l)).
  { intros l. induction l as [|[id ov] l IH]; [reflexivity|]. cbn [mbind list_bind fmap list_fmap concat].
    rewrite fmap_app, concat_app, IH.
    f_equal. f_equal. rewrite <- list_fmap_compose. apply list_fmap_ext.
    intros _ [i [[r mask] chunk]] _. unfold compose, entry_bytes, flush_index_entry.
    cbn [entry_head entry_payload]. by rewrite <- !(assoc_L (++)). }
  assert (H2 : ∀ l, concat (entry_bytes <$> ('(id, overlay) ← l;
     (fun '(i, (_, v)) => EValue id i v) <$> iter overlay)) =
    concat ((fun '(id, overlay) => concat (flush_value_entry id <$> iter overlay)) <$> l)).
  { intros l. induction l as [|[id ov] l IH]; [reflexivity|]. cbn [mbind list_bind fmap list_fmap concat].
    rewrite fmap_app, concat_app, IH.
    f_equal. f_equal. rewrite <- list_fmap_compose. apply list_fmap_ext.
    intros _ [i [r v]] _. unfold compose, entry_bytes, flush_value_entry.
    cbn [entry_head entry_payload]. by rewrite <- !(assoc_L (++)). }
  assert (H3 : entry_bytes <$> (EDrop <$> dropped_tables c) =
    (fun id => le_encode 1 DROP_TABLE ++ le_encode 2 (IndexTableId.as_u16 id)) <$> dropped_tables c).
  { rewrite <- list_fmap_compose. apply list_fmap_ext. intros _ id _.
    unfold compose, entry_bytes. cbn [entry_head entry_payload]. by rewrite app_nil_r. }
  by rewrite H1, H2, H3.
Qed.

(** ** Correctness of the loop *)

(** What [LogReader::next] notes for [Log::end_read]. *)
Definition note_cleared (c : Cleared) (e : LogEntry) : Cleared :=
  match e with
  | EIndex id i _ _ => MkCleared (cleared_index c ++ [(id, i)]) (cleared_values c)
  | EValue id i _ => MkCleared (cleared_index c) (cleared_values c ++ [(id, i)])
  | EDrop _ => c
  end.

Definition with_cleared (c : Cleared) (r : LogReader) : LogReader :=
  MkLogReader (reader_file r) (reader_pos r) (reader_record_id r) (read_bytes r) (reader_crc r)
    (validate r) c.

Lemma next_entry r e (rest : bytes) : entry_wf e → reader_at r [] (entry_head e ++ rest) →
  ∃ r', LogReader.next r =
      (Ok (entry_action e), with_cleared (note_cleared (cleared r) e) r') ∧
    advanced (entry_head e) r r' ∧ reader_at r' [] rest.
Proof.
  intros Hwf Hr. destruct e as [id i mask chunk|id i v|id]; cbn [entry_head entry_action] in *.
  - destruct Hwf as (H1 & H2 & _). destruct (next_index r id i rest H1 H2 Hr) as (r' & E & Ha & Hr').
    exists r'. split_and!; [|done|done]. rewrite E. unfold LogReader.push_cleared_index.
    by rewrite (adv_cleared _ _ _ Ha).
  - destruct Hwf as (H1 & H2). destruct (next_value r id i rest H1 H2 Hr) as (r' & E & Ha & Hr').
    exists r'. split_and!; [|done|done]. rewrite E. unfold LogReader.push_cleared_value.
    by rewrite (adv_cleared _ _ _ Ha).
  - destruct (next_drop r id rest Hwf Hr) as (r' & E & Ha & Hr').
    exists r'. split_and!; [|done|done]. rewrite E. cbn [note_cleared].
    rewrite <- (adv_cleared _ _ _ Ha). by destruct r'.
Qed.

(** [R es s]: in state [s] the handlers can take the entries [es]. *)
Context (R : list LogEntry → S → Prop).
Hypothesis handle_ok : ∀ e es s r rest, entry_wf e → R (e :: es) s →
  reader_at r (entry_payload e) rest →
  ∃ s' r', handle (entry_action e) (s, r) = (Ok tt, (s', r')) ∧
    advanced (entry_payload e) r r' ∧ R es s'.

Record looped (es : list LogEntry) (r r' : LogReader) : Prop := {
  lo_file : reader_file r' = reader_file r;
  lo_pos : reader_pos r' = (reader_pos r + length (concat (entry_bytes <$> es)) + 5)%nat;
  lo_bytes : read_bytes r' =
    wrap64 (read_bytes r + Z.of_nat (length (concat (entry_bytes <$> es))) + 5);
  lo_record : reader_record_id r' = reader_record_id r;
  lo_cleared : cleared r' = foldl note_cleared (cleared r) es;
  lo_validate : validate r' = validate r;
}.

Lemma looped_step e es r r1 r2 r' : advanced (entry_head e) r r1 →
  advanced (entry_payload e) (with_cleared (note_cleared (cleared r) e) r1) r2 →
  looped es r2 r' → looped (e :: es) r r'.
Proof.
  intros [F1 P1 B1 _ V1 R1 C1] [F2 P2 B2 _ V2 R2 C2] [F P B Rc C V]. cbn in *.
  assert (Hlen : length (concat (entry_bytes <$> e :: es)) =
    (length (entry_head e) + length (entry_payload e) + length (concat (entry_bytes <$> es)))%nat).
  { cbn [fmap list_fmap concat]. unfold entry_bytes at 1. by rewrite !length_app. }
  split; try congruence.
  - rewrite P, P2, P1, Hlen. lia.
  - rewrite B, B2, B1, Hlen. rewrite <- (Z.add_assoc (wrap64 (wrap64 _ + _))), wrap64_add_l.
    rewrite <- (Z.add_assoc (wrap64 _)), wrap64_add_l, !Nat2Z.inj_add. f_equal. lia.
  - rewrite C, C2. done.
Qed.

(** Whether the checksum at the end of a record is the one the reader expects. *)
Definition crc_good (r : LogReader) (body : bytes) (crc : Z) : bool :=
  negb (validate r) || (crc =? crc32 (reader_crc r ++ body)).

Lemma crc_good_advanced (a b : bytes) c r r' crc : advanced a r r' →
  crc_good (with_cleared c r') b crc = crc_good r (a ++ b) crc.
Proof.
  intros Ha. unfold crc_good. cbn. rewrite (adv_validate _ _ _ Ha), (adv_crc _ _ _ Ha).
  destruct (validate r); [|done]. by rewrite <- (assoc_L (++)).
Qed.

Lemma crc_good_entry e es r r1 r2 crc : advanced (entry_head e) r r1 →
  advanced (entry_payload e) (with_cleared (note_cleared (cleared r) e) r1) r2 →
  crc_good r2 (concat (entry_bytes <$> es) ++ le_encode 1 END_RECORD) crc =
  crc_good r (concat (entry_bytes <$> e :: es) ++ le_encode 1 END_RECORD) crc.
Proof.
  intros Ha1 Ha2. replace r2 with (with_cleared (cleared r2) r2) by (by destruct r2).
  rewrite (crc_good_advanced _ _ _ _ r2 crc Ha2), (crc_good_advanced _ _ _ r r1 crc Ha1). cbn [fmap list_fmap concat].
  unfold entry_bytes at 2. by rewrite <- !(assoc_L (++)).
Qed.

Lemma record_loop_ok es : ∀ fuel s r crc (rest : bytes), Forall entry_wf es → R es s →
  (length es < fuel)%nat → is_u32 crc →
  reader_at r [] (concat (entry_bytes <$> es) ++ le_encode 1 END_RECORD ++ le_encode 4 crc ++ rest) →
  ∃ s' r', record_loop fuel (s, r) =
      (if crc_good r (concat (entry_bytes <$> es) ++ le_encode 1 END_RECORD) crc
       then Ok tt else Err (Corruption "Log record CRC-32 mismatch"), (s', r')) ∧
    R [] s' ∧ looped es r r' ∧ reader_at r' [] rest.
Proof.
  induction es as [|e es IH]; intros fuel s r crc rest Hwf HR Hfuel Hcrc Hr;
    (destruct fuel as [|fuel]; [lia|]); cbn [record_loop].
  - cbn [fmap list_fmap concat app] in *.
    destruct (next_end r crc rest Hcrc Hr) as (r' & E & Hr' & H1 & H2 & H3 & H4 & H5 & H6).
    exists s, r'. split_and!; [|done| |done].
    + unfold mbind, ST_bind, next_action. rewrite E. unfold crc_good.
      destruct (validate r), (crc =? _); done.
    + split; cbn; try done; [lia|]. rewrite H6. f_equal. lia.
  - apply Forall_cons in Hwf as [Hw Hwf]. cbn [fmap list_fmap concat] in Hr.
    unfold entry_bytes at 1 in Hr. rewrite <- !(assoc_L (++)) in Hr.
    destruct (next_entry r e _ Hw Hr) as (r1 & E & Ha1 & Hr1).
    set (r1' := with_cleared (note_cleared (cleared r) e) r1) in *.
    assert (Hr1' : reader_at r1' (entry_payload e) (concat (entry_bytes <$> es) ++
      le_encode 1 END_RECORD ++ le_encode 4 crc ++ rest)) by exact Hr1.
    destruct (handle_ok e es s r1' _ Hw HR Hr1') as (s2 & r2 & Eh & Ha2 & HR2).
    pose proof (advanced_at _ _ _ _ Hr1' Ha2) as Hr2.
    destruct (IH fuel s2 r2 crc rest Hwf HR2 ltac:(cbn in Hfuel; lia) Hcrc Hr2) as
      (s' & r' & Erun & HR' & Hlo & Hr').
    rewrite (crc_good_entry e es r r1 r2 crc Ha1 Ha2) in Erun. exists s', r'. split_and!; [|done| |done].
    + erewrite ST_bind_Ok by (unfold next_action; by rewrite E).
      by destruct e; cbn [entry_action] in *; (erewrite ST_bind_Ok by exact Eh).
    + by eapply looped_step.
Qed.

(** The first turns of the loop, when they end before the record does. *)
Lemma record_loop_some es : ∀ fuel s r crc (rest : bytes) s' r', Forall entry_wf es → R es s → is_u32 crc →
  reader_at r [] (concat (entry_bytes <$> es) ++ le_encode 1 END_RECORD ++ le_encode 4 crc ++ rest) →
  record_loop fuel (s, r) = (NoFuel, (s', r')) →
  ∃ es1 es2, es = es1 ++ es2 ∧ R es2 s'.
Proof.
  induction es as [|e es IH]; intros fuel s r crc rest s' r' Hwf HR Hcrc Hr;
    (destruct fuel as [|fuel]; [cbn; intros [= <- <-]; by eexists [], _|]); cbn [record_loop].
  - cbn [fmap list_fmap concat app] in *.
    destruct (next_end r crc rest Hcrc Hr) as (r1 & E & _). unfold mbind, ST_bind, next_action. rewrite E.
    by destruct (_ && _).
  - apply Forall_cons in Hwf as [Hw Hwf]. cbn [fmap list_fmap concat] in Hr.
    unfold entry_bytes at 1 in Hr. rewrite <- !(assoc_L (++)) in Hr.
    destruct (next_entry r e _ Hw Hr) as (r1 & E & Ha1 & Hr1).
    set (r1' := with_cleared (note_cleared (cleared r) e) r1) in *.
    assert (Hr1' : reader_at r1' (entry_payload e) (concat (entry_bytes <$> es) ++
      le_encode 1 END_RECORD ++ le_encode 4 crc ++ rest)) by exact Hr1.
    destruct (handle_ok e es s r1' _ Hw HR Hr1') as (s2 & r2 & Eh & Ha2 & HR2).
    pose proof (advanced_at _ _ _ _ Hr1' Ha2) as Hr2. intros Hrun.
    assert (Hrest : record_loop fuel (s2, r2) = (NoFuel, (s', r'))).
    { revert Hrun. erewrite ST_bind_Ok by (unfold next_action; by rewrite E).
      by destruct e; cbn [entry_action] in *; (erewrite ST_bind_Ok by exact Eh). }
    destruct (IH fuel s2 r2 crc rest s' r' Hwf HR2 Hcrc Hr2 Hrest) as (es1 & es2 & -> & HR').
    by exists (e :: es1), es2.
Qed.

End Loop.

Lemma entry_head_nonempty e : (1 ≤ length (entry_head e))%nat.
Proof. destruct e; unfold entry_head; rewrite length_app, length_le_encode; lia. Qed.
Lemma entry_bytes_nonempty e : (1 ≤ length (entry_bytes e))%nat.
Proof. unfold entry_bytes. rewrite length_app. pose proof (entry_head_nonempty e). lia. Qed.

Lemma entries_length es : (length es ≤ length (concat (entry_bytes <$> es)))%nat.
Proof.
  induction es as [|e es IH]; [done|]. rewrite fmap_cons. cbn [concat length].
  rewrite length_app. pose proof (entry_bytes_nonempty e). lia.
Qed.
