(* ===== verification/LogPending.v ===== *)
(** * The records that wait in the log

    A record is appended to a log file, flushed and read back in order; until
    it was enacted, its entries stay in the overlays (src/src/log.rs). The log
    holds a list of pending records: their bytes are what is left in the file
    that is read, then in the one that is flushed, then in the one that is
    appended to, and the overlays show, for every entry, the last of them that
    wrote it. *)

From S2P Require Import Prelude.
From S2P Require Import Bytes.
From S2P Require Import Ids.
From S2P Require Import File.
From S2P Require Import Log.
From S2P Require Import LogProofs.
From S2P Require Import LogState.
From S2P Require Import LogStateProofs.
From S2P Require Import LogReplay.
From stdpp Require Import options.
#[local] Set Default Proof Using "Type*".

(** ** The last record that wrote an entry *)

Section Last.
Context {A : Type} (find : LogChange → option A).

Definition last_entry (P : list LogChange) : option A :=
  foldl (fun acc c => match find c with Some e => Some e | None => acc end) None P.

Lemma last_entry_snoc P c :
  last_entry (P ++ [c]) = match find c with Some e => Some e | None => last_entry P end.
Proof. unfold last_entry. by rewrite foldl_app. Qed.

Lemma last_entry_cons c P :
  last_entry (c :: P) = match last_entry P with Some e => Some e | None => find c end.
Proof.
  induction P as [|d P IH] using rev_ind; [cbn; by destruct (find c)|].
  rewrite app_comm_cons, !last_entry_snoc, IH. by destruct (find d).
Qed.

Lemma last_entry_app P Q :
  last_entry (P ++ Q) = match last_entry Q with Some e => Some e | None => last_entry P end.
Proof.
  induction Q as [|d Q IH] using rev_ind; [by rewrite app_nil_r|].
  rewrite (assoc_L (++)), !last_entry_snoc, IH. by destruct (find d).
Qed.

Lemma last_entry_none P c : last_entry P = None → c ∈ P → find c = None.
Proof.
  induction P as [|d P IH]; [by intros _ ?%not_elem_of_nil|]. rewrite last_entry_cons.
  intros Hl [->|Hc]%elem_of_cons; destruct (last_entry P); try done. by apply IH.
Qed.

Lemma last_entry_in P e : last_entry P = Some e → ∃ c, c ∈ P ∧ find c = Some e.
Proof.
  induction P as [|d P IH] using rev_ind; [done|]. rewrite last_entry_snoc. destruct (find d) eqn:E.
  - intros [= ->]. exists d. split; [set_solver|done].
  - intros (c & Hc & He)%IH. exists c. split; [set_solver|done].
Qed.
End Last.

Definition last_value (id : ValueTableId) (n : Z) : list LogChange → option (Z * bytes) :=
  last_entry (fun c => overlay_lookup (local_values c) id n).
Definition last_index (id : IndexTableId) (n : Z) : list LogChange → option (Z * Z * Chunk) :=
  last_entry (fun c => overlay_lookup (local_index c) id n).

(** ** Pending records *)

Lemma Forall2_weaken {A B} (P Q : A → B → Prop) l k : (∀ x y, x ∈ l → P x y → Q x y) → Forall2 P l k → Forall2 Q l k.
Proof. intros HPQ Hl. induction Hl; constructor; [apply HPQ; [by left|done]|]. apply IHHl. intros. apply HPQ; [by right|done]. Qed.

(** The entries of a record carry its id. *)
Record entries_own (c : LogChange) : Prop := {
  eo_value : ∀ id n e, overlay_lookup (local_values c) id n = Some e → e.1 = change_record_id c;
  eo_index : ∀ id n e, overlay_lookup (local_index c) id n = Some e → e.1.1 = change_record_id c;
}.

Section Pending.
Context `{!HashMapOrder, !Crc32}.
Implicit Types (l : LogFiles) (P : list LogChange).

(** The bytes of a record. *)
Definition record_bytes (c : LogChange) : bytes := (flush_to_file c).1.
Definition records_bytes (R : list LogChange) : bytes := concat (record_bytes <$> R).
Definition log_file l (id : Z) : bytes := default [] (disk l !! id).

(** The file of a handle holds these records, at least one. *)
Definition file_holds l (h : Handle) (R : list LogChange) : Prop :=
  R ≠ [] ∧ log_file l (h_id h) = records_bytes R.

(** The records in the files, in order: [E] were enacted (the files that wait
    for cleanup and what was read of the file that is read), [P] were not (the
    rest of that file, the one that is flushed and the one that is appended
    to). *)
Record in_files l (Fs : list (list LogChange)) (E2 P1 P2 P3 : list LogChange) : Prop := {
  if_cleanup : Forall2 (file_holds l) (cleanup_queue l) Fs;
  if_reading : match reading_file l with
    | Some h => file_holds l h (E2 ++ P1) ∧
        match reading_state l with
        | Reading_ => h_pos h = length (records_bytes E2)
        | Idle => P1 = []
        end
    | None => E2 = [] ∧ P1 = []
    end;
  if_flushing : match flushing l with Some h => file_holds l h P2 | None => P2 = [] end;
  if_appending : match appending l with Some (h, _) => file_holds l h P3 | None => P3 = [] end;
}.
Definition files_hold l (E P : list LogChange) : Prop :=
  replay_queue l = [] ∧
  ∃ Fs E2 P1 P2 P3, E = concat Fs ++ E2 ∧ P = P1 ++ P2 ++ P3 ∧ in_files l Fs E2 P1 P2 P3.

(** The ids of the records are consecutive and end before [n]. *)
Definition consecutive (n : Z) (R : list LogChange) : Prop :=
  0 ≤ n - Z.of_nat (length R) ∧ change_record_id <$> R = seqZ (n - Z.of_nat (length R)) (Z.of_nat (length R)).

Lemma consecutive_snoc n R c : consecutive n R → change_record_id c = n → consecutive (n + 1) (R ++ [c]).
Proof using Type.
  intros [H1 H2] Hc. unfold consecutive. rewrite length_app. cbn [length]. rewrite Nat.add_1_r.
  rewrite seqZ_S, fmap_app, H2, Nat2Z.inj_succ. cbn. rewrite Hc. split; [lia|]. f_equal; [f_equal; lia|f_equal; lia].
Qed.
Lemma consecutive_app n R1 R2 : consecutive n (R1 ++ R2) → consecutive n R2.
Proof using Type.
  unfold consecutive. rewrite fmap_app, length_app, Nat2Z.inj_add, seqZ_app by lia. intros [H1 H2].
  split; [lia|]. apply app_inj_1 in H2 as [_ ->]; [f_equal; lia|]. rewrite length_fmap, length_seqZ. lia.
Qed.
Lemma consecutive_in n R c : consecutive n R → c ∈ R → 0 ≤ change_record_id c < n.
Proof using Type.
  intros [H1 H2] Hc. apply (list_elem_of_fmap_2 change_record_id) in Hc. rewrite H2 in Hc.
  apply elem_of_seqZ in Hc. lia.
Qed.
Lemma consecutive_nodup n R : consecutive n R → NoDup (change_record_id <$> R).
Proof using Type. intros [_ ->]. apply NoDup_seqZ. Qed.

(** [E] was enacted, [P] waits. *)
Record log_pending l (E P : list LogChange) : Prop := {
  lp_files : files_hold l E P;
  lp_value : ∀ id n, overlay_lookup (ov_value (lg_overlays l)) id n = last_value id n P;
  lp_index : ∀ id n, overlay_lookup (ov_index (lg_overlays l)) id n = last_index id n P;
  lp_own : Forall entries_own (E ++ P);
  lp_ids : consecutive (next_record_id l) (E ++ P);
}.

(** Files that an operation leaves alone. *)
Lemma file_holds_same l l' h R : disk l' !! h_id h = disk l !! h_id h → file_holds l h R → file_holds l' h R.
Proof. intros E. unfold file_holds, log_file. by rewrite E. Qed.

Lemma in_files_same l l' Fs E2 P1 P2 P3 : cleanup_queue l' = cleanup_queue l → reading_file l' = reading_file l →
  reading_state l' = reading_state l → flushing l' = flushing l → appending l' = appending l →
  disk l' = disk l → in_files l Fs E2 P1 P2 P3 → in_files l' Fs E2 P1 P2 P3.
Proof.
  intros E1 Er Es Ef Ea Ed [F1 F2 F3 F4].
  assert (Hh : ∀ h R, file_holds l h R → file_holds l' h R) by (intros h R; apply file_holds_same; by rewrite Ed).
  split; rewrite ?E1, ?Er, ?Es, ?Ef, ?Ea.
  - eapply Forall2_impl; eauto.
  - destruct (reading_file l); naive_solver.
  - destruct (flushing l); naive_solver.
  - destruct (appending l) as [[]|]; naive_solver.
Qed.

(** *** A new record *)

Lemma record_pending l w E P : log_ok l → log_pending l E P → next_log_id l + 1 < 2 ^ 32 →
  next_record_id l + 1 < 2 ^ 64 → writer_overlays w = lg_overlays l →
  LogWriter.record_id w = next_record_id l → entries_own (writer_log w) →
  ∃ n l', end_record (LogWriter.drain w) (set_next_record_id (next_record_id l + 1) l) = (Ok n, l') ∧
    log_pending l' E (P ++ [writer_log w]).
Proof.
  intros Hok [(Fq & Fs & E2 & P1 & P2 & P3 & -> & -> & [F1 F2 F3 F4]) Lv Lx Lo Li] Hnext Hnr Hov Hrid Hown.
  set (E := concat Fs ++ E2) in *. set (P := P1 ++ P2 ++ P3) in *.
  set (l1 := set_next_record_id (next_record_id l + 1) l).
  assert (Hok1 : log_ok l1) by (destruct Hok; by split).
  assert (Hw : wrap64 (LogWriter.record_id w + 1) = next_record_id l1).
  { rewrite Hrid. destruct Li as [Hpos _]. cbn. rewrite wrap64_small; [done|]. unfold is_u64. lia. }
  destruct (end_record_spec l1 w Hok1 Hnext Hov Hw) as
    (l' & h & f & Hrun & Hok' & (size & Ha & _) & K1 & K2 & K3 & Hd & Hold & Hnew & Hn & _ & _ & Hoth & Ov & Ox).
  destruct (end_record_queues _ _ _ _ Hrun) as [Kc Kr].
  eexists _, l'. split; [exact Hrun|].
  change (flushing l1) with (flushing l) in K1. change (reading_file l1) with (reading_file l) in K2.
  change (reading_state l1) with (reading_state l) in K3. change (cleanup_queue l1) with (cleanup_queue l) in Kc.
  assert (Hne : ∀ id, id ∈ opt_id (flushing l) ++ opt_id (reading_file l) ++ (h_id <$> cleanup_queue l) →
    disk l' !! id = disk l !! id).
  { intros id Hid. rewrite Hoth; [done|]. intros ->.
    pose proof (ok_nodup _ Hok') as Hnd. unfold log_ids in Hnd. rewrite Ha, K1, K2, Kc in Hnd. cbn in Hnd.
    apply NoDup_cons in Hnd as [Hni _]. apply Hni. rewrite !elem_of_app in *. tauto. }
  split.
  - split; [by rewrite Kr|]. exists Fs, E2, P1, P2, (P3 ++ [writer_log w]). split; [done|]. split; [unfold P; by rewrite <- !app_assoc|]. split.
    + rewrite Kc. eapply Forall2_weaken; [|exact F1]. intros h0 R Hin.
      apply file_holds_same, Hne. rewrite !elem_of_app. right; right. by apply (list_elem_of_fmap_2 h_id).
    + rewrite K2, K3. destruct (reading_file l) as [h0|]; [|done]. destruct F2 as [F2 ?]. split; [|done].
      apply (file_holds_same l); [apply Hne; set_solver|done].
    + rewrite K1. destruct (flushing l) as [h0|]; [|done]. apply (file_holds_same l); [apply Hne; set_solver|done].
    + rewrite Ha. split; [by destruct P3|]. unfold log_file, records_bytes. rewrite Hd. cbn [default id].
      rewrite fmap_app, concat_app. cbn. rewrite app_nil_r. f_equal.
      change (appending l1) with (appending l) in *. destruct (appending l) as [[h0 s0]|].
      * destruct (Hold h0 s0 eq_refl) as [_ Hf]. destruct F4 as [_ F4]. unfold log_file in F4. cbn in Hf. by rewrite Hf in F4.
      * by rewrite (Hnew eq_refl), F4.
  - intros id n. unfold last_value. rewrite last_entry_snoc, Ov. cbn. by rewrite Lv.
  - intros id n. unfold last_index. rewrite last_entry_snoc, Ox. cbn. by rewrite Lx.
  - rewrite app_assoc. apply Forall_app. split; [done|]. by constructor.
  - rewrite Hn, app_assoc. cbn. apply consecutive_snoc; [done|]. exact Hrid.
Qed.

(** *** Moving log files *)

(** [flush_one] waits while a file is flushing and another is read. *)
Lemma flush_one_pending l E P m : log_pending l E P → flushing l = None ∨ reading_state l = Idle →
  ∃ res l', flush_one m l = (Ok res, l') ∧ log_pending l' E P ∧ lg_overlays l' = lg_overlays l ∧
    next_record_id l' = next_record_id l.
Proof.
  intros [(Fq & Fs & E2 & P1 & P2 & P3 & -> & -> & [F1 F2 F3 F4]) V X O I] Hidle.
  set (E := concat Fs ++ E2) in *. set (P := P1 ++ P2 ++ P3) in *.
  assert (Hadv : ∃ res l1, flush_advance l = (Ok res, l1) ∧ log_pending l1 E P ∧
    flushing l1 = None ∧ lg_overlays l1 = lg_overlays l ∧ next_record_id l1 = next_record_id l).
  { unfold flush_advance. erewrite ST_bind_Ok by done. destruct (flushing l) as [f|] eqn:Ef.
    - destruct Hidle as [?|Hs]; [done|]. rewrite Hs in *.
      destruct (reading_file l) as [r|] eqn:Er.
      + destruct F2 as [F2 ->]. rewrite app_nil_r in F2.
        eexists _, _. split; [reflexivity|]. split_and!; try done. split; try done.
        split; [done|]. exists (Fs ++ [E2]), [], P2, [], P3. split; [unfold E; rewrite concat_app; cbn; by rewrite !app_nil_r|].
        split; [done|]. split; try done. cbn. apply Forall2_app; [done|]. by constructor.
      + destruct F2 as [-> ->].
        eexists _, _. split; [reflexivity|]. split_and!; try done. split; try done.
        split; [done|]. exists Fs, [], P2, [], P3. split; [done|]. split; [done|]. by split.
    - eexists _, l. split; [reflexivity|]. split_and!; try done. split; try done.
      split; [done|]. exists Fs, E2, P1, P2, P3. split; [done|]. split; [done|]. by split; rewrite ?Ef. }
  destruct Hadv as ([r c] & l1 & Hrun & [(Gq & Gs & D2 & Q1 & Q2 & Q3 & Ee & Ep & [G1 G2 G3 G4]) V1 X1 O1 I1] & Hf & Hov & Hn).
  unfold flush_one. erewrite ST_bind_Ok by exact Hrun. cbv beta iota. rewrite Hf in G3. subst Q2.
  assert (Hrot : ∃ l2, flush_rotate m l1 = (Ok tt, l2) ∧ log_pending l2 E P ∧
    lg_overlays l2 = lg_overlays l1 ∧ next_record_id l2 = next_record_id l1).
  { unfold flush_rotate. erewrite ST_bind_Ok by done. destruct (_ && _).
    - eexists. split; [reflexivity|]. split_and!; try done. split; try done.
      split; [done|]. exists Gs, D2, Q1, Q3, []. split; [done|]. split; [cbn; by rewrite app_nil_r|]. split; try done.
      cbn. by destruct (appending l1) as [[]|].
    - exists l1. split_and!; try done. split; try done. split; [done|]. exists Gs, D2, Q1, [], Q3. split; [done|]. split; [done|].
      by split; rewrite ?Hf. }
  destruct Hrot as (l2 & Hrun2 & Hp2 & Hov2 & Hn2). erewrite ST_bind_Ok by exact Hrun2.
  eexists _, l2. split; [reflexivity|]. split_and!; [exact Hp2|congruence|congruence].
Qed.

(** Files that are cleaned up hold records that were enacted. *)
Lemma clean_logs_pending l E P n : log_ok l → log_pending l E P → (n ≤ length (cleanup_queue l))%nat →
  ∃ b l' D E', clean_logs n l = (Ok b, l') ∧ log_ok l' ∧ E = D ++ E' ∧ log_pending l' E' P ∧
    lg_overlays l' = lg_overlays l ∧ next_record_id l' = next_record_id l ∧
    cleanup_queue l' = drop n (cleanup_queue l) ∧ reading_state l' = reading_state l.
Proof.
  intros Hok [(Fq & Fs & E2 & P1 & P2 & P3 & -> & -> & [F1 F2 F3 F4]) V X O I] Hc.
  destruct (clean_logs_ok n l Hok Hc) as (l' & Hrun & Hok' & _ & _ & Hcl & Hov & Hn & Ha & Hf & Hr & Hs & Hq & Hd).
  assert (HE : concat Fs ++ E2 = concat (take n Fs) ++ concat (drop n Fs) ++ E2).
  { rewrite app_assoc, <- concat_app. by rewrite take_drop. }
  eexists _, l', _, _. split; [exact Hrun|]. split; [done|]. split; [exact HE|]. split; [|by split_and!].
  rewrite HE in O, I. rewrite <- (app_assoc (concat (take n Fs))) in O, I. split; rewrite ?Hov, ?Hn; try done.
  2: { by apply Forall_app in O as [_ O]. }
  2: { by eapply consecutive_app. }
  assert (Hsame : ∀ id, id ∈ opt_id (fst <$> appending l) ++ opt_id (flushing l) ++ opt_id (reading_file l) ++
      (h_id <$> drop n (cleanup_queue l)) → disk l' !! id = disk l !! id).
  { intros id Hid. pose proof (ok_nodup _ Hok) as Hnd. unfold log_ids in Hnd.
    rewrite <- (take_drop n (cleanup_queue l)), fmap_app in Hnd. apply Hd.
    - intros Hin. rewrite !NoDup_app in Hnd. rewrite !elem_of_app in Hid. set_solver.
    - intros Hin. rewrite !NoDup_app in Hnd. rewrite !elem_of_app in Hid. set_solver. }
  split; [by rewrite Hq|]. exists (drop n Fs), E2, P1, P2, P3. split; [done|]. split; [done|].
  split; rewrite ?Hcl, ?Hs, ?Hr, ?Hf, ?Ha.
  - eapply Forall2_weaken; [|by apply Forall2_drop]. intros h R Hin. apply file_holds_same, Hsame.
    rewrite !elem_of_app. do 3 right. by apply (list_elem_of_fmap_2 h_id).
  - destruct (reading_file l) as [h|] eqn:Er; [|done]. destruct F2 as [F2 ?]. split; [|done].
    apply (file_holds_same l); [apply Hsame; set_solver|done].
  - destruct (flushing l) as [h|] eqn:Er; [|done]. apply (file_holds_same l); [apply Hsame; set_solver|done].
  - destruct (appending l) as [[h s]|] eqn:Er; [|done]. apply (file_holds_same l); [apply Hsame; set_solver|done].
Qed.

(** When no file waits for cleanup and nothing is read, [kill_logs] deletes only
    records that were enacted. *)
Lemma kill_logs_pending l E P : log_ok l → log_pending l E P → cleanup_queue l = [] → reading_state l = Idle →
  ∃ l', kill_logs l = (Ok tt, l') ∧ log_ok l' ∧ log_pending l' [] P ∧ lg_overlays l' = lg_overlays l ∧
    next_record_id l' = next_record_id l ∧ log_pool l' = [] ∧ reading_file l' = None ∧
    ∀ id, is_Some (disk l' !! id) → id ∈ opt_id (fst <$> appending l) ++ opt_id (flushing l).
Proof.
  intros Hok [(Fq & Fs & E2 & P1 & P2 & P3 & -> & -> & [F1 F2 F3 F4]) V X O I] Hcl Hs.
  destruct (kill_logs_ok l Hok) as (l' & Hrun & Hok' & Hpool & Hov & Hn & Ha & Hf & Hr & Hcl' & Hq & Hd).
  exists l'. rewrite Hcl in *. apply Forall2_nil_inv_l in F1 as ->.
  assert (P1 = []) as ->.
  { rewrite Hs in F2. destruct (reading_file l); by destruct F2. }
  split_and!; try done.
  - cbn in O, I. apply Forall_app in O as [_ O]. apply consecutive_app in I.
    split; rewrite ?Hov, ?Hn; try done. split; [by rewrite Hq|]. exists [], [], [], P2, P3. split_and!; [done|done|].
    split; rewrite ?Hcl', ?Hr, ?Hf, ?Ha; [by constructor|done| |].
    + destruct (flushing l) as [h|] eqn:Er; [|done]. apply (file_holds_same l); [apply Hd; set_solver|done].
    + destruct (appending l) as [[h s]|] eqn:Er; [|done]. apply (file_holds_same l); [apply Hd; set_solver|done].
  - intros id Hid. apply (ok_disk l' Hok') in Hid. unfold log_ids in Hid.
    rewrite Hpool, Hr, Hcl', Hq, Ha, Hf, Fq in Hid. revert Hid. cbn. rewrite !elem_of_app. set_solver.
Qed.

(** *** The entries of a record *)

Lemma record_entries_value c id n v :
  EValue id n v ∈ record_entries c ↔ ∃ rid, overlay_lookup (local_values c) id n = Some (rid, v).
Proof.
  unfold record_entries, overlay_lookup. rewrite !elem_of_app, !list_elem_of_bind. split.
  - intros [([id' o] & H1 & _)|[([id' o] & H1 & H2)|H1]].
    + apply list_elem_of_fmap in H1 as ([i [[r m] ch]] & Hx & _). done.
    + apply list_elem_of_fmap in H1 as ([i [r v']] & [= <- <- <-] & Hin).
      rewrite iter_perm, elem_of_map_to_list in Hin. rewrite iter_perm, elem_of_map_to_list in H2.
      exists r. by rewrite H2.
    + by apply list_elem_of_fmap in H1 as (? & ? & _).
  - intros (rid & Hl). destruct (local_values c !! id) as [o|] eqn:E; [|done]. cbn in Hl.
    right; left. exists (id, o). split; [|by rewrite iter_perm, elem_of_map_to_list].
    apply list_elem_of_fmap. exists (n, (rid, v)). split; [done|]. by rewrite iter_perm, elem_of_map_to_list.
Qed.

Lemma record_entries_index c id n mask ch :
  EIndex id n mask ch ∈ record_entries c ↔ ∃ rid, overlay_lookup (local_index c) id n = Some (rid, mask, ch).
Proof.
  unfold record_entries, overlay_lookup. rewrite !elem_of_app, !list_elem_of_bind. split.
  - intros [([id' o] & H1 & H2)|[([id' o] & H1 & _)|H1]].
    + apply list_elem_of_fmap in H1 as ([i [[r m] c']] & [= <- <- <- <-] & Hin).
      rewrite iter_perm, elem_of_map_to_list in Hin. rewrite iter_perm, elem_of_map_to_list in H2.
      exists r. by rewrite H2.
    + by apply list_elem_of_fmap in H1 as ([i [r v']] & ? & _).
    + by apply list_elem_of_fmap in H1 as (? & ? & _).
  - intros (rid & Hl). destruct (local_index c !! id) as [o|] eqn:E; [|done]. cbn in Hl.
    left. exists (id, o). split; [|by rewrite iter_perm, elem_of_map_to_list].
    apply list_elem_of_fmap. exists (n, (rid, mask, ch)). split; [done|]. by rewrite iter_perm, elem_of_map_to_list.
Qed.

Lemma drop_not_in x id : dropped_tables x = [] → EDrop id ∉ record_entries x.
Proof.
  intros Hd. unfold record_entries. rewrite Hd, !elem_of_app, !list_elem_of_bind.
  intros [([? ?] & He & _)|[([? ?] & He & _)|He]].
  - by apply list_elem_of_fmap in He as ([? [[? ?] ?]] & ? & _).
  - by apply list_elem_of_fmap in He as ([? [? ?]] & ? & _).
  - by apply not_elem_of_nil in He.
Qed.

Lemma noted_values es : ∀ c0 id n, (id, n) ∈ cleared_values (foldl note_cleared c0 es) ↔
  (id, n) ∈ cleared_values c0 ∨ ∃ v, EValue id n v ∈ es.
Proof.
  induction es as [|e es IH]; intros c0 id n; cbn [foldl]; [set_solver|]. rewrite IH.
  destruct e as [id' i' m ch|id' i' v|id']; cbn [note_cleared cleared_values]; rewrite ?elem_of_app; set_solver.
Qed.
Lemma noted_index es : ∀ c0 id n, (id, n) ∈ cleared_index (foldl note_cleared c0 es) ↔
  (id, n) ∈ cleared_index c0 ∨ ∃ mask ch, EIndex id n mask ch ∈ es.
Proof.
  induction es as [|e es IH]; intros c0 id n; cbn [foldl]; [set_solver|]. rewrite IH.
  destruct e as [id' i' m ch|id' i' v|id']; cbn [note_cleared cleared_index]; rewrite ?elem_of_app; set_solver.
Qed.

(** *** Reading *)

Lemma record_bytes_entries c : record_bytes c = le_encode 1 BEGIN_RECORD ++ le_encode 8 (change_record_id c) ++
  concat (entry_bytes <$> record_entries c) ++ le_encode 1 END_RECORD ++ le_encode 4 (crc32 (flush_body c)).
Proof. unfold record_bytes, flush_to_file. cbn [fst]. by rewrite flush_body_entries at 1; rewrite <- !app_assoc. Qed.

Lemma length_record_bytes c :
  length (record_bytes c) = (9 + length (concat (entry_bytes <$> record_entries c)) + 5)%nat.
Proof. rewrite record_bytes_entries. len. Qed.

(** [r] is a reader behind the start of record [c], which is at [pos] of file
    [f]. *)
Record at_record (v : bool) (f : bytes) (pos : nat) (c : LogChange) (r : LogReader) : Prop := {
  ar_next : LogReader.next (LogReader.new f pos v) = (Ok BeginRecord, r);
  ar_id : reader_record_id r = change_record_id c;
  ar_cleared : cleared r = MkCleared [] [];
  ar_validate : validate r = v;
  ar_bytes : read_bytes r = 9;
  ar_file : reader_file r = f;
  ar_pos : reader_pos r = (pos + 9)%nat;
  ar_at : ∃ rest, reader_at r [] (concat (entry_bytes <$> record_entries c) ++
    le_encode 1 END_RECORD ++ le_encode 4 (crc32 (flush_body c)) ++ rest);
  ar_crc : crc_good r (concat (entry_bytes <$> record_entries c) ++ le_encode 1 END_RECORD)
    (crc32 (flush_body c)) = true;
}.

Lemma record_fuel v f pos c r : at_record v f pos c r → (length (record_entries c) < S (length f))%nat.
Proof using Type.
  intros Har. destruct (ar_at _ _ _ _ _ Har) as [rest [Hr _]]. rewrite (ar_file _ _ _ _ _ Har) in Hr.
  apply (f_equal length) in Hr. rewrite length_drop, !length_app in Hr. cbn [length] in Hr.
  pose proof (entries_length (record_entries c)). lia.
Qed.

Lemma at_record_ok v f pos c (rest : bytes) : is_u64 (change_record_id c) → (pos ≤ length f)%nat →
  drop pos f = record_bytes c ++ rest → ∃ r, at_record v f pos c r.
Proof.
  intros Hid Hle Hf. rewrite record_bytes_entries, <- !app_assoc in Hf.
  assert (Hr0 : reader_at (LogReader.new f pos v) [] (le_encode 1 BEGIN_RECORD ++ le_encode 8 (change_record_id c) ++
    concat (entry_bytes <$> record_entries c) ++ le_encode 1 END_RECORD ++ le_encode 4 (crc32 (flush_body c)) ++ rest)) by done.
  destruct (next_begin _ _ _ Hid Hr0) as (r1 & E1 & Ha1 & Hr1).
  eexists. split; [exact E1|done|exact (adv_cleared _ _ _ Ha1)|exact (adv_validate _ _ _ Ha1)| | | | |].
  - change (read_bytes r1 = 9). rewrite (adv_bytes _ _ _ Ha1). by rewrite length_app, !length_le_encode.
  - exact (adv_file _ _ _ Ha1).
  - exact (adv_pos _ _ _ Ha1).
  - by exists rest.
  - unfold crc_good. change (negb (validate r1) || (crc32 (flush_body c) =? crc32 (reader_crc r1 ++
      concat (entry_bytes <$> record_entries c) ++ le_encode 1 END_RECORD)) = true).
    rewrite (adv_validate _ _ _ Ha1), (adv_crc _ _ _ Ha1). cbn [validate LogReader.new reader_crc app].
    destruct v; [|done]. cbn [negb orb]. rewrite flush_body_entries, <- !app_assoc. apply Z.eqb_refl.
Qed.

Lemma read_next_record v l h c r : reading_state l = Reading_ → reading_file l = Some h →
  at_record v (log_file l (h_id h)) (h_pos h) c r → read_next v l = (Ok (Some r), put_reader r l).
Proof. intros Hs Hf Hr. unfold read_next. rewrite Hs, Hf. fold (log_file l (h_id h)). by rewrite (ar_next _ _ _ _ _ Hr). Qed.

Lemma read_next_end v l h : reading_state l = Reading_ → reading_file l = Some h →
  h_pos h = length (log_file l (h_id h)) → read_next v l = (Ok None, set_reading (Some h) Idle l).
Proof.
  intros Hs Hf Hp. unfold read_next. rewrite Hs, Hf. fold (log_file l (h_id h)).
  assert (En : LogReader.next (LogReader.new (log_file l (h_id h)) (h_pos h) v) =
    (Err (Io UnexpectedEof), LogReader.new (log_file l (h_id h)) (h_pos h) v)).
  { unfold LogReader.next, LogReader.read, LogReader.read_exact, mbind, ST_bind. cbn [LogReader.new reader_pos reader_file].
    by rewrite (proj2 (Nat.leb_gt (h_pos h + 1) (length (log_file l (h_id h))))) by lia. }
  rewrite En. unfold put_reader. rewrite Hf. cbn. by destruct h.
Qed.

(** The record the reader is at. *)
Lemma in_files_record v l Fs E2 c P1 P2 P3 h : in_files l Fs E2 (c :: P1) P2 P3 → reading_file l = Some h →
  reading_state l = Reading_ → is_u64 (change_record_id c) →
  (∃ r, at_record v (log_file l (h_id h)) (h_pos h) c r) ∧
  ∀ r', reader_pos r' = (h_pos h + length (record_bytes c))%nat →
    in_files (put_reader r' l) Fs (E2 ++ [c]) P1 P2 P3.
Proof.
  intros [F1 F2 F3 F4] Hr Hs Hid. rewrite Hr, Hs in F2. destruct F2 as [[Hne Hf] Hp].
  assert (Hb : records_bytes (E2 ++ c :: P1) = records_bytes E2 ++ record_bytes c ++ records_bytes P1).
  { unfold records_bytes. by rewrite fmap_app, concat_app. }
  split.
  - apply (at_record_ok v _ _ _ (records_bytes P1) Hid); rewrite Hf, Hp, Hb; [rewrite length_app; lia|].
    by rewrite drop_app_length.
  - intros r' Hr'. split; try done. cbn [put_reader reading_file set_reading reading_state]. unfold put_reader. cbn.
    rewrite Hr, Hs. cbn [fmap option_fmap option_map h_pos h_id]. split; [|].
    + rewrite <- app_assoc. exact (conj Hne Hf).
    + rewrite Hr', Hp. unfold records_bytes. rewrite fmap_app, concat_app, length_app. cbn. by rewrite app_nil_r.
Qed.

Lemma in_files_end v l Fs E2 P2 P3 h : in_files l Fs E2 [] P2 P3 → reading_file l = Some h →
  reading_state l = Reading_ →
  read_next v l = (Ok None, set_reading (Some h) Idle l) ∧ in_files (set_reading (Some h) Idle l) Fs E2 [] P2 P3.
Proof.
  intros [F1 F2 F3 F4] Hr Hs. rewrite Hr, Hs in F2. destruct F2 as [[Hne Hf] Hp]. rewrite app_nil_r in Hne, Hf. split.
  - apply read_next_end; [done|done|]. by rewrite Hf.
  - split; try done. cbn. rewrite app_nil_r. exact (conj (conj Hne Hf) eq_refl).
Qed.

Lemma records_bytes_app R1 R2 : records_bytes (R1 ++ R2) = records_bytes R1 ++ records_bytes R2.
Proof using Type. unfold records_bytes. by rewrite fmap_app, concat_app. Qed.

(** The bytes the reader has not read, and that it has a file when it reads. *)
Definition unread l : nat :=
  match reading_state l, reading_file l with
  | Reading_, Some h => length (log_file l (h_id h)) - h_pos h
  | _, _ => 0
  end.
Definition reader_ok l : Prop := reading_state l = Idle ∨ is_Some (reading_file l).

Lemma unread_same l l' : reading_state l' = reading_state l → reading_file l' = reading_file l → disk l' = disk l →
  unread l' = unread l.
Proof using Type. intros E1 E2 E3. unfold unread, log_file. by rewrite E1, E2, E3. Qed.

(** [end_read] with what the reader of the first record noted. *)
Lemma end_read_pending l l' c E P : log_pending l E (c :: P) → next_record_id l' = next_record_id l →
  lg_overlays l' = lg_overlays l → files_hold l' (E ++ [c]) P →
  ∃ l2, end_read (foldl note_cleared (MkCleared [] []) (record_entries c)) (change_record_id c) l' = (Ok tt, l2) ∧
    log_pending l2 (E ++ [c]) P ∧ (log_ok l' → log_ok l2) ∧ next_record_id l2 = next_record_id l ∧
    unread l2 = unread l' ∧ reading_file l2 = reading_file l'.
Proof.
  intros [_ V X O I] Hn Hov Hfiles.
  pose proof (end_read_spec l' (foldl note_cleared (MkCleared [] []) (record_entries c)) (change_record_id c)) as Hs.
  destruct Hs as (l2 & Hrun & Hv & Hx & Hnx).
  assert (Nc : 0 ≤ change_record_id c < next_record_id l) by (eapply consecutive_in; [exact I|set_solver]).
  pose proof (consecutive_nodup _ _ I) as Ind. rewrite fmap_app, fmap_cons in Ind.
  apply NoDup_app in Ind as (_ & _ & [Ic _]%NoDup_cons).
  pose proof O as [_ [Oc O']%Forall_cons]%Forall_app.
  rewrite Hn, (proj2 (Z.leb_gt _ _)) in Hnx by lia.
  assert (Ef : reading_state l2 = reading_state l' ∧ reading_file l2 = reading_file l' ∧ flushing l2 = flushing l' ∧
    appending l2 = appending l' ∧ disk l2 = disk l' ∧ cleanup_queue l2 = cleanup_queue l' ∧
    replay_queue l2 = replay_queue l').
  { revert Hrun. unfold end_read. erewrite ST_bind_Ok by done. rewrite Hn, (proj2 (Z.leb_gt _ _)) by lia.
    erewrite ST_bind_Ok by done. cbn. intros [= <-]. done. }
  destruct Ef as (E1 & E2 & E3 & E4 & E5 & E6 & E7).
  exists l2. split; [done|]. split; [|split; [|split; [done|split; [by apply unread_same|done]]]].
  2: { intros Hok. pose proof (end_read_ok (foldl note_cleared (MkCleared [] []) (record_entries c))
         (change_record_id c) l' Hok) as Hok2. by rewrite Hrun in Hok2. }
  assert (Hother : ∀ A (find : LogChange → option A) e, last_entry find P = Some e →
    ∃ c', c' ∈ P ∧ find c' = Some e ∧ change_record_id c' ≠ change_record_id c).
  { intros A find e He. destruct (last_entry_in _ _ _ He) as (c' & Hc' & He'). exists c'. split_and!; [done|done|].
    intros E'. apply Ic. rewrite <- E'. by apply list_elem_of_fmap_2. }
  rewrite Forall_forall in O'. split; rewrite <- ?app_assoc; try done.
  - destruct Hfiles as (Hq & Fs & D2 & Q1 & Q2 & Q3 & He & Hp & Hf).
    split; [by rewrite E7|]. exists Fs, D2, Q1, Q2, Q3. split; [done|]. split; [done|]. by apply (in_files_same l').
  - intros id n. rewrite Hv, Hov, V. unfold last_value. rewrite last_entry_cons.
    destruct (last_entry _ P) as [[r0 d]|] eqn:El.
    + destruct (Hother _ _ _ El) as (c' & Hc' & He & Hne). apply (eo_value _ (O' c' Hc')) in He. cbn in He.
      rewrite (proj2 (Z.eqb_neq r0 _)) by congruence. by rewrite andb_false_r.
    + destruct (overlay_lookup (local_values c) id n) as [[r0 d]|] eqn:Ec; [|done].
      pose proof (eo_value _ Oc _ _ _ Ec) as Hr0. cbn in Hr0. subst r0. rewrite Z.eqb_refl, andb_true_r.
      rewrite bool_decide_true; [done|]. apply noted_values. right. exists d. apply record_entries_value. eauto.
  - intros id n. rewrite Hx, Hov, X. unfold last_index. rewrite last_entry_cons.
    destruct (last_entry _ P) as [[[r0 m] d]|] eqn:El.
    + destruct (Hother _ _ _ El) as (c' & Hc' & He & Hne). apply (eo_index _ (O' c' Hc')) in He. cbn in He.
      rewrite (proj2 (Z.eqb_neq r0 _)) by congruence. by rewrite andb_false_r.
    + destruct (overlay_lookup (local_index c) id n) as [[[r0 m] d]|] eqn:Ec; [|done].
      pose proof (eo_index _ Oc _ _ _ Ec) as Hr0. cbn in Hr0. subst r0. rewrite Z.eqb_refl, andb_true_r.
      rewrite bool_decide_true; [done|]. apply noted_index. right. exists m, d. apply record_entries_index. eauto.
  - by rewrite Hnx.
Qed.

(** Reading the first pending record: what [read_next] returns, and what is
    left when the reader is at its end. *)
Record read_record l E c P r l1 : Prop := {
  rr_at : ∃ f pos, at_record false f pos c r;
  rr_end : ∀ r', reader_pos r' = (reader_pos r + length (concat (entry_bytes <$> record_entries c)) + 5)%nat →
    cleared r' = foldl note_cleared (MkCleared [] []) (record_entries c) →
    ∃ l2, end_read (LogReader.drain r') (change_record_id c) (put_reader r' l1) = (Ok tt, l2) ∧
      log_pending l2 (E ++ [c]) P ∧ (log_ok l → log_ok l2) ∧ next_record_id l2 = next_record_id l ∧
      (unread l2 < unread l)%nat ∧ reader_ok l2;
}.

(** [read_next] finds the first pending record if its file is being read. *)
Lemma read_next_cases l E P : log_pending l E P → next_record_id l ≤ 2 ^ 64 →
  (∃ l', read_next false l = (Ok None, l') ∧ log_pending l' E P ∧ (log_ok l → log_ok l') ∧
     lg_overlays l' = lg_overlays l ∧ next_record_id l' = next_record_id l ∧ (reader_ok l → reading_state l' = Idle)) ∨
  (∃ c P' r l1, P = c :: P' ∧ read_next false l = (Ok (Some r), l1) ∧ read_record l E c P' r l1).
Proof.
  intros Hp Hnx. pose proof Hp as [(Hq & Fs & E2 & P1 & P2 & P3 & -> & -> & F) V X O I].
  assert (Hid : ∀ l', read_next false l = (Ok None, l') → log_ok l → log_ok l').
  { intros l' E Hok. pose proof (read_next_ok false l Hok) as Hok'. by rewrite E in Hok'. }
  destruct (reading_state l) eqn:Es.
  2: { left. exists l. assert (E : read_next false l = (Ok None, l)) by (unfold read_next; by rewrite Es). split_and!; auto. }
  destruct (reading_file l) as [h|] eqn:Er.
  2: { left. exists l. assert (E : read_next false l = (Ok None, l)) by (unfold read_next; by rewrite Es, Er).
       split_and!; auto. intros [?|[h ?]]; congruence. }
  destruct P1 as [|c P1].
  - left. destruct (in_files_end false l Fs E2 P2 P3 h F Er Es) as [E F']. eexists. split; [exact E|].
    split_and!; try done; [|by apply Hid]. split; try done. split; [done|]. by exists Fs, E2, [], P2, P3.
  - right. assert (Hu : is_u64 (change_record_id c)).
    { unfold is_u64. enough (0 ≤ change_record_id c < next_record_id l) by lia. eapply consecutive_in; [exact I|]. set_solver. }
    destruct (in_files_record false l Fs E2 c P1 P2 P3 h F Er Es Hu) as [[r Har] Hstep].
    exists c, (P1 ++ P2 ++ P3), r, (put_reader r l). split; [done|]. split; [by apply (read_next_record _ _ h c)|].
    split; [by eexists _, _|]. intros r' Hpos Hcl. unfold LogReader.drain. rewrite Hcl.
    assert (Hpr : put_reader r' (put_reader r l) = put_reader r' l) by (unfold put_reader; cbn; by rewrite Er).
    assert (Hpos' : reader_pos r' = (h_pos h + length (record_bytes c))%nat).
    { rewrite Hpos, (ar_pos _ _ _ _ _ Har), length_record_bytes. lia. }
    rewrite Hpr. destruct (end_read_pending l (put_reader r' l) c _ _ Hp eq_refl eq_refl) as
      (l2 & Hrun & Hp2 & Hok2 & Hn2 & Hun & Hrf).
    + split; [done|]. exists Fs, (E2 ++ [c]), P1, P2, P3. split; [by rewrite app_assoc|]. split; [done|]. by apply Hstep.
    + exists l2. split_and!; [done|done| |done| |].
      * intros Hok. apply Hok2. by apply put_reader_ok.
      * rewrite Hun. destruct F as [_ F2 _ _]. rewrite Er, Es in F2. destruct F2 as [[_ Hf] Hp0].
        unfold unread, put_reader. cbn. rewrite Es, Er. cbn. unfold log_file in *. cbn. rewrite Hf, Hp0, Hpos', Hp0.
        change (c :: P1) with ([c] ++ P1). rewrite !records_bytes_app, !length_app.
        assert (length (records_bytes [c]) = length (record_bytes c)) by (unfold records_bytes; cbn; by rewrite app_nil_r).
        pose proof (length_record_bytes c). lia.
      * right. rewrite Hrf. unfold put_reader. cbn. rewrite Er. by eexists.
Qed.

End Pending.

(** * Reading a torn record

    A process that dies while it appends a record to a log file leaves a strict
    prefix of the bytes of [LogChange::flush_to_file] (src/src/log.rs) at its end.
    What reads the record reads the same from the prefix until it is at its end,
    and then gets an error. *)

(** ** A reader whose file was cut *)

Definition cut (k : nat) (r : LogReader) : LogReader :=
  MkLogReader (take k (reader_file r)) (reader_pos r) (reader_record_id r) (read_bytes r) (reader_crc r)
    (validate r) (cleared r).

Lemma cut_new f pos v k : cut k (LogReader.new f pos v) = LogReader.new (take k f) pos v.
Proof. done. Qed.

(** [m] reads from a cut file what it reads from the whole, or fails; [s] is
    left as it is. *)
Definition cut_safe {S A} (m : ST (S * LogReader) A) (s : S) : Prop :=
  ∀ k r a s' r', (reader_pos r ≤ k)%nat → m (s, r) = (Ok a, (s', r')) → s' = s ∧
    (((reader_pos r' ≤ k)%nat ∧ m (s, cut k r) = (Ok a, (s, cut k r'))) ∨ ∃ r'', m (s, cut k r) = (Err (Io UnexpectedEof), (s, r''))).

(** Code on the reader alone. *)
Definition run_reader {S A} (m : ST LogReader A) : ST (S * LogReader) A :=
  fun '(s, r) => let '(o, r') := m r in (o, (s, r')).

Section Cut.
Context {S : Type}.
Implicit Types (s : S).

Lemma cut_safe_ret {A} (a : A) s : cut_safe (mret a) s.
Proof. intros k r a' s' r' Hk [= <- <- <-]. split; [done|]. by left. Qed.

Lemma cut_safe_bind {A B} (m : ST (S * LogReader) A) (f : A → ST (S * LogReader) B) s :
  cut_safe m s → (∀ a, cut_safe (f a) s) → cut_safe (m ≫= f) s.
Proof.
  intros Hm Hf k r b s' r' Hk Hrun. apply ST_bind_inv in Hrun as (a & [s1 r1] & H1 & H2).
  destruct (Hm k r a s1 r1 Hk H1) as [-> [[Hk1 E1]|(r'' & E1)]].
  - destruct (Hf a k r1 b s' r' Hk1 H2) as [-> [[Hk2 E2]|(r'' & E2)]]; (split; [done|]).
    + left. split; [done|]. by erewrite ST_bind_Ok by exact E1.
    + right. exists r''. by erewrite ST_bind_Ok by exact E1.
  - assert (s' = s) as -> by (by destruct (Hf a (reader_pos r1) r1 b s' r' ltac:(lia) H2)).
    split; [done|]. right. exists r''. unfold mbind, ST_bind. by rewrite E1.
Qed.

Lemma cut_safe_lift {A} (o : outcome A) s : cut_safe (lift_st o) s.
Proof. intros k r a s' r' Hk [= -> <- <-]. split; [done|]. by left. Qed.

Lemma cut_safe_err {A} (m : ST (S * LogReader) A) s : (∀ r a s' r', m (s, r) ≠ (Ok a, (s', r'))) → cut_safe m s.
Proof. intros Hm k r a s' r' _ H. by apply Hm in H. Qed.

Lemma cut_safe_if {A} (b : bool) (m1 m2 : ST (S * LogReader) A) s :
  cut_safe m1 s → cut_safe m2 s → cut_safe (if b then m1 else m2) s.
Proof. by destruct b. Qed.

Lemma cut_safe_state {A} (f : S → ST (S * LogReader) A) s :
  cut_safe (f s) s → cut_safe ('(s, _) ← get_st; f s) s.
Proof. intros Hf k r a s' r' Hk Hrun. exact (Hf k r a s' r' Hk Hrun). Qed.

Lemma cut_safe_ext {A} (m m' : ST (S * LogReader) A) s : (∀ r, m (s, r) = m' (s, r)) → cut_safe m' s → cut_safe m s.
Proof. intros He Hm k r a s' r' Hk. rewrite !He. by apply Hm. Qed.

(** A change of the reader that does not look at the file. *)
Lemma cut_safe_modify f s : (∀ k r, f (cut k r) = cut k (f r)) → (∀ r, reader_pos (f r) = reader_pos r) →
  cut_safe (run_reader (modify_st f)) s.
Proof.
  intros Hf Hp k r a s' r' Hk [= <- <- <-]. split; [done|]. left. rewrite Hp. split; [done|].
  unfold run_reader, modify_st. by rewrite Hf.
Qed.

Lemma cut_safe_read_exact n s : cut_safe (run_reader (LogReader.read_exact n)) s.
Proof.
  intros k r a s' r' Hk. unfold run_reader, LogReader.read_exact.
  destruct (Nat.leb_spec (reader_pos r + n) (length (reader_file r))) as [Hle|]; [|done].
  intros [= <- <- <-]. split; [done|]. cbn [cut reader_pos reader_file]. rewrite length_take.
  destruct (Nat.leb_spec (reader_pos r + n) (k `min` length (reader_file r))) as [Hle'|]; [left|right; by eexists].
  split; [cbn; lia|]. unfold cut. cbn. f_equal. f_equal. rewrite skipn_firstn_comm, take_take. f_equal. lia.
Qed.

Lemma run_reader_bind {A B} (m : ST LogReader A) (f : A → ST LogReader B) s r :
  run_reader (m ≫= f) (s, r) = (run_reader m ≫= (fun a => run_reader (f a))) (s, r).
Proof. unfold run_reader, mbind, ST_bind. by destruct (m r) as [[] r1]. Qed.

Lemma cut_safe_reader_bind {A B} (m : ST LogReader A) (f : A → ST LogReader B) s :
  cut_safe (run_reader m) s → (∀ a, cut_safe (run_reader (f a)) s) → cut_safe (run_reader (m ≫= f)) s.
Proof.
  intros Hm Hf. eapply cut_safe_ext; [intros r; apply run_reader_bind|]. by apply cut_safe_bind.
Qed.

Lemma cut_safe_read n s : cut_safe (run_reader (LogReader.read n)) s.
Proof.
  unfold LogReader.read. apply cut_safe_reader_bind; [apply cut_safe_read_exact|]. intros buf.
  apply cut_safe_reader_bind; [by apply cut_safe_modify|]. intros _.
  apply cut_safe_reader_bind; [apply cut_safe_modify|intros _; apply cut_safe_ret].
  - intros k r. unfold LogReader.update_crc. cbn. by destruct (validate r).
  - intros r. unfold LogReader.update_crc. by destruct (validate r).
Qed.

End Cut.

Section Next.
Context `{!HashMapOrder, !Crc32}.

Lemma cut_safe_next {S} (s : S) : cut_safe (run_reader LogReader.next) s.
Proof.
  assert (Hret : ∀ A (a : A), cut_safe (run_reader (mret a)) s) by (intros A a; apply cut_safe_ret).
  assert (Hpush : ∀ A f (a : A), (∀ k r, f (cut k r) = cut k (f r)) → (∀ r, reader_pos (f r) = reader_pos r) →
    cut_safe (run_reader (_ ← modify_st f; mret a)) s).
  { intros A f a Hf Hp. apply cut_safe_reader_bind; [by apply cut_safe_modify|]. intros _. apply Hret. }
  unfold LogReader.next. apply cut_safe_reader_bind; [apply cut_safe_read|]. intros buf. cbv zeta.
  destruct (_ =? BEGIN_RECORD); [apply cut_safe_reader_bind; [apply cut_safe_read|intros ?; by apply Hpush]|].
  destruct (_ =? INSERT_INDEX);
    [do 2 (apply cut_safe_reader_bind; [apply cut_safe_read|intros ?]); by apply Hpush|].
  destruct (_ =? INSERT_VALUE);
    [do 2 (apply cut_safe_reader_bind; [apply cut_safe_read|intros ?]); by apply Hpush|].
  destruct (_ =? END_RECORD).
  - apply cut_safe_reader_bind; [apply cut_safe_read_exact|]. intros crc.
    apply cut_safe_reader_bind; [by apply cut_safe_modify|]. intros _.
    intros k r a s' r' Hk. unfold run_reader, mbind, ST_bind, get_st, modify_st, mret, ST_ret, lift_st. cbn [validate cut reader_crc].
    destruct (validate r); [destruct (_ =? _); [|done]|]; (intros [= <- <- <-]; split; [done|]; by left).
  - destruct (_ =? DROP_TABLE); [|apply cut_safe_err; by intros r a s' r' [=]].
    apply cut_safe_reader_bind; [apply cut_safe_read|]. intros ?. apply Hret.
Qed.

(** A reader at a torn record: it finds the end of the file, or the start of the
    record. *)
Lemma read_torn v pre c j : (j < length (record_bytes c))%nat → is_u64 (change_record_id c) →
  let f := pre ++ take j (record_bytes c) in
  (∃ r, LogReader.next (LogReader.new f (length pre) v) = (Err (Io UnexpectedEof), r)) ∨
  (∃ r, at_record v (pre ++ record_bytes c) (length pre) c r ∧
     LogReader.next (LogReader.new f (length pre) v) = (Ok BeginRecord, cut (length f) r) ∧
     (reader_pos r ≤ length f < reader_pos r + length (concat (entry_bytes <$> record_entries c)) + 5)%nat).
Proof.
  intros Hj Hid f. assert (Hlen : length f = (length pre + j)%nat) by (unfold f; rewrite length_app, length_take; lia).
  destruct (at_record_ok v (pre ++ record_bytes c) (length pre) c [] Hid) as [r Har].
  { rewrite length_app. lia. }
  { by rewrite drop_app_length, app_nil_r. }
  assert (Hcut : LogReader.new f (length pre) v = cut (length f) (LogReader.new (pre ++ record_bytes c) (length pre) v)).
  { rewrite cut_new. f_equal. rewrite Hlen. unfold f. by rewrite take_app_add. }
  assert (Hrun : run_reader LogReader.next (tt, LogReader.new (pre ++ record_bytes c) (length pre) v) = (Ok BeginRecord, (tt, r))).
  { unfold run_reader. by rewrite (ar_next _ _ _ _ _ Har). }
  assert (Hle : (reader_pos (LogReader.new (pre ++ record_bytes c) (length pre) v) ≤ length f)%nat) by (cbn [LogReader.new reader_pos]; lia).
  rewrite Hcut. destruct (cut_safe_next tt (length f) _ _ _ _ Hle Hrun) as [_ [[Hk E]|(r' & E)]];
    unfold run_reader in E; destruct (LogReader.next (cut _ _)) as [o r1]; injection E as -> ->.
  - right. exists r. split_and!; [done|done|done|]. rewrite Hlen, (ar_pos _ _ _ _ _ Har). rewrite length_record_bytes in Hj. lia.
  - left. by exists r'.
Qed.

End Next.
