(* ===== verification/LogCrash.v ===== *)
(** * The log after a crash

    [Log::open] on the log files that a process left (src/src/log.rs): the files
    with records are queued in the order in which they were written, so that the
    records are replayed in that order. The last of them may end in a part of a
    record, when the process died while it appended one. *)

From S2P Require Import Prelude.
From S2P Require Import Bytes.
From S2P Require Import Ids.
From S2P Require Import File.
From S2P Require Import Log.
From S2P Require Import LogProofs.
From S2P Require Import LogState.
From S2P Require Import LogStateProofs.
From S2P Require Import LogReplay.
From S2P Require Import LogPending.
From stdpp Require Import sorting.
#[local] Open Scope Z_scope.
From stdpp Require Import options.
#[local] Set Default Proof Using "Type*".

Section Crash.
Context `{!HashMapOrder, !Crc32}.
Implicit Types (l : LogFiles) (R : list LogChange).

(** A file: its records, and what follows them. *)
Definition LogFile : Type := list LogChange * bytes.
Implicit Types (F : LogFile) (S : list (Z * LogFile)).
Definition content F : bytes := records_bytes F.1 ++ F.2.
Definition first_id F : Z :=
  match F.1 with x :: _ => change_record_id x | [] => le_decode (drop 1 (take 9 F.2)) end.

(** Only the last file may have a tail [J], or no record. *)
Fixpoint whole_but_last (J : bytes) (Fs : list LogFile) : Prop :=
  match Fs with
  | [] => True
  | [(R, t)] => t = J ∧ (R = [] → J ≠ [])
  | (R, t) :: Fs => t = [] ∧ R ≠ [] ∧ whole_but_last J Fs
  end.

Lemma whole_but_last_cons J R t F Fs : whole_but_last J ((R, t) :: F :: Fs) ↔ t = [] ∧ R ≠ [] ∧ whole_but_last J (F :: Fs).
Proof using Type. done. Qed.

Lemma whole_but_last_app J Fs1 Fs2 : Forall (fun F => F.2 = [] ∧ F.1 ≠ []) Fs1 → whole_but_last J Fs2 → (Fs2 = [] → J = []) →
  whole_but_last J (Fs1 ++ Fs2).
Proof using Type.
  intros H1 H2 HJ. induction H1 as [|[R t] Fs1 [Ht HR] _ IH]; [done|]. cbn [fst snd] in *. subst t. cbn [app].
  destruct (Fs1 ++ Fs2) as [|F Fs] eqn:E; [|by apply whole_but_last_cons].
  apply app_eq_nil in E as [-> ->]. cbn. rewrite HJ by done. split; [done|]. by intros ->.
Qed.

Lemma records_bytes_head R : R ≠ [] →
  ∃ b, records_bytes R = le_encode 1 BEGIN_RECORD ++ le_encode 8 (first_id (R, [])) ++ b.
Proof.
  destruct R as [|x R]; [done|]. intros _. unfold records_bytes. cbn [fmap list_fmap concat]. rewrite record_bytes_entries, <- !(assoc_L (++)).
  by eexists.
Qed.

Lemma records_bytes_length R : R ≠ [] → (9 ≤ length (records_bytes R))%nat.
Proof. intros [b ->]%records_bytes_head. len. Qed.

(** The id of the first record, as [Log::open_log_file] reads it. *)
Lemma content_id F : (F.1 ≠ [] → is_u64 (first_id F)) → le_decode (drop 1 (take 9 (content F))) = first_id F.
Proof.
  destruct F as [[|x R] t]; cbn [fst]; intros Hid; [done|]. unfold content. cbn [fst snd].
  destruct (records_bytes_head (x :: R)) as [b ->]; [done|]. cbn [first_id fst]. specialize (Hid ltac:(done)). cbn in Hid.
  rewrite <- !(assoc_L (++)).
  assert (E : take 9 (le_encode 1 BEGIN_RECORD ++ le_encode 8 (change_record_id x) ++ b ++ t) =
    le_encode 1 BEGIN_RECORD ++ le_encode 8 (change_record_id x)).
  { rewrite (assoc_L (++)). apply take_app_length'. len. }
  rewrite E, drop_app_length' by len. by rewrite le_decode_encode_small.
Qed.

(** ** The files with records *)

(** The files to which nothing is appended. *)
Definition sources l (Fs : list (list LogChange)) (E2 P1 P2 : list LogChange) : list (Z * list LogChange) :=
  zip (h_id <$> cleanup_queue l) Fs ++
  (match reading_file l with Some h => [(h_id h, E2 ++ P1)] | None => [] end) ++
  (match flushing l with Some h => [(h_id h, P2)] | None => [] end).

(** File [id] holds exactly these records. *)
Definition holds l (e : Z * list LogChange) : Prop := e.2 ≠ [] ∧ log_file l e.1 = records_bytes e.2.

Lemma sources_ok l Fs E2 P1 P2 P3 : in_files l Fs E2 P1 P2 P3 →
  Forall (holds l) (sources l Fs E2 P1 P2) ∧
  concat (snd <$> sources l Fs E2 P1 P2) = concat Fs ++ E2 ++ P1 ++ P2 ∧
  fst <$> sources l Fs E2 P1 P2 = (h_id <$> cleanup_queue l) ++ opt_id (reading_file l) ++ opt_id (flushing l).
Proof.
  intros [F1 F2 F3 _]. unfold sources. rewrite !fmap_app, !concat_app, !Forall_app.
  assert (Hc : Forall (holds l) (zip (h_id <$> cleanup_queue l) Fs) ∧
    concat (snd <$> zip (h_id <$> cleanup_queue l) Fs) = concat Fs ∧
    fst <$> zip (h_id <$> cleanup_queue l) Fs = h_id <$> cleanup_queue l).
  { clear F2 F3. induction F1 as [|h R hs Fs Hh _ IH]; [done|]. destruct IH as (IH1 & IH2 & IH3). cbn.
    rewrite IH2, IH3. split_and!; [constructor; done|done|done]. }
  destruct Hc as (Hc1 & -> & ->).
  assert (Hr : Forall (holds l) (match reading_file l with Some h => [(h_id h, E2 ++ P1)] | None => [] end) ∧
    concat (snd <$> match reading_file l with Some h => [(h_id h, E2 ++ P1)] | None => [] end) = E2 ++ P1 ∧
    fst <$> (match reading_file l with Some h => [(h_id h, E2 ++ P1)] | None => [] end) = opt_id (reading_file l)).
  { destruct (reading_file l) as [h|]; cbn; [|by destruct F2 as [-> ->]]. rewrite app_nil_r.
    split_and!; [constructor; [apply F2|done]|done|done]. }
  destruct Hr as (Hr1 & -> & ->).
  assert (Hf : Forall (holds l) (match flushing l with Some h => [(h_id h, P2)] | None => [] end) ∧
    concat (snd <$> match flushing l with Some h => [(h_id h, P2)] | None => [] end) = P2 ∧
    fst <$> (match flushing l with Some h => [(h_id h, P2)] | None => [] end) = opt_id (flushing l)).
  { destruct (flushing l) as [h|]; cbn; [|done]. rewrite app_nil_r. split_and!; [by constructor|done|done]. }
  destruct Hf as (Hf1 & -> & ->). split_and!; try done. by rewrite <- !(assoc_L (++)).
Qed.

(** The log files [D] of a process that died when it had appended [J] of a
    record: to the file that is appended to, or to a new or empty one. *)
Definition torn_disk l (J : bytes) (D : gmap Z bytes) : Prop :=
  match appending l with
  | Some (h, _) => D = <[h_id h := log_file l (h_id h) ++ J]> (disk l)
  | None => (J = [] ∧ D = disk l) ∨ ∃ id, log_file l id = [] ∧ D = <[id := J]> (disk l)
  end.

Lemma whole_disk l : log_ok l → torn_disk l [] (disk l).
Proof using Type.
  intros Hok. unfold torn_disk. destruct (appending l) as [[h s]|] eqn:Ea; [|by left].
  rewrite app_nil_r. unfold log_file. destruct (disk l !! h_id h) as [f|] eqn:Ef; cbn; [by rewrite insert_id|].
  destruct (proj2 (ok_disk _ Hok (h_id h))) as [f Hf]; [|congruence]. unfold log_ids. rewrite Ea. cbn. by left.
Qed.

(** [c] was appended to the file that is appended to, or to a new or empty one. *)
Definition appended l (c : LogChange) l' : Prop :=
  ∃ id, disk l' = <[id := log_file l id ++ record_bytes c]> (disk l) ∧
    match appending l with Some (h, _) => id = h_id h | None => log_file l id = [] end.

Lemma end_record_appended l w n l' : log_ok l → next_log_id l + 1 < 2 ^ 32 →
  writer_overlays w = lg_overlays l → wrap64 (LogWriter.record_id w + 1) = next_record_id l →
  end_record (LogWriter.drain w) l = (Ok n, l') → appended l (writer_log w) l'.
Proof.
  intros Hok Hnext Hov Hrid Hend.
  destruct (end_record_spec l w Hok Hnext Hov Hrid) as
    (l2 & h & f & Hrun & Hok' & (size & Ha & _) & K1 & K2 & K3 & Hd & Hold & Hnew & _ & _ & _ & Hoth & _).
  rewrite Hend in Hrun. injection Hrun as -> <-. destruct (end_record_queues _ _ _ _ Hend) as [Kc Kr].
  assert (Hf : log_file l (h_id h) = f).
  { unfold log_file. destruct (appending l) as [[h0 s0]|] eqn:Ea; [by destruct (Hold h0 s0 eq_refl) as [-> ->]|].
    rewrite (Hnew eq_refl). destruct (disk l !! h_id h) as [g|] eqn:Eg; [|done]. cbn.
    assert (Hin : h_id h ∈ log_ids l) by (apply (ok_disk _ Hok); by eexists). pose proof (ok_nodup _ Hok') as Hnd.
    unfold log_ids in Hin, Hnd. rewrite Ha, K1, K2, Kc, Kr in Hnd. rewrite Ea in Hin. cbn [opt_id fmap option_fmap option_map fst] in *.
    apply NoDup_cons in Hnd as [Hni _]. destruct (decide (h_id h ∈ h_id <$> log_pool l)) as [Hin'|?]; [clear Hin; rename Hin' into Hin|set_solver].
    apply list_elem_of_fmap in Hin as (h1 & Eh & Hh). pose proof (ok_pool _ Hok) as Hp. rewrite Forall_forall in Hp.
    destruct (Hp h1 Hh) as [_ Hd1]. congruence. }
  exists (h_id h). split.
  - apply map_eq. intros id. rewrite lookup_insert. case_decide as E; [subst id; by rewrite Hd, Hf|]. by apply Hoth.
  - destruct (appending l) as [[h0 s0]|] eqn:Ea; [by destruct (Hold h0 s0 eq_refl)|by rewrite Hf, Hnew].
Qed.

(** The log files [D] of a process that died while the log went from [l] to
    [l']: of the file that grew only the first [n] bytes may be there. *)
Definition dying_append l l' (D : gmap Z bytes) : Prop :=
  ∃ id f n, disk l' !! id = Some f ∧ (length (log_file l id) ≤ n ≤ length f)%nat ∧ D = <[id := take n f]> (disk l').

Lemma dying_torn l c l' D : appended l c l' → dying_append l l' D →
  D = disk l' ∨ ∃ j, (j < length (record_bytes c))%nat ∧ torn_disk l (take j (record_bytes c)) D.
Proof.
  intros (id & Hd & Ha) (id' & f & n & Hf & Hn & ->). destruct (decide (n = length f)) as [->|Hne].
  { left. rewrite firstn_all. by apply insert_id. }
  right. rewrite Hd, lookup_insert in Hf. case_decide as E.
  - subst id'. injection Hf as <-. exists (n - length (log_file l id))%nat. rewrite length_app in Hn, Hne. split; [lia|].
    rewrite take_app_ge by lia. unfold torn_disk. rewrite Hd, insert_insert_eq.
    destruct (appending l) as [[h s]|]; [by subst id|]. right. exists id. split; [done|]. by rewrite Ha.
  - unfold log_file in Hn. rewrite Hf in Hn. cbn in Hn. lia.
Qed.

(** ** The loop of [Log::open] *)

(** The queue entry of a file, if it is not empty. *)
Definition queued (e : Z * bytes) : option (Handle * Z) :=
  if (length e.2 =? 0)%nat then None else Some (MkHandle e.1 0, le_decode (drop 1 (take 9 e.2))).
Definition queue_of S : list (Handle * Z) := (fun '(id, F) => (MkHandle id 0, first_id F)) <$> S.

Definition file_readable (f : bytes) : Prop := f = [] ∨ (9 ≤ length f)%nat.

Lemma open_logs_spec files : ∀ logs max d, Forall (fun e => file_readable e.2) files → NoDup files.*1 →
  ∃ max' d', open_logs files logs max d = Ok (logs ++ omap queued files, max', d') ∧
    (∀ id f, (id, f) ∈ files → f ≠ [] → d' !! id = Some f) ∧ (∀ id, id ∉ files.*1 → d' !! id = d !! id) ∧
    (∀ id f, d' !! id = Some f → (id, f) ∈ files ∨ d !! id = Some f).
Proof.
  induction files as [|[id f] files IH]; intros logs max d Hall Hnd.
  { exists max, d. cbn. rewrite app_nil_r. split_and!; [done|by intros id f ?%not_elem_of_nil|done|by right]. }
  apply Forall_cons in Hall as [Hf Hall]. cbn in Hnd. apply NoDup_cons in Hnd as [Hni Hnd]. cbn [snd] in Hf. cbn [open_logs omap list_omap].
  unfold open_log_file, queued at 1. cbn [fst snd]. destruct (Nat.eqb_spec (length f) 0) as [E|E].
  - rewrite outcome_bind_Ok. destruct (IH logs max d Hall Hnd) as (max' & d' & -> & H1 & H2 & H3). exists max', d'.
    split_and!; [done| | |].
    + intros id' f' [[= -> ->]|Hin]%elem_of_cons Hne; [by destruct f|by apply H1].
    + intros id'. cbn. rewrite not_elem_of_cons. intros [_ ?]. by apply H2.
    + intros id' f' [?|?]%H3; [left; by right|by right].
  - destruct Hf as [->|Hf]; [done|]. unfold read_exact_at.
    rewrite (proj2 (Nat.leb_le _ _)) by lia. rewrite !outcome_bind_Ok, drop_0. cbv beta iota.
    destruct (IH (logs ++ [(MkHandle id 0, le_decode (drop 1 (take 9 f)))]) (if id >? max then id else max)
      (<[id := f]> d) Hall Hnd) as (max' & d' & -> & H1 & H2 & H3). exists max', d'. split_and!.
    + by rewrite <- (assoc_L (++)).
    + intros id' f' [[= -> ->]|Hin]%elem_of_cons Hne; [|by apply H1].
      rewrite H2 by done. apply lookup_insert_eq.
    + intros id'. cbn. rewrite not_elem_of_cons. intros [? ?]. rewrite H2 by done. by apply lookup_insert_ne.
    + intros id' f' [?|Hl]%H3; [left; by right|]. rewrite lookup_insert in Hl. case_decide; [|by right].
      simplify_eq. left. by left.
Qed.

(** ** The order of the queue *)

Lemma first_id_sorted S J n : whole_but_last J (snd <$> S) → (∀ R, (R, J) ∈ snd <$> S → R = [] → first_id (R, J) = n) →
  StronglySorted Z.lt ((change_record_id <$> concat ((fst ∘ snd) <$> S)) ++ [n]) →
  StronglySorted Z.lt (first_id ∘ snd <$> S).
Proof using Type.
  induction S as [|[id [R t]] S IH]; intros Hw HJ Hs; [constructor|].
  destruct S as [|e S]; [cbn; constructor; constructor|]. cbn [fmap list_fmap snd] in Hw.
  apply whole_but_last_cons in Hw as (-> & HR & Hw).
  rewrite fmap_cons in Hs. cbn [concat compose fst snd] in Hs. rewrite fmap_app, <- (assoc_L (++)) in Hs.
  rewrite fmap_cons. constructor.
  - apply IH; [exact Hw| |by apply StronglySorted_app_1_r in Hs]. intros R' HR'. apply HJ. by right.
  - destruct R as [|x R]; [done|]. cbn in Hs. apply StronglySorted_inv in Hs as [_ Hall]. rewrite Forall_forall in Hall.
    apply Forall_fmap, Forall_forall. intros [id' [R' t']] Hin. cbn [compose snd first_id fst].
    apply Hall, elem_of_app. right. destruct R' as [|x' R'].
    + assert (Hlast : (([], t') : LogFile) ∈ (fun e => e.2) <$> e :: S) by (apply (list_elem_of_fmap_2 snd _ _ Hin)).
      assert (t' = J) as ->.
      { clear -Hw Hlast. change ((fun e : Z * LogFile => e.2) <$> e :: S) with (snd <$> e :: S) in Hlast.
        revert e Hw Hlast. induction S as [|e2 S IH]; intros [i [R t]] Hw Hlast.
        - apply list_elem_of_singleton in Hlast. simplify_eq/=. by destruct Hw.
        - apply whole_but_last_cons in Hw as (-> & HR & Hw). apply elem_of_cons in Hlast as [Heq|Hl]; [by simplify_eq/=|].
          by apply (IH e2). }
      rewrite (HJ []); [|by right|done]. apply elem_of_app. right. by left.
    + assert (Hx : x' ∈ concat ((fst ∘ snd) <$> e :: S)).
      { rewrite list_elem_of_In, in_concat. exists (x' :: R'). split; [|by left]. apply list_elem_of_In.
        by apply (list_elem_of_fmap_2 (fst ∘ snd)) in Hin. }
      apply elem_of_app. left. exact (list_elem_of_fmap_2 change_record_id _ _ Hx).
Qed.

Lemma sort_unique {A} (key : A → Z) (k k' : list A) : k ≡ₚ k' → StronglySorted Z.lt (key <$> k') → sort_by_key key k = k'.
Proof.
  intros Hp Hs. apply (StronglySorted_unique_strong (fun x y => key x ≤ key y)%Z).
  - intros x y Hx Hy Hxy Hyx. rewrite sort_by_key_perm, Hp in Hx.
    apply list_elem_of_lookup in Hx as [i Hi], Hy as [j Hj].
    assert (Hnd : NoDup (key <$> k')).
    { clear -Hs. induction Hs as [|z zs _ IH Hall]; constructor; [|done]. intros Hin. rewrite Forall_forall in Hall.
      apply Hall in Hin. lia. }
    assert (i = j) as ->; [|congruence]. eapply NoDup_lookup; [exact Hnd| |]; rewrite list_lookup_fmap.
    + by rewrite Hi.
    + rewrite Hj. cbn. f_equal. lia.
  - apply sort_by_key_sorted.
  - clear -Hs. induction k' as [|z zs IH]; cbn in Hs; [constructor|].
    apply StronglySorted_inv in Hs as [Hs Hall]. constructor; [by apply IH|].
    rewrite Forall_fmap in Hall. eapply Forall_impl; [exact Hall|]. cbn. lia.
  - by rewrite sort_by_key_perm.
Qed.

Lemma consecutive_sorted n R : consecutive n R → StronglySorted Z.lt (change_record_id <$> R).
Proof using Type.
  intros [_ ->]. generalize (n - Z.of_nat (length R))%Z as m. generalize (length R) as k.
  induction k as [|k IH]; intros m; [constructor|]. rewrite Nat2Z.inj_succ, seqZ_cons by lia. constructor.
  - replace (Z.pred (Z.succ (Z.of_nat k))) with (Z.of_nat k) by lia. apply IH.
  - apply Forall_forall. intros z Hz%elem_of_seqZ. lia.
Qed.

(** ** Opening the log *)

Lemma queued_ids files : h_id ∘ fst <$> omap queued files `sublist_of` files.*1.
Proof using Type.
  induction files as [|[id f] files IH]; [constructor|]. cbn. unfold queued at 1. cbn [fst snd].
  destruct (length f =? 0)%nat; cbn; by constructor.
Qed.

(** The directory that was left: every file is empty or one of the sources. *)
Record left_sources (J : bytes) (D : gmap Z bytes) (Q : list LogChange) S : Prop := {
  ls_records : concat ((fst ∘ snd) <$> S) = Q;
  ls_nodup : NoDup S.*1;
  ls_whole : whole_but_last J (snd <$> S);
  ls_holds : Forall (fun e => D !! e.1 = Some (content e.2) ∧ content e.2 ≠ []) S;
  ls_all : ∀ id f, D !! id = Some f → f = [] ∨ ∃ F, (id, F) ∈ S ∧ f = content F;
}.

Lemma records_bytes_nonempty R : R ≠ [] → records_bytes R ≠ [].
Proof. intros HR%records_bytes_length E. rewrite E in HR. cbn in HR. lia. Qed.

(** Files without a tail. *)
Definition whole (A : list (Z * list LogChange)) : list (Z * LogFile) := (fun '(id, R) => (id, (R, []))) <$> A.
Lemma whole_ids A : (whole A).*1 = A.*1.
Proof using Type. unfold whole. rewrite <- list_fmap_compose. apply list_fmap_ext. by intros ? [] ?. Qed.
Lemma whole_records A : (fst ∘ snd) <$> whole A = A.*2.
Proof using Type. unfold whole. rewrite <- list_fmap_compose. apply list_fmap_ext. by intros ? [] ?. Qed.
Lemma content_whole R : content (R, []) = records_bytes R.
Proof. apply app_nil_r. Qed.

(** What is in the directory besides the files to which nothing is appended. *)
Lemma left_sources_app l Fs E2 P1 P2 P3 J D S : log_ok l → in_files l Fs E2 P1 P2 P3 →
  concat ((fst ∘ snd) <$> S) = P3 → NoDup S.*1 → whole_but_last J (snd <$> S) → (S = [] → J = []) →
  Forall (fun e => D !! e.1 = Some (content e.2) ∧ content e.2 ≠ []) S →
  (∀ id, id ∈ (sources l Fs E2 P1 P2).*1 → D !! id = disk l !! id ∧ id ∉ S.*1) →
  (∀ id f, D !! id = Some f → f = [] ∨ id ∈ (sources l Fs E2 P1 P2).*1 ∨ ∃ F, (id, F) ∈ S ∧ f = content F) →
  left_sources J D ((concat Fs ++ E2) ++ P1 ++ P2 ++ P3) (whole (sources l Fs E2 P1 P2) ++ S).
Proof.
  intros Hok F L1 L2 L3 HJ L4 HD Hall. destruct (sources_ok l Fs E2 P1 P2 P3 F) as (Hs & Hc & Hids).
  set (A := sources l Fs E2 P1 P2) in *. rewrite Forall_forall in Hs.
  assert (Hfile : ∀ id R, (id, R) ∈ A → D !! id = Some (records_bytes R) ∧ R ≠ []).
  { intros id R HR. destruct (Hs _ HR) as [Hne Hf]. split; [|done]. destruct (HD id) as [-> _]; [by apply (list_elem_of_fmap_2 fst) in HR|].
    unfold log_file in Hf. cbn [fst snd] in *. pose proof (records_bytes_nonempty R Hne). destruct (disk l !! id); cbn in Hf; congruence. }
  split.
  - rewrite fmap_app, concat_app, whole_records, Hc, L1. by rewrite <- !(assoc_L (++)).
  - rewrite fmap_app, whole_ids. apply NoDup_app. split_and!; [|intros id Hid; by apply HD|done].
    rewrite Hids. pose proof (ok_nodup _ Hok) as Hnd. unfold log_ids in Hnd. rewrite !NoDup_app in *. set_solver.
  - rewrite fmap_app. apply whole_but_last_app; [|done|intros E; apply HJ; by apply fmap_nil_inv in E].
    apply Forall_fmap, Forall_fmap, Forall_forall. intros [id R] HR. cbn. by destruct (Hfile _ _ HR).
  - apply Forall_app. split; [|done]. apply Forall_fmap, Forall_forall. intros [id R] HR. cbn [compose fst snd]. rewrite content_whole.
    destruct (Hfile _ _ HR) as [? ?]. split; [done|by apply records_bytes_nonempty].
  - intros id f Hf. destruct (Hall id f Hf) as [->|[([id' R] & -> & HR)%list_elem_of_fmap|(G & HG & ->)]]; [by left| |].
    + right. exists (R, []). destruct (Hfile _ _ HR) as [HD' _]. cbn [fst] in *. rewrite content_whole. split; [|congruence].
      apply elem_of_app. left. apply list_elem_of_fmap. by exists (id', R).
    + right. exists G. split; [|done]. apply elem_of_app. by right.
Qed.

Lemma disk_sources l E P J D : log_ok l → files_hold l E P → torn_disk l J D → ∃ S, left_sources J D (E ++ P) S.
Proof.
  intros Hok (Hq & Fs & E2 & P1 & P2 & P3 & -> & -> & F) HD.
  destruct (sources_ok l Fs E2 P1 P2 P3 F) as (Hs & _ & Hids). rewrite Forall_forall in Hs.
  pose proof (if_appending _ _ _ _ _ _ F) as Ha. pose proof (ok_nodup _ Hok) as Hnd. unfold log_ids in Hnd. rewrite Hq, app_nil_r in Hnd.
  assert (Hin : ∀ id f, disk l !! id = Some f → f = [] ∨ id ∈ (sources l Fs E2 P1 P2).*1 ∨ id ∈ opt_id (fst <$> appending l)).
  { intros id f Hf. assert (Hid : id ∈ log_ids l) by (apply (ok_disk _ Hok); by eexists).
    unfold log_ids in Hid. rewrite Hq, app_nil_r in Hid. rewrite Hids.
    destruct (decide (id ∈ h_id <$> log_pool l)) as [Hp|Hp]; [left|right; set_solver].
    apply list_elem_of_fmap in Hp as (h & -> & Hh). pose proof (ok_pool _ Hok) as Hp. rewrite Forall_forall in Hp.
    destruct (Hp h Hh) as [_ Hd]. congruence. }
  assert (Hnonempty : ∀ id, id ∈ (sources l Fs E2 P1 P2).*1 → log_file l id ≠ []).
  { intros id ([id' R] & -> & HR)%list_elem_of_fmap. destruct (Hs _ HR) as [Hne ->]. by apply records_bytes_nonempty. }
  unfold torn_disk in HD. destruct (appending l) as [[h s]|].
  - destruct Ha as [Hne Hf]. eexists. apply (left_sources_app l Fs E2 P1 P2 P3 J D [(h_id h, (P3, J))]); [done|exact F| | |done|done| | |].
    + cbn. by rewrite app_nil_r.
    + apply NoDup_singleton.
    + constructor; [|done]. cbn. unfold content. cbn. rewrite HD, lookup_insert_eq, Hf. split; [done|].
      intros [E _]%app_eq_nil. by apply records_bytes_nonempty in E.
    + intros id Hid. assert (Hne' : id ≠ h_id h).
      { intros ->. rewrite Hids in Hid. cbn in Hnd. apply NoDup_cons in Hnd as [Hni _]. apply Hni. set_solver. }
      rewrite HD, lookup_insert_ne by done. split; [done|]. cbn. apply not_elem_of_cons. by split; [|apply not_elem_of_nil].
    + intros id f Hl. rewrite HD, lookup_insert in Hl. case_decide as Hd.
      * subst id. right; right. eexists. split; [by left|]. injection Hl as <-. unfold content. cbn. by rewrite Hf.
      * destruct (Hin id f Hl) as [?|[?|Hc%list_elem_of_singleton]]; [by left|by right; left|by cbn in Hc; congruence].
  - subst P3. destruct HD as [[-> ->]|(id & Hid & ->)].
    + eexists. apply (left_sources_app l Fs E2 P1 P2 [] [] (disk l) []); try done; [constructor|by intros id _; split; [|apply not_elem_of_nil]|].
      intros id f Hl. destruct (Hin id f Hl) as [?|[?|Hc%not_elem_of_nil]]; [by left|by right; left|done].
    + assert (Hni : ∀ i, i ∈ (sources l Fs E2 P1 P2).*1 → i ≠ id) by (intros i Hi ->; by apply (Hnonempty _ Hi)).
      destruct (decide (J = [])) as [->|HJ].
      * eexists. apply (left_sources_app l Fs E2 P1 P2 [] [] _ []); try done; [constructor|intros i Hi; split; [|apply not_elem_of_nil]|].
        { apply lookup_insert_ne. by intros ->; apply (Hni _ Hi). }
        intros i f Hl. rewrite lookup_insert in Hl. case_decide; [by left; injection Hl as <-|].
        destruct (Hin i f Hl) as [?|[?|Hc%not_elem_of_nil]]; [by left|by right; left|done].
      * eexists. apply (left_sources_app l Fs E2 P1 P2 [] J _ [(id, ([], J))]); try done; [apply NoDup_singleton| | |].
        { constructor; [|done]. cbn. rewrite lookup_insert_eq. by split. }
        { intros i Hi. rewrite lookup_insert_ne by (by intros ->; apply (Hni _ Hi)). split; [done|].
          cbn. apply not_elem_of_cons. split; [by apply Hni|apply not_elem_of_nil]. }
        intros i f Hl. rewrite lookup_insert in Hl. case_decide as Hd.
        { injection Hl as <-. subst i. right; right. eexists. split; [by left|done]. }
        destruct (Hin i f Hl) as [?|[?|Hc%not_elem_of_nil]]; [by left|by right; left|done].
Qed.

Record log_opened (J : bytes) (Q : list LogChange) l S : Prop := {
  op_ok : log_ok l;
  op_queue : replay_queue l = queue_of S;
  op_records : concat ((fst ∘ snd) <$> S) = Q;
  op_whole : whole_but_last J (snd <$> S);
  op_sources : Forall (fun e => disk l !! e.1 = Some (content e.2)) S;
  op_state : lg_overlays l = empty_overlays ∧ appending l = None ∧ reading_file l = None ∧ reading_state l = Idle ∧
    flushing l = None ∧ next_record_id l = 1%Z ∧ cleanup_queue l = [] ∧ log_pool l = [];
}.

Lemma consecutive_sorted_end n R : consecutive n R → StronglySorted Z.lt ((change_record_id <$> R) ++ [n]).
Proof using Type.
  intros Hc. assert (Hc' : consecutive (n + 1) (R ++ [LogChange_new n])) by by apply consecutive_snoc.
  apply consecutive_sorted in Hc'. by rewrite fmap_app in Hc'.
Qed.

Section Open.
Context (J : bytes) (D : gmap Z bytes) (Q : list LogChange) (n : Z) (S : list (Z * LogFile)) (logs : list (Z * bytes)).
Hypothesis left : left_sources J D Q S.
Hypothesis ids : consecutive n Q.
Hypothesis n_u64 : n ≤ 2 ^ 64.
Hypothesis torn_id : (9 ≤ length J)%nat → first_id ([], J) = n.
Hypothesis readable : ∀ id f, D !! id = Some f → file_readable f.
Hypothesis listed : logs ≡ₚ map_to_list D.

Lemma listed_in id f : (id, f) ∈ logs ↔ D !! id = Some f.
Proof using listed. by rewrite listed, elem_of_map_to_list. Qed.

Lemma source_in id F : (id, F) ∈ S → D !! id = Some (content F) ∧ content F ≠ [] ∧ (F.1 ≠ [] → is_u64 (first_id F)).
Proof using All.
  intros HF. pose proof (ls_holds _ _ _ _ left) as Hh. rewrite Forall_forall in Hh. destruct (Hh _ HF) as [H1 H2]. cbn [fst snd] in *.
  split_and!; [done|done|]. intros HR. destruct F as [[|x R] t]; [done|]. cbn.
  enough (0 ≤ change_record_id x < n) by (unfold is_u64; lia). eapply consecutive_in; [exact ids|].
  rewrite <- (ls_records _ _ _ _ left), list_elem_of_In, in_concat. exists (x :: R). split; [|by left].
  apply list_elem_of_In. by apply (list_elem_of_fmap_2 (fst ∘ snd)) in HF.
Qed.

Lemma last_in Fs R t : whole_but_last J Fs → (R, t) ∈ Fs → R = [] → t = J.
Proof using Type.
  induction Fs as [|[R0 t0] [|F Fs] IH]; intros Hw HF HR; [by apply not_elem_of_nil in HF|..].
  - apply list_elem_of_singleton in HF. simplify_eq. by destruct Hw.
  - apply whole_but_last_cons in Hw as (-> & HR0 & Hw). apply elem_of_cons in HF as [Heq|HF]; [by simplify_eq|by apply IH].
Qed.

Lemma queue_sorted : StronglySorted Z.lt (snd <$> queue_of S).
Proof using All.
  unfold queue_of. rewrite <- list_fmap_compose. erewrite list_fmap_ext; [apply (first_id_sorted S J n)|by intros ? [] ?].
  - apply left.
  - intros R ([id [R' t']] & [= <- <-] & HF)%list_elem_of_fmap ->. apply torn_id.
    destruct (source_in _ _ HF) as (Hf & Hne & _). destruct (readable _ _ Hf) as [?|Hr]; [done|].
    by unfold content in Hr.
  - rewrite (ls_records _ _ _ _ left). by apply consecutive_sorted_end.
Qed.

Lemma queue_files : sort_by_key snd (omap queued logs) = queue_of S.
Proof using All.
  assert (Hqd : ∀ id F, (id, F) ∈ S → queued (id, content F) = Some (MkHandle id 0, first_id F)).
  { intros id F HF. destruct (source_in _ _ HF) as (_ & Hne & Hid). unfold queued. cbn [fst snd].
    rewrite (proj2 (Nat.eqb_neq _ _)) by (by destruct (content F)). by rewrite content_id. }
  apply sort_unique; [|apply queue_sorted]. apply NoDup_Permutation.
  - eapply (NoDup_fmap_1 (h_id ∘ fst)), sublist_NoDup; [|apply (queued_ids logs)]. rewrite listed. apply NoDup_fst_map_to_list.
  - apply (NoDup_fmap_1 (h_id ∘ fst)). unfold queue_of. rewrite <- list_fmap_compose.
    erewrite list_fmap_ext; [exact (ls_nodup _ _ _ _ left)|]. by intros ? [] ?.
  - intros [h k]. rewrite list_elem_of_omap. unfold queue_of. rewrite list_elem_of_fmap. split.
    + intros ([id f] & Hf%listed_in & Hq). destruct (ls_all _ _ _ _ left _ _ Hf) as [->|(F & HF & ->)]; [done|].
      rewrite (Hqd _ _ HF) in Hq. exists (id, F). split; [by injection Hq as <- <-|done].
    + intros ([id F] & [= -> ->] & HF). exists (id, content F). split; [|by apply Hqd]. apply listed_in. by apply source_in.
Qed.

Lemma open_left_log sync_wal : (∀ id, is_Some (D !! id) → 0 ≤ id < 2 ^ 32 - 1) →
  ∃ l1, open_log sync_wal logs = Ok l1 ∧ log_opened J Q l1 S ∧ ∀ id f, disk l1 !! id = Some f → D !! id = Some f.
Proof using All.
  intros Hrange. assert (Hnd : NoDup logs.*1) by (rewrite listed; apply NoDup_fst_map_to_list).
  destruct (open_logs_spec logs [] 0 ∅) as (max & d & Hrun & Hd & _ & Hback); [|done|].
  { apply Forall_forall. intros [id f] Hf%listed_in. by eapply readable. }
  cbn [app] in Hrun. eexists. unfold open_log. rewrite Hrun, outcome_bind_Ok. cbv beta iota. rewrite queue_files.
  split; [reflexivity|]. split; [|intros id f; cbn; intros [?|Hl]%Hback; [by apply listed_in|by rewrite lookup_empty in Hl]].
  split; try done; [|apply left|apply left|].
  - eapply (open_log_ok sync_wal logs); [done| |].
    + apply Forall_forall. intros id ([id' f] & -> & Hf%listed_in)%list_elem_of_fmap. cbn. apply Hrange. by eexists.
    + unfold open_log. rewrite Hrun, outcome_bind_Ok. cbv beta iota. rewrite queue_files. reflexivity.
  - apply Forall_forall. intros [id F] HF. cbn [fst snd disk]. destruct (source_in _ _ HF) as (Hf & Hne & _).
    apply Hd; [|done]. by apply listed_in.
Qed.

End Open.

(** [Log::open] on the files of a process that died while it appended a record. *)
Lemma open_crash sync_wal l E P n J D logs : log_ok l → files_hold l E P → consecutive n (E ++ P) → n ≤ 2 ^ 64 →
  torn_disk l J D → ((9 ≤ length J)%nat → first_id ([], J) = n) → (∀ id f, D !! id = Some f → file_readable f) →
  logs ≡ₚ map_to_list D → (∀ id, is_Some (D !! id) → 0 ≤ id < 2 ^ 32 - 1) →
  ∃ l1 S, open_log sync_wal logs = Ok l1 ∧ log_opened J (E ++ P) l1 S ∧
    ∀ id f, disk l1 !! id = Some f → D !! id = Some f.
Proof.
  intros Hok Hfiles Hcons Hn HD HJ Hread Hlogs Hrange. destruct (disk_sources l E P J D Hok Hfiles HD) as (S & HS).
  destruct (open_left_log J D (E ++ P) n S logs HS Hcons Hn HJ Hread Hlogs sync_wal Hrange) as (l1 & H1). by exists l1, S.
Qed.

(** Log files that end with a whole record. *)
Lemma whole_readable l E P : log_ok l → files_hold l E P → ∀ id f, disk l !! id = Some f → file_readable f.
Proof.
  intros Hok Hfiles id f Hf. destruct (disk_sources l E P [] (disk l) Hok Hfiles (whole_disk l Hok)) as (S & [_ _ Hw Hh Hall]).
  destruct (Hall _ _ Hf) as [->|([R t] & HF & ->)]; [by left|right]. unfold content. rewrite length_app. cbn [fst].
  enough (R ≠ []) by (pose proof (records_bytes_length R); naive_solver lia). intros ->.
  apply (list_elem_of_fmap_2 snd) in HF. clear -Hw HF. induction S as [|[i [R0 t0]] S IH]; [by apply not_elem_of_nil in HF|].
  destruct S as [|e S].
  - apply list_elem_of_singleton in HF. destruct Hw as [-> Hw]. simplify_eq/=. by apply Hw.
  - cbn in Hw, HF. destruct e as [i' F']. apply whole_but_last_cons in Hw as (-> & HR & Hw). apply elem_of_cons in HF as [Heq|HF]; [by simplify_eq/=|].
    by apply IH.
Qed.

(** ** Replaying *)

(** The log while its files are replayed: [E2] and the files [Fs] were replayed,
    [P1] and the tail [t] are left of the file that is read, [Rs] are the files
    of the queue. *)
Record replaying (J : bytes) l (Fs : list (list LogChange)) (E2 P1 : list LogChange) (t : bytes) (Rs : list LogFile) : Prop := {
  rp_cleanup : J = [] → Forall2 (file_holds l) (cleanup_queue l) Fs;
  rp_reading : match reading_file l with
    | Some h => log_file l (h_id h) = content (E2 ++ P1, t) ∧ whole_but_last J ((E2 ++ P1, t) :: Rs) ∧
        match reading_state l with
        | Reading_ => h_pos h = length (records_bytes E2)
        | Idle => P1 = []
        end
    | None => E2 = [] ∧ P1 = [] ∧ t = [] ∧ whole_but_last J Rs
    end;
  rp_none : flushing l = None ∧ appending l = None;
  rp_queue : Forall2 (fun e F => log_file l (h_id e.1) = content F ∧ h_pos e.1 = 0%nat) (replay_queue l) Rs;
  rp_empty : lg_overlays l = empty_overlays;
}.

Lemma opened_replaying J Q l S : log_opened J Q l S → replaying J l [] [] [] [] (snd <$> S).
Proof.
  intros [Hok Hq _ Hw Hs (H1 & H2 & H3 & H4 & H5 & _ & H7 & _)]. split; [by rewrite H7|by rewrite H3|done| |done].
  rewrite Hq. clear -Hs. induction Hs as [|[id F] S HF _ IH]; [constructor|]. cbn. constructor; [|exact IH].
  split; [|done]. unfold log_file. cbn in *. by rewrite HF.
Qed.

(** [Log::replay_next]: the next file of the queue is read. *)
Lemma replay_next_some J l Fs E2 t R t' Rs : replaying J l Fs E2 [] t ((R, t') :: Rs) →
  ∃ id l' Fs', replay_next l = (Ok (Some id), l') ∧ replaying J l' Fs' [] R t' Rs ∧ concat Fs' = concat Fs ++ E2 ∧
    next_record_id l' = next_record_id l ∧ disk l' = disk l.
Proof.
  intros [F1 F2 [Hf Ha] Hq He]. unfold replay_next. erewrite ST_bind_Ok by done.
  inversion Hq as [|[h k] R' q Rs' [Hh Hp] Hq' Eq]; subst. cbn [fst] in *.
  destruct (reading_file l) as [r|] eqn:Er.
  - destruct F2 as (Hr & Hw & _). rewrite app_nil_r in Hr, Hw. apply whole_but_last_cons in Hw as (-> & HE2 & Hw).
    rewrite content_whole in Hr. erewrite ST_bind_Ok by done. erewrite ST_bind_Ok by done.
    cbn [replay_queue set_queues set_reading]. eexists _, _, (Fs ++ [E2]). split; [reflexivity|].
    split_and!; [|rewrite concat_app; cbn; by rewrite app_nil_r|done|done].
    split; [|by split_and!|done|exact Hq'|done]. cbn. intros HJ. apply Forall2_app; [by apply F1|]. by repeat constructor.
  - destruct F2 as (-> & _ & -> & Hw). erewrite ST_bind_Ok by done. erewrite ST_bind_Ok by done.
    rewrite <- Eq. eexists _, _, Fs. split; [reflexivity|]. split_and!; [|by rewrite app_nil_r|done|done].
    split; [exact F1|by split_and!|done|exact Hq'|done].
Qed.

(** The replay has ended. The files hold the records if the last one had no
    tail; if no file waits for cleanup, they hold nothing. *)
Record replay_ended (J : bytes) (Q : list LogChange) l : Prop := {
  rn_empty : lg_overlays l = empty_overlays;
  rn_whole : J = [] → files_hold l Q [];
  rn_clean : cleanup_queue l = [] → files_hold l [] [];
}.

Lemma replay_next_none J l Fs E2 t : replaying J l Fs E2 [] t [] →
  ∃ l', replay_next l = (Ok None, l') ∧ replay_ended J (concat Fs ++ E2) l' ∧ next_record_id l' = next_record_id l.
Proof.
  intros [F1 F2 [Hf Ha] Hq He]. unfold replay_next. erewrite ST_bind_Ok by done. apply Forall2_nil_inv_r in Hq.
  destruct (reading_file l) as [r|] eqn:Er.
  - destruct F2 as (Hr & [-> HE2] & _). rewrite app_nil_r in Hr, HE2. erewrite ST_bind_Ok by done. erewrite ST_bind_Ok by done.
    cbn [replay_queue set_queues set_reading]. rewrite Hq. eexists. split; [reflexivity|]. split; [|done].
    split; [done| |by intros [_ ?]%app_eq_nil].
    intros ->. rewrite content_whole in Hr. split; [done|]. exists (Fs ++ [E2]), [], [], [], [].
    split; [rewrite concat_app; cbn; by rewrite !app_nil_r|]. split; [done|].
    split; cbn; [|done|by rewrite Hf|by rewrite Ha]. apply Forall2_app; [by apply F1|]. repeat constructor; [|done]. intros ->. by apply HE2.
  - destruct F2 as (-> & _). erewrite ST_bind_Ok by done. erewrite ST_bind_Ok by done. rewrite Hq.
    eexists. split; [reflexivity|]. split; [|done].
    assert (Hin : ∀ Fs', Forall2 (file_holds l) (cleanup_queue l) Fs' →
      files_hold (set_reading (reading_file l) Idle l) (concat Fs') []).
    { intros Fs' HF. split; [done|]. exists Fs', [], [], [], []. rewrite app_nil_r. split; [done|]. split; [done|].
      split; cbn; [exact HF|by rewrite Er|by rewrite Hf|by rewrite Ha]. }
    split; [done|intros HJ; rewrite app_nil_r; apply Hin, F1, HJ|]. intros E. cbn in E. apply (Hin []). rewrite E. constructor.
Qed.

(** [Log::read_next]: the next record of the file, if there is one. *)
Lemma read_replaying J l Fs E2 P1 t Rs : replaying J l Fs E2 P1 t Rs → Forall (fun c => is_u64 (change_record_id c)) P1 →
  (P1 = [] ∧ ∃ l', read_next true l = (Ok None, l') ∧ replaying J l' Fs E2 [] t Rs ∧ next_record_id l' = next_record_id l ∧ disk l' = disk l) ∨
  (∃ c P1' r h, P1 = c :: P1' ∧ reading_file l = Some h ∧ read_next true l = (Ok (Some r), put_reader r l) ∧
    at_record true (log_file l (h_id h)) (h_pos h) c r ∧
    ∀ r', reader_pos r' = (h_pos h + length (record_bytes c))%nat → replaying J (put_reader r' l) Fs (E2 ++ [c]) P1' t Rs) ∨
  (∃ h, P1 = [] ∧ Rs = [] ∧ reading_file l = Some h ∧ reading_state l = Reading_ ∧ t ≠ [] ∧ t = J ∧
    log_file l (h_id h) = records_bytes E2 ++ t ∧ h_pos h = length (records_bytes E2)).
Proof.
  intros Hrp Hids. pose proof Hrp as [F1 F2 [Hf Ha] Hq He]. destruct (reading_state l) eqn:Es.
  2: { left. assert (P1 = []) as -> by (destruct (reading_file l); naive_solver).
       split; [done|]. exists l. split_and!; try done. unfold read_next. by rewrite Es. }
  destruct (reading_file l) as [h|] eqn:Er.
  2: { left. assert (P1 = []) as -> by naive_solver.
       split; [done|]. exists l. split_and!; try done. unfold read_next. by rewrite Es, Er. }
  destruct F2 as (Hr & Hw & Hp). unfold content in Hr. cbn [fst snd] in Hr. destruct P1 as [|c P1].
  - rewrite app_nil_r in Hr, Hw. destruct (decide (t = [])) as [->|Ht].
    + left. rewrite app_nil_r in Hr. split; [done|]. eexists. split; [apply (read_next_end true l h Es Er); by rewrite Hr|].
      split_and!; [|done|done]. split; cbn; [exact F1| |done|exact Hq|done].
      rewrite app_nil_r. unfold content. cbn. by rewrite app_nil_r.
    + right; right. exists h. destruct Rs as [|F Rs]; [|by apply whole_but_last_cons in Hw as [? _]].
      destruct Hw as [-> _]. by split_and!.
  - right; left. apply Forall_cons in Hids as [Hu _].
    assert (Hb : records_bytes (E2 ++ c :: P1) ++ t = records_bytes E2 ++ record_bytes c ++ records_bytes P1 ++ t).
    { unfold records_bytes. rewrite fmap_app, concat_app, fmap_cons. cbn [concat]. by rewrite <- !(assoc_L (++)). }
    rewrite Hb in Hr. destruct (at_record_ok true (log_file l (h_id h)) (h_pos h) c (records_bytes P1 ++ t) Hu) as [r Har].
    { rewrite Hr, Hp, length_app. lia. }
    { rewrite Hr, Hp. by rewrite drop_app_length. }
    exists c, P1, r, h. split_and!; [done|done|by apply (read_next_record _ _ h c)|done|].
    intros r' Hr'. unfold put_reader. rewrite Er, Es. split; [exact F1| |done|exact Hq|done].
    cbn [reading_file set_reading fmap option_fmap option_map reading_state h_id h_pos disk].
    rewrite <- app_assoc. cbn [app]. split_and!; [|exact Hw|].
    + unfold content. cbn [fst snd]. rewrite Hb. exact Hr.
    + rewrite Hr', Hp. unfold records_bytes. rewrite fmap_app, concat_app, length_app. cbn. by rewrite app_nil_r.
Qed.

Lemma clear_entries_empty {K A : Type} `{Countable K} (rec : A → Z) rid (ks : list (K * Z)) :
  foldl (clear_entry rec rid) (∅ : gmap K (gmap Z A)) ks = ∅.
Proof using Type.
  induction ks as [|[t i] ks IH]; [done|]. cbn [foldl]. unfold clear_entry at 2. by rewrite lookup_empty.
Qed.

(** [Log::end_read] when the overlays are empty. *)
Lemma end_read_replaying J l Fs E2 P1 t Rs cl rid : replaying J l Fs E2 P1 t Rs →
  ∃ l', end_read cl rid l = (Ok tt, l') ∧ replaying J l' Fs E2 P1 t Rs ∧ disk l' = disk l ∧
    next_record_id l' = if next_record_id l <=? rid then wrap64 (rid + 1) else next_record_id l.
Proof.
  intros [F1 F2 [Hf Ha] Hq He]. unfold end_read. erewrite ST_bind_Ok by done. rewrite He. cbn [ov_index ov_value ov_last_record_id empty_overlays].
  rewrite !clear_entries_empty, map_filter_empty.
  destruct (next_record_id l <=? rid); (erewrite ST_bind_Ok by done); eexists; (split; [reflexivity|]); (split_and!; [|done|done]); by split.
Qed.

(** The file that is read has a byte for every record. *)
Lemma replaying_length J l Fs E2 P1 t Rs : replaying J l Fs E2 P1 t Rs →
  (length P1 ≤ match reading_file l with Some h => length (log_file l (h_id h)) | None => 0 end)%nat.
Proof.
  intros [_ F2 _ _ _]. destruct (reading_file l) as [h|]; [|by destruct F2 as (_ & -> & _)].
  destruct F2 as (-> & _). unfold content, records_bytes. cbn [fst snd]. rewrite fmap_app, concat_app, !length_app.
  enough (length P1 ≤ length (concat (record_bytes <$> P1)))%nat by lia.
  clear. induction P1 as [|c P1 IH]; [done|]. rewrite fmap_cons. cbn [concat length].
  rewrite length_app, length_record_bytes. lia.
Qed.

End Crash.
