(* ===== verification/Table.v ===== *)
(** * Value tables (src/src/table.rs)

    A value table is an array of fixed-size entries. Entry 0 holds the head of
    the free list and the number of slots in use; a value takes one entry, or a
    chain of entries in the table of the largest tier. All writes go to the log;
    [enact_plan] later copies them from the log to the file. Buffers declared
    with [new_uninit] have unspecified initial bytes, a parameter. *)

From S2P Require Import Prelude.
From S2P Require Import Bytes.
From S2P Require Import Ids.
From S2P Require Import File.
From S2P Require Import Log.
From stdpp Require Import options.
#[local] Set Default Proof Using "Type*".

(** ** Parameters and constants *)

(** The bytes a buffer of [n] bytes holds after [MaybeUninit::uninit()]. *)
Class Uninit := {
  uninit : nat → bytes;
  length_uninit : ∀ n, length (uninit n) = n;
}.

Definition COMPRESSED_MASK : Z := 0x8000.
Definition MAX_ENTRY_SIZE : Z := 0x7ff8.
Definition MIN_ENTRY_SIZE : Z := 32.
Definition REFS_SIZE : nat := 4.
Definition SIZE_SIZE : nat := 2.
Definition INDEX_SIZE : nat := 8.
Definition PARTIAL_SIZE : nat := 26.
Definition MAX_ENTRY_BUF_SIZE : nat := Z.to_nat 0x8000.

Definition TOMBSTONE : bytes := [xff; xff].
Definition MULTIPART_V4 : bytes := [xff; xfe].
Definition MULTIHEAD_V4 : bytes := [xff; xfd].
Definition MULTIPART : bytes := [xfe; xff].
Definition MULTIHEAD : bytes := [xfd; xff].
Definition MULTIHEAD_COMPRESSED : bytes := [xfd; x7f].
Definition LOCKED_REF : Z := U32_MAX.

(** ** [Entry]: a buffer and a cursor *)

Record Entry := MkEntry { e_offset : nat; e_data : bytes }.

Module Entry.

Definition new (data : bytes) : Entry := MkEntry 0 data.
Definition set_offset (o : nat) (e : Entry) : Entry := MkEntry o (e_data e).

Definition write_slice (buf : bytes) : ST Entry unit := fun e =>
  match splice (e_offset e) buf (e_data e) with
  | Ok d => (Ok tt, MkEntry (e_offset e + length buf) d)
  | _ => (Panic, e)
  end.

Definition read_slice (size : nat) : ST Entry bytes := fun e =>
  match slice (e_offset e) (e_offset e + size) (e_data e) with
  | Ok d => (Ok d, MkEntry (e_offset e + size) (e_data e))
  | _ => (Panic, e)
  end.

(** [&self.1.as_ref()[0..SIZE_SIZE] == marker], for buffers of 10 bytes or
    more. *)
Definition has_marker (marker : bytes) (e : Entry) : bool :=
  bool_decide (take SIZE_SIZE (e_data e) = marker).

Definition is_tombstone (e : Entry) : bool := has_marker TOMBSTONE e.
Definition write_tombstone : ST Entry unit := write_slice TOMBSTONE.
Definition is_multipart (e : Entry) : bool := has_marker MULTIPART e.
Definition is_multipart_v4 (e : Entry) : bool := has_marker MULTIPART_V4 e.
Definition write_multipart : ST Entry unit := write_slice MULTIPART.
Definition is_multihead_compressed (e : Entry) : bool := has_marker MULTIHEAD_COMPRESSED e.
Definition is_multihead (e : Entry) : bool :=
  is_multihead_compressed e || has_marker MULTIHEAD e.
Definition is_multihead_v4 (e : Entry) : bool := has_marker MULTIHEAD_V4 e.
Definition write_multihead : ST Entry unit := write_slice MULTIHEAD.
Definition write_multihead_compressed : ST Entry unit := write_slice MULTIHEAD_COMPRESSED.
Definition is_multi (db_version : Z) (e : Entry) : bool :=
  is_multipart e || is_multihead e ||
  ((db_version <=? 4) && (is_multipart_v4 e || is_multihead_v4 e)).

Definition read_size : ST Entry (Z * bool) :=
  b ← read_slice SIZE_SIZE;
  let size := le_decode b in
  let compressed := Z.land size COMPRESSED_MASK >? 0 in
  mret (Z.ldiff size COMPRESSED_MASK, compressed).
Definition skip_size : ST Entry unit :=
  modify_st (fun e => MkEntry (e_offset e + SIZE_SIZE) (e_data e)).
Definition write_size (size : Z) (compressed : bool) : ST Entry unit :=
  write_slice (le_encode 2 (if compressed then Z.lor size COMPRESSED_MASK else size)).

Definition read_u64 : ST Entry Z := b ← read_slice 8; mret (le_decode b).
Definition read_next : ST Entry Z := read_u64.
Definition skip_u64 : ST Entry unit := modify_st (fun e => MkEntry (e_offset e + 8) (e_data e)).
Definition skip_next : ST Entry unit := skip_u64.
Definition write_u64 (next_index : Z) : ST Entry unit := write_slice (le_encode 8 next_index).
Definition write_next (next_index : Z) : ST Entry unit := write_u64 next_index.
Definition read_u32 : ST Entry Z := b ← read_slice REFS_SIZE; mret (le_decode b).
Definition write_u32 (next_index : Z) : ST Entry unit := write_slice (le_encode 4 next_index).
Definition read_rc : ST Entry Z := read_u32.
Definition write_rc (rc : Z) : ST Entry unit := write_slice (le_encode 4 rc).
Definition read_partial : ST Entry bytes := read_slice PARTIAL_SIZE.
Definition remaining_to (e_end : nat) (e : Entry) : outcome bytes :=
  slice (e_offset e) e_end (e_data e).

End Entry.

(** ** [TableKey] and [TableKeyQuery] *)

Inductive TableKey :=
| Partial (k : Key)
| NoHash.

(** [key::partial_key]: the last 26 bytes of the hash. *)
Definition partial_key (hash : Key) : bytes := drop 6 hash.

(** [Fetch] carries the current content of the array the key is fetched into,
    if the caller gave one. *)
Inductive TableKeyQuery :=
| Check_ (k : TableKey)
| Fetch (slot : option bytes).

Module TableKey.

Definition encoded_size (k : TableKey) : nat :=
  match k with Partial _ => PARTIAL_SIZE | NoHash => 0 end.

(** [index_from_partial]: the first 8 bytes, big endian. *)
Definition index_from_partial (partial : bytes) : Z := be_decode (take 8 partial).

Definition index (k : TableKey) : option Z :=
  match k with Partial k => Some (index_from_partial k) | NoHash => None end.

Definition compare (k : TableKey) (fetch : option bytes) : bool :=
  match k, fetch with
  | Partial k, Some f => bool_decide (partial_key k = f)
  | NoHash, _ => true
  | _, _ => false
  end.

Definition fetch_partial : ST Entry bytes :=
  e ← get_st;
  if (PARTIAL_SIZE <=? length (e_data e))%nat then Entry.read_partial
  else lift_st (Err InvalidValueData).

Definition fetch (k : TableKey) : ST Entry (option bytes) :=
  match k with
  | Partial _ => f ← fetch_partial; mret (Some f)
  | NoHash => mret None
  end.

Definition write (k : TableKey) : ST Entry unit :=
  match k with
  | Partial k => Entry.write_slice (partial_key k)
  | NoHash => mret tt
  end.

End TableKey.

(** ** [Header]: entry 0 *)

Module Header.
Definition last_removed (h : bytes) : Z := le_decode (take INDEX_SIZE h).
Definition filled (h : bytes) : Z := le_decode (take INDEX_SIZE (drop INDEX_SIZE h)).
(** [set_last_removed] and [set_filled] on [Header::default()]. *)
Definition make (last_removed filled : Z) : bytes :=
  le_encode INDEX_SIZE last_removed ++ le_encode INDEX_SIZE filled.
End Header.

(** ** [ValueTable] *)

Record ValueTable := MkValueTable {
  vt_id : ValueTableId;
  entry_size : Z;
  vt_file : TableFile;
  filled : Z;
  last_removed : Z;
  dirty_header : bool;
  multipart : bool;
  ref_counted : bool;
  db_version : Z;
}.

Definition set_vt_file (f : TableFile) (t : ValueTable) : ValueTable :=
  MkValueTable (vt_id t) (entry_size t) f (filled t) (last_removed t) (dirty_header t)
    (multipart t) (ref_counted t) (db_version t).
Definition set_filled (n : Z) (t : ValueTable) : ValueTable :=
  MkValueTable (vt_id t) (entry_size t) (vt_file t) n (last_removed t) (dirty_header t)
    (multipart t) (ref_counted t) (db_version t).
Definition set_last_removed (n : Z) (t : ValueTable) : ValueTable :=
  MkValueTable (vt_id t) (entry_size t) (vt_file t) (filled t) n (dirty_header t)
    (multipart t) (ref_counted t) (db_version t).
Definition set_dirty_header (b : bool) (t : ValueTable) : ValueTable :=
  MkValueTable (vt_id t) (entry_size t) (vt_file t) (filled t) (last_removed t) b
    (multipart t) (ref_counted t) (db_version t).

(** [ValueTable::ref_size]. *)
Definition ref_size (t : ValueTable) : nat := if ref_counted t then REFS_SIZE else 0.

(** The state of code that has the table and [log: &mut LogWriter]. *)
Definition TW : Type := ValueTable * LogWriter.
Definition on_table (f : ValueTable → ValueTable) : ST TW unit :=
  fun '(t, w) => (Ok tt, (f t, w)).
Definition on_writer (f : LogWriter → LogWriter) : ST TW unit :=
  fun '(t, w) => (Ok tt, (t, f w)).
Definition reading {A} (f : ValueTable → LogWriter → outcome A) : ST TW A :=
  fun '(t, w) => (f t w, (t, w)).

Section ValueTable.
Context `{!Uninit}.

(** [ValueTable::open]: [existing] is the content of the table's file. *)
Definition open (existing : option bytes) (id : ValueTableId) (entry_size : option Z)
    (ref_counted : bool) (db_version : Z) : outcome ValueTable :=
  let '(multipart, entry_size) :=
    match entry_size with Some s => (false, s) | None => (true, 4096) end in
  _ ← rust_assert (MIN_ENTRY_SIZE <=? entry_size);
  _ ← rust_assert (if 4 <=? db_version then entry_size <=? MAX_ENTRY_SIZE else true);
  let f := TableFile.open existing entry_size id in
  '(filled, last_removed) ←
    match file f with
    | Some bs =>
        h ← read_exact_at 16 0 bs;
        let filled := Header.filled h in
        Ok (if filled =? 0 then 1 else filled, Header.last_removed h)
    | None => Ok (1, 0)
    end;
  Ok (MkValueTable id entry_size f filled last_removed false multipart ref_counted db_version).

(** [ValueTable::value_size]. *)
Definition value_size (t : ValueTable) (key : TableKey) : option Z :=
  let base := wrap16 (entry_size t - Z.of_nat SIZE_SIZE - Z.of_nat (ref_size t)) in
  let k_encoded := Z.of_nat (TableKey.encoded_size key) in
  if base <? k_encoded then None else Some (base - k_encoded).

(** Filling a buffer with entry [index]: from the log, else [n] bytes from the
    file. *)
Definition read_slot {L} `{LogQuery L} (t : ValueTable) (log : L) (n : nat) (index : Z)
    (buf : bytes) : outcome bytes :=
  let '(found, buf) := value log (vt_id t) index buf in
  if found then Ok buf
  else
    b ← TableFile.read_at (vt_file t) n (wrap64 (index * entry_size t));
    Ok (b ++ drop n buf).

(** Running cursor operations on a buffer. *)
Definition run_entry {A} (m : ST Entry A) (e : Entry) : outcome (A * Entry) :=
  let '(r, e') := m e in a ← r; Ok (a, e').

(** One iteration of the loop of [for_parts] after the buffer was filled:
    the reference counter, the key query, the compression flag, the payload of
    this part and the index of the next part. [None] is the early return
    [Ok((0, false))]. *)
Definition part_header (t : ValueTable) (part : nat) (compressed : bool) (buf : Entry)
    : outcome (nat * Z * bool * Entry) :=
  if multipart t && Entry.is_multi (db_version t) buf then
    let compressed :=
      if (part =? 0)%nat && (6 <? db_version t) && Entry.is_multihead_compressed buf
      then true else compressed in
    '(next, buf) ← run_entry (_ ← Entry.skip_size; Entry.read_next) buf;
    Ok (Z.to_nat (entry_size t), next, compressed, buf)
  else
    '((size, read_compressed), buf) ← run_entry Entry.read_size buf;
    let compressed :=
      if (part =? 0)%nat || (db_version t <=? 6) then read_compressed else compressed in
    Ok ((e_offset buf + Z.to_nat size)%nat, 0, compressed, buf).

Definition part_key (t : ValueTable) (part : nat) (rc : Z) (key : TableKeyQuery) (buf : Entry)
    : outcome (option (Z * TableKeyQuery * Entry)) :=
  if (part =? 0)%nat then
    '(rc, buf) ← (if ref_counted t then run_entry Entry.read_rc buf else Ok (rc, buf));
    match key with
    | Fetch (Some _) =>
        '(k, buf) ← run_entry TableKey.fetch_partial buf;
        Ok (Some (rc, Fetch (Some k), buf))
    | Fetch None => Ok (Some (rc, key, buf))
    | Check_ k =>
        '(f, buf) ← run_entry (TableKey.fetch k) buf;
        if TableKey.compare k f then Ok (Some (rc, key, buf)) else Ok None
    end
  else Ok (Some (rc, key, buf)).

(** The loop of [ValueTable::for_parts]; [f] is the closure with its captured
    state. *)
Fixpoint for_parts_loop {L A} `{LogQuery L} (fuel : nat) (t : ValueTable) (log : L)
    (f : A → bytes → A * bool) (buf : bytes) (part : nat) (compressed : bool) (rc : Z)
    (key : TableKeyQuery) (index : Z) (acc : A)
    : outcome (Z * bool * TableKeyQuery * A) :=
  match fuel with
  | O => NoFuel
  | S fuel' =>
      buf ← read_slot t log (Z.to_nat (entry_size t)) index buf;
      let e := Entry.new buf in
      if Entry.is_tombstone e then Ok (0, false, key, acc)
      else
        '(entry_end, next, compressed, e) ← part_header t part compressed e;
        k ← part_key t part rc key e;
        match k with
        | None => Ok (0, false, key, acc)
        | Some (rc, key, e) =>
            payload ← Entry.remaining_to entry_end e;
            let '(acc, continue) := f acc payload in
            if negb continue then Ok (rc, compressed, key, acc)
            else if next =? 0 then Ok (rc, compressed, key, acc)
            else for_parts_loop fuel' t log f (e_data e) (S part) compressed rc key next acc
        end
  end.

(** A chain of distinct entries has fewer parts than the table has slots. *)
Definition parts_fuel (t : ValueTable) : nat := S (Z.to_nat (filled t)).

(** [ValueTable::for_parts]. *)
Definition for_parts {L A} `{LogQuery L} (t : ValueTable) (key : TableKeyQuery) (index : Z)
    (log : L) (f : A → bytes → A * bool) (acc : A) : outcome (Z * bool * TableKeyQuery * A) :=
  for_parts_loop (parts_fuel t) t log f (uninit MAX_ENTRY_BUF_SIZE) 0 false 1 key index acc.

(** [ValueTable::query]: value, compression flag, reference counter, and the
    key slot of the query. *)
Definition query {L} `{LogQuery L} (t : ValueTable) (key : TableKeyQuery) (index : Z) (log : L)
    : outcome (option (bytes * bool * Z) * TableKeyQuery) :=
  '(rc, compressed, key, result) ←
    for_parts t key index log (fun acc buf => (acc ++ buf, true)) [];
  Ok (if rc >? 0 then Some (result, compressed, rc) else None, key).

(** [ValueTable::get]. *)
Definition get {L} `{LogQuery L} (t : ValueTable) (key : TableKey) (index : Z) (log : L)
    : outcome (option (bytes * bool)) :=
  '(r, _) ← query t (Check_ key) index log;
  Ok (match r with Some (v, compressed, _) => Some (v, compressed) | None => None end).

(** [ValueTable::get_with_meta]. *)
Definition get_with_meta {L} `{LogQuery L} (t : ValueTable) (index : Z) (log : L)
    : outcome (option (bytes * Z * bytes * bool)) :=
  '(r, k) ← query t (Fetch (Some (replicate PARTIAL_SIZE x00))) index log;
  Ok (match r, k with
      | Some (v, compressed, rc), Fetch (Some pk) => Some (v, rc, pk, compressed)
      | _, _ => None
      end).

(** [ValueTable::size]. *)
Definition size {L} `{LogQuery L} (t : ValueTable) (key : TableKey) (index : Z) (log : L)
    : outcome (option (Z * bool)) :=
  '(rc, compressed, _, result) ←
    for_parts t (Check_ key) index log
      (fun acc buf => (wrap32 (acc + wrap32 (Z.of_nat (length buf))), true)) 0;
  Ok (if rc >? 0 then Some (result, compressed) else None).

(** [ValueTable::partial_key_at]. *)
Definition partial_key_at {L} `{LogQuery L} (t : ValueTable) (index : Z) (log : L)
    : outcome (option bytes) :=
  '(rc, _, key, _) ←
    for_parts t (Fetch (Some (replicate PARTIAL_SIZE x00))) index log
      (fun (acc : unit) _ => (acc, false)) tt;
  Ok (if rc =? 0 then None else match key with Fetch s => s | Check_ _ => None end).

(** [ValueTable::is_tombstone], with a 40-byte buffer. *)
Definition is_tombstone {L} `{LogQuery L} (t : ValueTable) (index : Z) (log : L)
    : outcome bool :=
  buf ← read_slot t log 40 index (uninit 40);
  Ok (Entry.is_tombstone (Entry.new buf)).

(** [ValueTable::has_key_at]. *)
Definition has_key_at (t : ValueTable) (index : Z) (key : TableKey) (log : LogWriter)
    : outcome bool :=
  match key with
  | Partial k =>
      e ← partial_key_at t index log;
      Ok (match e with Some existing => bool_decide (existing = partial_key k) | None => false end)
  | NoHash => b ← is_tombstone t index log; Ok (negb b)
  end.

(** [ValueTable::read_next_free], with a 10-byte buffer. *)
Definition read_next_free {L} `{LogQuery L} (t : ValueTable) (index : Z) (log : L) : outcome Z :=
  buf ← read_slot t log 10 index (uninit 10);
  '(next, _) ← run_entry (_ ← Entry.skip_size; Entry.read_next) (Entry.new buf);
  Ok next.

(** [ValueTable::read_next_part]. *)
Definition read_next_part {L} `{LogQuery L} (t : ValueTable) (index : Z) (log : L)
    : outcome (option Z) :=
  buf ← read_slot t log 10 index (uninit 10);
  let e := Entry.new buf in
  if multipart t && Entry.is_multi (db_version t) e then
    '(next, _) ← run_entry (_ ← Entry.skip_size; Entry.read_next) e;
    Ok (Some next)
  else Ok None.

(** [ValueTable::next_free]. *)
Definition next_free : ST TW Z :=
  '(t, _) ← get_st;
  index ←
    (if negb (last_removed t =? 0) then
       next_removed ← reading (fun t w => read_next_free t (last_removed t) w);
       _ ← on_table (set_last_removed next_removed);
       mret (last_removed t)
     else
       _ ← on_table (set_filled (wrap64 (filled t + 1)));
       mret (filled t));
  _ ← on_table (set_dirty_header true);
  mret index.

(** [ValueTable::clear_slot]. *)
Definition clear_slot (index : Z) : ST TW unit :=
  '(t, _) ← get_st;
  '(_, buf) ← lift_st (run_entry (_ ← Entry.write_tombstone; Entry.write_next (last_removed t))
                         (Entry.new (uninit 10)));
  _ ← on_writer (LogWriter.insert_value (vt_id t) index (take (e_offset buf) (e_data buf)));
  _ ← on_table (set_last_removed index);
  on_table (set_dirty_header true).

(** [ValueTable::clear_chain]. *)
Fixpoint clear_chain_loop (fuel : nat) (index : Z) : ST TW unit :=
  match fuel with
  | O => lift_st NoFuel
  | S fuel' =>
      n ← reading (fun t w => read_next_part t index w);
      match n with
      | Some next => _ ← clear_slot index; clear_chain_loop fuel' next
      | None => clear_slot index
      end
  end.
Definition clear_chain (index : Z) : ST TW unit :=
  '(t, _) ← get_st; clear_chain_loop (parts_fuel t) index.

(** Serialising one part: the marker and the link or the size, then the
    reference counter and the key in the first part, then the payload
    [value[offset..offset + value_len - written]]. Returns the entry and the
    number of value bytes consumed. *)
Definition write_part (t : ValueTable) (key : TableKey) (val : bytes) (compressed : bool)
    (start : Z) (next_index : Z) (remainder offset value_len : nat) (more : bool)
    : ST Entry nat :=
  _ ← (if more then
         _ ← (if start =? 0 then
                if compressed then Entry.write_multihead_compressed else Entry.write_multihead
              else Entry.write_multipart);
         Entry.write_next next_index
       else Entry.write_size (wrap16 (Z.of_nat remainder)) compressed);
  init_offset ← gets_st e_offset;
  _ ← (if (offset =? 0)%nat then
         _ ← (if ref_counted t then Entry.write_rc 1 else mret tt);
         TableKey.write key
       else mret tt);
  end_offset ← gets_st e_offset;
  let written := (end_offset - init_offset)%nat in
  chunk ← lift_st (slice offset (offset + value_len - written) val);
  _ ← Entry.write_slice chunk;
  mret (value_len - written)%nat.

(** The loop of [ValueTable::overwrite_chain]. *)
Fixpoint overwrite_loop (fuel : nat) (key : TableKey) (val : bytes) (compressed : bool)
    (remainder offset : nat) (start index : Z) (follow : bool) : ST TW Z :=
  match fuel with
  | O => lift_st NoFuel
  | S fuel' =>
      n ← (if follow then reading (fun t w => read_next_part t index w) else mret None);
      let follow := match n with Some _ => true | None => false end in
      let next_index := default 0 n in
      '(t, _) ← get_st;
      let free_space := (Z.to_nat (entry_size t) - SIZE_SIZE)%nat in
      let more := (free_space <? remainder)%nat in
      next_index ← (if more && negb follow then next_free else mret next_index);
      let value_len := if more then (free_space - INDEX_SIZE)%nat else remainder in
      '(used, buf) ← lift_st (run_entry
        (write_part t key val compressed start next_index remainder offset value_len more)
        (Entry.new (uninit MAX_ENTRY_BUF_SIZE)));
      _ ← on_writer (LogWriter.insert_value (vt_id t) index (take (e_offset buf) (e_data buf)));
      let offset := (offset + used)%nat in
      let remainder := (remainder - value_len)%nat in
      let start := if start =? 0 then index else start in
      if (remainder =? 0)%nat then
        _ ← (if negb (next_index =? 0) then clear_chain next_index else mret tt);
        mret start
      else overwrite_loop fuel' key val compressed remainder offset start next_index follow
  end.

(** [ValueTable::overwrite_chain]. Each iteration but the last consumes at
    least one byte of the remainder. *)
Definition overwrite_chain (key : TableKey) (val : bytes) (at_ : option Z) (compressed : bool)
    : ST TW Z :=
  '(t, _) ← get_st;
  let remainder := (length val + ref_size t + TableKey.encoded_size key)%nat in
  _ ← lift_st (if multipart t then Ok tt
               else s ← unwrap (value_size t key);
                    rust_assert (Z.of_nat (length val) <=? s));
  '(index, follow) ← (match at_ with
                      | Some index => mret (index, true)
                      | None => i ← next_free; mret (i, false)
                      end);
  overwrite_loop (S remainder) key val compressed remainder 0 0 index follow.

(** [ValueTable::write_insert_plan]. *)
Definition write_insert_plan (key : TableKey) (val : bytes) (compressed : bool) : ST TW Z :=
  overwrite_chain key val None compressed.

(** [ValueTable::write_replace_plan]. *)
Definition write_replace_plan (index : Z) (key : TableKey) (val : bytes) (compressed : bool)
    : ST TW unit :=
  _ ← overwrite_chain key val (Some index) compressed; mret tt.

(** [ValueTable::write_remove_plan]. *)
Definition write_remove_plan (index : Z) : ST TW unit :=
  '(t, _) ← get_st;
  if multipart t then clear_chain index else clear_slot index.

(** The new counter of [change_ref]: [None] when it reaches zero. *)
Definition changed_counter (counter delta : Z) : option Z :=
  if delta >? 0 then
    Some (if wrap32 (LOCKED_REF - delta) <=? counter then LOCKED_REF else counter + delta)
  else if negb (counter =? LOCKED_REF) then
    let counter := Z.max 0 (counter - - delta) in
    if counter =? 0 then None else Some counter
  else Some counter.

(** [ValueTable::change_ref]. *)
Definition change_ref (index delta : Z) : ST TW bool :=
  '(t, _) ← get_st;
  buf ← reading (fun t w => read_slot t w (Z.to_nat (entry_size t)) index
                              (uninit MAX_ENTRY_BUF_SIZE));
  let e := Entry.new buf in
  if Entry.is_tombstone e then mret false
  else
    '(size, e) ← lift_st
      (if multipart t && Entry.is_multi (db_version t) e then
         '(_, e) ← run_entry (_ ← Entry.skip_size; Entry.skip_next) e;
         Ok (Z.to_nat (entry_size t), e)
       else
         '((size, _), e) ← run_entry Entry.read_size e;
         Ok ((e_offset e + Z.to_nat size)%nat, e));
    let rc_offset := e_offset e in
    '(counter, e) ← lift_st (run_entry Entry.read_rc e);
    match changed_counter counter delta with
    | None => mret false
    | Some counter =>
        '(_, e) ← lift_st (run_entry (Entry.write_rc counter) (Entry.set_offset rc_offset e));
        data ← lift_st (slice 0 size (e_data e));
        _ ← on_writer (LogWriter.insert_value (vt_id t) index data);
        mret true
    end.

(** [ValueTable::write_inc_ref]. *)
Definition write_inc_ref (index : Z) : ST TW unit := _ ← change_ref index 1; mret tt.

(** [ValueTable::write_dec_ref]. *)
Definition write_dec_ref (index : Z) : ST TW bool :=
  r ← change_ref index (-1);
  if (r : bool) then mret true else _ ← write_remove_plan index; mret false.

(** [ValueTable::complete_plan]. *)
Definition complete_plan : ST TW unit :=
  '(t, _) ← get_st;
  if dirty_header t then
    _ ← on_table (set_dirty_header false);
    on_writer (LogWriter.insert_value (vt_id t) 0 (Header.make (last_removed t) (filled t)))
  else mret tt.

(** *** Enacting and validating a logged entry *)

(** The state of code that has the table and [log: &mut LogReader]. *)
Definition TR : Type := ValueTable * LogReader.
Definition from_log (n : nat) : ST TR bytes :=
  fun '(t, r) => let '(o, r') := LogReader.read n r in (o, (t, r')).
Definition on_file {A} (m : ST TableFile A) : ST TR A :=
  fun '(t, r) => let '(o, f) := m (vt_file t) in (o, (set_vt_file f t, r)).

(** [while index >= capacity { grow }]: the capacity grows by one or more
    entries each time. *)
Fixpoint grow_to (fuel : nat) (index : Z) : ST TR unit :=
  match fuel with
  | O => lift_st NoFuel
  | S fuel' =>
      '(t, _) ← get_st;
      if capacity (vt_file t) <=? index then
        _ ← on_file (TableFile.grow (entry_size t)); grow_to fuel' index
      else mret tt
  end.

(** The bytes of one logged entry, as [enact_plan] and [validate_plan] read
    them: header, tombstone, multipart or sized entry. *)
Definition read_logged (index : Z) : ST TR bytes :=
  '(t, _) ← get_st;
  if index =? 0 then from_log 16
  else
    head ← from_log SIZE_SIZE;
    let e := Entry.new head in
    if Entry.is_tombstone e then
      rest ← from_log INDEX_SIZE; mret (head ++ rest)
    else if multipart t && Entry.is_multi (db_version t) e then
      rest ← from_log (Z.to_nat (entry_size t) - SIZE_SIZE); mret (head ++ rest)
    else
      '((len, _), _) ← lift_st (run_entry Entry.read_size e);
      _ ← lift_st (rust_assert (SIZE_SIZE + Z.to_nat len <=? MAX_ENTRY_BUF_SIZE)%nat);
      rest ← from_log (Z.to_nat len); mret (head ++ rest).

(** [ValueTable::enact_plan]. *)
Definition enact_plan (index : Z) : ST TR unit :=
  '(t, _) ← get_st;
  _ ← grow_to (S (S (Z.to_nat index))) index;
  entry ← read_logged index;
  on_file (TableFile.write_at entry (if index =? 0 then 0 else wrap64 (index * entry_size t))).

(** [ValueTable::validate_plan]. *)
Definition validate_plan (index : Z) : ST TR unit := _ ← read_logged index; mret tt.

(** [ValueTable::refresh_metadata]. *)
Definition refresh_metadata : ST ValueTable unit := fun t =>
  match file (vt_file t) with
  | None => (Ok tt, t)
  | Some _ =>
      match TableFile.read_at (vt_file t) 16 0 with
      | Ok h =>
          let f := Header.filled h in
          (Ok tt, set_filled (if f =? 0 then 1 else f)
                    (set_last_removed (Header.last_removed h) t))
      | Err e => (Err e, t)
      | _ => (Panic, t)
      end
  end.

(** [ValueTable::flush]. *)
Definition flush : ST ValueTable unit := fun t =>
  let '(r, f) := TableFile.flush (vt_file t) in (r, set_vt_file f t).

(** [ValueTable::is_init]. *)
Definition is_init (t : ValueTable) : bool :=
  match file (vt_file t) with Some _ => true | None => false end.

(** Running code that has a log writer on the table alone. *)
Definition with_writer {A} (w : LogWriter) (m : ST TW A) : ST ValueTable (A * LogWriter) :=
  fun t => let '(o, (t', w')) := m (t, w) in (a ← o; Ok (a, w'), t').
Definition on_vt_file {A} (m : ST TableFile A) : ST ValueTable A :=
  zoom vt_file set_vt_file m.

(** The loop of [ValueTable::init_with_entry] over the logged entries. *)
Fixpoint write_entries (l : list (Z * (Z * bytes))) : ST ValueTable unit :=
  match l with
  | [] => mret tt
  | (at_, (_, entry)) :: l =>
      t ← get_st;
      _ ← on_vt_file (TableFile.write_at entry (wrap64 (at_ * entry_size t)));
      write_entries l
  end.

(** [ValueTable::init_with_entry]. *)
Definition init_with_entry `{!HashMapOrder} (entry : bytes) : ST ValueTable unit :=
  t ← get_st;
  _ ← on_vt_file (TableFile.grow (entry_size t));
  '(at_, log) ← with_writer (LogWriter.new empty_overlays 0)
    (at_ ← overwrite_chain NoHash entry None false; _ ← complete_plan; mret at_);
  _ ← lift_st (rust_assert (at_ =? 1));
  change ← lift_st (unwrap (local_values_changes (LogWriter.drain log) (vt_id t)));
  write_entries (iter change).

(** The loop of [ValueTable::iter_while] over the slots [index..]; the state is
    what the callback captures. *)
Fixpoint iter_slots {L A} `{LogQuery L} (n : nat) (t : ValueTable) (log : L)
    (f : A → Z → Z → bytes → bool → A * bool) (index : Z) : ST A unit := fun acc =>
  match n with
  | O => (Ok tt, acc)
  | S n' =>
      match for_parts t (Fetch (Some (replicate PARTIAL_SIZE x00))) index log
              (fun r buf => (r ++ buf, true)) [] with
      | Ok (rc, compressed, _, result) =>
          if rc >? 0 then
            let '(acc, continue) := f acc index rc result compressed in
            if continue then iter_slots n' t log f (index + 1) acc else (Ok tt, acc)
          else iter_slots n' t log f (index + 1) acc
      | Err InvalidValueData => iter_slots n' t log f (index + 1) acc
      | Err e => (Err e, acc)
      | Panic => (Panic, acc)
      | Undefined => (Undefined, acc)
      | Deadlock => (Deadlock, acc)
      | NoFuel => (NoFuel, acc)
      end
  end.

(** [ValueTable::iter_while]. *)
Definition iter_while {L A} `{LogQuery L} (t : ValueTable) (log : L)
    (f : A → Z → Z → bytes → bool → A * bool) : ST A unit :=
  iter_slots (Z.to_nat (filled t - 1)) t log f 1.

End ValueTable.
