(* ===== verification/TableSpec.v ===== *)
(** * What a value table holds (specification of src/src/table.rs)

    The bytes of a table, seen through a log, are read as slots: tombstones,
    parts of a chain, last parts. [repr] says that the slots in use are exactly
    a free list and disjoint chains, each chain spelling one stored value; the
    operations of [ValueTable] are proved to act on that abstract content. *)

From S2P Require Import Prelude.
From S2P Require Import Bytes.
From S2P Require Import Ids.
From S2P Require Import File.
From S2P Require Import Log.
From S2P Require Import Table.
From stdpp Require Import options.
#[local] Set Default Proof Using "Type*".

(** ** Slots *)

Inductive Slot :=
| Tomb (next : Z)
| Multi (marker : bytes) (next : Z) (payload : bytes)
| Sized (compressed : bool) (payload : bytes).

(** The on-disk layout described at the top of src/src/table.rs. *)
Definition size_word (compressed : bool) (n : nat) : Z :=
  if compressed then Z.lor (Z.of_nat n) COMPRESSED_MASK else Z.of_nat n.

Definition encode_slot (s : Slot) : bytes :=
  match s with
  | Tomb next => TOMBSTONE ++ le_encode 8 next
  | Multi m next p => m ++ le_encode 8 next ++ p
  | Sized c p => le_encode 2 (size_word c (length p)) ++ p
  end.

Definition esz (t : ValueTable) : nat := Z.to_nat (entry_size t).

(** What [open] establishes and no operation changes. *)
Record table_wf (t : ValueTable) : Prop := {
  wf_size : MIN_ENTRY_SIZE ≤ entry_size t ≤ MAX_ENTRY_SIZE;
  wf_multipart : multipart t = true → entry_size t = 4096;
}.

Definition slot_wf (t : ValueTable) (s : Slot) : Prop :=
  match s with
  | Tomb next => is_u64 next
  | Multi m next p =>
      multipart t = true ∧ (m = MULTIPART ∨ m = MULTIHEAD ∨ m = MULTIHEAD_COMPRESSED) ∧
      is_u64 next ∧ (10 + length p = esz t)%nat
  | Sized _ p => (2 + length p ≤ esz t)%nat
  end.

Section Slots.
Context {L} `{LogView L}.

(** The bytes of slot [i]: the logged entry, else the file. *)
Definition slot_bytes (t : ValueTable) (log : L) (i : Z) : option bytes :=
  match value_view log (vt_id t) i with
  | Some d => Some d
  | None =>
      match TableFile.read_at (vt_file t) (esz t) (wrap64 (i * entry_size t)) with
      | Ok b => Some b
      | _ => None
      end
  end.

Definition slot_is (t : ValueTable) (log : L) (i : Z) (s : Slot) : Prop :=
  slot_wf t s ∧ ∃ rest, slot_bytes t log i = Some (encode_slot s ++ rest).

(** ** Chains and the free list *)

Definition part_marker (first compressed : bool) : bytes :=
  if first then if compressed then MULTIHEAD_COMPRESSED else MULTIHEAD else MULTIPART.

Fixpoint chain_at (t : ValueTable) (log : L) (c first : bool) (idxs : list Z) (payload : bytes)
    : Prop :=
  match idxs with
  | [] => False
  | [i] => slot_is t log i (Sized c payload)
  | i :: (j :: _) as rest =>
      slot_is t log i (Multi (part_marker first c) j (take (esz t - 10) payload)) ∧
      (esz t - 2 < length payload)%nat ∧ 1 ≤ j ∧
      chain_at t log c false rest (drop (esz t - 10) payload)
  end.

Lemma chain_at_cons t log c first i j rest p :
  chain_at t log c first (i :: j :: rest) p ↔
  slot_is t log i (Multi (part_marker first c) j (take (esz t - 10) p)) ∧
  (esz t - 2 < length p)%nat ∧ 1 ≤ j ∧
  chain_at t log c false (j :: rest) (drop (esz t - 10) p).
Proof. reflexivity. Qed.

Fixpoint free_at (t : ValueTable) (log : L) (head : Z) (l : list Z) : Prop :=
  match l with
  | [] => head = 0
  | i :: l' => head = i ∧ 1 ≤ i ∧ ∃ next, slot_is t log i (Tomb next) ∧ free_at t log next l'
  end.

End Slots.

(** A stored value: reference counter, the key bytes kept with it, the value
    and its compression flag. *)
Record Stored := MkStored {
  s_rc : Z;
  s_key : bytes;
  s_value : bytes;
  s_compressed : bool;
}.

Definition key_bytes (k : TableKey) : bytes :=
  match k with Partial k => partial_key k | NoHash => [] end.

Definition rc_bytes (t : ValueTable) (rc : Z) : bytes :=
  if ref_counted t then le_encode 4 rc else [].

Definition payload (t : ValueTable) (s : Stored) : bytes :=
  rc_bytes t (s_rc s) ++ s_key s ++ s_value s.

Record stored_wf (t : ValueTable) (s : Stored) : Prop := {
  wf_rc : 0 < s_rc s < 2 ^ 32;
  wf_rc1 : ref_counted t = false → s_rc s = 1;
  wf_key : length (s_key s) = 0%nat ∨ length (s_key s) = PARTIAL_SIZE;
}.

(** The abstract content of a table: the free list and the stored values with
    the slots they take. Every slot below [filled] is in exactly one of them. *)
Record repr {L} `{LogView L} (t : ValueTable) (log : L) (free : list Z)
    (vals : list (list Z * Stored)) : Prop := {
  r_wf : table_wf t;
  r_filled : 1 ≤ filled t ≤ 2 ^ 48;
  r_slots : free ++ concat (fst <$> vals) ≡ₚ seqZ 1 (filled t - 1);
  r_free : free_at t log (last_removed t) free;
  r_vals : Forall (fun '(idxs, s) =>
    stored_wf t s ∧ chain_at t log (s_compressed s) true idxs (payload t s)) vals;
}.

(** ** Encodings *)

Lemma prefix_take {A} (n : nat) (a b : list A) : (n ≤ length a)%nat → take n (a ++ b) = take n a.
Proof. intros. by rewrite take_app_le. Qed.

Lemma size_word_range c n : Z.of_nat n < 0x8000 → 0 ≤ size_word c n < 2 ^ 16.
Proof.
  intros. unfold size_word, COMPRESSED_MASK. destruct c; [|lia].
  rewrite Z.lor_comm. change 0x8000 with (Z.shiftl 1 15).
  rewrite lor_shiftl_add by lia. lia.
Qed.

Lemma size_word_size c n : Z.of_nat n < 0x8000 →
  Z.ldiff (size_word c n) COMPRESSED_MASK = Z.of_nat n ∧
  (Z.land (size_word c n) COMPRESSED_MASK >? 0) = c.
Proof.
  intros Hn. unfold size_word, COMPRESSED_MASK. change 0x8000 with (2 ^ 15).
  assert (Hz : Z.land (Z.of_nat n) (2 ^ 15) = 0).
  { apply Z.bits_inj'. intros i Hi. rewrite Z.land_spec, Z.bits_0, Z.pow2_bits_eqb by lia.
    destruct (Z.eqb_spec 15 i) as [<-|]; [|by rewrite andb_false_r].
    rewrite <- (Z.mod_small (Z.of_nat n) (2 ^ 15)), Z.mod_pow2_bits_high by lia. done. }
  assert (Hd : Z.ldiff (Z.of_nat n) (2 ^ 15) = Z.of_nat n).
  { rewrite Z.ldiff_land. apply Z.bits_inj'. intros i Hi.
    rewrite Z.land_spec, Z.lnot_spec by lia.
    apply (f_equal (fun z => Z.testbit z i)) in Hz.
    rewrite Z.land_spec, Z.bits_0 in Hz.
    destruct (Z.testbit (Z.of_nat n) i), (Z.testbit (2 ^ 15) i); simpl in *; congruence. }
  destruct c.
  - split.
    + rewrite <- Hd at 2. apply Z.bits_inj'. intros i Hi.
      rewrite !Z.ldiff_spec, Z.lor_spec.
      destruct (Z.testbit (Z.of_nat n) i), (Z.testbit (2 ^ 15) i); done.
    + rewrite Z.land_lor_distr_l, Hz, Z.lor_0_l. done.
  - rewrite Hz. done.
Qed.

Lemma le_encode_2 z : le_encode 2 z = [byte_of z; byte_of (z / 2 ^ 8)].
Proof. done. Qed.

(** The two leading bytes of a sized entry never spell a marker: the size a
    marker would decode to is larger than any entry. *)
Lemma size_word_neq c n m : Z.of_nat n < Z.ldiff (le_decode m) COMPRESSED_MASK →
  Z.of_nat n < 0x8000 → le_encode 2 (size_word c n) ≠ m.
Proof.
  intros Hm Hn <-.
  pose proof (size_word_size c n Hn) as [Hs _].
  pose proof (size_word_range c n Hn) as Hr.
  rewrite le_decode_encode_small in Hm by (simpl; lia). lia.
Qed.

Lemma size_word_markers c n : Z.of_nat n < 0x7ffd →
  le_encode 2 (size_word c n) ≠ TOMBSTONE ∧ le_encode 2 (size_word c n) ≠ MULTIPART ∧
  le_encode 2 (size_word c n) ≠ MULTIHEAD ∧
  le_encode 2 (size_word c n) ≠ MULTIHEAD_COMPRESSED.
Proof.
  intros Hn. repeat split; apply size_word_neq; try lia;
    eapply Z.lt_le_trans; try exact Hn; vm_compute; congruence.
Qed.

Lemma size_word_markers_v4 c n : Z.of_nat n < 0x1000 →
  le_encode 2 (size_word c n) ≠ MULTIPART_V4 ∧ le_encode 2 (size_word c n) ≠ MULTIHEAD_V4.
Proof.
  intros Hn. split; apply size_word_neq; try lia;
    eapply Z.lt_le_trans; try exact Hn; vm_compute; congruence.
Qed.

Lemma length_encode_slot t s : table_wf t → slot_wf t s → (length (encode_slot s) ≤ esz t)%nat.
Proof.
  intros [Hs _] Hw. unfold esz, MIN_ENTRY_SIZE in *. destruct s as [n|m n p|c p]; simpl in *.
  - len.
  - destruct Hw as (_ & Hm & _ & Hl). unfold esz in Hl.
    destruct Hm as [->|[->| ->]]; len.
  - unfold esz in Hw. lia.
Qed.

(** The marker of an encoded slot, as [is_tombstone] and [is_multi] see it. *)
Lemma encode_slot_head t s : slot_wf t s →
  take 2 (encode_slot s) =
    match s with
    | Tomb _ => TOMBSTONE
    | Multi m _ _ => m
    | Sized c p => le_encode 2 (size_word c (length p))
    end.
Proof.
  destruct s as [n|m n p|c p]; [done| |done].
  intros (_ & Hm & _). destruct Hm as [->|[->| ->]]; done.
Qed.

Lemma length_encode_slot_ge t s : slot_wf t s → (2 ≤ length (encode_slot s))%nat.
Proof.
  destruct s as [n|m n p|c p]; [simpl; lia| |simpl; lia].
  intros (_ & Hm & _). destruct Hm as [->|[->| ->]]; simpl; lia.
Qed.

(** The bytes of a slot tell where it ends. *)
Lemma encode_slot_prefix t s s' r r' : table_wf t → slot_wf t s → slot_wf t s' →
  encode_slot s ++ r = encode_slot s' ++ r' → s = s'.
Proof.
  intros [Hs _] Hw Hw' He. unfold MIN_ENTRY_SIZE, MAX_ENTRY_SIZE in Hs.
  assert (Hhead : take 2 (encode_slot s) = take 2 (encode_slot s')).
  { apply (f_equal (take 2)) in He. by rewrite !prefix_take in He by (by eapply length_encode_slot_ge). }
  rewrite (encode_slot_head t), (encode_slot_head t s') in Hhead by done.
  assert (Hsz : ∀ c p, slot_wf t (Sized c p) → Z.of_nat (length p) < 0x7ffd).
  { intros c p Hp. cbn in Hp. unfold esz in Hp. lia. }
  destruct s as [n|m n p|c p], s' as [n'|m' n' p'|c' p']; cbn [encode_slot] in He.
  - rewrite <- !(assoc_L (++)) in He. apply app_inv_head in He.
    apply app_inj_1 in He as [He _]; [|by rewrite !length_le_encode]. f_equal.
    rewrite <- (le_decode_encode_small 8 n), <- (le_decode_encode_small 8 n'), He by done. done.
  - destruct Hw' as (_ & Hm & _). rewrite <- Hhead in Hm. by destruct Hm as [Hm|[Hm|Hm]]; vm_compute in Hm.
  - destruct (size_word_markers c' (length p')) as (Hne & _); [by eapply Hsz|]. congruence.
  - destruct Hw as (_ & Hm & _). rewrite Hhead in Hm. by destruct Hm as [Hm|[Hm|Hm]]; vm_compute in Hm.
  - destruct Hw as (_ & Hm & Hn & Hl), Hw' as (_ & _ & Hn' & Hl'). subst m'.
    rewrite <- !(assoc_L (++)) in He. apply app_inv_head in He.
    apply app_inj_1 in He as [Hen He]; [|by rewrite !length_le_encode].
    apply app_inj_1 in He as [-> _]; [|lia]. f_equal.
    rewrite <- (le_decode_encode_small 8 n), <- (le_decode_encode_small 8 n'), Hen by done. done.
  - destruct Hw as (_ & Hm & _). destruct (size_word_markers c' (length p')) as (_ & H1 & H2 & H3); [by eapply Hsz|].
    rewrite Hhead in Hm. by destruct Hm as [?|[?|?]].
  - destruct (size_word_markers c (length p)) as (Hne & _); [by eapply Hsz|]. congruence.
  - destruct Hw' as (_ & Hm & _). destruct (size_word_markers c (length p)) as (_ & H1 & H2 & H3); [by eapply Hsz|].
    rewrite <- Hhead in Hm. by destruct Hm as [?|[?|?]].
  - pose proof (Hsz _ _ Hw) as Hp. pose proof (Hsz _ _ Hw') as Hp'.
    destruct (size_word_size c (length p)) as [Hl Hc]; [lia|]. destruct (size_word_size c' (length p')) as [Hl' Hc']; [lia|].
    pose proof (size_word_range c (length p) ltac:(lia)). pose proof (size_word_range c' (length p') ltac:(lia)).
    assert (Hword : size_word c (length p) = size_word c' (length p')).
    { by rewrite <- (le_decode_encode_small 2 (size_word c _)), Hhead, le_decode_encode_small by done. }
    rewrite Hword in Hl, Hc. assert (length p = length p') by lia. assert (c = c') as -> by congruence.
    rewrite Hhead, <- !(assoc_L (++)) in He. apply app_inv_head in He. apply app_inj_1 in He as [-> _]; done.
Qed.

(** ** Reading a slot into a buffer *)

Section Reads.
Context {L} `{LogView L}.
Implicit Types (t : ValueTable) (log : L).

Lemma read_slot_prefix t log n i buf a rest :
  slot_bytes t log i = Some (a ++ rest) → (n ≤ esz t)%nat → (n ≤ length buf)%nat →
  ∃ r, read_slot t log n i buf = Ok (take n a ++ r) ∧
       length (take n a ++ r) = length buf.
Proof.
  unfold slot_bytes, read_slot. intros Hs Hn Hb. rewrite value_value_view.
  destruct (value_view log (vt_id t) i) as [d|].
  - injection Hs as ->. unfold copy_into.
    set (m := Nat.min (length buf) (length (a ++ rest))).
    exists (drop (length (take n a)) (take m (a ++ rest) ++ drop m buf)).
    assert (E : take n a = take (length (take n a)) (take m (a ++ rest) ++ drop m buf)).
    { rewrite take_app_le by (unfold m; len). rewrite take_take.
      rewrite Nat.min_l by (unfold m; len). rewrite take_app_le by len.
      rewrite length_take. destruct (Nat.min_spec n (length a)) as [[? ->]|[? ->]]; [done|].
      by rewrite !take_ge by lia. }
    rewrite E at 1 4. rewrite take_drop. split; [done|]. unfold m. len.
  - unfold TableFile.read_at in *. destruct (file (vt_file t)) as [f|]; [|done]; simpl in *.
    unfold read_exact_at in *. set (o := Z.to_nat (wrap64 (i * entry_size t))) in *.
    destruct (Nat.leb_spec (o + esz t) (length f)) as [Hf|]; [|done]. injection Hs as Hs.
    destruct (Nat.leb_spec (o + n) (length f)); [|lia]; simpl.
    assert (E : take n (drop o f) = take n a ++ take (n - length a) rest).
    { transitivity (take n (take (esz t) (drop o f))).
      - by rewrite take_take, Nat.min_l by lia.
      - rewrite Hs. by rewrite take_app. }
    exists (take (n - length a) rest ++ drop n buf).
    rewrite E, <- !(assoc_L (++)). split; [done|].
    apply (f_equal length) in E. revert E. len.
Qed.

Lemma read_slot_10 t log i s : table_wf t → slot_is t log i s →
  ∀ buf, length buf = 10%nat →
  ∃ r, read_slot t log 10 i buf = Ok (take 10 (encode_slot s) ++ r) ∧
       length (take 10 (encode_slot s) ++ r) = 10%nat.
Proof.
  intros [Hs _] (_ & rest & Hb) buf Hl.
  destruct (read_slot_prefix t log 10 i buf (encode_slot s) rest) as (r & E1 & E2);
    [done|unfold esz, MIN_ENTRY_SIZE in *; lia|lia|].
  exists r. split; [done|congruence].
Qed.

Lemma read_slot_full t log i s buf : table_wf t → slot_is t log i s →
  length buf = MAX_ENTRY_BUF_SIZE →
  ∃ r, read_slot t log (esz t) i buf = Ok (encode_slot s ++ r) ∧
       length (encode_slot s ++ r) = MAX_ENTRY_BUF_SIZE.
Proof.
  intros Hw (Hsw & rest & Hb) Hl. rewrite <- Hl.
  rewrite <- (take_ge (encode_slot s) (esz t)) by (by apply length_encode_slot).
  eapply read_slot_prefix; [done..|]. rewrite Hl.
  destruct Hw as [Hs _]. unfold esz, MAX_ENTRY_BUF_SIZE, MAX_ENTRY_SIZE in *. lia.
Qed.

End Reads.

(** ** Cursor operations *)

Lemma run_entry_Ok {A} (m : ST Entry A) e a e' : m e = (Ok a, e') → run_entry m e = Ok (a, e').
Proof. intros E. unfold run_entry. by rewrite E. Qed.

Lemma read_slice_at (a b c : bytes) (o n : nat) : o = length a → n = length b →
  Entry.read_slice n (MkEntry o (a ++ b ++ c)) = (Ok b, MkEntry (o + n) (a ++ b ++ c)).
Proof.
  intros -> ->. unfold Entry.read_slice; simpl. rewrite slice_Ok by len.
  rewrite drop_app_length, Nat.add_comm, Nat.add_sub, take_app_length. by rewrite Nat.add_comm.
Qed.

Lemma write_slice_at (a b c d : bytes) : length b = length d →
  Entry.write_slice d (MkEntry (length a) (a ++ b ++ c)) =
  (Ok tt, MkEntry (length a + length d) (a ++ d ++ c)).
Proof.
  intros Hl. unfold Entry.write_slice; simpl. rewrite splice_Ok by len.
  rewrite take_app_length, <- Hl. rewrite <- drop_drop, drop_app_length, drop_app_length.
  done.
Qed.

Lemma read_size_word c (n : nat) (r : bytes) : Z.of_nat n < 0x8000 →
  Entry.read_size (Entry.new (le_encode 2 (size_word c n) ++ r)) =
  (Ok (Z.of_nat n, c), MkEntry 2 (le_encode 2 (size_word c n) ++ r)).
Proof.
  intros Hl. destruct (size_word_size c n Hl) as [E1 E2]. unfold Entry.read_size, Entry.new.
  erewrite ST_bind_Ok by (apply (read_slice_at []); [done|by len]).
  rewrite le_decode_encode_small by (simpl; by apply size_word_range).
  by rewrite E1, E2.
Qed.

Lemma has_marker_app m a r : (2 ≤ length a)%nat →
  Entry.has_marker m (Entry.new (a ++ r)) = bool_decide (take 2 a = m).
Proof. intros. unfold Entry.has_marker, SIZE_SIZE; simpl. by rewrite take_app_le. Qed.

Section Parse.
Context (t : ValueTable) (Hwf : table_wf t).

Lemma sized_len c p : slot_wf t (Sized c p) → Z.of_nat (length p) < 0x7ffd.
Proof.
  destruct Hwf as [Hs _]. unfold slot_wf, esz, MAX_ENTRY_SIZE in *. lia.
Qed.

Lemma sized_len_multipart c p :
  slot_wf t (Sized c p) → multipart t = true → Z.of_nat (length p) < 0x1000.
Proof.
  intros Hw Hm. pose proof (wf_multipart t Hwf Hm). unfold slot_wf, esz in Hw. lia.
Qed.

(** [a] is the encoding of [s], or a prefix of it that shows the marker. *)
Definition shows (s : Slot) (a : bytes) : Prop :=
  (2 ≤ length a)%nat ∧ take 2 a = take 2 (encode_slot s).

Lemma shows_full s : slot_wf t s → shows s (encode_slot s).
Proof. intros Hw. split; [|done]. by eapply length_encode_slot_ge. Qed.

Lemma shows_take s n : slot_wf t s → (2 ≤ n)%nat → shows s (take n (encode_slot s)).
Proof.
  intros Hw Hn. pose proof (length_encode_slot_ge t s Hw). split; [len|].
  by rewrite take_take, Nat.min_l by lia.
Qed.

Lemma shows_tombstone s a r : slot_wf t s → shows s a →
  Entry.is_tombstone (Entry.new (a ++ r)) = match s with Tomb _ => true | _ => false end.
Proof.
  intros Hw [Hl Ha]. unfold Entry.is_tombstone. rewrite has_marker_app by done.
  rewrite Ha, (encode_slot_head t s Hw). destruct s as [n|m n p|c p].
  - by rewrite bool_decide_true.
  - apply bool_decide_false. destruct Hw as (_ & Hm & _). by destruct Hm as [->|[->| ->]].
  - apply bool_decide_false. by apply size_word_markers, (sized_len c p).
Qed.

Lemma shows_multi s a r : slot_wf t s → shows s a → multipart t = true →
  match s with
  | Tomb _ => True
  | Multi _ _ _ => Entry.is_multi (db_version t) (Entry.new (a ++ r)) = true
  | Sized _ _ => Entry.is_multi (db_version t) (Entry.new (a ++ r)) = false
  end.
Proof.
  intros Hw [Hl Ha] Hmp. pose proof (encode_slot_head t s Hw) as Hh.
  unfold Entry.is_multi, Entry.is_multipart, Entry.is_multihead,
    Entry.is_multihead_compressed, Entry.is_multipart_v4, Entry.is_multihead_v4.
  rewrite !has_marker_app, Ha, Hh by done.
  destruct s as [n|m n p|c p]; [done| |].
  - destruct Hw as (_ & Hm & _). destruct Hm as [->|[->| ->]]; reflexivity.
  - destruct (size_word_markers c (length p) (sized_len c p Hw)) as (_ & H1 & H2 & H3).
    destruct (size_word_markers_v4 c (length p) (sized_len_multipart c p Hw Hmp)) as (H4 & H5).
    rewrite !bool_decide_false by done. by rewrite andb_false_r.
Qed.

Lemma part_header_multi part comp m j p r : slot_wf t (Multi m j p) →
  part_header t part comp (Entry.new (encode_slot (Multi m j p) ++ r)) =
  Ok (esz t, j,
      (if (part =? 0)%nat && (6 <? db_version t) && bool_decide (m = MULTIHEAD_COMPRESSED)
       then true else comp),
      MkEntry 10 (encode_slot (Multi m j p) ++ r)).
Proof.
  intros Hw. unfold part_header. pose proof Hw as (Hmp & Hm & Hj & Hl). rewrite Hmp.
  pose proof (shows_multi (Multi m j p) _ r Hw (shows_full _ Hw) Hmp) as ->. rewrite andb_true_l.
  unfold Entry.is_multihead_compressed. rewrite has_marker_app
    by (by eapply length_encode_slot_ge).
  rewrite (encode_slot_head t _ Hw).
  assert (Hm2 : length m = 2%nat) by (destruct Hm as [->|[->| ->]]; done).
  rewrite (run_entry_Ok _ _ j (MkEntry 10 (encode_slot (Multi m j p) ++ r))); [done|].
  unfold Entry.skip_size, Entry.new. cbn [encode_slot].
  rewrite <- !(assoc_L (++)). erewrite ST_bind_Ok by done. cbn [e_data e_offset].
  unfold Entry.read_next, Entry.read_u64.
  erewrite ST_bind_Ok by (apply read_slice_at; [by rewrite Hm2|by len]).
  unfold mret, ST_ret. by rewrite le_decode_encode_small by (simpl; exact Hj).
Qed.

Lemma read_size_sized c p r : slot_wf t (Sized c p) →
  Entry.read_size (Entry.new (encode_slot (Sized c p) ++ r)) =
  (Ok (Z.of_nat (length p), c), MkEntry 2 (encode_slot (Sized c p) ++ r)).
Proof.
  intros Hw. pose proof (sized_len c p Hw) as Hl. cbn [encode_slot]. rewrite <- !(assoc_L (++)).
  apply read_size_word. lia.
Qed.

Lemma part_header_sized part comp c p r : slot_wf t (Sized c p) →
  part_header t part comp (Entry.new (encode_slot (Sized c p) ++ r)) =
  Ok ((2 + length p)%nat, 0,
      (if (part =? 0)%nat || (db_version t <=? 6) then c else comp),
      MkEntry 2 (encode_slot (Sized c p) ++ r)).
Proof.
  intros Hw. unfold part_header.
  assert (multipart t && Entry.is_multi (db_version t)
    (Entry.new (encode_slot (Sized c p) ++ r)) = false) as ->.
  { destruct (multipart t) eqn:Hmp; [|done].
    by apply (shows_multi (Sized c p) _ r Hw (shows_full _ Hw)). }
  rewrite (run_entry_Ok _ _ _ _ (read_size_sized c p r Hw)).
  rewrite outcome_bind_Ok. cbn [e_offset]. by rewrite Nat2Z.id.
Qed.

End Parse.

(** ** Reading a chain *)

(** The payloads of the parts of a chain of slots [idxs] that spells [p]. *)
Fixpoint chain_parts (n : nat) (idxs : list Z) (p : bytes) : list bytes :=
  match idxs with
  | [] => []
  | [_] => [p]
  | _ :: rest => take (n - 10) p :: chain_parts n rest (drop (n - 10) p)
  end.

(** What the closure of [for_parts] is given: the reference counter and the key,
    [h] bytes, are cut from the first part. *)
Definition value_parts (h n : nat) (idxs : list Z) (p : bytes) : list bytes :=
  match chain_parts n idxs p with
  | [] => []
  | a :: l => drop h a :: l
  end.

(** Whether a query reads the 26 key bytes, and its result on stored key bytes
    [kb]; [None] is a key mismatch. *)
Definition wants_key (q : TableKeyQuery) : bool :=
  match q with
  | Check_ (Partial _) | Fetch (Some _) => true
  | Check_ NoHash | Fetch None => false
  end.
Definition key_match (q : TableKeyQuery) (kb : bytes) : option TableKeyQuery :=
  match q with
  | Check_ (Partial k) => if decide (partial_key k = kb) then Some q else None
  | Fetch (Some _) => Some (Fetch (Some kb))
  | _ => Some q
  end.
Definition query_fits (q : TableKeyQuery) (kb : bytes) : Prop :=
  length kb = (if wants_key q then PARTIAL_SIZE else 0)%nat.

Lemma concat_chain_parts n idxs p : idxs ≠ [] → concat (chain_parts n idxs p) = p.
Proof.
  revert p. induction idxs as [|i idxs IH]; intros p Hne; [done|].
  destruct idxs as [|j idxs]; [simpl; by rewrite app_nil_r|].
  change (chain_parts n (i :: j :: idxs) p) with
    (take (n - 10) p :: chain_parts n (j :: idxs) (drop (n - 10) p)).
  cbn [concat]. rewrite IH by done. apply take_drop.
Qed.

Lemma foldl_app_concat (acc : bytes) (l : list bytes) : foldl app acc l = acc ++ concat l.
Proof.
  revert acc. induction l as [|a l IH]; intros acc; simpl; [by rewrite app_nil_r|].
  by rewrite IH, (assoc_L (++)).
Qed.

Section ForParts.
Context `{!Uninit} {L} `{LogView L}.
Context (t : ValueTable) (Hwf : table_wf t) (log : L).

Lemma part_key_head (a kb v r : bytes) (o : nat) (rc : Z) (q : TableKeyQuery) :
  o = length a → query_fits q kb → is_u32 rc → (ref_counted t = false → rc = 1) →
  (o + length (rc_bytes t rc ++ kb ++ v) ≤ MAX_ENTRY_BUF_SIZE)%nat →
  length (a ++ (rc_bytes t rc ++ kb ++ v) ++ r) = MAX_ENTRY_BUF_SIZE →
  part_key t 0 1 q (MkEntry o (a ++ (rc_bytes t rc ++ kb ++ v) ++ r)) =
  Ok (match key_match q kb with
      | None => None
      | Some q' => Some (rc, q', MkEntry (o + length (rc_bytes t rc ++ kb))
                                   (a ++ (rc_bytes t rc ++ kb ++ v) ++ r))
      end).
Proof.
  intros -> Hfit Hrc Hrc1 Hmax Hlen. unfold part_key. cbn [Nat.eqb].
  set (data := a ++ (rc_bytes t rc ++ kb ++ v) ++ r) in *.
  assert (E1 : (if ref_counted t then run_entry Entry.read_rc (MkEntry (length a) data)
                else Ok (1, MkEntry (length a) data)) =
               Ok (rc, MkEntry (length a + length (rc_bytes t rc)) data)).
  { unfold rc_bytes in *. destruct (ref_counted t).
    - apply run_entry_Ok. unfold Entry.read_rc, Entry.read_u32, data.
      rewrite <- (assoc_L (++) _ _ r).
      erewrite ST_bind_Ok by (apply read_slice_at; [done|by len]).
      unfold mret, ST_ret. rewrite le_decode_encode_small by (simpl; exact Hrc).
      by rewrite length_le_encode.
    - rewrite Hrc1 by done. by rewrite Nat.add_0_r. }
  rewrite E1, outcome_bind_Ok. clear E1.
  assert (E2 : length kb = PARTIAL_SIZE →
    run_entry TableKey.fetch_partial (MkEntry (length a + length (rc_bytes t rc)) data) =
    Ok (kb, MkEntry (length a + length (rc_bytes t rc ++ kb)) data)).
  { intros Hk. apply run_entry_Ok. unfold TableKey.fetch_partial.
    erewrite ST_bind_Ok by done. cbn [e_data]. rewrite Hlen.
    destruct (Nat.leb_spec PARTIAL_SIZE MAX_ENTRY_BUF_SIZE) as [_|Hx];
      [|unfold PARTIAL_SIZE, MAX_ENTRY_BUF_SIZE in Hx; lia].
    unfold Entry.read_partial, data.
    rewrite <- !(assoc_L (++)). rewrite (assoc_L (++) a (rc_bytes t rc)).
    rewrite (read_slice_at (a ++ rc_bytes t rc) kb) by len.
    by rewrite length_app, Nat.add_assoc, Hk. }
  unfold query_fits in Hfit. destruct q as [[k|]|[s|]]; cbn [wants_key] in Hfit.
  - unfold TableKey.fetch.
    rewrite (run_entry_Ok _ _ (Some kb) (MkEntry (length a + length (rc_bytes t rc ++ kb)) data)).
    + rewrite outcome_bind_Ok. cbn [TableKey.compare key_match].
      destruct (decide (partial_key k = kb)); [by rewrite bool_decide_true|].
      by rewrite bool_decide_false.
    + specialize (E2 Hfit). unfold run_entry in E2.
      destruct (TableKey.fetch_partial _) as [[x| | | | |] e'] eqn:E3; try discriminate.
      injection E2 as -> ->. by erewrite ST_bind_Ok by exact E3.
  - rewrite (run_entry_Ok _ _ None (MkEntry (length a + length (rc_bytes t rc)) data)) by done.
    rewrite outcome_bind_Ok. cbn. rewrite length_app, Hfit, Nat.add_0_r. done.
  - rewrite E2 by done. done.
  - cbn. rewrite length_app, Hfit, Nat.add_0_r. done.
Qed.


Lemma remaining_to_at (a b c : bytes) (o n : nat) : o = length a → n = (o + length b)%nat →
  Entry.remaining_to n (MkEntry o (a ++ b ++ c)) = Ok b.
Proof.
  intros -> ->. unfold Entry.remaining_to; cbn [e_offset e_data]. rewrite slice_Ok by len.
  rewrite drop_app_length, Nat.add_comm, Nat.add_sub. by rewrite take_app_length.
Qed.

(** The parts after the first. *)
Lemma for_parts_tail {A} (g : A → bytes → A) c idxs i p fuel buf part comp rc q acc :
  chain_at t log c false (i :: idxs) p → (length (i :: idxs) ≤ fuel)%nat →
  length buf = MAX_ENTRY_BUF_SIZE → part ≠ 0%nat →
  for_parts_loop fuel t log (fun a b => (g a b, true)) buf part comp rc q i acc =
  Ok (rc, (if db_version t <=? 6 then c else comp), q,
      foldl g acc (chain_parts (esz t) (i :: idxs) p)).
Proof.
  revert i p fuel buf part acc.
  induction idxs as [|j idxs IH]; intros i p fuel buf part acc Hc Hfuel Hbuf Hpart;
    (destruct fuel as [|fuel]; [simpl in Hfuel; lia|]); cbn [for_parts_loop].
  - destruct (read_slot_full t log i _ buf Hwf Hc Hbuf) as (r & E & El).
    destruct Hc as [Hsw _]. fold (esz t). rewrite E, outcome_bind_Ok.
    rewrite (shows_tombstone t Hwf _ _ r Hsw (shows_full t Hwf _ Hsw)).
    rewrite (part_header_sized t Hwf part comp c p r Hsw), outcome_bind_Ok.
    unfold part_key. destruct (Nat.eqb_spec part 0); [done|]. rewrite outcome_bind_Ok.
    cbn [encode_slot]. rewrite <- !(assoc_L (++)). rewrite remaining_to_at by len.
    done.
  - destruct Hc as (Hs & Hlen & Hj & Hc).
    destruct (read_slot_full t log i _ buf Hwf Hs Hbuf) as (r & E & El).
    destruct Hs as [Hsw _]. fold (esz t). rewrite E, outcome_bind_Ok.
    rewrite (shows_tombstone t Hwf _ _ r Hsw (shows_full t Hwf _ Hsw)).
    rewrite (part_header_multi t Hwf part comp _ _ _ r Hsw), outcome_bind_Ok.
    unfold part_key. destruct (Nat.eqb_spec part 0); [done|]. rewrite outcome_bind_Ok.
    destruct Hsw as (_ & _ & _ & Hl). cbn [part_marker encode_slot] in *.
    rewrite <- !(assoc_L (++)) in *. rewrite (assoc_L (++) MULTIPART).
    rewrite remaining_to_at by (revert Hl; len). cbn [negb].
    destruct (Z.eqb_spec j 0); [lia|]. rewrite outcome_bind_Ok. cbn [andb].
    rewrite (IH j (drop (esz t - 10) p)); [done|done|simpl in *; lia| |lia]. cbn [e_data].
    by rewrite <- !(assoc_L (++)).
Qed.

(** The first slot of a chain, its payload [rc ++ key ++ v] and the next
    slot: one iteration of the loop. *)
Definition head_step {A} (fuel : nat) (f : A → bytes → A * bool) (d : bytes) (q : TableKeyQuery)
    (kb v : bytes) (comp : bool) (rc next : Z) (acc : A) : outcome (Z * bool * TableKeyQuery * A) :=
  match key_match q kb with
  | None => Ok (0, false, q, acc)
  | Some q' =>
      let '(acc', continue) := f acc v in
      if negb continue then Ok (rc, comp, q', acc')
      else if next =? 0 then Ok (rc, comp, q', acc')
      else for_parts_loop fuel t log f d 1 comp rc q' next acc'
  end.

Lemma for_parts_head {A} (f : A → bytes → A * bool) slot i rc kb v fuel buf q acc :
  slot_is t log i slot → length buf = MAX_ENTRY_BUF_SIZE →
  (match slot with Tomb _ => None | Multi _ _ p | Sized _ p => Some p end) =
    Some (rc_bytes t rc ++ kb ++ v) →
  query_fits q kb → is_u32 rc → (ref_counted t = false → rc = 1) →
  ∃ d, length d = MAX_ENTRY_BUF_SIZE ∧
    for_parts_loop (S fuel) t log f buf 0 false 1 q i acc =
    head_step fuel f d q kb v
      (match slot with
       | Multi m _ _ => (6 <? db_version t) && bool_decide (m = MULTIHEAD_COMPRESSED)
       | Sized c _ => c
       | Tomb _ => false
       end) rc
      (match slot with Multi _ j _ => j | _ => 0 end) acc.
Proof.
  intros Hs Hbuf Hp Hfit Hrc Hrc1. cbn [for_parts_loop].
  destruct (read_slot_full t log i _ buf Hwf Hs Hbuf) as (r & E & El).
  destruct Hs as [Hsw _]. fold (esz t). rewrite E, outcome_bind_Ok.
  rewrite (shows_tombstone t Hwf _ _ r Hsw (shows_full t Hwf _ Hsw)).
  exists (encode_slot slot ++ r). split; [done|]. unfold head_step.
  pose proof (length_encode_slot t _ Hwf Hsw) as Hle. pose proof (wf_size t Hwf) as Hsz.
  assert (Hes : (esz t ≤ MAX_ENTRY_BUF_SIZE)%nat)
    by (unfold esz, MAX_ENTRY_SIZE, MAX_ENTRY_BUF_SIZE in *; lia).
  destruct slot as [n|m j p|c p]; [done| |]; injection Hp as ->.
  - rewrite (part_header_multi t Hwf 0 false _ _ _ r Hsw), outcome_bind_Ok.
    destruct Hsw as (_ & Hm & _ & Hl). cbn [encode_slot] in *.
    assert (Hm2 : length m = 2%nat) by (destruct Hm as [->|[->| ->]]; done).
    assert (Hd : (m ++ le_encode 8 j ++ rc_bytes t rc ++ kb ++ v) ++ r =
                 (m ++ le_encode 8 j) ++ (rc_bytes t rc ++ kb ++ v) ++ r)
      by by rewrite <- !(assoc_L (++)).
    rewrite Hd in *. rewrite part_key_head by (done || (revert Hl Hle; len)).
    rewrite outcome_bind_Ok. destruct (key_match q kb) as [q'|]; [|done].
    rewrite <- !(assoc_L (++)), (assoc_L (++) (rc_bytes t rc)), (assoc_L (++) m),
      (assoc_L (++) (m ++ _)).
    rewrite remaining_to_at by (revert Hl; len). rewrite outcome_bind_Ok. cbn [Nat.eqb andb].
    destruct (f acc v) as [acc' []]; cbn [negb]; [|by destruct (_ && _)].
    by destruct (_ && _).
  - rewrite (part_header_sized t Hwf 0 false _ _ r Hsw), outcome_bind_Ok.
    cbn [encode_slot slot_wf] in *. set (hd := le_encode 2 _) in *.
    assert (Hd2 : length hd = 2%nat) by apply length_le_encode.
    rewrite <- (assoc_L (++) hd) in *.
    rewrite part_key_head by (done || (revert Hle; len)).
    rewrite outcome_bind_Ok. destruct (key_match q kb) as [q'|]; [|done].
    rewrite <- !(assoc_L (++)), (assoc_L (++) (rc_bytes t rc)), (assoc_L (++) hd).
    rewrite remaining_to_at by len. rewrite outcome_bind_Ok. cbn [Nat.eqb orb].
    by destruct (f acc v) as [acc' []].
Qed.

Definition head_len (s : Stored) : nat := length (rc_bytes t (s_rc s) ++ s_key s).

Lemma head_len_le s : stored_wf t s → (head_len s ≤ 30)%nat.
Proof.
  intros [_ _ Hk]. unfold head_len, rc_bytes. unfold PARTIAL_SIZE in Hk.
  destruct (ref_counted t), Hk; len.
Qed.

(** The first part of a chain holds the counter and the key. *)
Lemma chain_head i idxs s : stored_wf t s →
  chain_at t log (s_compressed s) true (i :: idxs) (payload t s) →
  ∃ slot v,
    slot_is t log i slot ∧
    (match slot with Tomb _ => None | Multi _ _ p | Sized _ p => Some p end) =
      Some (rc_bytes t (s_rc s) ++ s_key s ++ v) ∧
    (match idxs with
     | [] => slot = Sized (s_compressed s) (payload t s) ∧ v = s_value s
     | j :: _ =>
         slot = Multi (part_marker true (s_compressed s)) j (take (esz t - 10) (payload t s)) ∧
         v = drop (head_len s) (take (esz t - 10) (payload t s)) ∧ 1 ≤ j ∧
         chain_at t log (s_compressed s) false idxs (drop (esz t - 10) (payload t s))
     end).
Proof.
  intros Hsw Hc. pose proof (head_len_le s Hsw) as Hh. unfold head_len in *.
  destruct idxs as [|j idxs].
  - exists (Sized (s_compressed s) (payload t s)), (s_value s). done.
  - destruct Hc as (Hs & Hl & Hj & Hc). eexists _, _. split; [exact Hs|]. split; [|done].
    f_equal. unfold payload. rewrite (assoc_L (++)) at 1.
    assert (4096 = entry_size t) by (symmetry; apply (wf_multipart t Hwf), Hs).
    assert (Hes : (length (rc_bytes t (s_rc s) ++ s_key s) ≤ esz t - 10)%nat)
      by (unfold esz; lia).
    rewrite take_app_ge by done.
    rewrite (assoc_L (++) (rc_bytes t (s_rc s)) (s_key s)), (assoc_L (++) (rc_bytes t (s_rc s)) (s_key s)).
    by rewrite take_app_ge, drop_app_length by done.
Qed.

Lemma concat_value_parts i idxs s : stored_wf t s →
  chain_at t log (s_compressed s) true (i :: idxs) (payload t s) →
  concat (value_parts (head_len s) (esz t) (i :: idxs) (payload t s)) = s_value s.
Proof.
  intros Hsw Hc. pose proof (concat_chain_parts (esz t) (i :: idxs) (payload t s) ltac:(done)) as Hcc.
  assert (Hd : drop (head_len s) (payload t s) = s_value s).
  { unfold payload, head_len. by rewrite (assoc_L (++)), drop_app_length. }
  unfold value_parts. destruct idxs as [|j idxs].
  - cbn. by rewrite app_nil_r.
  - change (chain_parts (esz t) (i :: j :: idxs) (payload t s)) with
      (take (esz t - 10) (payload t s) ::
       chain_parts (esz t) (j :: idxs) (drop (esz t - 10) (payload t s))) in *.
    cbn [concat] in *. rewrite concat_chain_parts in * by done.
    destruct Hc as ((Hs & _) & Hl & _). rewrite <- Hd.
    rewrite <- (take_drop (esz t - 10) (payload t s)) at 3.
    rewrite drop_app_le; [done|]. pose proof (head_len_le s Hsw). destruct Hs as (Hmp & _).
    pose proof (wf_multipart t Hwf Hmp). revert Hl. unfold esz. len.
Qed.

(** Reading a stored value hands its parts to the closure, in order, after the
    key check. *)
Lemma for_parts_chain {A} (g : A → bytes → A) i idxs s q acc : stored_wf t s →
  chain_at t log (s_compressed s) true (i :: idxs) (payload t s) →
  query_fits q (s_key s) → (length (i :: idxs) ≤ parts_fuel t)%nat →
  for_parts t q i log (fun a b => (g a b, true)) acc =
  Ok (match key_match q (s_key s) with
      | None => (0, false, q, acc)
      | Some q' => (s_rc s, s_compressed s, q',
                    foldl g acc (value_parts (head_len s) (esz t) (i :: idxs) (payload t s)))
      end).
Proof.
  intros Hsw Hc Hq Hfuel. destruct (chain_head i idxs s Hsw Hc) as (slot & v & Hs & Hp & Hrest).
  destruct Hsw as [Hrc Hrc1 Hk]. unfold for_parts. unfold parts_fuel in *.
  destruct (for_parts_head (fun a b => (g a b, true)) slot i (s_rc s) (s_key s) v
    (Z.to_nat (filled t)) (uninit MAX_ENTRY_BUF_SIZE) q acc) as (d & Hd & ->);
    [done|apply length_uninit|done|done|unfold is_u32; lia|done|].
  unfold head_step. destruct (key_match q (s_key s)) as [q'|]; [|done]. cbn [negb].
  unfold value_parts. destruct idxs as [|j idxs].
  - destruct Hrest as [-> ->]. cbn. unfold head_len, payload.
    by rewrite (assoc_L (++)), drop_app_length.
  - destruct Hrest as (-> & -> & Hj & Hc'). destruct (Z.eqb_spec j 0); [lia|].
    rewrite (for_parts_tail g _ _ _ _ _ _ _ _ _ _ _ Hc') by (done || (simpl in *; lia)).
    change (chain_parts (esz t) (i :: j :: idxs) (payload t s)) with
      (take (esz t - 10) (payload t s) ::
       chain_parts (esz t) (j :: idxs) (drop (esz t - 10) (payload t s))).
    cbn [foldl]. do 4 f_equal. unfold part_marker.
    destruct (Z.leb_spec (db_version t) 6), (Z.ltb_spec 6 (db_version t)); try lia; [done|].
    by destruct (s_compressed s).
Qed.

(** [partial_key_at] stops after the first part. *)
Lemma partial_key_at_chain i idxs s : stored_wf t s →
  chain_at t log (s_compressed s) true (i :: idxs) (payload t s) →
  length (s_key s) = PARTIAL_SIZE → partial_key_at t i log = Ok (Some (s_key s)).
Proof.
  intros Hsw Hc Hk. destruct (chain_head i idxs s Hsw Hc) as (slot & v & Hs & Hp & _).
  destruct Hsw as [Hrc Hrc1 _]. unfold partial_key_at, for_parts, parts_fuel.
  edestruct (for_parts_head (fun (acc : unit) _ => (acc, false)) slot i (s_rc s) (s_key s) v
    (Z.to_nat (filled t)) (uninit MAX_ENTRY_BUF_SIZE)
    (Fetch (Some (replicate PARTIAL_SIZE x00))) tt) as (d & Hd & ->);
    [done|apply length_uninit|done|done|unfold is_u32; lia|done|].
  cbn [head_step key_match negb]. rewrite outcome_bind_Ok.
  destruct (Z.eqb_spec (s_rc s) 0); [lia|done].
Qed.

Lemma query_chain i idxs s q : stored_wf t s →
  chain_at t log (s_compressed s) true (i :: idxs) (payload t s) →
  query_fits q (s_key s) → (length (i :: idxs) ≤ parts_fuel t)%nat →
  query t q i log =
  Ok (match key_match q (s_key s) with
      | None => (None, q)
      | Some q' => (Some (s_value s, s_compressed s, s_rc s), q')
      end).
Proof.
  intros Hsw Hc Hq Hf. unfold query. rewrite (for_parts_chain app _ _ _ _ _ Hsw Hc Hq Hf).
  rewrite outcome_bind_Ok. destruct (key_match q (s_key s)) as [q'|]; [|done].
  rewrite foldl_app_concat, (concat_value_parts _ _ _ Hsw Hc). destruct Hsw as [Hrc _ _].
  cbn [app]. destruct (s_rc s >? 0) eqn:E; [done|lia].
Qed.

(** Reading a tombstone finds nothing. *)
Lemma query_tomb i n q : slot_is t log i (Tomb n) → query t q i log = Ok (None, q).
Proof.
  intros Hs. unfold query, for_parts, parts_fuel. cbn [for_parts_loop].
  destruct (read_slot_full t log i _ (uninit MAX_ENTRY_BUF_SIZE) Hwf Hs (length_uninit _))
    as (r & E & El).
  destruct Hs as [Hsw _]. fold (esz t). rewrite E, outcome_bind_Ok.
  by rewrite (shows_tombstone t Hwf _ _ r Hsw (shows_full t Hwf _ Hsw)).
Qed.

End ForParts.
