(* ===== verification/TableOps.v ===== *)
(** * The operations of a value table act on its abstract content

    [write_insert_plan], [write_replace_plan], [write_remove_plan] and the
    reference counting operations of src/src/table.rs, against [TableSpec.repr]. *)

From S2P Require Import Prelude.
From S2P Require Import Bytes.
From S2P Require Import Ids.
From S2P Require Import File.
From S2P Require Import Log.
From S2P Require Import Table.
From S2P Require Import TableSpec.
From stdpp Require Import options.
#[local] Set Default Proof Using "Type*".

(** ** Frames *)

(** The fields no operation on the log side of a table changes. *)
Record same_shape (t t' : ValueTable) : Prop := {
  sh_id : vt_id t' = vt_id t;
  sh_size : entry_size t' = entry_size t;
  sh_file : vt_file t' = vt_file t;
  sh_multipart : multipart t' = multipart t;
  sh_rc : ref_counted t' = ref_counted t;
  sh_version : db_version t' = db_version t;
}.

#[global] Instance same_shape_equivalence : Equivalence same_shape.
Proof.
  split; [done| |]; [intros a b []; split; congruence|].
  intros a b c [] []. split; congruence.
Qed.

Lemma same_shape_esz t t' : same_shape t t' → esz t' = esz t.
Proof. intros Hsh. unfold esz. by rewrite (sh_size _ _ Hsh). Qed.

Lemma slot_wf_shape t t' s : same_shape t t' → slot_wf t s → slot_wf t' s.
Proof.
  intros Hsh. unfold slot_wf. rewrite (same_shape_esz _ _ Hsh), (sh_multipart _ _ Hsh). done.
Qed.

(** Only the entries [S] of table [t] changed between two states of a writer,
    and what was logged for them is the encoding of a slot. *)
Record log_frame (t : ValueTable) (S : list Z) (w w' : LogWriter) : Prop := {
  fr_value : ∀ id' i, id' ≠ vt_id t ∨ i ∉ S → value_view w' id' i = value_view w id' i;
  fr_index : ∀ id' i, index_view w' id' i = index_view w id' i;
  fr_overlays : writer_overlays w' = writer_overlays w;
  fr_record : LogWriter.record_id w' = LogWriter.record_id w;
  fr_own : ∀ i d, own_value w' (vt_id t) i = Some d →
    own_value w (vt_id t) i = Some d ∨ (i ∈ S ∧ ∃ s, slot_wf t s ∧ d = encode_slot s);
  fr_own_other : ∀ id' i, id' ≠ vt_id t → own_value w' id' i = own_value w id' i;
  fr_local_index : local_index (writer_log w') = local_index (writer_log w);
}.

Lemma log_frame_refl t S w : log_frame t S w w.
Proof. split; auto. Qed.

Lemma log_frame_trans t S1 S2 S w1 w2 w3 :
  log_frame t S1 w1 w2 → log_frame t S2 w2 w3 → S1 ⊆ S → S2 ⊆ S → log_frame t S w1 w3.
Proof.
  intros [V1 I1 O1 R1 L1 W1 X1] [V2 I2 O2 R2 L2 W2 X2] H1 H2. split; try congruence.
  - intros id' i Hi. rewrite V2, V1; [done|set_solver..].
  - intros i d Hd. destruct (L2 i d Hd) as [Hd'|[? ?]]; [|right; set_solver].
    destruct (L1 i d Hd') as [?|[? ?]]; [by left|right; set_solver].
  - intros id' i Hi. by rewrite W2, W1.
Qed.

Lemma log_frame_shape t t' S w w' : same_shape t t' → log_frame t' S w w' → log_frame t S w w'.
Proof.
  intros Hsh [V I O R Lg Ow X]. rewrite (sh_id _ _ Hsh) in V, Lg, Ow. split; try done.
  intros i d Hd. destruct (Lg i d Hd) as [?|(Hi & s & Hs & ->)]; [by left|right].
  split; [done|]. exists s. split; [|done]. by eapply slot_wf_shape; [symmetry|].
Qed.

Lemma log_frame_mono t S S' w w' : log_frame t S w w' → S ⊆ S' → log_frame t S' w w'.
Proof. intros. eapply (log_frame_trans t S []); [done|apply log_frame_refl|done|set_solver]. Qed.

Lemma log_frame_insert t i s w : slot_wf t s →
  log_frame t [i] w (LogWriter.insert_value (vt_id t) i (encode_slot s) w).
Proof.
  intros Hs. split; try done.
  - intros id' j Hj. rewrite value_view_insert_value.
    rewrite decide_False; [done|]. intros [<- ->]. set_solver.
  - intros j d. rewrite own_value_insert_value. case_decide as Hd; [|by left].
    destruct Hd as [_ ->]. intros [= <-]. right. split; [set_solver|eauto].
  - intros id' j Hne. rewrite own_value_insert_value, decide_False; [done|naive_solver].
Qed.

Lemma same_shape_wf t t' : same_shape t t' → table_wf t → table_wf t'.
Proof.
  intros [] [Hs Hm]. split; [congruence|]. intros Hmp. rewrite sh_size0. apply Hm. congruence.
Qed.

Lemma same_shape_stored t t' s : same_shape t t' → stored_wf t s → stored_wf t' s.
Proof. intros [] []. split; [done| |done]. rewrite sh_rc0. done. Qed.

Lemma same_shape_payload t t' s : same_shape t t' → payload t' s = payload t s.
Proof. intros Hsh. unfold payload, rc_bytes. by rewrite (sh_rc _ _ Hsh). Qed.

Lemma slot_is_frame t t' (w w' : LogWriter) i s : same_shape t t' →
  value_view w' (vt_id t) i = value_view w (vt_id t) i → slot_is t w i s → slot_is t' w' i s.
Proof.
  intros Hsh Hv [Hw [r Hr]]. split; [by eapply slot_wf_shape|]. exists r. rewrite <- Hr.
  unfold slot_bytes. rewrite (same_shape_esz _ _ Hsh). destruct Hsh as [-> -> -> _ _ _].
  by rewrite Hv.
Qed.

(** Chains and free lists only depend on their slots. *)
Section Mono.
Context {L1} `{LogView L1} {L2} `{LogView L2}.
Context (t t' : ValueTable) (l1 : L1) (l2 : L2) (Hesz : esz t' = esz t).

Lemma chain_at_mono c first idxs p :
  (∀ i s, i ∈ idxs → slot_is t l1 i s → slot_is t' l2 i s) →
  chain_at t l1 c first idxs p → chain_at t' l2 c first idxs p.
Proof.
  revert first p. induction idxs as [|i idxs IH]; intros first p Hv; [done|].
  destruct idxs as [|j idxs].
  - cbn. apply Hv. set_solver.
  - rewrite !chain_at_cons, Hesz. intros (Hs & Hl & Hj & Hc). split_and!; [|done|done|].
    + apply Hv; [set_solver|done].
    + apply IH; [|done]. intros k s Hk. apply Hv. set_solver.
Qed.

Lemma free_at_mono h l : (∀ i s, i ∈ l → slot_is t l1 i s → slot_is t' l2 i s) →
  free_at t l1 h l → free_at t' l2 h l.
Proof.
  revert h. induction l as [|i l IH]; intros h Hv; [done|].
  intros (-> & Hi & n & Hs & Hf). cbn. split_and!; [done..|]. exists n. split.
  - apply Hv; [set_solver|done].
  - apply IH; [|done]. intros k s Hk. apply Hv. set_solver.
Qed.

End Mono.

Lemma chain_at_frame t t' (w w' : LogWriter) c first idxs p : same_shape t t' →
  (∀ i, i ∈ idxs → value_view w' (vt_id t) i = value_view w (vt_id t) i) →
  chain_at t w c first idxs p → chain_at t' w' c first idxs p.
Proof.
  intros Hsh Hv. apply chain_at_mono; [by apply same_shape_esz|].
  intros i s Hi. by apply slot_is_frame; [|apply Hv].
Qed.

Lemma free_at_frame t t' (w w' : LogWriter) h l : same_shape t t' →
  (∀ i, i ∈ l → value_view w' (vt_id t) i = value_view w (vt_id t) i) →
  free_at t w h l → free_at t' w' h l.
Proof.
  intros Hsh Hv. apply free_at_mono; [by apply same_shape_esz|].
  intros i s Hi. by apply slot_is_frame; [|apply Hv].
Qed.

(** A slot just logged. *)
Lemma slot_is_insert t (w : LogWriter) i s : slot_wf t s →
  slot_is t (LogWriter.insert_value (vt_id t) i (encode_slot s) w) i s.
Proof.
  intros Hw. split; [done|]. exists []. unfold slot_bytes.
  rewrite value_view_insert_value, decide_True by done. by rewrite app_nil_r.
Qed.

(** ** Links *)

Fixpoint links (t : ValueTable) (w : LogWriter) (idxs : list Z) : Prop :=
  match idxs with
  | [] => False
  | [i] => ∃ c p, slot_is t w i (Sized c p)
  | i :: (j :: _) as rest => (∃ m p, slot_is t w i (Multi m j p)) ∧ 1 ≤ j ∧ links t w rest
  end.

Lemma links_cons t w i j rest :
  links t w (i :: j :: rest) ↔
  (∃ m p, slot_is t w i (Multi m j p)) ∧ 1 ≤ j ∧ links t w (j :: rest).
Proof. reflexivity. Qed.

Lemma chain_links t w c first idxs p : chain_at t w c first idxs p → links t w idxs.
Proof.
  revert first p. induction idxs as [|i idxs IH]; intros first p; [done|].
  destruct idxs as [|j idxs]; [cbn; eauto|]. rewrite chain_at_cons, links_cons.
  intros (Hs & _ & Hj & Hc). split_and!; eauto.
Qed.

Lemma links_frame t t' (w w' : LogWriter) idxs : same_shape t t' →
  (∀ i, i ∈ idxs → value_view w' (vt_id t) i = value_view w (vt_id t) i) →
  links t w idxs → links t' w' idxs.
Proof.
  intros Hsh. induction idxs as [|i idxs IH]; intros Hv; [done|].
  assert (Hi : ∀ s, slot_is t w i s → slot_is t' w' i s).
  { intros s. apply slot_is_frame; [done|]. apply Hv. set_solver. }
  destruct idxs as [|j idxs]; [cbn; naive_solver|]. rewrite !links_cons.
  intros ((m & p & Hs) & Hj & Hl). split_and!; [eauto|done|]. apply IH; [|done].
  intros k Hk. apply Hv. set_solver.
Qed.

Section Ops.
Context `{!Uninit}.
Implicit Types (t : ValueTable) (w : LogWriter).

Lemma read_next_part_slot t w i s : table_wf t → slot_is t w i s →
  match s with
  | Tomb _ => True
  | Multi _ j _ => read_next_part t i w = Ok (Some j)
  | Sized _ _ => read_next_part t i w = Ok None
  end.
Proof.
  intros Hwf Hs. pose proof Hs as [Hsw _].
  destruct (read_slot_10 t w i s Hwf Hs (uninit 10) (length_uninit 10)) as (r & E & El).
  pose proof (shows_take t Hwf s 10 Hsw ltac:(lia)) as Hsh.
  destruct s as [n|m j p|c p]; [done| |]; unfold read_next_part; rewrite E, outcome_bind_Ok.
  - pose proof Hsw as (Hmp & Hm & Hj & Hl). rewrite Hmp.
    rewrite (shows_multi t Hwf _ _ r Hsw Hsh Hmp), andb_true_l.
    assert (Hm2 : length m = 2%nat) by (destruct Hm as [->|[->| ->]]; done).
    cbn [encode_slot]. rewrite (assoc_L (++)), take_app_length' by len.
    rewrite (run_entry_Ok _ _ j (MkEntry 10 (m ++ le_encode 8 j ++ r))); [done|].
    rewrite <- (assoc_L (++)). erewrite ST_bind_Ok by done. cbn [e_offset e_data Entry.new].
    unfold Entry.read_next, Entry.read_u64.
    erewrite ST_bind_Ok by (apply read_slice_at; [by rewrite Hm2|by len]).
    unfold mret, ST_ret. by rewrite le_decode_encode_small by (simpl; exact Hj).
  - destruct (multipart t) eqn:Hmp; [|done].
    by rewrite (shows_multi t Hwf _ _ r Hsw Hsh Hmp).
Qed.

Lemma read_next_free_tomb t w i n : table_wf t → slot_is t w i (Tomb n) →
  read_next_free t i w = Ok n.
Proof.
  intros Hwf Hs. pose proof Hs as [Hsw _].
  destruct (read_slot_10 t w i _ Hwf Hs (uninit 10) (length_uninit 10)) as (r & E & El).
  unfold read_next_free. rewrite E, outcome_bind_Ok. rewrite take_ge by (cbn; len).
  cbn [encode_slot]. rewrite <- (assoc_L (++)).
  rewrite (run_entry_Ok _ _ n (MkEntry 10 (TOMBSTONE ++ le_encode 8 n ++ r))); [done|].
  erewrite ST_bind_Ok by done. cbn [e_offset e_data Entry.new].
  unfold Entry.read_next, Entry.read_u64.
  erewrite ST_bind_Ok by (apply read_slice_at; [done|by len]).
  unfold mret, ST_ret. by rewrite le_decode_encode_small by (simpl; exact Hsw).
Qed.

(** [next_free] pops the free list, or extends the table by one slot. *)
Lemma next_free_spec t w free : table_wf t → free_at t w (last_removed t) free →
  1 ≤ filled t → filled t + 1 < 2 ^ 64 →
  ∃ i t' free',
    next_free (t, w) = (Ok i, (t', w)) ∧ same_shape t t' ∧
    free_at t' w (last_removed t') free' ∧ 1 ≤ i ∧
    filled t ≤ filled t' ≤ filled t + 1 ∧ (free ≠ [] → filled t' = filled t) ∧
    i :: free' = free ++ seqZ (filled t) (filled t' - filled t).
Proof.
  intros Hwf Hf Hfill Hmax. unfold next_free.
  erewrite ST_bind_Ok by done. destruct free as [|i free']; cbn in Hf.
  - rewrite Hf. cbn [Z.eqb negb]. eexists _, _, []. split.
    { erewrite ST_bind_Ok by (erewrite ST_bind_Ok by done; done).
      erewrite ST_bind_Ok by done. done. }
    cbn [last_removed filled set_filled set_dirty_header].
    rewrite wrap64_small by (unfold is_u64; lia). split_and!; try done; try lia.
    replace (filled t + 1 - filled t) with 1 by lia. done.
  - destruct Hf as (<- & Hi & n & Hs & Hf).
    destruct (Z.eqb_spec (last_removed t) 0); [lia|]. cbn [negb].
    eexists _, _, free'. split.
    { erewrite ST_bind_Ok.
      2: { erewrite ST_bind_Ok.
           2: { unfold reading. by rewrite (read_next_free_tomb t w _ n Hwf Hs). }
           erewrite ST_bind_Ok by done. done. }
      erewrite ST_bind_Ok by done. done. }
    cbn [last_removed filled set_last_removed set_dirty_header]. split_and!; try done; try lia.
    + eapply free_at_frame; [|done|done]. done.
    + replace (filled t - filled t) with 0 by lia. cbn. by rewrite app_nil_r.
Qed.

Lemma clear_slot_spec t w i : is_u64 (last_removed t) →
  ∃ t', clear_slot i (t, w) =
    (Ok tt, (t', LogWriter.insert_value (vt_id t) i (encode_slot (Tomb (last_removed t))) w)) ∧
    same_shape t t' ∧ filled t' = filled t ∧ last_removed t' = i.
Proof.
  intros Hr. unfold clear_slot. erewrite ST_bind_Ok by done. eexists. split.
  { erewrite ST_bind_Ok.
    2: { unfold lift_st. erewrite run_entry_Ok; [done|].
         pose proof (length_uninit 10) as Hu.
         destruct (uninit 10) as [|a [|b l]]; [done..|]. unfold Entry.new.
         erewrite ST_bind_Ok by (apply (write_slice_at [] [a; b] l TOMBSTONE); done).
         cbn [Nat.add length app]. rewrite <- (app_nil_r l).
         unfold Entry.write_next, Entry.write_u64.
         apply (write_slice_at TOMBSTONE l [] (le_encode 8 (last_removed t))).
         rewrite length_le_encode. simpl in Hu. lia. }
    cbv beta iota. erewrite ST_bind_Ok by done. erewrite ST_bind_Ok by done.
    cbn [e_offset e_data]. rewrite app_nil_r, take_ge by (cbn; len). done. }
  done.
Qed.

(** Freeing a slot pushes it on the free list. *)
Lemma free_at_push t t' w i free : same_shape t t' → free_at t w (last_removed t) free →
  is_u64 (last_removed t) → 1 ≤ i → i ∉ free →
  free_at t' (LogWriter.insert_value (vt_id t) i (encode_slot (Tomb (last_removed t))) w) i
    (i :: free).
Proof.
  intros Hsh Hf Hr Hi Hni. cbn. split_and!; [done..|]. exists (last_removed t). split.
  - eapply slot_is_frame; [done|done|]. by apply slot_is_insert.
  - eapply free_at_frame; [done| |done]. intros k Hk. rewrite value_view_insert_value.
    rewrite decide_False; [done|]. naive_solver.
Qed.

Lemma free_head_u64 t w free : free_at t w (last_removed t) free →
  Forall is_u64 free → is_u64 (last_removed t).
Proof.
  destruct free as [|i free]; cbn.
  - intros -> _. done.
  - intros (-> & _) Hall. by inversion Hall.
Qed.

(** [clear_chain] frees every slot of a chain, the last one first on the list. *)
Lemma clear_chain_loop_spec idxs i fuel t w free : table_wf t → links t w (i :: idxs) →
  1 ≤ i → NoDup (i :: idxs ++ free) → Forall is_u64 (i :: idxs) → Forall is_u64 free →
  free_at t w (last_removed t) free → (length (i :: idxs) ≤ fuel)%nat →
  ∃ t' w', clear_chain_loop fuel i (t, w) = (Ok tt, (t', w')) ∧ same_shape t t' ∧
    filled t' = filled t ∧ free_at t' w' (last_removed t') (reverse (i :: idxs) ++ free) ∧
    log_frame t (i :: idxs) w w'.
Proof.
  revert i fuel t w free.
  induction idxs as [|j idxs IH]; intros i fuel t w free Hwf Hl Hi Hnd Hall Hfree Hf Hfuel;
    (destruct fuel as [|fuel]; [simpl in Hfuel; lia|]); cbn [clear_chain_loop].
  all: pose proof (free_head_u64 t w free Hf Hfree) as Hr.
  all: destruct (clear_slot_spec t w i Hr) as (t1 & Hcs & Hsh & Hfill & Hlr).
  - destruct Hl as (c & p & Hs). erewrite ST_bind_Ok.
    2: { unfold reading. by rewrite (read_next_part_slot t w i _ Hwf Hs). }
    eexists _, _. split; [exact Hcs|]. rewrite Hlr. split_and!; [done..| |exact (log_frame_insert t i (Tomb (last_removed t)) w Hr)].
    apply free_at_push; try done. by inversion Hnd.
  - destruct Hl as ((m & p & Hs) & Hj & Hl). erewrite ST_bind_Ok.
    2: { unfold reading. by rewrite (read_next_part_slot t w i _ Hwf Hs). }
    cbv beta iota. erewrite ST_bind_Ok by exact Hcs.
    apply NoDup_cons in Hnd as [Hni Hnd']. apply Forall_cons in Hall as [Hu Hall'].
    destruct (IH j fuel t1 (LogWriter.insert_value (vt_id t) i
      (encode_slot (Tomb (last_removed t))) w) (i :: free))
      as (t' & w' & Hrun & Hsh' & Hfill' & Hf' & Hfr).
    + by eapply same_shape_wf.
    + eapply links_frame; [done| |done]. intros k Hk. rewrite value_view_insert_value.
      rewrite decide_False; [done|]. intros [_ ->]. set_solver.
    + done.
    + rewrite app_comm_cons, <- Permutation_middle. by constructor.
    + done.
    + by constructor.
    + rewrite Hlr. apply free_at_push; try done. set_solver.
    + simpl in *. lia.
    + eexists _, _. split; [exact Hrun|]. split_and!.
      * by etrans.
      * congruence.
      * rewrite (reverse_cons (j :: idxs) i), <- (assoc_L (++)). exact Hf'.
      * eapply log_frame_trans;
          [exact (log_frame_insert t i (Tomb (last_removed t)) w Hr)|by eapply log_frame_shape
          |set_solver..].
Qed.

(** *** Writing one part *)

(** A buffer whose cursor stands after the bytes [bs]. *)
Definition cursor (bs rest : bytes) : Entry := MkEntry (length bs) (bs ++ rest).

Lemma write_slice_cursor bs rest d : (length d ≤ length rest)%nat →
  Entry.write_slice d (cursor bs rest) = (Ok tt, cursor (bs ++ d) (drop (length d) rest)).
Proof.
  intros Hl. unfold cursor. rewrite <- (take_drop (length d) rest) at 1.
  rewrite write_slice_at by len. by rewrite length_app, <- (assoc_L (++)).
Qed.

(** The remaining payload at an iteration: everything at the first one, a
    suffix of the value afterwards. *)
Definition remaining (t : ValueTable) (key : TableKey) (val : bytes) (start : Z) (offset : nat)
    (p : bytes) : Prop :=
  (start = 0 ∧ offset = 0%nat ∧ p = rc_bytes t 1 ++ key_bytes key ++ val) ∨
  (start ≠ 0 ∧ offset ≠ 0%nat ∧ (offset ≤ length val)%nat ∧ p = drop offset val).

Definition key_wf (key : TableKey) : Prop :=
  length (key_bytes key) = TableKey.encoded_size key.

Lemma key_wf_le key : key_wf key → (length (key_bytes key) ≤ 26)%nat.
Proof. unfold key_wf, TableKey.encoded_size, PARTIAL_SIZE. destruct key; lia. Qed.

Lemma rc_bytes_length t rc : length (rc_bytes t rc) = ref_size t.
Proof. unfold rc_bytes, ref_size. by destruct (ref_counted t); len. Qed.

Definition part_slot (t : ValueTable) (first compressed : bool) (next : Z) (p : bytes) : Slot :=
  if (esz t - 2 <? length p)%nat
  then Multi (part_marker first compressed) next (take (esz t - 10) p)
  else Sized compressed p.

(** The header of a part: marker and link, or size. *)
Lemma write_part_header t compressed start next (p rest : bytes) : table_wf t →
  (10 ≤ length rest)%nat →
  let more := (esz t - 2 <? length p)%nat in
  let hdr := if more then part_marker (start =? 0) compressed ++ le_encode 8 next
             else le_encode 2 (size_word compressed (length p)) in
  (if more then
     _ ← (if start =? 0 then
            if compressed then Entry.write_multihead_compressed else Entry.write_multihead
          else Entry.write_multipart);
     Entry.write_next next
   else Entry.write_size (wrap16 (Z.of_nat (length p))) compressed) (cursor [] rest) =
  (Ok tt, cursor hdr (drop (length hdr) rest)).
Proof.
  intros Hwf Hrest. cbv zeta. pose proof (wf_size t Hwf) as Hs.
  destruct (Nat.ltb_spec (esz t - 2) (length p)) as [Hm|Hm].
  - assert (E : (if start =? 0 then
            if compressed then Entry.write_multihead_compressed else Entry.write_multihead
          else Entry.write_multipart) = Entry.write_slice (part_marker (start =? 0) compressed)).
    { by destruct (start =? 0), compressed. }
    rewrite E. assert (Hl : length (part_marker (start =? 0) compressed) = 2%nat)
      by by destruct (start =? 0), compressed.
    erewrite ST_bind_Ok by (apply write_slice_cursor; lia).
    unfold Entry.write_next, Entry.write_u64. rewrite write_slice_cursor by len.
    by rewrite drop_drop, length_app.
  - unfold Entry.write_size. rewrite write_slice_cursor by (rewrite length_le_encode; lia).
    unfold size_word. do 3 f_equal.
    all: unfold wrap16; rewrite Z.mod_small
      by (unfold esz, MAX_ENTRY_SIZE in *; lia); done.
Qed.

(** The counter and the key, in the first part only. *)
Lemma write_part_key t key (offset : nat) (bs rest : bytes) : key_wf key → (30 ≤ length rest)%nat →
  (if (offset =? 0)%nat then
     _ ← (if ref_counted t then Entry.write_rc 1 else mret tt);
     TableKey.write key
   else mret tt) (cursor bs rest) =
  let h := if (offset =? 0)%nat then rc_bytes t 1 ++ key_bytes key else [] in
  (Ok tt, cursor (bs ++ h) (drop (length h) rest)).
Proof.
  intros Hk Hrest. cbv zeta. pose proof (key_wf_le key Hk).
  destruct (offset =? 0)%nat; [|by rewrite app_nil_r].
  unfold rc_bytes. assert (E : ∀ bs' rest', (26 ≤ length rest')%nat →
    TableKey.write key (cursor bs' rest') =
    (Ok tt, cursor (bs' ++ key_bytes key) (drop (length (key_bytes key)) rest'))).
  { intros bs' rest' Hr. destruct key; cbn [TableKey.write key_bytes] in *.
    - apply write_slice_cursor. lia.
    - by rewrite app_nil_r. }
  destruct (ref_counted t).
  - unfold Entry.write_rc.
    erewrite ST_bind_Ok by (apply write_slice_cursor; len).
    rewrite E by len. by rewrite drop_drop, <- (assoc_L (++)), length_app.
  - erewrite ST_bind_Ok by done. by rewrite E by lia.
Qed.

(** The counter and key bytes written before the payload of a part, and the
    number of payload bytes it takes. *)
Definition part_head (t : ValueTable) (key : TableKey) (offset : nat) : bytes :=
  if (offset =? 0)%nat then rc_bytes t 1 ++ key_bytes key else [].
Definition part_len (t : ValueTable) (p : bytes) : nat :=
  if (esz t - 2 <? length p)%nat then (esz t - SIZE_SIZE - INDEX_SIZE)%nat else length p.

Lemma part_head_le t key offset : key_wf key → (length (part_head t key offset) ≤ 30)%nat.
Proof.
  intros Hk. pose proof (key_wf_le key Hk). pose proof (rc_bytes_length t 1) as Hrc.
  unfold part_head, ref_size, REFS_SIZE in *. destruct (offset =? 0)%nat, (ref_counted t); len.
Qed.

Lemma part_len_bounds t key val start offset p : table_wf t → key_wf key →
  remaining t key val start offset p → ((esz t - 2 < length p)%nat → multipart t = true) →
  (length (part_head t key offset) ≤ part_len t p ≤ length p)%nat.
Proof.
  intros Hwf Hk Hrem Hmp. pose proof (part_head_le t key offset Hk) as Hh.
  unfold part_len. destruct (Nat.ltb_spec (esz t - 2) (length p)) as [Hm|Hm].
  - pose proof (wf_multipart t Hwf (Hmp Hm)). unfold esz, INDEX_SIZE, SIZE_SIZE in *. lia.
  - split; [|done]. clear Hh. unfold part_head.
    destruct Hrem as [(-> & -> & ->)|(_ & Ho & _ & ->)]; [cbn [Nat.eqb]; len|].
    destruct (Nat.eqb_spec offset 0); [done|]. simpl. lia.
Qed.

(** The value bytes a part takes, and what is left for the next one. *)
Lemma remaining_split t key val start offset p n : remaining t key val start offset p →
  (length (part_head t key offset) ≤ n ≤ length p)%nat →
  let used := (n - length (part_head t key offset))%nat in
  slice offset (offset + n - length (part_head t key offset)) val =
    Ok (take used (drop offset val)) ∧
  part_head t key offset ++ take used (drop offset val) = take n p ∧
  drop (offset + used) val = drop n p ∧ (offset + used ≤ length val)%nat.
Proof.
  unfold part_head. cbv zeta. intros Hrem Hn.
  destruct Hrem as [(-> & -> & ->)|(_ & Ho & Hov & ->)]; cbn [Nat.eqb] in *.
  - rewrite (assoc_L (++) (rc_bytes t 1)) in *. set (h := rc_bytes t 1 ++ key_bytes key) in *.
    rewrite length_app in Hn. rewrite slice_Ok by lia. split_and!.
    + do 2 f_equal. lia.
    + by rewrite take_app_ge by lia.
    + by rewrite drop_app_ge by lia.
    + lia.
  - destruct (Nat.eqb_spec offset 0); [done|]. rewrite length_drop in Hn. cbn in *.
    rewrite slice_Ok by lia. split_and!; [do 2 f_equal; lia|by rewrite Nat.sub_0_r| |lia].
    rewrite drop_drop. f_equal. lia.
Qed.

Lemma write_part_spec t key val compressed start next offset p :
  table_wf t → key_wf key → remaining t key val start offset p →
  ((esz t - 2 < length p)%nat → multipart t = true) →
  ∃ used rest,
    run_entry (write_part t key val compressed start next (length p) offset (part_len t p)
                 (esz t - 2 <? length p)%nat)
      (Entry.new (uninit MAX_ENTRY_BUF_SIZE)) =
    Ok (used, cursor (encode_slot (part_slot t (start =? 0) compressed next p)) rest) ∧
    drop (offset + used) val = drop (part_len t p) p ∧ (offset + used ≤ length val)%nat ∧
    ((esz t - 2 < length p)%nat → offset + used ≠ 0)%nat.
Proof.
  intros Hwf Hk Hrem Hmp. pose proof (wf_size t Hwf) as Hsz.
  pose proof (part_head_le t key offset Hk) as Hh.
  pose proof (part_len_bounds t key val start offset p Hwf Hk Hrem Hmp) as Hpl.
  destruct (remaining_split t key val start offset p (part_len t p) Hrem Hpl)
    as (Hslice & Htake & Hdrop & Hle).
  assert (Hu : length (uninit MAX_ENTRY_BUF_SIZE) = Z.to_nat 0x8000) by apply length_uninit.
  assert (Hes : (32 ≤ esz t ≤ Z.to_nat 0x7ff8)%nat)
    by (unfold esz, MIN_ENTRY_SIZE, MAX_ENTRY_SIZE in *; lia).
  assert (Hhdr : (length (if (esz t - 2 <? length p)%nat
      then part_marker (start =? 0)%Z compressed ++ le_encode 8 next
      else le_encode 2 (size_word compressed (length p))) + part_len t p ≤ esz t ∧
    length (if (esz t - 2 <? length p)%nat
      then part_marker (start =? 0)%Z compressed ++ le_encode 8 next
      else le_encode 2 (size_word compressed (length p))) ≤ 10)%nat).
  { unfold part_len, INDEX_SIZE, SIZE_SIZE. destruct (Nat.ltb_spec (esz t - 2) (length p)).
    - destruct (start =? 0), compressed; cbn; len.
    - len. }
  exists (part_len t p - length (part_head t key offset))%nat. eexists. split_and!; [|done|done|].
  - apply run_entry_Ok. unfold write_part.
    change (Entry.new (uninit MAX_ENTRY_BUF_SIZE)) with (cursor [] (uninit MAX_ENTRY_BUF_SIZE)).
    erewrite ST_bind_Ok by (apply write_part_header; [done|lia]).
    set (hdr := if (esz t - 2 <? length p)%nat then _ else _) in *.
    erewrite ST_bind_Ok by done.
    erewrite ST_bind_Ok by (apply write_part_key; [done|len]).
    fold (part_head t key offset). cbv zeta. erewrite ST_bind_Ok by done. cbn [cursor e_offset].
    replace (length (hdr ++ part_head t key offset) - length hdr)%nat
      with (length (part_head t key offset)) by len.
    erewrite ST_bind_Ok by (unfold lift_st; by rewrite Hslice).
    erewrite ST_bind_Ok by (apply write_slice_cursor; len).
    unfold mret, ST_ret. do 2 f_equal. rewrite <- (assoc_L (++)), Htake.
    unfold part_slot, hdr, part_len.
    destruct (esz t - 2 <? length p)%nat; cbn [encode_slot]; [|by rewrite take_ge].
    rewrite <- (assoc_L (++)). do 3 f_equal. unfold INDEX_SIZE, SIZE_SIZE. lia.
  - intros Hlt. pose proof (wf_multipart t Hwf (Hmp Hlt)). unfold part_len in *.
    destruct (Nat.ltb_spec (esz t - 2) (length p)); [|lia].
    unfold esz, INDEX_SIZE, SIZE_SIZE in *. lia.
Qed.

(** *** Overwriting a chain *)

(** Distinct slots below [n] are fewer than [n]. *)
Lemma range_length (l : list Z) (n : Z) : NoDup l → Forall (fun i => 1 ≤ i < n) l →
  (length l ≤ Z.to_nat n)%nat.
Proof.
  intros Hnd Hl. trans (length (seqZ 0 n)); [|by rewrite length_seqZ].
  apply submseteq_length, NoDup_submseteq; [done|]. intros i Hi. apply elem_of_seqZ.
  rewrite Forall_forall in Hl. specialize (Hl i Hi). lia.
Qed.

(** Where the loop stands: slot [index] is to be written, [old] are the slots
    that followed it in the chain being replaced. *)
Record at_slot (t : ValueTable) (w : LogWriter) (index : Z) (follow : bool) (old free : list Z)
    : Prop := {
  at_wf : table_wf t;
  at_links : if follow then links t w (index :: old) else old = [];
  at_nodup : NoDup (index :: old ++ free);
  at_range : Forall (fun i => 1 ≤ i < filled t) (index :: old ++ free);
  at_free : free_at t w (last_removed t) free;
  at_filled : 1 ≤ filled t;
}.

Lemma at_slot_head t w index follow old free : at_slot t w index follow old free →
  (if follow then reading (fun t w => read_next_part t index w) else mret None) (t, w) =
  (Ok (head old), (t, w)).
Proof.
  intros [Hwf Hl _ _ _ _]. destruct follow; [|by subst]. unfold reading.
  destruct old as [|j old]; cbn in Hl.
  - destruct Hl as (c & p & Hs). by rewrite (read_next_part_slot t w index _ Hwf Hs).
  - destruct Hl as ((m & p & Hs) & _). by rewrite (read_next_part_slot t w index _ Hwf Hs).
Qed.

Lemma at_slot_u64 t w index follow old free : at_slot t w index follow old free →
  filled t < 2 ^ 63 → Forall is_u64 (index :: old ++ free).
Proof.
  intros Ha Hm. eapply Forall_impl; [apply (at_range _ _ _ _ _ _ Ha)|].
  intros i Hi. unfold is_u64. cbn in Hi. lia.
Qed.

Lemma at_slot_fresh t w index follow old free n : at_slot t w index follow old free →
  index ∉ old ++ free ++ seqZ (filled t) n.
Proof.
  intros [_ _ Hnd Hr _ _]. apply NoDup_cons in Hnd as [Hni _]. pose proof (Forall_inv Hr) as Hi.
  cbn in Hi. rewrite (assoc_L (++)), not_elem_of_app. split; [done|].
  rewrite elem_of_seqZ. lia.
Qed.

(** The next slot of the chain: the old next one, else a new one. *)
Lemma at_slot_next t w index follow old free : at_slot t w index follow old free →
  filled t + 1 < 2 ^ 63 →
  ∃ j t1 old1 free1,
    (if negb match head old with Some _ => true | None => false end then next_free
     else mret (default 0 (head old))) (t, w) = (Ok j, (t1, w)) ∧
    same_shape t t1 ∧ filled t ≤ filled t1 ≤ filled t + 1 ∧
    j :: old1 ++ free1 = old ++ free ++ seqZ (filled t) (filled t1 - filled t) ∧
    ∀ d, at_slot t1 (LogWriter.insert_value (vt_id t) index d w) j
      (match head old with Some _ => true | None => false end) old1 free1.
Proof.
  intros [Hwf Hl Hnd Hr Hf Hfill] Hm. destruct old as [|j old]; cbn [head negb default id].
  - destruct (next_free_spec t w free Hwf Hf Hfill ltac:(lia))
      as (j & t1 & free1 & Hrun & Hsh & Hf1 & Hj & Hfl & _ & Heq).
    exists j, t1, [], free1. split_and!; [done|done|lia|lia|done|]. intros d. cbn [app] in *.
    assert (Hnd1 : NoDup (index :: j :: free1)).
    { rewrite Heq, app_comm_cons. apply NoDup_app. split_and!; [done| |apply NoDup_seqZ].
      intros i Hi Hs%elem_of_seqZ. rewrite Forall_forall in Hr. specialize (Hr i Hi). lia. }
    apply NoDup_cons in Hnd1 as [Hni Hnd1].
    split; [by eapply same_shape_wf|done|done| | |lia].
    + cbn [app]. rewrite Heq. apply Forall_app. split.
      * apply Forall_cons in Hr as [_ Hr]. eapply Forall_impl; [exact Hr|]. cbn. lia.
      * apply Forall_forall. intros i Hi%elem_of_seqZ. lia.
    + eapply free_at_frame; [by apply reflexivity| |exact Hf1]. intros k Hk.
      rewrite value_view_insert_value, decide_False; [done|]. intros [_ ->]. set_solver.
  - apply NoDup_cons in Hnd as [Hni Hnd]. apply Forall_cons in Hr as [Hi Hr].
    destruct follow; [|done]. rewrite links_cons in Hl. destruct Hl as (_ & Hj & Hl).
    exists j, t, old, free. replace (filled t - filled t) with 0 by lia. cbn [seqZ].
    rewrite app_nil_r. split_and!; [done|done|lia|lia|done|]. intros d. split; try done.
    + eapply links_frame; [by apply reflexivity| |exact Hl]. intros k Hk.
      rewrite value_view_insert_value, decide_False; [done|]. intros [_ ->]. set_solver.
    + eapply free_at_frame; [by apply reflexivity| |exact Hf]. intros k Hk.
      rewrite value_view_insert_value, decide_False; [done|]. intros [_ ->]. set_solver.
Qed.

Lemma take_cursor bs rest : take (e_offset (cursor bs rest)) (e_data (cursor bs rest)) = bs.
Proof. cbn. by rewrite take_app_length. Qed.

Lemma part_slot_wf t first compressed next p :
  ((esz t - 2 < length p)%nat → multipart t = true ∧ is_u64 next) → table_wf t →
  slot_wf t (part_slot t first compressed next p).
Proof.
  intros Hm [Hs _]. unfold part_slot. destruct (Nat.ltb_spec (esz t - 2) (length p)) as [Hl|Hl].
  - destruct (Hm Hl) as [Hmp Hn]. cbn. split_and!; [done| |done|].
    + destruct first, compressed; cbn; auto.
    + unfold esz, MIN_ENTRY_SIZE in *. len.
  - cbn. unfold esz, MIN_ENTRY_SIZE in *. lia.
Qed.

(** The new slot survives what happens elsewhere. *)
Lemma slot_is_written t t' w w' i s S : slot_wf t s → same_shape t t' → i ∉ S →
  log_frame t S (LogWriter.insert_value (vt_id t) i (encode_slot s) w) w' →
  slot_is t' w' i s.
Proof.
  intros Hs Hsh Hi Hfr. eapply slot_is_frame; [exact Hsh| |by apply (slot_is_insert t w)].
  apply (fr_value _ _ _ _ Hfr). by right.
Qed.

(** The iteration that writes the last part: the rest of the old chain is
    freed. *)
Lemma overwrite_last t w index follow old free first compressed p :
  at_slot t w index follow old free → filled t < 2 ^ 63 → (length p ≤ esz t - 2)%nat →
  ∃ t' w',
    (if negb (default 0 (head old) =? 0) then clear_chain (default 0 (head old)) else mret tt)
      (t, LogWriter.insert_value (vt_id t) index
            (encode_slot (part_slot t first compressed (default 0 (head old)) p)) w) =
      (Ok tt, (t', w')) ∧
    same_shape t t' ∧ filled t' = filled t ∧ chain_at t' w' compressed first [index] p ∧
    free_at t' w' (last_removed t') (reverse old ++ free) ∧
    log_frame t (index :: old ++ free) w w'.
Proof.
  intros Hat Hm Hp. pose proof (at_slot_u64 _ _ _ _ _ _ Hat Hm) as Hu.
  destruct Hat as [Hwf Hl Hnd Hr Hf Hfill].
  assert (Hsl : slot_wf t (part_slot t first compressed (default 0 (head old)) p))
    by (apply part_slot_wf; [lia|done]).
  unfold part_slot in *. rewrite (proj2 (Nat.ltb_ge _ _) Hp) in *.
  apply NoDup_cons in Hnd as [Hni Hnd].
  set (w1 := LogWriter.insert_value _ _ _ w).
  assert (Hw1 : ∀ k, k ≠ index → value_view w1 (vt_id t) k = value_view w (vt_id t) k).
  { intros k Hk. unfold w1. rewrite value_view_insert_value, decide_False; naive_solver. }
  assert (Hf1 : free_at t w1 (last_removed t) free).
  { eapply free_at_frame; [by apply reflexivity| |exact Hf]. intros k Hk. apply Hw1. intros ->. set_solver. }
  destruct old as [|j old]; cbn [head default id].
  - exists t, w1. split_and!; try done.
    + by apply slot_is_insert.
    + eapply log_frame_mono; [exact (log_frame_insert t index _ w Hsl)|set_solver].
  - apply Forall_cons in Hr as [Hi Hr].
    assert (Hlk : links t w (j :: old)) by (destruct follow; [by apply Hl|done]).
    apply Forall_cons in Hu as [_ Hu]. cbn [app] in Hr, Hu, Hni.
    pose proof (Forall_inv Hr) as Hj. cbn in Hj. destruct (Z.eqb_spec j 0); [lia|]. cbn [negb].
    destruct (clear_chain_loop_spec old j (parts_fuel t) t w1 free)
      as (t' & w' & Hrun & Hsh & Hfl & Hf' & Hfr); try done.
    + eapply links_frame; [by apply reflexivity| |exact Hlk]. intros k Hk. apply Hw1. intros ->. set_solver.
    + lia.
    + rewrite app_comm_cons in Hu. by apply Forall_app in Hu as [Hu _].
    + rewrite app_comm_cons in Hu. by apply Forall_app in Hu as [_ Hu].
    + unfold parts_fuel. trans (length (j :: old ++ free)); [cbn [length]; len|].
      trans (Z.to_nat (filled t)); [by apply range_length|lia].
    + exists t', w'. split_and!; try done.
      * eapply slot_is_written; [exact Hsl|exact Hsh| |exact Hfr]. set_solver.
      * eapply log_frame_trans; [exact (log_frame_insert t index _ w Hsl)|exact Hfr|set_solver..].
Qed.

(** The loop writes the remaining payload from [index] on, over the old chain
    first, then over free and new slots, and frees what is left of the chain. *)
Lemma overwrite_loop_spec key val compressed fuel : ∀ t w index follow old free start offset p,
  at_slot t w index follow old free → key_wf key → remaining t key val start offset p →
  ((esz t - 2 < length p)%nat → multipart t = true) →
  filled t + Z.of_nat (length p) < 2 ^ 63 → (length p < fuel)%nat →
  ∃ t' w' new free',
    overwrite_loop fuel key val compressed (length p) offset start index follow (t, w) =
      (Ok (if start =? 0 then index else start), (t', w')) ∧
    same_shape t t' ∧ filled t ≤ filled t' ≤ filled t + Z.of_nat (length p) ∧
    chain_at t' w' compressed (start =? 0) (index :: new) p ∧
    free_at t' w' (last_removed t') free' ∧
    new ++ free' ≡ₚ old ++ free ++ seqZ (filled t) (filled t' - filled t) ∧
    log_frame t (index :: old ++ free ++ seqZ (filled t) (filled t' - filled t)) w w'.
Proof.
  induction fuel as [|fuel IH]; intros t w index follow old free start offset p
    Hat Hk Hrem Hmp Hfill Hfuel; [lia|].
  cbn [overwrite_loop]. erewrite ST_bind_Ok by (eapply at_slot_head, Hat).
  erewrite ST_bind_Ok by done. cbv beta iota. fold (esz t).
  change (esz t - SIZE_SIZE)%nat with (esz t - 2)%nat.
  set (follow' := match head old with Some _ => true | None => false end).
  pose proof (at_wf _ _ _ _ _ _ Hat) as Hwf.
  destruct (esz t - 2 <? length p)%nat eqn:Hmore.
  - pose proof (proj1 (Nat.ltb_lt _ _) Hmore) as Hlt. cbn [andb].
    destruct (at_slot_next t w index follow old free Hat)
      as (j & t1 & old1 & free1 & Hnext & Hsh1 & Hfl1 & Heq1 & Hat1); [lia|].
    fold follow' in Hnext. erewrite ST_bind_Ok by exact Hnext.
    destruct (write_part_spec t key val compressed start j offset p Hwf Hk Hrem Hmp)
      as (used & rest & Hwp & Hdrop & Hle & Hne).
    rewrite Hmore in Hwp. unfold part_len in Hwp, Hdrop. rewrite Hmore in Hwp, Hdrop.
    unfold SIZE_SIZE in Hwp, Hdrop.
    erewrite ST_bind_Ok by (unfold lift_st; by rewrite Hwp). cbv beta iota.
    erewrite ST_bind_Ok by done. cbv beta iota zeta. rewrite take_cursor.
    pose proof (wf_multipart t Hwf (Hmp Hlt)) as H4096.
    assert (Hn : (esz t = 4096)%nat) by (unfold esz; lia).
    set (p1 := drop (esz t - 2 - INDEX_SIZE) p) in *.
    assert (Hp1 : (length p - (esz t - 2 - INDEX_SIZE) = length p1)%nat) by (unfold p1; len).
    assert (Hp1' : (0 < length p1 ∧ length p1 + 1 ≤ length p)%nat)
      by (unfold p1, INDEX_SIZE in *; len).
    rewrite Hp1. destruct (Nat.eqb_spec (length p1) 0); [lia|].
    pose proof (Forall_inv (at_range _ _ _ _ _ _ Hat)) as Hi. cbn in Hi.
    set (d := encode_slot _). specialize (Hat1 d). fold follow' in Hat1.
    set (start1 := if start =? 0 then index else start).
    assert (Hs1 : (start1 =? 0) = false) by (unfold start1; destruct (Z.eqb_spec start 0); lia).
    destruct (IH t1 (LogWriter.insert_value (vt_id t) index d w) j follow' old1 free1 start1
      (offset + used)%nat p1) as (t' & w' & new & free' & Hrun & Hsh & Hfl & Hc & Hf & Hperm & Hfr);
      try done.
    + right. split_and!; [lia|auto|done|done].
    + rewrite (same_shape_esz _ _ Hsh1), (sh_multipart _ _ Hsh1). auto.
    + lia.
    + lia.
    + assert (Heq2 : j :: old1 ++ free1 ++ seqZ (filled t1) (filled t' - filled t1) =
                     old ++ free ++ seqZ (filled t) (filled t' - filled t)).
      { rewrite (assoc_L (++)), app_comm_cons, Heq1, <- !(assoc_L (++)). do 2 f_equal.
        replace (filled t' - filled t) with ((filled t1 - filled t) + (filled t' - filled t1))
          by lia. rewrite seqZ_app by lia. do 2 f_equal. lia. }
      apply (log_frame_shape t) in Hfr; [|done]. rewrite Heq2 in Hfr. rewrite Hs1 in Hrun, Hc.
      pose proof (Forall_inv (at_range _ _ _ _ _ _ Hat1)) as Hj. cbn in Hj.
      assert (Hsl : slot_wf t (part_slot t (start =? 0) compressed j p))
        by (apply part_slot_wf; [split; [auto|unfold is_u64; lia]|done]).
      exists t', w', (j :: new), free'. split_and!; try done; try lia.
      * by etrans.
      * apply chain_at_cons. pose proof (same_shape_esz _ _ (transitivity Hsh1 Hsh)) as Hes.
        assert (Hps : part_slot t (start =? 0) compressed j p =
          Multi (part_marker (start =? 0) compressed) j (take (esz t - 10) p))
          by (unfold part_slot; by rewrite Hmore).
        rewrite Hes, <- Hps. replace (esz t - 10)%nat with (esz t - 2 - INDEX_SIZE)%nat
          by (unfold INDEX_SIZE; lia).
        split_and!; [|done|lia|done].
        eapply (slot_is_written t); [done|by etrans|by eapply at_slot_fresh|exact Hfr].
      * cbn [app]. by rewrite Hperm, Heq2.
      * eapply log_frame_trans; [exact (log_frame_insert t index _ w Hsl)|exact Hfr|set_solver..].
  - pose proof (proj1 (Nat.ltb_ge _ _) Hmore) as Hge. cbn [andb].
    erewrite ST_bind_Ok by done.
    destruct (write_part_spec t key val compressed start (default 0 (head old)) offset p
      Hwf Hk Hrem Hmp) as (used & rest & Hwp & _).
    rewrite Hmore in Hwp. unfold part_len in Hwp. rewrite Hmore in Hwp.
    erewrite ST_bind_Ok by (unfold lift_st; by rewrite Hwp). cbv beta iota.
    erewrite ST_bind_Ok by done. cbv beta iota zeta. rewrite take_cursor, Nat.sub_diag. cbn [Nat.eqb].
    destruct (overwrite_last t w index follow old free (start =? 0) compressed p Hat)
      as (t' & w' & Hrun & Hsh & Hfl & Hc & Hf & Hfr); [lia|lia|].
    erewrite ST_bind_Ok by exact Hrun. exists t', w', [], (reverse old ++ free).
    rewrite Hfl, Z.sub_diag. cbn [seqZ]. rewrite app_nil_r. split_and!; try done; try lia.
    cbn. by rewrite reverse_Permutation.
Qed.

End Ops.
