(* ===== verification/TableRefine.v ===== *)
(** * Value tables refine a store of values

    The write operations of src/src/table.rs, started on a table whose slots
    represent a free list and a collection of stored values, end on a table
    that represents the collection the operation promises. The reading
    operations return what is stored. *)

From S2P Require Import Prelude.
From S2P Require Import Bytes.
From S2P Require Import Ids.
From S2P Require Import File.
From S2P Require Import Log.
From S2P Require Import Table.
From S2P Require Import TableSpec.
From S2P Require Import TableOps.
From stdpp Require Import options.
#[local] Set Default Proof Using "Type*".

Abbreviation Vals := (list (list Z * Stored)).

(** The slots taken by stored values. *)
Abbreviation used_slots vals := (concat (fst <$> (vals : Vals))).

#[global] Instance used_slots_Proper : Proper ((≡ₚ) ==> (≡ₚ)) (fun vals : Vals => used_slots vals).
Proof.
  intros l1 l2 Hl. induction Hl as [|[i s] l1 l2 _ IH|[i1 s1] [i2 s2] l|l1 l2 l3 _ IH1 _ IH2]; cbn.
  - done.
  - by rewrite IH.
  - by rewrite !(assoc_L (++)), (comm (++) i1).
  - by etrans.
Qed.

(** The order in which the stored values are listed is immaterial. *)
#[global] Instance repr_Proper {L} `{LogView L} t (log : L) free :
  Proper ((≡ₚ) ==> iff) (repr t log free).
Proof.
  intros v1 v2 Hv. split; intros [W F S R V]; split; try done.
  - by rewrite <- S, Hv.
  - by rewrite <- Hv.
  - by rewrite <- S, Hv.
  - by rewrite Hv.
Qed.

Section Repr.
Context {L} `{LogView L}.

Lemma repr_nodup t (log : L) free vals : repr t log free vals → NoDup (free ++ used_slots vals).
Proof. intros Hr. rewrite (r_slots _ _ _ _ Hr). apply NoDup_seqZ. Qed.

Lemma repr_range t (log : L) free vals : repr t log free vals →
  Forall (fun i => 1 ≤ i < filled t) (free ++ used_slots vals).
Proof.
  intros Hr. rewrite (r_slots _ _ _ _ Hr). apply Forall_forall. intros i Hi%elem_of_seqZ. lia.
Qed.

Lemma repr_elem t (log : L) free vals idxs s : repr t log free vals → (idxs, s) ∈ vals →
  stored_wf t s ∧ chain_at t log (s_compressed s) true idxs (payload t s).
Proof. intros [_ _ _ _ Hv] Hin. rewrite Forall_forall in Hv. apply (Hv _ Hin). Qed.

(** A stored value takes fewer parts than the loop of [for_parts] allows. *)
Lemma repr_parts t (log : L) free vals idxs s : repr t log free vals → (idxs, s) ∈ vals →
  (length idxs ≤ parts_fuel t)%nat.
Proof.
  intros Hr Hin. unfold parts_fuel. trans (Z.to_nat (filled t)); [|lia].
  pose proof (repr_nodup _ _ _ _ Hr) as Hnd. pose proof (repr_range _ _ _ _ Hr) as Hrg.
  apply list_elem_of_split in Hin as (v1 & v2 & ->). rewrite <- Permutation_middle in Hnd, Hrg.
  cbn in Hnd, Hrg. apply NoDup_app in Hnd as (_ & _ & (Hnd & _)%NoDup_app).
  apply Forall_app in Hrg as [_ (Hrg & _)%Forall_app]. by apply range_length.
Qed.

Lemma repr_last_u64 t (log : L) free vals : repr t log free vals → is_u64 (last_removed t).
Proof.
  intros Hr. pose proof (repr_range _ _ _ _ Hr) as Hrg. pose proof (r_filled _ _ _ _ Hr) as Hf.
  pose proof (r_free _ _ _ _ Hr) as Hl. destruct free as [|i free]; cbn in Hl.
  - rewrite Hl. done.
  - destruct Hl as (-> & _). apply Forall_app in Hrg as [[Hi _]%Forall_cons _]. unfold is_u64. lia.
Qed.

Lemma repr_free_slot t (log : L) free vals i : repr t log free vals → i ∈ free →
  ∃ n, slot_is t log i (Tomb n).
Proof.
  intros [_ _ _ Hf _]. revert Hf. generalize (last_removed t).
  induction free as [|j free IH]; intros h; [by intros _ ?%not_elem_of_nil|].
  intros (-> & _ & n & Hs & Hf) [->|Hi]%elem_of_cons; eauto.
Qed.

End Repr.

(** ** Writing *)

Section Writes.
Context `{!Uninit}.
Implicit Types (t : ValueTable) (w : LogWriter).

Lemma payload_shape t t' s : same_shape t t' → payload t' s = payload t s.
Proof. intros Hsh. unfold payload, rc_bytes. by rewrite (sh_rc _ _ Hsh). Qed.

Lemma stored_wf_shape t t' s : same_shape t t' → stored_wf t s → stored_wf t' s.
Proof. intros Hsh [H1 H2 H3]. split; [done| |done]. by rewrite (sh_rc _ _ Hsh). Qed.

(** The values whose slots were not written are still stored. *)
Lemma vals_frame t t' w w' S (vals : Vals) : same_shape t t' → log_frame t S w w' →
  (∀ i, i ∈ used_slots vals → i ∉ S) →
  Forall (fun '(idxs, s) =>
    stored_wf t s ∧ chain_at t w (s_compressed s) true idxs (payload t s)) vals →
  Forall (fun '(idxs, s) =>
    stored_wf t' s ∧ chain_at t' w' (s_compressed s) true idxs (payload t' s)) vals.
Proof.
  intros Hsh Hfr. induction vals as [|[idxs s] vals IH]; intros Hd Hv; [done|].
  apply Forall_cons in Hv as [[Hw Hc] Hv]. cbn in Hd. constructor.
  - split; [by eapply stored_wf_shape|]. rewrite (payload_shape _ _ _ Hsh).
    eapply chain_at_frame; [done| |done]. intros i Hi. apply (fr_value _ _ _ _ Hfr). right.
    apply Hd. set_solver.
  - apply IH; [|done]. intros i Hi. apply Hd. set_solver.
Qed.

(** A value that a table with this entry size accepts. *)
Definition fits (t : ValueTable) (key : TableKey) (val : bytes) : Prop :=
  multipart t = true ∨
  (ref_size t + TableKey.encoded_size key + length val ≤ esz t - 2)%nat.

Lemma fits_guard t key val : table_wf t → fits t key val →
  (if multipart t then Ok tt
   else s ← unwrap (value_size t key); rust_assert (Z.of_nat (length val) <=? s)) = Ok tt.
Proof.
  intros [Hs _] Hf. destruct (multipart t) eqn:Hm; [done|]. destruct Hf as [Hf|Hf]; [congruence|].
  unfold value_size, esz, wrap16, ref_size, REFS_SIZE, SIZE_SIZE, TableKey.encoded_size,
    PARTIAL_SIZE, MIN_ENTRY_SIZE, MAX_ENTRY_SIZE in *.
  rewrite Z.mod_small by (destruct (ref_counted t); lia).
  destruct (Z.ltb_spec (entry_size t - Z.of_nat 2 - Z.of_nat (if ref_counted t then 4 else 0))
    (Z.of_nat (match key with Partial _ => 26 | NoHash => 0 end))) as [Hb|Hb].
  { destruct (ref_counted t), key; lia. }
  cbn [unwrap]. rewrite outcome_bind_Ok.
  unfold rust_assert. destruct (Z.leb_spec (Z.of_nat (length val))
    (entry_size t - Z.of_nat 2 - Z.of_nat (if ref_counted t then 4 else 0) -
     Z.of_nat (match key with Partial _ => 26 | NoHash => 0 end))); [done|lia].
Qed.

(** The value that a write stores: the counter starts at one. *)
Definition stored_new (key : TableKey) (val : bytes) (compressed : bool) : Stored :=
  MkStored 1 (key_bytes key) val compressed.

Definition payload_len (t : ValueTable) (key : TableKey) (val : bytes) : nat :=
  length val + ref_size t + TableKey.encoded_size key.

Lemma payload_new t key val c : key_wf key →
  payload t (stored_new key val c) = rc_bytes t 1 ++ key_bytes key ++ val ∧
  length (payload t (stored_new key val c)) = payload_len t key val.
Proof.
  intros Hk. split; [done|]. unfold payload, payload_len. cbn. rewrite !length_app.
  rewrite rc_bytes_length, Hk. lia.
Qed.

Lemma stored_new_wf t key val c : key_wf key → stored_wf t (stored_new key val c).
Proof.
  intros Hk. unfold stored_new. split; cbn; [lia|done|].
  rewrite Hk. unfold TableKey.encoded_size. destruct key; auto.
Qed.

(** Slots that share out [1..n) are distinct and below [n]. *)
Lemma slots_share (l u : list Z) (n : Z) : l ++ u ≡ₚ seqZ 1 (n - 1) →
  NoDup l ∧ Forall (fun i => 1 ≤ i < n) l ∧ (∀ i, i ∈ u → (i ∉ l) ∧ i < n).
Proof.
  intros Hp. assert (Hnd : NoDup (l ++ u)) by (rewrite Hp; apply NoDup_seqZ).
  apply NoDup_app in Hnd as (Hl & Hd & _). assert (Hr : ∀ i, i ∈ l ++ u → 1 ≤ i < n).
  { intros i. rewrite Hp, elem_of_seqZ. lia. }
  split_and!; [done| |].
  - apply Forall_forall. intros i Hi. apply Hr. set_solver.
  - intros i Hi. split; [intros Hil; by apply (Hd i)|]. apply Hr. set_solver.
Qed.

(** [overwrite_chain] from a slot [index] that is free for the taking. *)
Lemma overwrite_from t w key val c index follow old free (vals : Vals) :
  at_slot t w index follow old free → key_wf key → fits t key val →
  1 ≤ filled t → filled t + Z.of_nat (payload_len t key val) ≤ 2 ^ 48 →
  (index :: old ++ free) ++ used_slots vals ≡ₚ seqZ 1 (filled t - 1) →
  Forall (fun '(idxs, s) =>
    stored_wf t s ∧ chain_at t w (s_compressed s) true idxs (payload t s)) vals →
  ∃ t' w' new free',
    overwrite_loop (S (payload_len t key val)) key val c (payload_len t key val) 0 0 index
      follow (t, w) = (Ok index, (t', w')) ∧
    same_shape t t' ∧
    repr t' w' free' ((index :: new, stored_new key val c) :: vals) ∧
    filled t ≤ filled t' ≤ filled t + Z.of_nat (payload_len t key val) ∧
    log_frame t (index :: old ++ free ++ seqZ (filled t) (filled t' - filled t)) w w'.
Proof.
  intros Hat Hk Hfit Hfill Hmax Hslots Hvals. destruct (payload_new t key val c Hk) as [Hp Hpl].
  set (p := payload t (stored_new key val c)) in *.
  destruct (overwrite_loop_spec key val c (S (payload_len t key val)) t w index follow old free
    0 0 p Hat Hk) as (t' & w' & new & free' & Hrun & Hsh & Hfl & Hc & Hf & Hperm & Hfr).
  - by left.
  - rewrite Hpl. unfold payload_len. intros Hlt. destruct Hfit as [?|?]; [done|lia].
  - lia.
  - lia.
  - rewrite Hpl in Hrun, Hfl. exists t', w', new, free'. split_and!; try done; try lia.
    split.
    + by eapply same_shape_wf, Hat.
    + lia.
    + trans ((index :: new ++ free') ++ used_slots vals); [cbn; solve_Permutation|].
      rewrite Hperm.
      replace (filled t' - 1) with ((filled t - 1) + (filled t' - filled t)) by lia.
      rewrite seqZ_app by lia. replace (1 + (filled t - 1)) with (filled t) by lia.
      rewrite <- Hslots. solve_Permutation.
    + done.
    + constructor.
      * split; [eapply stored_wf_shape; [done|by apply stored_new_wf]|].
        by rewrite (payload_shape _ _ _ Hsh).
      * eapply vals_frame; [done|done| |done]. intros i Hi Hin.
        destruct (slots_share _ _ _ Hslots) as (_ & _ & Hd). destruct (Hd i Hi) as [Hni Hlt].
        rewrite (assoc_L (++)), app_comm_cons in Hin.
        apply elem_of_app in Hin as [Hin|Hin%elem_of_seqZ]; [done|lia].
Qed.

Lemma write_insert_at t w free vals key val c : repr t w free vals → key_wf key →
  fits t key val → filled t + Z.of_nat (payload_len t key val) < 2 ^ 48 →
  ∃ i new t' w' free',
    write_insert_plan key val c (t, w) = (Ok i, (t', w')) ∧ same_shape t t' ∧
    repr t' w' free' ((i :: new, stored_new key val c) :: vals) ∧
    filled t ≤ filled t' ≤ filled t + 1 + Z.of_nat (payload_len t key val) ∧
    log_frame t (free ++ seqZ (filled t) (filled t' - filled t)) w w' ∧ (free = [] → i = filled t).
Proof.
  intros Hr Hk Hfit Hmax. pose proof Hr as [Hwf Hfill Hslots Hf Hvals].
  destruct (next_free_spec t w free Hwf Hf ltac:(lia) ltac:(lia))
    as (i & t1 & free1 & Hnf & Hsh1 & Hf1 & Hi & Hfl1 & _ & Heq).
  assert (Hpl : payload_len t1 key val = payload_len t key val)
    by (unfold payload_len, ref_size; by rewrite (sh_rc _ _ Hsh1)).
  assert (Hs1 : (i :: [] ++ free1) ++ used_slots vals ≡ₚ seqZ 1 (filled t1 - 1)).
  { cbn [app]. rewrite app_comm_cons, Heq.
    replace (filled t1 - 1) with ((filled t - 1) + (filled t1 - filled t)) by lia.
    rewrite seqZ_app by lia. replace (1 + (filled t - 1)) with (filled t) by lia.
    rewrite <- Hslots. solve_Permutation. }
  assert (Hat : at_slot t1 w i false [] free1).
  { destruct (slots_share _ _ _ Hs1) as (Hnd & Hrg & _).
    split; [by eapply same_shape_wf|done..|lia]. }
  destruct (overwrite_from t1 w key val c i false [] free1 vals Hat Hk)
    as (t' & w' & new & free' & Hrun & Hsh & Hr' & Hfl & Hfr); try done.
  - unfold fits, ref_size in *. by rewrite (sh_multipart _ _ Hsh1), (sh_rc _ _ Hsh1),
      (same_shape_esz _ _ Hsh1).
  - lia.
  - rewrite Hpl. lia.
  - eapply vals_frame; [done|apply (log_frame_refl _ [])| |done]. set_solver.
  - exists i, new, t', w', free'. rewrite Hpl in Hrun, Hfl. split_and!; try done; try lia.
    + unfold write_insert_plan, overwrite_chain. erewrite ST_bind_Ok by done. cbv beta iota.
      erewrite ST_bind_Ok by (unfold lift_st; by rewrite fits_guard).
      erewrite ST_bind_Ok by (by erewrite ST_bind_Ok by exact Hnf). exact Hrun.
    + by etrans.
    + apply (log_frame_shape t) in Hfr; [|done]. cbn [app] in Hfr. rewrite app_comm_cons, Heq in Hfr.
      replace (filled t' - filled t) with ((filled t1 - filled t) + (filled t' - filled t1)) by lia.
      rewrite seqZ_app by lia. replace (filled t + (filled t1 - filled t)) with (filled t1) by lia.
      by rewrite (assoc_L (++)).
    + intros ->. cbn [app] in Heq. destruct (decide (filled t1 - filled t = 0)) as [E|E].
      * rewrite E in Heq. done.
      * rewrite seqZ_cons in Heq by lia. by injection Heq.
Qed.

Lemma write_insert_ok t w free vals key val c : repr t w free vals → key_wf key →
  fits t key val → filled t + Z.of_nat (payload_len t key val) < 2 ^ 48 →
  ∃ i new t' w' free',
    write_insert_plan key val c (t, w) = (Ok i, (t', w')) ∧ same_shape t t' ∧
    repr t' w' free' ((i :: new, stored_new key val c) :: vals) ∧
    filled t ≤ filled t' ≤ filled t + 1 + Z.of_nat (payload_len t key val) ∧
    log_frame t (free ++ seqZ (filled t) (filled t' - filled t)) w w'.
Proof.
  intros Hr Hk Hfit Hmax. destruct (write_insert_at t w free vals key val c Hr Hk Hfit Hmax) as
    (i & new & t' & w' & free' & H1' & H2' & H3' & H4' & H5' & _). by exists i, new, t', w', free'.
Qed.

(** The slot of a stored value, as the loops of [overwrite_chain] and
    [clear_chain] start from it. *)
Lemma repr_at_slot t w free vals i idxs s : repr t w free ((i :: idxs, s) :: vals) →
  at_slot t w i true idxs free ∧
  (i :: idxs ++ free) ++ used_slots vals ≡ₚ seqZ 1 (filled t - 1) ∧
  Forall (fun '(idxs, s) =>
    stored_wf t s ∧ chain_at t w (s_compressed s) true idxs (payload t s)) vals.
Proof.
  intros [Hwf Hfill Hslots Hf Hvals]. apply Forall_cons in Hvals as [[Hs Hc] Hvals].
  assert (Hsl : (i :: idxs ++ free) ++ used_slots vals ≡ₚ seqZ 1 (filled t - 1)).
  { rewrite <- Hslots. cbn. solve_Permutation. }
  split_and!; [|done|done]. destruct (slots_share _ _ _ Hsl) as (Hnd & Hrg & _).
  split; [done|by eapply chain_links|done..|lia].
Qed.

Lemma write_replace_ok t w free vals i idxs s key val c :
  repr t w free ((i :: idxs, s) :: vals) → key_wf key → fits t key val →
  filled t + Z.of_nat (payload_len t key val) ≤ 2 ^ 48 →
  ∃ new t' w' free',
    write_replace_plan i key val c (t, w) = (Ok tt, (t', w')) ∧ same_shape t t' ∧
    repr t' w' free' ((i :: new, stored_new key val c) :: vals) ∧
    filled t ≤ filled t' ≤ filled t + Z.of_nat (payload_len t key val) ∧
    log_frame t (i :: idxs ++ free ++ seqZ (filled t) (filled t' - filled t)) w w'.
Proof.
  intros Hr Hk Hfit Hmax. destruct (repr_at_slot _ _ _ _ _ _ _ Hr) as (Hat & Hsl & Hvals).
  destruct (overwrite_from t w key val c i true idxs free vals Hat Hk Hfit)
    as (t' & w' & new & free' & Hrun & Hsh & Hr' & Hfl & Hfr); try done.
  { apply Hr. }
  exists new, t', w', free'. split_and!; try done; try lia.
  unfold write_replace_plan, overwrite_chain. erewrite ST_bind_Ok; [done|].
  erewrite ST_bind_Ok by done. cbv beta iota.
  erewrite ST_bind_Ok by (unfold lift_st; rewrite fits_guard; [done|apply Hr|done]).
  erewrite ST_bind_Ok by done. exact Hrun.
Qed.

(** Removing a value: its slots go on the free list, the last part first. *)
Lemma write_remove_ok t w free vals i idxs s : repr t w free ((i :: idxs, s) :: vals) →
  ∃ t' w',
    write_remove_plan i (t, w) = (Ok tt, (t', w')) ∧ same_shape t t' ∧
    repr t' w' (reverse (i :: idxs) ++ free) vals ∧ filled t' = filled t ∧
    log_frame t (i :: idxs) w w'.
Proof.
  intros Hr. destruct (repr_at_slot _ _ _ _ _ _ _ Hr) as (Hat & Hsl & Hvals).
  pose proof (r_filled _ _ _ _ Hr) as Hfill.
  pose proof (at_slot_u64 _ _ _ _ _ _ Hat ltac:(lia)) as Hu.
  destruct Hat as [Hwf Hl Hnd Hrg Hf _].
  assert (Hgo : ∃ t' w', write_remove_plan i (t, w) = (Ok tt, (t', w')) ∧ same_shape t t' ∧
    filled t' = filled t ∧ free_at t' w' (last_removed t') (reverse (i :: idxs) ++ free) ∧
    log_frame t (i :: idxs) w w').
  { rewrite app_comm_cons in Hu, Hnd, Hrg. apply Forall_app in Hu as [Hu1 Hu2].
    pose proof (Forall_inv Hrg) as Hi. cbn in Hi.
    unfold write_remove_plan. erewrite ST_bind_Ok by done. cbv beta iota.
    destruct (multipart t) eqn:Hmp.
    - unfold clear_chain. erewrite ST_bind_Ok by done. cbv beta iota.
      apply (clear_chain_loop_spec idxs i (parts_fuel t) t w free); try done; [lia|].
      unfold parts_fuel. trans (Z.to_nat (filled t)); [|lia]. apply range_length.
      + by apply NoDup_app in Hnd as [Hnd _].
      + by apply Forall_app in Hrg as [Hrg _].
    - pose proof (free_head_u64 t w free Hf Hu2) as Hlr.
      destruct (clear_slot_spec t w i Hlr) as (t' & Hrun & Hsh & Hfl & Hlr').
      destruct idxs as [|j idxs].
      + eexists _, _. split; [exact Hrun|]. split_and!; [done|done| |exact (log_frame_insert t i (Tomb _) w Hlr)].
        rewrite Hlr'. apply free_at_push; try done; [lia|]. by inversion Hnd.
      + destruct Hl as ((m & p & [Hs _]) & _). destruct Hs. congruence. }
  destruct Hgo as (t' & w' & Hrun & Hsh & Hfl & Hf' & Hfr).
  exists t', w'. split_and!; try done. split; [by eapply same_shape_wf|lia| |done|].
  - rewrite Hfl, <- Hsl, reverse_Permutation. cbn. solve_Permutation.
  - eapply vals_frame; [done|done| |done]. intros k Hk Hin.
    destruct (slots_share _ _ _ Hsl) as (_ & _ & Hd). destruct (Hd k Hk). set_solver.
Qed.

(** *** Reference counting *)

Definition with_rc (rc : Z) (s : Stored) : Stored :=
  MkStored rc (s_key s) (s_value s) (s_compressed s).

Lemma changed_counter_range c d c' : 0 < c < 2 ^ 32 → d = 1 ∨ d = -1 →
  changed_counter c d = Some c' → 0 < c' < 2 ^ 32.
Proof.
  unfold changed_counter, LOCKED_REF, U32_MAX. intros Hc [->| ->]; cbn.
  - change (wrap32 (2 ^ 32 - 1 - 1)) with 4294967294.
    destruct (Z.leb_spec 4294967294 c); intros [= <-]; lia.
  - destruct (Z.eqb_spec c (2 ^ 32 - 1)); cbn; [intros [= <-]; lia|].
    case_match eqn:E; [done|]. intros [= <-]. lia.
Qed.

(** The head slot of a stored value with another counter. *)
Definition head_slot (t : ValueTable) (idxs : list Z) (s : Stored) : Slot :=
  match idxs with
  | [] => Sized (s_compressed s) (payload t s)
  | j :: _ => Multi (part_marker true (s_compressed s)) j (take (esz t - 10) (payload t s))
  end.

Lemma payload_with_rc t rc s : ref_counted t = true →
  payload t (with_rc rc s) = le_encode 4 rc ++ drop 4 (payload t s) ∧
  length (payload t (with_rc rc s)) = length (payload t s) ∧ (4 ≤ length (payload t s))%nat.
Proof.
  intros Hrc. unfold payload, rc_bytes. rewrite Hrc. cbn [s_rc s_key s_value with_rc].
  rewrite drop_app_length' by len. split_and!; [done|len..].
Qed.

Lemma head_slot_rc t idxs rc s : table_wf t → ref_counted t = true → slot_wf t (head_slot t idxs s) →
  ∃ (a b : bytes), encode_slot (head_slot t idxs s) = a ++ le_encode 4 (s_rc s) ++ b ∧
    encode_slot (head_slot t idxs (with_rc rc s)) = a ++ le_encode 4 rc ++ b ∧
    slot_wf t (head_slot t idxs (with_rc rc s)) ∧
    length a = (match idxs with [] => 2 | _ => 10 end)%nat ∧
    length (encode_slot (head_slot t idxs s)) =
      (match idxs with [] => 2 + length (payload t s) | _ => esz t end)%nat.
Proof.
  intros Hwf Hrc Hw. destruct (payload_with_rc t rc s Hrc) as (Hp & Hl & Hge).
  assert (Hp0 : payload t s = le_encode 4 (s_rc s) ++ drop 4 (payload t s)).
  { destruct (payload_with_rc t (s_rc s) s Hrc) as (Hp0 & _). rewrite <- Hp0. by destruct s. }
  set (r := drop 4 (payload t s)) in *. destruct idxs as [|j idxs].
  - cbn [head_slot encode_slot with_rc s_compressed] in *. fold (with_rc rc s).
    rewrite Hl, Hp. eexists _, _. split_and!; [by rewrite <- Hp0|done| |len|len].
    cbn in *. rewrite Hp0 in Hw. revert Hw. len.
  - cbn [head_slot encode_slot with_rc s_compressed] in *. fold (with_rc rc s).
    destruct Hw as (Hmp & Hm & Hj & Hle). pose proof (wf_multipart t Hwf Hmp) as Hes.
    assert (Hes' : esz t = 4096%nat) by (unfold esz; lia).
    assert (Ht : ∀ c, take (esz t - 10) (le_encode 4 c ++ r) =
      le_encode 4 c ++ take (esz t - 14) r).
    { intros c. rewrite take_app_ge by (rewrite length_le_encode; lia).
      rewrite length_le_encode. do 2 f_equal. lia. }
    rewrite Hp, Ht. rewrite Hp0, Ht in Hle |- *. set (m := part_marker _ _) in *.
    assert (Hm2 : length m = 2%nat) by (destruct Hm as [->|[->| ->]]; done).
    exists (m ++ le_encode 8 j), (take (esz t - 14) r).
    rewrite <- !(assoc_L (++)). split_and!; [done|done| |len|].
    + split_and!; [done..|]. revert Hle. len.
    + revert Hle. len.
Qed.

Lemma chain_head_slot t w i idxs s :
  chain_at t w (s_compressed s) true (i :: idxs) (payload t s) → slot_is t w i (head_slot t idxs s).
Proof. destruct idxs as [|j idxs]; [done|]. rewrite chain_at_cons. by intros [? _]. Qed.

(** The entry header that [change_ref] parses. *)
Lemma change_ref_header t idxs s (r : bytes) : table_wf t → slot_wf t (head_slot t idxs s) →
  (if multipart t && Entry.is_multi (db_version t) (Entry.new (encode_slot (head_slot t idxs s) ++ r))
   then
     '(_, e) ← run_entry (_ ← Entry.skip_size; Entry.skip_next)
                 (Entry.new (encode_slot (head_slot t idxs s) ++ r));
     Ok (Z.to_nat (entry_size t), e)
   else
     '((size, _), e) ← run_entry Entry.read_size
                         (Entry.new (encode_slot (head_slot t idxs s) ++ r));
     Ok ((e_offset e + Z.to_nat size)%nat, e)) =
  Ok ((match idxs with [] => 2 + length (payload t s) | _ => esz t end)%nat,
      MkEntry (match idxs with [] => 2 | _ => 10 end) (encode_slot (head_slot t idxs s) ++ r)).
Proof.
  intros Hwf Hw. pose proof (shows_full t Hwf _ Hw) as Hsh.
  destruct idxs as [|j idxs].
  - assert (E : multipart t && Entry.is_multi (db_version t)
      (Entry.new (encode_slot (head_slot t [] s) ++ r)) = false).
    { destruct (multipart t) eqn:Hmp; [|done]. apply (shows_multi t Hwf _ _ r Hw Hsh Hmp). }
    rewrite E. cbn [head_slot]. rewrite (run_entry_Ok _ _ _ _ (read_size_sized t Hwf _ _ r Hw)), outcome_bind_Ok.
    cbv beta iota. cbn [e_offset]. rewrite Nat2Z.id. done.
  - pose proof Hw as (Hmp & _). rewrite Hmp, (shows_multi t Hwf _ _ r Hw Hsh Hmp). done.
Qed.

Lemma change_ref_run t w i idxs s delta : table_wf t → ref_counted t = true → is_u32 (s_rc s) →
  slot_is t w i (head_slot t idxs s) →
  change_ref i delta (t, w) =
  match changed_counter (s_rc s) delta with
  | None => (Ok false, (t, w))
  | Some rc =>
      (Ok true, (t, LogWriter.insert_value (vt_id t) i
                      (encode_slot (head_slot t idxs (with_rc rc s))) w))
  end.
Proof.
  intros Hwf Hrc Hu Hs. pose proof Hs as [Hw _]. unfold change_ref.
  destruct (read_slot_full t w i _ (uninit MAX_ENTRY_BUF_SIZE) Hwf Hs (length_uninit _))
    as (r & Hrd & Hrl).
  erewrite ST_bind_Ok by done. cbv beta iota. fold (esz t).
  erewrite ST_bind_Ok by (unfold reading; fold (esz t); by rewrite Hrd).
  rewrite (shows_tombstone t Hwf _ _ r Hw (shows_full t Hwf _ Hw)).
  assert (Htomb : match head_slot t idxs s with Tomb _ => true | _ => false end = false)
    by by destruct idxs.
  rewrite Htomb.
  erewrite ST_bind_Ok by (unfold lift_st; by rewrite change_ref_header).
  cbv beta iota. cbn [e_offset e_data].
  destruct (head_slot_rc t idxs 0 s Hwf Hrc Hw) as (a & b & Ha & _ & _ & Hla & Hlen).
  rewrite Ha, <- Hla, <- !(assoc_L (++)).
  erewrite ST_bind_Ok by (unfold lift_st; erewrite run_entry_Ok; [done|];
         unfold Entry.read_rc, Entry.read_u32;
         erewrite ST_bind_Ok by (apply read_slice_at; [done|by len]);
         unfold mret, ST_ret; by rewrite le_decode_encode_small by (simpl; exact Hu)).
  cbv beta iota.
  destruct (changed_counter (s_rc s) delta) as [rc|]; [|done].
  erewrite ST_bind_Ok by (unfold lift_st; erewrite run_entry_Ok; [done|];
         unfold Entry.set_offset; cbn [e_data]; apply write_slice_at; by len).
  cbv beta iota; cbn [e_data].
  destruct (head_slot_rc t idxs rc s Hwf Hrc Hw) as (a' & b' & Ha' & Hb' & _ & Hla' & _).
  assert (a' = a ∧ b' = b) as [-> ->]
    by (rewrite Ha in Ha'; apply app_inj_1 in Ha' as [-> Hq]; [|congruence];
        apply app_inj_1 in Hq as [_ ->]; done).
  rewrite Ha in Hlen; rewrite <- Hlen, Hb'.
  erewrite ST_bind_Ok by (unfold lift_st; rewrite slice_Ok by (revert Hlen; len); done).
  erewrite ST_bind_Ok by done; unfold mret, ST_ret; do 4 f_equal.
  rewrite drop_0, Nat.sub_0_r, !(assoc_L (++)), take_app_length'; [done|by len].
Qed.

Lemma chain_at_with_rc t w w' i idxs s rc : table_wf t → ref_counted t = true →
  chain_at t w (s_compressed s) true (i :: idxs) (payload t s) →
  slot_is t w' i (head_slot t idxs (with_rc rc s)) →
  (∀ k, k ∈ idxs → value_view w' (vt_id t) k = value_view w (vt_id t) k) →
  chain_at t w' (s_compressed s) true (i :: idxs) (payload t (with_rc rc s)).
Proof.
  intros Hwf Hrc Hc Hs Hfr. destruct (payload_with_rc t rc s Hrc) as (Hp & Hl & Hge).
  destruct idxs as [|j idxs]; [done|]. rewrite chain_at_cons in Hc |- *.
  destruct Hc as ((Hsw & _) & Hlt & Hj & Hc). rewrite Hl. split_and!; [done..|].
  destruct Hsw as (Hmp & _). pose proof (wf_multipart t Hwf Hmp) as Hes.
  replace (drop (esz t - 10) (payload t (with_rc rc s))) with (drop (esz t - 10) (payload t s)).
  { by eapply chain_at_frame. }
  rewrite Hp, drop_app_ge by (rewrite length_le_encode; unfold esz; lia).
  rewrite length_le_encode, drop_drop. f_equal. unfold esz. lia.
Qed.

Lemma change_ref_ok t w free vals i idxs s delta : ref_counted t = true →
  repr t w free ((i :: idxs, s) :: vals) → delta = 1 ∨ delta = -1 →
  match changed_counter (s_rc s) delta with
  | None => change_ref i delta (t, w) = (Ok false, (t, w))
  | Some rc => ∃ w',
      change_ref i delta (t, w) = (Ok true, (t, w')) ∧
      repr t w' free ((i :: idxs, with_rc rc s) :: vals) ∧ log_frame t [i] w w'
  end.
Proof.
  intros Hrc Hr Hd. destruct (repr_elem _ _ _ _ (i :: idxs) s Hr ltac:(set_solver)) as [Hs Hc].
  pose proof (chain_head_slot _ _ _ _ _ Hc) as Hhs. pose proof Hr as [Hwf Hfill Hsl Hf Hv].
  pose proof (repr_nodup _ _ _ _ Hr) as Hnd. pose proof (wf_rc t s Hs) as Hrcr.
  rewrite (change_ref_run t w i idxs s delta) by (done || (unfold is_u32; lia)).
  destruct (changed_counter (s_rc s) delta) as [rc|] eqn:Ec; [|done].
  pose proof (changed_counter_range _ _ _ Hrcr Hd Ec) as Hrc'.
  destruct (head_slot_rc t idxs rc s Hwf Hrc (proj1 Hhs)) as (_ & _ & _ & _ & Hw' & _).
  set (w' := LogWriter.insert_value _ _ _ w).
  pose proof (log_frame_insert t i _ w Hw') as Hfr. fold w' in Hfr.
  assert (Hni : ∀ k, k ∈ free ++ idxs ++ used_slots vals → k ∉ [i]).
  { intros k Hk ->%list_elem_of_singleton. cbn in Hnd. rewrite <- Permutation_middle in Hnd.
    by apply NoDup_cons in Hnd as [? _]. }
  assert (Hview : ∀ k, k ∈ free ++ idxs ++ used_slots vals →
    value_view w' (vt_id t) k = value_view w (vt_id t) k).
  { intros k Hk. apply (fr_value _ _ _ _ Hfr). auto. }
  exists w'. split_and!; [done| |done]. split; [done|done|done| |].
  - eapply free_at_frame; [done| |done]. set_solver.
  - apply Forall_cons in Hv as [_ Hv]. constructor.
    + split.
      { destruct Hs. split; [done| |done]. congruence. }
      apply (chain_at_with_rc t w w' i idxs s rc Hwf Hrc Hc); [by apply slot_is_insert|].
      set_solver.
    + eapply vals_frame; [done|exact Hfr| |exact Hv]. intros k Hk. apply Hni. set_solver.
Qed.

Lemma write_inc_ref_ok t w free vals i idxs s : ref_counted t = true →
  repr t w free ((i :: idxs, s) :: vals) →
  ∃ w', write_inc_ref i (t, w) = (Ok tt, (t, w')) ∧
    repr t w' free ((i :: idxs, with_rc (Z.min LOCKED_REF (s_rc s + 1)) s) :: vals) ∧
    log_frame t [i] w w'.
Proof.
  intros Hrc Hr. pose proof (change_ref_ok t w free vals i idxs s 1 Hrc Hr ltac:(auto)) as Hch.
  destruct (repr_elem _ _ _ _ (i :: idxs) s Hr ltac:(set_solver)) as [[Hs _ _] _].
  replace (changed_counter (s_rc s) 1) with (Some (Z.min LOCKED_REF (s_rc s + 1))) in Hch.
  - destruct Hch as (w' & Hrun & Hr' & Hfr). exists w'. split_and!; [|done|done].
    unfold write_inc_ref. by erewrite ST_bind_Ok by exact Hrun.
  - unfold changed_counter, LOCKED_REF, U32_MAX. cbn [Z.gtb Z.compare].
    change (wrap32 (2 ^ 32 - 1 - 1)) with 4294967294.
    destruct (Z.leb_spec 4294967294 (s_rc s)); f_equal; lia.
Qed.

Lemma write_dec_ref_ok t w free vals i idxs s : ref_counted t = true →
  repr t w free ((i :: idxs, s) :: vals) →
  ∃ t' w', same_shape t t' ∧ filled t' = filled t ∧ log_frame t (i :: idxs) w w' ∧
    if (s_rc s =? 1) then
      write_dec_ref i (t, w) = (Ok false, (t', w')) ∧
      repr t' w' (reverse (i :: idxs) ++ free) vals
    else
      write_dec_ref i (t, w) = (Ok true, (t', w')) ∧
      repr t' w' free ((i :: idxs, with_rc (if s_rc s =? LOCKED_REF then s_rc s
                                            else s_rc s - 1) s) :: vals).
Proof.
  intros Hrc Hr. pose proof (change_ref_ok t w free vals i idxs s (-1) Hrc Hr ltac:(auto)) as Hch.
  destruct (repr_elem _ _ _ _ (i :: idxs) s Hr ltac:(set_solver)) as [[Hs _ _] _].
  assert (Hcc : changed_counter (s_rc s) (-1) =
    if s_rc s =? 1 then None
    else Some (if s_rc s =? LOCKED_REF then s_rc s else s_rc s - 1)).
  { unfold changed_counter, LOCKED_REF, U32_MAX. cbn [Z.gtb Z.compare].
    destruct (Z.eqb_spec (s_rc s) 1) as [->|]; [done|].
    destruct (Z.eqb_spec (s_rc s) (2 ^ 32 - 1)); [done|]. cbn [negb].
    destruct (Z.eqb_spec (Z.max 0 (s_rc s - - -1)) 0); [lia|]. f_equal. lia. }
  rewrite Hcc in Hch. destruct (s_rc s =? 1) eqn:E1.
  - destruct (write_remove_ok _ _ _ _ _ _ _ Hr) as (t' & w' & Hrun & Hsh & Hr' & Hfl & Hfr).
    exists t', w'. split_and!; try done. unfold write_dec_ref.
    erewrite ST_bind_Ok by exact Hch. cbv beta iota. by erewrite ST_bind_Ok by exact Hrun.
  - destruct Hch as (w' & Hrun & Hr' & Hfr). exists t, w'. split_and!; try done.
    + eapply log_frame_mono; [done|set_solver].
    + unfold write_dec_ref. by erewrite ST_bind_Ok by exact Hrun.
Qed.

End Writes.
