(* ===== verification/TableStore.v ===== *)
(** * The contract of a value table

    To its clients a value table is a finite map from addresses to stored
    values, with five operations: insert at an address the table chooses,
    replace, remove, and the two changes of a reference counter. [store_step]
    states the contract; the operations of src/src/table.rs refine it, for one
    operation and for any sequence of operations of a log record. *)

From S2P Require Import Prelude.
From S2P Require Import Bytes.
From S2P Require Import Ids.
From S2P Require Import File.
From S2P Require Import Log.
From S2P Require Import Table.
From S2P Require Import TableSpec.
From S2P Require Import TableOps.
From S2P Require Import TableRefine.
From stdpp Require Import options.
#[local] Set Default Proof Using "Type*".

Abbreviation Store := (gmap Z Stored).

(** ** Operations and their contract *)

Inductive TableOp :=
| OpInsert (key : TableKey) (val : bytes) (compressed : bool)
| OpReplace (i : Z) (key : TableKey) (val : bytes) (compressed : bool)
| OpRemove (i : Z)
| OpIncRef (i : Z)
| OpDecRef (i : Z).

(** What an operation returns: the address of an insertion, whether the value
    outlives a decrement, nothing for the rest. *)
Inductive TableRes :=
| ResAddr (i : Z)
| ResAlive (b : bool)
| ResUnit.

Inductive store_step : Store → TableOp → TableRes → Store → Prop :=
| step_insert m key val c i : m !! i = None → 1 ≤ i →
    store_step m (OpInsert key val c) (ResAddr i) (<[i := stored_new key val c]> m)
| step_replace m i key val c : is_Some (m !! i) →
    store_step m (OpReplace i key val c) ResUnit (<[i := stored_new key val c]> m)
| step_remove m i : is_Some (m !! i) →
    store_step m (OpRemove i) ResUnit (delete i m)
| step_inc m i s : m !! i = Some s →
    store_step m (OpIncRef i) ResUnit (<[i := with_rc (Z.min LOCKED_REF (s_rc s + 1)) s]> m)
| step_dec_locked m i s : m !! i = Some s → s_rc s = LOCKED_REF →
    store_step m (OpDecRef i) (ResAlive true) m
| step_dec_last m i s : m !! i = Some s → s_rc s = 1 →
    store_step m (OpDecRef i) (ResAlive false) (delete i m)
| step_dec m i s : m !! i = Some s → 1 < s_rc s < LOCKED_REF →
    store_step m (OpDecRef i) (ResAlive true) (<[i := with_rc (s_rc s - 1) s]> m).

(** The addresses a caller may use, and the values that a table takes. *)
Definition op_pre (t : ValueTable) (m : Store) (op : TableOp) : Prop :=
  match op with
  | OpInsert key val _ => key_wf key ∧ fits t key val
  | OpReplace i key val _ => is_Some (m !! i) ∧ key_wf key ∧ fits t key val
  | OpRemove i => is_Some (m !! i)
  | OpIncRef i | OpDecRef i => is_Some (m !! i) ∧ ref_counted t = true
  end.

(** A bound on the slots an operation may add. *)
Definition op_cost (t : ValueTable) (op : TableOp) : Z :=
  match op with
  | OpInsert key val _ | OpReplace _ key val _ => 1 + Z.of_nat (payload_len t key val)
  | _ => 0
  end.

Section Store.
Context `{!Uninit}.
Implicit Types (t : ValueTable) (w : LogWriter).

Definition run_op (op : TableOp) : ST TW TableRes :=
  match op with
  | OpInsert key val c => i ← write_insert_plan key val c; mret (ResAddr i)
  | OpReplace i key val c => _ ← write_replace_plan i key val c; mret ResUnit
  | OpRemove i => _ ← write_remove_plan i; mret ResUnit
  | OpIncRef i => _ ← write_inc_ref i; mret ResUnit
  | OpDecRef i => b ← write_dec_ref i; mret (ResAlive b)
  end.

Fixpoint run_ops (ops : list TableOp) : ST TW (list TableRes) :=
  match ops with
  | [] => mret []
  | op :: ops => r ← run_op op; rs ← run_ops ops; mret (r :: rs)
  end.

(** ** The map a table represents *)

Definition store_of (vals : Vals) : Store :=
  list_to_map ((fun '(idxs, s) => (hd 0 idxs, s)) <$> vals).

Definition store_repr {L} `{LogView L} t (log : L) (m : Store) : Prop :=
  ∃ free vals, repr t log free vals ∧ m = store_of vals.

Definition heads (vals : Vals) : list Z := hd 0 <$> (fst <$> vals).

Lemma fst_heads (vals : Vals) :
  ((fun '(idxs, s) => (hd 0 idxs, s)) <$> vals).*1 = heads vals.
Proof. unfold heads. induction vals as [|[idxs s] vals IH]; cbn in *; congruence. Qed.

Lemma heads_submseteq (vals : Vals) : Forall (fun p : list Z * Stored => fst p ≠ []) vals →
  heads vals ⊆+ used_slots vals.
Proof.
  induction 1 as [|[[|i idxs] s] vals Hne _ IH]; [done|done|]. cbn.
  by apply submseteq_skip, submseteq_inserts_l.
Qed.

Section View.
Context {L} `{LogView L}.

Lemma repr_nonempty t (log : L) free vals : repr t log free vals →
  Forall (fun p : list Z * Stored => fst p ≠ []) vals.
Proof.
  intros [_ _ _ _ Hv]. eapply Forall_impl; [exact Hv|]. intros [[|i idxs] s]; [|done].
  by intros [_ []].
Qed.

Lemma repr_heads t (log : L) free vals : repr t log free vals → NoDup (heads vals).
Proof.
  intros Hr. pose proof (repr_nodup _ _ _ _ Hr) as (_ & _ & Hnd)%NoDup_app.
  destruct (submseteq_Permutation _ _ (heads_submseteq vals (repr_nonempty _ _ _ _ Hr)))
    as [k Hk]. rewrite Hk in Hnd. by apply NoDup_app in Hnd as [Hnd _].
Qed.

Lemma repr_store_lookup t (log : L) free vals i s : repr t log free vals →
  store_of vals !! i = Some s →
  ∃ idxs vals0, vals ≡ₚ (i :: idxs, s) :: vals0 ∧ store_of vals0 = delete i (store_of vals).
Proof.
  intros Hr Hi. pose proof (repr_heads _ _ _ _ Hr) as Hnd.
  pose proof (repr_nonempty _ _ _ _ Hr) as Hne. unfold store_of in *.
  pose proof Hi as Hin%elem_of_list_to_map_2.
  apply list_elem_of_fmap in Hin as ([idxs s'] & Heq & Hin). injection Heq as Hhd <-.
  apply list_elem_of_split in Hin as (v1 & v2 & ->).
  rewrite <- Permutation_middle in Hne. apply Forall_cons in Hne as [Hne _].
  destruct idxs as [|j idxs]; [done|]. cbn in Hhd. subst j.
  exists idxs, (v1 ++ v2). split; [by rewrite Permutation_middle|].
  rewrite (list_to_map_proper ((λ '(idxs, s), (hd 0 idxs, s)) <$> (v1 ++ (i :: idxs, s) :: v2))
    ((λ '(idxs, s), (hd 0 idxs, s)) <$> ((i :: idxs, s) :: v1 ++ v2))).
  - cbn. rewrite delete_insert_id; [done|]. apply not_elem_of_list_to_map_1.
    rewrite fst_heads. unfold heads in *. rewrite <- Permutation_middle in Hnd. cbn in Hnd.
    by apply NoDup_cons in Hnd as [? _].
  - by rewrite fst_heads.
  - by rewrite Permutation_middle.
Qed.

(** A slot in use is not the address of another value. *)
Lemma repr_fresh t (log : L) free vals i idxs s : repr t log free ((i :: idxs, s) :: vals) →
  store_of vals !! i = None ∧ 1 ≤ i.
Proof.
  intros Hr. split.
  - apply not_elem_of_list_to_map_1. rewrite fst_heads.
    pose proof (repr_heads _ _ _ _ Hr) as Hnd. by apply NoDup_cons in Hnd as [? _].
  - pose proof (repr_range _ _ _ _ Hr) as Hrg. rewrite Forall_forall in Hrg.
    specialize (Hrg i ltac:(set_solver)). cbn in Hrg. lia.
Qed.

(** The slots an operation may touch are those in use before or after it. *)
Lemma touched_bound t (log : L) free vals n (S : list Z) : repr t log free vals → filled t ≤ n →
  S ⊆ (free ++ used_slots vals) ++ seqZ (filled t) (n - filled t) → S ⊆ seqZ 1 (n - 1).
Proof.
  intros Hr Hn HS i Hi. specialize (HS i Hi). pose proof (repr_range _ _ _ _ Hr) as Hrg.
  destruct Hr as [_ Hf _ _ _]. rewrite Forall_forall in Hrg. rewrite elem_of_seqZ.
  apply elem_of_app in HS as [HS|HS%elem_of_seqZ]; [specialize (Hrg i HS); cbn in Hrg|]; lia.
Qed.

Lemma store_repr_cons t (log : L) free vals i idxs s :
  repr t log free ((i :: idxs, s) :: vals) → store_repr t log (<[i := s]> (store_of vals)).
Proof. intros Hr. by exists free, ((i :: idxs, s) :: vals). Qed.

End View.

(** ** Refinement *)

Lemma run_op_ok t w m op : store_repr t w m → op_pre t m op →
  filled t + op_cost t op ≤ 2 ^ 48 →
  ∃ r t' w' m', run_op op (t, w) = (Ok r, (t', w')) ∧ store_step m op r m' ∧
    store_repr t' w' m' ∧ same_shape t t' ∧ filled t ≤ filled t' ≤ filled t + op_cost t op ∧
    log_frame t (seqZ 1 (filled t' - 1)) w w'.
Proof.
  intros (free & vals & Hr & ->) Hpre Hmax.
  assert (Hown : ∀ i, is_Some (store_of vals !! i) → ∃ idxs s vals0,
    repr t w free ((i :: idxs, s) :: vals0) ∧ store_of vals !! i = Some s ∧
    store_of vals0 = delete i (store_of vals)).
  { intros i [s Hi]. destruct (repr_store_lookup _ _ _ _ _ _ Hr Hi) as (idxs & v0 & Hp & Hd).
    exists idxs, s, v0. by rewrite <- Hp. }
  destruct op as [key val c|i key val c|i|i|i]; cbn [op_pre op_cost] in *.
  - destruct Hpre as [Hk Hfit].
    destruct (write_insert_ok t w free vals key val c Hr Hk Hfit ltac:(lia))
      as (i & new & t' & w' & free' & Hrun & Hsh & Hr' & Hfl & Hfr).
    destruct (repr_fresh _ _ _ _ _ _ _ Hr') as [Hi1 Hi2].
    eexists _, _, _, _. split; [cbn; by erewrite ST_bind_Ok by exact Hrun|].
    split_and!; [by constructor|by eapply store_repr_cons|done|lia|lia|].
    eapply log_frame_mono, touched_bound; [done|exact Hr|lia|set_solver].
  - destruct Hpre as (Hi & Hk & Hfit). destruct (Hown i Hi) as (idxs & s & v0 & Hr0 & Hs & Hd).
    destruct (write_replace_ok t w free v0 i idxs s key val c Hr0 Hk Hfit ltac:(lia))
      as (new & t' & w' & free' & Hrun & Hsh & Hr' & Hfl & Hfr).
    eexists _, _, _, _. split; [cbn; by erewrite ST_bind_Ok by exact Hrun|].
    split_and!; [by constructor| |done|lia|lia|].
    + pose proof (store_repr_cons _ _ _ _ _ _ _ Hr') as Hst. rewrite Hd in Hst.
      by rewrite insert_delete_eq in Hst.
    + eapply log_frame_mono, touched_bound; [done|exact Hr0|lia|set_solver].
  - destruct (Hown i Hpre) as (idxs & s & v0 & Hr0 & Hs & Hd).
    destruct (write_remove_ok _ _ _ _ _ _ _ Hr0) as (t' & w' & Hrun & Hsh & Hr' & Hfl & Hfr).
    eexists _, _, _, _. split; [cbn; by erewrite ST_bind_Ok by exact Hrun|].
    split_and!; [by constructor| |done|lia|lia|].
    + eexists _, v0. by split.
    + eapply log_frame_mono, touched_bound; [done|exact Hr0|lia|set_solver].
  - destruct Hpre as [Hi Hrc]. destruct (Hown i Hi) as (idxs & s & v0 & Hr0 & Hs & Hd).
    destruct (write_inc_ref_ok t w free v0 i idxs s Hrc Hr0) as (w' & Hrun & Hr' & Hfr).
    eexists _, _, _, _. split; [cbn; by erewrite ST_bind_Ok by exact Hrun|].
    split_and!; [by constructor| |done|lia|lia|].
    + pose proof (store_repr_cons _ _ _ _ _ _ _ Hr') as Hst. rewrite Hd in Hst.
      by rewrite insert_delete_eq in Hst.
    + eapply log_frame_mono, touched_bound; [done|exact Hr0|lia|set_solver].
  - destruct Hpre as [Hi Hrc]. destruct (Hown i Hi) as (idxs & s & v0 & Hr0 & Hs & Hd).
    destruct (write_dec_ref_ok t w free v0 i idxs s Hrc Hr0) as (t' & w' & Hsh & Hfl & Hfr & Hdec).
    assert (Hbound : log_frame t (seqZ 1 (filled t' - 1)) w w')
      by (eapply log_frame_mono, touched_bound; [done|exact Hr0|lia|set_solver]).
    destruct (repr_elem _ _ _ _ (i :: idxs) s Hr0 ltac:(set_solver)) as [[Hrcs _ _] _].
    destruct (Z.eqb_spec (s_rc s) 1) as [E1|E1]; destruct Hdec as [Hrun Hr'].
    + eexists _, _, _, _. split; [cbn; by erewrite ST_bind_Ok by exact Hrun|].
      split_and!; [by eapply step_dec_last|by eexists _, v0|done|lia|lia|done].
    + pose proof (store_repr_cons _ _ _ _ _ _ _ Hr') as Hst.
      rewrite Hd, insert_delete_eq in Hst.
      eexists _, _, _, _. split; [cbn; by erewrite ST_bind_Ok by exact Hrun|].
      split_and!; [|exact Hst|done|lia|lia|done].
      destruct (Z.eqb_spec (s_rc s) LOCKED_REF) as [E2|E2].
      * replace (with_rc (s_rc s) s) with s by (by destruct s).
        rewrite insert_id by done. by eapply step_dec_locked.
      * apply step_dec; [done|]. unfold LOCKED_REF, U32_MAX in *. lia.
Qed.

(** The total cost of a sequence. *)
Definition ops_cost t (ops : list TableOp) : Z := foldr (fun op n => op_cost t op + n) 0 ops.

Lemma ops_cost_cons t op ops : ops_cost t (op :: ops) = op_cost t op + ops_cost t ops.
Proof. done. Qed.

(** Runs of the contract: every operation of the sequence is allowed where it
    happens, whatever addresses the table chose before. *)
Inductive store_run : Store → list TableOp → list TableRes → Store → Prop :=
| run_nil m : store_run m [] [] m
| run_cons m op r m1 ops rs m2 : store_step m op r m1 → store_run m1 ops rs m2 →
    store_run m (op :: ops) (r :: rs) m2.

(** A sequence of operations that is safe under the contract. *)
Inductive ops_pre t : Store → list TableOp → Prop :=
| pre_nil m : ops_pre t m []
| pre_cons m op ops : op_pre t m op →
    (∀ r m1, store_step m op r m1 → ops_pre t m1 ops) → ops_pre t m (op :: ops).

Lemma op_pre_shape t t' m op : same_shape t t' → op_pre t m op → op_pre t' m op.
Proof.
  intros Hsh. unfold op_pre, fits, ref_size.
  rewrite (same_shape_esz _ _ Hsh), (sh_multipart _ _ Hsh), (sh_rc _ _ Hsh). done.
Qed.

Lemma op_cost_shape t t' op : same_shape t t' → op_cost t' op = op_cost t op.
Proof. intros Hsh. unfold op_cost, payload_len, ref_size. by rewrite (sh_rc _ _ Hsh). Qed.

Lemma ops_pre_shape t t' m ops : same_shape t t' → ops_pre t m ops → ops_pre t' m ops.
Proof. intros Hsh. induction 1; constructor; eauto using op_pre_shape. Qed.

Lemma op_cost_nonneg t op : 0 ≤ op_cost t op.
Proof. destruct op; cbn; lia. Qed.

Lemma ops_cost_nonneg t ops : 0 ≤ ops_cost t ops.
Proof. induction ops as [|op ops IH]; [done|]. rewrite ops_cost_cons. pose proof (op_cost_nonneg t op). lia. Qed.

Lemma ops_cost_shape t t' ops : same_shape t t' → ops_cost t' ops = ops_cost t ops.
Proof.
  intros Hsh. induction ops as [|op ops IH]; [done|].
  by rewrite !ops_cost_cons, IH, (op_cost_shape _ _ _ Hsh).
Qed.

Lemma run_ops_ok ops : ∀ t w m, store_repr t w m → ops_pre t m ops →
  filled t + ops_cost t ops ≤ 2 ^ 48 →
  ∃ rs t' w' m', run_ops ops (t, w) = (Ok rs, (t', w')) ∧ store_run m ops rs m' ∧
    store_repr t' w' m' ∧ same_shape t t' ∧ filled t ≤ filled t' ≤ filled t + ops_cost t ops ∧
    log_frame t (seqZ 1 (filled t' - 1)) w w'.
Proof.
  induction ops as [|op ops IH]; intros t w m Hr Hpre Hmax.
  - exists [], t, w, m. split_and!; [done|constructor|done|done|done|cbn; lia|apply log_frame_refl].
  - inversion Hpre as [|? ? ? Hop Hnext]; subst. rewrite ops_cost_cons in *.
    pose proof (ops_cost_nonneg t ops).
    destruct (run_op_ok t w m op Hr Hop ltac:(lia))
      as (r & t1 & w1 & m1 & Hrun & Hst & Hr1 & Hsh & Hfl & Hfr).
    destruct (IH t1 w1 m1 Hr1) as (rs & t' & w' & m' & Hrun' & Hrr & Hr' & Hsh' & Hfl' & Hfr').
    + eapply ops_pre_shape; [done|eauto].
    + rewrite (ops_cost_shape _ _ _ Hsh). lia.
    + rewrite (ops_cost_shape _ _ _ Hsh) in Hfl'. exists (r :: rs), t', w', m'. split_and!.
      * cbn [run_ops]. erewrite ST_bind_Ok by exact Hrun. by erewrite ST_bind_Ok by exact Hrun'.
      * by econstructor.
      * done.
      * by etrans.
      * lia.
      * lia.
      * eapply log_frame_trans; [exact Hfr|by eapply log_frame_shape| |done].
        intros i. rewrite !elem_of_seqZ. lia.
Qed.

(** ** What readers see *)

Section Reads.
Context {L} `{LogView L}.

(** The chain behind an address. *)
Lemma store_chain t (log : L) m i s : store_repr t log m → m !! i = Some s →
  ∃ idxs, table_wf t ∧ stored_wf t s ∧
    chain_at t log (s_compressed s) true (i :: idxs) (payload t s) ∧
    (length (i :: idxs) ≤ parts_fuel t)%nat.
Proof.
  intros (free & vals & Hr & ->) Hi.
  destruct (repr_store_lookup _ _ _ _ _ _ Hr Hi) as (idxs & v0 & Hp & _).
  assert (Hin : (i :: idxs, s) ∈ vals) by (rewrite Hp; set_solver).
  destruct (repr_elem _ _ _ _ _ _ Hr Hin) as [Hs Hc].
  exists idxs. split_and!; [apply Hr|done|done|by eapply repr_parts].
Qed.

Lemma query_store t (log : L) m i s q : store_repr t log m → m !! i = Some s →
  query_fits q (s_key s) →
  query t q i log =
  Ok (match key_match q (s_key s) with
      | None => (None, q)
      | Some q' => (Some (s_value s, s_compressed s, s_rc s), q')
      end).
Proof.
  intros Hr Hi Hq. destruct (store_chain t log m i s Hr Hi) as (idxs & Hwf & Hs & Hc & Hf).
  by apply (query_chain t Hwf log i idxs s).
Qed.

Lemma get_store t (log : L) m i s key : store_repr t log m → m !! i = Some s →
  length (s_key s) = TableKey.encoded_size key →
  get t key i log =
  Ok (if decide (s_key s = key_bytes key) then Some (s_value s, s_compressed s) else None).
Proof.
  intros Hr Hi Hk. unfold get. rewrite (query_store t log m i s (Check_ key) Hr Hi) by by destruct key.
  rewrite outcome_bind_Ok. destruct key as [k|]; cbn.
  - destruct (decide (partial_key k = s_key s)) as [E|E]; by case_decide.
  - case_decide as E; [done|]. destruct E. by apply nil_length_inv.
Qed.

Lemma foldl_len (l : list bytes) : ∀ n,
  foldl (fun acc (b : bytes) => wrap32 (acc + wrap32 (Z.of_nat (length b)))) (wrap32 n) l =
  wrap32 (n + Z.of_nat (length (concat l))).
Proof.
  induction l as [|b l IH]; intros n; cbn [foldl concat]; [f_equal; cbn; lia|].
  replace (wrap32 (wrap32 n + wrap32 (Z.of_nat (length b)))) with
    (wrap32 (n + Z.of_nat (length b))) by (unfold wrap32; by rewrite <- Zplus_mod).
  rewrite IH. f_equal. rewrite length_app. lia.
Qed.

Lemma size_store t (log : L) m i s key : store_repr t log m → m !! i = Some s →
  length (s_key s) = TableKey.encoded_size key → Z.of_nat (length (s_value s)) < 2 ^ 32 →
  size t key i log =
  Ok (if decide (s_key s = key_bytes key)
      then Some (Z.of_nat (length (s_value s)), s_compressed s) else None).
Proof.
  intros Hr Hi Hk Hlen. destruct (store_chain t log m i s Hr Hi) as (idxs & Hwf & Hs & Hc & Hf).
  unfold size. rewrite (for_parts_chain t Hwf log
    (fun acc b => wrap32 (acc + wrap32 (Z.of_nat (length b)))) i idxs s (Check_ key))
    by (done || by destruct key).
  rewrite outcome_bind_Ok. pose proof (foldl_len
    (value_parts (head_len t s) (esz t) (i :: idxs) (payload t s)) 0) as Hsum.
  rewrite (concat_value_parts t Hwf log i idxs s Hs Hc) in Hsum.
  change (wrap32 0) with 0 in Hsum.
  replace (wrap32 (0 + Z.of_nat (length (s_value s)))) with (Z.of_nat (length (s_value s)))
    in Hsum by (unfold wrap32; rewrite Z.mod_small; lia).
  rewrite Hsum.
  destruct Hs as [Hrc _ _].
  destruct key as [k|]; cbn.
  - destruct (decide (partial_key k = s_key s)) as [E|E]; case_decide; try congruence; [|done].
    destruct (Z.gtb_spec (s_rc s) 0); [done|lia].
  - case_decide as E; [|destruct E; by apply nil_length_inv].
    destruct (Z.gtb_spec (s_rc s) 0); [done|lia].
Qed.

Lemma get_with_meta_store t (log : L) m i s : store_repr t log m → m !! i = Some s →
  length (s_key s) = PARTIAL_SIZE →
  get_with_meta t i log = Ok (Some (s_value s, s_rc s, s_key s, s_compressed s)).
Proof.
  intros Hr Hi Hk. unfold get_with_meta.
  by rewrite (query_store t log m i s (Fetch (Some _)) Hr Hi) by done.
Qed.

End Reads.

Lemma has_key_at_store t w m i s k : store_repr t w m → m !! i = Some s →
  length (s_key s) = PARTIAL_SIZE →
  has_key_at t i (Partial k) w = Ok (bool_decide (s_key s = partial_key k)).
Proof.
  intros Hr Hi Hk. destruct (store_chain t w m i s Hr Hi) as (idxs & Hwf & Hs & Hc & Hf).
  unfold has_key_at. by rewrite (partial_key_at_chain t Hwf w i idxs s Hs Hc Hk).
Qed.

End Store.
