(* ===== verification/TableEnact.v ===== *)
(** * From the log to the table file

    [ValueTable::enact_plan] copies one logged entry to the file of the table.
    Enacting the entries of a record, in any order, makes the file show what
    the writer of the record saw; [complete_plan] and [refresh_metadata] carry
    the free list head and the fill mark through entry 0. *)

From S2P Require Import Prelude.
From S2P Require Import Bytes.
From S2P Require Import Ids.
From S2P Require Import File.
From S2P Require Import Log.
From S2P Require Import LogProofs.
From S2P Require Import Table.
From S2P Require Import TableSpec.
From S2P Require Import TableOps.
From S2P Require Import TableRefine.
From S2P Require Import TableStore.
From stdpp Require Import options.
#[local] Set Default Proof Using "Type*".

(** ** The file of a table *)

Definition contents (t : ValueTable) : bytes := default [] (file (vt_file t)).

(** The file ends with the last whole entry of its capacity, and has entry 0
    if it exists. *)
Definition file_ok (t : ValueTable) : Prop :=
  0 ≤ capacity (vt_file t) ∧ capacity (vt_file t) * entry_size t < 2 ^ 63 ∧
  (is_Some (file (vt_file t)) → 1 ≤ capacity (vt_file t)) ∧
  capacity (vt_file t) * entry_size t ≤ Z.of_nat (length (contents t))
    < (capacity (vt_file t) + 1) * entry_size t.

Lemma set_vt_file_shape f t : vt_id (set_vt_file f t) = vt_id t ∧
  entry_size (set_vt_file f t) = entry_size t ∧ esz (set_vt_file f t) = esz t ∧
  filled (set_vt_file f t) = filled t ∧ last_removed (set_vt_file f t) = last_removed t ∧
  multipart (set_vt_file f t) = multipart t ∧ ref_counted (set_vt_file f t) = ref_counted t ∧
  db_version (set_vt_file f t) = db_version t.
Proof. done. Qed.

(** The first 16 bytes of entry 0; a file that does not exist yet reads as
    zeros. *)
Definition header_of (t : ValueTable) : bytes := take 16 (contents t ++ replicate 16 x00).

Lemma header_of_extend (c : bytes) n : take 16 ((c ++ replicate n x00) ++ replicate 16 x00) =
  take 16 (c ++ replicate 16 x00).
Proof.
  rewrite <- (assoc_L (++)), <- replicate_add. rewrite !take_app. f_equal.
  rewrite !take_replicate. f_equal. lia.
Qed.

Section Enact.
Context `{!Uninit}.
Implicit Types (t : ValueTable) (r : LogReader).

Lemma grow_entries t : table_wf t → 8 ≤ GROW_SIZE_BYTES / entry_size t ≤ 2 ^ 13.
Proof.
  intros [Hs _]. unfold GROW_SIZE_BYTES, MIN_ENTRY_SIZE, MAX_ENTRY_SIZE in *. split.
  - apply Z.div_le_lower_bound; lia.
  - apply Z.div_le_upper_bound; lia.
Qed.

(** [grow_to] extends the file with zeros until it has entry [index]. *)
Lemma grow_to_spec fuel : ∀ t r index, table_wf t → file_ok t → 0 ≤ index ≤ 2 ^ 48 →
  (Z.to_nat (index + 1 - capacity (vt_file t)) < fuel)%nat →
  ∃ f, grow_to fuel index (t, r) = (Ok tt, (set_vt_file f t, r)) ∧
    file_ok (set_vt_file f t) ∧ index < capacity f ∧ is_Some (file f) ∧
    ∃ n, contents (set_vt_file f t) = contents t ++ replicate n x00.
Proof.
  induction fuel as [|fuel IH]; intros t r index Hwf Hok Hi Hfuel; [lia|].
  cbn [grow_to]. erewrite ST_bind_Ok by done. cbv beta iota.
  destruct (Z.leb_spec (capacity (vt_file t)) index) as [Hc|Hc].
  - set (f1 := MkTableFile (Some (set_len (Z.to_nat (wrap64
      (wrap64 (capacity (vt_file t) + GROW_SIZE_BYTES / entry_size t) * entry_size t)))
      (contents t))) (wrap64 (capacity (vt_file t) + GROW_SIZE_BYTES / entry_size t))
      (dirty (vt_file t)) (file_id (vt_file t))).
    erewrite ST_bind_Ok.
    2: { unfold on_file, TableFile.grow. fold (contents t). fold f1. reflexivity. }
    pose proof (grow_entries t Hwf) as Hg. destruct Hok as (Hc0 & Hmax & _ & Hlen).
    pose proof (wf_size t Hwf) as Hs. unfold MIN_ENTRY_SIZE, MAX_ENTRY_SIZE in Hs.
    set (k := GROW_SIZE_BYTES / entry_size t) in *. set (c := capacity (vt_file t)) in *.
    assert (Hw1 : wrap64 (c + k) = c + k) by (apply wrap64_small; unfold is_u64; lia).
    assert (Hbig : (c + k) * entry_size t < 2 ^ 63) by nia.
    assert (Hw2 : wrap64 ((c + k) * entry_size t) = (c + k) * entry_size t)
      by (apply wrap64_small; unfold is_u64; nia).
    assert (Hgrow : (length (contents t) ≤ Z.to_nat ((c + k) * entry_size t))%nat) by nia.
    assert (Hc1 : contents (set_vt_file f1 t) = contents t ++
      replicate (Z.to_nat ((c + k) * entry_size t) - length (contents t)) x00).
    { unfold f1, contents at 1. cbn. rewrite Hw1, Hw2. by apply set_len_prefix. }
    destruct (IH (set_vt_file f1 t) r index) as (f & Hrun & Hok' & Hcap & Hsome & n & Hn).
    + by destruct Hwf.
    + split; [cbn; rewrite Hw1; lia|]. split; [cbn; by rewrite Hw1|].
      split; [cbn; rewrite Hw1; lia|]. rewrite Hc1, length_app, length_replicate. cbn. rewrite Hw1. nia.
    + done.
    + cbn. rewrite Hw1. lia.
    + exists f. split; [exact Hrun|]. split_and!; try done.
      eexists. rewrite Hn at 1. rewrite Hc1, <- (assoc_L (++)), <- replicate_add. done.
  - exists (vt_file t). split_and!; [by destruct t|by destruct t|done| |].
    + pose proof (wf_size t Hwf) as Hs. destruct Hok as (Hc0 & _ & _ & Hl). unfold contents in Hl.
      unfold MIN_ENTRY_SIZE in Hs. destruct (file (vt_file t)); [eauto|]. cbn in Hl. nia.
    + exists 0%nat. destruct t. cbn. by rewrite app_nil_r.
Qed.

(** What a record may log for entry [index]. *)
Definition logged t (index : Z) (d : bytes) : Prop :=
  (index = 0 ∧ length d = 16%nat) ∨ (1 ≤ index ∧ ∃ s, slot_wf t s ∧ d = encode_slot s).

Lemma logged_le t index d : table_wf t → logged t index d → (length d ≤ esz t)%nat.
Proof.
  intros Hwf [[_ Hd]|(_ & s & Hs & ->)]; [|by apply length_encode_slot].
  destruct Hwf as [Hs _]. unfold esz, MIN_ENTRY_SIZE in *. lia.
Qed.

Lemma from_log_read t r (d rest : bytes) n : reader_at r d rest → n = length d →
  ∃ r', from_log n (t, r) = (Ok d, (t, r')) ∧ advanced d r r'.
Proof.
  intros Hr Hn. destruct (reader_read r d rest n Hr Hn) as (r' & E & Ha).
  exists r'. split; [|done]. unfold from_log. by rewrite E.
Qed.

(** [read_logged] takes exactly the bytes of the entry from the log. *)
Lemma read_logged_spec t r index (d rest : bytes) : table_wf t → logged t index d →
  reader_at r d rest →
  ∃ r', read_logged index (t, r) = (Ok d, (t, r')) ∧ advanced d r r'.
Proof.
  intros Hwf Hlog Hr. unfold read_logged. erewrite ST_bind_Ok by done. cbv beta iota.
  destruct Hlog as [[-> Hd]|(Hi & s & Hs & ->)].
  - cbn [Z.eqb]. by apply (from_log_read t r d rest 16).
  - destruct (Z.eqb_spec index 0); [lia|].
    assert (E : encode_slot s = take 2 (encode_slot s) ++ drop 2 (encode_slot s))
      by by rewrite take_drop.
    pose proof (length_encode_slot_ge t s Hs) as H2.
    rewrite E, reader_at_split in Hr.
    destruct (from_log_read t r _ _ SIZE_SIZE Hr) as (r1 & E1 & Ha1); [rewrite length_take; unfold SIZE_SIZE; lia|].
    erewrite ST_bind_Ok by exact E1. cbv zeta.
    pose proof (shows_take t Hwf s 2 Hs ltac:(lia)) as Hsh.
    rewrite <- (app_nil_r (take 2 (encode_slot s))).
    rewrite (shows_tombstone t Hwf s _ [] Hs Hsh).
    pose proof (advanced_at _ _ _ _ Hr Ha1) as Hr1.
    rewrite <- reader_at_split, app_nil_l in Hr1. rewrite app_nil_r.
    assert (Hgo : ∀ k, k = length (drop 2 (encode_slot s)) → ∃ r',
      (rest ← from_log k; mret (take 2 (encode_slot s) ++ rest)) (t, r1) =
      (Ok (encode_slot s), (t, r')) ∧ advanced (encode_slot s) r r').
    { intros k Hk. destruct (from_log_read t r1 _ _ k Hr1 Hk) as (r2 & E2 & Ha2).
      exists r2. split; [|rewrite E; by eapply advanced_trans].
      erewrite ST_bind_Ok by exact E2. by rewrite take_drop. }
    destruct s as [n0|m j p|c p].
    + apply Hgo. unfold INDEX_SIZE. cbn. len.
    + pose proof Hs as (Hmp & Hm & _ & Hl). rewrite Hmp.
      pose proof (shows_multi t Hwf _ _ [] Hs Hsh Hmp) as Hmu. cbv beta iota in Hmu.
      rewrite app_nil_r in Hmu. rewrite Hmu. cbn [andb]. apply Hgo.
      unfold SIZE_SIZE. fold (esz t). rewrite <- Hl.
      destruct Hm as [->|[->| ->]]; cbn; len.
    + assert (Hmu : multipart t && Entry.is_multi (db_version t)
        (Entry.new (take 2 (encode_slot (Sized c p)))) = false).
      { destruct (multipart t) eqn:Hmp; [|done].
        pose proof (shows_multi t Hwf _ _ [] Hs Hsh Hmp) as Hmu. cbv beta iota in Hmu.
        by rewrite app_nil_r in Hmu. }
      pose proof (sized_len t Hwf c p Hs) as Hl. rewrite Hmu.
      assert (Hh : take 2 (encode_slot (Sized c p)) = le_encode 2 (size_word c (length p)) ++ [])
        by by rewrite app_nil_r.
      erewrite ST_bind_Ok.
      2: { unfold lift_st. by rewrite Hh, (run_entry_Ok _ _ _ _
             (read_size_word c (length p) [] ltac:(lia))). }
      cbv beta iota. rewrite Nat2Z.id. erewrite ST_bind_Ok.
      2: { unfold lift_st, rust_assert.
           destruct (Nat.leb_spec (SIZE_SIZE + length p) MAX_ENTRY_BUF_SIZE) as [_|Hx]; [done|].
           unfold SIZE_SIZE, MAX_ENTRY_BUF_SIZE in Hx. lia. }
      apply Hgo. cbn. len.
Qed.

(** The window of entry [j] in a file. *)
Definition window t (f : TableFile) (j : Z) : outcome bytes :=
  TableFile.read_at f (esz t) (wrap64 (j * entry_size t)).

Lemma entry_offset t j : table_wf t → 0 ≤ j ≤ 2 ^ 48 →
  Z.to_nat (wrap64 (j * entry_size t)) = (Z.to_nat j * esz t)%nat.
Proof.
  intros [Hs _] Hj. unfold MIN_ENTRY_SIZE, MAX_ENTRY_SIZE, esz in *.
  rewrite wrap64_small by (unfold is_u64; nia). nia.
Qed.

Lemma file_contents (f : TableFile) t : is_Some (file f) →
  file f = Some (contents (set_vt_file f t)).
Proof. intros [b Hb]. unfold contents. cbn. by rewrite Hb. Qed.

Lemma window_read t f j : table_wf t → 0 ≤ j ≤ 2 ^ 48 → is_Some (file f) →
  window t f j = read_exact_at (esz t) (Z.to_nat j * esz t) (contents (set_vt_file f t)).
Proof.
  intros Hwf Hj Hf. unfold window, TableFile.read_at.
  by rewrite (file_contents f t Hf), entry_offset.
Qed.

(** Distinct entries do not overlap. *)
Lemma entries_disjoint (i j n : nat) : i ≠ j → (i * n + n ≤ j * n ∨ j * n + n ≤ i * n)%nat.
Proof. intros. nia. Qed.

(** Writing one entry into a file that has room for it. *)
Lemma write_entry t f index (d : bytes) : table_wf t → file_ok (set_vt_file f t) →
  0 ≤ index ≤ 2 ^ 48 → index < capacity f → is_Some (file f) → (length d ≤ esz t)%nat →
  ∃ f', TableFile.write_at d (wrap64 (index * entry_size t)) f = (Ok tt, f') ∧
    file_ok (set_vt_file f' t) ∧ is_Some (file f') ∧
    (∃ tail, window t f' index = Ok (d ++ tail)) ∧
    (∀ j b, 0 ≤ j ≤ 2 ^ 48 → j ≠ index → window t f j = Ok b → window t f' j = Ok b) ∧
    (index ≠ 0 → header_of (set_vt_file f' t) = header_of (set_vt_file f t)).
Proof.
  intros Hwf Hok Hi Hcap Hf Hd. pose proof (file_contents f t Hf) as Hfc.
  set (c := contents (set_vt_file f t)) in *. unfold TableFile.write_at.
  cbn [file capacity dirty file_id]. rewrite Hfc, entry_offset by done.
  set (c' := write_all_at d (Z.to_nat index * esz t) c).
  set (f' := MkTableFile (Some c') (capacity f) true (file_id f)).
  assert (Hfull : (Z.to_nat index * esz t + esz t ≤ length c)%nat).
  { destruct Hok as (_ & _ & _ & Hl & _). fold c in Hl. cbn in Hl. unfold esz.
    pose proof (wf_size t Hwf). unfold MIN_ENTRY_SIZE in *. nia. }
  assert (Hlen : length c' = length c) by (unfold c'; rewrite length_write_all_at; lia).
  assert (Hc' : contents (set_vt_file f' t) = c') by done.
  assert (Hf' : is_Some (file f')) by eauto.
  exists f'. split_and!; [done| |done| | |].
  - destruct Hok as (H1 & H2 & H3 & H4). split_and!; [done|done|by intros _; apply H3|..];
      rewrite Hc', Hlen; apply H4.
  - rewrite window_read, Hc' by done. unfold c'. rewrite read_write_prefix by lia. eauto.
  - intros j b Hj Hne. rewrite !window_read by done. rewrite Hc'. fold c. intros Hb.
    unfold c'. rewrite read_write_other; [done| |].
    + destruct (entries_disjoint (Z.to_nat j) (Z.to_nat index) (esz t)); lia.
    + unfold read_exact_at in Hb.
      by destruct (Nat.leb_spec (Z.to_nat j * esz t + esz t) (length c)).
  - intros Hne. unfold header_of. rewrite Hc'. fold c. unfold c', write_all_at.
    pose proof (wf_size t Hwf) as Hs. assert (Hes : (32 ≤ esz t)%nat)
      by (unfold esz, MIN_ENTRY_SIZE in *; lia).
    assert (Ho : (16 ≤ Z.to_nat index * esz t)%nat) by nia.
    replace (Z.to_nat index * esz t - length c)%nat with 0%nat by lia.
    rewrite app_nil_r, <- (assoc_L (++)), !(take_app_le _ _ 16) by len.
    rewrite take_take. f_equal. lia.
Qed.

(** [enact_plan]: the entry is read from the log and written to its place; no
    other entry of the file changes. *)
Lemma enact_plan_spec t r index (d rest : bytes) : table_wf t → file_ok t →
  0 ≤ index ≤ 2 ^ 48 → logged t index d → reader_at r d rest →
  ∃ f r', enact_plan index (t, r) = (Ok tt, (set_vt_file f t, r')) ∧ advanced d r r' ∧
    file_ok (set_vt_file f t) ∧ is_Some (file f) ∧
    (∃ tail, window t f index = Ok (d ++ tail)) ∧
    (∀ j b, 0 ≤ j ≤ 2 ^ 48 → j ≠ index → window t (vt_file t) j = Ok b → window t f j = Ok b) ∧
    (index ≠ 0 → header_of (set_vt_file f t) = header_of t).
Proof.
  intros Hwf Hok Hi Hlog Hr. pose proof (logged_le t index d Hwf Hlog) as Hd.
  destruct (grow_to_spec (S (S (Z.to_nat index))) t r index Hwf Hok Hi)
    as (f1 & Hg & Hok1 & Hcap & Hf1 & n & Hn); [destruct Hok; lia|].
  assert (Hwf1 : table_wf (set_vt_file f1 t)) by by destruct Hwf.
  destruct (read_logged_spec (set_vt_file f1 t) r index d rest Hwf1 Hlog Hr) as (r' & Hrl & Hr').
  destruct (write_entry t f1 index d Hwf Hok1 Hi Hcap Hf1 Hd)
    as (f & Hw & Hok' & Hf & Htail & Hoth & Hhd).
  exists f, r'. split_and!; try done.
  - unfold enact_plan. erewrite ST_bind_Ok by done. cbv beta iota.
    erewrite ST_bind_Ok by exact Hg. erewrite ST_bind_Ok by exact Hrl.
    unfold on_file. cbn [vt_file set_vt_file].
    replace (if index =? 0 then 0 else wrap64 (index * entry_size t)) with
      (wrap64 (index * entry_size t)) by (destruct (Z.eqb_spec index 0) as [->|]; done).
    by rewrite Hw.
  - intros j b Hj Hne Hb. apply Hoth; [done|done|]. rewrite window_read by done. rewrite Hn.
    revert Hb. unfold window, TableFile.read_at. destruct (file (vt_file t)) as [c|] eqn:Ec; [|done].
    cbn [unwrap]. rewrite outcome_bind_Ok, entry_offset by done.
    unfold contents, read_exact_at. rewrite Ec. cbn [default from_option id].
    destruct (Nat.leb_spec (Z.to_nat j * esz t + esz t) (length c)) as [Hl|]; [|done].
    rewrite length_app. destruct (Nat.leb_spec (Z.to_nat j * esz t + esz t)
      (length c + length (replicate n x00))); [|lia].
    by rewrite drop_app_le, take_app_le by len.
  - intros Hne. rewrite Hhd by done. unfold header_of. rewrite Hn. apply header_of_extend.
Qed.

(** ** Enacting a record *)

(** [t] is [t0] after the entries [m] were enacted. *)
Record enacted (t0 : ValueTable) (m : gmap Z bytes) (t : ValueTable) : Prop := {
  en_table : ∃ f, t = set_vt_file f t0;
  en_ok : file_ok t;
  en_new : ∀ j d, m !! j = Some d → ∃ tail, window t0 (vt_file t) j = Ok (d ++ tail);
  en_old : ∀ j b, 0 ≤ j ≤ 2 ^ 48 → m !! j = None →
    window t0 (vt_file t0) j = Ok b → window t0 (vt_file t) j = Ok b;
  en_header : m !! 0 = None → header_of t = header_of t0;
}.

Lemma enacted_nil t : file_ok t → enacted t ∅ t.
Proof. intros Hok. split; [exists (vt_file t); by destruct t|done..]. Qed.

Lemma enacted_step t0 m t r i (d rest : bytes) : table_wf t0 → enacted t0 m t →
  (∀ j, is_Some (m !! j) → 0 ≤ j ≤ 2 ^ 48) → 0 ≤ i ≤ 2 ^ 48 → logged t0 i d → reader_at r d rest →
  ∃ t' r', enact_plan i (t, r) = (Ok tt, (t', r')) ∧ advanced d r r' ∧
    enacted t0 (<[i := d]> m) t'.
Proof.
  intros Hwf [[f ->] Hok Hnew Hold Hhd] Hdom Hi Hlog Hr.
  destruct (enact_plan_spec (set_vt_file f t0) r i d rest) as
    (f' & r' & Hrun & Ha & Hok' & _ & Htail & Hoth & Hhd'); [by destruct Hwf|done..|].
  change (set_vt_file f' (set_vt_file f t0)) with (set_vt_file f' t0) in *.
  exists (set_vt_file f' t0), r'. split_and!; [done|done|]. split; [eauto|done|..].
  - intros j d'. rewrite lookup_insert. case_decide as Hij; [subst; intros [= <-]; apply Htail|].
    intros Hj. destruct (Hnew j d' Hj) as [tail Hw]. exists tail.
    apply Hoth; [eauto|congruence|done].
  - intros j b Hj. rewrite lookup_insert. case_decide as Hij; [done|]. intros Hnone Hw.
    apply Hoth; [done|congruence|]. by apply Hold.
  - rewrite lookup_insert. case_decide; [done|]. intros Hm. rewrite Hhd' by done. by apply Hhd.
Qed.

(** What the writer of the record saw, the file shows afterwards. *)
Lemma enacted_slot {L} `{LogView L} t0 w m t (log : L) j s : enacted t0 m t →
  (∀ i, m !! i = own_value w (vt_id t0) i) → 0 ≤ j ≤ 2 ^ 48 →
  value_view (writer_overlays w) (vt_id t0) j = None → value_view log (vt_id t0) j = None →
  slot_is t0 w j s → slot_is t log j s.
Proof.
  intros [[f ->] _ Hnew Hold _] Hm Hj Hov Hlog [Hw [rest Hs]]. split; [done|].
  unfold slot_bytes in *. cbn [vt_id set_vt_file vt_file entry_size]. rewrite Hlog.
  change (esz (set_vt_file f t0)) with (esz t0).
  cbn [vt_file set_vt_file] in *. rewrite value_view_own, Hov in Hs.
  destruct (own_value w (vt_id t0) j) as [d|] eqn:Ed.
  - destruct (Hnew j d) as [tail Htail]; [by rewrite Hm|]. unfold window in Htail.
    rewrite Htail. injection Hs as ->. exists (rest ++ tail). by rewrite (assoc_L (++)).
  - destruct (TableFile.read_at (vt_file t0) _ _) as [b| | | | |] eqn:Eb; [|done..].
    injection Hs as ->. exists rest. unfold window in Hold.
    by rewrite (Hold j _ Hj ltac:(by rewrite Hm) Eb).
Qed.

(** [t0] with another file. *)
Definition with_file (f : TableFile) (b : bool) (v : Z) t0 : ValueTable :=
  MkValueTable (vt_id t0) (entry_size t0) f (filled t0) (last_removed t0) b (multipart t0) (ref_counted t0) v.

(** A table whose slots are shown by another file and log holds the same. *)
Lemma repr_slots {L M} `{LogView L} `{LogView M} t0 (l0 : L) b f v (l : M) free vals :
  let t := with_file f b v t0 in
  (∀ j s, 1 ≤ j < filled t0 → slot_is t0 l0 j s → slot_is t l j s) →
  repr t0 l0 free vals → repr t l free vals.
Proof.
  intros t Hsl Hr. pose proof (repr_range _ _ _ _ Hr) as Hrg.
  rewrite Forall_forall in Hrg. destruct Hr as [Hwf Hfill Hslots Hf Hv].
  split; [by destruct Hwf|done|done| |].
  - eapply (free_at_mono t0 _ l0 l); [done| |exact Hf]. intros i s Hi. apply Hsl, Hrg. set_solver.
  - clear Hslots. induction Hv as [|[idxs s] vals [Hs Hc] _ IH]; constructor.
    + split; [by destruct Hs|]. eapply (chain_at_mono t0 _ l0 l); [done| |exact Hc].
      intros i s' Hi. apply Hsl, Hrg. cbn. set_solver.
    + apply IH. intros j Hj. apply Hrg. cbn. set_solver.
Qed.

Lemma enacted_repr {L} `{LogView L} t0 w m t (log : L) free vals : enacted t0 m t →
  (∀ i, m !! i = own_value w (vt_id t0) i) →
  (∀ j, value_view (writer_overlays w) (vt_id t0) j = None) →
  (∀ j, value_view log (vt_id t0) j = None) →
  repr t0 w free vals → repr t log free vals.
Proof.
  intros Hen Hm Hov Hlog Hr. pose proof (en_table _ _ _ Hen) as [f Ht].
  pose proof (r_filled _ _ _ _ Hr) as Hfl. rewrite Ht.
  apply (repr_slots t0 w (dirty_header t0) f (db_version t0)); [|exact Hr].
  change (with_file _ _ _ _) with (set_vt_file f t0).
  intros j s Hj. rewrite <- Ht. eapply enacted_slot; [done|done|lia|done|done].
Qed.

(** *** Entry 0 *)

(** Operations that touch the free list head or the fill mark set the dirty
    flag. *)
Definition meta_rel (s s' : TW) : Prop :=
  dirty_header s'.1 = true ∨
  (dirty_header s'.1 = dirty_header s.1 ∧ filled s'.1 = filled s.1 ∧
   last_removed s'.1 = last_removed s.1).
Definition keeps_meta {A} (m : ST TW A) : Prop := ∀ s, meta_rel s (m s).2.

Lemma meta_rel_trans a b c : meta_rel a b → meta_rel b c → meta_rel a c.
Proof. unfold meta_rel. intuition congruence. Qed.

Lemma keeps_meta_bind {A B} (m : ST TW A) (k : A → ST TW B) :
  keeps_meta m → (∀ a, keeps_meta (k a)) → keeps_meta (m ≫= k).
Proof.
  intros Hm Hk s. specialize (Hm s). unfold mbind, ST_bind in *.
  destruct (m s) as [[a| | | | |] s1] eqn:E; cbn in *; try exact Hm.
  eapply meta_rel_trans; [exact Hm|apply Hk].
Qed.

Lemma keeps_meta_ret {A} (a : A) : keeps_meta (mret a).
Proof. intros s. by right. Qed.
Lemma keeps_meta_lift {A} (o : outcome A) : keeps_meta (lift_st o).
Proof. intros s. by right. Qed.
Lemma keeps_meta_get : keeps_meta get_st.
Proof. intros s. by right. Qed.
Lemma keeps_reading {A} (f : ValueTable → LogWriter → outcome A) : keeps_meta (reading f).
Proof. intros [t w]. by right. Qed.
Lemma keeps_writer f : keeps_meta (on_writer f).
Proof. intros [t w]. by right. Qed.

Ltac keeps :=
  repeat match goal with
  | |- keeps_meta (_ ≫= _) => apply keeps_meta_bind
  | |- keeps_meta (mret _) => apply keeps_meta_ret
  | |- keeps_meta (lift_st _) => apply keeps_meta_lift
  | |- keeps_meta get_st => apply keeps_meta_get
  | |- keeps_meta (reading _) => apply keeps_reading
  | |- keeps_meta (on_writer _) => apply keeps_writer
  | |- keeps_meta (match ?x with _ => _ end) => destruct x
  | |- ∀ _, _ => intros ?
  | _ => solve [auto]
  end.

Lemma keeps_next_free : keeps_meta next_free.
Proof.
  intros [t w]. unfold next_free. erewrite ST_bind_Ok by done. cbv beta iota.
  destruct (last_removed t =? 0); cbn [negb]; [by left|].
  unfold reading, mbind, ST_bind. by destruct (read_next_free t (last_removed t) w); [left|right..].
Qed.

Lemma keeps_clear_slot i : keeps_meta (clear_slot i).
Proof.
  intros [t w]. unfold clear_slot. erewrite ST_bind_Ok by done. cbv beta iota.
  unfold lift_st, mbind, ST_bind. destruct (run_entry _ _) as [[[] e]| | | | |]; first [by left|by right].
Qed.

Lemma keeps_clear_chain i : keeps_meta (clear_chain i).
Proof.
  assert (Hloop : ∀ fuel i, keeps_meta (clear_chain_loop fuel i)).
  { intros fuel. induction fuel as [|fuel IH]; intros k; cbn [clear_chain_loop]; keeps.
    all: auto using keeps_clear_slot. }
  unfold clear_chain. keeps.
Qed.

Lemma keeps_overwrite_chain key val at_ c : keeps_meta (overwrite_chain key val at_ c).
Proof.
  pose proof keeps_next_free. pose proof keeps_clear_chain.
  assert (Hloop : ∀ fuel remainder offset start index follow,
    keeps_meta (overwrite_loop fuel key val c remainder offset start index follow)).
  { intros fuel. induction fuel as [|fuel IH]; intros; cbn [overwrite_loop]; keeps. }
  unfold overwrite_chain. keeps.
Qed.

Lemma keeps_run_op op : keeps_meta (run_op op).
Proof.
  pose proof keeps_overwrite_chain. pose proof keeps_clear_chain. pose proof keeps_clear_slot.
  assert (Hrm : ∀ i, keeps_meta (write_remove_plan i)) by (intros i; unfold write_remove_plan; keeps).
  assert (Hcr : ∀ i d, keeps_meta (change_ref i d)) by (intros i d; unfold change_ref; keeps).
  destruct op; cbn [run_op]; unfold write_insert_plan, write_replace_plan, write_inc_ref,
    write_dec_ref; keeps.
Qed.

Lemma keeps_run_ops ops : keeps_meta (run_ops ops).
Proof. pose proof keeps_run_op. induction ops as [|op ops IH]; cbn [run_ops]; keeps. Qed.

(** The metadata in memory is what entry 0 of the file says. *)
Definition disk_meta t : Prop :=
  last_removed t = Header.last_removed (header_of t) ∧
  filled t = if Header.filled (header_of t) =? 0 then 1 else Header.filled (header_of t).

(** Entry 0 of the log, or of the file, has the metadata in memory, or they are
    to be logged. *)
Definition header_shown t (w : LogWriter) : Prop :=
  dirty_header t = true ∨
  match value_view w (vt_id t) 0 with
  | Some d => d = Header.make (last_removed t) (filled t)
  | None => disk_meta t
  end.

Lemma header_shown_op t w t' w' : meta_rel (t, w) (t', w') → same_shape t t' →
  value_view w' (vt_id t) 0 = value_view w (vt_id t) 0 → header_shown t w → header_shown t' w'.
Proof.
  intros Hm Hsh Hv Hh. destruct Hm as [?|(E1 & E2 & E3)]; [by left|]. cbn in E1, E2, E3.
  unfold header_shown, disk_meta, header_of, contents in *.
  rewrite E1, E2, E3, (sh_id _ _ Hsh), Hv, (sh_file _ _ Hsh). exact Hh.
Qed.

Lemma header_make lr n : is_u64 lr → is_u64 n →
  length (Header.make lr n) = 16%nat ∧ Header.last_removed (Header.make lr n) = lr ∧
  Header.filled (Header.make lr n) = n.
Proof.
  intros Hl Hn. unfold Header.make, Header.last_removed, Header.filled, INDEX_SIZE. split_and!.
  - len.
  - rewrite take_app_length' by len. by apply le_decode_encode_small.
  - rewrite drop_app_length', take_ge by len. by apply le_decode_encode_small.
Qed.

(** [refresh_metadata] reads entry 0. *)
Lemma refresh_metadata_spec t : table_wf t → file_ok t →
  (file (vt_file t) = None → disk_meta t) →
  ∃ t', refresh_metadata t = (Ok tt, t') ∧ disk_meta t' ∧
    t' = set_filled (filled t') (set_last_removed (last_removed t') t).
Proof.
  intros Hwf (_ & _ & Hcap & Hl & _) Hnone. unfold refresh_metadata, TableFile.read_at.
  unfold contents in Hl. destruct (file (vt_file t)) as [f|] eqn:Ef.
  2: { exists t. split_and!; [done|by apply Hnone|by destruct t]. }
  cbn in *. specialize (Hcap ltac:(eauto)). pose proof (wf_size t Hwf) as Hs.
  unfold MIN_ENTRY_SIZE in Hs. unfold read_exact_at. change (Z.to_nat 0) with 0%nat.
  destruct (Nat.leb_spec (0 + 16) (length f)) as [Hlen|]; [|nia].
  assert (Hh : header_of t = take 16 (drop 0 f)).
  { unfold header_of, contents. rewrite Ef. cbn. by rewrite take_app_le by lia. }
  eexists. split; [reflexivity|]. rewrite <- Hh. split; [|done].
  by unfold disk_meta.
Qed.

(** *** Replaying the entries of a table *)

(** The part of the loop of [DbInner::enact_logs] that concerns one table. *)
Definition replay_entry `{!Crc32} : ST TR unit :=
  a ← (fun '(t, r) => let '(o, r') := LogReader.next r in (o, (t, r')));
  match a with
  | InsertValue _ i => enact_plan i
  | _ => lift_st (Err (Corruption "Bad log record"))
  end.

Fixpoint replay_entries `{!Crc32} (n : nat) : ST TR unit :=
  match n with
  | O => mret tt
  | S n => _ ← replay_entry; replay_entries n
  end.

Definition entries_map (l : list (Z * (Z * bytes))) : gmap Z bytes :=
  list_to_map ((fun '(i, (_, d)) => (i, d)) <$> l).

Lemma replay_entries_spec `{!HashMapOrder, !Crc32} t0 l : ∀ m t r rest, table_wf t0 →
  is_u16 (ValueTableId.as_u16 (vt_id t0)) → enacted t0 m t → NoDup l.*1 →
  (∀ i, is_Some (m !! i) → 0 ≤ i ≤ 2 ^ 48) → (∀ i, i ∈ l.*1 → m !! i = None) →
  Forall (fun '(i, (_, d)) => 0 ≤ i ≤ 2 ^ 48 ∧ logged t0 i d) l →
  reader_at r [] (concat (flush_value_entry (vt_id t0) <$> l) ++ rest) →
  ∃ t' r', replay_entries (length l) (t, r) = (Ok tt, (t', r')) ∧ reader_at r' [] rest ∧
    enacted t0 (entries_map l ∪ m) t'.
Proof.
  induction l as [|[i [rid d]] l IH]; intros m t r rest Hwf Hid Hen Hnd Hdom Hdis Hall Hr.
  - exists t, r. unfold entries_map. cbn. by rewrite (left_id_L ∅ (∪)).
  - cbn in Hr, Hnd, Hdis. apply NoDup_cons in Hnd as [Hni Hnd].
    apply Forall_cons in Hall as [[Hi Hlog] Hall].
    rewrite (assoc_L (++)), (assoc_L (++)), <- !(assoc_L (++)) in Hr.
    destruct (next_value r (vt_id t0) i (d ++ concat (flush_value_entry (vt_id t0) <$> l) ++ rest))
      as (r1 & Hn & Ha & Hr1); [done|unfold is_u64; lia|by rewrite <- !(assoc_L (++))|].
    change (reader_at (LogReader.push_cleared_value (vt_id t0, i) r1) []
      (d ++ concat (flush_value_entry (vt_id t0) <$> l) ++ rest)) in Hr1.
    rewrite <- reader_at_split, app_nil_l in Hr1.
    destruct (enacted_step t0 m t _ i d _ Hwf Hen Hdom Hi Hlog Hr1) as (t1 & r2 & Hrun & Ha2 & Hen1).
    pose proof (advanced_at _ _ _ _ Hr1 Ha2) as Hr2.
    destruct (IH (<[i := d]> m) t1 r2 rest) as (t' & r' & Hrun' & Hr' & Hen'); try done.
    + intros k. rewrite lookup_insert_is_Some. intros [<-|[_ ?]]; auto.
    + intros k Hk. rewrite lookup_insert_ne by set_solver. apply Hdis. set_solver.
    + exists t', r'. split_and!; [|done|].
      * cbn [length replay_entries]. erewrite ST_bind_Ok; [exact Hrun'|].
        unfold replay_entry. by erewrite ST_bind_Ok by (by rewrite Hn).
      * replace (entries_map ((i, (rid, d)) :: l) ∪ m) with (entries_map l ∪ <[i := d]> m); [done|].
        unfold entries_map. cbn. rewrite <- insert_union_l, insert_union_r; [done|].
        apply not_elem_of_list_to_map_1. rewrite <- list_fmap_compose.
        replace ((fst ∘ λ '(i0, (_, d0)), (i0, d0)) <$> l) with l.*1; [done|].
        apply list_fmap_ext. by intros ? [? [? ?]].
Qed.

(** ** Recovery *)

(** A log record for one table, from its first operation to [complete_plan]. *)
Definition record_ops (ops : list TableOp) : ST TW (list TableRes) :=
  rs ← run_ops ops; _ ← complete_plan; mret rs.

Definition logged_header t w : LogWriter :=
  if dirty_header t
  then LogWriter.insert_value (vt_id t) 0 (Header.make (last_removed t) (filled t)) w else w.

Lemma complete_plan_spec t w :
  complete_plan (t, w) = (Ok tt, (set_dirty_header false t, logged_header t w)).
Proof.
  unfold complete_plan, logged_header. erewrite ST_bind_Ok by done. cbv beta iota.
  destruct (dirty_header t) eqn:E; [done|]. destruct t. cbn in E. by subst.
Qed.

Lemma own_value_logged_header t w i : 1 ≤ i →
  own_value (logged_header t w) (vt_id t) i = own_value w (vt_id t) i.
Proof.
  intros Hi. unfold logged_header. destruct (dirty_header t); [|done].
  rewrite own_value_insert_value, decide_False; [done|]. lia.
Qed.

(** The logged header does not disturb the slots. *)
Lemma repr_logged_header t w free vals : repr t w free vals →
  repr (set_dirty_header false t) (logged_header t w) free vals.
Proof.
  intros Hr. pose proof (repr_range _ _ _ _ Hr) as Hrg. rewrite Forall_forall in Hrg.
  assert (Hsl : ∀ j s, j ∈ free ++ used_slots vals → slot_is t w j s →
    slot_is (set_dirty_header false t) (logged_header t w) j s).
  { intros j s Hj. specialize (Hrg j Hj). cbn in Hrg. apply slot_is_frame; [done|].
    unfold logged_header. destruct (dirty_header t); [|done].
    rewrite value_view_insert_value, decide_False; [done|lia]. }
  destruct Hr as [Hwf Hfill Hslots Hf Hv]. split; [by destruct Hwf|done|done| |].
  - eapply (free_at_mono t _ w); [done| |exact Hf]. intros i s Hi. apply Hsl. set_solver.
  - clear Hslots Hrg. induction Hv as [|[idxs s] vals [Hs Hc] _ IH]; constructor.
    + split; [by destruct Hs|]. eapply (chain_at_mono t _ w); [done| |exact Hc].
      intros i s' Hi. apply Hsl. cbn. set_solver.
    + apply IH. intros j s' Hj. apply Hsl. cbn. set_solver.
Qed.

Lemma enacted_shape t t' m f : same_shape t t' → enacted t m (set_vt_file f t) →
  enacted t' m (set_vt_file f t').
Proof.
  intros [E1 E2 E3 E4 E5 E6] [_ Hok Hnew Hold Hhd].
  assert (Ew : ∀ g j, window t' g j = window t g j)
    by (intros; unfold window, esz; by rewrite E2).
  split; [eauto| |..].
  - unfold file_ok in *. cbn in *. rewrite E2. exact Hok.
  - intros j d Hj. rewrite Ew. by apply Hnew.
  - intros j b Hj Hm. rewrite !Ew, E3. by apply Hold.
  - intros Hm. unfold header_of, contents in *. rewrite E3. by apply Hhd.
Qed.

(** Entry 0 begins with the metadata. *)
Lemma header_window t d tail : table_wf t → window t (vt_file t) 0 = Ok (d ++ tail) → length d = 16%nat →
  header_of t = d.
Proof.
  intros Hwf Hw Hd. unfold window, TableFile.read_at in Hw. unfold header_of, contents.
  destruct (file (vt_file t)) as [c|]; [|done]. cbn in *. unfold read_exact_at in Hw.
  change (Z.to_nat (wrap64 (0 * entry_size t))) with 0%nat in Hw. rewrite drop_0 in Hw.
  destruct (Nat.leb_spec (0 + esz t) (length c)) as [Hl|]; [|done]. injection Hw as Hw.
  pose proof (wf_size t Hwf). unfold esz, MIN_ENTRY_SIZE in *.
  rewrite take_app_le by lia.
  apply (f_equal (take 16)) in Hw. rewrite take_take, Nat.min_l in Hw by lia.
  by rewrite take_app_length' in Hw.
Qed.

(** Entry 0 after the replay. *)
Lemma enacted_header t m f d : table_wf t → enacted t m (set_vt_file f t) → m !! 0 = Some d →
  length d = 16%nat → header_of (set_vt_file f t) = d.
Proof.
  intros Hwf [_ Hok Hnew _ _] Hm Hd. destruct (Hnew 0 d Hm) as [tail Hw].
  apply (header_window (set_vt_file f t) d tail); [by destruct Hwf|exact Hw|done].
Qed.

(** The entries that a record logs for table [id]. *)
Definition own_entries (w : LogWriter) (id : ValueTableId) : ValueLogOverlay :=
  default ∅ (local_values (writer_log w) !! id).

Lemma own_entries_value w id i : own_value w id i = snd <$> own_entries w id !! i.
Proof.
  unfold own_value, own_entries, overlay_lookup.
  destruct (local_values (writer_log w) !! id); cbn; [done|by rewrite lookup_empty].
Qed.

Lemma entries_map_perm (l : list (Z * (Z * bytes))) (o : ValueLogOverlay) : l ≡ₚ map_to_list o →
  NoDup l.*1 ∧ ∀ i, entries_map l !! i = snd <$> o !! i.
Proof.
  intros Hp. assert (Hnd : NoDup l.*1) by (rewrite Hp; apply NoDup_fst_map_to_list).
  split; [done|]. intros i. unfold entries_map.
  assert (E : (λ '(i0, (_, d)), (i0, d)) <$> l = prod_map id snd <$> l)
    by (apply list_fmap_ext; by intros ? [? [? ?]]).
  rewrite E, (list_to_map_fmap snd). rewrite lookup_fmap. f_equal.
  rewrite (list_to_map_proper l (map_to_list o)) by done. by rewrite list_to_map_to_list.
Qed.

(** What the record logged for the table is well formed. *)
Lemma record_logged t t1 w w1 n i d : same_shape t t1 → (∀ i, own_value w (vt_id t) i = None) →
  log_frame t (seqZ 1 n) w w1 → n ≤ 2 ^ 48 →
  own_value (logged_header t1 w1) (vt_id t) i = Some d → 0 ≤ i ≤ 2 ^ 48 ∧ logged t i d.
Proof.
  intros Hsh Hnone Hfr Hn Hd. destruct (Z.eq_dec i 0) as [->|Hi].
  - split; [lia|]. left. split; [done|]. unfold logged_header in Hd.
    rewrite (sh_id _ _ Hsh) in Hd. destruct (dirty_header t1).
    + rewrite own_value_insert_value, decide_True in Hd by done. injection Hd as <-.
      unfold Header.make, INDEX_SIZE. len.
    + destruct (fr_own _ _ _ _ Hfr 0 d Hd) as [Hx|[Hx%elem_of_seqZ _]]; [congruence|lia].
  - assert (Hd' : own_value w1 (vt_id t) i = Some d).
    { unfold logged_header in Hd. destruct (dirty_header t1); [|done].
      rewrite own_value_insert_value, decide_False in Hd by naive_solver. done. }
    destruct (fr_own _ _ _ _ Hfr i d Hd') as [Hx|[Hx%elem_of_seqZ Hs]]; [congruence|].
    split; [lia|]. right. split; [lia|]. done.
Qed.

(** The metadata after a replay are those of the writer of the record. *)
Lemma recovered_meta t t1 w1 m f : table_wf t → same_shape t t1 →
  enacted t m (set_vt_file f t) → (∀ i, m !! i = own_value (logged_header t1 w1) (vt_id t) i) →
  disk_meta t → dirty_header t = false → meta_rel (t, w1) (t1, w1) →
  own_value w1 (vt_id t) 0 = None → is_u64 (last_removed t1) → 1 ≤ filled t1 < 2 ^ 64 →
  ∃ t3, refresh_metadata (set_vt_file f t) = (Ok tt, t3) ∧ disk_meta t3 ∧
    t3 = set_vt_file f (set_dirty_header false t1).
Proof.
  intros Hwf Hsh Hen Hm Hdm Hdirty Hrel H0 Hlr Hfl.
  assert (Hhd : header_of (set_vt_file f t) =
    if dirty_header t1 then Header.make (last_removed t1) (filled t1) else header_of t).
  { destruct (header_make (last_removed t1) (filled t1)) as (Hlen & _); [done|unfold is_u64; lia|].
    specialize (Hm 0). unfold logged_header in Hm. rewrite (sh_id _ _ Hsh) in Hm.
    destruct (dirty_header t1).
    - rewrite own_value_insert_value, decide_True in Hm by done.
      by apply (enacted_header t m f _ Hwf Hen Hm).
    - apply (en_header _ _ _ Hen). congruence. }
  assert (Hnone : file (vt_file (set_vt_file f t)) = None → dirty_header t1 = false).
  { cbn. intros Hf. destruct (dirty_header t1) eqn:Ed; [|done]. specialize (Hm 0).
    unfold logged_header in Hm. rewrite Ed, (sh_id _ _ Hsh) in Hm.
    rewrite own_value_insert_value, decide_True in Hm by done.
    destruct (en_new _ _ _ Hen 0 _ Hm) as [tail Hw]. cbn in Hw.
    unfold window, TableFile.read_at in Hw. by rewrite Hf in Hw. }
  destruct (refresh_metadata_spec (set_vt_file f t)) as (t3 & Hrun & Hdm3 & Ht3).
  { by destruct Hwf. }
  { apply (en_ok _ _ _ Hen). }
  { intros Hf. specialize (Hnone Hf). rewrite Hnone in Hhd. destruct Hdm as [D1 D2].
    split; rewrite Hhd; cbn; done. }
  exists t3. split_and!; [done|done|].
  assert (Hmeta : last_removed t3 = last_removed t1 ∧ filled t3 = filled t1).
  { destruct Hdm3 as [D1 D2]. rewrite D1, D2, Ht3.
    change (header_of (set_filled _ _)) with (header_of (set_vt_file f t)). rewrite Hhd.
    destruct (dirty_header t1) eqn:Ed.
    - destruct (header_make (last_removed t1) (filled t1)) as (_ & -> & ->);
        [done|unfold is_u64; lia|]. destruct (Z.eqb_spec (filled t1) 0); [lia|done].
    - destruct Hrel as [?|(_ & Hf & Hl)]; [cbn in *; congruence|]. cbn in Hf, Hl.
      destruct Hdm as [E1 E2]. by rewrite <- E1, <- E2. }
  destruct Hmeta as [M1 M2]. rewrite Ht3, M1, M2. destruct Hsh as [S1 S2 S3 S4 S5 S6].
  destruct t, t1. cbn in *. by subst.
Qed.

End Enact.
