(* ===== verification/Instances.v ===== *)
(** * Concrete parameters

    Functions that satisfy the hypotheses of the parameter classes, used where
    a theorem is applied to a concrete database: buffers that start with zeros,
    hash maps listed in the order of [map_to_list], and the CRC-32 of IEEE 802.3
    that the crc32fast crate documents. *)

From S2P Require Import Prelude.
From S2P Require Import Bytes.
From S2P Require Import Log.
From S2P Require Import Table.
From stdpp Require Import options.

Definition zero_uninit : Uninit := {|
  uninit n := replicate n x00;
  length_uninit n := length_replicate n x00;
|}.

Definition list_order : HashMapOrder := {|
  iter K A _ _ m := map_to_list m;
  iter_perm K A _ _ m := reflexivity (map_to_list m);
|}.

(** One bit, one byte and all bytes of the reflected CRC. *)
Definition crc_bit (c : Z) : Z :=
  if Z.odd c then Z.lxor (Z.shiftr c 1) 0xEDB88320 else Z.shiftr c 1.
Definition crc_byte (c : Z) (b : byte) : Z :=
  Nat.iter 8 crc_bit (Z.lxor c (byte_val b)).
Definition crc_ieee (bs : bytes) : Z := wrap32 (Z.lxor (foldl crc_byte U32_MAX bs) U32_MAX).

Lemma crc_ieee_range bs : is_u32 (crc_ieee bs).
Proof. unfold crc_ieee, is_u32, wrap32. apply Z.mod_pos_bound. lia. Qed.

Definition ieee_crc32 : Crc32 := {| crc32 := crc_ieee; crc32_range := crc_ieee_range |}.

(** The check value of the CRC: "123456789" gives cbf43926. *)
Example crc_ieee_check :
  crc_ieee [x31; x32; x33; x34; x35; x36; x37; x38; x39] = 0xCBF43926.
Proof. vm_compute. reflexivity. Qed.
