(* ===== verification/TableThms.v ===== *)
(** * Theorems about value tables

    The statements a client of src/src/table.rs relies on: every sequence of
    writes implements the abstract store, reads return what is stored, and a
    record that reached the log survives the loss of everything that was only
    in memory. *)

From S2P Require Import Prelude.
From S2P Require Import Bytes.
From S2P Require Import Ids.
From S2P Require Import File.
From S2P Require Import Log.
From S2P Require Import LogProofs.
From S2P Require Import Table.
From S2P Require Import TableSpec.
From S2P Require Import TableOps.
From S2P Require Import TableRefine.
From S2P Require Import TableStore.
From S2P Require Import TableEnact.
From S2P Require Import Instances.
From stdpp Require Import options.
#[local] Set Default Proof Using "Type*".

(** ** A new table *)

Section New.
Context `{!Uninit}.

Definition new_table (tid : ValueTableId) (es : option Z) (rc : bool) (v : Z) : ValueTable :=
  MkValueTable tid (default 4096 es) (MkTableFile None 0 false tid) 1 0 false
    (match es with None => true | Some _ => false end) rc v.

Lemma open_new tid es rc v : (∀ s, es = Some s → MIN_ENTRY_SIZE ≤ s ≤ MAX_ENTRY_SIZE) →
  open None tid es rc v = Ok (new_table tid es rc v).
Proof.
  intros Hes. unfold open, rust_assert, new_table. destruct es as [s|].
  - specialize (Hes s eq_refl). cbn [default id].
    destruct (Z.leb_spec MIN_ENTRY_SIZE s) as [_|]; [|lia].
    assert (E : (if 4 <=? v then s <=? MAX_ENTRY_SIZE else true) = true)
      by (destruct (4 <=? v); [apply Z.leb_le; lia|done]). by rewrite outcome_bind_Ok, E.
  - assert (E : (if 4 <=? v then 4096 <=? MAX_ENTRY_SIZE else true) = true)
      by (by destruct (4 <=? v)).
    cbv beta iota. rewrite E. done.
Qed.

Lemma new_table_repr tid es rc v rid : (∀ s, es = Some s → MIN_ENTRY_SIZE ≤ s ≤ MAX_ENTRY_SIZE) →
  store_repr (new_table tid es rc v) (LogWriter.new empty_overlays rid) ∅ ∧
  file_ok (new_table tid es rc v) ∧ disk_meta (new_table tid es rc v).
Proof.
  intros Hes. assert (Hsz : MIN_ENTRY_SIZE ≤ default 4096 es ≤ MAX_ENTRY_SIZE)
    by (destruct es as [s|]; [by apply Hes|done]).
  split_and!.
  - exists [], []. split; [|done]. split; try done. split; [done|]. by destruct es.
  - unfold file_ok, MIN_ENTRY_SIZE in *. cbn -[Z.mul] in *.
    split_and!; try lia. by intros [].
  - by split.
Qed.

End New.

(** ** Claims *)

(** C8. Crash recovery of a value table: run any admissible sequence of
    insertions, replacements, removals and counter changes as one log record,
    ending with [complete_plan]; the results are those of the abstract store.
    If then only the log entries and the old file survive, replaying the
    entries, in whatever order the hash map listed them, and re-reading entry 0
    gives a table that holds exactly the new content of the store, in a state
    from which the next record can start. *)
Theorem table_record_recovers `{!Uninit, !HashMapOrder, !Crc32} (t : ValueTable) (rid : Z)
    (m : Store) (ops : list TableOp) :
  store_repr t (LogWriter.new empty_overlays rid) m → file_ok t → disk_meta t →
  dirty_header t = false → is_u16 (ValueTableId.as_u16 (vt_id t)) →
  ops_pre t m ops → filled t + ops_cost t ops ≤ 2 ^ 48 →
  ∃ rs m' t1 w1,
    record_ops ops (t, LogWriter.new empty_overlays rid) = (Ok rs, (t1, w1)) ∧
    store_run m ops rs m' ∧ store_repr t1 w1 m' ∧
    ∀ r rest,
      reader_at r [] (concat (flush_value_entry (vt_id t) <$>
                        iter (own_entries w1 (vt_id t))) ++ rest) →
      ∃ t2 r' t3,
        replay_entries (length (iter (own_entries w1 (vt_id t)))) (t, r) = (Ok tt, (t2, r')) ∧
        reader_at r' [] rest ∧ refresh_metadata t2 = (Ok tt, t3) ∧
        store_repr t3 empty_overlays m' ∧ file_ok t3 ∧ disk_meta t3 ∧ dirty_header t3 = false.
Proof.
  intros Hr Hok Hdm Hd Hid Hpre Hmax. set (w0 := LogWriter.new empty_overlays rid) in *.
  destruct (run_ops_ok ops t w0 m Hr Hpre Hmax)
    as (rs & t1 & w1 & m' & Hrun & Hst & Hr1 & Hsh & Hfl & Hfr).
  pose proof (keeps_run_ops ops (t, w0)) as Hrel. rewrite Hrun in Hrel. cbn in Hrel.
  destruct Hr1 as (free & vals & Hr1 & ->). pose proof (r_wf _ _ _ _ Hr1) as Hwf1.
  pose proof (r_filled _ _ _ _ Hr1) as Hf1.
  assert (Hwf : table_wf t) by (by eapply same_shape_wf; [symmetry|]).
  assert (Hn0 : ∀ i, own_value w0 (vt_id t) i = None) by done.
  set (w2 := logged_header t1 w1). set (t1' := set_dirty_header false t1).
  exists rs, (store_of vals), t1', w2. split_and!; [|done|by eexists _, _; split; [apply repr_logged_header|]|].
  { unfold record_ops. erewrite ST_bind_Ok by exact Hrun.
    by erewrite ST_bind_Ok by apply complete_plan_spec. }
  intros r rest Hat. set (o := own_entries w2 (vt_id t)) in *.
  destruct (entries_map_perm (iter o) o (iter_perm o)) as [Hnd Hmap].
  assert (Hm : ∀ i, entries_map (iter o) !! i = own_value w2 (vt_id t) i)
    by (intros i; by rewrite Hmap, own_entries_value).
  destruct (replay_entries_spec t (iter o) ∅ t r rest) as (t2 & r' & Hrep & Hr' & Hen);
    try done; [by apply enacted_nil|by intros ? [? ?]| |].
  { apply Forall_forall. intros [i [k d]] Hin.
    eapply (record_logged t t1 w0 w1 (filled t1 - 1)); [done|done|done|lia|].
    rewrite own_entries_value. fold w2 o. rewrite (iter_perm o) in Hin.
    by apply elem_of_map_to_list in Hin as ->. }
  rewrite (right_id_L ∅ (∪)) in Hen. pose proof (en_table _ _ _ Hen) as [f ->].
  destruct (recovered_meta t t1 w1 _ f Hwf Hsh Hen Hm Hdm Hd Hrel) as (t3 & Href & Hdm3 & ->).
  { destruct (own_value w1 (vt_id t) 0) as [d|] eqn:E; [|done].
    destruct (fr_own _ _ _ _ Hfr 0 d E) as [Hx|[Hx%elem_of_seqZ _]]; [by rewrite Hn0 in Hx|lia]. }
  { eapply free_head_u64; [apply (r_free _ _ _ _ Hr1)|].
    pose proof (repr_range _ _ _ _ Hr1) as [Hrg _]%Forall_app.
    eapply Forall_impl; [exact Hrg|]. unfold is_u64. cbn. lia. }
  { lia. }
  assert (Hsh' : same_shape t t1') by (by etrans; [exact Hsh|]).
  assert (Hen' : enacted t1' (entries_map (iter o)) (set_vt_file f t1')).
  { by eapply enacted_shape. }
  exists (set_vt_file f t), r', (set_vt_file f t1'). split_and!; try done.
  - eexists free, vals. split; [|done].
    eapply (enacted_repr t1' w2); [exact Hen'| | |done|by apply repr_logged_header].
    + intros i. rewrite (sh_id _ _ Hsh'). apply Hm.
    + intros i. assert (Hov : writer_overlays w2 = empty_overlays)
        by (unfold w2, logged_header; destruct (dirty_header t1); apply (fr_overlays _ _ _ _ Hfr)).
      by rewrite Hov.
  - apply (en_ok _ _ _ Hen').
Qed.

(** C23. Insert and read back: an insertion takes an address that no stored
    value has, the value is read back from it under its key, under another key
    nothing is found, and every other stored value reads as before. *)
Theorem table_insert_get `{!Uninit} (t : ValueTable) (w : LogWriter) (m : Store) (key : TableKey)
    (val : bytes) (c : bool) :
  store_repr t w m → key_wf key → fits t key val →
  filled t + Z.of_nat (payload_len t key val) < 2 ^ 48 →
  ∃ i t' w', write_insert_plan key val c (t, w) = (Ok i, (t', w')) ∧ m !! i = None ∧
    get t' key i w' = Ok (Some (val, c)) ∧
    (∀ k, TableKey.encoded_size k = TableKey.encoded_size key → key_bytes k ≠ key_bytes key →
      get t' k i w' = Ok None) ∧
    (∀ j s q, m !! j = Some s → query_fits q (s_key s) → query t' q j w' = query t q j w).
Proof.
  intros Hr Hk Hfit Hmax.
  destruct (run_op_ok t w m (OpInsert key val c) Hr) as
    (r & t' & w' & m' & Hrun & Hst & Hr' & _ & _); [done|cbn; lia|].
  inversion Hst as [? ? ? ? i Hfree Hi| | | | | |]; subst.
  cbn in Hrun. apply ST_bind_inv in Hrun as (i' & s' & Hw & Hret). injection Hret as <- ->.
  exists i', t', w'. assert (Hl : <[i' := stored_new key val c]> m !! i' = Some (stored_new key val c))
    by apply lookup_insert_eq.
  split_and!; [done|done|..].
  - rewrite (get_store t' w' _ i' _ key Hr' Hl Hk). by rewrite decide_True.
  - intros k Hsz Hne. rewrite (get_store t' w' _ i' _ k Hr' Hl).
    + by rewrite decide_False.
    + cbn. by rewrite Hsz.
  - intros j s q Hj Hq. rewrite (query_store t w m j s q Hr Hj Hq).
    apply (query_store t' w' _ j s q Hr'); [|done]. rewrite lookup_insert_ne; [done|]. congruence.
Qed.

(** Replace and read back: the address keeps its place, reads give the new
    value under the new key, the counter is one, and every other stored value
    reads as before, also when the chain of the value shrinks or grows. *)
Theorem table_replace_get `{!Uninit} (t : ValueTable) (w : LogWriter) (m : Store) (i : Z)
    (key : TableKey) (val : bytes) (c : bool) :
  store_repr t w m → is_Some (m !! i) → key_wf key → fits t key val →
  filled t + Z.of_nat (payload_len t key val) < 2 ^ 48 →
  ∃ t' w', write_replace_plan i key val c (t, w) = (Ok tt, (t', w')) ∧
    query t' (Check_ key) i w' = Ok (Some (val, c, 1), Check_ key) ∧
    (∀ j s q, m !! j = Some s → j ≠ i → query_fits q (s_key s) →
      query t' q j w' = query t q j w).
Proof.
  intros Hr Hi Hk Hfit Hmax.
  destruct (run_op_ok t w m (OpReplace i key val c) Hr) as
    (r & t' & w' & m' & Hrun & Hst & Hr' & _ & _); [done|cbn; lia|].
  inversion Hst; subst. cbn in Hrun. apply ST_bind_inv in Hrun as ([] & s' & Hw & Hret).
  injection Hret as ->. exists t', w'. split_and!; [done|..].
  - rewrite (query_store t' w' _ i (stored_new key val c) (Check_ key) Hr');
      [|apply lookup_insert_eq|unfold query_fits; cbn [s_key stored_new]; rewrite Hk; by destruct key].
    destruct key as [k|]; cbn; [|done]. by rewrite decide_True.
  - intros j s q Hj Hne Hq. rewrite (query_store t w m j s q Hr Hj Hq).
    apply (query_store t' w' _ j s q Hr'); [|done]. by rewrite lookup_insert_ne.
Qed.

(** Remove: the address reads as empty under every key, the other values
    are untouched, the file does not grow, and the next insertion reuses the
    slots of the removed value. *)
Theorem table_remove_get `{!Uninit} (t : ValueTable) (w : LogWriter) (m : Store) (i : Z) (s : Stored) :
  store_repr t w m → m !! i = Some s →
  ∃ t' w', write_remove_plan i (t, w) = (Ok tt, (t', w')) ∧ store_repr t' w' (delete i m) ∧
    (∀ q, query t' q i w' = Ok (None, q)) ∧ filled t' = filled t ∧
    (∀ j s' q, m !! j = Some s' → j ≠ i → query_fits q (s_key s') →
      query t' q j w' = query t q j w) ∧
    ∃ k t2, next_free (t', w') = (Ok k, (t2, w')) ∧ filled t2 = filled t ∧
      delete i m !! k = None.
Proof.
  intros (free & vals & Hr & ->) Hi.
  destruct (repr_store_lookup _ _ _ _ _ _ Hr Hi) as (idxs & v0 & Hp & Hd).
  pose proof Hr as Hr0. rewrite Hp in Hr0.
  destruct (write_remove_ok _ _ _ _ _ _ _ Hr0) as (t' & w' & Hrun & Hsh & Hr' & Hfl & Hfr).
  assert (Hst' : store_repr t' w' (delete i (store_of vals))) by (eexists _, v0; by split).
  exists t', w'. split_and!; [done|done| |done| |].
  - intros q. destruct (repr_free_slot _ _ _ _ i Hr') as [n Hn]; [|].
    + rewrite reverse_Permutation. set_solver.
    + eapply query_tomb; [apply Hr'|done].
  - intros j s' q Hj Hne Hq.
    rewrite (query_store t w (store_of vals) j s' q) by (done || by exists free, vals).
    apply (query_store t' w' _ j s' q Hst'); [|done]. by rewrite lookup_delete_ne.
  - pose proof (r_filled _ _ _ _ Hr') as Hf.
    destruct (next_free_spec t' w' _ (r_wf _ _ _ _ Hr') (r_free _ _ _ _ Hr') ltac:(lia) ltac:(lia))
      as (k & t2 & free2 & Hnf & _ & _ & _ & _ & Hsame & Heq).
    assert (Hfl2 : filled t2 = filled t').
    { apply Hsame. rewrite reverse_cons. by destruct (reverse idxs). }
    rewrite Hfl2, Z.sub_diag in Heq. cbn [seqZ] in Heq. rewrite app_nil_r in Heq.
    exists k, t2. split_and!; [done|congruence|]. rewrite <- Hd.
    apply not_elem_of_list_to_map_1. rewrite fst_heads. intros Hk.
    pose proof (repr_nodup _ _ _ _ Hr') as (_ & Hdis & _)%NoDup_app.
    apply (Hdis k); [rewrite <- Heq; set_solver|].
    eapply elem_of_submseteq; [exact Hk|]. by eapply heads_submseteq, repr_nonempty.
Qed.

(** *** Counters *)

(** Counter changes are deterministic in the contract. *)
Lemma store_run_inc m i s n : ∀ rs m', m !! i = Some s → s_rc s + Z.of_nat n < LOCKED_REF →
  0 < s_rc s → store_run m (replicate n (OpIncRef i)) rs m' →
  m' = <[i := with_rc (s_rc s + Z.of_nat n) s]> m ∧ rs = replicate n ResUnit.
Proof.
  revert m s. induction n as [|n IH]; intros m s rs m' Hi Hlt Hpos Hrun;
    inversion Hrun as [|? ? r m1 ? rs1 ? Hst Hrun1]; subst.
  - rewrite Z.add_0_r. split; [|done]. rewrite insert_id; [done|]. by destruct s.
  - inversion Hst as [| | |? ? s0 Hs0| | |]; subst. rewrite Hi in Hs0. injection Hs0 as <-.
    rewrite Z.min_r in Hrun1 by lia.
    apply (IH _ (with_rc (s_rc s + 1) s)) in Hrun1 as [-> ->];
      [|apply lookup_insert_eq|cbn; lia|cbn; lia]. cbn [replicate s_rc with_rc].
    rewrite insert_insert_eq. split; [|done].
    unfold with_rc. cbn. do 2 f_equal. lia.
Qed.

Lemma store_run_dec m i s n : ∀ rs m', m !! i = Some s → Z.of_nat n < s_rc s < LOCKED_REF →
  store_run m (replicate n (OpDecRef i)) rs m' →
  m' = <[i := with_rc (s_rc s - Z.of_nat n) s]> m ∧ rs = replicate n (ResAlive true).
Proof.
  revert m s. induction n as [|n IH]; intros m s rs m' Hi Hlt Hrun;
    inversion Hrun as [|? ? r m1 ? rs1 ? Hst Hrun1]; subst.
  - rewrite Z.sub_0_r. split; [|done]. rewrite insert_id; [done|]. by destruct s.
  - inversion Hst as [| | | |? ? s0 Hs0|? ? s0 Hs0|? ? s0 Hs0]; subst; rewrite Hi in Hs0;
      injection Hs0 as <-; [lia|lia|].
    apply (IH _ (with_rc (s_rc s - 1) s)) in Hrun1 as [-> ->];
      [|apply lookup_insert_eq|cbn; lia]. cbn [replicate s_rc with_rc].
    rewrite insert_insert_eq. split; [|done].
    unfold with_rc. cbn. do 2 f_equal. lia.
Qed.

Section Counters.
Context `{!Uninit}.
Implicit Types (t : ValueTable) (w : LogWriter).

Lemma ops_pre_inc t m i n : is_Some (m !! i) → ref_counted t = true →
  ops_pre t m (replicate n (OpIncRef i)).
Proof.
  revert m. induction n as [|n IH]; intros m Hi Hrc; cbn; constructor; [done|].
  intros r m1 Hst. apply IH; [|done]. inversion Hst; subst. rewrite lookup_insert_eq. eauto.
Qed.

Lemma ops_pre_dec t m i s n : m !! i = Some s → Z.of_nat n < s_rc s ∨ s_rc s = LOCKED_REF →
  ref_counted t = true → ops_pre t m (replicate n (OpDecRef i)).
Proof.
  revert m s. induction n as [|n IH]; intros m s Hi Hn Hrc; cbn; constructor.
  - split; [eauto|done].
  - intros r m1 Hst. inversion Hst as [| | | |? ? s0 Hs0|? ? s0 Hs0 H1|? ? s0 Hs0]; subst;
      rewrite Hi in Hs0; injection Hs0 as <-.
    + eapply IH; [done|by right|done].
    + unfold LOCKED_REF, U32_MAX in Hn. lia.
    + eapply IH; [apply lookup_insert_eq|left; cbn; lia|done].
Qed.

Lemma ops_cost_replicate t n op : op_cost t op = 0 → ops_cost t (replicate n op) = 0.
Proof. intros Hop. induction n as [|n IH]; [done|]. cbn [replicate]. rewrite ops_cost_cons. lia. Qed.

Lemma store_repr_filled t w m : store_repr t w m → filled t ≤ 2 ^ 48.
Proof. intros (free & vals & Hr & _). apply (r_filled _ _ _ _ Hr). Qed.

(** A run of counter changes: [run_ops_ok] without its cost hypothesis. *)
Lemma run_counters t w m n op : store_repr t w m → op_cost t op = 0 →
  ops_pre t m (replicate n op) →
  ∃ rs t' w' m', run_ops (replicate n op) (t, w) = (Ok rs, (t', w')) ∧
    store_run m (replicate n op) rs m' ∧ store_repr t' w' m' ∧ same_shape t t'.
Proof.
  intros Hr Hop Hpre. pose proof (store_repr_filled _ _ _ Hr).
  destruct (run_ops_ok (replicate n op) t w m Hr Hpre) as (rs & t' & w' & m' & H1 & H2 & H3 & H4 & _).
  { rewrite ops_cost_replicate by done. lia. }
  eauto 10.
Qed.

End Counters.




(** ** The theorems at concrete tables *)

#[local] Existing Instances zero_uninit list_order ieee_crc32.

(** A new reference counted table of the smallest tier, and the same table with
    one value in the log. *)
Definition small_table : ValueTable := new_table (ValueTableId.new 0 0) (Some 64) true 8.
Definition small_log : LogWriter := LogWriter.new empty_overlays 1.

Definition one_table : ValueTable := set_filled 2 small_table.
Definition one_stored (rc : Z) : Stored := MkStored rc (replicate 26 x07) [x01; x02] false.
Definition one_log (rc : Z) : LogWriter :=
  LogWriter.insert_value (vt_id one_table) 1
    (encode_slot (Sized false (payload one_table (one_stored rc)))) small_log.

Lemma small_entry_size : ∀ s, Some 64 = Some s → MIN_ENTRY_SIZE ≤ s ≤ MAX_ENTRY_SIZE.
Proof. unfold MIN_ENTRY_SIZE, MAX_ENTRY_SIZE. intros s [= <-]. lia. Qed.

Lemma small_repr : store_repr small_table small_log ∅.
Proof. apply new_table_repr, small_entry_size. Qed.

Lemma one_repr rc : 0 < rc < 2 ^ 32 → store_repr one_table (one_log rc) {[1 := one_stored rc]}.
Proof.
  intros Hrc. exists [], [([1], one_stored rc)]. split; [|done].
  split; [by split|done|done|done|]. constructor; [|done]. split.
  - split; cbn; [lia|done|by right].
  - apply slot_is_insert. cbn [slot_wf]. unfold payload.
    rewrite !length_app, rc_bytes_length. change (esz one_table) with 64%nat. cbn. lia.
Qed.

Lemma table_record_recovers_witness :
  ∃ rs m' t1 w1,
    record_ops [OpInsert (Partial (replicate 32 x07)) [x01; x02] false]
      (small_table, small_log) = (Ok rs, (t1, w1)) ∧
    store_run ∅ [OpInsert (Partial (replicate 32 x07)) [x01; x02] false] rs m'.
Proof.
  destruct (table_record_recovers small_table 1 ∅
    [OpInsert (Partial (replicate 32 x07)) [x01; x02] false]) as (rs & m' & t1 & w1 & H1 & H2 & _).
  - apply small_repr.
  - apply (new_table_repr _ (Some 64) true 8 1), small_entry_size.
  - apply (new_table_repr _ (Some 64) true 8 1), small_entry_size.
  - reflexivity.
  - vm_compute. split; congruence.
  - constructor; [|intros; constructor]. split; [reflexivity|]. right. apply Nat.leb_le. reflexivity.
  - apply Z.leb_le. reflexivity.
  - exists rs, m', t1, w1. split; [exact H1|exact H2].
Defined.

Lemma table_insert_get_witness :
  ∃ i t' w', write_insert_plan NoHash [x01] true (small_table, small_log) = (Ok i, (t', w')) ∧
    get t' NoHash i w' = Ok (Some ([x01], true)).
Proof.
  destruct (table_insert_get small_table small_log ∅ NoHash [x01] true)
    as (i & t' & w' & H1 & _ & H2 & _).
  - apply small_repr.
  - reflexivity.
  - right. apply Nat.leb_le. reflexivity.
  - apply Z.ltb_lt. reflexivity.
  - exists i, t', w'. split; [exact H1|exact H2].
Defined.

Lemma table_replace_get_witness :
  ∃ t' w', write_replace_plan 1 NoHash [x05] true (one_table, one_log 1) = (Ok tt, (t', w')) ∧
    query t' (Check_ NoHash) 1 w' = Ok (Some ([x05], true, 1), Check_ NoHash).
Proof.
  destruct (table_replace_get one_table (one_log 1) {[1 := one_stored 1]} 1 NoHash [x05] true)
    as (t' & w' & H1 & H2 & _).
  - apply one_repr. lia.
  - rewrite lookup_singleton_eq. eexists. reflexivity.
  - reflexivity.
  - right. apply Nat.leb_le. reflexivity.
  - apply Z.ltb_lt. reflexivity.
  - exists t', w'. split; [exact H1|exact H2].
Defined.

Lemma table_remove_get_witness :
  ∃ t' w', write_remove_plan 1 (one_table, one_log 1) = (Ok tt, (t', w')) ∧
    ∀ q, query t' q 1 w' = Ok (None, q).
Proof.
  destruct (table_remove_get one_table (one_log 1) {[1 := one_stored 1]} 1 (one_stored 1))
    as (t' & w' & H1 & _ & H2 & _).
  - apply one_repr. lia.
  - apply lookup_singleton_eq.
  - exists t', w'. split; [exact H1|exact H2].
Defined.



