(* ===== verification/LogThms.v ===== *)
(** * Theorems about the log

    The life cycle of log files, what a record makes visible and for how long,
    and the round trip of a record through a log file (src/src/log.rs). *)

From S2P Require Import Prelude.
From S2P Require Import Bytes.
From S2P Require Import Ids.
From S2P Require Import File.
From S2P Require Import Log.
From S2P Require Import LogProofs.
From S2P Require Import LogState.
From S2P Require Import LogStateProofs.
From S2P Require Import LogReplay.
From S2P Require Import Table.
From S2P Require Import Instances.
From stdpp Require Import sorting options.
#[local] Open Scope Z_scope.
#[local] Set Default Proof Using "Type*".

(** States of the log: what [Log::open] returns, and what the operations make of
    it. The bound excludes the wrap-around of the 32-bit log ids. *)
Inductive log_reach `{!HashMapOrder, !Crc32} : LogFiles → Prop :=
| reach_open sync_wal files l : NoDup files.*1 →
    Forall (fun id => 0 ≤ id < 2 ^ 32 - 1) files.*1 →
    open_log sync_wal files = Ok l → log_reach l
| reach_step l op : log_reach l → next_log_id l + 1 < 2 ^ 32 → log_reach (log_op op l).

(** C13. The life cycle of log files: whatever the order of records, reads,
    flushes, clean-ups and replays, no two roles (appending, flushing, reading,
    pool, cleanup, replay) share a log file, every file of the directory has a
    role, pooled files are empty, and the writer stands at the end of its file. *)
Theorem log_files_invariant `{!HashMapOrder, !Crc32} (l : LogFiles) : log_reach l → log_ok l.
Proof.
  induction 1 as [sync_wal files l Hnd Hrg Ho|l op _ IH Hn].
  - by apply (open_log_ok sync_wal files l Hnd Hrg).
  - by apply log_op_ok.
Qed.

(** C17. Ending a record: its bytes are appended to the log file, the returned
    number of bytes is their length, and from then on the shared overlays answer
    every query as the writer of the record did. *)
Theorem end_record_publishes `{!HashMapOrder, !Crc32} (l : LogFiles) (w : LogWriter) :
  log_ok l → next_log_id l + 1 < 2 ^ 32 → writer_overlays w = lg_overlays l →
  wrap64 (LogWriter.record_id w + 1) = next_record_id l →
  ∃ n l' h f size,
    end_record (LogWriter.drain w) l = (Ok n, l') ∧ log_ok l' ∧
    n = wrap64 (Z.of_nat (length (flush_to_file (writer_log w)).1)) ∧
    appending l' = Some (h, size) ∧
    disk l' !! h_id h = Some (f ++ (flush_to_file (writer_log w)).1) ∧
    f = match appending l with Some (h0, _) => default [] (disk l !! h_id h0) | None => [] end ∧
    (∀ t i dest, value (lg_overlays l') t i dest = value w t i dest) ∧
    (∀ t i, with_index (lg_overlays l') t i id = with_index w t i id).
Proof.
  intros Hok Hn Hov Hrid.
  destruct (end_record_spec l w Hok Hn Hov Hrid) as
    (l' & h & f & Hrun & Hok' & (size & Ha & _) & _ & _ & _ & Hd & Hold & Hnew & _ & Hv & Hi & _).
  eexists _, l', h, f, size. split_and!; [exact Hrun|done| |done|done| | |].
  - cbn. f_equal. rewrite length_app, length_le_encode. lia.
  - destruct (appending l) as [[h0 s0]|]; [|by apply Hnew].
    destruct (Hold h0 s0 eq_refl) as [_ ->]. done.
  - intros t i dest. by rewrite !value_value_view, Hv.
  - intros t i. by rewrite !with_index_view, Hi.
Qed.

(** Finishing the reading of a record: exactly the entries that the reader
    noted and that still belong to that record leave the overlays; entries that
    a later record replaced stay visible. *)
Theorem end_read_clears_exactly (l : LogFiles) (c : Cleared) (rid : Z) :
  ∃ l', end_read c rid l = (Ok tt, l') ∧
    (∀ t i, overlay_lookup (ov_value (lg_overlays l')) t i =
      match overlay_lookup (ov_value (lg_overlays l)) t i with
      | Some (r, d) =>
          if bool_decide ((t, i) ∈ cleared_values c) && (r =? rid) then None else Some (r, d)
      | None => None
      end) ∧
    (∀ t i, overlay_lookup (ov_index (lg_overlays l')) t i =
      match overlay_lookup (ov_index (lg_overlays l)) t i with
      | Some (r, mask, chunk) =>
          if bool_decide ((t, i) ∈ cleared_index c) && (r =? rid) then None
          else Some (r, mask, chunk)
      | None => None
      end) ∧
    next_record_id l' = (if next_record_id l <=? rid then wrap64 (rid + 1) else next_record_id l).
Proof. apply end_read_spec. Qed.

(** Every entry of a record has 16-bit table ids and 64-bit indexes and masks. *)
Definition change_wf `{!HashMapOrder} (c : LogChange) : Prop :=
  is_u64 (change_record_id c) ∧ Forall entry_wf (record_entries c).


Lemma bits_from_sorted n k z : StronglySorted lt (bits_from n k z).
Proof.
  unfold bits_from. induction k as [|k IH] in n |- *; cbn [seq]; [constructor|].
  rewrite filter_cons. case_decide; [|apply IH]. constructor; [apply IH|].
  apply Forall_forall. intros i Hi. apply list_elem_of_filter in Hi as [_ Hi%elem_of_seq]. lia.
Qed.

(** The mask of modified index entries: the loop
    [while mask != 0 { i = mask.trailing_zeros(); mask &= !(1 << i); ... }]
    visits the set bits of the mask, each once, in increasing order. *)
Theorem mask_entries_spec (mask : Z) : is_u64 mask →
  StronglySorted lt (mask_entries mask) ∧
  ∀ i, i ∈ mask_entries mask ↔ (i < 64)%nat ∧ Z.testbit mask (Z.of_nat i) = true.
Proof.
  intros Hm. rewrite (mask_entries_bits mask Hm). split; [apply bits_from_sorted|].
  intros i. unfold bits_from. rewrite list_elem_of_filter, elem_of_seq. naive_solver lia.
Qed.

(** The pipeline of a record: ended on an idle log, it is in the file that
    the next [flush_one] takes from the writer; the one after hands that file to
    the reader, and [read_next] then finds the record. *)
Theorem log_pipeline `{!HashMapOrder, !Crc32} (l : LogFiles) (w : LogWriter) (v : bool) :
  log_ok l → next_log_id l + 1 < 2 ^ 32 → writer_overlays w = lg_overlays l →
  wrap64 (LogWriter.record_id w + 1) = next_record_id l → is_u64 (LogWriter.record_id w) →
  Z.of_nat (length (flush_to_file (writer_log w)).1) < 2 ^ 64 →
  appending l = None → flushing l = None → reading_file l = None → reading_state l = Idle →
  ∃ n l1 l2 l3 r l4,
    end_record (LogWriter.drain w) l = (Ok n, l1) ∧
    flush_one 0 l1 = (Ok (true, false, false), l2) ∧
    flush_one 0 l2 = (Ok (false, true, false), l3) ∧
    read_next v l3 = (Ok (Some r), l4) ∧
    reader_record_id r = LogWriter.record_id w ∧
    reader_file r = (flush_to_file (writer_log w)).1.
Proof.
  intros Hok Hn Hov Hrid Hu Hlen Ha Hf Hr Hs.
  destruct (end_record_spec l w Hok Hn Hov Hrid) as
    (l1 & h & f & Hrun & Hok1 & (size & Ha1 & Hsz) & K1 & K2 & K3 & Hd & _ & Hnew & _).
  specialize (Hnew Ha). specialize (Hsz Ha). subst f. rewrite app_nil_l in Hd.
  rewrite Hf in K1. rewrite Hr in K2. rewrite Hs in K3.
  set (data := (flush_to_file (writer_log w)).1) in *.
  assert (Hpos : 0 < size).
  { rewrite Hsz. cbn. unfold data in Hlen. cbn in Hlen. rewrite length_app, length_le_encode in Hlen.
    rewrite wrap64_small by (unfold is_u64; lia). lia. }
  assert (Hrot : flush_one 0 l1 = (Ok (true, false, false), set_flushing (Some h) (set_appending None l1))).
  { unfold flush_one, flush_advance, flush_rotate. unfold mbind, ST_bind, get_st. rewrite K1. cbn.
    rewrite Ha1, (proj2 (Z.ltb_lt _ _) Hpos). done. }
  set (l2 := set_flushing (Some h) (set_appending None l1)) in *.
  assert (Hadv : flush_one 0 l2 = (Ok (false, true, false),
    set_reading (Some (MkHandle (h_id h) 0)) Reading_ (set_flushing None l2))).
  { unfold flush_one, flush_advance, flush_rotate. unfold mbind, ST_bind, get_st, l2. cbn.
    by rewrite K2, K3. }
  set (l3 := set_reading _ _ _) in *.
  assert (Hr0 : reader_at (LogReader.new data 0 v) [] (le_encode 1 BEGIN_RECORD ++
    le_encode 8 (change_record_id (writer_log w)) ++ drop 9 data)).
  { split; [|cbn; lia]. cbn [reader_file reader_pos LogReader.new]. rewrite drop_0, app_nil_l.
    rewrite (assoc_L (++)). symmetry.
    rewrite <- (take_drop 9 data) at 2. f_equal. }
  destruct (next_begin _ (change_record_id (writer_log w)) _ Hu Hr0) as (r1 & E1 & Ha2 & _).
  eexists _, l1, l2, l3, (LogReader.set_record_id (change_record_id (writer_log w)) r1), _.
  split_and!; [exact Hrun|exact Hrot|exact Hadv| |done|exact (adv_file _ _ _ Ha2)].
  unfold read_next. cbn [reading_state reading_file l3 set_reading disk set_flushing l2 set_appending h_id h_pos].
  rewrite Hd. cbn [default id]. by rewrite E1.
Qed.

(** ** The theorems at concrete logs *)

#[local] Existing Instances list_order ieee_crc32.

(** A new log, and a writer of its first record with one value entry. *)
Definition empty_log : LogFiles :=
  MkLogFiles empty_overlays None None Idle None 2 true [] [] [] 0 true ∅.
Definition demo_writer : LogWriter :=
  LogWriter.insert_value (ValueTableId.new 1 3) 7 [x01; x02] (LogWriter.new empty_overlays 1).

Lemma log_files_invariant_witness :
  log_ok (log_op LBegin (MkLogFiles empty_overlays None None Idle None 1 true [] [] [] 0 true ∅)).
Proof.
  apply log_files_invariant. apply reach_step; [|cbn; lia].
  apply (reach_open true []); [constructor|constructor|reflexivity].
Defined.

Lemma empty_log_ok : log_ok empty_log.
Proof.
  split; cbn; [constructor| |split; [done|by intros id ?%elem_of_nil]|constructor|done].
  intros id. rewrite lookup_empty. split; [by intros []|by intros ?%elem_of_nil].
Qed.

Lemma end_record_publishes_witness :
  ∃ n l', end_record (LogWriter.drain demo_writer) empty_log = (Ok n, l') ∧
    ∀ t i dest, value (lg_overlays l') t i dest = value demo_writer t i dest.
Proof.
  destruct (end_record_publishes empty_log demo_writer) as
    (n & l' & h & f & size & H1 & _ & _ & _ & _ & _ & H2 & _).
  - apply empty_log_ok.
  - reflexivity.
  - reflexivity.
  - reflexivity.
  - exists n, l'. split; [exact H1|exact H2].
Defined.


Lemma mask_entries_spec_witness : StronglySorted lt (mask_entries 5).
Proof. apply (mask_entries_spec 5). unfold is_u64. lia. Defined.

Lemma log_pipeline_witness :
  ∃ n l1 l2 l3 r l4,
    end_record (LogWriter.drain demo_writer) empty_log = (Ok n, l1) ∧
    flush_one 0 l1 = (Ok (true, false, false), l2) ∧
    flush_one 0 l2 = (Ok (false, true, false), l3) ∧
    read_next true l3 = (Ok (Some r), l4) ∧ reader_record_id r = 1.
Proof.
  destruct (log_pipeline empty_log demo_writer true) as
    (n & l1 & l2 & l3 & r & l4 & H1 & H2 & H3 & H4 & H5 & _);
    try reflexivity.
  - apply empty_log_ok.
  - vm_compute. split; congruence.
  - exists n, l1, l2, l3, r, l4. split; [exact H1|]. split; [exact H2|]. split; [exact H3|].
    split; [exact H4|exact H5].
Defined.
