(* ===== verification/Index.v ===== *)
(** * Index tables (src/src/index.rs)

    An index table maps the first bits of a key to a chunk of 64 entries; an
    entry packs the next bits of the key above the address of the value. The
    memory map of a table is the map from chunk indexes to the chunks that were
    written, all others are zero, and the bytes kept for the statistics. *)

From S2P Require Import Prelude.
From S2P Require Import Bytes.
From S2P Require Import Ids.
From S2P Require Import Log.
From S2P Require Import Table.
From stdpp Require Import options.
#[local] Set Default Proof Using "Type*".

Definition HEADER_SIZE : nat := 512.
Definition META_SIZE : nat := 16 * 1024.
Definition ENTRY_LEN : Z := 64.

(** ** [Entry] *)

Record IEntry := MkIEntry { entry_u64 : Z }.

#[global] Instance IEntry_eq_dec : EqDecision IEntry.
Proof. solve_decision. Defined.

Module IEntry.

(** [Entry::address_bits], a [u8]. *)
Definition address_bits (index_bits : Z) : Z :=
  wrap8 (index_bits + CHUNK_ENTRIES_BITS + SIZE_TIERS_BITS).

Definition new (address : Address) (partial_key index_bits : Z) : IEntry :=
  MkIEntry (Z.lor (shl64 partial_key (address_bits index_bits)) (Address.as_u64 address)).

Definition last_address (index_bits : Z) : Z := wrap64 (shl64 1 (address_bits index_bits) - 1).

Definition address (index_bits : Z) (e : IEntry) : Address :=
  Address.from_u64 (Z.land (entry_u64 e) (last_address index_bits)).

Definition partial_key (index_bits : Z) (e : IEntry) : Z :=
  shr64 (entry_u64 e) (address_bits index_bits).

Definition extract_key (key_prefix index_bits : Z) : Z :=
  shr64 (shl64 key_prefix index_bits) (address_bits index_bits).

Definition is_empty (e : IEntry) : bool := entry_u64 e =? 0.
Definition as_u64 (e : IEntry) : Z := entry_u64 e.
Definition empty : IEntry := MkIEntry 0.
Definition from_u64 (z : Z) : IEntry := MkIEntry z.

End IEntry.

Inductive PlanOutcome := Written | NeedReindex | Skipped.
#[global] Instance PlanOutcome_eq_dec : EqDecision PlanOutcome.
Proof. solve_decision. Defined.

(** ** [IndexTable] *)

(** The mapped file. *)
Record IndexMap := MkIndexMap {
  im_chunks : gmap Z Chunk;
  im_stats : bytes;
}.

Record IndexTable := MkIndexTable {
  it_id : IndexTableId;
  it_map : option IndexMap;
}.

(** [IndexTable::file_size], in bytes. *)
Definition index_file_size (index_bits : Z) : Z :=
  wrap64 (wrap64 (wrap64 (shl64 1 index_bits * Z.of_nat CHUNK_ENTRIES) * 8) + Z.of_nat META_SIZE).

(** [IndexTable::open_existing]: [existing] is the file of the table, if there
    is one. *)
Definition open_existing (existing : option IndexMap) (id : IndexTableId) : option IndexTable :=
  (fun m => MkIndexTable id (Some m)) <$> existing.

(** [IndexTable::create_new]. *)
Definition create_new (id : IndexTableId) : IndexTable := MkIndexTable id None.

Definition bits (t : IndexTable) : Z := IndexTableId.index_bits (it_id t).

(** [IndexTable::chunk_at]: the slice is in range for the chunks of the file. *)
Definition chunk_at (t : IndexTable) (index : Z) (m : IndexMap) : outcome Chunk :=
  if index <? IndexTableId.total_chunks (it_id t)
  then Ok (default EMPTY_CHUNK (im_chunks m !! index)) else Panic.

(** [IndexTable::read_entry] and [IndexTable::write_entry]. *)
Definition read_entry (chunk : Chunk) (at_ : nat) : IEntry :=
  IEntry.from_u64 (le_decode (take 8 (drop (at_ * 8) chunk))).
Definition write_entry (entry : IEntry) (at_ : nat) (chunk : Chunk) : Chunk :=
  take (at_ * 8) chunk ++ le_encode 8 (IEntry.as_u64 entry) ++ drop (at_ * 8 + 8) chunk.

(** [IndexTable::chunk_index]: the shift amount is computed in [u8]. *)
Definition chunk_index (t : IndexTable) (key_prefix : Z) : Z :=
  shr64 key_prefix (wrap8 (ENTRY_LEN - bits t)).

(** [IndexTable::find_entry]: the loop from [sub_index], over [n] entries. *)
Fixpoint find_from (index_bits partial_key : Z) (chunk : Chunk) (i n : nat) : IEntry * nat :=
  match n with
  | O => (IEntry.empty, 0%nat)
  | S n' =>
      let entry := read_entry chunk i in
      if negb (IEntry.is_empty entry) && (IEntry.partial_key index_bits entry =? partial_key)
      then (entry, i) else find_from index_bits partial_key chunk (S i) n'
  end.
Definition find_entry (t : IndexTable) (key_prefix : Z) (sub_index : nat) (chunk : Chunk)
    : IEntry * nat :=
  find_from (bits t) (IEntry.extract_key key_prefix (bits t)) chunk sub_index
    (CHUNK_ENTRIES - sub_index).

(** [IndexTable::recover_key_prefix]. *)
Definition recover_key_prefix (t : IndexTable) (chunk : Z) (entry : IEntry) : Key :=
  let partial_key := IEntry.partial_key (bits t) entry in
  let k := wrap8 (64 - IEntry.address_bits (bits t)) in
  let index_key := Z.lor (shl64 chunk (wrap8 (64 - bits t)))
                         (shl64 partial_key (wrap8 (64 - k - bits t))) in
  be_encode 8 index_key ++ replicate (KEY_SIZE - 8) x00.

Section Queries.
Context {L} `{LogQuery L}.

(** The chunk that queries read: from the log, else from the map. *)
Definition current_chunk (t : IndexTable) (log : L) (index : Z) : outcome (option Chunk) :=
  match with_index log (it_id t) index id with
  | Some chunk => Ok (Some chunk)
  | None =>
      match it_map t with
      | Some m => c ← chunk_at t index m; Ok (Some c)
      | None => Ok None
      end
  end.

(** [IndexTable::get]. *)
Definition get_index (t : IndexTable) (key : Key) (sub_index : nat) (log : L)
    : outcome (IEntry * nat) :=
  let key := TableKey.index_from_partial key in
  c ← current_chunk t log (chunk_index t key);
  Ok (match c with
      | Some chunk => find_entry t key sub_index chunk
      | None => (IEntry.empty, 0%nat)
      end).

(** [IndexTable::transmute_chunk]. *)
Definition transmute_chunk (chunk : Chunk) : list IEntry :=
  read_entry chunk <$> seq 0 CHUNK_ENTRIES.

(** [IndexTable::entries]. *)
Definition entries (t : IndexTable) (index : Z) (log : L) : outcome (list IEntry) :=
  c ← current_chunk t log index;
  Ok (transmute_chunk (default EMPTY_CHUNK c)).

End Queries.

(** ** Plans *)

(** The index of the first empty entry of a chunk, from [i] on. *)
Fixpoint empty_from (chunk : Chunk) (i n : nat) : option nat :=
  match n with
  | O => None
  | S n' => if IEntry.is_empty (read_entry chunk i) then Some i else empty_from chunk (S i) n'
  end.

(** [IndexTable::plan_insert_chunk]. Reading the entry [i] of the chunk panics
    when [i] is not below [CHUNK_ENTRIES]. *)
Definition plan_insert_chunk (t : IndexTable) (key_prefix : Z) (address : Address) (chunk : Chunk)
    (sub_index : option nat) : ST LogWriter PlanOutcome :=
  let index := chunk_index t key_prefix in
  if IEntry.last_address (bits t) <? Address.as_u64 address then mret NeedReindex
  else
    let partial_key := IEntry.extract_key key_prefix (bits t) in
    let new_entry := IEntry.new address partial_key (bits t) in
    match sub_index with
    | Some i =>
        _ ← lift_st (rust_assert (i <? CHUNK_ENTRIES)%nat);
        let entry := read_entry chunk i in
        _ ← lift_st (rust_assert (IEntry.partial_key (bits t) entry =?
                                  IEntry.partial_key (bits t) new_entry));
        _ ← modify_st (LogWriter.insert_index (it_id t) index (wrap8 (Z.of_nat i))
                         (write_entry new_entry i chunk));
        mret Written
    | None =>
        match empty_from chunk 0 CHUNK_ENTRIES with
        | Some i =>
            _ ← modify_st (LogWriter.insert_index (it_id t) index (wrap8 (Z.of_nat i))
                             (write_entry new_entry i chunk));
            mret Written
        | None => mret NeedReindex
        end
    end.

(** [IndexTable::write_insert_plan]. *)
Definition index_insert_plan (t : IndexTable) (key : Key) (address : Address)
    (sub_index : option nat) : ST LogWriter PlanOutcome :=
  let key_prefix := TableKey.index_from_partial key in
  log ← get_st;
  c ← lift_st (current_chunk t log (chunk_index t key_prefix));
  plan_insert_chunk t key_prefix address (default EMPTY_CHUNK c) sub_index.

(** [IndexTable::plan_remove_chunk]. *)
Definition plan_remove_chunk (t : IndexTable) (key_prefix : Z) (chunk : Chunk) (sub_index : nat)
    : ST LogWriter PlanOutcome :=
  let index := chunk_index t key_prefix in
  let partial_key := IEntry.extract_key key_prefix (bits t) in
  _ ← lift_st (rust_assert (sub_index <? CHUNK_ENTRIES)%nat);
  let entry := read_entry chunk sub_index in
  if negb (IEntry.is_empty entry) && (IEntry.partial_key (bits t) entry =? partial_key) then
    _ ← modify_st (LogWriter.insert_index (it_id t) index (wrap8 (Z.of_nat sub_index))
                     (write_entry IEntry.empty sub_index chunk));
    mret Written
  else mret Skipped.

(** [IndexTable::write_remove_plan]. *)
Definition index_remove_plan (t : IndexTable) (key : Key) (sub_index : nat)
    : ST LogWriter PlanOutcome :=
  let key_prefix := TableKey.index_from_partial key in
  log ← get_st;
  c ← lift_st (current_chunk t log (chunk_index t key_prefix));
  match c with
  | Some chunk => plan_remove_chunk t key_prefix chunk sub_index
  | None => mret Skipped
  end.

(** ** Enacting *)

Definition IR : Type := IndexTable * LogReader.
Definition index_log (n : nat) : ST IR bytes :=
  fun '(t, r) => let '(o, r') := LogReader.read n r in (o, (t, r')).

(** The new file of [enact_plan]: zeros. *)
Definition new_index_map : IndexMap := MkIndexMap ∅ (replicate META_SIZE x00).

(** The loop over the mask: each entry is read straight into the mapped chunk. *)
Fixpoint enact_entries (index : Z) (l : list nat) : ST IR unit :=
  match l with
  | [] => mret tt
  | i :: l =>
      b ← index_log ENTRY_BYTES;
      _ ← modify_st (fun '(t, r) =>
            (MkIndexTable (it_id t)
               ((fun m => MkIndexMap
                   (<[index := write_entry (IEntry.from_u64 (le_decode b)) i
                                 (default EMPTY_CHUNK (im_chunks m !! index))]> (im_chunks m))
                   (im_stats m)) <$> it_map t), r));
      enact_entries index l
  end.

(** [IndexTable::enact_plan]. The chunk is written through a raw pointer: past
    the end of the map this is undefined behaviour. *)
Definition enact_index_plan (index : Z) : ST IR unit :=
  _ ← modify_st (fun '(t, r) =>
        (MkIndexTable (it_id t) (Some (default new_index_map (it_map t))), r));
  '(t, _) ← get_st;
  _ ← lift_st (if index <? IndexTableId.total_chunks (it_id t) then Ok tt else Undefined);
  mask_buf ← index_log 8;
  enact_entries index (mask_entries (le_decode mask_buf)).

(** The reads of [validate_plan] and [skip_plan]. *)
Fixpoint skip_entries (l : list nat) : ST LogReader unit :=
  match l with
  | [] => mret tt
  | _ :: l => _ ← LogReader.read ENTRY_BYTES; skip_entries l
  end.

(** [IndexTable::skip_plan]. *)
Definition skip_index_plan : ST LogReader unit :=
  buf ← LogReader.read 8;
  skip_entries (mask_entries (le_decode buf)).

(** [IndexTable::validate_plan]. *)
Definition validate_index_plan (t : IndexTable) (index : Z) : ST LogReader unit :=
  if IndexTableId.total_entries (it_id t) <=? index
  then lift_st (Err (Corruption "Bad index")) else skip_index_plan.
