(* ===== verification/IndexProofs.v ===== *)
(** * Correctness of index tables

    An index is read as a map from the first 50 bits of a key and a position in
    the chunk to the address of a value. Lookups find the first position of a
    key, the plans change one position, and the chunks that a record logged are
    restored by enacting it. *)

From S2P Require Import Prelude.
From S2P Require Import Bytes.
From S2P Require Import Ids.
From S2P Require Import Log.
From S2P Require Import LogProofs.
From S2P Require Import Table.
From S2P Require Import Index.
From stdpp Require Import options.
#[local] Set Default Proof Using "Type*".

(** ** Entries *)

(** The index bits for which the address, the partial key and the shifts of an
    entry fit in 64 bits. *)
Definition bits_ok (b : Z) : Prop := 0 < b ≤ 49.

(** The first 50 bits of a key prefix: what an index entry keeps. *)
Definition key50 (k : Z) : Z := k / 2 ^ 14.

Lemma address_bits_ok b : bits_ok b → IEntry.address_bits b = b + 14.
Proof.
  intros Hb. unfold bits_ok in Hb. unfold IEntry.address_bits, CHUNK_ENTRIES_BITS,
    SIZE_TIERS_BITS, wrap8. rewrite Z.mod_small; lia.
Qed.

Lemma last_address_ok b : bits_ok b → IEntry.last_address b = 2 ^ (b + 14) - 1.
Proof.
  intros Hb. unfold IEntry.last_address. rewrite address_bits_ok by done. unfold bits_ok in Hb.
  unfold shl64. rewrite (Z.mod_small (b + 14)) by lia. rewrite Z.shiftl_1_l.
  assert (0 < 2 ^ (b + 14)) by (apply Z.pow_pos_nonneg; lia).
  assert (2 ^ (b + 14) < 2 ^ 64) by (apply Z.pow_lt_mono_r; lia).
  rewrite !wrap64_small; unfold is_u64; rewrite ?wrap64_small; unfold is_u64; lia.
Qed.

Lemma extract_key_div b k : bits_ok b → is_u64 k →
  IEntry.extract_key k b = (k mod 2 ^ (64 - b)) / 2 ^ 14.
Proof.
  intros Hb Hk. unfold IEntry.extract_key, shl64, shr64. rewrite address_bits_ok by done.
  unfold bits_ok in Hb. rewrite !Z.mod_small by lia. unfold wrap64.
  rewrite Z.shiftl_mul_pow2, Z.shiftr_div_pow2 by lia.
  replace (2 ^ 64) with (2 ^ (64 - b) * 2 ^ b) by (rewrite <- Z.pow_add_r by lia; f_equal; lia).
  rewrite Z.mul_mod_distr_r by lia.
  replace (2 ^ (b + 14)) with (2 ^ b * 2 ^ 14) by (rewrite <- Z.pow_add_r by lia; done).
  rewrite <- Z.div_div by lia. by rewrite Z.div_mul by lia.
Qed.

Lemma extract_key_range b k : bits_ok b → is_u64 k → 0 ≤ IEntry.extract_key k b < 2 ^ (50 - b).
Proof.
  intros Hb Hk. rewrite extract_key_div by done. unfold bits_ok in Hb.
  assert (Hm : 0 ≤ k mod 2 ^ (64 - b) < 2 ^ (64 - b)) by (apply Z.mod_pos_bound; lia).
  split; [apply Z.div_pos; lia|]. apply Z.div_lt_upper_bound; [lia|].
  rewrite <- Z.pow_add_r by lia. replace (14 + (50 - b)) with (64 - b) by lia. lia.
Qed.

Lemma entry_new_fields b a pk : bits_ok b → 0 ≤ Address.as_u64 a < 2 ^ (b + 14) →
  0 ≤ pk < 2 ^ (50 - b) →
  let e := IEntry.new a pk b in
  IEntry.address b e = a ∧ IEntry.partial_key b e = pk ∧ is_u64 (IEntry.as_u64 e).
Proof.
  intros Hb Ha Hpk e. unfold e, IEntry.new, IEntry.address, IEntry.partial_key, IEntry.as_u64.
  cbn [entry_u64]. rewrite last_address_ok, address_bits_ok by done.
  pose proof Hb as [Hb0 Hb1]. unfold shl64, shr64. rewrite (Z.mod_small (b + 14)) by lia.
  assert (Hsh : wrap64 (Z.shiftl pk (b + 14)) = Z.shiftl pk (b + 14)).
  { apply wrap64_small. unfold is_u64. rewrite Z.shiftl_mul_pow2 by lia.
    replace (2 ^ 64) with (2 ^ (50 - b) * 2 ^ (b + 14))
      by (rewrite <- Z.pow_add_r by lia; f_equal; lia). nia. }
  rewrite Hsh. split_and!.
  - rewrite pack_low by lia. by destruct a.
  - by apply pack_high; lia.
  - unfold is_u64. pose proof (lor_shiftl_range pk (Address.as_u64 a) (b + 14) (50 - b)) as H.
    replace (50 - b + (b + 14)) with 64 in H by lia. apply H; lia.
Qed.

(** An entry packs its address below its partial key, so it is empty only when
    both are zero. *)
Lemma entry_new_nonempty b a pk : 0 < Address.as_u64 a → IEntry.is_empty (IEntry.new a pk b) = false.
Proof.
  intros Ha. unfold IEntry.is_empty, IEntry.new. cbn [entry_u64].
  apply Z.eqb_neq. rewrite Z.lor_eq_0_iff. lia.
Qed.

(** ** Chunks *)

Lemma read_entry_u64 c i : is_u64 (IEntry.as_u64 (read_entry c i)).
Proof.
  unfold read_entry, IEntry.as_u64, IEntry.from_u64. cbn [entry_u64].
  pose proof (le_decode_range (take 8 (drop (i * 8) c))) as H. unfold is_u64.
  assert (Hl : (length (take 8 (drop (i * 8) c)) ≤ 8)%nat)
    by (rewrite length_take; lia).
  pose proof (Z.pow_le_mono_r 2 (8 * Z.of_nat (length (take 8 (drop (i * 8) c)))) 64). lia.
Qed.

Lemma write_entry_chunk e i c : is_chunk c → (i < CHUNK_ENTRIES)%nat → is_chunk (write_entry e i c).
Proof.
  unfold is_chunk, CHUNK_LEN, CHUNK_ENTRIES, ENTRY_BYTES, write_entry. intros Hc Hi. len.
Qed.

Lemma read_write_entry e i j c : is_chunk c → (i < CHUNK_ENTRIES)%nat → (j < CHUNK_ENTRIES)%nat →
  is_u64 (IEntry.as_u64 e) →
  read_entry (write_entry e i c) j = if decide (i = j) then e else read_entry c j.
Proof.
  unfold is_chunk, CHUNK_LEN, CHUNK_ENTRIES, ENTRY_BYTES, read_entry, write_entry.
  intros Hc Hi Hj He. set (d := le_encode 8 (IEntry.as_u64 e)).
  assert (Hd : length d = 8%nat) by (unfold d; len). rewrite <- Hd at 3.
  destruct (decide (i = j)) as [<-|Hne].
  - rewrite <- Hd at 1. rewrite take_drop_splice_same by lia. unfold d.
    rewrite le_decode_encode_small by exact He. by destruct e.
  - f_equal. f_equal. destruct (decide (j < i)%nat).
    + apply take_drop_splice_before; lia.
    + by rewrite take_drop_splice_after by (rewrite ?Hd; lia).
Qed.

Lemma read_entry_empty_chunk i : read_entry EMPTY_CHUNK i = IEntry.empty.
Proof.
  unfold read_entry, EMPTY_CHUNK, IEntry.empty, IEntry.from_u64. f_equal.
  rewrite drop_replicate, take_replicate. generalize (8 `min` (CHUNK_LEN - i * 8))%nat as n.
  induction n as [|n IH]; [done|]. cbn [replicate].
  change (byte_val x00 + 2 ^ 8 * le_decode (replicate n x00) = 0). by rewrite IH.
Qed.

Lemma empty_chunk_ok : is_chunk EMPTY_CHUNK.
Proof. unfold is_chunk, EMPTY_CHUNK. len. Qed.

(** ** The index as a map *)

Section View.
Context {L} `{LogView L}.

(** The chunk that a query reads. *)
Definition chunk_view (t : IndexTable) (log : L) (index : Z) : option Chunk :=
  match index_view log (it_id t) index with
  | Some c => Some c
  | None => (fun m => default EMPTY_CHUNK (im_chunks m !! index)) <$> it_map t
  end.

Definition entry_at (t : IndexTable) (log : L) (k : Z) (i : nat) : IEntry :=
  read_entry (default EMPTY_CHUNK (chunk_view t log (chunk_index t k))) i.

(** The address that the index holds for the key prefix [k] at position [i] of
    its chunk. *)
Definition lookup_at (t : IndexTable) (log : L) (k : Z) (i : nat) : option Address :=
  let e := entry_at t log k i in
  if (i <? CHUNK_ENTRIES)%nat && negb (IEntry.is_empty e) &&
     (IEntry.partial_key (bits t) e =? IEntry.extract_key k (bits t))
  then Some (IEntry.address (bits t) e) else None.

Record index_wf (t : IndexTable) (log : L) : Prop := {
  iw_bits : bits_ok (bits t);
  iw_log : ∀ i c, index_view log (it_id t) i = Some c → is_chunk c;
  iw_map : ∀ m i c, it_map t = Some m → im_chunks m !! i = Some c → is_chunk c;
}.

Lemma chunk_view_chunk t log i : index_wf t log → is_chunk (default EMPTY_CHUNK (chunk_view t log i)).
Proof.
  intros [_ Hl Hm]. unfold chunk_view. destruct (index_view log (it_id t) i) as [c|] eqn:E.
  { by eapply Hl. }
  destruct (it_map t) as [m|] eqn:Em; [|apply empty_chunk_ok]. cbn.
  destruct (im_chunks m !! i) as [c|] eqn:Ec; [by eapply Hm|apply empty_chunk_ok].
Qed.

Lemma total_chunks_pow t : bits_ok (bits t) → IndexTableId.total_chunks (it_id t) = 2 ^ bits t.
Proof.
  unfold bits_ok. intros Hb. unfold IndexTableId.total_chunks, shl64. fold (bits t).
  rewrite Z.mod_small by lia. rewrite Z.shiftl_1_l. apply wrap64_small. unfold is_u64.
  pose proof (Z.pow_lt_mono_r 2 (bits t) 64). lia.
Qed.

Lemma chunk_index_div t k : bits_ok (bits t) → chunk_index t k = k / 2 ^ (64 - bits t).
Proof.
  unfold bits_ok. intros Hb. unfold chunk_index, shr64, wrap8, ENTRY_LEN.
  rewrite (Z.mod_small (64 - bits t) (2 ^ 8)), Z.mod_small by lia. apply Z.shiftr_div_pow2. lia.
Qed.

Lemma chunk_index_range t k : bits_ok (bits t) → is_u64 k →
  0 ≤ chunk_index t k < IndexTableId.total_chunks (it_id t).
Proof.
  intros Hb [Hk0 Hk1]. rewrite chunk_index_div, total_chunks_pow by done. unfold bits_ok in Hb.
  split; [apply Z.div_pos; lia|]. apply Z.div_lt_upper_bound; [lia|].
  rewrite <- Z.pow_add_r by lia. by replace (64 - bits t + bits t) with 64 by lia.
Qed.

Lemma key50_split t k : bits_ok (bits t) → is_u64 k →
  key50 k = chunk_index t k * 2 ^ (50 - bits t) + IEntry.extract_key k (bits t).
Proof.
  intros Hb Hk. rewrite chunk_index_div, extract_key_div by done. unfold bits_ok in Hb. unfold key50.
  rewrite (Z.div_mod k (2 ^ (64 - bits t))) at 1 by lia.
  replace (2 ^ (64 - bits t)) with (2 ^ (50 - bits t) * 2 ^ 14) at 1
    by (rewrite <- Z.pow_add_r by lia; f_equal; lia).
  rewrite (Z.mul_comm (2 ^ (50 - bits t) * 2 ^ 14)), Z.mul_assoc, Z.div_add_l by lia. lia.
Qed.

(** The chunk and the partial key of an entry are the first 50 bits of the key. *)
Lemma key50_eq t k k' : bits_ok (bits t) → is_u64 k → is_u64 k' →
  key50 k = key50 k' ↔
  chunk_index t k = chunk_index t k' ∧
  IEntry.extract_key k (bits t) = IEntry.extract_key k' (bits t).
Proof.
  intros Hb Hk Hk'. rewrite !(key50_split t) by done.
  pose proof (extract_key_range (bits t) k Hb Hk). pose proof (extract_key_range (bits t) k' Hb Hk').
  split; [|by intros [-> ->]]. intros E.
  apply (Z.div_mod_unique (2 ^ (50 - bits t))); [lia|lia|]. by rewrite !(Z.mul_comm (2 ^ _)).
Qed.

Lemma current_chunk_ok t log i : i < IndexTableId.total_chunks (it_id t) →
  current_chunk t log i = Ok (chunk_view t log i).
Proof.
  intros Hi. unfold current_chunk, chunk_view, chunk_at. rewrite with_index_view.
  destruct (index_view log (it_id t) i); [done|]. cbn. destruct (it_map t); [|done].
  by destruct (Z.ltb_spec i (IndexTableId.total_chunks (it_id t))); [|lia].
Qed.

(** [find_entry] returns the first position that matches. *)
Lemma find_from_spec b pk c n : ∀ i,
  let hit j := negb (IEntry.is_empty (read_entry c j)) &&
               (IEntry.partial_key b (read_entry c j) =? pk) in
  (∃ j, (i ≤ j < i + n)%nat ∧ find_from b pk c i n = (read_entry c j, j) ∧ hit j = true ∧
     ∀ m, (i ≤ m < j)%nat → hit m = false) ∨
  find_from b pk c i n = (IEntry.empty, 0%nat) ∧ ∀ m, (i ≤ m < i + n)%nat → hit m = false.
Proof.
  induction n as [|n IH]; intros i hit; cbn [find_from].
  - right. split; [done|]. lia.
  - fold (hit i). destruct (hit i) eqn:Hi.
    + left. exists i. split_and!; [lia|lia|done|done|lia].
    + destruct (IH (S i)) as [(j & Hj & E & Hh & Hb)|[E Hn]].
      * left. exists j. split_and!; [lia|lia|done|done|]. intros m Hm.
        destruct (decide (m = i)) as [->|]; [done|]. apply Hb. lia.
      * right. split; [done|]. intros m Hm.
        destruct (decide (m = i)) as [->|]; [done|]. apply Hn. lia.
Qed.

Lemma index_prefix_u64 (key : Key) : is_u64 (TableKey.index_from_partial key).
Proof.
  unfold TableKey.index_from_partial. unfold is_u64. pose proof (be_decode_range (take 8 key)) as Hr.
  assert (Hl : (length (take 8 key) ≤ 8)%nat) by (rewrite length_take; lia).
  pose proof (Z.pow_le_mono_r 2 (8 * Z.of_nat (length (take 8 key))) 64). lia.
Qed.

Lemma get_index_first t log key sub : index_wf t log →
  let k := TableKey.index_from_partial key in
  ∃ e j, get_index t key sub log = Ok (e, j) ∧
    ((sub ≤ j)%nat ∧ lookup_at t log k j = Some (IEntry.address (bits t) e) ∧
       IEntry.is_empty e = false ∧ (∀ n, (sub ≤ n < j)%nat → lookup_at t log k n = None) ∨
     e = IEntry.empty ∧ j = 0%nat ∧ ∀ n, (sub ≤ n)%nat → lookup_at t log k n = None).
Proof.
  intros Hwf k. pose proof (iw_bits _ _ Hwf) as Hb. pose proof (index_prefix_u64 key) as Hk.
  fold k in Hk. unfold get_index. fold k.
  rewrite current_chunk_ok by (by apply chunk_index_range). rewrite outcome_bind_Ok.
  destruct (chunk_view t log (chunk_index t k)) as [c|] eqn:Ec.
  - unfold find_entry. destruct (find_from_spec (bits t) (IEntry.extract_key k (bits t)) c
      (CHUNK_ENTRIES - sub) sub) as [(j & Hj & E & Hh & Hbe)|[E Hn]].
    + exists (read_entry c j), j. split; [by rewrite E|]. left.
      unfold lookup_at, entry_at. rewrite Ec. cbn [default id].
      destruct (Nat.ltb_spec j CHUNK_ENTRIES); [|lia]. rewrite andb_true_l, Hh.
      split_and!; [lia|done| |].
      * apply andb_true_iff in Hh as [Hh _]. by apply negb_true_iff in Hh.
      * intros n Hn. by rewrite <- andb_assoc, Hbe, andb_false_r.
    + exists IEntry.empty, 0%nat. split; [by rewrite E|]. right. split_and!; [done|done|].
      intros n Hsn. unfold lookup_at, entry_at. rewrite Ec. cbn [default id].
      destruct (Nat.ltb_spec n CHUNK_ENTRIES); [|done].
      by rewrite andb_true_l, Hn by lia.
  - exists IEntry.empty, 0%nat. split; [done|]. right. split_and!; [done|done|].
    intros n _. unfold lookup_at, entry_at. rewrite Ec. cbn [default].
    by rewrite read_entry_empty_chunk, andb_false_r.
Qed.

End View.

(** ** Plans *)

(** The writer after the entry at position [i] of the chunk of [k] was replaced. *)
Definition set_entry (t : IndexTable) (k : Z) (i : nat) (e : IEntry) (w : LogWriter) : LogWriter :=
  LogWriter.insert_index (it_id t) (chunk_index t k) (wrap8 (Z.of_nat i))
    (write_entry e i (default EMPTY_CHUNK (chunk_view t w (chunk_index t k)))) w.

Lemma chunk_view_set_entry t w k i e n :
  chunk_view t (set_entry t k i e w) n =
  if decide (chunk_index t k = n)
  then Some (write_entry e i (default EMPTY_CHUNK (chunk_view t w n))) else chunk_view t w n.
Proof.
  unfold chunk_view at 1, set_entry. rewrite index_view_insert_index.
  destruct (decide (chunk_index t k = n)) as [<-|Hne].
  - by rewrite decide_True.
  - by rewrite decide_False by tauto.
Qed.

Lemma set_entry_wf t w k i e : index_wf t w → (i < CHUNK_ENTRIES)%nat →
  index_wf t (set_entry t k i e w).
Proof.
  intros Hwf Hi. split; [apply Hwf| |apply Hwf].
  intros n c. unfold set_entry. rewrite index_view_insert_index.
  destruct (decide _) as [[_ <-]|]; [|by apply (iw_log _ _ Hwf)].
  intros [= <-]. apply write_entry_chunk; [|done]. by apply chunk_view_chunk.
Qed.

(** Position [i] of the chunk of [k] belongs to [k], or is free. *)
Definition owned (t : IndexTable) (k : Z) (e : IEntry) : Prop :=
  IEntry.is_empty e = true ∨ IEntry.partial_key (bits t) e = IEntry.extract_key k (bits t).

Lemma not_owned_hit t k k' e : owned t k e →
  IEntry.extract_key k' (bits t) ≠ IEntry.extract_key k (bits t) →
  negb (IEntry.is_empty e) &&
    (IEntry.partial_key (bits t) e =? IEntry.extract_key k' (bits t)) = false.
Proof.
  intros [->|Hp] Hne; [done|]. rewrite Hp. destruct (Z.eqb_spec (IEntry.extract_key k (bits t))
    (IEntry.extract_key k' (bits t))); [congruence|]. apply andb_false_r.
Qed.

Lemma lookup_set_entry t w k i e k' j : index_wf t w → is_u64 k → is_u64 k' →
  (i < CHUNK_ENTRIES)%nat → is_u64 (IEntry.as_u64 e) → owned t k e → owned t k (entry_at t w k i) →
  lookup_at t (set_entry t k i e w) k' j =
  if decide (key50 k = key50 k' ∧ i = j)
  then (if IEntry.is_empty e then None else Some (IEntry.address (bits t) e))
  else lookup_at t w k' j.
Proof.
  intros Hwf Hk Hk' Hi He Ho Ho'. pose proof (iw_bits _ _ Hwf) as Hb.
  pose proof (key50_eq t k k' Hb Hk Hk') as H50.
  unfold lookup_at, entry_at in *. rewrite chunk_view_set_entry.
  destruct (Nat.ltb_spec j CHUNK_ENTRIES) as [Hj|Hj];
    [|rewrite (decide_False (P := key50 k = key50 k' ∧ i = j)) by lia; done]. rewrite !andb_true_l.
  destruct (decide (chunk_index t k = chunk_index t k')) as [Hc|Hc].
  2: { rewrite decide_False by tauto. done. }
  cbn [default id]. rewrite <- !Hc.
  rewrite read_write_entry by (done || by apply chunk_view_chunk).
  destruct (decide (i = j)) as [<-|Hij]; [|rewrite decide_False by tauto; done].
  destruct (decide (IEntry.extract_key k (bits t) = IEntry.extract_key k' (bits t))) as [Hx|Hx].
  - rewrite decide_True by tauto. rewrite <- Hx. destruct Ho as [Ho|Ho]; rewrite Ho; [done|].
    rewrite Z.eqb_refl, andb_true_r. by destruct (IEntry.is_empty e).
  - rewrite decide_False by tauto. by rewrite !not_owned_hit with (k := k) by done.
Qed.

(** A position that holds a key can be replaced. *)
Lemma lookup_at_Some {L} `{LogView L} t (log : L) k i a : lookup_at t log k i = Some a →
  (i < CHUNK_ENTRIES)%nat ∧ IEntry.is_empty (entry_at t log k i) = false ∧
  IEntry.partial_key (bits t) (entry_at t log k i) = IEntry.extract_key k (bits t) ∧
  a = IEntry.address (bits t) (entry_at t log k i).
Proof.
  unfold lookup_at. destruct (Nat.ltb_spec i CHUNK_ENTRIES); [|done].
  destruct (IEntry.is_empty _); [done|]. destruct (Z.eqb_spec (IEntry.partial_key (bits t)
    (entry_at t log k i)) (IEntry.extract_key k (bits t))); [|done]. intros [= <-]. done.
Qed.

Lemma empty_from_spec c n : ∀ i,
  match empty_from c i n with
  | Some j => (i ≤ j < i + n)%nat ∧ IEntry.is_empty (read_entry c j) = true ∧
      ∀ m, (i ≤ m < j)%nat → IEntry.is_empty (read_entry c m) = false
  | None => ∀ m, (i ≤ m < i + n)%nat → IEntry.is_empty (read_entry c m) = false
  end.
Proof.
  induction n as [|n IH]; intros i; cbn [empty_from]; [lia|].
  destruct (IEntry.is_empty (read_entry c i)) eqn:E; [split_and!; lia || done|].
  specialize (IH (S i)). destruct (empty_from c (S i) n) as [j|].
  - destruct IH as (Hj & He & Hb). split_and!; [lia|lia|done|]. intros m Hm.
    destruct (decide (m = i)) as [->|]; [done|]. apply Hb. lia.
  - intros m Hm. destruct (decide (m = i)) as [->|]; [done|]. apply IH. lia.
Qed.

Definition new_entry (t : IndexTable) (k : Z) (a : Address) : IEntry :=
  IEntry.new a (IEntry.extract_key k (bits t)) (bits t).

Lemma new_entry_ok t k a : bits_ok (bits t) → is_u64 k →
  0 < Address.as_u64 a ≤ IEntry.last_address (bits t) →
  IEntry.address (bits t) (new_entry t k a) = a ∧ is_u64 (IEntry.as_u64 (new_entry t k a)) ∧
  IEntry.partial_key (bits t) (new_entry t k a) = IEntry.extract_key k (bits t) ∧
  IEntry.is_empty (new_entry t k a) = false.
Proof.
  intros Hb Hk Ha. rewrite last_address_ok in Ha by done.
  destruct (entry_new_fields (bits t) a (IEntry.extract_key k (bits t))) as (H1 & H2 & H3);
    [done|lia|by apply extract_key_range|].
  split_and!; [done|done|done|]. apply entry_new_nonempty. lia.
Qed.

Lemma index_insert_None t w key a : index_wf t w →
  let k := TableKey.index_from_partial key in
  index_insert_plan t key a None w =
  if IEntry.last_address (bits t) <? Address.as_u64 a then (Ok NeedReindex, w)
  else match empty_from (default EMPTY_CHUNK (chunk_view t w (chunk_index t k))) 0 CHUNK_ENTRIES with
       | Some i => (Ok Written, set_entry t k i (new_entry t k a) w)
       | None => (Ok NeedReindex, w)
       end.
Proof.
  intros Hwf k. pose proof (index_prefix_u64 key) as Hk. fold k in Hk.
  unfold index_insert_plan. fold k. erewrite ST_bind_Ok by done.
  rewrite current_chunk_ok by (apply chunk_index_range; [apply Hwf|done]).
  erewrite ST_bind_Ok by done. unfold plan_insert_chunk.
  destruct (IEntry.last_address (bits t) <? Address.as_u64 a); [done|].
  by destruct (empty_from _ 0 CHUNK_ENTRIES).
Qed.

Lemma index_insert_Some t w key a i b : index_wf t w →
  let k := TableKey.index_from_partial key in
  0 < Address.as_u64 a → lookup_at t w k i = Some b →
  index_insert_plan t key a (Some i) w =
  if IEntry.last_address (bits t) <? Address.as_u64 a then (Ok NeedReindex, w)
  else (Ok Written, set_entry t k i (new_entry t k a) w).
Proof.
  intros Hwf k Ha Hi. pose proof (index_prefix_u64 key) as Hk. fold k in Hk.
  pose proof (iw_bits _ _ Hwf) as Hb.
  unfold index_insert_plan. fold k. erewrite ST_bind_Ok by done.
  rewrite current_chunk_ok by (by apply chunk_index_range).
  erewrite ST_bind_Ok by done. unfold plan_insert_chunk.
  destruct (Z.ltb_spec (IEntry.last_address (bits t)) (Address.as_u64 a)); [done|].
  apply lookup_at_Some in Hi as (Hlt & _ & Hp & _). unfold entry_at in Hp.
  apply Nat.ltb_lt in Hlt. rewrite Hlt. erewrite ST_bind_Ok by done. cbv zeta. rewrite Hp.
  destruct (new_entry_ok t k a Hb Hk ltac:(lia)) as (_ & _ & Hq & _). unfold new_entry in Hq.
  rewrite Hq, Z.eqb_refl. done.
Qed.

Lemma index_remove_eq t w key i : index_wf t w → (i < CHUNK_ENTRIES)%nat →
  let k := TableKey.index_from_partial key in
  index_remove_plan t key i w =
  match lookup_at t w k i with
  | Some _ => (Ok Written, set_entry t k i IEntry.empty w)
  | None => (Ok Skipped, w)
  end.
Proof.
  intros Hwf Hi k. pose proof (index_prefix_u64 key) as Hk. fold k in Hk.
  pose proof (iw_bits _ _ Hwf) as Hb. apply Nat.ltb_lt in Hi.
  unfold index_remove_plan. fold k. erewrite ST_bind_Ok by done.
  rewrite current_chunk_ok by (by apply chunk_index_range).
  erewrite ST_bind_Ok by done. unfold lookup_at, entry_at, set_entry. rewrite Hi, andb_true_l.
  destruct (chunk_view t w (chunk_index t k)) as [c|]; cbn [default id].
  - unfold plan_remove_chunk. rewrite Hi. erewrite ST_bind_Ok by done. cbv zeta.
    by destruct (negb (IEntry.is_empty (read_entry c i)) && _).
  - by rewrite read_entry_empty_chunk.
Qed.

(** ** Recovering keys *)

Lemma recover_key_prefix_ok t k e : bits_ok (bits t) → is_u64 k →
  IEntry.partial_key (bits t) e = IEntry.extract_key k (bits t) →
  recover_key_prefix t (chunk_index t k) e =
  be_encode 8 (key50 k * 2 ^ 14) ++ replicate (KEY_SIZE - 8) x00.
Proof.
  intros Hb Hk He. unfold recover_key_prefix. rewrite He, address_bits_ok by done. f_equal. f_equal.
  rewrite (key50_split t) by done.
  pose proof (extract_key_range (bits t) k Hb Hk) as Hx.
  pose proof (chunk_index_range t k Hb Hk) as Hc. rewrite total_chunks_pow in Hc by done.
  unfold bits_ok in Hb. unfold wrap8, shl64. rewrite (Z.mod_small (64 - bits t) (2 ^ 8)) by lia.
  rewrite (Z.mod_small (64 - (bits t + 14)) (2 ^ 8)) by lia.
  replace (64 - (64 - (bits t + 14)) - bits t) with 14 by lia.
  rewrite (Z.mod_small 14 (2 ^ 8)), (Z.mod_small (64 - bits t) 64), (Z.mod_small 14 64) by lia.
  assert (Hlow : 0 ≤ Z.shiftl (IEntry.extract_key k (bits t)) 14 < 2 ^ (64 - bits t)).
  { rewrite Z.shiftl_mul_pow2 by lia. replace (64 - bits t) with (50 - bits t + 14) by lia.
    rewrite Z.pow_add_r by lia. nia. }
  assert (Hp : 2 ^ (64 - bits t) < 2 ^ 64) by (apply Z.pow_lt_mono_r; lia).
  rewrite (wrap64_small (Z.shiftl (IEntry.extract_key k (bits t)) 14)) by (unfold is_u64; lia).
  rewrite wrap64_small.
  - rewrite lor_shiftl_add by lia. rewrite Z.shiftl_mul_pow2 by lia.
    replace (64 - bits t) with (50 - bits t + 14) by lia. rewrite Z.pow_add_r by lia. lia.
  - unfold is_u64. rewrite Z.shiftl_mul_pow2 by lia.
    replace (2 ^ 64) with (2 ^ bits t * 2 ^ (64 - bits t))
      by (rewrite <- Z.pow_add_r by lia; f_equal; lia). nia.
Qed.
