(* ===== verification/IndexEnact.v ===== *)
(** * Enacting index changes

    [IndexTable::enact_plan] (src/src/index.rs) writes the entries of the mask
    of a logged chunk over the mapped chunk. A record logs, with every chunk, a
    mask that covers all entries in which the chunk differs from the one it was
    made from, so enacting it restores the whole chunk. *)

From S2P Require Import Prelude.
From S2P Require Import Bytes.
From S2P Require Import Ids.
From S2P Require Import Log.
From S2P Require Import LogProofs.
From S2P Require Import Table.
From S2P Require Import Index.
From S2P Require Import IndexProofs.
From stdpp Require Import options.
#[local] Set Default Proof Using "Type*".

(** ** One chunk *)

Lemma read_entry_chunk_entry c i : read_entry c i = IEntry.from_u64 (le_decode (chunk_entry c i)).
Proof. done. Qed.

Lemma length_chunk_entry c i : is_chunk c → (i < CHUNK_ENTRIES)%nat → length (chunk_entry c i) = 8%nat.
Proof.
  unfold is_chunk, CHUNK_LEN, chunk_entry, CHUNK_ENTRIES, ENTRY_BYTES. intros.
  rewrite length_take, length_drop. lia.
Qed.

(** A chunk is its 64 entries. *)
Lemma chunk_ext c c' : is_chunk c → is_chunk c' →
  (∀ j, (j < CHUNK_ENTRIES)%nat → read_entry c j = read_entry c' j) → c = c'.
Proof.
  intros Hc Hc' He.
  assert (Hce : ∀ j, (j < CHUNK_ENTRIES)%nat → chunk_entry c j = chunk_entry c' j).
  { intros j Hj. specialize (He j Hj). rewrite !read_entry_chunk_entry in He.
    injection He as He. rewrite <- (le_encode_decode (chunk_entry c j)), He.
    rewrite (length_chunk_entry c), <- (length_chunk_entry c' j) by done. apply le_encode_decode. }
  assert (Hall : ∀ n, (n ≤ CHUNK_ENTRIES)%nat → take (n * 8) c = take (n * 8) c').
  { induction n as [|n IH]; intros Hn; [done|].
    replace (S n * 8)%nat with (n * 8 + 8)%nat by lia.
    rewrite <- !take_take_drop, IH by lia. f_equal. apply Hce. lia. }
  specialize (Hall CHUNK_ENTRIES ltac:(lia)). unfold is_chunk, CHUNK_LEN in *.
  unfold ENTRY_BYTES in *. by rewrite !take_ge in Hall by lia.
Qed.

(** The mapped chunk. *)
Definition map_chunk (t : IndexTable) (i : Z) : Chunk :=
  default EMPTY_CHUNK (it_map t ≫= fun m => im_chunks m !! i).

Definition map_wf (t : IndexTable) : Prop :=
  ∀ m i c, it_map t = Some m → im_chunks m !! i = Some c → is_chunk c.

Lemma map_chunk_ok t i : map_wf t → is_chunk (map_chunk t i).
Proof.
  intros Hm. unfold map_chunk. destruct (it_map t) as [m|] eqn:E; [|apply empty_chunk_ok]. cbn.
  destruct (im_chunks m !! i) eqn:Ei; [by eapply Hm|apply empty_chunk_ok].
Qed.

(** The part of the index file before the chunks. *)
Definition stats_size (t : IndexTable) : Prop :=
  ∀ m, it_map t = Some m → length (im_stats m) = META_SIZE.

(** [t'] is [t] with the chunk [idx] replaced by one that agrees with [P]. *)
Record chunk_enacted (idx : Z) (P : Chunk → Prop) (t t' : IndexTable) : Prop := {
  ce_id : it_id t' = it_id t;
  ce_wf : map_wf t';
  ce_chunk : P (map_chunk t' idx);
  ce_frame : ∀ n, n ≠ idx → map_chunk t' n = map_chunk t n;
  ce_stats : stats_size t → stats_size t';
  ce_mapped : is_Some (it_map t) → is_Some (it_map t');
}.

Definition agrees_on (c : Chunk) (l : list nat) (c0 c' : Chunk) : Prop :=
  ∀ j, (j < CHUNK_ENTRIES)%nat →
    read_entry c' j = if decide (j ∈ l) then read_entry c j else read_entry c0 j.

Lemma advanced_nil r : is_u64 (read_bytes r) → advanced [] r r.
Proof.
  intros Hu. split; try done.
  - cbn [length]. rewrite Z.add_0_r. by rewrite wrap64_small.
  - rewrite app_nil_r. by destruct (validate r).
Qed.

Lemma advanced_u64 (d : bytes) r r' : advanced d r r' → is_u64 (read_bytes r').
Proof. intros Ha. rewrite (adv_bytes _ _ _ Ha). apply wrap64_range. Qed.

(** One entry written into the mapped chunk. *)
Definition put_entry (idx : Z) (i : nat) (e : IEntry) (t : IndexTable) : IndexTable :=
  MkIndexTable (it_id t)
    ((fun m => MkIndexMap
        (<[idx := write_entry e i (default EMPTY_CHUNK (im_chunks m !! idx))]> (im_chunks m))
        (im_stats m)) <$> it_map t).

Lemma put_entry_enacted idx i c t : is_Some (it_map t) → map_wf t → is_chunk c →
  (i < CHUNK_ENTRIES)%nat →
  chunk_enacted idx (agrees_on c [i] (map_chunk t idx)) t (put_entry idx i (read_entry c i) t).
Proof.
  intros [m Hs] Hm Hc Hi. unfold put_entry. rewrite Hs. cbn.
  assert (Hok : is_chunk (default EMPTY_CHUNK (im_chunks m !! idx))).
  { pose proof (map_chunk_ok t idx Hm) as H. unfold map_chunk in H. by rewrite Hs in H. }
  split; unfold map_chunk; cbn; [done| | | | |by eexists].
  - intros m' n c' [= <-]. cbn. rewrite lookup_insert.
    destruct (decide (idx = n)) as [->|]; [|by apply Hm].
    intros [= <-]. by apply write_entry_chunk.
  - rewrite lookup_insert, decide_True, Hs by done. cbn. intros j Hj.
    rewrite read_write_entry by (done || apply read_entry_u64).
    destruct (decide (i = j)) as [->|Hne]; [by rewrite decide_True by set_solver|].
    by rewrite decide_False by set_solver.
  - intros n Hn. rewrite lookup_insert_ne, Hs by done. done.
  - intros Hst m' [= <-]. cbn. by apply Hst.
Qed.

Lemma enact_entries_spec c idx l : ∀ t r rest, is_Some (it_map t) → map_wf t → is_chunk c →
  Forall (fun i => i < CHUNK_ENTRIES)%nat l → is_u64 (read_bytes r) →
  reader_at r (concat (chunk_entry c <$> l)) rest →
  ∃ t' r', enact_entries idx l (t, r) = (Ok tt, (t', r')) ∧
    advanced (concat (chunk_entry c <$> l)) r r' ∧ is_Some (it_map t') ∧
    chunk_enacted idx (agrees_on c l (map_chunk t idx)) t t'.
Proof.
  induction l as [|i l IH]; intros t r rest Hs Hm Hc Hl Hu Hr; cbn [enact_entries].
  - exists t, r. split_and!; [done|by apply advanced_nil|done|].
    split; [done|done| |done|done|done]. intros j _. by rewrite decide_False by set_solver.
  - apply Forall_cons in Hl as [Hi Hl]. cbn [fmap list_fmap concat] in *.
    rewrite reader_at_split in Hr.
    destruct (reader_read r (chunk_entry c i) _ ENTRY_BYTES Hr) as (r1 & E1 & Ha1);
      [by rewrite length_chunk_entry|].
    pose proof (advanced_at _ _ _ _ Hr Ha1) as Hr1.
    rewrite <- reader_at_split, app_nil_l in Hr1.
    erewrite ST_bind_Ok by (unfold index_log; by rewrite E1). erewrite ST_bind_Ok by done.
    rewrite <- read_entry_chunk_entry. fold (put_entry idx i (read_entry c i) t).
    destruct (put_entry_enacted idx i c t Hs Hm Hc Hi) as [I1 W1 C1 F1 S1 M1].
    destruct (IH (put_entry idx i (read_entry c i) t) r1 rest) as (t' & r' & E & Ha & Hs' & [I2 W2 C2 F2 S2 M2]);
      try done; [by destruct Hs as [? Hs]; unfold put_entry; rewrite Hs|by eapply advanced_u64|].
    exists t', r'. split_and!; [exact E|by eapply advanced_trans|done|].
    split; [by rewrite I2|done| |by intros n Hn; rewrite F2, F1|by intros Hst; apply S2, S1|done].
    intros j Hj. rewrite C2 by done. rewrite C1 by done.
    destruct (decide (j ∈ l)); [by rewrite decide_True by set_solver|].
    destruct (decide (i = j)) as [->|].
    + by rewrite !decide_True by set_solver.
    + by rewrite !decide_False by set_solver.
Qed.

(** The mask covers the differences between [c] and [c0]. *)
Definition mask_covers (mask : Z) (c c0 : Chunk) : Prop :=
  ∀ j, (j < CHUNK_ENTRIES)%nat → Z.testbit mask (Z.of_nat j) = false →
    read_entry c j = read_entry c0 j.

Lemma mask_entries_elem mask i : is_u64 mask →
  i ∈ mask_entries mask ↔ (i < CHUNK_ENTRIES)%nat ∧ Z.testbit mask (Z.of_nat i) = true.
Proof.
  intros Hm. rewrite mask_entries_bits by done. unfold bits_from, CHUNK_ENTRIES.
  rewrite list_elem_of_filter, elem_of_seq. naive_solver lia.
Qed.

Definition mapped (t : IndexTable) : IndexTable :=
  MkIndexTable (it_id t) (Some (default new_index_map (it_map t))).

Lemma mapped_chunk t i : map_chunk (mapped t) i = map_chunk t i.
Proof. unfold map_chunk, mapped. cbn. destruct (it_map t); cbn; [done|by rewrite lookup_empty]. Qed.

Lemma mapped_stats t : stats_size t → stats_size (mapped t).
Proof. intros Hs m [= <-]. destruct (it_map t) as [m|] eqn:E; [by apply Hs|]. apply length_replicate. Qed.

Lemma mapped_wf t : map_wf t → map_wf (mapped t).
Proof.
  intros Hm m i c [= <-]. destruct (it_map t) as [m|] eqn:E; cbn; [by eapply Hm|].
  by rewrite lookup_empty.
Qed.

(** The chunk [c0] with the entries of [c] in the mask. *)
Definition merge_chunk (mask : Z) (c c0 : Chunk) : Chunk :=
  concat ((fun j => chunk_entry (if Z.testbit mask (Z.of_nat j) then c else c0) j) <$> seq 0 CHUNK_ENTRIES).

Lemma concat_entries (f : nat → bytes) n : (∀ j, (j < n)%nat → length (f j) = 8%nat) →
  length (concat (f <$> seq 0 n)) = (n * 8)%nat ∧
  ∀ j, (j < n)%nat → take 8 (drop (j * 8) (concat (f <$> seq 0 n))) = f j.
Proof.
  induction n as [|n IH]; intros Hf; [split; [done|lia]|]. rewrite seq_S, fmap_app, concat_app. cbn.
  rewrite app_nil_r. destruct IH as [Hl Hj]; [intros; apply Hf; lia|]. split.
  - rewrite length_app, Hl, Hf by lia. lia.
  - intros j Hjn. destruct (decide (j = n)) as [->|].
    + rewrite drop_app_length' by done. apply take_ge. rewrite Hf by lia. done.
    + rewrite drop_app_le by (rewrite Hl; lia). rewrite take_app_le by (rewrite length_drop, Hl; lia). apply Hj. lia.
Qed.

Lemma merge_chunk_spec mask c c0 : is_chunk c → is_chunk c0 → is_chunk (merge_chunk mask c c0) ∧
  ∀ j, (j < CHUNK_ENTRIES)%nat →
    read_entry (merge_chunk mask c c0) j = read_entry (if Z.testbit mask (Z.of_nat j) then c else c0) j.
Proof.
  intros Hc Hc0.
  destruct (concat_entries (fun j => chunk_entry (if Z.testbit mask (Z.of_nat j) then c else c0) j) CHUNK_ENTRIES) as [Hl Hj].
  { intros j Hj. apply length_chunk_entry; [by destruct (Z.testbit mask _)|done]. }
  split; [unfold is_chunk, merge_chunk; by rewrite Hl|]. intros j Hjn.
  rewrite !read_entry_chunk_entry. unfold merge_chunk, chunk_entry at 1, ENTRY_BYTES. by rewrite Hj.
Qed.

Lemma merge_covered mask c c0 : is_chunk c → is_chunk c0 → mask_covers mask c c0 → merge_chunk mask c c0 = c.
Proof.
  intros Hc Hc0 Hcov. destruct (merge_chunk_spec mask c c0 Hc Hc0) as [Hm He].
  apply chunk_ext; [done|done|]. intros j Hj. rewrite He by done.
  destruct (Z.testbit mask (Z.of_nat j)) eqn:E; [done|]. symmetry. by apply Hcov.
Qed.

(** Enacting a logged chunk writes the entries in the mask. *)
Lemma enact_index_plan_merge t r rest idx mask c : map_wf t → is_chunk c → is_u64 mask →
  0 ≤ idx < IndexTableId.total_chunks (it_id t) →
  reader_at r (le_encode 8 mask ++ concat (chunk_entry c <$> mask_entries mask)) rest →
  ∃ t' r', enact_index_plan idx (t, r) = (Ok tt, (t', r')) ∧
    advanced (le_encode 8 mask ++ concat (chunk_entry c <$> mask_entries mask)) r r' ∧
    chunk_enacted idx (fun c' => c' = merge_chunk mask c (map_chunk t idx)) t t'.
Proof.
  intros Hm Hc Hu Hi Hr. unfold enact_index_plan. erewrite ST_bind_Ok by done.
  fold (mapped t). erewrite ST_bind_Ok by done. cbv beta iota.
  destruct (Z.ltb_spec idx (IndexTableId.total_chunks (it_id (mapped t)))) as [_|Hbad];
    [|cbn in Hbad; lia].
  erewrite ST_bind_Ok by done. rewrite reader_at_split in Hr.
  destruct (reader_read r _ _ 8 Hr) as (r1 & E1 & Ha1); [len|].
  pose proof (advanced_at _ _ _ _ Hr Ha1) as Hr1. rewrite <- reader_at_split, app_nil_l in Hr1.
  erewrite ST_bind_Ok by (unfold index_log; by rewrite E1).
  rewrite le_decode_encode_small by exact Hu.
  assert (Hl : Forall (fun i => i < CHUNK_ENTRIES)%nat (mask_entries mask)).
  { apply Forall_forall. intros i Hin. by apply mask_entries_elem in Hin as [Hin _]. }
  destruct (enact_entries_spec c idx (mask_entries mask) (mapped t) r1 rest) as
    (t' & r' & E & Ha & _ & [I W C F S Mp]); try done; [by apply mapped_wf|by eapply advanced_u64|].
  exists t', r'. split_and!; [exact E|by eapply advanced_trans|].
  destruct (merge_chunk_spec mask c (map_chunk t idx) Hc (map_chunk_ok t idx Hm)) as [Hmk Hme].
  split; [done|done| |by intros n Hn; rewrite F, mapped_chunk|by intros Hs; apply S, mapped_stats|by intros _; apply Mp; eexists].
  apply chunk_ext; [by apply map_chunk_ok|done|]. intros j Hj. rewrite C, Hme by done.
  destruct (decide (j ∈ mask_entries mask)) as [Hin|Hn].
  - apply mask_entries_elem in Hin as [_ ->]; done.
  - rewrite mapped_chunk. destruct (Z.testbit mask (Z.of_nat j)) eqn:Et; [|done].
    destruct Hn. by apply mask_entries_elem.
Qed.

(** Where the mask covers the changes this restores the chunk. *)
Lemma enact_index_plan_spec t r rest idx mask c : map_wf t → is_chunk c → is_u64 mask →
  0 ≤ idx < IndexTableId.total_chunks (it_id t) → mask_covers mask c (map_chunk t idx) →
  reader_at r (le_encode 8 mask ++ concat (chunk_entry c <$> mask_entries mask)) rest →
  ∃ t' r', enact_index_plan idx (t, r) = (Ok tt, (t', r')) ∧
    advanced (le_encode 8 mask ++ concat (chunk_entry c <$> mask_entries mask)) r r' ∧
    chunk_enacted idx (fun c' => c' = c) t t'.
Proof.
  intros Hm Hc Hu Hi Hcov Hr. destruct (enact_index_plan_merge t r rest idx mask c Hm Hc Hu Hi Hr) as
    (t' & r' & E & Ha & [I W C F S Mp]). exists t', r'. split_and!; [done|done|]. split; try done.
  by rewrite C, merge_covered by (done || by apply map_chunk_ok).
Qed.

(** ** Operations and records *)

Inductive IndexOp :=
| IInsert (key : Key) (a : Address)
| IUpdate (key : Key) (a : Address) (i : nat)
| IRemove (key : Key) (i : nat).

Definition run_index_op (t : IndexTable) (op : IndexOp) : ST LogWriter PlanOutcome :=
  match op with
  | IInsert key a => index_insert_plan t key a None
  | IUpdate key a i => index_insert_plan t key a (Some i)
  | IRemove key i => index_remove_plan t key i
  end.

(** What an index promises: a map from the first 50 bits of a key and a
    position to an address. Addresses are positive, an entry of the chunk can
    only be replaced by one of the same key. *)
Abbreviation IndexView := (Z → nat → option Address).

Definition updated (f : IndexView) (k : Z) (i : nat) (a : option Address) (f' : IndexView) : Prop :=
  ∀ k' j, is_u64 k' → f' k' j = if decide (key50 k = key50 k' ∧ i = j) then a else f k' j.

Definition unchanged (f f' : IndexView) : Prop := ∀ k' j, is_u64 k' → f' k' j = f k' j.

Definition index_step (f : IndexView) (op : IndexOp) (o : PlanOutcome) (f' : IndexView) : Prop :=
  match op, o with
  | IInsert key a, Written =>
      let k := TableKey.index_from_partial key in
      ∃ i, (i < CHUNK_ENTRIES)%nat ∧ f k i = None ∧ updated f k i (Some a) f'
  | IUpdate key a i, Written => updated f (TableKey.index_from_partial key) i (Some a) f'
  | IInsert _ _, NeedReindex | IUpdate _ _ _, NeedReindex => unchanged f f'
  | IRemove key i, Written =>
      let k := TableKey.index_from_partial key in f k i ≠ None ∧ updated f k i None f'
  | IRemove key i, Skipped => f (TableKey.index_from_partial key) i = None ∧ unchanged f f'
  | _, _ => False
  end.

Definition index_op_pre (t : IndexTable) (w : LogWriter) (op : IndexOp) : Prop :=
  match op with
  | IInsert _ a => 0 < Address.as_u64 a
  | IUpdate key a i =>
      0 < Address.as_u64 a ∧ is_Some (lookup_at t w (TableKey.index_from_partial key) i)
  | IRemove _ i => (i < CHUNK_ENTRIES)%nat
  end.

(** Every chunk that the record logged differs from the chunk before the record
    only in entries of its mask. *)
Definition covered (t : IndexTable) (w : LogWriter) : Prop :=
  ∀ i rid mask c, overlay_lookup (local_index (writer_log w)) (it_id t) i = Some (rid, mask, c) →
    0 ≤ i < IndexTableId.total_chunks (it_id t) ∧ is_u64 mask ∧ is_chunk c ∧
    mask_covers mask c (default EMPTY_CHUNK (chunk_view t (writer_overlays w) i)).

Lemma testbit_lor_bit mask i j : (i < 64)%nat →
  Z.testbit (Z.lor mask (shl64 1 (wrap8 (Z.of_nat i)))) (Z.of_nat j) =
  Z.testbit mask (Z.of_nat j) || bool_decide (i = j).
Proof.
  intros Hi. rewrite Z.lor_spec. f_equal. unfold shl64, wrap8.
  rewrite (Z.mod_small _ (2 ^ 8)), (Z.mod_small _ 64) by lia. rewrite Z.shiftl_1_l.
  rewrite wrap64_small by (unfold is_u64; pose proof (Z.pow_lt_mono_r 2 (Z.of_nat i) 64); lia).
  rewrite Z.pow2_bits_eqb by lia. apply eq_true_iff_eq. rewrite bool_decide_eq_true, Z.eqb_eq. lia.
Qed.

Lemma shl64_1_u64 n : is_u64 (shl64 1 n).
Proof. apply wrap64_range. Qed.

Lemma lor_u64 a b : is_u64 a → is_u64 b → is_u64 (Z.lor a b).
Proof.
  unfold is_u64. intros Ha Hb. split; [apply Z.lor_nonneg; lia|].
  destruct (Z.eq_dec (Z.lor a b) 0) as [->|Hne]; [lia|].
  apply Z.log2_lt_pow2; [pose proof (Z.lor_nonneg a b); lia|]. rewrite Z.log2_lor by lia.
  apply Z.max_lub_lt; (destruct (Z.eq_dec a 0) as [->|]; destruct (Z.eq_dec b 0) as [->|]);
    (done || apply Z.log2_lt_pow2; lia).
Qed.

Lemma mask_covers_write mask e i c c0 : is_chunk c → (i < CHUNK_ENTRIES)%nat →
  is_u64 (IEntry.as_u64 e) → mask_covers mask c c0 →
  mask_covers (Z.lor mask (shl64 1 (wrap8 (Z.of_nat i)))) (write_entry e i c) c0.
Proof.
  intros Hc Hi He Hcov j Hj. rewrite testbit_lor_bit by done.
  intros [Hm Hb%bool_decide_eq_false]%orb_false_iff.
  rewrite read_write_entry, decide_False by done. by apply Hcov.
Qed.

Lemma own_index_insert t i sub d w t' i' :
  overlay_lookup (local_index (writer_log (LogWriter.insert_index t i sub d w))) t' i' =
  if decide (t = t' ∧ i = i')
  then Some (LogWriter.record_id w,
             match overlay_lookup (local_index (writer_log w)) t i with
             | Some (_, mask, _) => Z.lor mask (shl64 1 sub)
             | None => shl64 1 sub
             end, d)
  else overlay_lookup (local_index (writer_log w)) t' i'.
Proof.
  unfold LogWriter.insert_index. cbn. rewrite overlay_lookup_insert.
  destruct (decide _); [|done]. unfold overlay_lookup.
  destruct (local_index (writer_log w) !! t) as [o|]; cbn; [|by rewrite lookup_empty].
  by destruct (o !! i) as [[[]]|].
Qed.

Lemma chunk_view_own t w i :
  chunk_view t w i =
  match overlay_lookup (local_index (writer_log w)) (it_id t) i with
  | Some (_, _, c) => Some c
  | None => chunk_view t (writer_overlays w) i
  end.
Proof.
  unfold chunk_view, index_view at 1. cbn.
  by destruct (overlay_lookup (local_index (writer_log w)) (it_id t) i) as [[[]]|].
Qed.

Lemma set_entry_covered t w k i e : index_wf t w → is_u64 k → (i < CHUNK_ENTRIES)%nat →
  is_u64 (IEntry.as_u64 e) → covered t w → covered t (set_entry t k i e w).
Proof.
  intros Hwf Hk Hi He Hcov n rid mask c. unfold set_entry. rewrite own_index_insert.
  pose proof (chunk_view_chunk t w (chunk_index t k) Hwf) as Hch.
  destruct (decide _) as [[_ <-]|]; [|apply Hcov]. intros [= _ <- <-].
  split; [by apply chunk_index_range, Hk; apply Hwf|].
  rewrite chunk_view_own in *. specialize (Hcov (chunk_index t k)).
  destruct (overlay_lookup _ _ _) as [[[rid0 mask0] c0]|].
  - destruct (Hcov _ _ _ eq_refl) as (_ & Hm & Hc & Hcv).
    split_and!; [by apply lor_u64, shl64_1_u64|by apply write_entry_chunk|].
    by apply mask_covers_write.
  - split_and!; [apply shl64_1_u64|by apply write_entry_chunk|].
    by apply (mask_covers_write 0).
Qed.

(** The record logs chunks of no other index of the column. *)
Definition index_logged (col : ColId) (t : IndexTable) (w : LogWriter) : Prop :=
  covered t w ∧ ∀ id n e, IndexTableId.col id = col →
    overlay_lookup (local_index (writer_log w)) id n = Some e → id = it_id t.

Lemma set_entry_logged col t w k i e : index_wf t w → is_u64 k → (i < CHUNK_ENTRIES)%nat →
  is_u64 (IEntry.as_u64 e) → index_logged col t w → index_logged col t (set_entry t k i e w).
Proof.
  intros Hwf Hk Hi He [Hc Hid]. split; [by apply set_entry_covered|].
  intros id n x Hcol. unfold set_entry. rewrite own_index_insert.
  destruct (decide _) as [[-> _]|]; [done|]. by apply Hid.
Qed.

Lemma run_index_op_ok t w op : index_wf t w → covered t w → index_op_pre t w op →
  ∃ o w', run_index_op t op w = (Ok o, w') ∧ index_wf t w' ∧ covered t w' ∧
    writer_overlays w' = writer_overlays w ∧ index_step (lookup_at t w) op o (lookup_at t w').
Proof.
  intros Hwf Hcov Hpre. pose proof (iw_bits _ _ Hwf) as Hb.
  destruct op as [key a|key a i|key i]; cbn [run_index_op index_op_pre index_step] in *;
    pose proof (index_prefix_u64 key) as Hk; set (k := TableKey.index_from_partial key) in *.
  - rewrite index_insert_None by done. fold k.
    destruct (Z.ltb_spec (IEntry.last_address (bits t)) (Address.as_u64 a)).
    { exists NeedReindex, w. by split_and!. }
    destruct (new_entry_ok t k a Hb Hk ltac:(lia)) as (E1 & E2 & E3 & E4).
    pose proof (empty_from_spec (default EMPTY_CHUNK (chunk_view t w (chunk_index t k)))
      CHUNK_ENTRIES 0) as He.
    destruct (empty_from _ 0 CHUNK_ENTRIES) as [i|]; [|by exists NeedReindex, w; split_and!].
    destruct He as (Hi & He & _). exists Written, (set_entry t k i (new_entry t k a) w).
    split_and!; [done|apply set_entry_wf; [done|lia]|apply set_entry_covered; (done || lia)|done|].
    exists i. split_and!; [lia| |].
    + unfold lookup_at, entry_at. by rewrite He, andb_false_r.
    + intros k' j Hk'. rewrite lookup_set_entry; try (done || lia); [|by right|by left].
      by rewrite E4, E1.
  - destruct Hpre as [Ha [a0 Hl]]. rewrite (index_insert_Some t w key a i a0) by done. fold k.
    destruct (Z.ltb_spec (IEntry.last_address (bits t)) (Address.as_u64 a)).
    { exists NeedReindex, w. by split_and!. }
    destruct (new_entry_ok t k a Hb Hk ltac:(lia)) as (E1 & E2 & E3 & E4).
    apply lookup_at_Some in Hl as (Hi & _ & Hp & _).
    exists Written, (set_entry t k i (new_entry t k a) w).
    split_and!; [done|by apply set_entry_wf|by apply set_entry_covered|done|].
    intros k' j Hk'. rewrite lookup_set_entry; try done; [|by right|by right]. by rewrite E4, E1.
  - rewrite index_remove_eq by done. fold k. destruct (lookup_at t w k i) as [a|] eqn:Hl.
    2: { by exists Skipped, w; split_and!. }
    apply lookup_at_Some in Hl as (Hi & _ & Hp & _).
    assert (He : is_u64 (IEntry.as_u64 IEntry.empty)) by (unfold is_u64; cbn; lia).
    exists Written, (set_entry t k i IEntry.empty w).
    split_and!; [done|by apply set_entry_wf|by apply set_entry_covered|done|done|].
    intros k' j Hk'. rewrite lookup_set_entry; try done; [by left|by right].
Qed.

Fixpoint run_index_ops (t : IndexTable) (ops : list IndexOp) : ST LogWriter (list PlanOutcome) :=
  match ops with
  | [] => mret []
  | op :: ops => o ← run_index_op t op; os ← run_index_ops t ops; mret (o :: os)
  end.

(** Every operation is admissible when its turn comes. *)
Fixpoint index_ops_pre (t : IndexTable) (w : LogWriter) (ops : list IndexOp) : Prop :=
  match ops with
  | [] => True
  | op :: ops => index_op_pre t w op ∧ index_ops_pre t (run_index_op t op w).2 ops
  end.

Inductive index_run : IndexView → list IndexOp → list PlanOutcome → IndexView → Prop :=
| index_run_nil f : index_run f [] [] f
| index_run_cons f op o f1 ops os f2 :
    index_step f op o f1 → index_run f1 ops os f2 → index_run f (op :: ops) (o :: os) f2.

Lemma run_index_ops_ok t ops : ∀ w, index_wf t w → covered t w → index_ops_pre t w ops →
  ∃ os w', run_index_ops t ops w = (Ok os, w') ∧ index_wf t w' ∧ covered t w' ∧
    writer_overlays w' = writer_overlays w ∧ index_run (lookup_at t w) ops os (lookup_at t w').
Proof.
  induction ops as [|op ops IH]; intros w Hwf Hcov Hpre.
  - exists [], w. split_and!; try done. apply index_run_nil.
  - destruct Hpre as [Hp Hpre]. destruct (run_index_op_ok t w op Hwf Hcov Hp) as
      (o & w1 & E & Hwf1 & Hcov1 & Ho1 & Hs). rewrite E in Hpre. cbn in Hpre.
    destruct (IH w1 Hwf1 Hcov1 Hpre) as (os & w2 & E2 & Hwf2 & Hcov2 & Ho2 & Hr).
    exists (o :: os), w2. split_and!; [|done|done|by rewrite Ho2|by econstructor].
    cbn [run_index_ops]. erewrite ST_bind_Ok by exact E. by erewrite ST_bind_Ok by exact E2.
Qed.

(** ** Replaying the index entries of a record *)

Definition replay_index_entry `{!Crc32} : ST IR unit :=
  a ← (fun '(t, r) => let '(o, r') := LogReader.next r in (o, (t, r')));
  match a with
  | InsertIndex _ i => enact_index_plan i
  | _ => lift_st (Err (Corruption "Bad log record"))
  end.

Fixpoint replay_index_entries `{!Crc32} (n : nat) : ST IR unit :=
  match n with
  | O => mret tt
  | S n => _ ← replay_index_entry; replay_index_entries n
  end.

Definition own_chunks (w : LogWriter) (id : IndexTableId) : IndexLogOverlay :=
  default ∅ (local_index (writer_log w) !! id).

(** [e] can be enacted over the map of [t]. *)
Definition chunk_logged (t : IndexTable) (e : Z * (Z * Z * Chunk)) : Prop :=
  let '(i, (_, mask, c)) := e in
  0 ≤ i < IndexTableId.total_chunks (it_id t) ∧ is_u64 mask ∧ is_chunk c ∧
  mask_covers mask c (map_chunk t i).

Lemma total_chunks_u64 id : is_u64 (IndexTableId.total_chunks id).
Proof. apply shl64_1_u64. Qed.

Lemma replay_index_entries_spec `{!HashMapOrder, !Crc32} l : ∀ t r rest, map_wf t →
  is_u16 (IndexTableId.as_u16 (it_id t)) → NoDup l.*1 → Forall (chunk_logged t) l →
  reader_at r [] (concat (flush_index_entry (it_id t) <$> l) ++ rest) →
  ∃ t' r', replay_index_entries (length l) (t, r) = (Ok tt, (t', r')) ∧ reader_at r' [] rest ∧
    it_id t' = it_id t ∧ map_wf t' ∧
    (∀ i rid mask c, (i, (rid, mask, c)) ∈ l → map_chunk t' i = c) ∧
    (∀ i, i ∉ l.*1 → map_chunk t' i = map_chunk t i).
Proof.
  induction l as [|[i [[rid mask] c]] l IH]; intros t r rest Hm Hid Hnd Hall Hr.
  - exists t, r. split_and!; try done. by intros i rid mask c ?%elem_of_nil.
  - cbn in Hnd. apply NoDup_cons in Hnd as [Hni Hnd]. apply Forall_cons in Hall as [Hc Hall].
    destruct Hc as (Hi & Hu & Hc & Hcov). cbn [fmap list_fmap concat] in Hr.
    unfold flush_index_entry at 1 in Hr. rewrite <- !(assoc_L (++)) in Hr.
    pose proof (total_chunks_u64 (it_id t)) as Htc.
    destruct (next_index r (it_id t) i (le_encode 8 mask ++ concat (chunk_entry c <$> mask_entries mask)
      ++ concat (flush_index_entry (it_id t) <$> l) ++ rest)) as (r1 & Hn & Ha & Hr1);
      [done|unfold is_u64 in *; lia|by rewrite <- !(assoc_L (++))|].
    change (reader_at (LogReader.push_cleared_index (it_id t, i) r1) []
      (le_encode 8 mask ++ concat (chunk_entry c <$> mask_entries mask)
      ++ concat (flush_index_entry (it_id t) <$> l) ++ rest)) in Hr1.
    rewrite (assoc_L (++)), <- reader_at_split, app_nil_l in Hr1.
    destruct (enact_index_plan_spec t _ _ i mask c Hm Hc Hu Hi Hcov Hr1) as (t1 & r2 & E & Ha2 & [I W C F]).
    pose proof (advanced_at _ _ _ _ Hr1 Ha2) as Hr2.
    destruct (IH t1 r2 rest) as (t' & r' & E' & Hr' & I' & W' & C' & F');
      [done|by rewrite I|done| |by rewrite I|].
    { apply Forall_forall. intros [n [[rid' mask'] c']] Hin. rewrite Forall_forall in Hall.
      specialize (Hall _ Hin). unfold chunk_logged in *. rewrite I, F; [done|].
      intros ->. apply Hni. by apply (list_elem_of_fmap_2 fst) in Hin. }
    exists t', r'. split_and!; [|done|by rewrite I'|done| |].
    + cbn [length replay_index_entries]. erewrite ST_bind_Ok; [exact E'|].
      unfold replay_index_entry. by erewrite ST_bind_Ok by (by rewrite Hn).
    + intros n rid' mask' c' [Heq|Hin]%elem_of_cons; [injection Heq as -> -> -> ->; by rewrite F'|by eapply C'].
    + intros n Hn'. cbn in Hn'. rewrite F', F; set_solver.
Qed.

(** The table with the enacted map shows what the writer showed. *)
Lemma lookup_at_ext {L M} `{LogView L} `{LogView M} t t' (l : L) (l' : M) k j :
  it_id t = it_id t' →
  default EMPTY_CHUNK (chunk_view t l (chunk_index t k)) =
    default EMPTY_CHUNK (chunk_view t' l' (chunk_index t k)) →
  lookup_at t l k j = lookup_at t' l' k j.
Proof.
  intros Hid Hc. unfold lookup_at, entry_at. assert (Hx : chunk_index t k = chunk_index t' k)
    by (unfold chunk_index, bits; by rewrite Hid). rewrite <- Hx, Hc. unfold bits. by rewrite Hid.
Qed.

Lemma chunk_view_map {L} `{LogView L} t (l : L) i : index_view l (it_id t) i = None →
  default EMPTY_CHUNK (chunk_view t l i) = map_chunk t i.
Proof.
  intros Hn. unfold chunk_view, map_chunk. rewrite Hn. by destruct (it_map t).
Qed.
