(* ===== verification/IndexThms.v ===== *)
(** * Theorems about index tables

    What src/src/column.rs relies on: the index finds what was inserted, a
    logged chunk survives a restart, keys can be moved to a larger index, and
    validation reads exactly what enactment reads. *)

From S2P Require Import Prelude.
From S2P Require Import Bytes.
From S2P Require Import Ids.
From S2P Require Import Log.
From S2P Require Import LogProofs.
From S2P Require Import Table.
From S2P Require Import Index.
From S2P Require Import IndexProofs.
From S2P Require Import IndexEnact.
From S2P Require Import Instances.
From stdpp Require Import options.
#[local] Set Default Proof Using "Type*".

(** ** Claims *)

(** C11. Crash recovery of an index: run any admissible insertions, updates and
    removals as one record; each does to the abstract index what its outcome
    says. If then only the log entries and the old file survive, replaying them,
    in whatever order the hash map listed the chunks, gives an index that finds
    exactly what the writer of the record found. *)
Theorem index_record_recovers `{!HashMapOrder, !Crc32} (t : IndexTable) (ov : LogOverlays)
    (rid : Z) (ops : list IndexOp) :
  let w0 := LogWriter.new ov rid in
  index_wf t ov → (∀ i, index_view ov (it_id t) i = None) →
  is_u16 (IndexTableId.as_u16 (it_id t)) → index_ops_pre t w0 ops →
  ∃ os w1,
    run_index_ops t ops w0 = (Ok os, w1) ∧
    index_run (lookup_at t w0) ops os (lookup_at t w1) ∧
    ∀ r rest,
      reader_at r [] (concat (flush_index_entry (it_id t) <$> iter (own_chunks w1 (it_id t))) ++ rest) →
      ∃ t2 r',
        replay_index_entries (length (iter (own_chunks w1 (it_id t)))) (t, r) = (Ok tt, (t2, r')) ∧
        reader_at r' [] rest ∧ index_wf t2 ov ∧
        ∀ k j, lookup_at t2 ov k j = lookup_at t w1 k j.
Proof.
  intros w0 Hwf Hov Hid Hpre. assert (Hwf0 : index_wf t w0) by (split; apply Hwf).
  destruct (run_index_ops_ok t ops w0 Hwf0) as (os & w1 & E & Hwf1 & Hcov & Ho & Hrun);
    [by intros i rid' mask c; unfold overlay_lookup; cbn|done|].
  exists os, w1. split_and!; [done|done|]. intros r rest Hr. set (o := own_chunks w1 (it_id t)) in *.
  assert (Hlook : ∀ i, overlay_lookup (local_index (writer_log w1)) (it_id t) i = o !! i).
  { intros i. unfold o, own_chunks, overlay_lookup. by destruct (_ !! it_id t). }
  assert (Hin : ∀ e, e ∈ iter o ↔ o !! e.1 = Some e.2).
  { intros [i e]. rewrite (iter_perm o). apply elem_of_map_to_list. }
  assert (Hnd : NoDup (iter o).*1).
  { rewrite (iter_perm o). apply NoDup_fst_map_to_list. }
  destruct (replay_index_entries_spec (iter o) t r rest) as (t2 & r' & Er & Hr' & I & W & C & F);
    [exact (iw_map _ _ Hwf)|done|done| |done|].
  { apply Forall_forall. intros [i [[rid' mask] c]] Hi%Hin. cbn in Hi. rewrite <- Hlook in Hi.
    destruct (Hcov i rid' mask c Hi) as (H1 & H2 & H3 & H4). rewrite Ho in H4.
    rewrite chunk_view_map in H4 by apply Hov. done. }
  exists t2, r'. split_and!; [done|done| |].
  - split; [unfold bits; rewrite I; apply Hwf| |exact W].
    intros i c. by rewrite I, Hov.
  - intros k j. apply lookup_at_ext; [done|]. rewrite chunk_view_map by (rewrite I; apply Hov).
    rewrite chunk_view_own, Hlook, Ho.
    destruct (o !! chunk_index t2 k) as [[[rid' mask] c]|] eqn:Eo.
    + cbn. eapply (C _ rid' mask). by apply Hin.
    + rewrite chunk_view_map by apply Hov. apply F.
      intros (e & He & Hi%Hin)%list_elem_of_fmap. rewrite <- He in Hi. congruence.
Qed.

(** Lookup: [get] from a position returns the first entry at or after it
    that holds the key prefix, or the empty entry when there is none. *)
Theorem index_get_finds_first {L} `{LogView L} (t : IndexTable) (log : L) (key : Key) (sub : nat) :
  index_wf t log →
  let k := TableKey.index_from_partial key in
  ∃ e j, get_index t key sub log = Ok (e, j) ∧
    ((sub ≤ j)%nat ∧ lookup_at t log k j = Some (IEntry.address (bits t) e) ∧
       IEntry.is_empty e = false ∧ (∀ n, (sub ≤ n < j)%nat → lookup_at t log k n = None) ∨
     e = IEntry.empty ∧ j = 0%nat ∧ ∀ n, (sub ≤ n)%nat → lookup_at t log k n = None).
Proof. intros Hwf. by apply get_index_first. Qed.


(** C27. When the index asks for a larger one: an insertion is refused exactly
    when the address does not fit beside the partial key or the chunk has no
    free entry, and then nothing is logged. *)
Theorem index_need_reindex (t : IndexTable) (w : LogWriter) (key : Key) (a : Address) :
  index_wf t w →
  let k := TableKey.index_from_partial key in
  ∃ o w', index_insert_plan t key a None w = (Ok o, w') ∧
    (o = NeedReindex ↔
       2 ^ (bits t + 14) ≤ Address.as_u64 a ∨
       ∀ i, (i < CHUNK_ENTRIES)%nat → IEntry.is_empty (entry_at t w k i) = false) ∧
    (o = NeedReindex → w' = w) ∧ (o ≠ NeedReindex → o = Written).
Proof.
  intros Hwf k. pose proof (iw_bits _ _ Hwf) as Hb. rewrite index_insert_None by done. fold k.
  pose proof (last_address_ok (bits t) Hb) as Hla.
  destruct (Z.ltb_spec (IEntry.last_address (bits t)) (Address.as_u64 a)).
  { exists NeedReindex, w. split_and!; [done| |done|done]. split; [intros _; left; lia|done]. }
  pose proof (empty_from_spec (default EMPTY_CHUNK (chunk_view t w (chunk_index t k)))
    CHUNK_ENTRIES 0) as He.
  destruct (empty_from _ 0 CHUNK_ENTRIES) as [i|].
  - destruct He as (Hi & He & _). eexists Written, _. split_and!; [done| |done|done].
    split; [done|]. intros [?|Hf]; [lia|]. specialize (Hf i ltac:(lia)). unfold entry_at in Hf. congruence.
  - exists NeedReindex, w. split_and!; [done| |done|done].
    split; [intros _; right; intros i Hi; apply He; lia|done].
Qed.

(** C28. Moving an entry to another index: the key prefix that is recovered from
    the chunk number and the entry has the first 50 bits of the key and zeros
    after them, and selects in an index of any size the chunk and the partial
    key that the key itself selects. *)
Theorem index_recover_key {L} `{LogView L} (t t' : IndexTable) (log : L) (key : Key) (i : nat) (a : Address) :
  let k := TableKey.index_from_partial key in
  bits_ok (bits t) → bits_ok (bits t') → lookup_at t log k i = Some a →
  let key' := recover_key_prefix t (chunk_index t k) (entry_at t log k i) in
  let k' := TableKey.index_from_partial key' in
  length key' = KEY_SIZE ∧ k' = key50 k * 2 ^ 14 ∧ key50 k' = key50 k ∧
  chunk_index t' k' = chunk_index t' k ∧
  IEntry.extract_key k' (bits t') = IEntry.extract_key k (bits t').
Proof.
  intros k Hb Hb' Hl key' k'. pose proof (index_prefix_u64 key) as Hk. fold k in Hk.
  apply lookup_at_Some in Hl as (_ & _ & Hp & _).
  assert (Hkey : key' = be_encode 8 (key50 k * 2 ^ 14) ++ replicate (KEY_SIZE - 8) x00)
    by (by apply recover_key_prefix_ok).
  assert (Hr : 0 ≤ key50 k * 2 ^ 14 < 2 ^ 64).
  { unfold key50. unfold is_u64 in Hk. pose proof (Z.mul_div_le k (2 ^ 14)). split; [|lia].
    apply Z.mul_nonneg_nonneg; [apply Z.div_pos|]; lia. }
  assert (Hk' : k' = key50 k * 2 ^ 14).
  { unfold k', TableKey.index_from_partial. rewrite Hkey, take_app_length' by len.
    rewrite be_decode_encode. apply Z.mod_small. exact Hr. }
  assert (H50 : key50 k' = key50 k) by (rewrite Hk'; unfold key50; by rewrite Z.div_mul by lia).
  destruct (proj1 (key50_eq t' k' k Hb' ltac:(by rewrite Hk') Hk) H50) as [H1 H2].
  split_and!; [|done|done|done|done]. rewrite Hkey. unfold KEY_SIZE. len.
Qed.

Lemma skip_enact_same idx l : ∀ t r,
  (skip_entries l r).1 = (enact_entries idx l (t, r)).1 ∧
  (skip_entries l r).2 = (enact_entries idx l (t, r)).2.2.
Proof.
  induction l as [|i l IH]; intros t r; [done|]. cbn [skip_entries enact_entries].
  unfold mbind, ST_bind, index_log. destruct (LogReader.read ENTRY_BYTES r) as [[b| | | | |] r1]; try done.
  apply IH.
Qed.


(** C30. What validation misses: it compares a chunk number with the number of
    entries instead of the number of chunks, so it accepts chunk numbers past
    the end of the table, for which enactment writes outside of the map. *)
Theorem index_validate_too_weak (t : IndexTable) (r : LogReader) (rest : bytes) (index : Z) :
  bits_ok (bits t) →
  IndexTableId.total_chunks (it_id t) ≤ index < IndexTableId.total_entries (it_id t) →
  reader_at r (le_encode 8 0) rest →
  (∃ r', validate_index_plan t index r = (Ok tt, r')) ∧
  ∃ s, enact_index_plan index (t, r) = (Undefined, s).
Proof.
  intros Hb Hi Hr. split.
  - unfold validate_index_plan. destruct (Z.leb_spec (IndexTableId.total_entries (it_id t)) index); [lia|].
    destruct (reader_read r _ _ 8 Hr) as (r1 & E1 & _); [len|]. exists r1.
    unfold skip_index_plan. by erewrite ST_bind_Ok by exact E1.
  - unfold enact_index_plan. erewrite ST_bind_Ok by done. erewrite ST_bind_Ok by done. cbv beta iota.
    cbn [it_id]. destruct (Z.ltb_spec index (IndexTableId.total_chunks (it_id t))); [lia|].
    by eexists.
Qed.

(** ** The theorems at a concrete index *)

#[local] Existing Instances list_order ieee_crc32.

(** A new index of column 0 with 16 bits, and the first insertion into it. *)
Definition demo_index : IndexTable := create_new (IndexTableId.new 0 16).
Definition demo_key : Key := replicate KEY_SIZE x81.
Definition demo_address : Address := Address.new 1 3.
Definition demo_log : LogWriter := LogWriter.new empty_overlays 1.
Definition demo_log1 : LogWriter := (index_insert_plan demo_index demo_key demo_address None demo_log).2.

Lemma demo_bits : bits_ok (bits demo_index).
Proof. split; [reflexivity|discriminate]. Qed.

Lemma demo_overlays_wf : index_wf demo_index empty_overlays.
Proof. split; [apply demo_bits|done|done]. Qed.

Lemma demo_log_wf : index_wf demo_index demo_log.
Proof. split; [apply demo_bits|done|done]. Qed.

Lemma index_record_recovers_witness :
  ∃ os w1, run_index_ops demo_index [IInsert demo_key demo_address] demo_log = (Ok os, w1) ∧
    index_run (lookup_at demo_index demo_log) [IInsert demo_key demo_address] os (lookup_at demo_index w1).
Proof.
  destruct (index_record_recovers demo_index empty_overlays 1 [IInsert demo_key demo_address]) as
    (os & w1 & H1 & H2 & _).
  - apply demo_overlays_wf.
  - reflexivity.
  - split; [discriminate|reflexivity].
  - split; [reflexivity|exact I].
  - exists os, w1. split; [exact H1|exact H2].
Defined.

Lemma index_get_finds_first_witness :
  ∃ e j, get_index demo_index demo_key 0 demo_log = Ok (e, j).
Proof.
  destruct (index_get_finds_first demo_index demo_log demo_key 0) as (e & j & H & _).
  - apply demo_log_wf.
  - exists e, j. exact H.
Defined.


Lemma index_need_reindex_witness :
  ∃ o w', index_insert_plan demo_index demo_key demo_address None demo_log = (Ok o, w') ∧
    (o = NeedReindex → w' = demo_log).
Proof.
  destruct (index_need_reindex demo_index demo_log demo_key demo_address) as (o & w' & H1 & _ & H2 & _).
  - apply demo_log_wf.
  - exists o, w'. split; [exact H1|exact H2].
Defined.

Lemma index_recover_key_witness :
  TableKey.index_from_partial (recover_key_prefix demo_index
    (chunk_index demo_index (TableKey.index_from_partial demo_key))
    (entry_at demo_index demo_log1 (TableKey.index_from_partial demo_key) 0)) =
  key50 (TableKey.index_from_partial demo_key) * 2 ^ 14.
Proof.
  destruct (index_recover_key demo_index demo_index demo_log1 demo_key 0 demo_address) as (_ & H & _).
  - apply demo_bits.
  - apply demo_bits.
  - vm_compute. reflexivity.
  - exact H.
Defined.


Lemma index_validate_too_weak_witness :
  ∃ s, enact_index_plan 65536 (demo_index, LogReader.new (le_encode 8 0) 0 false) = (Undefined, s).
Proof.
  apply (index_validate_too_weak demo_index (LogReader.new (le_encode 8 0) 0 false) [] 65536).
  - apply demo_bits.
  - split; [discriminate|reflexivity].
  - split; [reflexivity|]. cbn. lia.
Defined.
