(* ===== verification/Compress.v ===== *)
(** * Compression of values (src/src/compress.rs)

    The lz4 and snap crates are parameters. *)

From S2P Require Import Prelude.
From S2P Require Import Bytes.
From stdpp Require Import options.
#[local] Set Default Proof Using "Type*".

(** The functions of the crates: [lz4::block::compress] and
    [lz4::block::decompress] (an error is [None]), the snappy frame encoder,
    which writes to memory, and the frame decoder. *)
Class Codecs := {
  lz4_block_compress : bytes → option bytes;
  lz4_block_decompress : bytes → option bytes;
  snap_encode : bytes → bytes;
  snap_decode : bytes → option bytes;
}.

(** What the crates document: decoding what was encoded gives it back. *)
Class CodecLaws `{!Codecs} : Prop := {
  lz4_round_trip : ∀ b c, lz4_block_compress b = Some c → lz4_block_decompress c = Some b;
  snap_round_trip : ∀ b, snap_decode (snap_encode b) = Some b;
}.

(** [#[repr(u8)] enum CompressionType]. *)
Inductive CompressionType := NoCompression | Lz4 | Snappy.

#[global] Instance CompressionType_eq_dec : EqDecision CompressionType.
Proof. solve_decision. Defined.

Module CompressionType.

(** [self as u8]. *)
Definition as_u8 (c : CompressionType) : Z :=
  match c with NoCompression => 0 | Lz4 => 1 | Snappy => 2 end.

(** [impl From<u8> for CompressionType]. *)
Definition from_u8 (z : Z) : outcome CompressionType :=
  if z =? as_u8 NoCompression then Ok NoCompression
  else if z =? as_u8 Lz4 then Ok Lz4
  else if z =? as_u8 Snappy then Ok Snappy
  else Panic.

End CompressionType.

(** [Compress] and its [Compressor], which carries no data besides its kind. *)
Record Compress := MkCompress {
  inner : CompressionType;
  threshold : Z;
}.

Module Compress.

Definition new (kind : CompressionType) (threshold : Z) : Compress := MkCompress kind threshold.

(** [NO_COMPRESSION]. *)
Definition NO_COMPRESSION : Compress := MkCompress NoCompression U32_MAX.

(** [impl From<&Compress> for CompressionType]. *)
Definition kind (c : Compress) : CompressionType := inner c.

Section Codec.
Context `{!Codecs}.

(** [Compress::compress]; [lz4::block::compress(..).unwrap()] panics on an error. *)
Definition compress (c : Compress) (buf : bytes) : outcome bytes :=
  match inner c with
  | NoCompression => Ok buf
  | Lz4 => unwrap (lz4_block_compress buf)
  | Snappy => Ok (snap_encode buf)
  end.

(** [Compress::decompress]. *)
Definition decompress (c : Compress) (buf : bytes) : outcome bytes :=
  match inner c with
  | NoCompression => Ok buf
  | Lz4 => match lz4_block_decompress buf with Some b => Ok b | None => Err Compression end
  | Snappy => match snap_decode buf with Some b => Ok b | None => Err Compression end
  end.

End Codec.
End Compress.

Lemma compression_type_round_trip c : CompressionType.from_u8 (CompressionType.as_u8 c) = Ok c.
Proof. by destruct c. Qed.

Lemma decompress_compress `{!Codecs, !CodecLaws} c b cb :
  Compress.compress c b = Ok cb → Compress.decompress c cb = Ok b.
Proof.
  unfold Compress.compress, Compress.decompress. destruct (inner c).
  - by intros [= ->].
  - destruct (lz4_block_compress b) as [z|] eqn:E; [|done]. intros [= <-].
    by rewrite (lz4_round_trip b z E).
  - intros [= <-]. by rewrite snap_round_trip.
Qed.
