(* ===== verification/Stats.v ===== *)
(** * Column statistics (src/src/stats.rs)

    Atomic counters of 32 and 64 bits, their serialisation in the index file,
    and the accounting of values. The summary text is not modelled. *)

From S2P Require Import Prelude.
From S2P Require Import Bytes.
From S2P Require Import Ids.
From stdpp Require Import options.
#[local] Set Default Proof Using "Type*".

Definition HISTOGRAM_BUCKETS : nat := 1024.
Definition HISTOGRAM_BUCKET_BITS : Z := 5.

(** [TOTAL_SIZE]. *)
Definition TOTAL_SIZE : nat :=
  4 * HISTOGRAM_BUCKETS + 8 * HISTOGRAM_BUCKETS + 8 * SIZE_TIERS + 8 * 11.

(** [ColumnStats]; arrays are lists of the length of the array. *)
Record ColumnStats := MkColumnStats {
  value_histogram : list Z;
  query_histogram : list Z;
  oversized : Z;
  oversized_bytes : Z;
  total_values : Z;
  total_bytes : Z;
  commits : Z;
  inserted_new : Z;
  inserted_overwrite : Z;
  removed_hit : Z;
  removed_miss : Z;
  queries_miss : Z;
  uncompressed_bytes : Z;
  compression_delta : list Z;
}.

(** The scalar counters in the order of the serialisation. *)
Definition scalars (s : ColumnStats) : list Z :=
  [oversized s; oversized_bytes s; total_values s; total_bytes s; commits s; inserted_new s;
   inserted_overwrite s; removed_hit s; removed_miss s; queries_miss s; uncompressed_bytes s].

(** [value_histogram_index]. *)
Definition value_histogram_index (size : Z) : option nat :=
  let bucket := Z.shiftr size HISTOGRAM_BUCKET_BITS in
  if bucket <? Z.of_nat HISTOGRAM_BUCKETS then Some (Z.to_nat bucket) else None.

(** [read_u32], [read_u64] and [read_i64]: the cursor is the remaining data;
    [expect] panics when it is too short. *)
Definition cursor_read (n : nat) : ST bytes Z := fun data =>
  if (n <=? length data)%nat then (Ok (le_decode (take n data)), drop n data) else (Panic, data).
Definition read_u32 : ST bytes Z := cursor_read 4.
Definition read_u64 : ST bytes Z := cursor_read 8.
Definition read_i64 : ST bytes Z := z ← cursor_read 8; mret (swrap64 z).

(** [for item in array.iter_mut() { *item = read(&mut cursor) }]. *)
Fixpoint read_array (n : nat) (read : ST bytes Z) : ST bytes (list Z) :=
  match n with
  | O => mret []
  | S n => z ← read; l ← read_array n read; mret (z :: l)
  end.

Module ColumnStats.

(** [ColumnStats::from_slice]. *)
Definition read_stats : ST bytes ColumnStats :=
  value_histogram ← read_array HISTOGRAM_BUCKETS read_u32;
  query_histogram ← read_array SIZE_TIERS read_u64;
  oversized ← read_u64;
  oversized_bytes ← read_u64;
  total_values ← read_u64;
  total_bytes ← read_u64;
  commits ← read_u64;
  inserted_new ← read_u64;
  inserted_overwrite ← read_u64;
  removed_hit ← read_u64;
  removed_miss ← read_u64;
  queries_miss ← read_u64;
  uncompressed_bytes ← read_u64;
  compression_delta ← read_array HISTOGRAM_BUCKETS read_i64;
  mret (MkColumnStats value_histogram query_histogram oversized oversized_bytes total_values
          total_bytes commits inserted_new inserted_overwrite removed_hit removed_miss
          queries_miss uncompressed_bytes compression_delta).
Definition from_slice (data : bytes) : outcome ColumnStats := (read_stats data).1.

(** [ColumnStats::empty]. *)
Definition empty : ColumnStats :=
  MkColumnStats (replicate HISTOGRAM_BUCKETS 0) (replicate SIZE_TIERS 0) 0 0 0 0 0 0 0 0 0 0 0
    (replicate HISTOGRAM_BUCKETS 0).

(** What [ColumnStats::to_slice] writes, in order; an [i64] is written as its
    two's complement. *)
Definition written (s : ColumnStats) : bytes :=
  concat (le_encode 4 <$> value_histogram s) ++ concat (le_encode 8 <$> query_histogram s) ++
  concat (le_encode 8 <$> scalars s) ++
  concat ((fun z => le_encode 8 (wrap64 z)) <$> compression_delta s).

(** [ColumnStats::to_slice]: panics when the slice is too short, writes the
    first bytes of it otherwise. *)
Definition to_slice (s : ColumnStats) (data : bytes) : outcome bytes :=
  if (length (written s) <=? length data)%nat
  then Ok (written s ++ drop (length (written s)) data) else Panic.

Definition set_scalars (l : list Z) (s : ColumnStats) : ColumnStats :=
  match l with
  | [a; b; c; d; e; f; g; h; i; j; k] =>
      MkColumnStats (value_histogram s) (query_histogram s) a b c d e f g h i j k
        (compression_delta s)
  | _ => s
  end.

(** [x[i].fetch_add(d)] on an array of counters that wrap with [w]. *)
Definition fetch_add (w : Z → Z) (i : nat) (d : Z) (l : list Z) : list Z :=
  alter (fun x => w (x + d)) i l.

(** [ColumnStats::query_hit]. *)
Definition query_hit (size_tier : Z) (s : ColumnStats) : ColumnStats :=
  MkColumnStats (value_histogram s) (fetch_add wrap64 (Z.to_nat size_tier) 1 (query_histogram s))
    (oversized s) (oversized_bytes s) (total_values s) (total_bytes s) (commits s)
    (inserted_new s) (inserted_overwrite s) (removed_hit s) (removed_miss s) (queries_miss s)
    (uncompressed_bytes s) (compression_delta s).

(** [ColumnStats::query_miss]. *)
Definition query_miss (s : ColumnStats) : ColumnStats :=
  MkColumnStats (value_histogram s) (query_histogram s) (oversized s) (oversized_bytes s)
    (total_values s) (total_bytes s) (commits s) (inserted_new s) (inserted_overwrite s)
    (removed_hit s) (removed_miss s) (wrap64 (queries_miss s + 1)) (uncompressed_bytes s)
    (compression_delta s).

(** [ColumnStats::insert]. *)
Definition insert (size compressed : Z) (s : ColumnStats) : ColumnStats :=
  let '(hist, delta, over, over_bytes) :=
    match value_histogram_index size with
    | Some index =>
        (fetch_add wrap32 index 1 (value_histogram s),
         fetch_add swrap64 index (size - compressed) (compression_delta s),
         oversized s, oversized_bytes s)
    | None =>
        (value_histogram s, compression_delta s, wrap64 (oversized s + 1),
         wrap64 (oversized_bytes s + compressed))
    end in
  MkColumnStats hist (query_histogram s) over over_bytes (wrap64 (total_values s + 1))
    (wrap64 (total_bytes s + compressed)) (commits s) (inserted_new s) (inserted_overwrite s)
    (removed_hit s) (removed_miss s) (queries_miss s) (wrap64 (uncompressed_bytes s + size)) delta.

(** [ColumnStats::remove]: [fetch_sub]. *)
Definition remove (size compressed : Z) (s : ColumnStats) : ColumnStats :=
  let '(hist, delta, over, over_bytes) :=
    match value_histogram_index size with
    | Some index =>
        (fetch_add wrap32 index (- 1) (value_histogram s),
         fetch_add swrap64 index (- (size - compressed)) (compression_delta s),
         oversized s, oversized_bytes s)
    | None =>
        (value_histogram s, compression_delta s, wrap64 (oversized s - 1),
         wrap64 (oversized_bytes s - compressed))
    end in
  MkColumnStats hist (query_histogram s) over over_bytes (wrap64 (total_values s - 1))
    (wrap64 (total_bytes s - compressed)) (commits s) (inserted_new s) (inserted_overwrite s)
    (removed_hit s) (removed_miss s) (queries_miss s) (wrap64 (uncompressed_bytes s - size)) delta.

(** Incrementing one of the event counters, by its position in [scalars]. *)
Definition count_event (i : nat) (s : ColumnStats) : ColumnStats :=
  set_scalars (fetch_add wrap64 i 1 (scalars s)) s.

(** [ColumnStats::insert_val]. *)
Definition insert_val (size compressed : Z) (s : ColumnStats) : ColumnStats :=
  insert size compressed (count_event 5 s).

(** [ColumnStats::remove_val]. *)
Definition remove_val (size compressed : Z) (s : ColumnStats) : ColumnStats :=
  remove size compressed (count_event 7 s).

(** [ColumnStats::remove_miss]. *)
Definition remove_miss (s : ColumnStats) : ColumnStats := count_event 8 s.

(** [ColumnStats::replace_val]. *)
Definition replace_val (old old_compressed new_ new_compressed : Z) (s : ColumnStats) : ColumnStats :=
  insert new_ new_compressed (remove old old_compressed (count_event 6 s)).

(** [ColumnStats::commit]. *)
Definition commit (s : ColumnStats) : ColumnStats := count_event 4 s.

End ColumnStats.
