(* ===== verification/StatsThms.v ===== *)
(** * Theorems about the statistics

    The serialised form in the index file is read back, and the counters
    account for the values that are stored. *)

From S2P Require Import Prelude.
From S2P Require Import Bytes.
From S2P Require Import Ids.
From S2P Require Import Stats.
From stdpp Require Import options.
#[local] Set Default Proof Using "Type*".

(** ** Serialisation *)

Definition is_i64 (z : Z) : Prop := - 2 ^ 63 ≤ z < 2 ^ 63.

Record stats_wf (s : ColumnStats) : Prop := {
  sw_values : length (value_histogram s) = HISTOGRAM_BUCKETS ∧ Forall is_u32 (value_histogram s);
  sw_queries : length (query_histogram s) = SIZE_TIERS ∧ Forall is_u64 (query_histogram s);
  sw_deltas : length (compression_delta s) = HISTOGRAM_BUCKETS ∧ Forall is_i64 (compression_delta s);
  sw_scalars : Forall is_u64 (scalars s);
}.

Lemma cursor_read_field n z (rest : bytes) : 0 ≤ z < 2 ^ (8 * Z.of_nat n) →
  cursor_read n (le_encode n z ++ rest) = (Ok z, rest).
Proof.
  intros Hz. unfold cursor_read. destruct (Nat.leb_spec n (length (le_encode n z ++ rest))) as [_|Hl].
  - rewrite take_app_length', drop_app_length' by len. by rewrite le_decode_encode_small.
  - rewrite length_app, length_le_encode in Hl. lia.
Qed.

Lemma read_array_spec (enc : Z → bytes) (P : Z → Prop) (read : ST bytes Z) (l : list Z) (rest : bytes) :
  (∀ z rest, P z → read (enc z ++ rest) = (Ok z, rest)) → Forall P l →
  read_array (length l) read (concat (enc <$> l) ++ rest) = (Ok l, rest).
Proof.
  intros Hread Hl. induction Hl as [|z l Hz Hl IH]; [done|].
  cbn [length read_array fmap list_fmap concat]. rewrite <- (assoc_L (++)).
  erewrite ST_bind_Ok by (by apply Hread). by erewrite ST_bind_Ok by exact IH.
Qed.

Lemma swrap_wrap64 z : is_i64 z → swrap64 (wrap64 z) = z.
Proof.
  intros Hz. unfold swrap64, wrap64, is_i64 in *. rewrite Zplus_mod_idemp_l, Z.mod_small by lia. lia.
Qed.

Lemma read_i64_field z (rest : bytes) : is_i64 z →
  read_i64 (le_encode 8 (wrap64 z) ++ rest) = (Ok z, rest).
Proof.
  intros Hz. unfold read_i64.
  erewrite ST_bind_Ok by (apply cursor_read_field; apply wrap64_range).
  by rewrite swrap_wrap64.
Qed.

Lemma read_scalars a b c d e f g h i j k (rest : bytes) {A} (m : list Z → ST bytes A) :
  Forall is_u64 [a; b; c; d; e; f; g; h; i; j; k] →
  (a' ← read_u64; b' ← read_u64; c' ← read_u64; d' ← read_u64; e' ← read_u64; f' ← read_u64;
   g' ← read_u64; h' ← read_u64; i' ← read_u64; j' ← read_u64; k' ← read_u64;
   m [a'; b'; c'; d'; e'; f'; g'; h'; i'; j'; k'])
    (concat (le_encode 8 <$> [a; b; c; d; e; f; g; h; i; j; k]) ++ rest) =
  m [a; b; c; d; e; f; g; h; i; j; k] rest.
Proof.
  intros Hall. cbn [fmap list_fmap concat]. rewrite app_nil_r, <- !(assoc_L (++)).
  unfold read_u64. repeat match goal with
  | H : Forall _ (_ :: _) |- _ => apply Forall_cons in H as [? H]
  end.
  do 11 (erewrite ST_bind_Ok by (by apply cursor_read_field)). done.
Qed.

Lemma length_concat_encode n (enc : Z → bytes) (l : list Z) : (∀ z, length (enc z) = n) →
  length (concat (enc <$> l)) = (n * length l)%nat.
Proof.
  intros He. induction l as [|z l IH]; cbn [fmap list_fmap concat length]; [lia|].
  rewrite length_app, He. change (list_fmap _ _ enc l) with (enc <$> l). rewrite IH. lia.
Qed.

(** The statistics survive a restart: the bytes that [to_slice] writes fill
    exactly [TOTAL_SIZE] bytes and [from_slice] reads the same counters back. *)
Theorem stats_round_trip (s : ColumnStats) (data : bytes) :
  stats_wf s → length data = TOTAL_SIZE →
  ∃ d, ColumnStats.to_slice s data = Ok d ∧ length d = TOTAL_SIZE ∧
    ColumnStats.from_slice d = Ok s.
Proof.
  intros Hwf Hdata. destruct (sw_values s Hwf) as [Hv1 Hv2], (sw_queries s Hwf) as [Hq1 Hq2],
    (sw_deltas s Hwf) as [Hd1 Hd2]. pose proof (sw_scalars s Hwf) as Hs.
  assert (Hlen : length (ColumnStats.written s) = TOTAL_SIZE).
  { unfold ColumnStats.written. rewrite !length_app.
    rewrite (length_concat_encode 4), !(length_concat_encode 8), Hv1, Hq1, Hd1 by (intros; len). done. }
  exists (ColumnStats.written s). unfold ColumnStats.to_slice. rewrite Hlen, Hdata, Nat.leb_refl.
  rewrite drop_ge, app_nil_r by lia. split_and!; [done|done|].
  unfold ColumnStats.from_slice, ColumnStats.read_stats, ColumnStats.written.
  rewrite <- Hv1 at 1. erewrite ST_bind_Ok
    by (apply (read_array_spec (le_encode 4) is_u32); [intros; by apply cursor_read_field|done]).
  rewrite <- Hq1 at 1. erewrite ST_bind_Ok
    by (apply (read_array_spec (le_encode 8) is_u64); [intros; by apply cursor_read_field|done]).
  unfold scalars in *.
  pose proof (fun A m => @read_scalars _ _ _ _ _ _ _ _ _ _ _
    (concat ((fun z => le_encode 8 (wrap64 z)) <$> compression_delta s)) A m Hs) as Hrs.
  rewrite (Hrs _ (fun l => match l with
    | [a; b; c; d; e; f; g; h; i; j; k] =>
        compression_delta ← read_array HISTOGRAM_BUCKETS read_i64;
        mret (MkColumnStats (value_histogram s) (query_histogram s) a b c d e f g h i j k compression_delta)
    | _ => lift_st Panic end)).
  rewrite <- Hd1 at 1. rewrite <- (app_nil_r (concat _)).
  erewrite ST_bind_Ok by (apply (read_array_spec (fun z => le_encode 8 (wrap64 z)) is_i64);
    [intros; by apply read_i64_field|done]).
  by destruct s.
Qed.

(** ** Accounting *)

(** A stored value is its size and its size after compression. *)
Definition tally (f : Z * Z → Z) (l : list (Z * Z)) : Z := foldr (fun x n => f x + n) 0 l.

#[global] Instance tally_perm f : Proper ((≡ₚ) ==> (=)) (tally f).
Proof.
  intros l l' Hp. unfold tally. induction Hp as [|x l l' _ IH|x y l|l l1 l2 _ IH1 _ IH2]; cbn; lia.
Qed.

Definition in_bucket (b : option nat) (f : Z * Z → Z) (x : Z * Z) : Z :=
  if decide (value_histogram_index x.1 = b) then f x else 0.

Definition per_bucket (w : Z → Z) (f : Z * Z → Z) (l : list (Z * Z)) : list Z :=
  (fun i => w (tally (in_bucket (Some i) f) l)) <$> seq 0 HISTOGRAM_BUCKETS.

(** The counters are those of the stored values [l], modulo their widths. *)
Record accounts (s : ColumnStats) (l : list (Z * Z)) : Prop := {
  ac_values : value_histogram s = per_bucket wrap32 (fun _ => 1) l;
  ac_deltas : compression_delta s = per_bucket swrap64 (fun x => x.1 - x.2) l;
  ac_oversized : oversized s = wrap64 (tally (in_bucket None (fun _ => 1)) l);
  ac_oversized_bytes : oversized_bytes s = wrap64 (tally (in_bucket None snd) l);
  ac_total : total_values s = wrap64 (tally (fun _ => 1) l);
  ac_bytes : total_bytes s = wrap64 (tally snd l);
  ac_uncompressed : uncompressed_bytes s = wrap64 (tally fst l);
}.

Lemma accounts_perm s l l' : l ≡ₚ l' → accounts s l → accounts s l'.
Proof.
  intros Hp [H1 H2 H3 H4 H5 H6 H7]. split.
  1, 2: unfold per_bucket in *.
  1: rewrite H1. 2: rewrite H2.
  1, 2: apply list_fmap_ext; intros ? i _; by rewrite Hp.
  all: by rewrite <- Hp.
Qed.

(** A counter [w (tally f l)] to which [f x] is added or from which it is
    subtracted. *)
Definition wraps (w : Z → Z) : Prop := ∀ a b, w (w a + b) = w (a + b).

Lemma wraps64 : wraps wrap64.
Proof. intros a b. unfold wrap64. apply Zplus_mod_idemp_l. Qed.
Lemma wraps32 : wraps wrap32.
Proof. intros a b. unfold wrap32. apply Zplus_mod_idemp_l. Qed.
Lemma swraps64 : wraps swrap64.
Proof.
  intros a b. unfold swrap64. f_equal.
  replace ((a + 2 ^ 63) mod 2 ^ 64 - 2 ^ 63 + b + 2 ^ 63) with ((a + 2 ^ 63) mod 2 ^ 64 + b) by lia.
  rewrite Zplus_mod_idemp_l. f_equal. lia.
Qed.

Lemma tally_cons f x l : tally f (x :: l) = f x + tally f l.
Proof. done. Qed.

Lemma lookup_per_bucket w f l i :
  per_bucket w f l !! i =
  if (i <? HISTOGRAM_BUCKETS)%nat then Some (w (tally (in_bucket (Some i) f) l)) else None.
Proof.
  unfold per_bucket. rewrite list_lookup_fmap. destruct (Nat.ltb_spec i HISTOGRAM_BUCKETS) as [Hi|Hi].
  - by rewrite lookup_seq_lt by done.
  - by rewrite lookup_seq_ge by done.
Qed.

(** Adding the value [x] changes its own bucket only. *)
Lemma per_bucket_cons w f x l : wraps w →
  per_bucket w f (x :: l) =
  match value_histogram_index x.1 with
  | Some i => ColumnStats.fetch_add w i (f x) (per_bucket w f l)
  | None => per_bucket w f l
  end.
Proof.
  intros Hw. apply list_eq. intros j. rewrite lookup_per_bucket. unfold ColumnStats.fetch_add.
  assert (Hc : tally (in_bucket (Some j) f) (x :: l) =
    (if decide (value_histogram_index x.1 = Some j) then f x else 0) + tally (in_bucket (Some j) f) l)
    by done.
  destruct (value_histogram_index x.1) as [i|].
  - rewrite list_lookup_alter. destruct (decide (i = j)) as [->|Hne];
      rewrite lookup_per_bucket; destruct (j <? HISTOGRAM_BUCKETS)%nat; try done;
      cbn [fmap option_fmap option_map]; f_equal.
    + rewrite Hw, Hc, decide_True by done. f_equal. lia.
    + rewrite Hc, decide_False by congruence. done.
  - rewrite lookup_per_bucket, Hc, decide_False by done. by destruct (j <? HISTOGRAM_BUCKETS)%nat.
Qed.

Lemma per_bucket_uncons w f x l : wraps w →
  match value_histogram_index x.1 with
  | Some i => ColumnStats.fetch_add w i (- f x) (per_bucket w f (x :: l))
  | None => per_bucket w f (x :: l)
  end = per_bucket w f l.
Proof.
  intros Hw. rewrite per_bucket_cons by done. destruct (value_histogram_index x.1) as [i|]; [|done].
  apply list_eq. intros j. unfold ColumnStats.fetch_add. rewrite list_lookup_alter.
  destruct (decide (i = j)) as [->|Hne]; [|by rewrite list_lookup_alter, decide_False].
  rewrite list_lookup_alter, decide_True, lookup_per_bucket by done.
  destruct (j <? HISTOGRAM_BUCKETS)%nat; [|done].
  cbn [fmap option_fmap option_map]. f_equal.
  rewrite Hw, <- Z.add_assoc, Hw. f_equal. lia.
Qed.

Lemma wrap64_sub a b : wrap64 (wrap64 a - b) = wrap64 (a - b).
Proof. unfold Z.sub. apply wraps64. Qed.

Lemma accounts_insert s l x : accounts s l → accounts (ColumnStats.insert x.1 x.2 s) (x :: l).
Proof.
  destruct x as [a b]. intros [H1 H2 H3 H4 H5 H6 H7]. unfold ColumnStats.insert.
  pose proof (per_bucket_cons wrap32 (fun _ => 1) (a, b) l wraps32) as P1.
  pose proof (per_bucket_cons swrap64 (fun x => x.1 - x.2) (a, b) l swraps64) as P2. cbn [fst snd] in *.
  destruct (value_histogram_index a) as [i|] eqn:E; split; cbn [value_histogram compression_delta
    oversized oversized_bytes total_values total_bytes uncompressed_bytes]; rewrite ?P1, ?P2, ?H1, ?H2; try done.
  all: rewrite ?tally_cons; try (unfold in_bucket at 1); cbn [fst snd]; rewrite ?E; cbn [decide].
  all: rewrite ?H3, ?H4, ?H5, ?H6, ?H7, ?wraps64; f_equal; rewrite ?decide_True by done;
    rewrite ?decide_False by done; lia.
Qed.

Lemma accounts_remove s l x : accounts s (x :: l) → accounts (ColumnStats.remove x.1 x.2 s) l.
Proof.
  destruct x as [a b]. intros [H1 H2 H3 H4 H5 H6 H7]. unfold ColumnStats.remove.
  pose proof (per_bucket_uncons wrap32 (fun _ => 1) (a, b) l wraps32) as P1.
  pose proof (per_bucket_uncons swrap64 (fun x => x.1 - x.2) (a, b) l swraps64) as P2. cbn [fst snd] in *.
  rewrite tally_cons in H3, H4, H5, H6, H7.
  unfold in_bucket at 1 in H3. unfold in_bucket at 1 in H4. cbn [fst snd] in *.
  destruct (value_histogram_index a) as [i|] eqn:E; split; cbn [value_histogram compression_delta
    oversized oversized_bytes total_values total_bytes uncompressed_bytes];
    rewrite ?H1, ?H2, ?P1, ?P2; try done.
  all: rewrite ?H3, ?H4, ?H5, ?H6, ?H7, ?wrap64_sub; f_equal; rewrite ?decide_True by done;
    rewrite ?decide_False by done; lia.
Qed.

Lemma accounts_event s l i : (i = 4 ∨ i = 5 ∨ i = 6 ∨ i = 7 ∨ i = 8)%nat → accounts s l →
  accounts (ColumnStats.count_event i s) l.
Proof. intros Hi [H1 H2 H3 H4 H5 H6 H7]. destruct Hi as [->|[->|[->|[->| ->]]]]; by split. Qed.

(** The calls that src/src/column.rs makes. *)
Inductive StatsEvent :=
| SInsert (v : Z * Z)
| SRemove (v : Z * Z)
| SRemoveMiss
| SReplace (old new_ : Z * Z)
| SCommit.

Definition stats_event (e : StatsEvent) (s : ColumnStats) : ColumnStats :=
  match e with
  | SInsert v => ColumnStats.insert_val v.1 v.2 s
  | SRemove v => ColumnStats.remove_val v.1 v.2 s
  | SRemoveMiss => ColumnStats.remove_miss s
  | SReplace old new_ => ColumnStats.replace_val old.1 old.2 new_.1 new_.2 s
  | SCommit => ColumnStats.commit s
  end.

(** The stored values before and after some events: only a stored value can be
    removed or replaced. *)
Inductive stored_after : list (Z * Z) → list StatsEvent → list (Z * Z) → Prop :=
| sa_nil l : stored_after l [] l
| sa_insert l v es l' : stored_after (v :: l) es l' → stored_after l (SInsert v :: es) l'
| sa_remove l v l1 es l' : l ≡ₚ v :: l1 → stored_after l1 es l' → stored_after l (SRemove v :: es) l'
| sa_miss l es l' : stored_after l es l' → stored_after l (SRemoveMiss :: es) l'
| sa_replace l old new_ l1 es l' : l ≡ₚ old :: l1 → stored_after (new_ :: l1) es l' →
    stored_after l (SReplace old new_ :: es) l'
| sa_commit l es l' : stored_after l es l' → stored_after l (SCommit :: es) l'.

(** C31. Accounting: after any sequence of insertions, removals and replacements
    of stored values, every counter and every bucket of the histograms is the
    corresponding count or sum over the values that are stored. *)
Theorem stats_account (es : list StatsEvent) (s : ColumnStats) (l l' : list (Z * Z)) :
  accounts s l → stored_after l es l' → accounts (foldl (fun s e => stats_event e s) s es) l'.
Proof.
  intros Ha Hst. revert s Ha. induction Hst as
    [l|l v es l' _ IH|l v l1 es l' Hp _ IH|l es l' _ IH|l old new_ l1 es l' Hp _ IH|l es l' _ IH];
    intros s Ha; cbn [foldl]; [done|apply IH..].
  - apply accounts_insert, accounts_event; [lia|done].
  - apply accounts_remove, accounts_event; [lia|by eapply accounts_perm].
  - apply accounts_event; [lia|done].
  - apply accounts_insert, accounts_remove, accounts_event; [lia|by eapply accounts_perm].
  - apply accounts_event; [lia|done].
Qed.

(** ** The theorems at the empty statistics *)

Lemma stats_empty_wf : stats_wf ColumnStats.empty.
Proof.
  split; [split; [apply length_replicate|apply Forall_replicate]..|].
  4: repeat apply Forall_cons_2; [..|apply Forall_nil_2].
  all: unfold is_u32, is_u64, is_i64; cbn; lia.
Qed.

Lemma accounts_empty : accounts ColumnStats.empty [].
Proof.
  split; try done; unfold per_bucket, tally; cbn [foldr value_histogram compression_delta ColumnStats.empty];
    apply list_eq; intros i; rewrite list_lookup_fmap;
    (destruct (decide (i < HISTOGRAM_BUCKETS)%nat);
      [rewrite lookup_replicate_2, lookup_seq_lt by done|
       rewrite lookup_replicate_None_2, lookup_seq_ge by lia]; done).
Qed.

Lemma stats_round_trip_witness :
  ∃ d, ColumnStats.to_slice ColumnStats.empty (replicate TOTAL_SIZE x00) = Ok d ∧
    ColumnStats.from_slice d = Ok ColumnStats.empty.
Proof.
  destruct (stats_round_trip ColumnStats.empty (replicate TOTAL_SIZE x00)) as (d & H1 & _ & H2).
  - apply stats_empty_wf.
  - apply length_replicate.
  - exists d. split; [exact H1|exact H2].
Defined.

Lemma stats_account_witness :
  accounts (stats_event (SReplace (100, 40) (7, 7)) (stats_event (SInsert (100, 40)) ColumnStats.empty))
    [(7, 7)].
Proof.
  apply (stats_account [SInsert (100, 40); SReplace (100, 40) (7, 7)] ColumnStats.empty []).
  - apply accounts_empty.
  - apply sa_insert. eapply sa_replace; [reflexivity|]. apply sa_nil.
Defined.
