(* ===== verification/Options.v ===== *)
(** * Options and metadata (src/src/options.rs)

    Column options as a line of text, the metadata file of a database, and its
    validation against the options it is opened with. *)

From Stdlib Require Import Ascii String.
From S2P Require Import Prelude.
From S2P Require Import Bytes.
From S2P Require Import Compress.
From stdpp Require Import options.
#[local] Set Default Proof Using "Type*".
#[local] Open Scope string_scope.
#[local] Open Scope Z_scope.

(** The functions of the hex crate. *)
Class Hex := {
  hex_encode : bytes → string;
  hex_decode : string → option bytes;
}.

(** ** Text *)

(** [str::split(sep)]: the parts between the matches of [sep], which are found
    from the left and do not overlap. [skip] characters of a match are left. *)
Fixpoint split_from (sep : string) (skip : nat) (part : string) (s : string) : list string :=
  match s with
  | EmptyString => [part]
  | String a s' =>
      match skip with
      | S skip' => split_from sep skip' part s'
      | O =>
          if String.prefix sep s
          then part :: split_from sep (String.length sep - 1) "" s'
          else split_from sep 0 (part ++ String a "") s'
      end
  end.
Definition split (sep s : string) : list string := split_from sep 0 "" s.

Definition newline : ascii := ascii_of_nat 10.
Definition carriage_return : ascii := ascii_of_nat 13.
Definition quote : string := String (ascii_of_nat 34) "".

(** A line without the carriage return before its end. *)
Fixpoint trim_cr (s : string) : string :=
  match s with
  | EmptyString => ""
  | String a "" => if ascii_dec a carriage_return then "" else s
  | String a s' => String a (trim_cr s')
  end.

(** [BufRead::lines]; the last line may lack its end. *)
Fixpoint lines_from (part s : string) : list string :=
  match s with
  | EmptyString => if (part =? "")%string then [] else [part]
  | String a s' =>
      if ascii_dec a newline then trim_cr part :: lines_from "" s'
      else lines_from (part ++ String a "") s'
  end.
Definition lines (s : string) : list string := lines_from "" s.

(** [Display] of an unsigned integer. *)
Definition digit (z : Z) : ascii := ascii_of_nat (Z.to_nat (48 + z)).
Fixpoint decimal_from (fuel : nat) (z : Z) (acc : string) : string :=
  match fuel with
  | O => acc
  | S fuel' =>
      let acc' := String (digit (z mod 10)) acc in
      if z / 10 =? 0 then acc' else decimal_from fuel' (z / 10) acc'
  end.

(** A [u64] has at most 20 digits. *)
Definition decimal (z : Z) : string := decimal_from 20 z "".

Definition digit_value (a : ascii) : option Z :=
  let n := Z.of_nat (nat_of_ascii a) in
  if (48 <=? n) && (n <=? 57) then Some (n - 48) else None.

(** The digits of [from_str]: an invalid digit or an overflow is an error. *)
Fixpoint parse_digits (max acc : Z) (s : string) : option Z :=
  match s with
  | EmptyString => Some acc
  | String a s' =>
      d ← digit_value a;
      if acc * 10 + d <=? max then parse_digits max (acc * 10 + d) s' else None
  end.

(** [uN::from_str]: a sign [+] is accepted, the empty string is not. *)
Definition parse_unsigned (max : Z) (s : string) : option Z :=
  match s with
  | EmptyString => None
  | String "+" EmptyString => None
  | String "+" s' => parse_digits max 0 s'
  | _ => parse_digits max 0 s
  end.

(** [bool]: [Display] and [from_str]. *)
Definition bool_str (b : bool) : string := if b then "true" else "false".
Definition parse_bool (s : string) : option bool :=
  if (s =? "true")%string then Some true
  else if (s =? "false")%string then Some false else None.

(** ** [ColumnOptions] *)

Record ColumnOptions := MkColumnOptions {
  preimage : bool;
  uniform : bool;
  ref_counted_opt : bool;
  compression : CompressionType;
  compression_threshold : Z;
  btree_index : bool;
}.

#[global] Instance ColumnOptions_eq_dec : EqDecision ColumnOptions.
Proof. solve_decision. Defined.

Module ColumnOptions.

(** [impl Default for ColumnOptions]. *)
Definition default_options : ColumnOptions := MkColumnOptions false false false NoCompression 4096 false.

(** [ColumnOptions::as_string]. *)
Definition as_string (o : ColumnOptions) : string :=
  "preimage: " ++ bool_str (preimage o) ++ ", uniform: " ++ bool_str (uniform o) ++
  ", refc: " ++ bool_str (ref_counted_opt o) ++
  ", compression: " ++ decimal (CompressionType.as_u8 (compression o)) ++
  ", ordered: " ++ bool_str (btree_index o).

(** [ColumnOptions::is_valid]. *)
Definition is_valid (o : ColumnOptions) : bool := negb (btree_index o && preimage o).

(** The map collected from the [key: value] pairs; a later pair replaces an
    earlier one with the same key. *)
Definition pair_of (s : string) : option (string * string) :=
  match split ": " s with
  | k :: v :: _ => Some (k, v)
  | _ => None
  end.
Definition pairs (s : string) : gmap string string :=
  foldl (fun m p => match pair_of p with Some (k, v) => <[k := v]> m | None => m end) ∅ (split ", " s).

(** [ColumnOptions::from_string]: [None] when a field is missing; an unknown
    compression panics. *)
Definition from_string (s : string) : outcome (option ColumnOptions) :=
  match split "sizes: " s with
  | [] => Ok None
  | vals :: _ =>
      let vals := pairs vals in
      match vals !! "preimage" ≫= parse_bool with
      | None => Ok None
      | Some preimage =>
          match vals !! "uniform" ≫= parse_bool with
          | None => Ok None
          | Some uniform =>
              match vals !! "refc" ≫= parse_bool with
              | None => Ok None
              | Some ref_counted =>
                  let compression :=
                    default 0 (vals !! "compression" ≫= parse_unsigned (2 ^ 8 - 1)) in
                  let btree_index := default false (vals !! "ordered" ≫= parse_bool) in
                  compression ← CompressionType.from_u8 compression;
                  Ok (Some (MkColumnOptions preimage uniform ref_counted compression
                              (compression_threshold default_options) btree_index))
              end
          end
      end
  end.

End ColumnOptions.

(** ** [Options] and [Metadata] *)

Definition CURRENT_VERSION : Z := 7.
Definition LAST_SUPPORTED_VERSION : Z := 4.

(** [type Salt = [u8; 32]]. *)
Definition SALT_SIZE : nat := 32.

(** The path is the directory that the files belong to. *)
Record Options := MkOptions {
  columns : list ColumnOptions;
  sync_wal_opt : bool;
  sync_data : bool;
  stats_opt : bool;
  salt_opt : option bytes;
}.

Record Metadata := MkMetadata {
  meta_salt : bytes;
  meta_version : Z;
  meta_columns : list ColumnOptions;
}.

Module Options.

(** [Options::with_columns]. *)
Definition with_columns (num_columns : nat) : Options :=
  MkOptions (replicate num_columns ColumnOptions.default_options) true true true None.

(** [Options::is_valid]. *)
Definition is_valid (o : Options) : bool := forallb ColumnOptions.is_valid (columns o).

Section File.
Context `{!Hex}.

(** [writeln!]. *)
Definition line (s : string) : string := s ++ String newline "".

Fixpoint column_lines (i : Z) (l : list ColumnOptions) : string :=
  match l with
  | [] => ""
  | c :: l => line ("col" ++ decimal i ++ "=" ++ ColumnOptions.as_string c) ++ column_lines (i + 1) l
  end.

(** [Options::write_metadata_file_with_version]: the content of the file. *)
Definition write_metadata_with_version (o : Options) (salt : bytes) (version : option Z) : string :=
  let version := default CURRENT_VERSION version in
  line ("version=" ++ decimal version) ++ line ("salt=" ++ hex_encode salt) ++
  column_lines 0 (columns o).

(** [Options::write_metadata_file]. *)
Definition write_metadata_file (o : Options) (salt : bytes) : string :=
  line ("version=" ++ decimal CURRENT_VERSION) ++ line ("salt=" ++ hex_encode salt) ++
  column_lines 0 (columns o).

(** The loop over the lines: salt, columns and version so far. *)
Definition read_line (st : option bytes * list ColumnOptions * Z) (l : string)
    : outcome (option bytes * list ColumnOptions * Z) :=
  let '(salt, cols, version) := st in
  match split "=" l with
  | k :: v :: _ =>
      if (k =? "version")%string then
        match parse_unsigned (2 ^ 32 - 1) v with
        | Some version => Ok (salt, cols, version)
        | None => Err (Corruption "Bad version string")
        end
      else if (k =? "salt")%string then
        match hex_decode v with
        | Some s => _ ← rust_assert (length s =? SALT_SIZE)%nat; Ok (Some s, cols, version)
        | None => Err (Corruption "Bad salt string")
        end
      else if String.prefix "col" k then
        col ← ColumnOptions.from_string v;
        match col with
        | Some col => Ok (salt, cols ++ [col], version)%list
        | None => Err (Corruption "Bad column metadata")
        end
      else Ok (salt, cols, version)
  | _ => Err (Corruption "Bad metadata")
  end.
Fixpoint read_lines (ls : list string) (st : option bytes * list ColumnOptions * Z)
    : outcome (option bytes * list ColumnOptions * Z) :=
  match ls with
  | [] => Ok st
  | l :: ls => st ← read_line st l; read_lines ls st
  end.

(** [Options::load_metadata_file] on the content of the file, if it exists. *)
Definition load_metadata_file (file : option string) : outcome (option Metadata) :=
  match file with
  | None => Ok None
  | Some s =>
      '(salt, cols, version) ← read_lines (lines s) (None, [], 0);
      if version <? LAST_SUPPORTED_VERSION then
        Err (InvalidConfiguration ("Unsupported database version " ++ decimal version ++
               ". Expected " ++ decimal CURRENT_VERSION))
      else
        match salt with
        | Some salt => Ok (Some (MkMetadata salt version cols))
        | None => Err (InvalidConfiguration "Missing salt value")
        end
  end.

(** The comparison of the columns; [c] is the number of the first. *)
Fixpoint check_columns (c : Z) (meta own : list ColumnOptions) : outcome unit :=
  match meta, own with
  | m :: meta, o :: own =>
      if decide (m = o) then check_columns (c + 1) meta own
      else Err (InvalidConfiguration ("Column config mismatch for column " ++ decimal c ++
             ". Expected " ++ quote ++ ColumnOptions.as_string o ++ quote ++ ", got " ++ quote ++
             ColumnOptions.as_string m ++ quote))
  | _, _ => Ok tt
  end.

(** [Options::load_and_validate_metadata]: the state is the metadata file,
    [random] the salt drawn when none is given. *)
Definition load_and_validate_metadata (o : Options) (random : bytes) (create : bool)
    : ST (option string) Metadata :=
  file ← get_st;
  meta ← lift_st (load_metadata_file file);
  match meta with
  | Some meta =>
      if (length (meta_columns meta) =? length (columns o))%nat then
        _ ← lift_st (check_columns 0 (meta_columns meta) (columns o));
        mret meta
      else lift_st (Err (InvalidConfiguration "Column config mismatch"))
  | None =>
      if create then
        let s := default random (salt_opt o) in
        _ ← put_st (Some (write_metadata_file o s));
        mret (MkMetadata s CURRENT_VERSION (columns o))
      else lift_st (Err (InvalidConfiguration
             "Database does not exist. To create a new one, use open_or_create"))
  end.

End File.
End Options.
