(* ===== verification/OptionsThms.v ===== *)
(** * Theorems about options and metadata *)

From Stdlib Require Import Ascii String.
From S2P Require Import Prelude.
From S2P Require Import Bytes.
From S2P Require Import Compress.
From S2P Require Import Options.
From stdpp Require Import options.
#[local] Set Default Proof Using "Type*".
#[local] Open Scope string_scope.
#[local] Open Scope Z_scope.

(** ** Characters *)

Fixpoint str_all (P : ascii → bool) (s : string) : bool :=
  match s with
  | EmptyString => true
  | String a s => P a && str_all P s
  end.

(** Characters that do not end a line, and those that do not end a key either. *)
Definition inline (a : ascii) : bool :=
  negb (bool_decide (a = newline)) && negb (bool_decide (a = carriage_return)).
Definition plain (a : ascii) : bool := inline a && negb (bool_decide (a = "="%char)).

Lemma append_cons a (s t : string) : String a s ++ t = String a (s ++ t).
Proof. done. Qed.

Lemma append_nil_l (s : string) : "" ++ s = s.
Proof. done. Qed.

Lemma str_all_app P s t : str_all P (s ++ t) = str_all P s && str_all P t.
Proof. induction s as [|a s IH]; [done|]. rewrite append_cons. cbn [str_all]. by rewrite IH, andb_assoc. Qed.

Lemma str_all_impl (P Q : ascii → bool) s : (∀ a, P a = true → Q a = true) →
  str_all P s = true → str_all Q s = true.
Proof.
  intros HPQ. induction s as [|a s IH]; [done|]. cbn.
  intros [H1 H2]%andb_true_iff. rewrite HPQ by done. by apply IH.
Qed.

Lemma append_assoc (a b c : string) : (a ++ b) ++ c = a ++ (b ++ c).
Proof. induction a as [|x a IH]; [done|]. by rewrite !append_cons, IH. Qed.

Lemma append_nil (a : string) : a ++ "" = a.
Proof. induction a as [|x a IH]; [done|]. by rewrite !append_cons, IH. Qed.

(** Splitting at [=]. *)
Lemma prefix_plain a s : plain a = true → String.prefix "=" (String a s) = false.
Proof.
  intros Ha. cbn [String.prefix]. destruct (ascii_dec "="%char a) as [<-|]; [by vm_compute in Ha|done].
Qed.

Lemma split_from_plain part s : str_all plain s = true → split_from "=" 0 part s = [part ++ s].
Proof.
  revert part. induction s as [|a s IH]; intros part; cbn [str_all]; [by rewrite append_nil|].
  intros [Ha Hs]%andb_true_iff. cbn [split_from]. rewrite prefix_plain, IH by done.
  by rewrite append_assoc.
Qed.

Lemma split_eq k v : str_all plain k = true → str_all plain v = true → split "=" (k ++ "=" ++ v) = [k; v].
Proof.
  intros Hk Hv. unfold split. change (k ++ "=" ++ v) with (k ++ String "="%char v).
  enough (H : ∀ part, split_from "=" 0 part (k ++ String "="%char v) = [part ++ k; v]) by apply (H "").
  induction k as [|a k IH]; intros part.
  - rewrite append_nil_l, append_nil. cbn [split_from String.prefix String.length Nat.sub].
    destruct (ascii_dec "="%char "="%char); [|done].
    replace (String.prefix "" v) with true by (by destruct v). by rewrite split_from_plain.
  - cbn [str_all] in Hk. apply andb_true_iff in Hk as [Ha Hk].
    rewrite append_cons. cbn [split_from]. rewrite prefix_plain, IH by done.
    by rewrite append_assoc.
Qed.

(** Splitting into lines. *)
Lemma plain_inline s : str_all plain s = true → str_all inline s = true.
Proof. apply str_all_impl. unfold plain. by intros a [? _]%andb_true_iff. Qed.

Lemma trim_cr_inline s : str_all inline s = true → trim_cr s = s.
Proof.
  induction s as [|a s IH]; [done|]. cbn [str_all]. intros [Ha Hs]%andb_true_iff.
  destruct s as [|b s].
  - cbn. destruct (ascii_dec a carriage_return) as [->|]; [by vm_compute in Ha|done].
  - cbn [trim_cr] in *. by rewrite IH.
Qed.

Lemma lines_line s rest : str_all inline s = true → lines (Options.line s ++ rest) = s :: lines rest.
Proof.
  intros Hs. unfold lines, Options.line. rewrite append_assoc, append_cons, append_nil_l.
  enough (H : ∀ part, str_all inline part = true →
    lines_from part (s ++ String newline rest) = (part ++ s) :: lines_from "" rest) by by apply (H "").
  induction s as [|a s IH]; intros part Hp; rewrite ?append_nil_l, ?append_cons; cbn [lines_from].
  - destruct (ascii_dec newline newline); [|done]. by rewrite append_nil, trim_cr_inline.
  - cbn [str_all] in Hs. apply andb_true_iff in Hs as [Ha Hs].
    destruct (ascii_dec a newline) as [->|]; [by vm_compute in Ha|].
    rewrite IH; [by rewrite append_assoc|done|]. rewrite str_all_app. cbn. by rewrite Hp, Ha.
Qed.

(** ** Numbers *)

Definition is_digit (a : ascii) : bool := bool_decide (is_Some (digit_value a)).

Lemma digit_value_digit z : 0 ≤ z < 10 → digit_value (digit z) = Some z.
Proof.
  intros Hz. assert (H : z = 0 ∨ z = 1 ∨ z = 2 ∨ z = 3 ∨ z = 4 ∨ z = 5 ∨ z = 6 ∨ z = 7 ∨ z = 8 ∨ z = 9)
    by lia. by repeat destruct H as [->|H]; [..|subst].
Qed.

Lemma is_digit_digit z : 0 ≤ z < 10 → is_digit (digit z) = true.
Proof. intros Hz. unfold is_digit. by rewrite digit_value_digit. Qed.

Lemma digit_plain a : is_digit a = true → plain a = true.
Proof. destruct a as [[] [] [] [] [] [] [] []]; by vm_compute. Qed.

Lemma decimal_from_digits fuel : ∀ z acc, 0 ≤ z → str_all is_digit acc = true →
  str_all is_digit (decimal_from fuel z acc) = true.
Proof.
  induction fuel as [|fuel IH]; intros z acc Hz Hacc; [done|]. cbn [decimal_from].
  assert (Hm : 0 ≤ z mod 10 < 10) by (apply Z.mod_pos_bound; lia).
  assert (Ha : str_all is_digit (String (digit (z mod 10)) acc) = true)
    by (cbn [str_all]; by rewrite is_digit_digit).
  destruct (z / 10 =? 0); [done|]. apply IH; [apply Z.div_pos; lia|done].
Qed.

Lemma decimal_from_parse fuel max : ∀ z acc, 0 ≤ z ≤ max → z < 10 ^ Z.of_nat fuel → (0 < fuel)%nat →
  parse_digits max 0 (decimal_from fuel z acc) = parse_digits max z acc.
Proof.
  induction fuel as [|fuel IH]; intros z acc Hz Hlt Hf; [lia|]. cbn [decimal_from].
  assert (Hm : 0 ≤ z mod 10 < 10) by (apply Z.mod_pos_bound; lia).
  pose proof (Z.div_mod z 10 ltac:(lia)) as Hdm.
  destruct (Z.eqb_spec (z / 10) 0) as [E|E].
  - cbn [parse_digits]. rewrite digit_value_digit by done.
    cbn [mbind option_bind]. rewrite Z.mul_0_l, Z.add_0_l, (Z.mod_small z 10) by lia. by destruct (Z.leb_spec z max); [|lia].
  - assert (0 ≤ z / 10) by (apply Z.div_pos; lia).
    assert (Hz10 : z / 10 < 10 ^ Z.of_nat fuel).
    { apply Z.div_lt_upper_bound; [lia|]. rewrite <- (Z.pow_succ_r 10 (Z.of_nat fuel)) by lia.
      by rewrite <- Nat2Z.inj_succ. }
    destruct fuel as [|fuel]; [cbn in Hz10; lia|].
    rewrite IH by lia. cbn [parse_digits]. rewrite digit_value_digit by done.
    cbn [mbind option_bind]. replace (z / 10 * 10 + z mod 10) with z by lia. by destruct (Z.leb_spec z max); [|lia].
Qed.

Lemma decimal_from_cons fuel : ∀ z acc, (0 < fuel)%nat ∨ acc ≠ "" → decimal_from fuel z acc ≠ "".
Proof.
  induction fuel as [|fuel IH]; intros z acc Hacc; [by destruct Hacc; [lia|]|]. cbn [decimal_from].
  destruct (z / 10 =? 0); [done|]. apply IH. by right.
Qed.

Lemma decimal_digits z : 0 ≤ z → str_all is_digit (decimal z) = true ∧ decimal z ≠ "".
Proof.
  intros Hz. split; [by apply decimal_from_digits|]. apply decimal_from_cons. left. lia.
Qed.

Lemma parse_decimal max z : 0 ≤ z ≤ max → max < 10 ^ 20 → parse_unsigned max (decimal z) = Some z.
Proof.
  intros Hz Hmax. pose proof (decimal_digits z ltac:(lia)) as [Hd Hne].
  pose proof (decimal_from_parse 20 max z "" Hz ltac:(cbn; lia) ltac:(lia)) as Hp.
  fold (decimal z) in Hp. cbn [parse_digits] in Hp.
  destruct (decimal z) as [|a s]; [done|]. cbn [str_all] in Hd.
  apply andb_true_iff in Hd as [Ha _]. unfold parse_unsigned.
  destruct a as [[] [] [] [] [] [] [] []]; by first [done|vm_compute in Ha].
Qed.

Lemma decimal_plain v : 0 ≤ v → str_all plain (decimal v) = true.
Proof.
  intros Hv. destruct (decimal_digits v Hv) as [Hd _]. by eapply str_all_impl, Hd; apply digit_plain.
Qed.

(** ** Columns *)

(** What is left of the options of a column in the metadata: the compression
    threshold is not written. *)
Definition persisted (o : ColumnOptions) : ColumnOptions :=
  MkColumnOptions (preimage o) (uniform o) (ref_counted_opt o) (compression o)
    (compression_threshold ColumnOptions.default_options) (btree_index o).

Lemma from_string_as_string o :
  ColumnOptions.from_string (ColumnOptions.as_string o) = Ok (Some (persisted o)).
Proof. destruct o as [[] [] [] [] ? []]; vm_compute; reflexivity. Qed.

Lemma as_string_plain o : str_all plain (ColumnOptions.as_string o) = true.
Proof. destruct o as [[] [] [] [] ? []]; vm_compute; reflexivity. Qed.

(** What the hex crate documents: lower-case hexadecimal digits, which decode to
    what was encoded. *)
Class HexLaws `{!Hex} : Prop := {
  hex_round_trip : ∀ b, hex_decode (hex_encode b) = Some b;
  hex_plain : ∀ b, str_all plain (hex_encode b) = true;
}.

Section File.
Context `{!Hex, !HexLaws}.

Lemma read_column_line salt cols version i o : 0 ≤ i →
  Options.read_line (salt, cols, version)
    ("col" ++ decimal i ++ "=" ++ ColumnOptions.as_string o) =
  Ok (salt, cols ++ [persisted o], version)%list.
Proof.
  intros Hi. unfold Options.read_line. rewrite <- (append_assoc "col"), split_eq.
  - cbn [String.eqb Ascii.eqb Bool.eqb]. rewrite from_string_as_string. by destruct (decimal i).
  - rewrite str_all_app, andb_true_iff. split; [done|]. by apply decimal_plain.
  - apply as_string_plain.
Qed.

Lemma lines_columns cols : ∀ i, 0 ≤ i →
  ∃ ls, lines (Options.column_lines i cols) = ls ∧
    ∀ salt acc version, Options.read_lines ls (salt, acc, version) =
      Ok (salt, acc ++ (persisted <$> cols), version)%list.
Proof.
  induction cols as [|o cols IH]; intros i Hi; cbn [Options.column_lines].
  - exists []. split; [done|]. intros. cbn. by rewrite app_nil_r.
  - destruct (IH (i + 1) ltac:(lia)) as (ls & Hl & Hr). eexists. split.
    + rewrite lines_line, Hl; [reflexivity|].
      rewrite !str_all_app, !andb_true_iff. split_and!; [done| |done|apply plain_inline, as_string_plain].
      by apply plain_inline, decimal_plain.
    + intros salt acc version. cbn [Options.read_lines].
      rewrite read_column_line, outcome_bind_Ok, Hr by done. cbn. by rewrite <- (assoc_L (++)%list).
Qed.

Lemma read_version_line salt cols v0 v : 0 ≤ v < 2 ^ 32 →
  Options.read_line (salt, cols, v0) ("version=" ++ decimal v) = Ok (salt, cols, v).
Proof.
  intros Hv. unfold Options.read_line.
  change ("version=" ++ decimal v) with ("version" ++ "=" ++ decimal v).
  rewrite split_eq by (done || apply decimal_plain; lia). cbn [String.eqb Ascii.eqb Bool.eqb].
  by rewrite parse_decimal by lia.
Qed.

Lemma read_salt_line s0 cols v salt : length salt = SALT_SIZE →
  Options.read_line (s0, cols, v) ("salt=" ++ hex_encode salt) = Ok (Some salt, cols, v).
Proof.
  intros Hs. unfold Options.read_line.
  change ("salt=" ++ hex_encode salt) with ("salt" ++ "=" ++ hex_encode salt).
  rewrite split_eq by (done || apply hex_plain). cbn [String.eqb Ascii.eqb Bool.eqb].
  by rewrite hex_round_trip, Hs, Nat.eqb_refl.
Qed.

Lemma load_written (o : Options) (salt : bytes) (version : option Z) :
  length salt = SALT_SIZE → LAST_SUPPORTED_VERSION ≤ default CURRENT_VERSION version < 2 ^ 32 →
  Options.load_metadata_file (Some (Options.write_metadata_with_version o salt version)) =
  Ok (Some (MkMetadata salt (default CURRENT_VERSION version) (persisted <$> columns o))).
Proof.
  intros Hsalt Hv. unfold Options.load_metadata_file, Options.write_metadata_with_version.
  set (v := default CURRENT_VERSION version) in *. unfold LAST_SUPPORTED_VERSION in *.
  rewrite lines_line by (rewrite str_all_app, andb_true_iff; split;
    [done|apply plain_inline, decimal_plain; lia]).
  rewrite lines_line
    by (rewrite str_all_app, andb_true_iff; split; [done|apply plain_inline, hex_plain]).
  destruct (lines_columns (columns o) 0 ltac:(lia)) as (ls & -> & Hr). cbn [Options.read_lines].
  rewrite read_version_line, outcome_bind_Ok, read_salt_line, outcome_bind_Ok, Hr by (done || lia).
  rewrite outcome_bind_Ok. by destruct (Z.ltb_spec v 4); [lia|].
Qed.

(** C32. The metadata file: what was written for a salt, a version and columns
    is loaded again, except that every column has the default compression
    threshold. *)
Theorem metadata_round_trip (o : Options) (salt : bytes) (version : option Z) :
  length salt = SALT_SIZE → LAST_SUPPORTED_VERSION ≤ default CURRENT_VERSION version < 2 ^ 32 →
  Options.load_metadata_file (Some (Options.write_metadata_with_version o salt version)) =
  Ok (Some (MkMetadata salt (default CURRENT_VERSION version) (persisted <$> columns o))).
Proof. apply load_written. Qed.

Lemma write_metadata_current o salt :
  Options.write_metadata_file o salt = Options.write_metadata_with_version o salt None.
Proof. done. Qed.

Lemma check_columns_same c l : Options.check_columns c l l = Ok tt.
Proof. revert c. induction l as [|o l IH]; intros c; [done|]. cbn. by rewrite decide_True. Qed.

Lemma check_columns_ok c l l' : length l = length l' → Options.check_columns c l l' = Ok tt → l = l'.
Proof.
  revert c l'. induction l as [|m l IH]; intros c [|o l'] Hl; try done. cbn.
  destruct (decide (m = o)) as [->|]; [|done]. intros Hx. f_equal. injection Hl as Hl. by eapply IH.
Qed.

Lemma check_columns_error c l l' : Options.check_columns c l l' = Ok tt ∨
  ∃ msg, Options.check_columns c l l' = Err (InvalidConfiguration msg).
Proof.
  revert c l'. induction l as [|m l IH]; intros c [|o l']; try (by left). cbn.
  destruct (decide (m = o)); [apply IH|right; by eexists].
Qed.

(** C33. Reopening a database: the options that created it open it again if and
    only if every column has the default compression threshold; with any other
    threshold the very same options are refused as a mismatch. *)
Theorem metadata_reopen (o : Options) (random : bytes) (c1 c2 : bool) :
  length (default random (salt_opt o)) = SALT_SIZE →
  ∃ meta file,
    Options.load_and_validate_metadata o random true None = (Ok meta, Some file) ∧
    meta_columns meta = columns o ∧
    (Forall (fun c => compression_threshold c = 4096) (columns o) →
       Options.load_and_validate_metadata o random c1 (Some file) = (Ok meta, Some file)) ∧
    (¬ Forall (fun c => compression_threshold c = 4096) (columns o) →
       ∃ msg, Options.load_and_validate_metadata o random c2 (Some file) =
         (Err (InvalidConfiguration msg), Some file)).
Proof.
  intros Hs. exists (MkMetadata (default random (salt_opt o)) CURRENT_VERSION (columns o)),
    (Options.write_metadata_file o (default random (salt_opt o))).
  split; [reflexivity|]. split; [done|].
  assert (Hp : persisted <$> columns o = columns o ↔
    Forall (fun c => compression_threshold c = 4096) (columns o)).
  { induction (columns o) as [|c l IH]; [split; [constructor|done]|]. cbn. rewrite Forall_cons. split.
    - intros [= Hc Hl]. split; [by rewrite <- Hc|by apply IH].
    - intros [Hc Hl]. f_equal; [|by apply IH]. destruct c; cbn in *. by rewrite Hc. }
  assert (Hload : ∀ c, Options.load_and_validate_metadata o random c
      (Some (Options.write_metadata_file o (default random (salt_opt o)))) =
    (_ ← lift_st (Options.check_columns 0 (persisted <$> columns o) (columns o));
     mret (MkMetadata (default random (salt_opt o)) CURRENT_VERSION (persisted <$> columns o)))
      (Some (Options.write_metadata_file o (default random (salt_opt o))))).
  { intros c. unfold Options.load_and_validate_metadata. erewrite ST_bind_Ok by done.
    rewrite write_metadata_current, (load_written o _ None) by done.
    erewrite ST_bind_Ok by done. cbn [meta_columns]. rewrite length_fmap, Nat.eqb_refl. done. }
  split; intros Hth; rewrite Hload.
  - apply Hp in Hth. rewrite !Hth, check_columns_same. done.
  - destruct (check_columns_error 0 (persisted <$> columns o) (columns o)) as [E|[msg E]].
    + exfalso. apply Hth, Hp. eapply check_columns_ok, E. by rewrite length_fmap.
    + exists msg. unfold mbind, ST_bind, lift_st. by rewrite E.
Qed.

End File.

(** ** The theorems at concrete options *)

(** Lower-case hexadecimal, as the hex crate documents it. *)
Definition nibble (z : Z) : ascii := ascii_of_nat (Z.to_nat (if z <? 10 then 48 + z else 87 + z)).
Definition nibble_value (a : ascii) : option Z :=
  let n := Z.of_nat (nat_of_ascii a) in
  if (48 <=? n) && (n <=? 57) then Some (n - 48)
  else if (97 <=? n) && (n <=? 102) then Some (n - 87)
  else if (65 <=? n) && (n <=? 70) then Some (n - 55) else None.

Fixpoint hex_text (b : bytes) : string :=
  match b with
  | [] => ""
  | x :: b => String (nibble (byte_val x / 16)) (String (nibble (byte_val x mod 16)) (hex_text b))
  end.
Fixpoint hex_bytes (s : string) : option bytes :=
  match s with
  | EmptyString => Some []
  | String a (String b s) =>
      h ← nibble_value a; l ← nibble_value b; r ← hex_bytes s; Some (byte_of (h * 16 + l) :: r)
  | _ => None
  end.

Definition hex_codec : Hex := {| hex_encode := hex_text; hex_decode := hex_bytes |}.

Lemma hex_codec_laws : @HexLaws hex_codec.
Proof.
  split; cbn; intros b; induction b as [|x b IH]; try done.
  - cbn [hex_text hex_bytes].
    assert (E : (h ← nibble_value (nibble (byte_val x / 16));
                 l ← nibble_value (nibble (byte_val x mod 16)); Some (byte_of (h * 16 + l))) = Some x)
      by (destruct x; reflexivity).
    destruct (nibble_value (nibble (byte_val x / 16))) as [h|]; [|done].
    destruct (nibble_value (nibble (byte_val x mod 16))) as [l|]; [|done]. cbn in E |- *.
    rewrite IH. cbn. by injection E as ->.
  - cbn [hex_text str_all]. rewrite IH, andb_true_r. destruct x; vm_compute; reflexivity.
Qed.

#[local] Existing Instances hex_codec hex_codec_laws.

Definition demo_options : Options :=
  MkOptions [ColumnOptions.default_options; MkColumnOptions true true true Lz4 100 false]
    true true true (Some (replicate 32 xa7)).

Lemma metadata_round_trip_witness :
  Options.load_metadata_file
    (Some (Options.write_metadata_with_version demo_options (replicate 32 xa7) (Some 5))) =
  Ok (Some (MkMetadata (replicate 32 xa7) 5 (persisted <$> columns demo_options))).
Proof.
  apply (metadata_round_trip demo_options (replicate 32 xa7) (Some 5)).
  - reflexivity.
  - split; [discriminate|reflexivity].
Defined.

Lemma metadata_reopen_witness :
  ∃ meta file msg,
    Options.load_and_validate_metadata demo_options [] true None = (Ok meta, Some file) ∧
    Options.load_and_validate_metadata demo_options [] true (Some file) =
      (Err (InvalidConfiguration msg), Some file).
Proof.
  destruct (metadata_reopen demo_options [] true true) as (meta & file & H1 & _ & _ & H2).
  - reflexivity.
  - destruct H2 as [msg H2].
    + intros [_ [H _]%Forall_cons]%Forall_cons. discriminate H.
    + exists meta, file, msg. split; [exact H1|exact H2].
Defined.
