(* ===== verification/Column.v ===== *)
(** * Hash columns (src/src/column.rs)

    A hash column is an index table, the index tables that are being replaced by
    it, and 256 value tables, one for each size of entries. The functions on the
    value tables alone ([Column::write_existing_value_plan] and the like, which
    ordered columns share) work on a [TablesRef]. *)

From S2P Require Import Prelude.
From S2P Require Import Bytes.
From S2P Require Import Ids.
From S2P Require Import File.
From S2P Require Import Log.
From S2P Require Import Table.
From S2P Require Import Index.
From S2P Require Import Compress.
From S2P Require Import Stats.
From S2P Require Import Options.
From stdpp Require Import options.
#[local] Set Default Proof Using "Type*".

(** [blake2_rfc::blake2b::blake2b(32, key, data)]. *)
Class Blake2 := {
  blake2b : bytes → bytes → bytes;
  blake2b_length : ∀ k d, length (blake2b k d) = 32%nat;
}.

Definition MIN_INDEX_BITS : Z := 16.
Definition MAX_REINDEX_BATCH : nat := 8192.

(** The entry sizes of the tables below the last. *)
Definition SIZES : list Z := [
   32; 33; 34; 35; 36; 37; 38; 39; 40; 41; 42; 43; 44; 46; 47; 48; 50; 51; 52; 54; 55; 57; 58;
    60; 62; 63; 65; 67; 69; 71; 73; 75; 77; 79; 81; 83; 85; 88; 90; 93; 95; 98; 101; 103; 106;
    109; 112; 115; 119; 122; 125; 129; 132; 136; 140; 144; 148; 152; 156; 160; 165; 169; 174; 179;
    183; 189; 194; 199; 205; 210; 216; 222; 228; 235; 241; 248; 255; 262; 269; 276; 284; 292; 300;
    308; 317; 325; 334; 344; 353; 363; 373; 383; 394; 405; 416; 428; 439; 452; 464; 477; 490; 504;
    518; 532; 547; 562; 577; 593; 610; 627; 644; 662; 680; 699; 718; 738; 758; 779; 801; 823; 846;
    869; 893; 918; 943; 969; 996; 1024; 1052; 1081; 1111; 1142; 1174; 1206; 1239; 1274; 1309;
    1345; 1382; 1421; 1460; 1500; 1542; 1584; 1628; 1673; 1720; 1767; 1816; 1866; 1918; 1971;
    2025; 2082; 2139; 2198; 2259; 2322; 2386; 2452; 2520; 2589; 2661; 2735; 2810; 2888; 2968;
    3050; 3134; 3221; 3310; 3402; 3496; 3593; 3692; 3794; 3899; 4007; 4118; 4232; 4349; 4469;
    4593; 4720; 4850; 4984; 5122; 5264; 5410; 5559; 5713; 5871; 6034; 6200; 6372; 6548; 6729;
    6916; 7107; 7303; 7506; 7713; 7927; 8146; 8371; 8603; 8841; 9085; 9337; 9595; 9860; 10133;
    10413; 10702; 10998; 11302; 11614; 11936; 12266; 12605; 12954; 13312; 13681; 14059; 14448;
    14848; 15258; 15681; 16114; 16560; 17018; 17489; 17973; 18470; 18981; 19506; 20046; 20600;
    21170; 21756; 22358; 22976; 23612; 24265; 24936; 25626; 26335; 27064; 27812; 28582; 29372;
    30185; 31020; 31878; 32760
  ].

(** [hash_key]. *)
Definition xor_byte (a b : byte) : byte := byte_of (Z.lxor (byte_val a) (byte_val b)).
Definition hash_key `{!Blake2} (key salt : bytes) (uniform : bool) (db_version : Z) : outcome Key :=
  if uniform then
    k ← slice 0 32 key;
    if db_version <=? 5 then Ok k else Ok (zip_with xor_byte k salt)
  else Ok (blake2b salt key).

(** ** The value tables of a column *)

(** [TablesRef], with the statistics that are passed beside it. *)
Record TablesRef := MkTablesRef {
  tr_tables : list ValueTable;
  tr_compression : Compress;
  tr_preimage : bool;
  tr_ref_counted : bool;
  tr_stats : option ColumnStats;
}.

Definition set_tr_tables (l : list ValueTable) (r : TablesRef) : TablesRef :=
  MkTablesRef l (tr_compression r) (tr_preimage r) (tr_ref_counted r) (tr_stats r).
Definition update_stats (f : ColumnStats → ColumnStats) (r : TablesRef) : TablesRef :=
  MkTablesRef (tr_tables r) (tr_compression r) (tr_preimage r) (tr_ref_counted r) (f <$> tr_stats r).

Definition TRW : Type := TablesRef * LogWriter.

(** Code that works on [tables[tier]]; an index out of range panics. *)
Definition on_tier {A} (tier : nat) (m : ST TW A) : ST TRW A := fun '(r, w) =>
  match tr_tables r !! tier with
  | Some t => let '(o, (t', w')) := m (t, w) in (o, (set_tr_tables (<[tier := t']> (tr_tables r)) r, w'))
  | None => (Panic, (r, w))
  end.
Definition at_tier {A} (tier : nat) (f : ValueTable → LogWriter → outcome A) : ST TRW A :=
  fun '(r, w) =>
    (match tr_tables r !! tier with Some t => f t w | None => Panic end, (r, w)).
Definition on_stats (f : ColumnStats → ColumnStats) : ST TRW unit :=
  modify_st (fun '(r, w) => (update_stats f r, w)).

Definition tier_of (a : Address) : nat := Z.to_nat (Address.size_tier a).

Section Column.
Context `{!Uninit, !Codecs, !Blake2}.

(** [Column::get_value]. *)
Definition get_value {L} `{LogQuery L} (key : TableKeyQuery) (address : Address)
    (tables : list ValueTable) (compression : Compress) (log : L)
    : outcome (option (Z * bytes)) :=
  t ← unwrap (tables !! tier_of address);
  '(r, _) ← Table.query t key (Address.offset address) log;
  match r with
  | Some (value, compressed, _) =>
      value ← (if compressed : bool then Compress.decompress compression value else Ok value);
      Ok (Some (Address.size_tier address, value))
  | None => Ok None
  end.

(** [iter().position(..)]. *)
Fixpoint position {A} (p : A → bool) (l : list A) : option nat :=
  match l with
  | [] => None
  | x :: l => if p x then Some 0%nat else S <$> position p l
  end.

(** [Column::compress]: the compressed value, if it is used, and the table. *)
Definition compress (compression : Compress) (key : TableKey) (value : bytes)
    (tables : list ValueTable) : outcome (option bytes * nat) :=
  '(len, result) ←
    (if threshold compression <? Z.of_nat (length value) then
       cvalue ← Compress.compress compression value;
       Ok (if (length cvalue <? length value)%nat then (length cvalue, Some cvalue)
           else (length value, None))
     else Ok (length value, None));
  let target_tier :=
    position (fun t => match value_size t key with
                       | Some s => Z.of_nat len <=? s
                       | None => false
                       end) tables in
  Ok (result, default (length tables - 1)%nat target_tier).

(** The value that is written, and whether it is compressed. *)
Definition chosen (val : bytes) (cval : option bytes) : bytes * bool :=
  match cval with Some c => (c, true) | None => (val, false) end.

(** [v.len() as u32]. *)
Definition len32 (b : bytes) : Z := wrap32 (Z.of_nat (length b)).

(** The size of the existing value, as stored and uncompressed, for the
    statistics of a replacement or removal. *)
Definition existing_size (key : TableKey) (address : Address) : ST TRW (Z * Z) :=
  let tier := tier_of address in
  sz ← at_tier tier (fun t w => Table.size t key (Address.offset address) w);
  let '(cur_size, compressed) := default (0, false) sz in
  if compressed then
    v ← at_tier tier (fun t w => Table.get t key (Address.offset address) w);
    '(compressed, _) ← lift_st (unwrap v);
    '(r, _) ← get_st;
    uncompressed ← lift_st (Compress.decompress (tr_compression r) compressed);
    mret (cur_size, len32 uncompressed)
  else mret (cur_size, cur_size).

(** [Column::write_existing_value_plan]. *)
Definition write_existing_value_plan (key : TableKey) (address : Address) (value : option bytes)
    : ST TRW (option PlanOutcome * option Address) :=
  let tier := tier_of address in
  let offset := Address.offset address in
  '(r, _) ← get_st;
  match value with
  | Some val =>
      if tr_ref_counted r then
        _ ← on_tier tier (write_inc_ref offset);
        mret (Some Written, None)
      else if tr_preimage r then mret (Some Skipped, None)
      else
        '(cval, target_tier) ← lift_st (compress (tr_compression r) key val (tr_tables r));
        let '(cval, compressed) := chosen val cval in
        _ ← match tr_stats r with
            | Some _ =>
                '(cur_size, uncompressed) ← existing_size key address;
                on_stats (ColumnStats.replace_val cur_size uncompressed (len32 val) (len32 cval))
            | None => mret tt
            end;
        if (tier =? target_tier)%nat then
          _ ← on_tier target_tier (write_replace_plan offset key cval compressed);
          mret (Some Written, None)
        else
          _ ← on_tier tier (write_remove_plan offset);
          new_offset ← on_tier target_tier (write_insert_plan key cval compressed);
          mret (None, Some (Address.new new_offset (wrap8 (Z.of_nat target_tier))))
  | None =>
      cur_size ← match tr_stats r with
                 | Some _ => s ← existing_size key address; mret (Some s)
                 | None => mret None
                 end;
      remove ← (if tr_ref_counted r then
                  alive ← on_tier tier (write_dec_ref offset);
                  mret (negb alive)
                else
                  _ ← on_tier tier (write_remove_plan offset);
                  mret true);
      if remove : bool then
        _ ← match cur_size with
            | Some (compressed_size, uncompressed_size) =>
                on_stats (ColumnStats.remove_val uncompressed_size compressed_size)
            | None => mret tt
            end;
        mret (None, Some address)
      else mret (Some Written, None)
  end.

(** [Column::write_new_value_plan]. *)
Definition write_new_value_plan (key : TableKey) (val : bytes) : ST TRW Address :=
  '(r, _) ← get_st;
  '(cval, target_tier) ← lift_st (compress (tr_compression r) key val (tr_tables r));
  let '(cval, compressed) := chosen val cval in
  offset ← on_tier target_tier (write_insert_plan key cval compressed);
  let address := Address.new offset (wrap8 (Z.of_nat target_tier)) in
  _ ← on_stats (ColumnStats.insert_val (len32 val) (len32 cval));
  mret address.

End Column.
