(* ===== verification/HashColumn.v ===== *)
(** * [HashColumn] (src/src/column.rs)

    The column with its index: lookup, planned writes, reindexing into a larger
    index, enactment and validation of log actions, iteration. *)

From S2P Require Import Prelude.
From S2P Require Import Bytes.
From S2P Require Import Ids.
From S2P Require Import File.
From S2P Require Import Log.
From S2P Require Import Table.
From S2P Require Import Index.
From S2P Require Import Compress.
From S2P Require Import Stats.
From S2P Require Import Options.
From S2P Require Import Column.
From stdpp Require Import options.
#[local] Set Default Proof Using "Type*".

(** ** State *)

(** [HashColumn], with the fields of [Tables] and [Reindex]. *)
Record HashColumn := MkHashColumn {
  hc_col : ColId;
  hc_index : IndexTable;
  hc_values : list ValueTable;
  hc_queue : list IndexTable;
  hc_progress : Z;
  hc_preimage : bool;
  hc_uniform_keys : bool;
  hc_collect_stats : bool;
  hc_ref_counted : bool;
  hc_salt : bytes;
  hc_stats : ColumnStats;
  hc_compression : Compress;
  hc_db_version : Z;
}.

Definition set_hc_index (i : IndexTable) (queue : list IndexTable) (c : HashColumn) : HashColumn :=
  MkHashColumn (hc_col c) i (hc_values c) queue (hc_progress c) (hc_preimage c) (hc_uniform_keys c)
    (hc_collect_stats c) (hc_ref_counted c) (hc_salt c) (hc_stats c) (hc_compression c)
    (hc_db_version c).
Definition set_hc_values (l : list ValueTable) (c : HashColumn) : HashColumn :=
  MkHashColumn (hc_col c) (hc_index c) l (hc_queue c) (hc_progress c) (hc_preimage c)
    (hc_uniform_keys c) (hc_collect_stats c) (hc_ref_counted c) (hc_salt c) (hc_stats c)
    (hc_compression c) (hc_db_version c).
Definition set_hc_stats (s : ColumnStats) (c : HashColumn) : HashColumn :=
  MkHashColumn (hc_col c) (hc_index c) (hc_values c) (hc_queue c) (hc_progress c) (hc_preimage c)
    (hc_uniform_keys c) (hc_collect_stats c) (hc_ref_counted c) (hc_salt c) s (hc_compression c)
    (hc_db_version c).
Definition set_hc_reindex (queue : list IndexTable) (progress : Z) (c : HashColumn) : HashColumn :=
  MkHashColumn (hc_col c) (hc_index c) (hc_values c) queue progress (hc_preimage c)
    (hc_uniform_keys c) (hc_collect_stats c) (hc_ref_counted c) (hc_salt c) (hc_stats c)
    (hc_compression c) (hc_db_version c).

(** [HashColumn::as_ref], with the statistics when they are collected. *)
Definition as_ref (c : HashColumn) : TablesRef :=
  MkTablesRef (hc_values c) (hc_compression c) (hc_preimage c) (hc_ref_counted c)
    (if hc_collect_stats c then Some (hc_stats c) else None).
Definition put_ref (r : TablesRef) (c : HashColumn) : HashColumn :=
  let c := set_hc_values (tr_tables r) c in
  match tr_stats r with Some s => set_hc_stats s c | None => c end.

Definition CW : Type := HashColumn * LogWriter.
Definition on_tables {A} (m : ST TRW A) : ST CW A :=
  zoom (fun '(c, w) => (as_ref c, w)) (fun '(r, w) '(c, _) => (put_ref r c, w)) m.
Definition on_log {A} (m : ST LogWriter A) : ST CW A :=
  zoom snd (fun w '(c, _) => (c, w)) m.
Definition on_column (f : HashColumn → HashColumn) : ST CW unit :=
  modify_st (fun '(c, w) => (f c, w)).
Definition count_stat (f : ColumnStats → ColumnStats) (c : HashColumn) : HashColumn :=
  if hc_collect_stats c then set_hc_stats (f (hc_stats c)) c else c.

Section Column.
Context `{!Uninit, !Codecs, !Blake2}.

(** ** Opening *)

(** [IndexTable::load_stats] and [IndexTable::write_stats]. *)
Definition load_stats (t : IndexTable) : outcome ColumnStats :=
  match it_map t with
  | Some m =>
      s ← slice HEADER_SIZE (HEADER_SIZE + TOTAL_SIZE) (im_stats m);
      ColumnStats.from_slice s
  | None => Ok ColumnStats.empty
  end.
Definition write_index_stats (stats : ColumnStats) (t : IndexTable) : outcome IndexTable :=
  match it_map t with
  | Some m =>
      s ← slice HEADER_SIZE (HEADER_SIZE + TOTAL_SIZE) (im_stats m);
      d ← ColumnStats.to_slice stats s;
      b ← splice HEADER_SIZE d (im_stats m);
      Ok (MkIndexTable (it_id t) (Some (MkIndexMap (im_chunks m) b)))
  | None => Ok t
  end.

(** The loop of [HashColumn::open_index] over the numbers of index bits, from 64
    down to [MIN_INDEX_BITS]; [files] are the index files of the column. *)
Fixpoint open_index_loop (files : Z → option IndexMap) (col : ColId) (bits : list Z)
    (top : option IndexTable) (reindexing : list IndexTable) (stats : ColumnStats)
    : outcome (option IndexTable * list IndexTable * ColumnStats) :=
  match bits with
  | [] => Ok (top, reindexing, stats)
  | b :: bits =>
      match open_existing (files b) (IndexTableId.new col b) with
      | Some table =>
          match top with
          | None => stats ← load_stats table; open_index_loop files col bits (Some table) reindexing stats
          | Some _ => open_index_loop files col bits top (table :: reindexing) stats
          end
      | None => open_index_loop files col bits top reindexing stats
      end
  end.
Definition open_index (files : Z → option IndexMap) (col : ColId)
    : outcome (IndexTable * list IndexTable * ColumnStats) :=
  '(top, reindexing, stats) ←
    open_index_loop files col (reverse (seqZ MIN_INDEX_BITS 49)) None [] ColumnStats.empty;
  Ok (default (create_new (IndexTableId.new col MIN_INDEX_BITS)) top, reindexing, stats).

(** [Column::open_table]. *)
Definition open_table (file : option bytes) (col : ColId) (tier : nat) (options : ColumnOptions)
    (db_version : Z) : outcome ValueTable :=
  Table.open file (ValueTableId.new col (wrap8 (Z.of_nat tier))) (SIZES !! tier)
    (ref_counted_opt options) db_version.

(** The value tables of [Column::open]; [files] are the table files. *)
Fixpoint open_tables (files : nat → option bytes) (col : ColId) (options : ColumnOptions)
    (db_version : Z) (tiers : list nat) : outcome (list ValueTable) :=
  match tiers with
  | [] => Ok []
  | i :: tiers =>
      t ← open_table (files i) col i options db_version;
      l ← open_tables files col options db_version tiers;
      Ok (t :: l)
  end.

(** [Column::open] and [HashColumn::open] for a column without an ordered
    index. *)
Definition open_hash (value_files : nat → option bytes) (index_files : Z → option IndexMap)
    (col : ColId) (collect_stats : bool) (metadata : Metadata) : outcome HashColumn :=
  options ← unwrap (meta_columns metadata !! Z.to_nat col);
  value ← open_tables value_files col options (meta_version metadata) (seq 0 SIZE_TIERS);
  '(index, reindexing, stats) ← open_index index_files col;
  Ok (MkHashColumn col index value reindexing 0 (preimage options) (uniform options) collect_stats
        (ref_counted_opt options) (meta_salt metadata) stats
        (Compress.new (compression options) (compression_threshold options))
        (meta_version metadata)).

(** [HashColumn::hash_key]. *)
Definition column_hash_key (c : HashColumn) (key : bytes) : outcome Key :=
  hash_key key (hc_salt c) (hc_uniform_keys c) (hc_db_version c).

(** ** Lookup *)

(** The loop of [get_in_index]: each turn moves to a later entry of the chunk,
    so 65 turns are enough. *)
Fixpoint get_in_index_loop {L} `{LogQuery L} (fuel : nat) (key : Key) (index : IndexTable)
    (tables : list ValueTable) (compression : Compress) (log : L) (entry : IEntry) (sub_index : nat)
    : outcome (option (Z * bytes)) :=
  match fuel with
  | O => NoFuel
  | S fuel' =>
      if IEntry.is_empty entry then Ok None
      else
        let address := IEntry.address (bits index) entry in
        value ← get_value (Check_ (Partial key)) address tables compression log;
        match value with
        | Some result => Ok (Some result)
        | None =>
            '(entry, sub_index) ← get_index index key (S sub_index) log;
            get_in_index_loop fuel' key index tables compression log entry sub_index
        end
  end.
Definition search_fuel : nat := S CHUNK_ENTRIES.

(** [HashColumn::get_in_index]. *)
Definition get_in_index {L} `{LogQuery L} (key : Key) (index : IndexTable)
    (tables : list ValueTable) (compression : Compress) (log : L) : outcome (option (Z * bytes)) :=
  '(entry, sub_index) ← get_index index key 0 log;
  get_in_index_loop search_fuel key index tables compression log entry sub_index.

(** The search through the current and the old indexes. *)
Fixpoint get_in_indexes {L} `{LogQuery L} (key : Key) (indexes : list IndexTable)
    (tables : list ValueTable) (compression : Compress) (log : L) : outcome (option (Z * bytes)) :=
  match indexes with
  | [] => Ok None
  | index :: indexes =>
      r ← get_in_index key index tables compression log;
      match r with
      | Some r => Ok (Some r)
      | None => get_in_indexes key indexes tables compression log
      end
  end.

(** [HashColumn::get]. *)
Definition column_get {L} `{LogQuery L} (key : Key) (log : L) : ST HashColumn (option bytes) :=
  c ← get_st;
  r ← lift_st (get_in_indexes key (hc_index c :: hc_queue c) (hc_values c) (hc_compression c) log);
  match r with
  | Some (tier, value) =>
      _ ← modify_st (count_stat (ColumnStats.query_hit tier));
      mret (Some value)
  | None =>
      _ ← modify_st (count_stat ColumnStats.query_miss);
      mret None
  end.

(** [HashColumn::get_size]. *)
Definition column_get_size {L} `{LogQuery L} (key : Key) (log : L) : ST HashColumn (option Z) :=
  v ← column_get key log; mret (len32 <$> v).

(** The loop of [search_index]: the position and the address of the key. *)
Fixpoint search_index_loop (fuel : nat) (key : Key) (index : IndexTable) (tables : list ValueTable)
    (log : LogWriter) (entry : IEntry) (sub_index : nat) : outcome (option (nat * Address)) :=
  match fuel with
  | O => NoFuel
  | S fuel' =>
      if IEntry.is_empty entry then Ok None
      else
        let address := IEntry.address (bits index) entry in
        t ← unwrap (tables !! tier_of address);
        found ← has_key_at t (Address.offset address) (Partial key) log;
        if found : bool then Ok (Some (sub_index, address))
        else
          '(entry, sub_index) ← get_index index key (S sub_index) log;
          search_index_loop fuel' key index tables log entry sub_index
  end.

(** [HashColumn::search_index]. *)
Definition search_index (key : Key) (index : IndexTable) (tables : list ValueTable) (log : LogWriter)
    : outcome (option (IndexTable * nat * Address)) :=
  '(entry, sub_index) ← get_index index key 0 log;
  r ← search_index_loop search_fuel key index tables log entry sub_index;
  Ok (match r with
      | Some (sub_index, address) => Some (index, sub_index, address)
      | None => None
      end).

(** [HashColumn::search_all_indexes]. *)
Fixpoint search_all_indexes (key : Key) (indexes : list IndexTable) (tables : list ValueTable)
    (log : LogWriter) : outcome (option (IndexTable * nat * Address)) :=
  match indexes with
  | [] => Ok None
  | index :: indexes =>
      r ← search_index key index tables log;
      match r with
      | Some r => Ok (Some r)
      | None => search_all_indexes key indexes tables log
      end
  end.

(** ** Planned writes *)

(** [HashColumn::trigger_reindex]. *)
Definition trigger_reindex (c : HashColumn) : HashColumn :=
  let id := it_id (hc_index c) in
  let new_index_id := IndexTableId.new (IndexTableId.col id) (wrap8 (IndexTableId.index_bits id + 1)) in
  set_hc_index (create_new new_index_id) (hc_queue c ++ [hc_index c]) c.

(** [self.tables.upgradable_read()]: at most one upgradable guard exists at a
    time, so the call never returns when the caller still holds one. *)
Definition upgradable_read {S} (held : bool) : ST S unit :=
  lift_st (if held then Deadlock else Ok tt).

(** [HashColumn::write_reindex_plan]: the recursive call is made while [_lock]
    keeps the guards alive; it does not get past its first line. *)
Fixpoint write_reindex_plan_from (fuel : nat) (held : bool) (key : Key) (address : Address)
    : ST CW PlanOutcome :=
  match fuel with
  | O => lift_st NoFuel
  | S fuel' =>
      _ ← upgradable_read held;
      '(c, w) ← get_st;
      existing ← lift_st (search_index key (hc_index c) (hc_values c) w);
      match existing with
      | Some _ => mret Skipped
      | None =>
          o ← on_log (index_insert_plan (hc_index c) key address None);
          match o with
          | NeedReindex =>
              _ ← on_column trigger_reindex;
              _ ← write_reindex_plan_from fuel' true key address;
              mret NeedReindex
          | _ => mret Written
          end
      end
  end.
Definition write_reindex_plan (key : Key) (address : Address) : ST CW PlanOutcome :=
  write_reindex_plan_from 2 false key address.

(** [HashColumn::write_plan_existing]: [index] is where the key was found. *)
Definition write_plan_existing (key : Key) (value : option bytes) (index : IndexTable)
    (sub_index : nat) (existing_address : Address) : ST CW PlanOutcome :=
  r ← on_tables (write_existing_value_plan (Partial key) existing_address value);
  '(c, _) ← get_st;
  match r with
  | (Some outcome, _) => mret outcome
  | (None, Some value_address) =>
      match value with
      | Some _ =>
          let sub_index := if decide (it_id index = it_id (hc_index c)) then Some sub_index else None in
          on_log (index_insert_plan (hc_index c) key value_address sub_index)
      | None =>
          _ ← on_log (index_remove_plan index key sub_index);
          mret Skipped
      end
  | _ => lift_st Panic
  end.

(** [HashColumn::write_plan_new]: the guards are passed to the recursive call.
    Every call goes to an index with one more bit; 64 calls are more than the
    index bits allow. *)
Fixpoint write_plan_new (fuel : nat) (key : Key) (value : bytes) : ST CW PlanOutcome :=
  match fuel with
  | O => lift_st NoFuel
  | S fuel' =>
      address ← on_tables (write_new_value_plan (Partial key) value);
      '(c, _) ← get_st;
      o ← on_log (index_insert_plan (hc_index c) key address None);
      match o with
      | NeedReindex =>
          _ ← on_column trigger_reindex;
          _ ← write_plan_new fuel' key value;
          mret NeedReindex
      | _ => mret Written
      end
  end.
Definition reindex_fuel : nat := 64.

(** [HashColumn::write_plan]. *)
Definition write_plan (key : Key) (value : option bytes) : ST CW PlanOutcome :=
  '(c, w) ← get_st;
  existing ← lift_st (search_all_indexes key (hc_index c :: hc_queue c) (hc_values c) w);
  match existing with
  | Some (table, sub_index, existing_address) =>
      write_plan_existing key value table sub_index existing_address
  | None =>
      match value with
      | Some value => write_plan_new reindex_fuel key value
      | None =>
          _ ← on_column (count_stat ColumnStats.remove_miss);
          mret Skipped
      end
  end.

(** [for t in tables.value.iter() { t.complete_plan(log)?; }]. *)
Fixpoint complete_tables (tiers : list nat) : ST TRW unit :=
  match tiers with
  | [] => mret tt
  | i :: tiers => _ ← on_tier i Table.complete_plan; complete_tables tiers
  end.

(** [HashColumn::complete_plan]. *)
Definition column_complete_plan : ST CW unit :=
  '(c, _) ← get_st;
  _ ← on_tables (complete_tables (seq 0 (length (hc_values c))));
  on_column (count_stat ColumnStats.commit).

(** ** Log actions *)

Definition CR : Type := HashColumn * LogReader.

(** [enact_plan] of an index table, of the first old index with the id, and of
    the value table of a tier. *)
Definition on_index {A} (m : ST IR A) : ST CR A := fun '(c, r) =>
  let '(o, (t, r')) := m (hc_index c, r) in (o, (set_hc_index t (hc_queue c) c, r')).
Fixpoint on_queued {A} (id : IndexTableId) (m : ST IR A) (queue : list IndexTable) (r : LogReader)
    : option (outcome A * (list IndexTable * LogReader)) :=
  match queue with
  | [] => None
  | t :: queue =>
      if decide (it_id t = id) then
        let '(o, (t', r')) := m (t, r) in Some (o, (t' :: queue, r'))
      else
        match on_queued id m queue r with
        | Some (o, (queue', r')) => Some (o, (t :: queue', r'))
        | None => None
        end
  end.
Definition on_value {A} (tier : nat) (m : ST TR A) : ST CR A := fun '(c, r) =>
  match hc_values c !! tier with
  | Some t =>
      let '(o, (t', r')) := m (t, r) in (o, (set_hc_values (<[tier := t']> (hc_values c)) c, r'))
  | None => (Panic, (c, r))
  end.
Definition value_tier (id : ValueTableId) : nat := Z.to_nat (ValueTableId.size_tier id).

(** [HashColumn::enact_plan]. *)
Definition column_enact_plan (action : LogAction) : ST CR unit :=
  match action with
  | InsertIndex table index => fun '(c, r) =>
      if decide (it_id (hc_index c) = table) then on_index (enact_index_plan index) (c, r)
      else
        match on_queued table (enact_index_plan index) (hc_queue c) r with
        | Some (o, (queue, r')) => (o, (set_hc_index (hc_index c) queue c, r'))
        | None => let '(o, r') := skip_index_plan r in (o, (c, r'))
        end
  | InsertValue table index => on_value (value_tier table) (Table.enact_plan index)
  | _ => lift_st (Err (Corruption "Unexpected log action"))
  end.

(** [table.validate_plan(index, log)], which leaves the table as it is. *)
Definition validate_index (t : IndexTable) (index : Z) : ST CR unit := fun '(c, r) =>
  let '(o, r') := validate_index_plan t index r in (o, (c, r')).

(** [HashColumn::validate_plan]: the recursive call is made while [_lock] keeps
    the guards alive. *)
Fixpoint column_validate_plan_from (fuel : nat) (held : bool) (action : LogAction) : ST CR unit :=
  match fuel with
  | O => lift_st NoFuel
  | S fuel' =>
      _ ← upgradable_read held;
      '(c, _) ← get_st;
      match action with
      | InsertIndex table index =>
          if decide (it_id (hc_index c) = table) then validate_index (hc_index c) index
          else
            match list_find (fun t => it_id t = table) (hc_queue c) with
            | Some (_, t) => validate_index t index
            | None =>
                _ ← modify_st (fun '(c, r) => (trigger_reindex c, r));
                column_validate_plan_from fuel' true action
            end
      | InsertValue table index => on_value (value_tier table) (Table.validate_plan index)
      | _ => lift_st (Err (Corruption "Unexpected log action"))
      end
  end.
Definition column_validate_plan (action : LogAction) : ST CR unit :=
  column_validate_plan_from 2 false action.

(** [for t in tables.value.iter() { t.m()?; }] for an operation of the tables. *)
Fixpoint each_table (m : ST ValueTable unit) (l : list ValueTable) : outcome unit * list ValueTable :=
  match l with
  | [] => (Ok tt, [])
  | t :: l =>
      match m t with
      | (Ok _, t') => let '(o, l') := each_table m l in (o, t' :: l')
      | (o, t') => (o, t' :: l)
      end
  end.

(** [HashColumn::refresh_metadata] and the tables of [HashColumn::flush]. *)
Definition column_refresh_metadata : ST HashColumn unit := fun c =>
  let '(o, l) := each_table Table.refresh_metadata (hc_values c) in (o, set_hc_values l c).
Definition column_flush : ST HashColumn unit := fun c =>
  let '(o, l) := each_table Table.flush (hc_values c) in (o, set_hc_values l c).

(** The statistics in the index file: [HashColumn::write_stats], without the
    text, and [HashColumn::clear_stats]. *)
Definition column_write_stats (c : HashColumn) : outcome HashColumn :=
  t ← write_index_stats (hc_stats c) (hc_index c); Ok (set_hc_index t (hc_queue c) c).
Definition column_clear_stats (c : HashColumn) : outcome HashColumn :=
  t ← write_index_stats ColumnStats.empty (hc_index c); Ok (set_hc_index t (hc_queue c) c).

(** ** Reindexing *)

Record ReindexBatch := MkReindexBatch {
  drop_index_id : option IndexTableId;
  batch : list (Key * Address);
}.

(** The entries of a chunk that are moved: [if entry.is_empty() { continue }]. *)
Definition chunk_moves (source : IndexTable) (index : Z) (entries : list IEntry) : list (Key * Address) :=
  (fun entry => (recover_key_prefix source index entry, IEntry.address (bits source) entry)) <$>
  filter (fun e => IEntry.is_empty e = false) entries.

(** [while source_index < total_chunks && plan.len() < MAX_REINDEX_BATCH]. *)
Fixpoint reindex_loop {L} `{LogQuery L} (fuel : nat) (source : IndexTable) (log : L)
    (source_index : Z) (plan : list (Key * Address)) : outcome (Z * list (Key * Address)) :=
  match fuel with
  | O => NoFuel
  | S fuel' =>
      if (source_index <? IndexTableId.total_chunks (it_id source)) &&
         (length plan <? MAX_REINDEX_BATCH)%nat
      then
        es ← Index.entries source source_index log;
        reindex_loop fuel' source log (source_index + 1) (plan ++ chunk_moves source source_index es)
      else Ok (source_index, plan)
  end.

(** [HashColumn::reindex]: the chunks that are left bound the loop. *)
Definition column_reindex {L} `{LogQuery L} (log : L) : ST HashColumn ReindexBatch :=
  c ← get_st;
  match hc_queue c with
  | source :: _ =>
      let progress := hc_progress c in
      let total := IndexTableId.total_chunks (it_id source) in
      if progress =? total then mret (MkReindexBatch None [])
      else
        '(source_index, plan) ←
          lift_st (reindex_loop (S (Z.to_nat (total - progress))) source log progress []);
        _ ← modify_st (set_hc_reindex (hc_queue c) source_index);
        mret (MkReindexBatch (if source_index =? total then Some (it_id source) else None) plan)
  | [] => mret (MkReindexBatch None [])
  end.

(** [HashColumn::drop_index]; the file of the table is removed. *)
Definition column_drop_index (id : IndexTableId) (c : HashColumn) : HashColumn :=
  match hc_queue c with
  | t :: queue => if decide (it_id t = id) then set_hc_reindex queue 0 c else c
  | [] => c
  end.

(** ** Iteration *)

Record IterState := MkIterState {
  chunk_index_of : Z;
  iter_key : Key;
  iter_rc : Z;
  iter_value : bytes;
}.

Inductive IterStateOrCorrupted :=
| Item (i : IterState)
| Corrupted (e : IEntry) (err : option Error).

Section Iter.
Context {L A : Type} `{LogQuery L} (log : L) (c : HashColumn).

(** The callback, with the state it captures. *)
Variable f : IterStateOrCorrupted → ST A bool.

(** Size tier and offset of an entry; databases before version 4 had 16 tiers. *)
Definition entry_location (source : IndexTable) (entry : IEntry) : Z * Z :=
  if 4 <=? hc_db_version c then
    let address := IEntry.address (bits source) entry in
    (Address.size_tier address, Address.offset address)
  else
    let addr_bits := wrap8 (bits source + 10) in
    let address := Z.land (IEntry.as_u64 entry) (wrap64 (shl64 1 addr_bits - 1)) in
    (wrap8 (Z.land address 0x0f), shr64 address 4).

(** The body of the loop over the entries of a chunk: whether it goes on. *)
Definition iter_entry (skip_preimage : bool) (chunk : Z) (entry : IEntry) : ST A bool :=
  let source := hc_index c in
  if IEntry.is_empty entry then mret true
  else
    let '(size_tier, offset) := entry_location source entry in
    if skip_preimage && hc_preimage c &&
       negb (Z.to_nat size_tier =? length (hc_values c) - 1)%nat
    then mret true
    else
      t ← lift_st (unwrap (hc_values c !! Z.to_nat size_tier));
      match Table.get_with_meta t offset log with
      | Ok (Some (value, rc, pk, compressed)) =>
          key ← lift_st (splice 6 pk (recover_key_prefix source chunk entry));
          value ← lift_st (if compressed : bool then Compress.decompress (hc_compression c) value else Ok value);
          f (Item (MkIterState chunk key rc value))
      | Ok None => _ ← f (Corrupted entry None); mret true
      | Err e => _ ← f (Corrupted entry (Some e)); mret true
      | Panic => lift_st Panic
      | Undefined => lift_st Undefined
      | Deadlock => lift_st Deadlock
      | NoFuel => lift_st NoFuel
      end.

Fixpoint iter_entries (skip_preimage : bool) (chunk : Z) (l : list IEntry) : ST A bool :=
  match l with
  | [] => mret true
  | entry :: l =>
      continue ← iter_entry skip_preimage chunk entry;
      if continue : bool then iter_entries skip_preimage chunk l else mret false
  end.

Fixpoint iter_chunks (skip_preimage : bool) (chunks : list Z) : ST A unit :=
  match chunks with
  | [] => mret tt
  | chunk :: chunks =>
      es ← lift_st (Index.entries (hc_index c) chunk log);
      continue ← iter_entries skip_preimage chunk es;
      if continue : bool then iter_chunks skip_preimage chunks else mret tt
  end.

(** The callback of [ValueTable::iter_while] for preimage columns; a failed
    decompression or callback stops the table. *)
Definition iter_preimage (acc : A) (index rc : Z) (value : bytes) (compressed : bool) : A * bool :=
  match (if compressed then Compress.decompress (hc_compression c) value else Ok value) with
  | Ok value =>
      match column_hash_key c (blake2b [] value) with
      | Ok key =>
          let '(o, acc) := f (Item (MkIterState index key rc value)) acc in
          (acc, match o with Ok b => b | _ => false end)
      | _ => (acc, false)
      end
  | _ => (acc, false)
  end.

Fixpoint iter_tables (tables : list ValueTable) : ST A unit :=
  match tables with
  | [] => mret tt
  | t :: tables => _ ← Table.iter_while t log iter_preimage; iter_tables tables
  end.

(** [HashColumn::iter_while_inner]. *)
Definition iter_while_inner (start_chunk : Z) (skip_preimage : bool) : ST A unit :=
  _ ← (if skip_preimage && hc_preimage c
       then iter_tables (take (length (hc_values c) - 1) (hc_values c)) else mret tt);
  let total := IndexTableId.total_chunks (it_id (hc_index c)) in
  iter_chunks skip_preimage (seqZ start_chunk (total - start_chunk)).

End Iter.

(** [HashColumn::iter_while]: the state of the callback and what it returns. *)
Definition column_iter_while {L A} `{LogQuery L} (log : L) (c : HashColumn)
    (f : A → IterState → A * bool) : ST A unit :=
  iter_while_inner log c
    (fun state acc =>
       match state with
       | Item item => let '(acc, b) := f acc item in (Ok b, acc)
       | Corrupted _ _ => (Err (Corruption "Missing indexed value"), acc)
       end) 0 true.

End Column.
