(* ===== verification/ColumnTables.v ===== *)
(** * The value tables of a column as one store

    The 256 tables of a column and the log represent one map from addresses to
    stored values; an operation on one table leaves the others as they are, and
    the table that [Column::compress] chooses takes the value. *)

From S2P Require Import Prelude.
From S2P Require Import Bytes.
From S2P Require Import Ids.
From S2P Require Import File.
From S2P Require Import Log.
From S2P Require Import Table.
From S2P Require Import TableSpec.
From S2P Require Import TableOps.
From S2P Require Import TableRefine.
From S2P Require Import TableStore.
From S2P Require Import TableEnact.
From S2P Require Import Index.
From S2P Require Import Compress.
From S2P Require Import Stats.
From S2P Require Import Column.
From stdpp Require Import options.
#[local] Set Default Proof Using "Type*".

Lemma store_repr_frame t w w' m :
  (∀ i, value_view w' (vt_id t) i = value_view w (vt_id t) i) →
  store_repr t w m → store_repr t w' m.
Proof.
  intros Hv (free & vals & [Hwf Hf Hs Hfr Hvals] & ->). exists free, vals. split; [|done].
  split; [done|done|done| |].
  - by eapply (free_at_frame t t w w'); [reflexivity| |].
  - eapply Forall_impl; [exact Hvals|]. intros [idxs s] [H1 H2]. split; [done|].
    by eapply (chain_at_frame t t w w'); [reflexivity| |].
Qed.

Lemma store_repr_below {L} `{LogView L} t (log : L) m off s : store_repr t log m → m !! off = Some s →
  1 ≤ off < filled t.
Proof.
  intros (free & vals & Hr & ->) Hoff.
  destruct (repr_store_lookup _ _ _ _ _ _ Hr Hoff) as (idxs & v0 & Hp & _).
  pose proof (repr_range _ _ _ _ Hr) as Hrg. rewrite Forall_forall in Hrg. apply (Hrg off).
  apply elem_of_app. right. eapply elem_of_submseteq; [|apply heads_submseteq; by eapply repr_nonempty].
  unfold heads. rewrite Hp. cbn. set_solver.
Qed.

(** The parts of a writer that show the index tables are the same. *)
Definition same_index (w w' : LogWriter) : Prop :=
  local_index (writer_log w') = local_index (writer_log w) ∧ writer_overlays w' = writer_overlays w.

Lemma same_index_view w w' id i : same_index w w' → index_view w' id i = index_view w id i.
Proof. intros [H1 H2]. unfold index_view. cbn. by rewrite H1, H2. Qed.

#[global] Instance same_index_preorder : PreOrder same_index.
Proof. split; [by intros w|]. intros w1 w2 w3 [] []. split; congruence. Qed.

Lemma same_index_insert id i d w : same_index w (LogWriter.insert_value id i d w).
Proof. by split. Qed.

Lemma logged_shape t t' n d : same_shape t t' → logged t n d → logged t' n d.
Proof.
  intros Hsh [?|(Hn & s & Hs & ->)]; [by left|right]. split; [done|]. exists s. split; [|done].
  by eapply slot_wf_shape.
Qed.

(** What is logged depends on the size of the entries only. *)
Lemma logged_size t t' n d : entry_size t' = entry_size t → multipart t' = multipart t →
  logged t n d → logged t' n d.
Proof.
  intros Hs Hm [?|(Hn & s & Hw & ->)]; [by left|right]. split; [done|]. exists s. split; [|done].
  revert Hw. unfold slot_wf, esz. by rewrite Hs, Hm.
Qed.

Lemma file_ok_shape t t' : same_shape t t' → file_ok t → file_ok t'.
Proof. intros [S1 S2 S3 S4 S5 S6]. unfold file_ok, contents. by rewrite S2, S3. Qed.

Lemma partial_length key : is_key key → length (partial_key key) = PARTIAL_SIZE.
Proof. intros Hk. unfold partial_key. rewrite length_drop. unfold is_key, KEY_SIZE, PARTIAL_SIZE in *. lia. Qed.

(** The uncompressed form of a stored value. *)
Definition plain_value `{!Codecs} (comp : Compress) (s : Stored) (v : bytes) : Prop :=
  if s_compressed s then Compress.decompress comp (s_value s) = Ok v else s_value s = v.

Section Tables.
Context `{!Uninit, !Codecs}.
Context (col : ColId) (rc : bool) (comp : Compress).

Record stored_ok (s : Stored) : Prop := {
  so_len : Z.of_nat (length (s_value s)) < 2 ^ 32;
  so_plain : ∃ v, plain_value comp s v;
}.

(** The tables [ts] with the log [w] hold the stores [SS]. *)
Record tables_repr (ts : list ValueTable) (w : LogWriter) (SS : list Store) : Prop := {
  tb_len : length ts = SIZE_TIERS;
  tb_slen : length SS = SIZE_TIERS;
  tb_repr : ∀ i t m, ts !! i = Some t → SS !! i = Some m → store_repr t w m;
  tb_id : ∀ i t, ts !! i = Some t → vt_id t = ValueTableId.new col (Z.of_nat i);
  tb_rc : ∀ i t, ts !! i = Some t → ref_counted t = rc;
  tb_last : ∀ t, ts !! (SIZE_TIERS - 1)%nat = Some t → multipart t = true;
  tb_stored : ∀ i m off s, SS !! i = Some m → m !! off = Some s → 1 ≤ off < 2 ^ 48 ∧ stored_ok s;
  tb_logged : ∀ id n d, ValueTableId.col id = col → own_value w id n = Some d →
    ∃ i t, ts !! i = Some t ∧ vt_id t = id ∧ 0 ≤ n ≤ 2 ^ 48 ∧ logged t n d;
  tb_file : ∀ i t, ts !! i = Some t → file_ok t;
  tb_shape : ∀ i t, ts !! i = Some t →
    entry_size t = default 4096 (SIZES !! i) ∧ multipart t = match SIZES !! i with Some _ => false | None => true end;
  tb_header : ∀ i t, ts !! i = Some t → header_shown t w;
}.

Hypothesis col_u8 : is_u8 col.

(** The tables have room for [n] more bytes of entries. *)
Definition room (ts : list ValueTable) (n : Z) : Prop :=
  ∀ i t, ts !! i = Some t → filled t + n ≤ 2 ^ 48.

Lemma tables_lookup ts w SS i : tables_repr ts w SS → (i < SIZE_TIERS)%nat →
  ∃ t m, ts !! i = Some t ∧ SS !! i = Some m ∧ store_repr t w m.
Proof.
  intros Htb Hi. destruct (lookup_lt_is_Some_2 ts i) as [t Ht]; [by rewrite (tb_len _ _ _ Htb)|].
  destruct (lookup_lt_is_Some_2 SS i) as [m Hm]; [by rewrite (tb_slen _ _ _ Htb)|].
  exists t, m. split_and!; [done|done|by eapply tb_repr].
Qed.

Lemma table_id_inj i j : (i < SIZE_TIERS)%nat → (j < SIZE_TIERS)%nat →
  ValueTableId.new col (Z.of_nat i) = ValueTableId.new col (Z.of_nat j) → i = j.
Proof.
  unfold SIZE_TIERS. intros Hi Hj Heq.
  destruct (value_id_new col (Z.of_nat i) col_u8 ltac:(unfold is_u8; lia)) as (_ & H1 & _).
  destruct (value_id_new col (Z.of_nat j) col_u8 ltac:(unfold is_u8; lia)) as (_ & H2 & _).
  rewrite Heq in H1. lia.
Qed.

(** What an operation stores is a value of this column. *)
Definition op_stores (op : TableOp) : Prop :=
  match op with
  | OpInsert key val c | OpReplace _ key val c => stored_ok (stored_new key val c)
  | _ => True
  end.

Lemma stored_ok_rc n s : stored_ok s → stored_ok (with_rc n s).
Proof. intros [H1 H2]. by split. Qed.

Lemma step_stored m op r m' : store_step m op r m' → op_stores op →
  (∀ off s, m !! off = Some s → stored_ok s) → ∀ off s, m' !! off = Some s → stored_ok s.
Proof.
  intros Hst Hop Hm off s. destruct Hst; cbn in Hop; rewrite ?lookup_insert, ?lookup_delete;
    try case_decide; intros Heq; simplify_eq; eauto using stored_ok_rc.
Qed.

(** One operation on one table. *)
Lemma tables_op ts w SS i t m op : tables_repr ts w SS → ts !! i = Some t → SS !! i = Some m →
  op_pre t m op → op_stores op → filled t + op_cost t op ≤ 2 ^ 48 →
  ∃ r t' w' m', run_op op (t, w) = (Ok r, (t', w')) ∧ store_step m op r m' ∧
    tables_repr (<[i := t']> ts) w' (<[i := m']> SS) ∧
    same_shape t t' ∧ filled t ≤ filled t' ≤ filled t + op_cost t op ∧
    same_index w w'.
Proof.
  intros Htb Ht Hm Hpre Hops Hroom. pose proof Htb as [L1 L2 Hr Hid Hrc Hlast Hst Hlg Hfile Hshape Hhd].
  destruct (run_op_ok t w m op (Hr _ _ _ Ht Hm) Hpre Hroom) as
    (r & t' & w' & m' & Hrun & Hstep & Hr' & Hsh & Hfl & Hfr).
  exists r, t', w', m'. split_and!; try done; [|lia|lia|by split; apply Hfr].
  assert (Hi : (i < SIZE_TIERS)%nat) by (rewrite <- L1; by eapply lookup_lt_Some).
  split; rewrite ?length_insert; try done.
  - intros j t1 m1. rewrite !list_lookup_insert. rewrite L1, L2.
    destruct (decide (i = j ∧ (i < SIZE_TIERS)%nat)) as [[<- _]|Hne]; [by intros [= <-] [= <-]|].
    intros Hj Hmj. eapply store_repr_frame; [|by eapply Hr]. intros n.
    apply (fr_value _ _ _ _ Hfr). left. rewrite (Hid _ _ Hj), (Hid _ _ Ht). intros Heq.
    apply table_id_inj in Heq; [lia| |done]. rewrite <- L1. by eapply lookup_lt_Some.
  - intros j t1. rewrite list_lookup_insert. destruct (decide _) as [[<- _]|]; [|apply Hid].
    intros [= <-]. rewrite (sh_id _ _ Hsh). by apply Hid.
  - intros j t1. rewrite list_lookup_insert. destruct (decide _) as [[<- _]|]; [|apply Hrc].
    intros [= <-]. rewrite (sh_rc _ _ Hsh). by eapply Hrc.
  - intros t1. rewrite list_lookup_insert. destruct (decide _) as [[-> _]|]; [|apply Hlast].
    intros [= <-]. rewrite (sh_multipart _ _ Hsh). by apply Hlast.
  - intros j m1 off s. rewrite list_lookup_insert. destruct (decide _) as [[<- _]|]; [|apply Hst].
    intros [= <-] Hoff. split.
    + pose proof (store_repr_below _ _ _ _ _ Hr' Hoff). lia.
    + eapply step_stored; [done|done| |done]. intros off' s' Hs. by eapply Hst.
  - intros id n d Hc Hd.
    assert (Hnew : (∃ j t1, ts !! j = Some t1 ∧ vt_id t1 = id ∧ 0 ≤ n ≤ 2 ^ 48 ∧ logged t1 n d) ∨
      id = vt_id t ∧ 0 ≤ n ≤ 2 ^ 48 ∧ logged t n d).
    { destruct (decide (id = vt_id t)) as [->|Hne]; [|left; apply Hlg; [done|by rewrite <- (fr_own_other _ _ _ _ Hfr)]].
      destruct (fr_own _ _ _ _ Hfr n d Hd) as [Hx|[Hx%elem_of_seqZ Hs]]; [left; by apply Hlg|right].
      split_and!; [done|lia|lia|]. right. split; [lia|done]. }
    assert (Hup : ∀ j t1, ts !! j = Some t1 → ∃ t2, <[i := t']> ts !! j = Some t2 ∧ same_shape t1 t2).
    { intros j t1 Hj. rewrite list_lookup_insert. destruct (decide _) as [[<- _]|]; [|by exists t1].
      exists t'. split; [done|]. by simplify_eq. }
    destruct Hnew as [(j & t1 & Hj & <- & Hn & Hl)|(-> & Hn & Hl)].
    + destruct (Hup _ _ Hj) as (t2 & Hj2 & Hs2). exists j, t2. split_and!; try done; [apply Hs2|lia|lia|by eapply logged_shape].
    + destruct (Hup _ _ Ht) as (t2 & Hj2 & Hs2). exists i, t2. split_and!; try done; [apply Hs2|lia|lia|by eapply logged_shape].
  - intros j t1. rewrite list_lookup_insert. destruct (decide _) as [[<- _]|]; [|apply Hfile].
    intros [= <-]. eapply file_ok_shape; [done|by eapply Hfile].
  - intros j t1. rewrite list_lookup_insert. destruct (decide _) as [[<- _]|]; [|apply Hshape].
    intros [= <-]. rewrite (sh_size _ _ Hsh), (sh_multipart _ _ Hsh). by apply Hshape.
  - assert (Hother : ∀ j t1, ts !! j = Some t1 → value_view w' (vt_id t1) 0 = value_view w (vt_id t1) 0).
    { intros j t1 Hj. apply (fr_value _ _ _ _ Hfr). right. rewrite elem_of_seqZ. lia. }
    intros j t1. rewrite list_lookup_insert. destruct (decide _) as [[<- _]|].
    + intros [= <-]. apply (header_shown_op t w); [|done|by eapply Hother|by eapply Hhd].
      pose proof (keeps_run_op op (t, w)) as Hk. by rewrite Hrun in Hk.
    + intros Hj. specialize (Hhd _ _ Hj). unfold header_shown in *. by rewrite (Hother _ _ Hj).
Qed.

(** ** The choice of a table *)

Lemma position_Some {A} (p : A → bool) l i : position p l = Some i →
  ∃ x, l !! i = Some x ∧ p x = true.
Proof.
  revert i. induction l as [|x l IH]; intros i; [done|]. cbn. destruct (p x) eqn:E.
  - intros [= <-]. by exists x.
  - destruct (position p l) as [j|]; [|done]. intros [= <-]. by apply IH.
Qed.

Lemma value_size_fits t key val n : table_wf t → value_size t key = Some n →
  Z.of_nat (length val) ≤ n → fits t key val.
Proof.
  intros [Hs _] Hv Hl. right. unfold value_size, MIN_ENTRY_SIZE, MAX_ENTRY_SIZE in *.
  assert (Hrf : (ref_size t ≤ 4)%nat) by (unfold ref_size, REFS_SIZE; destruct (ref_counted t); lia).
  unfold SIZE_SIZE, wrap16, esz in *. rewrite Z.mod_small in Hv by lia.
  destruct (Z.ltb_spec (entry_size t - Z.of_nat 2 - Z.of_nat (ref_size t))
    (Z.of_nat (TableKey.encoded_size key))); [done|]. injection Hv as <-. lia.
Qed.

(** [Column::compress] returns what is to be written: something that
    decompresses to the value, for a table that takes it. *)
Lemma compress_ok `{!CodecLaws} ts w SS c2 key val cv : tables_repr ts w SS →
  Compress.compress c2 val = Ok cv →
  ∃ cval tier t, compress c2 key val ts = Ok (cval, tier) ∧ ts !! tier = Some t ∧
    (tier < SIZE_TIERS)%nat ∧ fits t key (chosen val cval).1 ∧
    plain_value c2 (stored_new key (chosen val cval).1 (chosen val cval).2) val ∧
    (length (chosen val cval).1 ≤ length val)%nat.
Proof.
  intros Htb Hcv.
  assert (Hc : ∃ cval len, (if threshold c2 <? Z.of_nat (length val) then
       cvalue ← Compress.compress c2 val;
       Ok (if (length cvalue <? length val)%nat then (length cvalue, Some cvalue)
           else (length val, None))
     else Ok (length val, None)) = Ok (len, cval) ∧ len = length (chosen val cval).1 ∧
     plain_value c2 (stored_new key (chosen val cval).1 (chosen val cval).2) val ∧ (len ≤ length val)%nat).
  { destruct (threshold c2 <? Z.of_nat (length val)); [|by exists None, (length val)].
    rewrite Hcv, outcome_bind_Ok. destruct (Nat.ltb_spec (length cv) (length val));
      [|by exists None, (length val)].
    exists (Some cv), (length cv). split_and!; [done|done| |lia]. by apply decompress_compress. }
  destruct Hc as (cval & len & E & -> & Hp & Hle). unfold compress. rewrite E, outcome_bind_Ok.
  set (v := (chosen val cval).1) in *.
  destruct (position _ ts) as [i|] eqn:Ei.
  - apply position_Some in Ei as (t & Ht & Hv).
    assert (Hi : (i < SIZE_TIERS)%nat) by (rewrite <- (tb_len _ _ _ Htb); by eapply lookup_lt_Some).
    destruct (tables_lookup _ _ _ _ Htb Hi) as (t' & m & Ht' & Hm & (free & vals & Hr & _)).
    rewrite Ht in Ht'. injection Ht' as <-. exists cval, i, t. split_and!; try done.
    destruct (value_size t key) as [n|] eqn:En; [|done]. apply Z.leb_le in Hv.
    eapply value_size_fits; [apply Hr|done|done].
  - destruct (tables_lookup _ _ _ (SIZE_TIERS - 1) Htb ltac:(unfold SIZE_TIERS; lia)) as (t & m & Ht & Hm & _).
    exists cval, (SIZE_TIERS - 1)%nat, t.
    split_and!; [by rewrite (tb_len _ _ _ Htb)|done|unfold SIZE_TIERS; lia| |done|done].
    left. by eapply tb_last.
Qed.

End Tables.
