(* ===== verification/ColumnLinks.v ===== *)
(** * How the index and the value tables of a column belong together

    [f] is the index as a map from key prefixes and positions to addresses, [g]
    the value tables as a map from addresses to stored values. [links] says that
    they describe a map from full keys to values without leaks: the first 50
    bits of a key are in the index, its last 26 bytes with the value. *)

From S2P Require Import Prelude.
From S2P Require Import Bytes.
From S2P Require Import Ids.
From S2P Require Import Table.
From S2P Require Import TableSpec.
From S2P Require Import Index.
From S2P Require Import IndexProofs.
From S2P Require Import IndexEnact.
From stdpp Require Import options.
#[local] Set Default Proof Using "Type*".

(** ** Keys *)

Definition prefix_of (key : Key) : Z := TableKey.index_from_partial key.

Lemma be_decode_app a b :
  be_decode (a ++ b) = be_decode a * 2 ^ (8 * Z.of_nat (length b)) + be_decode b.
Proof. unfold be_decode. rewrite reverse_app, le_decode_app, length_reverse. lia. Qed.

Lemma be_decode_inj a b : length a = length b → be_decode a = be_decode b → a = b.
Proof.
  unfold be_decode. intros Hl He. apply (inj reverse).
  rewrite <- (le_encode_decode (reverse a)), <- (le_encode_decode (reverse b)), He.
  by rewrite !length_reverse, Hl.
Qed.

(** The first 50 bits and the last 26 bytes are the whole key. *)
Lemma key_split key key' : is_key key → is_key key' →
  key50 (prefix_of key) = key50 (prefix_of key') → partial_key key = partial_key key' → key = key'.
Proof.
  unfold is_key, KEY_SIZE, partial_key, prefix_of, TableKey.index_from_partial, key50.
  intros Hk Hk' H50 Hp. rewrite <- (take_drop 6 key), <- (take_drop 6 key'), Hp. f_equal.
  assert (H6 : ∀ k : Key, length k = 32%nat → be_decode (take 8 k) / 2 ^ 14 / 2 ^ 2 = be_decode (take 6 k)).
  { intros k Hl. rewrite Z.div_div by lia. change (2 ^ 14 * 2 ^ 2) with (2 ^ 16).
    change 8%nat with (6 + 2)%nat. rewrite <- (take_take_drop k 6 2), be_decode_app.
    assert (Hl2 : length (take 2 (drop 6 k)) = 2%nat) by (rewrite length_take, length_drop; lia).
    pose proof (be_decode_range (take 2 (drop 6 k))) as Hr. rewrite Hl2 in *.
    change (8 * Z.of_nat 2) with 16 in *. rewrite Z.div_add_l by lia. rewrite Z.div_small by lia. lia. }
  apply be_decode_inj; [rewrite !length_take; lia|].
  rewrite <- (H6 key Hk), <- (H6 key' Hk'). by rewrite H50.
Qed.

(** ** Links *)

Definition valid_address (a : Address) : Prop := is_u64 (Address.as_u64 a).

Record links (f : IndexView) (g : Address → option Stored) : Prop := {
  lk_resp : ∀ k k' j, is_u64 k → is_u64 k' → key50 k = key50 k' → f k j = f k' j;
  lk_valid : ∀ k j a, is_u64 k → f k j = Some a → valid_address a;
  lk_live : ∀ k j a, is_u64 k → f k j = Some a → is_Some (g a);
  lk_indexed : ∀ a s, valid_address a → g a = Some s → ∃ k j, is_u64 k ∧ f k j = Some a;
  lk_inj : ∀ k j k' j' a, is_u64 k → is_u64 k' → f k j = Some a → f k' j' = Some a →
    key50 k = key50 k' ∧ j = j';
  lk_once : ∀ k j j' a a' s s', is_u64 k → f k j = Some a → f k j' = Some a' →
    g a = Some s → g a' = Some s' → s_key s = s_key s' → j = j';
  lk_owner : ∀ k j a s, is_u64 k → f k j = Some a → g a = Some s →
    ∃ key, is_key key ∧ key50 (prefix_of key) = key50 k ∧ s_key s = partial_key key;
}.

Lemma links_ext f f' g : (∀ k j, f' k j = f k j) → links f g → links f' g.
Proof.
  intros He [H1 H2 H3 H4 H5 H6 H7].
  split; intros *; rewrite ?He; [by apply H1|by apply H2|by apply H3| |by apply H5|by apply H6|by apply H7].
  - intros Ha Hs. destruct (H4 _ _ Ha Hs) as (k & j & Hk & Hf). exists k, j. by rewrite He.
Qed.

Definition holds (f : IndexView) (g : Address → option Stored) (key : Key) (s : Stored) : Prop :=
  ∃ j a, f (prefix_of key) j = Some a ∧ g a = Some s ∧ s_key s = partial_key key.

Lemma holds_unique f g key s s' : links f g → holds f g key s → holds f g key s' → s = s'.
Proof.
  intros Hl (j & a & Hf & Hg & Hk) (j' & a' & Hf' & Hg' & Hk').
  assert (j = j') as <-.
  { eapply (lk_once _ _ Hl); [apply index_prefix_u64|done..|congruence]. }
  congruence.
Qed.

(** One change: position [i] of the key goes from the address [oa] to [oa'],
    [oa] is freed unless it is [oa'], which stores [s']. *)
Section Step.
Context (f f' : IndexView) (g g' : Address → option Stored).
Context (key : Key) (i : nat) (oa oa' : option Address) (s' : Stored).
Abbreviation k := (prefix_of key).

Record link_step : Prop := {
  ls_key : is_key key;
  ls_old : f k i = oa;
  ls_stored : ∀ a, oa = Some a → ∃ s, g a = Some s ∧ s_key s = partial_key key;
  ls_new : oa = None → ∀ s, ¬ holds f g key s;
  ls_index : updated f k i oa' f';
  ls_store : ∀ a, valid_address a →
    g' a = if decide (oa' = Some a) then Some s' else if decide (oa = Some a) then None else g a;
  ls_fresh : ∀ a, oa' = Some a →
    valid_address a ∧ s_key s' = partial_key key ∧ (g a = None ∨ oa = Some a);
}.

Hypothesis Hl : links f g.
Hypothesis Hs : link_step.

Lemma k_u64 : is_u64 k.
Proof. apply index_prefix_u64. Qed.

Lemma at_pos k1 j : is_u64 k1 → key50 k = key50 k1 → i = j → f' k1 j = oa' ∧ f k1 j = oa.
Proof.
  intros Hk1 H50 <-. split; [by rewrite (ls_index Hs), decide_True|].
  rewrite <- (ls_old Hs). symmetry. apply (lk_resp _ _ Hl); [apply k_u64|done|done].
Qed.

(** Everywhere else nothing changes, and the address is not touched. *)
Lemma off_pos k1 j : is_u64 k1 → ¬ (key50 k = key50 k1 ∧ i = j) →
  f' k1 j = f k1 j ∧ ∀ a, f k1 j = Some a → g' a = g a.
Proof.
  intros Hk1 Hn. split; [by rewrite (ls_index Hs), decide_False|]. intros a Ha.
  pose proof (lk_valid _ _ Hl _ _ _ Hk1 Ha) as Hv. rewrite (ls_store Hs) by done.
  assert (Hoa : oa ≠ Some a).
  { intros He. rewrite <- (ls_old Hs) in He. apply Hn.
    by apply (lk_inj _ _ Hl _ _ _ _ _ k_u64 Hk1 He Ha). }
  rewrite (decide_False (P := oa = Some a)) by done.
  destruct (decide (oa' = Some a)) as [He|]; [|done].
  destruct (ls_fresh Hs a He) as (_ & _ & [Hg|?]); [|done].
  destruct (lk_live _ _ Hl _ _ _ Hk1 Ha). congruence.
Qed.

Lemma step_resp k1 k2 j : is_u64 k1 → is_u64 k2 → key50 k1 = key50 k2 → f' k1 j = f' k2 j.
Proof.
  intros H1 H2 H12. rewrite !(ls_index Hs) by done. rewrite H12.
  destruct (decide _); [done|]. by apply (lk_resp _ _ Hl).
Qed.

Lemma step_new_stored a : oa' = Some a → valid_address a ∧ g' a = Some s' ∧ s_key s' = partial_key key.
Proof.
  intros He. destruct (ls_fresh Hs a He) as (Hv & Hk & _). split_and!; [done| |done].
  rewrite (ls_store Hs) by done. by rewrite decide_True.
Qed.

Lemma step_inj k1 j1 k2 j2 a : is_u64 k1 → is_u64 k2 → f' k1 j1 = Some a → f' k2 j2 = Some a →
  key50 k1 = key50 k2 ∧ j1 = j2.
Proof.
  intros H1 H2 F1 F2.
  assert (Hmix : ∀ k1 j1 k2 j2, is_u64 k1 → is_u64 k2 → key50 k = key50 k1 ∧ i = j1 →
    ¬ (key50 k = key50 k2 ∧ i = j2) → f' k1 j1 = Some a → f' k2 j2 = Some a → False).
  { clear k1 j1 k2 j2 H1 H2 F1 F2. intros k1 j1 k2 j2 H1 H2 [P1 P2] N F1 F2.
    destruct (at_pos k1 j1 H1 P1 P2) as [E1 _]. rewrite E1 in F1.
    destruct (off_pos k2 j2 H2 N) as [E2 Hg]. rewrite E2 in F2.
    destruct (ls_fresh Hs a F1) as (_ & _ & [Hn|Ho]).
    - destruct (lk_live _ _ Hl _ _ _ H2 F2). congruence.
    - rewrite <- (ls_old Hs) in Ho. apply N. by apply (lk_inj _ _ Hl _ _ _ _ _ k_u64 H2 Ho F2). }
  destruct (decide (key50 k = key50 k1 ∧ i = j1)) as [P|N1];
    destruct (decide (key50 k = key50 k2 ∧ i = j2)) as [Q|N2].
  - destruct P, Q. split; congruence.
  - destruct (Hmix k1 j1 k2 j2 H1 H2 P N2 F1 F2).
  - destruct (Hmix k2 j2 k1 j1 H2 H1 Q N1 F2 F1).
  - destruct (off_pos k1 j1 H1 N1) as [E1 _], (off_pos k2 j2 H2 N2) as [E2 _]. rewrite E1 in F1. rewrite E2 in F2.
    by eapply (lk_inj _ _ Hl).
Qed.

(** No other position of the key has its value. *)
Lemma step_alone k1 j a s : is_u64 k1 → key50 k = key50 k1 → i ≠ j → f k1 j = Some a →
  g a = Some s → s_key s ≠ partial_key key.
Proof.
  intros H1 H50 Hij Ha Hg Hk.
  assert (Hf : f k j = Some a) by (rewrite <- Ha; apply (lk_resp _ _ Hl); [apply k_u64|done|done]).
  destruct (f k i) as [b|] eqn:Hoa; pose proof (ls_old Hs) as Ho; rewrite Hoa in Ho.
  - destruct (ls_stored Hs b (eq_sym Ho)) as (sb & Hgb & Hkb). apply Hij.
    eapply (lk_once _ _ Hl); [apply k_u64|exact Hoa|exact Hf|done|done|congruence].
  - apply (ls_new Hs (eq_sym Ho) s). by exists j, a.
Qed.

Lemma links_after : links f' g'.
Proof.
  split.
  - exact step_resp.
  - intros k1 j a H1 Ha. destruct (decide (key50 k = key50 k1 ∧ i = j)) as [[P1 P2]|N].
    + destruct (at_pos k1 j H1 P1 P2) as [E _]. rewrite E in Ha. by apply step_new_stored.
    + destruct (off_pos k1 j H1 N) as [E _]. rewrite E in Ha. by eapply (lk_valid _ _ Hl).
  - intros k1 j a H1 Ha. destruct (decide (key50 k = key50 k1 ∧ i = j)) as [[P1 P2]|N].
    + destruct (at_pos k1 j H1 P1 P2) as [E _]. rewrite E in Ha.
      destruct (step_new_stored a Ha) as (_ & -> & _). eauto.
    + destruct (off_pos k1 j H1 N) as [E Hg]. rewrite E in Ha. rewrite (Hg a Ha).
      by eapply (lk_live _ _ Hl).
  - intros a s Hv Ha. rewrite (ls_store Hs) in Ha by done.
    destruct (decide (oa' = Some a)) as [He|].
    + exists k, i. split; [apply k_u64|]. by rewrite (ls_index Hs), decide_True by (done || apply k_u64).
    + destruct (decide (oa = Some a)) as [|Hne]; [done|].
      destruct (lk_indexed _ _ Hl a s Hv Ha) as (k1 & j & H1 & Hf). exists k1, j. split; [done|].
      rewrite (ls_index Hs) by done. rewrite decide_False; [done|]. intros [P1 P2].
      destruct (at_pos k1 j H1 P1 P2) as [_ E]. congruence.
  - exact step_inj.
  - intros k1 j1 j2 a1 a2 s1 s2 H1 F1 F2 G1 G2 Hk.
    assert (Hmix : ∀ j1 j2 a1 a2 s1 s2, key50 k = key50 k1 ∧ i = j1 → ¬ (key50 k = key50 k1 ∧ i = j2) →
      f' k1 j1 = Some a1 → f' k1 j2 = Some a2 → g' a1 = Some s1 → g' a2 = Some s2 →
      s_key s1 = s_key s2 → False).
    { clear j1 j2 a1 a2 s1 s2 F1 F2 G1 G2 Hk. intros j1 j2 a1 a2 s1 s2 [P1 P2] N F1 F2 G1 G2 Hk.
      destruct (at_pos k1 j1 H1 P1 P2) as [E1 _]. rewrite E1 in F1.
      destruct (step_new_stored a1 F1) as (_ & Hg1 & Hk1).
      destruct (off_pos k1 j2 H1 N) as [E2 Hg]. rewrite E2 in F2. rewrite (Hg a2 F2) in G2.
      eapply (step_alone k1 j2); [done|done|naive_solver|done|done|congruence]. }
    destruct (decide (key50 k = key50 k1 ∧ i = j1)) as [P|N1];
      destruct (decide (key50 k = key50 k1 ∧ i = j2)) as [Q|N2].
    + destruct P, Q. congruence.
    + by destruct (Hmix j1 j2 a1 a2 s1 s2).
    + by destruct (Hmix j2 j1 a2 a1 s2 s1).
    + destruct (off_pos k1 j1 H1 N1) as [E1 Hg1], (off_pos k1 j2 H1 N2) as [E2 Hg2].
      rewrite E1 in F1. rewrite E2 in F2. rewrite (Hg1 _ F1) in G1. rewrite (Hg2 _ F2) in G2.
      by eapply (lk_once _ _ Hl).
  - intros k1 j a s H1 F1 G1. destruct (decide (key50 k = key50 k1 ∧ i = j)) as [[P1 P2]|N].
    + destruct (at_pos k1 j H1 P1 P2) as [E _]. rewrite E in F1.
      destruct (step_new_stored a F1) as (_ & Hg & Hk). exists key. split_and!; [apply (ls_key Hs)|done|congruence].
    + destruct (off_pos k1 j H1 N) as [E Hg]. rewrite E in F1. rewrite (Hg a F1) in G1.
      by eapply (lk_owner _ _ Hl).
Qed.

(** The key holds what was written, every other key what it held. *)
Lemma holds_after key1 s : is_key key1 →
  holds f' g' key1 s ↔ if decide (key1 = key) then is_Some oa' ∧ s = s' else holds f g key1 s.
Proof.
  intros Hkey1. pose proof (index_prefix_u64 key1) as H1. fold (prefix_of key1) in H1.
  destruct (decide (key1 = key)) as [->|Hne]; split.
  - intros (j & a & Hf & Hg & Hk). destruct (decide (i = j)) as [P|N].
    + destruct (at_pos _ j H1 eq_refl P) as [E _]. rewrite E in Hf.
      destruct (step_new_stored a Hf) as (_ & Hg' & _). split; [eauto|congruence].
    + destruct (off_pos _ j H1 ltac:(naive_solver)) as [E Hg']. rewrite E in Hf.
      rewrite (Hg' a Hf) in Hg. by destruct (step_alone k j a s H1 eq_refl N Hf Hg).
  - intros [[a Ha] ->]. destruct (step_new_stored a Ha) as (_ & Hg & Hk).
    exists i, a. split_and!; [|done|done]. by destruct (at_pos _ i H1 eq_refl eq_refl) as [-> _].
  - intros (j & a & Hf & Hg & Hk).
    destruct (decide (key50 k = key50 (prefix_of key1) ∧ i = j)) as [[P1 P2]|N].
    + destruct (at_pos _ j H1 P1 P2) as [E _]. rewrite E in Hf.
      destruct (step_new_stored a Hf) as (_ & Hg' & Hk'). destruct Hne. symmetry.
      apply key_split; [apply (ls_key Hs)|done|done|congruence].
    + destruct (off_pos _ j H1 N) as [E Hg']. rewrite E in Hf. rewrite (Hg' a Hf) in Hg.
      by exists j, a.
  - intros (j & a & Hf & Hg & Hk).
    destruct (decide (key50 k = key50 (prefix_of key1) ∧ i = j)) as [[P1 P2]|N].
    + destruct (at_pos _ j H1 P1 P2) as [_ E]. rewrite E in Hf.
      destruct (ls_stored Hs a Hf) as (s0 & Hg0 & Hk0). destruct Hne. symmetry.
      apply key_split; [apply (ls_key Hs)|done|done|congruence].
    + destruct (off_pos _ j H1 N) as [E Hg']. exists j, a. by rewrite E, (Hg' a Hf).
Qed.

End Step.
