(* ===== verification/ColumnProofs.v ===== *)
(** * Correctness of hash columns

    A column that is not being reindexed represents a map from keys to values
    with reference counts; lookups read the map and planned writes update it. *)

From S2P Require Import Prelude.
From S2P Require Import Bytes.
From S2P Require Import Ids.
From S2P Require Import File.
From S2P Require Import Log.
From S2P Require Import Table.
From S2P Require Import TableSpec.
From S2P Require Import TableOps.
From S2P Require Import TableRefine.
From S2P Require Import TableStore.
From S2P Require Import Index.
From S2P Require Import IndexProofs.
From S2P Require Import IndexEnact.
From S2P Require Import Compress.
From S2P Require Import Stats.
From S2P Require Import Column.
From S2P Require Import HashColumn.
From S2P Require Import ColumnTables.
From S2P Require Import ColumnLinks.
From stdpp Require Import options.
#[local] Set Default Proof Using "Type*".

(** The value stored at an address. *)
Definition stored_at (SS : list Store) (a : Address) : option Stored :=
  SS !! tier_of a ≫= fun m => m !! Address.offset a.

Lemma stored_table `{!Uninit, !Codecs} col rc comp ts w SS a s :
  tables_repr col rc comp ts w SS → stored_at SS a = Some s →
  ∃ t m, ts !! tier_of a = Some t ∧ SS !! tier_of a = Some m ∧ store_repr t w m ∧
    m !! Address.offset a = Some s ∧ stored_ok comp s.
Proof.
  intros Htb. unfold stored_at. destruct (SS !! tier_of a) as [m|] eqn:Em; [|done]. cbn. intros Hs.
  destruct (lookup_lt_is_Some_2 ts (tier_of a)) as [t Ht].
  { rewrite (tb_len _ _ _ _ _ _ Htb), <- (tb_slen _ _ _ _ _ _ Htb). by eapply lookup_lt_Some. }
  exists t, m. split_and!; [done|done|by eapply tb_repr|done|by eapply tb_stored].
Qed.

Section Search.
Context `{!Uninit, !Codecs}.
Context (col : ColId) (rc : bool) (comp : Compress) (ts : list ValueTable) (w : LogWriter)
  (SS : list Store) (idx : IndexTable) (key : Key).
Hypothesis Htb : tables_repr col rc comp ts w SS.
Hypothesis Hwf : index_wf idx w.
Hypothesis Hlk : links (lookup_at idx w) (stored_at SS).
Abbreviation k := (prefix_of key).

(** The position of the key in the index, if it is stored. *)
Definition hit (j : nat) (a : Address) (s : Stored) : Prop :=
  lookup_at idx w k j = Some a ∧ stored_at SS a = Some s ∧ s_key s = partial_key key.

Definition no_hit (n : nat) : Prop := ∀ j a s, (n ≤ j)%nat → ¬ hit j a s.

Lemma hit_unique j a s j' a' s' : hit j a s → hit j' a' s' → j = j' ∧ a = a' ∧ s = s'.
Proof.
  intros (H1 & H2 & H3) (H1' & H2' & H3').
  assert (j = j') as <-.
  { eapply (lk_once _ _ Hlk); [apply index_prefix_u64|done..|congruence]. }
  split_and!; congruence.
Qed.

(** One step of a search: the next entry with the prefix of the key, its
    address holds a value of some key, and before it there is no hit. *)
Lemma search_step n :
  ∃ e j, get_index idx key n w = Ok (e, j) ∧
    (IEntry.is_empty e = true ∧ no_hit n ∨
     IEntry.is_empty e = false ∧ (n ≤ j < CHUNK_ENTRIES)%nat ∧
       (∀ i a s, (n ≤ i < j)%nat → ¬ hit i a s) ∧
       ∃ s, lookup_at idx w k j = Some (IEntry.address (bits idx) e) ∧
            stored_at SS (IEntry.address (bits idx) e) = Some s).
Proof.
  destruct (get_index_first idx w key n Hwf) as (e & j & E & [(Hj & Hl & He & Hb)|(-> & -> & Hb)]);
    fold k in *; exists e || exists IEntry.empty; eexists; (split; [exact E|]).
  - right. split; [done|]. pose proof (lookup_at_Some _ _ _ _ _ Hl) as (Hlt & _).
    split; [lia|]. split.
    + intros i a s Hi (Hla & _). by rewrite (Hb i Hi) in Hla.
    + destruct (lk_live _ _ Hlk k j _ ltac:(apply index_prefix_u64) Hl) as [s Hs]. by exists s.
  - left. split; [done|]. intros j' a s Hj' (Hla & _). by rewrite (Hb j' Hj') in Hla.
Qed.

Lemma no_hit_next n j a s : (∀ i a s, (n ≤ i < j)%nat → ¬ hit i a s) →
  lookup_at idx w k j = Some a → stored_at SS a = Some s → s_key s ≠ partial_key key →
  no_hit (S j) → no_hit n.
Proof.
  intros Hb Hl Hs Hne Hn i a' s' Hi Hh. destruct (decide (i < j)%nat); [by eapply (Hb i)|].
  destruct (decide (i = j)) as [->|]; [|by apply (Hn i a' s'); [lia|]].
  destruct Hh as (H1 & H2 & H3). congruence.
Qed.

(** What an entry of the index leads to has a partial key. *)
Lemma indexed_key_length j a s : lookup_at idx w k j = Some a → stored_at SS a = Some s →
  length (s_key s) = PARTIAL_SIZE.
Proof.
  intros Hl Hs. destruct (lk_owner _ _ Hlk _ _ _ _ (index_prefix_u64 key) Hl Hs) as (key' & Hk & _ & ->).
  by apply partial_length.
Qed.

Lemma stored_has_key j a s : lookup_at idx w k j = Some a → stored_at SS a = Some s →
  ∃ t, ts !! tier_of a = Some t ∧
    has_key_at t (Address.offset a) (Partial key) w = Ok (bool_decide (s_key s = partial_key key)).
Proof.
  intros Hl Hs. destruct (stored_table _ _ _ _ _ _ a s Htb Hs) as (t & m & Ht & Hm & Hr & Hoff & _).
  exists t. split; [done|]. apply (has_key_at_store t w m); [done..|by eapply indexed_key_length].
Qed.

Lemma search_loop_ok fuel : ∀ n e j, get_index idx key n w = Ok (e, j) →
  (n ≤ CHUNK_ENTRIES < n + fuel)%nat →
  (∃ j' a s, search_index_loop fuel key idx ts w e j = Ok (Some (j', a)) ∧ hit j' a s) ∨
  search_index_loop fuel key idx ts w e j = Ok None ∧ no_hit n.
Proof.
  induction fuel as [|fuel IH]; intros n e j Hg Hf; [lia|]. cbn [search_index_loop].
  destruct (search_step n) as (e' & j' & E & Hcase). rewrite Hg in E. injection E as <- <-.
  destruct Hcase as [(He & Hn)|(He & Hj & Hb & s & Hl & Hs)]; rewrite He; [by right|].
  set (a := IEntry.address (bits idx) e) in *. destruct (stored_has_key j a s Hl Hs) as (t & Ht & Hk).
  rewrite Ht. cbn [unwrap]. rewrite outcome_bind_Ok, Hk, outcome_bind_Ok.
  destruct (bool_decide_reflect (s_key s = partial_key key)) as [Hkey|Hkey].
  - left. by exists j, a, s.
  - destruct (search_step (S j)) as (e2 & j2 & E2 & _). rewrite E2, outcome_bind_Ok.
    destruct (IH (S j) e2 j2 E2 ltac:(lia)) as [Hfound|[Hnone Hn]]; [by left|].
    right. split; [done|]. by eapply no_hit_next.
Qed.

(** [search_index] finds the key if and only if it is stored. *)
Lemma search_index_ok :
  (∃ j a s, search_index key idx ts w = Ok (Some (idx, j, a)) ∧ hit j a s) ∨
  search_index key idx ts w = Ok None ∧ no_hit 0.
Proof.
  unfold search_index. destruct (search_step 0) as (e & j & E & _). rewrite E, outcome_bind_Ok.
  destruct (search_loop_ok search_fuel 0 e j E) as [(j' & a & s & -> & Hh)|[-> Hn]].
  - unfold search_fuel. lia.
  - left. by exists j', a, s.
  - by right.
Qed.

Lemma stored_get_value j a s : lookup_at idx w k j = Some a → stored_at SS a = Some s →
  ∃ v, plain_value comp s v ∧
  get_value (Check_ (Partial key)) a ts comp w =
    Ok (if decide (s_key s = partial_key key) then Some (Address.size_tier a, v) else None).
Proof.
  intros Hl Hs. destruct (stored_table _ _ _ _ _ _ a s Htb Hs) as (t & m & Ht & Hm & Hr & Hoff & Hok).
  pose proof Hok as [_ [v Hv]]. pose proof (indexed_key_length j a s Hl Hs) as Hkl. exists v. split; [done|]. unfold get_value. rewrite Ht. cbn [unwrap].
  rewrite outcome_bind_Ok, (query_store t w m (Address.offset a) s (Check_ (Partial key)) Hr Hoff)
    by done. rewrite outcome_bind_Ok. cbn [key_match key_bytes].
  destruct (decide (partial_key key = s_key s)) as [E|E].
  - rewrite decide_True by done. unfold plain_value in Hv.
    destruct (s_compressed s); [by rewrite Hv|]. by rewrite Hv.
  - by rewrite decide_False by congruence.
Qed.

Lemma get_loop_ok fuel : ∀ n e j, get_index idx key n w = Ok (e, j) →
  (n ≤ CHUNK_ENTRIES < n + fuel)%nat →
  (∃ j' a s v, get_in_index_loop fuel key idx ts comp w e j = Ok (Some (Address.size_tier a, v)) ∧
     hit j' a s ∧ plain_value comp s v) ∨
  get_in_index_loop fuel key idx ts comp w e j = Ok None ∧ no_hit n.
Proof.
  induction fuel as [|fuel IH]; intros n e j Hg Hf; [lia|]. cbn [get_in_index_loop].
  destruct (search_step n) as (e' & j' & E & Hcase). rewrite Hg in E. injection E as <- <-.
  destruct Hcase as [(He & Hn)|(He & Hj & Hb & s & Hl & Hs)]; rewrite He; [by right|].
  set (a := IEntry.address (bits idx) e) in *. destruct (stored_get_value j a s Hl Hs) as (v & Hv & ->).
  rewrite outcome_bind_Ok. destruct (decide (s_key s = partial_key key)) as [Hkey|Hkey].
  - left. by exists j, a, s, v.
  - destruct (search_step (S j)) as (e2 & j2 & E2 & _). rewrite E2, outcome_bind_Ok.
    destruct (IH (S j) e2 j2 E2 ltac:(lia)) as [Hfound|[Hnone Hn]]; [by left|].
    right. split; [done|]. by eapply no_hit_next.
Qed.

Lemma get_in_index_ok :
  (∃ j a s v, get_in_index key idx ts comp w = Ok (Some (Address.size_tier a, v)) ∧
     hit j a s ∧ plain_value comp s v) ∨
  get_in_index key idx ts comp w = Ok None ∧ no_hit 0.
Proof.
  unfold get_in_index. destruct (search_step 0) as (e & j & E & _). rewrite E, outcome_bind_Ok.
  destruct (get_loop_ok search_fuel 0 e j E) as [Hf|[Hn1 Hn2]]; [|by left|by right].
  unfold search_fuel. lia.
Qed.

Lemma no_hit_holds : no_hit 0 → ∀ s, ¬ holds (lookup_at idx w) (stored_at SS) key s.
Proof. intros Hn s (j & a & Hh). apply (Hn j a s); [lia|done]. Qed.

End Search.
