(* ===== verification/ColumnValues.v ===== *)
(** * Correctness of the value plans of a column

    [Column::write_existing_value_plan] and [Column::write_new_value_plan]
    (src/src/column.rs) on the map from addresses to stored values. *)

From S2P Require Import Prelude.
From S2P Require Import Bytes.
From S2P Require Import Ids.
From S2P Require Import Log.
From S2P Require Import Table.
From S2P Require Import TableSpec.
From S2P Require Import TableOps.
From S2P Require Import TableRefine.
From S2P Require Import TableStore.
From S2P Require Import Index.
From S2P Require Import Compress.
From S2P Require Import Stats.
From S2P Require Import Column.
From S2P Require Import ColumnTables.
From S2P Require Import ColumnLinks.
From S2P Require Import ColumnProofs.
From stdpp Require Import options.
#[local] Set Default Proof Using "Type*".

(** ** Addresses *)

Lemma address_loc a b : valid_address a → valid_address b → tier_of a = tier_of b →
  Address.offset a = Address.offset b → a = b.
Proof.
  intros Ha Hb Ht Ho. rewrite <- (address_offset_tier a Ha), <- (address_offset_tier b Hb), Ho.
  f_equal. unfold tier_of in Ht.
  assert (Hr : ∀ x, 0 ≤ Address.size_tier x) by (intros x; apply Z.mod_pos_bound; lia).
  pose proof (Hr a). pose proof (Hr b). lia.
Qed.

Lemma address_new_loc off i : 0 ≤ off < 2 ^ 48 → (i < SIZE_TIERS)%nat →
  let a := Address.new off (wrap8 (Z.of_nat i)) in
  valid_address a ∧ tier_of a = i ∧ Address.offset a = off ∧ (1 ≤ off → 0 < Address.as_u64 a).
Proof.
  intros Ho Hi a. unfold SIZE_TIERS in Hi.
  assert (Hw : wrap8 (Z.of_nat i) = Z.of_nat i) by (apply Z.mod_small; lia).
  destruct (address_new off (Z.of_nat i) ltac:(lia) ltac:(unfold is_u8; lia)) as (H1 & H2 & H3).
  unfold a. rewrite Hw. split_and!; [exact H3|unfold tier_of; rewrite H2; lia|done|].
  intros H. destruct (decide (Address.as_u64 (Address.new off (Z.of_nat i)) = 0)) as [E|E].
  - unfold Address.offset in H1. unfold Address.as_u64 in E. rewrite E in H1.
    unfold shr64 in H1. rewrite Z.shiftr_0_l in H1. lia.
  - unfold is_u64 in H3. lia.
Qed.

(** ** One operation on one tier *)

Definition op_target (op : TableOp) (r : TableRes) : Z :=
  match op, r with
  | OpInsert _ _ _, ResAddr i => i
  | OpReplace i _ _ _, _ | OpRemove i, _ | OpIncRef i, _ | OpDecRef i, _ => i
  | _, _ => 0
  end.

Lemma step_frame m op r m' j : store_step m op r m' → j ≠ op_target op r → m' !! j = m !! j.
Proof.
  intros Hst Hj. destruct Hst; cbn in Hj; rewrite ?lookup_insert_ne, ?lookup_delete_ne by done; done.
Qed.

(** A bound on the entries that an operation adds, for any table. *)
Definition op_bound (op : TableOp) : Z :=
  match op with
  | OpInsert _ val _ | OpReplace _ _ val _ => 31 + Z.of_nat (length val)
  | _ => 0
  end.

Lemma op_cost_bound t op : op_cost t op ≤ op_bound op.
Proof.
  assert (Hr : (ref_size t ≤ 4)%nat) by (unfold ref_size, REFS_SIZE; destruct (ref_counted t); lia).
  assert (Hk : ∀ key, (TableKey.encoded_size key ≤ 26)%nat) by (intros []; cbn; unfold PARTIAL_SIZE; lia).
  destruct op as [key val c|i key val c|i|i|i]; cbn; unfold payload_len; try lia;
    specialize (Hk key); lia.
Qed.

Section Values.
Context `{!Uninit, !Codecs}.
Context (col : ColId) (rc : bool) (comp : Compress).
Hypothesis col_u8 : is_u8 col.
Abbreviation repr := (tables_repr col rc comp).

(** What one operation does to the tables of [r]. *)
Record tier_done (r : TablesRef) (w : LogWriter) (SS : list Store) (n : Z)
    (ts : list ValueTable) (w' : LogWriter) (SS' : list Store) : Prop := {
  td_repr : repr ts w' SS';
  td_index : same_index w w';
  td_room : ∀ N, room (tr_tables r) N → room ts (N - n);
}.

Lemma on_tier_run {A} (op : TableOp) (m : ST TW A) (f : A → TableRes) r w SS i :
  (∀ s, run_op op s = (x ← m; mret (f x)) s) → repr (tr_tables r) w SS → (i < SIZE_TIERS)%nat →
  (∀ t mi, tr_tables r !! i = Some t → SS !! i = Some mi → op_pre t mi op) → op_stores comp op →
  room (tr_tables r) (op_bound op) →
  ∃ x w' ts mi mi', on_tier i m (r, w) = (Ok x, (set_tr_tables ts r, w')) ∧
    SS !! i = Some mi ∧ store_step mi op (f x) mi' ∧
    tier_done r w SS (op_bound op) ts w' (<[i := mi']> SS).
Proof.
  intros Hm Htb Hi Hpre Hst Hroom. destruct (tables_lookup _ _ _ col_u8 _ _ _ i Htb Hi) as (t & mi & Ht & Hmi & _).
  pose proof (op_cost_bound t op) as Hcost. pose proof (Hroom i t Ht) as Hrt.
  destruct (tables_op col rc comp col_u8 _ _ _ i t mi op Htb Ht Hmi (Hpre _ _ Ht Hmi) Hst ltac:(lia)) as
    (x & t' & w' & mi' & Hrun & Hstep & Htb' & Hsh & Hfl & Hidx).
  rewrite Hm in Hrun. apply ST_bind_inv in Hrun as (y & s1 & Hy & Hret). injection Hret as <- ->.
  exists y, w', (<[i := t']> (tr_tables r)), mi, mi'. split_and!; [|done|done|].
  - unfold on_tier. by rewrite Ht, Hy.
  - split; [done|done|]. intros N HN j t1. rewrite list_lookup_insert.
    destruct (decide _) as [[<- _]|]; [intros [= <-]; specialize (HN i t Ht); lia|].
    intros Hj. specialize (HN j t1 Hj). destruct op; cbn in *; lia.
Qed.

Lemma stored_at_insert SS i m' a : (i < length SS)%nat →
  stored_at (<[i := m']> SS) a =
  if decide (tier_of a = i) then m' !! Address.offset a else stored_at SS a.
Proof.
  intros Hi. unfold stored_at. rewrite list_lookup_insert.
  destruct (decide (tier_of a = i)) as [<-|Hne].
  - by rewrite decide_True.
  - by rewrite decide_False by lia.
Qed.

(** The map from addresses after an operation: only the target changes. *)
Lemma stored_at_step SS i mi mi' op r a b : SS !! i = Some mi → store_step mi op r mi' →
  valid_address a → valid_address b → tier_of a = i → Address.offset a = op_target op r →
  stored_at (<[i := mi']> SS) b = if decide (a = b) then mi' !! Address.offset a else stored_at SS b.
Proof.
  intros Hmi Hst Ha Hb Hi Ho. rewrite stored_at_insert by (by eapply lookup_lt_Some).
  destruct (decide (a = b)) as [<-|Hne]; [by rewrite decide_True|].
  destruct (decide (tier_of b = i)) as [Hbi|]; [|done].
  rewrite (step_frame _ _ _ _ _ Hst).
  - unfold stored_at. by rewrite Hbi, Hmi.
  - intros Heq. apply Hne. apply address_loc; congruence.
Qed.

Lemma tier_of_lt a : (tier_of a < SIZE_TIERS)%nat.
Proof.
  unfold tier_of, SIZE_TIERS, Address.size_tier, wrap8.
  pose proof (Z.mod_pos_bound (Z.land (address_u64 a) (Z.shiftl 1 SIZE_TIERS_BITS - 1)) (2 ^ 8)). lia.
Qed.

(** An operation on the value at an address. *)
Lemma at_address {A} (op : TableOp) (m : ST TW A) (f : A → TableRes) r w SS a s :
  (∀ s, run_op op s = (x ← m; mret (f x)) s) → repr (tr_tables r) w SS → valid_address a →
  stored_at SS a = Some s → (∀ x, op_target op x = Address.offset a) →
  (∀ t mi, tr_tables r !! tier_of a = Some t → mi !! Address.offset a = Some s → op_pre t mi op) →
  op_stores comp op → room (tr_tables r) (op_bound op) →
  ∃ x w' ts mi mi' SS', on_tier (tier_of a) m (r, w) = (Ok x, (set_tr_tables ts r, w')) ∧
    mi !! Address.offset a = Some s ∧ store_step mi op (f x) mi' ∧
    tier_done r w SS (op_bound op) ts w' SS' ∧
    ∀ b, valid_address b →
      stored_at SS' b = if decide (a = b) then mi' !! Address.offset a else stored_at SS b.
Proof.
  intros Hm Htb Ha Hs Htg Hpre Hst Hroom.
  assert (Hpre' : ∀ t mi, tr_tables r !! tier_of a = Some t → SS !! tier_of a = Some mi → op_pre t mi op).
  { intros t mi Ht Hmi. apply Hpre; [done|]. unfold stored_at in Hs. by rewrite Hmi in Hs. }
  destruct (on_tier_run op m f r w SS (tier_of a) Hm Htb (tier_of_lt a) Hpre' Hst Hroom) as
    (x & w' & ts & mi & mi' & Hrun & Hmi & Hstep & Hd).
  exists x, w', ts, mi, mi', (<[tier_of a := mi']> SS). split_and!; [done| |done|done|].
  - unfold stored_at in Hs. by rewrite Hmi in Hs.
  - intros b Hb. by eapply stored_at_step.
Qed.

(** Inserting a value: it is stored at an address that was free. *)
Lemma insert_fresh r w SS tier t key val c : repr (tr_tables r) w SS → (tier < SIZE_TIERS)%nat →
  tr_tables r !! tier = Some t → key_wf key → fits t key val → stored_ok comp (stored_new key val c) →
  room (tr_tables r) (31 + Z.of_nat (length val)) →
  ∃ off w' ts SS', on_tier tier (write_insert_plan key val c) (r, w) = (Ok off, (set_tr_tables ts r, w')) ∧
    let a' := Address.new off (wrap8 (Z.of_nat tier)) in
    valid_address a' ∧ tier_of a' = tier ∧ 0 < Address.as_u64 a' ∧ stored_at SS a' = None ∧
    tier_done r w SS (31 + Z.of_nat (length val)) ts w' SS' ∧
    ∀ b, valid_address b →
      stored_at SS' b = if decide (a' = b) then Some (stored_new key val c) else stored_at SS b.
Proof.
  intros Htb Hlt Ht Hkw Hfit Hso Hroom.
  destruct (on_tier_run (OpInsert key val c) (write_insert_plan key val c) ResAddr r w SS tier) as
    (off & w2 & ts2 & m2 & m2' & Hrun & Hm2 & Hst & Hd); try done.
  { intros t' m' Ht' _. rewrite Ht in Ht'. by injection Ht' as <-. }
  pose proof Hst as Hst0. inversion Hst0 as [? ? ? ? ? Hfree Hoff1| | | | | |]; subst.
  assert (Hoff : 1 ≤ off < 2 ^ 48).
  { eapply (tb_stored _ _ _ _ _ _ (td_repr _ _ _ _ _ _ _ Hd) tier);
      [apply list_lookup_insert_eq; by eapply lookup_lt_Some|]. apply lookup_insert_eq. }
  destruct (address_new_loc off tier ltac:(lia) Hlt) as (V1 & V2 & V3 & V4).
  exists off, w2, ts2, (<[tier := <[off := stored_new key val c]> m2]> SS).
  split; [done|]. cbv zeta. split_and!; try done; [apply V4; lia|unfold stored_at; by rewrite V2, V3, Hm2|].
  intros b Hb. rewrite (stored_at_step SS tier m2 _ _ _ _ b Hm2 Hst V1 Hb V2 V3).
  rewrite V3. destruct (decide _); [apply lookup_insert_eq|done].
Qed.

(** ** The plan for a stored value *)

(** The tables and statistics change, the configuration does not. *)
Definition same_config (r r' : TablesRef) : Prop :=
  tr_compression r' = tr_compression r ∧ tr_preimage r' = tr_preimage r ∧
  tr_ref_counted r' = tr_ref_counted r ∧ (is_Some (tr_stats r') ↔ is_Some (tr_stats r)).

Lemma same_config_refl r : same_config r r.
Proof. by split_and!. Qed.

Lemma same_config_trans r1 r2 r3 : same_config r1 r2 → same_config r2 r3 → same_config r1 r3.
Proof. intros (A1 & A2 & A3 & A4) (B1 & B2 & B3 & B4). split_and!; [congruence..|tauto]. Qed.

Lemma same_config_tables r ts : same_config r (set_tr_tables ts r).
Proof. by split_and!. Qed.

Lemma same_config_stats r f : same_config r (update_stats f r).
Proof. split_and!; [done..|]. cbn. by rewrite fmap_is_Some. Qed.

Lemma remove_stats (x : option (Z * Z)) r w : ∃ r',
  (match x with
   | Some (compressed_size, uncompressed_size) =>
       on_stats (ColumnStats.remove_val uncompressed_size compressed_size)
   | None => mret tt
   end) (r, w) = (Ok tt, (r', w)) ∧ tr_tables r' = tr_tables r ∧ same_config r r'.
Proof.
  destruct x as [[p q]|].
  - eexists. split; [reflexivity|]. split; [done|apply same_config_stats].
  - exists r. split; [done|]. split; [done|apply same_config_refl].
Qed.

(** What becomes of the stored value [s] under the key: its address and value
    afterwards. This is the contract of the plan. *)
Definition value_spec (pre : bool) (s : Stored) (val : option bytes) (oa' : option Address)
    (s' : Stored) : Prop :=
  match val with
  | Some v =>
      is_Some oa' ∧
      if rc then s' = with_rc (Z.min LOCKED_REF (s_rc s + 1)) s
      else if pre then s' = s
      else plain_value comp s' v ∧ s_rc s' = 1 ∧ s_key s' = s_key s
  | None =>
      if rc then
        if s_rc s =? LOCKED_REF then is_Some oa' ∧ s' = s
        else if s_rc s =? 1 then oa' = None
        else is_Some oa' ∧ s' = with_rc (s_rc s - 1) s
      else oa' = None
  end.

(** What the caller is told, and where the value is. *)
Definition address_spec (SS : list Store) (a : Address) (val : option bytes)
    (res : option PlanOutcome * option Address) (oa' : option Address) : Prop :=
  match oa' with
  | Some a' =>
      a' = a ∧ (∃ o, res = (Some o, None) ∧ o ≠ NeedReindex) ∨
      is_Some val ∧ res = (None, Some a') ∧ valid_address a' ∧ stored_at SS a' = None ∧
        0 < Address.as_u64 a'
  | None => val = None ∧ res = (None, Some a)
  end.

(** What a plan leaves unchanged; it adds at most [n] entries to a table. *)
Record plan_done (n : Z) (r : TablesRef) (w : LogWriter) (SS : list Store) (r' : TablesRef) (w' : LogWriter)
    (SS' : list Store) : Prop := {
  pd_repr : repr (tr_tables r') w' SS';
  pd_index : same_index w w';
  pd_config : same_config r r';
  pd_room : ∀ N, room (tr_tables r) N → room (tr_tables r') (N - n);
}.

(** A bound on the entries that a write adds to a table. *)
Definition write_bound (val : option bytes) : Z :=
  match val with Some v => 31 + Z.of_nat (length v) | None => 0 end.

Lemma room_le ts n m : n ≤ m → room ts m → room ts n.
Proof. intros Hn Hr i t Hi. specialize (Hr i t Hi). lia. Qed.

Lemma plan_done_le n m r w SS r' w' SS' : n ≤ m →
  plan_done n r w SS r' w' SS' → plan_done m r w SS r' w' SS'.
Proof.
  intros Hn [D1 D2 D3 D4]. split; [done..|]. intros N HN.
  apply (room_le _ _ (N - n)); [lia|auto].
Qed.

Lemma plan_done_tier n m r w SS r0 ts w' SS' r' : tier_done r0 w SS n ts w' SS' → n ≤ m →
  tr_tables r0 = tr_tables r → tr_tables r' = ts → same_config r r' → plan_done m r w SS r' w' SS'.
Proof.
  intros [D1 D2 D3] Hn Hr0 Hr1 Hc. split; [by rewrite Hr1|done|done|]. intros N HN. rewrite Hr1.
  apply (room_le _ _ (N - n)); [lia|]. apply D3. by rewrite Hr0.
Qed.

Definition stores_to (SS : list Store) (a : Address) (oa' : option Address) (s' : Stored)
    (SS' : list Store) : Prop :=
  ∀ b, valid_address b →
    stored_at SS' b = if decide (oa' = Some b) then Some s'
                      else if decide (Some a = Some b) then None else stored_at SS b.

Lemma partial_wf key : is_key key → key_wf (Partial key).
Proof. apply partial_length. Qed.

(** The compression that writes: that of the column, or none for the nodes of an
    ordered column. *)
Definition writes_with (c : Compress) : Prop := c = comp ∨ c = Compress.NO_COMPRESSION.

Lemma chosen_ok r w SS c2 key v cv : repr (tr_tables r) w SS → key_wf key → writes_with c2 →
  Compress.compress c2 v = Ok cv → Z.of_nat (length v) < 2 ^ 32 → CodecLaws →
  ∃ cval tier t, compress c2 key v (tr_tables r) = Ok (cval, tier) ∧
    tr_tables r !! tier = Some t ∧ (tier < SIZE_TIERS)%nat ∧ fits t key (chosen v cval).1 ∧
    stored_ok comp (stored_new key (chosen v cval).1 (chosen v cval).2) ∧
    plain_value comp (stored_new key (chosen v cval).1 (chosen v cval).2) v ∧
    (length (chosen v cval).1 ≤ length v)%nat.
Proof.
  intros Htb Hk Hc2 Hcv Hlen Hlaws.
  destruct (compress_ok col rc comp col_u8 _ _ _ c2 key v cv Htb Hcv) as
    (cval & tier & t & E & Ht & Hlt & Hfit & Hp & Hle).
  assert (Hp' : plain_value comp (stored_new key (chosen v cval).1 (chosen v cval).2) v).
  { destruct Hc2 as [->| ->]; [done|]. unfold compress in E. destruct (threshold _ <? _) in E.
    - injection Hcv as <-. cbn [Compress.compress Compress.NO_COMPRESSION inner] in E. rewrite outcome_bind_Ok in E.
      rewrite Nat.ltb_irrefl in E. by injection E as <- _.
    - by injection E as <- _. }
  exists cval, tier, t. split_and!; try done. split; [cbn; lia|eauto].
Qed.

Section Existing.
Context (r : TablesRef) (w : LogWriter) (SS : list Store) (a : Address) (s : Stored) (key : TableKey).
Hypothesis Hcomp : writes_with (tr_compression r).
Hypothesis Hstats : tr_compression r = comp ∨ tr_stats r = None.
Hypothesis Hrcr : tr_ref_counted r = rc.
Hypothesis Htb : repr (tr_tables r) w SS.
Hypothesis Ha : valid_address a.
Hypothesis Hs : stored_at SS a = Some s.
Hypothesis Hkey : s_key s = key_bytes key.
Hypothesis Hkw : key_wf key.

Lemma existing_size_ok : is_Some (tr_stats r) → ∃ x, existing_size key a (r, w) = (Ok x, (r, w)).
Proof.
  intros Hst. assert (Hc : tr_compression r = comp) by (destruct Hstats as [|E]; [done|rewrite E in Hst; by destruct Hst]).
  destruct (stored_table _ _ _ _ _ _ a s Htb Hs) as (t & m & Ht & Hm & Hr & Hoff & Hok).
  unfold existing_size.
  assert (Hkl : length (s_key s) = TableKey.encoded_size key) by (by rewrite Hkey).
  erewrite ST_bind_Ok.
  2: { unfold at_tier. rewrite Ht, (size_store t w m _ s key Hr Hoff Hkl (so_len _ _ Hok)).
       rewrite decide_True by done. done. }
  cbn [default id]. destruct (s_compressed s) eqn:Ec; [|by eexists].
  erewrite ST_bind_Ok.
  2: { unfold at_tier. rewrite Ht, (get_store t w m _ s key Hr Hoff Hkl).
       rewrite decide_True by done. done. }
  cbn [unwrap]. erewrite ST_bind_Ok by done. cbv beta iota. erewrite ST_bind_Ok by done. cbv beta iota.
  destruct (so_plain _ _ Hok) as [v Hv]. unfold plain_value in Hv. rewrite Ec in Hv.
  rewrite Hc, Hv. erewrite ST_bind_Ok by done. by eexists.
Qed.

(** The statistics do not matter for what is stored. *)
Lemma size_for_stats : ∃ x,
  (match tr_stats r with Some _ => s ← existing_size key a; mret (Some s) | None => mret None end)
    (r, w) = (Ok x, (r, w)).
Proof.
  pose proof existing_size_ok as He. destruct (tr_stats r); [|by eexists]. destruct He as [x Hx]; [done|].
  exists (Some x). by erewrite ST_bind_Ok by exact Hx.
Qed.

Lemma stats_for_replace n1 n2 : ∃ f,
  (match tr_stats r with
   | Some _ => '(cur_size, uncompressed) ← existing_size key a;
               on_stats (ColumnStats.replace_val cur_size uncompressed n1 n2)
   | None => mret tt end) (r, w) = (Ok tt, (update_stats f r, w)).
Proof.
  pose proof existing_size_ok as He. destruct (tr_stats r) eqn:E.
  - destruct He as [[x y] Hx]; [done|]. eexists. by erewrite ST_bind_Ok by exact Hx.
  - exists id. unfold update_stats. rewrite E. cbn. by destruct r; cbn in *; subst.
Qed.

(** The shape of the store after one operation at the address. *)
Lemma stores_keep SS' o s' :
  (∀ b, valid_address b → stored_at SS' b = if decide (a = b) then o else stored_at SS b) →
  o = Some s' → stores_to SS a (Some a) s' SS'.
Proof.
  intros Hat -> b Hb. rewrite Hat by done. destruct (decide (a = b)) as [<-|Hne].
  - by rewrite decide_True.
  - by rewrite !decide_False by congruence.
Qed.

Lemma stores_drop SS' o s' :
  (∀ b, valid_address b → stored_at SS' b = if decide (a = b) then o else stored_at SS b) →
  o = None → stores_to SS a None s' SS'.
Proof.
  intros Hat -> b Hb. rewrite Hat by done. rewrite (decide_False (P := None = Some b)) by done.
  destruct (decide (a = b)) as [<-|Hne].
  - by rewrite decide_True.
  - by rewrite decide_False by congruence.
Qed.

(** The contract of the plan, for the value [val]. *)
Definition existing_ok (val : option bytes) : Prop :=
  ∃ res r' w' SS' oa' s', write_existing_value_plan key a val (r, w) = (Ok res, (r', w')) ∧
    plan_done (write_bound val) r w SS r' w' SS' ∧ stores_to SS a oa' s' SS' ∧
    value_spec (tr_preimage r) s val oa' s' ∧ address_spec SS a val res oa' ∧
    (is_Some oa' → s_key s' = key_bytes key).

Lemma existing_inc v : rc = true → room (tr_tables r) 0 → existing_ok (Some v).
Proof.
  intros Hrc Hroom.
  destruct (at_address (OpIncRef (Address.offset a)) (write_inc_ref (Address.offset a)) (fun _ => ResUnit)
    r w SS a s) as (x & w' & ts & mi & mi' & SS' & Hrun & Hmi & Hst & Hd & Hat); try done.
  { intros t mi Ht Hmi. split; [eauto|]. by rewrite (tb_rc _ _ _ _ _ _ Htb _ _ Ht). }
  inversion Hst as [| | |? ? s0 Hs0| | |]; subst. rewrite Hmi in Hs0. injection Hs0 as <-.
  eexists _, _, w', SS', (Some a), (with_rc (Z.min LOCKED_REF (s_rc s + 1)) s). split_and!.
  - unfold write_existing_value_plan. erewrite ST_bind_Ok by done. cbv beta iota. rewrite Hrcr, Hrc.
    erewrite ST_bind_Ok by exact Hrun. reflexivity.
  - by eapply (plan_done_tier _ _ _ _ _ r); [exact Hd|cbn; lia|..|apply same_config_tables].
  - apply (stores_keep _ _ _ Hat). apply lookup_insert_eq.
  - cbn. rewrite Hrc. split; eauto.
  - left. split; [done|]. by eexists.
  - done.
Qed.

Lemma existing_preimage v : rc = false → tr_preimage r = true → existing_ok (Some v).
Proof.
  intros Hrc Hp. eexists _, r, w, SS, (Some a), s. split_and!.
  - unfold write_existing_value_plan. erewrite ST_bind_Ok by done. cbv beta iota.
    by rewrite Hrcr, Hrc, Hp.
  - split; [done|done|apply same_config_refl|]. intros N. apply room_le. cbn. lia.
  - intros b Hb. destruct (decide (Some a = Some b)) as [[= <-]|]; [done|]. done.
  - cbn. rewrite Hrc, Hp. split; eauto.
  - left. split; [done|]. by eexists.
  - done.
Qed.

(** The part of the plan after the statistics of a replacement. *)
Definition replace_tail (tier : nat) (cval : bytes) (c : bool) : ST TRW (option PlanOutcome * option Address) :=
  if (tier_of a =? tier)%nat then
    _ ← on_tier tier (write_replace_plan (Address.offset a) key cval c); mret (Some Written, None)
  else
    _ ← on_tier (tier_of a) (write_remove_plan (Address.offset a));
    new_offset ← on_tier tier (write_insert_plan key cval c);
    mret (None, Some (Address.new new_offset (wrap8 (Z.of_nat tier)))).

Lemma replace_run v cval tier : rc = false → tr_preimage r = false →
  compress (tr_compression r) key v (tr_tables r) = Ok (cval, tier) →
  ∃ f, write_existing_value_plan key a (Some v) (r, w) =
    replace_tail tier (chosen v cval).1 (chosen v cval).2 (update_stats f r, w).
Proof.
  intros Hrc Hpre Ec. destruct (stats_for_replace (len32 v) (len32 (chosen v cval).1)) as [fs Hfs].
  exists fs. unfold write_existing_value_plan. erewrite ST_bind_Ok by done.
  cbv beta iota. rewrite Hrcr, Hrc, Hpre, Ec. erewrite ST_bind_Ok by done. cbv beta iota.
  rewrite (surjective_pairing (chosen v cval)). by erewrite ST_bind_Ok by exact Hfs.
Qed.

Section Tail.
Context (f : ColumnStats → ColumnStats) (tier : nat) (t : ValueTable) (cval : bytes) (c : bool).
Hypothesis Ht : tr_tables r !! tier = Some t.
Hypothesis Hlt : (tier < SIZE_TIERS)%nat.
Hypothesis Hfit : fits t key cval.
Hypothesis Hso : stored_ok comp (stored_new key cval c).
Hypothesis Hroom : room (tr_tables r) (31 + Z.of_nat (length cval)).
Abbreviation s' := (stored_new key cval c).

Lemma replace_same : tier_of a = tier →
  ∃ res r' w' SS', replace_tail tier cval c (update_stats f r, w) = (Ok res, (r', w')) ∧
    plan_done (31 + Z.of_nat (length cval)) r w SS r' w' SS' ∧ stores_to SS a (Some a) s' SS' ∧
    ∃ o, res = (Some o, None) ∧ o ≠ NeedReindex.
Proof.
  intros Heq. unfold replace_tail. rewrite (proj2 (Nat.eqb_eq _ _) Heq). subst tier.
  destruct (at_address (OpReplace (Address.offset a) key cval c)
    (write_replace_plan (Address.offset a) key cval c) (fun _ => ResUnit) (update_stats f r)
    w SS a s) as (x & w' & ts & mi & mi' & SS' & Hrun & Hmi & Hst & Hd & Hat); try done.
  { intros t' mi Ht' Hmi. cbn in Ht'. rewrite Ht in Ht'. injection Ht' as <-.
    split; [eauto|]. by split. }
  inversion Hst; subst. eexists _, _, w', SS'. split_and!.
  - erewrite ST_bind_Ok by exact Hrun. reflexivity.
  - eapply (plan_done_tier _ _ _ _ _ (update_stats f r)); [exact Hd|cbn; lia|done|done|].
    eapply same_config_trans, same_config_tables. apply same_config_stats.
  - apply (stores_keep _ _ _ Hat). apply lookup_insert_eq.
  - by eexists.
Qed.

Lemma replace_move : tier_of a ≠ tier →
  ∃ a' r' w' SS', replace_tail tier cval c (update_stats f r, w) = (Ok (None, Some a'), (r', w')) ∧
    plan_done (31 + Z.of_nat (length cval)) r w SS r' w' SS' ∧ stores_to SS a (Some a') s' SS' ∧
    valid_address a' ∧ stored_at SS a' = None ∧ 0 < Address.as_u64 a'.
Proof.
  intros Hne. unfold replace_tail. rewrite (proj2 (Nat.eqb_neq _ _) Hne).
  destruct (at_address (OpRemove (Address.offset a)) (write_remove_plan (Address.offset a))
    (fun _ => ResUnit) (update_stats f r) w SS a s) as
    (x & w1 & ts1 & mi & mi1 & SS1 & Hrun1 & Hmi & Hst1 & [D1 D2 D3] & Hat1); try done.
  { by eexists. }
  { intros i t' Hi. specialize (Hroom i t' Hi). cbn. lia. }
  inversion Hst1; subst.
  assert (Ht1 : ts1 !! tier = Some t).
  { unfold on_tier in Hrun1. cbn in Hrun1.
    destruct (stored_table _ _ _ _ _ _ a s Htb Hs) as (ta & _ & Hta & _). rewrite Hta in Hrun1.
    destruct (write_remove_plan _ _) as [o [ta' w2]]. injection Hrun1 as -> <- ->.
    by rewrite list_lookup_insert_ne. }
  destruct (insert_fresh (set_tr_tables ts1 (update_stats f r)) w1 SS1 tier t key cval c) as
    (off & w2 & ts2 & SS2 & Hrun2 & V1 & V2 & V3 & V4 & [E1 E2 E3] & Hat2); try done.
  { cbn. intros i t' Hi. specialize (D3 _ Hroom i t' Hi). cbn in D3. lia. }
  set (a' := Address.new off (wrap8 (Z.of_nat tier))) in *.
  assert (Haa : a ≠ a') by congruence.
  exists a'; eexists _, w2, SS2. split_and!; try done.
  - erewrite ST_bind_Ok by exact Hrun1. erewrite ST_bind_Ok by exact Hrun2. reflexivity.
  - split; [exact E1|by etrans| |].
    + eapply same_config_trans; [apply same_config_stats|]. eapply same_config_trans; apply same_config_tables.
    + intros N HN. apply E3. cbn. specialize (D3 N HN). cbn in D3. by rewrite Z.sub_0_r in D3.
  - intros b Hb. rewrite Hat2 by done. destruct (decide (a' = b)) as [<-|Hb'].
    + by rewrite decide_True.
    + rewrite (decide_False (P := Some a' = Some b)) by congruence. rewrite Hat1 by done.
      destruct (decide (a = b)) as [<-|]; [|by rewrite decide_False by congruence].
      rewrite decide_True by done. apply lookup_delete_eq.
  - by rewrite Hat1, decide_False in V4.
Qed.

End Tail.

Lemma existing_replace v cv : rc = false → tr_preimage r = false → CodecLaws →
  Compress.compress (tr_compression r) v = Ok cv → Z.of_nat (length v) < 2 ^ 32 →
  room (tr_tables r) (31 + Z.of_nat (length v)) → existing_ok (Some v).
Proof.
  intros Hrc Hpre Hlaws Hcv Hlen Hroom.
  destruct (chosen_ok r w SS _ key v cv Htb Hkw Hcomp Hcv Hlen Hlaws) as (cval & tier & t & Ec & Ht & Hlt & Hfit & Hso & Hpl & Hle).
  destruct (replace_run v cval tier Hrc Hpre Ec) as [f Hrun].
  assert (Hroom' : room (tr_tables r) (31 + Z.of_nat (length (chosen v cval).1)))
    by (intros i t' Hi; specialize (Hroom i t' Hi); lia).
  assert (Hvs : ∀ b, value_spec (tr_preimage r) s (Some v) (Some b)
    (stored_new key (chosen v cval).1 (chosen v cval).2)).
  { intros b. cbn [value_spec]. rewrite Hrc, Hpre. split; [eauto|]. by split_and!. }
  unfold existing_ok. rewrite Hrun. destruct (decide (tier_of a = tier)) as [Heq|Hne].
  - destruct (replace_same f tier t _ _ Ht Hlt Hfit Hso Hroom' Heq) as (res & r' & w' & SS' & E & Hd & Hst & Ho).
    exists res, r', w', SS', (Some a); eexists. split_and!; [exact E|by eapply plan_done_le; [|exact Hd]; cbn; lia|done|apply Hvs|by left|done].
  - destruct (replace_move f tier t _ _ Ht Hlt Hfit Hso Hroom' Hne) as
      (a' & r' & w' & SS' & E & Hd & Hst & H1 & H2 & H3).
    eexists _, r', w', SS', (Some a'), _. split_and!; [exact E|by eapply plan_done_le; [|exact Hd]; cbn; lia|done|apply Hvs|right; split_and!; eauto|done].
Qed.

(** A removal: the statistics are updated when the value is gone. *)
Lemma existing_remove : rc = false → room (tr_tables r) 0 → existing_ok None.
Proof.
  intros Hrc Hroom. destruct size_for_stats as [x Hx].
  destruct (at_address (OpRemove (Address.offset a)) (write_remove_plan (Address.offset a))
    (fun _ => ResUnit) r w SS a s) as
    (y & w' & ts & mi & mi' & SS' & Hrun & Hmi & Hst & Hd & Hat); try done.
  { by eexists. }
  inversion Hst; subst.
  destruct (remove_stats x (set_tr_tables ts r) w') as (r' & Hr' & Htb' & Hcfg).
  exists (None, Some a), r', w', SS', None, s. split_and!.
  - unfold write_existing_value_plan. erewrite ST_bind_Ok by done. cbv beta iota.
    erewrite ST_bind_Ok by exact Hx. rewrite Hrcr, Hrc.
    erewrite ST_bind_Ok by (erewrite ST_bind_Ok by exact Hrun; reflexivity). cbv beta iota.
    by erewrite ST_bind_Ok by exact Hr'.
  - eapply (plan_done_tier _ _ _ _ _ r); [exact Hd|cbn; lia|done|done|].
    by eapply same_config_trans; [apply same_config_tables|].
  - apply (stores_drop _ _ _ Hat). apply lookup_delete_eq.
  - cbn. by rewrite Hrc.
  - done.
  - intros [? ?]. done.
Qed.

Lemma existing_dec : rc = true → room (tr_tables r) 0 → existing_ok None.
Proof.
  intros Hrc Hroom. destruct size_for_stats as [x Hx].
  destruct (at_address (OpDecRef (Address.offset a)) (write_dec_ref (Address.offset a))
    ResAlive r w SS a s) as
    (alive & w' & ts & mi & mi' & SS' & Hrun & Hmi & Hst & Hd & Hat); try done.
  { intros t mi Ht Hmi. split; [eauto|]. by rewrite (tb_rc _ _ _ _ _ _ Htb _ _ Ht). }
  destruct (remove_stats x (set_tr_tables ts r) w') as (r' & Hr' & Htb' & Hcfg).
  assert (Hgo : ∀ o, o = write_existing_value_plan key a None (r, w) →
    o = if alive then (Ok (Some Written, None), (set_tr_tables ts r, w')) else (Ok (None, Some a), (r', w'))).
  { intros o ->. unfold write_existing_value_plan. erewrite ST_bind_Ok by done. cbv beta iota.
    erewrite ST_bind_Ok by exact Hx. rewrite Hrcr, Hrc.
    erewrite ST_bind_Ok by (erewrite ST_bind_Ok by exact Hrun; reflexivity). cbv beta iota.
    destruct alive; [done|]. cbn [negb]. by erewrite ST_bind_Ok by exact Hr'. }
  specialize (Hgo _ eq_refl). unfold existing_ok. rewrite Hgo. cbn [value_spec]. rewrite Hrc.
  inversion Hst as [| | | |? ? s0 Hs0 Hn|? ? s0 Hs0 Hn|? ? s0 Hs0 Hn]; subst; rewrite Hmi in Hs0;
    injection Hs0 as <-.
  - eexists _, _, _, SS', (Some a), s. split_and!; [done| |by apply (stores_keep _ _ _ Hat)| | |done].
    + by eapply (plan_done_tier _ _ _ _ _ r); [exact Hd|cbn; lia|..|apply same_config_tables].
    + rewrite (proj2 (Z.eqb_eq _ _) Hn). split; eauto.
    + left. split; [done|]. by eexists.
  - eexists _, _, _, SS', None, s. split_and!; [done| | | |done|by intros []].
    + eapply (plan_done_tier _ _ _ _ _ r); [exact Hd|cbn; lia|done|done|].
    by eapply same_config_trans; [apply same_config_tables|].
    + apply (stores_drop _ _ _ Hat). apply lookup_delete_eq.
    + by rewrite Hn.
  - eexists _, _, _, SS', (Some a), (with_rc (s_rc s - 1) s). split_and!; [done| | | | |done].
    + by eapply (plan_done_tier _ _ _ _ _ r); [exact Hd|cbn; lia|..|apply same_config_tables].
    + apply (stores_keep _ _ _ Hat). apply lookup_insert_eq.
    + rewrite (proj2 (Z.eqb_neq _ _)), (proj2 (Z.eqb_neq _ _)) by lia. split; eauto.
    + left. split; [done|]. by eexists.
Qed.

(** The plan for a stored value keeps its contract. *)
Lemma existing_value_ok val : CodecLaws →
  match val with
  | Some v => Z.of_nat (length v) < 2 ^ 32 ∧ (∃ cv, Compress.compress (tr_compression r) v = Ok cv) ∧
              room (tr_tables r) (31 + Z.of_nat (length v))
  | None => room (tr_tables r) 0
  end → existing_ok val.
Proof.
  intros Hlaws. assert (Hb : rc = true ∨ rc = false) by (destruct rc; auto). destruct val as [v|].
  - intros (Hlen & [cv Hcv] & Hroom). destruct Hb as [Hrc|Hrc].
    + apply existing_inc; [done|]. intros i t Hi. specialize (Hroom i t Hi). lia.
    + assert (Hp : tr_preimage r = true ∨ tr_preimage r = false) by (destruct (tr_preimage r); auto).
      destruct Hp; [by apply existing_preimage|by eapply existing_replace].
  - intros Hroom. destruct Hb; [by apply existing_dec|by apply existing_remove].
Qed.

End Existing.
(** The plan for a new value: it is stored at a free address. *)
Lemma new_value_ok `{!CodecLaws} r w SS key v cv : writes_with (tr_compression r) → repr (tr_tables r) w SS →
  key_wf key → Compress.compress (tr_compression r) v = Ok cv → Z.of_nat (length v) < 2 ^ 32 →
  room (tr_tables r) (31 + Z.of_nat (length v)) →
  ∃ a' r' w' SS' s', write_new_value_plan key v (r, w) = (Ok a', (r', w')) ∧
    plan_done (31 + Z.of_nat (length v)) r w SS r' w' SS' ∧
    (∀ b, valid_address b → stored_at SS' b = if decide (a' = b) then Some s' else stored_at SS b) ∧
    plain_value comp s' v ∧ s_rc s' = 1 ∧ s_key s' = key_bytes key ∧
    valid_address a' ∧ stored_at SS a' = None ∧ 0 < Address.as_u64 a'.
Proof.
  intros Hcomp Htb Hk Hcv Hlen Hroom.
  destruct (chosen_ok r w SS _ key v cv Htb Hk Hcomp Hcv Hlen _) as
    (cval & tier & t & Ec & Ht & Hlt & Hfit & Hso & Hpl & Hle).
  destruct (insert_fresh r w SS tier t key (chosen v cval).1 (chosen v cval).2) as
    (off & w2 & ts2 & SS2 & Hrun & V1 & V2 & V3 & V4 & Hd & Hat); try done.
  { intros i t' Hi. specialize (Hroom i t' Hi). lia. }
  eexists _, _, w2, SS2, _. split.
  { unfold write_new_value_plan. erewrite ST_bind_Ok by done. cbv beta iota. rewrite Ec.
    erewrite ST_bind_Ok by done. cbv beta iota. rewrite (surjective_pairing (chosen v cval)).
    erewrite ST_bind_Ok by exact Hrun. cbv zeta. erewrite ST_bind_Ok by reflexivity. reflexivity. }
  split_and!; [|exact Hat|..]; try done.
  eapply (plan_done_tier _ _ _ _ _ r); [exact Hd|lia|done|done|].
  eapply same_config_trans; [apply same_config_tables|apply same_config_stats].
Qed.

End Values.
