(* ===== verification/ColumnMap.v ===== *)
(** * A hash column as a map from keys to values

    The contract of [HashColumn] (src/src/column.rs) while no reindex is going
    on: the index and the value tables together represent a map from keys to
    values with reference counts, [get] reads it and [write_plan] updates it. *)

From S2P Require Import Prelude.
From S2P Require Import Bytes.
From S2P Require Import Ids.
From S2P Require Import File.
From S2P Require Import Log.
From S2P Require Import Table.
From S2P Require Import TableSpec.
From S2P Require Import TableOps.
From S2P Require Import TableRefine.
From S2P Require Import TableStore.
From S2P Require Import Index.
From S2P Require Import IndexProofs.
From S2P Require Import IndexEnact.
From S2P Require Import Compress.
From S2P Require Import Stats.
From S2P Require Import Column.
From S2P Require Import HashColumn.
From S2P Require Import ColumnTables.
From S2P Require Import ColumnLinks.
From S2P Require Import ColumnProofs.
From S2P Require Import ColumnValues.
From stdpp Require Import options.
#[local] Set Default Proof Using "All".

(** ** Contract *)

(** Values with their reference counts. *)
Definition KV : Type := Key → option (bytes * Z).

Definition kv_set (M : KV) (key : Key) (o : option (bytes * Z)) : KV :=
  fun key' => if decide (key' = key) then o else M key'.

(** What a write makes of the value of a key. In a reference counted column a
    write of a stored key counts and keeps the value; in a preimage column it is
    ignored; otherwise it replaces the value. *)
Definition kv_write (rc pre : bool) (old : option (bytes * Z)) (val : option bytes)
    : option (bytes * Z) :=
  match old, val with
  | Some (v, n), Some v' =>
      if rc then Some (v, Z.min LOCKED_REF (n + 1)) else if pre then old else Some (v', 1)
  | Some (v, n), None =>
      if rc then if n =? LOCKED_REF then old else if n =? 1 then None else Some (v, n - 1)
      else None
  | None, Some v' => Some (v', 1)
  | None, None => None
  end.

Section Map.
Context `{!Uninit, !Codecs, !CodecLaws}.
Implicit Types (c : HashColumn) (w : LogWriter) (SS : list Store) (key : Key).

(** ** Representation *)

Abbreviation repr c := (tables_repr (hc_col c) (hc_ref_counted c) (hc_compression c)).
Abbreviation index_of c w := (lookup_at (hc_index c) w).

Record col_inv c w SS : Prop := {
  ci_col : is_u8 (hc_col c);
  ci_tables : repr c (hc_values c) w SS;
  ci_index : index_wf (hc_index c) w;
  ci_queue : hc_queue c = [];
  ci_links : links (index_of c w) (stored_at SS);
  ci_logged : index_logged (hc_col c) (hc_index c) w;
}.

Definition kv_holds c w SS key (o : option (bytes * Z)) : Prop :=
  match o with
  | Some (v, n) =>
      ∃ s, holds (index_of c w) (stored_at SS) key s ∧ plain_value (hc_compression c) s v ∧ s_rc s = n
  | None => ∀ s, ¬ holds (index_of c w) (stored_at SS) key s
  end.

Definition col_repr c w (M : KV) : Prop :=
  ∃ SS, col_inv c w SS ∧ ∀ key, is_key key → kv_holds c w SS key (M key).

(** The tables and the addresses of the index have room for a write. *)
Definition write_room c (val : option bytes) : Prop :=
  ∀ i t, hc_values c !! i = Some t →
    filled t + write_bound val ≤ 2 ^ 48 ∧ filled t + write_bound val ≤ 2 ^ (bits (hc_index c) + 6).

(** The chunk of the key has a free entry. *)
Definition chunk_room c w key : Prop :=
  ∃ i, (i < CHUNK_ENTRIES)%nat ∧ IEntry.is_empty (entry_at (hc_index c) w (prefix_of key) i) = true.

(** ** Frames *)

Lemma index_frame idx w w' : same_index w w' →
  index_wf idx w → index_wf idx w' ∧ ∀ k j, lookup_at idx w' k j = lookup_at idx w k j.
Proof.
  intros Hs [I1 I2 I3]. split.
  - split; [done| |done]. intros i ch. rewrite (same_index_view _ _ _ _ Hs). apply I2.
  - intros k j. apply lookup_at_ext; [done|]. unfold chunk_view. by rewrite (same_index_view _ _ _ _ Hs).
Qed.

Lemma index_logged_frame col idx w w' : same_index w w' → index_logged col idx w → index_logged col idx w'.
Proof. intros [H1' H2']. unfold index_logged, covered. by rewrite H1', H2'. Qed.

Lemma tables_set_entry col rc comp ts w SS idx k i e : tables_repr col rc comp ts w SS →
  tables_repr col rc comp ts (set_entry idx k i e w) SS.
Proof.
  intros [T1 T2 T3 T4 T5 T6 T7 T8 T9 T10 T11]. split; try done. intros n t m Ht Hm.
  eapply store_repr_frame; [|by eapply T3]. intros x. apply value_view_insert_index.
Qed.

Lemma updated_same f k i oa f' : (∀ k1 j, is_u64 k1 → key50 k = key50 k1 → i = j → f k1 j = oa) →
  (∀ k1 j, f' k1 j = f k1 j) → updated f k i oa f'.
Proof. intros Hf Hs k1 j Hk1. rewrite Hs. destruct (decide _) as [[? ?]|]; [by apply Hf|done]. Qed.

(** The same column with other tables and statistics. *)
Record same_column c c' : Prop := {
  sc_col : hc_col c' = hc_col c;
  sc_index : hc_index c' = hc_index c;
  sc_queue : hc_queue c' = hc_queue c;
  sc_preimage : hc_preimage c' = hc_preimage c;
  sc_rc : hc_ref_counted c' = hc_ref_counted c;
  sc_compression : hc_compression c' = hc_compression c;
  sc_salt : hc_salt c' = hc_salt c;
  sc_uniform : hc_uniform_keys c' = hc_uniform_keys c;
  sc_version : hc_db_version c' = hc_db_version c;
}.

(** What a write leaves as it is: the configuration, all entries of the index
    but one, and the tables up to [n] new entries. *)
Record write_grow (n : Z) c w c' w' : Prop := {
  wg_column : same_column c c';
  wg_room : ∀ N, room (hc_values c) N → room (hc_values c') (N - n);
  wg_entry : ∃ ci i, ∀ ci' j, ¬ (ci' = ci ∧ j = i) →
    read_entry (default EMPTY_CHUNK (chunk_view (hc_index c) w' ci')) j =
    read_entry (default EMPTY_CHUNK (chunk_view (hc_index c) w ci')) j;
}.

Lemma same_column_put r c : same_column c (put_ref r c) ∧ hc_values (put_ref r c) = tr_tables r.
Proof. unfold put_ref. by destruct (tr_stats r). Qed.

Lemma same_column_count f c : same_column c (count_stat f c) ∧ hc_values (count_stat f c) = hc_values c.
Proof. unfold count_stat. by destruct (hc_collect_stats c). Qed.

Lemma on_tables_run {A} (m : ST TRW A) c w x r' w' : m (as_ref c, w) = (Ok x, (r', w')) →
  on_tables m (c, w) = (Ok x, (put_ref r' c, w')).
Proof. intros Hm. unfold on_tables, zoom. by rewrite Hm. Qed.

Lemma on_log_run {A} (m : ST LogWriter A) c w x w' : m w = (Ok x, w') →
  on_log m (c, w) = (Ok x, (c, w')).
Proof. intros Hm. unfold on_log, zoom. cbn. by rewrite Hm. Qed.

Lemma col_repr_same c c' w M : same_column c c' → hc_values c' = hc_values c →
  col_repr c w M → col_repr c' w M.
Proof.
  intros [C1 C2 C3 C4 C5 C6] Hv (SS & [I1 I2 I3 I4 I5 I6] & HM). exists SS. split.
  - split; rewrite ?C1, ?C2, ?C3, ?C5, ?C6, ?Hv; done.
  - intros key Hk. specialize (HM key Hk). unfold kv_holds in *. by rewrite C2, C6.
Qed.

(** ** Steps *)

(** The value that position [oa'] of a key holds. *)
Definition value_at c (oa' : option Address) (s' : Stored) (o : option (bytes * Z)) : Prop :=
  match o with
  | Some (v, n) => is_Some oa' ∧ plain_value (hc_compression c) s' v ∧ s_rc s' = n
  | None => oa' = None
  end.

Lemma value_spec_kv c s v val oa' s' : plain_value (hc_compression c) s v →
  value_spec (hc_ref_counted c) (hc_compression c) (hc_preimage c) s val oa' s' →
  value_at c oa' s' (kv_write (hc_ref_counted c) (hc_preimage c) (Some (v, s_rc s)) val).
Proof.
  intros Hv. unfold value_spec, kv_write, value_at. destruct val as [v'|].
  - destruct (hc_ref_counted c); [by intros [? ->]|]. destruct (hc_preimage c); [by intros [? ->]|].
    by intros (? & ? & ? & _).
  - destruct (hc_ref_counted c); [|done]. destruct (s_rc s =? LOCKED_REF); [by intros [? ->]|].
    destruct (s_rc s =? 1); [done|]. by intros [? ->].
Qed.

(** A linked change of the index and the tables is an update of the map. *)
Lemma col_step c w SS c' w' SS' M key i oa oa' s' o : col_inv c w SS →
  (∀ key, is_key key → kv_holds c w SS key (M key)) →
  same_column c (set_hc_index (hc_index c) (hc_queue c) c') →
  hc_queue c' = hc_queue c → repr c (hc_values c') w' SS' → index_wf (hc_index c') w' →
  index_logged (hc_col c) (hc_index c') w' →
  link_step (index_of c w) (index_of c' w') (stored_at SS) (stored_at SS') key i oa oa' s' →
  value_at c oa' s' o → col_repr c' w' (kv_set M key o).
Proof.
  intros Hinv HM [C1 _ _ _ C5 C6] Hq Htb Hix Hlg Hst Ho. cbn in C1, C5, C6.
  pose proof (ci_links _ _ _ Hinv) as Hl. exists SS'. split.
  - split; rewrite ?C1, ?C5, ?C6; [apply Hinv|done|done|rewrite Hq; apply Hinv| |done].
    by eapply links_after.
  - intros key1 Hk1. pose proof (holds_after _ _ _ _ _ _ _ _ _ Hl Hst key1) as Hh.
    specialize (HM key1 Hk1). unfold kv_holds, kv_set, value_at in *. rewrite C6.
    destruct (decide (key1 = key)) as [->|Hne].
    + destruct o as [[v n]|].
      * destruct Ho as (H1' & H2' & H3'). exists s'. split; [|done]. by apply Hh.
      * intros s1 Hs1. apply Hh in Hs1 as [[a Ha] _]; [|done]. congruence.
    + destruct (M key1) as [[v n]|].
      * destruct HM as (s1 & Hs1 & Hrest). exists s1. split; [|done]. by apply Hh.
      * intros s1 Hs1. apply (HM s1). by apply Hh.
Qed.

(** An address in the tables is small enough for the index. *)
Lemma address_fits c w SS ts a s : is_u8 (hc_col c) → repr c ts w SS → valid_address a →
  stored_at SS a = Some s → 0 ≤ bits (hc_index c) →
  (∀ i t, ts !! i = Some t → filled t ≤ 2 ^ (bits (hc_index c) + 6)) →
  Address.as_u64 a < 2 ^ (bits (hc_index c) + 14).
Proof.
  intros Hu Htb Ha Hs Hb Hroom.
  destruct (stored_table _ _ _ _ _ _ a s Htb Hs) as (t & m & Ht & Hm & Hr & Hoff & _).
  pose proof (store_repr_below _ _ _ _ _ Hr Hoff) as Hlt. specialize (Hroom _ _ Ht).
  replace (bits (hc_index c) + 14) with (bits (hc_index c) + 6 + 8) by lia.
  rewrite Z.pow_add_r by lia. unfold valid_address, is_u64 in Ha.
  unfold Address.offset, shr64 in Hlt. unfold Address.as_u64 in *.
  rewrite Z.mod_small, Z.shiftr_div_pow2 in Hlt by (unfold SIZE_TIERS_BITS; lia).
  unfold SIZE_TIERS_BITS in Hlt. pose proof (Z.div_mod (address_u64 a) (2 ^ 8)).
  pose proof (Z.mod_pos_bound (address_u64 a) (2 ^ 8)). lia.
Qed.

(** ** Writes *)

Section Write.
Context (c : HashColumn) (w : LogWriter) (SS : list Store) (M : KV) (key : Key).
Hypothesis Hinv : col_inv c w SS.
Hypothesis HM : ∀ key, is_key key → kv_holds c w SS key (M key).
Hypothesis Hkey : is_key key.
Abbreviation k := (prefix_of key).
Abbreviation kv val := (kv_write (hc_ref_counted c) (hc_preimage c) (M key) val).

(** What is written is acceptable: it can be compressed, and its length is a
    [u32]. *)
Definition value_ok (val : option bytes) : Prop :=
  match val with
  | Some v => Z.of_nat (length v) < 2 ^ 32 ∧ ∃ cv, Compress.compress (hc_compression c) v = Ok cv
  | None => True
  end.

Lemma write_room_room val : write_room c val → room (hc_values c) (write_bound val).
Proof. intros Hr i t Hi. by apply (Hr i t Hi). Qed.

(** The address of what a plan stored fits the index. *)
Lemma planned_address val r' w' SS' a s : write_room c val →
  plan_done (hc_col c) (hc_ref_counted c) (hc_compression c) (write_bound val) (as_ref c) w SS r' w' SS' →
  valid_address a → stored_at SS' a = Some s →
  Address.as_u64 a ≤ IEntry.last_address (bits (hc_index c)).
Proof.
  intros Hroom [D1 D2 D3 D4] Ha Hs. pose proof (iw_bits _ _ (ci_index _ _ _ Hinv)) as Hb.
  rewrite last_address_ok by done. unfold bits_ok in Hb. apply Z.lt_le_pred. unfold Z.pred.
  enough (Address.as_u64 a < 2 ^ (bits (hc_index c) + 14)) by lia.
  eapply address_fits; [apply Hinv|exact D1|done|done|lia|]. intros i t Hi.
  specialize (D4 (write_bound val + (2 ^ 48 - 2 ^ (bits (hc_index c) + 6)))).
  assert (Hr : room (tr_tables (as_ref c)) (write_bound val + (2 ^ 48 - 2 ^ (bits (hc_index c) + 6)))).
  { intros i' t' Hi'. destruct (Hroom i' t' Hi'). lia. }
  specialize (D4 Hr i t Hi). lia.
Qed.

(** The lookup after one entry of the key was set to the address. *)
Lemma set_entry_updated w' i a : index_wf (hc_index c) w' → (i < CHUNK_ENTRIES)%nat →
  (∀ k j, index_of c w' k j = index_of c w k j) →
  owned (hc_index c) k (entry_at (hc_index c) w' k i) →
  0 < Address.as_u64 a ≤ IEntry.last_address (bits (hc_index c)) →
  updated (index_of c w) k i (Some a)
    (index_of c (set_entry (hc_index c) k i (new_entry (hc_index c) k a) w')).
Proof.
  intros Hwf Hi Hsame Hown Ha k1 j Hk1. pose proof (index_prefix_u64 key) as Hk. fold k in Hk.
  destruct (new_entry_ok (hc_index c) k a (iw_bits _ _ Hwf) Hk Ha) as (E1 & E2 & E3 & E4).
  rewrite lookup_set_entry by (done || by right). rewrite E4, E1, Hsame. done.
Qed.

Lemma clear_entry_updated w' i b : index_wf (hc_index c) w' →
  (∀ k j, index_of c w' k j = index_of c w k j) → index_of c w' k i = Some b →
  updated (index_of c w) k i None (index_of c (set_entry (hc_index c) k i IEntry.empty w')).
Proof.
  intros Hwf Hsame Hb k1 j Hk1. pose proof (index_prefix_u64 key) as Hk. fold k in Hk.
  apply lookup_at_Some in Hb as (Hi & _ & Hp & _).
  rewrite lookup_set_entry; [..|by left|by right]; try done. by rewrite Hsame.
Qed.

(** The state after the plan for the values. *)
Lemma values_planned val r' w' SS' :
  plan_done (hc_col c) (hc_ref_counted c) (hc_compression c) (write_bound val) (as_ref c) w SS r' w' SS' →
  repr c (hc_values (put_ref r' c)) w' SS' ∧ hc_index (put_ref r' c) = hc_index c ∧
  index_wf (hc_index c) w' ∧ (∀ k j, index_of c w' k j = index_of c w k j) ∧
  same_column c (put_ref r' c) ∧ index_logged (hc_col c) (hc_index c) w'.
Proof.
  intros [D1 D2 D3 D4]. destruct (same_column_put r' c) as [Hc Hv].
  destruct (index_frame (hc_index c) w w' D2 (ci_index _ _ _ Hinv)) as [Hwf Hsame].
  split_and!; [by rewrite Hv|apply Hc|done|done|done|].
  by eapply index_logged_frame, ci_logged.
Qed.

(** A plan for the values, then at most one entry of the index. *)
Lemma planned_grow val r' w' SS' w2 :
  plan_done (hc_col c) (hc_ref_counted c) (hc_compression c) (write_bound val) (as_ref c) w SS r' w' SS' →
  w2 = w' ∨ (∃ i e, w2 = set_entry (hc_index c) k i e w' ∧ (i < CHUNK_ENTRIES)%nat ∧
    is_u64 (IEntry.as_u64 e) ∧ index_wf (hc_index c) w') →
  write_grow (write_bound val) c w (put_ref r' c) w2.
Proof.
  intros Hd Hw2. destruct (values_planned _ _ _ _ Hd) as (_ & _ & _ & _ & Hsc & _).
  destruct Hd as [_ D2 _ D4]. destruct (same_column_put r' c) as [_ Hv].
  split; [done|intros N HN; rewrite Hv; by apply D4|].
  assert (Hcv : ∀ ci, chunk_view (hc_index c) w' ci = chunk_view (hc_index c) w ci)
    by (intros ci; unfold chunk_view; by rewrite (same_index_view _ _ _ _ D2)).
  destruct Hw2 as [->|(i & e & -> & Hi & He & Hwf)].
  - exists 0, 0%nat. intros ci j _. by rewrite Hcv.
  - exists (chunk_index (hc_index c) k), i. intros ci j Hne. rewrite chunk_view_set_entry, <- Hcv.
    destruct (decide _) as [<-|]; [|done]. cbn [default id].
    assert (i ≠ j) by (intros ->; by apply Hne).
    destruct (decide (j < CHUNK_ENTRIES)%nat) as [Hj|Hj].
    + rewrite read_write_entry by (done || by apply chunk_view_chunk). by rewrite decide_False.
    + pose proof (chunk_view_chunk _ _ (chunk_index (hc_index c) k) Hwf) as Hch.
      unfold read_entry. do 2 f_equal.
      rewrite !drop_ge; [done|..]; [|rewrite (write_entry_chunk _ _ _ Hch Hi : _ = _)];
        unfold is_chunk, CHUNK_LEN, CHUNK_ENTRIES, ENTRY_BYTES in *; lia.
Qed.

(** The entries of the key that refer to an address of its chain. *)
Lemma at_key i a : index_of c w k i = Some a →
  ∀ k1 j, is_u64 k1 → key50 k = key50 k1 → i = j → index_of c w k1 j = Some a.
Proof.
  intros Hi k1 j Hk1 H50 <-. rewrite <- Hi. symmetry.
  apply (lk_resp _ _ (ci_links _ _ _ Hinv)); [apply index_prefix_u64|done|done].
Qed.

(** The end of a write to a stored key: the index and the tables agree. *)
Lemma existing_step val j a s oa' s' r' w' SS' : hit w SS (hc_index c) key j a s →
  plan_done (hc_col c) (hc_ref_counted c) (hc_compression c) (write_bound val) (as_ref c) w SS r' w' SS' →
  stores_to SS a oa' s' SS' → (is_Some oa' → s_key s' = partial_key key) → value_at c oa' s' (kv val) →
  ∀ w2, updated (index_of c w) k j oa' (index_of c w2) → index_wf (hc_index c) w2 →
    index_logged (hc_col c) (hc_index c) w2 → repr c (hc_values (put_ref r' c)) w2 SS' →
    (∀ b, oa' = Some b → valid_address b ∧ (stored_at SS b = None ∨ a = b)) →
    col_repr (put_ref r' c) w2 (kv_set M key (kv val)).
Proof.
  intros (Hj & Hs & Hsk) Hd Hst Hk' Hva w2 Hup Hwf2 Hlg2 Htb2 Hfresh.
  destruct (values_planned _ _ _ _ Hd) as (Htb' & Hidx & Hwf' & Hsame & Hsc & Hlg').
  eapply (col_step c w SS _ w2 SS' M key j (Some a) oa' s'); try done.
  - destruct Hsc. by split.
  - apply Hsc.
  - by rewrite Hidx.
  - by rewrite Hidx.
  - rewrite Hidx. split; [done|done| |done|done|done|].
    + intros b [= <-]. by exists s.
    + intros b Hb. destruct (Hfresh b Hb) as (? & [?| ->]); split_and!; eauto.
Qed.

Lemma write_existing val j a s v : hit w SS (hc_index c) key j a s →
  plain_value (hc_compression c) s v → M key = Some (v, s_rc s) → value_ok val → write_room c val →
  ∃ o c' w', write_plan_existing key val (hc_index c) j a (c, w) = (Ok o, (c', w')) ∧
    o ≠ NeedReindex ∧ col_repr c' w' (kv_set M key (kv val)) ∧ write_grow (write_bound val) c w c' w'.
Proof.
  intros (Hj & Hs & Hsk) Hv HMk Hok Hroom. pose proof (ci_links _ _ _ Hinv) as Hl.
  pose proof (lk_valid _ _ Hl _ _ _ ltac:(apply index_prefix_u64) Hj) as Ha.
  destruct (existing_value_ok (hc_col c) (hc_ref_counted c) (hc_compression c) (ci_col _ _ _ Hinv)
    (as_ref c) w SS a s (Partial key) (or_introl eq_refl) (or_introl eq_refl) eq_refl (ci_tables _ _ _ Hinv) Ha Hs Hsk
    (partial_wf key Hkey) val _) as
    (res & r' & w' & SS' & oa' & s' & Hrun & Hd & Hst & Hvs & Has & Hk').
  { pose proof (write_room_room val Hroom). destruct val; [|done]. by destruct Hok. }
  destruct (values_planned _ _ _ _ Hd) as (Htb' & Hidx & Hwf' & Hsame & Hsc & Hlg').
  pose proof (value_spec_kv _ _ _ _ _ _ Hv Hvs) as Hva. rewrite <- HMk in Hva.
  apply on_tables_run in Hrun.
  assert (Hstep := fun w2 => existing_step val j a s oa' s' r' w' SS' (conj Hj (conj Hs Hsk)) Hd Hst Hk' Hva w2).
  unfold write_plan_existing. erewrite ST_bind_Ok by exact Hrun. erewrite ST_bind_Ok by done. cbv beta iota.
  rewrite Hidx. destruct oa' as [a'|]; cbn [address_spec] in Has.
  - destruct Has as [(-> & o & -> & Ho)|([v' ->] & -> & Va' & Hfr & Hpos)].
    + exists o; eexists _, w'. split_and!; [done|done| |eapply planned_grow; [exact Hd|by left]].
      apply Hstep; [|done|done|done|].
      * apply updated_same; [by apply at_key|done].
      * intros b [= <-]. by auto.
    + rewrite decide_True by done.
      assert (Hle : Address.as_u64 a' ≤ IEntry.last_address (bits (hc_index c))).
      { eapply planned_address; [done|exact Hd|done|]. rewrite (Hst a' Va'). by rewrite decide_True. }
      assert (Hb : index_of c w' k j = Some a) by (by rewrite Hsame).
      pose proof (lookup_at_Some _ _ _ _ _ Hb) as (Hjl & _ & Hown & _).
      erewrite on_log_run; [|rewrite (index_insert_Some _ _ _ _ _ a Hwf' Hpos Hb);
        rewrite (proj2 (Z.ltb_ge _ _)) by done; done].
      destruct (new_entry_ok (hc_index c) k a' (iw_bits _ _ Hwf') ltac:(apply index_prefix_u64)
        ltac:(lia)) as (_ & He & _).
      eexists _, _, _. split_and!;
        [done|done| |eapply planned_grow; [exact Hd|right; eexists _, _; by split_and!]]. apply Hstep.
      * apply set_entry_updated; [done..|by right|done].
      * by apply set_entry_wf.
      * apply set_entry_logged; [done|apply index_prefix_u64|done..].
      * by apply tables_set_entry.
      * intros b [= <-]. auto.
  - destruct Has as [-> ->].
    assert (Hb : index_of c w' k j = Some a) by (by rewrite Hsame).
    pose proof (lookup_at_Some _ _ _ _ _ Hb) as (Hjl & _ & Hown & _).
    erewrite ST_bind_Ok by (apply on_log_run; rewrite (index_remove_eq _ _ _ _ Hwf' Hjl);
      fold k; by rewrite Hb).
    eexists _, _, _. split_and!;
      [done|done| |eapply planned_grow; [exact Hd|right; eexists _, _; by split_and!]].
    apply Hstep; [|by apply set_entry_wf|apply set_entry_logged; [done|apply index_prefix_u64|done..]|
      by apply tables_set_entry|done].
    by eapply clear_entry_updated.
Qed.

(** A key that is not stored: the value goes to a free address and the address
    to a free entry. *)
Lemma write_new v : (∀ s, ¬ holds (index_of c w) (stored_at SS) key s) → M key = None →
  value_ok (Some v) → write_room c (Some v) → chunk_room c w key → ∀ fuel,
  ∃ c' w', write_plan_new (S fuel) key v (c, w) = (Ok Written, (c', w')) ∧
    col_repr c' w' (kv_set M key (kv (Some v))) ∧ write_grow (write_bound (Some v)) c w c' w'.
Proof.
  intros Hno HMk (Hlen & cv & Hcv) Hroom (i & Hi & Hfree) fuel.
  destruct (new_value_ok (hc_col c) (hc_ref_counted c) (hc_compression c) (ci_col _ _ _ Hinv)
    (as_ref c) w SS (Partial key) v cv (or_introl eq_refl) (ci_tables _ _ _ Hinv) (partial_wf key Hkey) Hcv Hlen
    (write_room_room _ Hroom)) as (a & r' & w' & SS' & s' & Hrun & Hd & Hst & Hpl & Hrc1 & Hk' & Va & Hfr & Hpos).
  destruct (values_planned (Some v) _ _ _ Hd) as (Htb' & Hidx & Hwf' & Hsame & Hsc & Hlg').
  assert (Hle : Address.as_u64 a ≤ IEntry.last_address (bits (hc_index c))).
  { eapply (planned_address (Some v)); [done|exact Hd|done|]. rewrite (Hst a Va). by rewrite decide_True. }
  assert (Hent : ∀ n, entry_at (hc_index c) w' k n = entry_at (hc_index c) w k n).
  { intros n. unfold entry_at, chunk_view. by rewrite (same_index_view _ _ _ _ (pd_index _ _ _ _ _ _ _ _ _ _ Hd)). }
  pose proof (empty_from_spec (default EMPTY_CHUNK (chunk_view (hc_index c) w' (chunk_index (hc_index c) k)))
    CHUNK_ENTRIES 0) as He.
  destruct (empty_from _ 0 CHUNK_ENTRIES) as [n|] eqn:En.
  2: { specialize (He i ltac:(lia)). rewrite <- Hent in Hfree. unfold entry_at in Hfree. congruence. }
  destruct He as (Hn & Hne & _). fold (entry_at (hc_index c) w' k n) in Hne.
  apply on_tables_run in Hrun. cbn [write_plan_new].
  erewrite ST_bind_Ok by exact Hrun. erewrite ST_bind_Ok by done. cbv beta iota. rewrite Hidx.
  erewrite ST_bind_Ok.
  2: { apply on_log_run. rewrite (index_insert_None _ _ _ _ Hwf'). fold k.
       rewrite (proj2 (Z.ltb_ge _ _)) by done. by rewrite En. }
  destruct (new_entry_ok (hc_index c) k a (iw_bits _ _ Hwf') ltac:(apply index_prefix_u64)
    ltac:(lia)) as (_ & Heu & _).
  eexists _, _. split_and!; [done| |eapply planned_grow; [exact Hd|right; eexists _, _; split_and!; lia || done]].
  rewrite HMk.
  eapply (col_step c w SS _ _ SS' M key n None (Some a) s'); try done.
  - destruct Hsc. by split.
  - apply Hsc.
  - by apply tables_set_entry.
  - rewrite Hidx. apply set_entry_wf; [done|lia].
  - rewrite Hidx. apply set_entry_logged; [done|apply index_prefix_u64|lia|done|done].
  - rewrite Hidx. split; [done| |done|done| | |].
    + rewrite <- Hsame. unfold lookup_at. rewrite Hne. by rewrite andb_false_r.
    + apply set_entry_updated; [done|lia|done|by left|done].
    + intros b Hb. rewrite (Hst b Hb). destruct (decide (a = b)) as [<-|]; [by rewrite decide_True|].
      by rewrite !decide_False by congruence.
    + intros b [= <-]. auto.
Qed.

End Write.

(** [write_plan] updates the map. *)
Lemma write_plan_ok c w M key val : col_repr c w M → is_key key → value_ok c val → write_room c val →
  (M key = None → is_Some val → chunk_room c w key) →
  ∃ o c' w', write_plan key val (c, w) = (Ok o, (c', w')) ∧ o ≠ NeedReindex ∧
    col_repr c' w' (kv_set M key (kv_write (hc_ref_counted c) (hc_preimage c) (M key) val)) ∧
    write_grow (write_bound val) c w c' w'.
Proof.
  intros (SS & Hinv & HM) Hkey Hok Hroom Hcr. unfold write_plan. erewrite ST_bind_Ok by done. cbv beta iota.
  rewrite (ci_queue _ _ _ Hinv). cbn [search_all_indexes]. pose proof (HM key Hkey) as HMk.
  pose proof (ci_links _ _ _ Hinv) as Hl.
  destruct (search_index_ok (hc_col c) (hc_ref_counted c) (hc_compression c) (hc_values c) w SS
    (hc_index c) key (ci_tables _ _ _ Hinv) (ci_index _ _ _ Hinv) Hl) as [(j & a & s & E & Hh)|[E Hn]];
    rewrite E, outcome_bind_Ok; erewrite ST_bind_Ok by done; cbv beta iota.
  - assert (Hs : holds (index_of c w) (stored_at SS) key s) by (by exists j, a).
    unfold kv_holds in HMk. destruct (M key) as [[v n]|] eqn:EM; [|by destruct (HMk s)].
    destruct HMk as (s1 & Hs1 & Hv & Hn). rewrite (holds_unique _ _ _ _ _ Hl Hs1 Hs) in *. subst n.
    rewrite <- EM. by eapply write_existing.
  - assert (Hno : ∀ s, ¬ holds (index_of c w) (stored_at SS) key s) by (intros s; by eapply no_hit_holds; [apply Hinv..|]).
    assert (EM : M key = None).
    { unfold kv_holds in HMk. destruct (M key) as [[v n]|]; [|done]. destruct HMk as (s1 & Hs1 & _).
      by destruct (Hno s1). }
    destruct val as [v|].
    + destruct (write_new c w SS M key Hinv HM Hkey v Hno EM Hok Hroom (Hcr EM ltac:(eauto))
        (pred reindex_fuel)) as (c' & w' & E' & HM' & Hg). exists Written, c', w'. by split_and!.
    + erewrite ST_bind_Ok by done. destruct (same_column_count ColumnStats.remove_miss c) as [Hsc Hv].
      eexists _, _, _. split_and!; [done|done| |].
      2: { split; [done|intros N; rewrite Hv; apply room_le; cbn; lia|by exists 0, 0%nat]. }
      eapply col_repr_same; [done|done|].
      exists SS. split; [done|]. intros key1 Hk1. unfold kv_set. destruct (decide (key1 = key)) as [->|]; [|auto].
      rewrite EM. exact Hno.
Qed.

(** [get] reads the map, and changes at most the statistics. *)
Lemma column_get_ok c w M key : col_repr c w M → is_key key →
  ∃ c', column_get key w c = (Ok (fst <$> M key), c') ∧ same_column c c' ∧ hc_values c' = hc_values c.
Proof.
  intros (SS & Hinv & HM) Hkey. unfold column_get. erewrite ST_bind_Ok by done.
  rewrite (ci_queue _ _ _ Hinv). cbn [get_in_indexes]. specialize (HM key Hkey).
  pose proof (ci_links _ _ _ Hinv) as Hl.
  destruct (get_in_index_ok (hc_col c) (hc_ref_counted c) (hc_compression c) (hc_values c) w SS
    (hc_index c) key (ci_tables _ _ _ Hinv) (ci_index _ _ _ Hinv) Hl) as
    [(j & a & s & v & E & Hh & Hv)|[E Hn]]; rewrite E, outcome_bind_Ok; erewrite ST_bind_Ok by done;
    cbv beta iota; erewrite ST_bind_Ok by done.
  - assert (Hs : holds (index_of c w) (stored_at SS) key s) by (by exists j, a).
    unfold kv_holds in HM. destruct (M key) as [[v' n]|]; [|by destruct (HM s)].
    destruct HM as (s1 & Hs1 & Hv1 & _). rewrite (holds_unique _ _ _ _ _ Hl Hs1 Hs) in Hv1.
    assert (v' = v) as -> by (unfold plain_value in *; destruct (s_compressed s); congruence).
    eexists. split; [done|apply same_column_count].
  - assert (Hno : ∀ s, ¬ holds (index_of c w) (stored_at SS) key s) by (intros s; by eapply no_hit_holds; [apply Hinv..|]). unfold kv_holds in HM.
    destruct (M key) as [[v n]|].
    + destruct HM as (s1 & Hs1 & _). by destruct (Hno s1).
    + eexists. split; [done|apply same_column_count].
Qed.

End Map.
