(* ===== verification/ColumnEnact.v ===== *)
(** * Enacting a record on a hash column

    [HashColumn::enact_plan] (src/src/column.rs) takes one entry of a record to
    its table. While a record is enacted its entries are still in the overlays;
    when they leave them, the files show what the overlays did. *)

From S2P Require Import Prelude.
From S2P Require Import Bytes.
From S2P Require Import Ids.
From S2P Require Import File.
From S2P Require Import Log.
From S2P Require Import LogProofs.
From S2P Require Import LogReplay.
From S2P Require Import Table.
From S2P Require Import TableSpec.
From S2P Require Import TableOps.
From S2P Require Import TableRefine.
From S2P Require Import TableStore.
From S2P Require Import TableEnact.
From S2P Require Import Index.
From S2P Require Import IndexProofs.
From S2P Require Import IndexEnact.
From S2P Require Import Compress.
From S2P Require Import Stats.
From S2P Require Import Column.
From S2P Require Import HashColumn.
From S2P Require Import ColumnTables.
From S2P Require Import ColumnLinks.
From S2P Require Import ColumnProofs.
From S2P Require Import ColumnValues.
From S2P Require Import ColumnMap.
From stdpp Require Import options.
#[local] Set Default Proof Using "Type*".

(** ** The entries of a list of actions *)

Definition put_value (id : ValueTableId) (m : gmap Z bytes) (e : LogEntry) : gmap Z bytes :=
  match e with
  | EValue id' n d => if decide (id' = id) then <[n := d]> m else m
  | _ => m
  end.
(** What the entries leave in table [id]. *)
Definition values_of (id : ValueTableId) (es : list LogEntry) : gmap Z bytes := foldl (put_value id) ∅ es.

Definition put_chunk (id : IndexTableId) (n : Z) (c : Chunk) (e : LogEntry) : Chunk :=
  match e with
  | EIndex id' n' mask ch => if decide (id' = id ∧ n' = n) then merge_chunk mask ch c else c
  | _ => c
  end.
(** What the entries make of chunk [n] of index [id]. *)
Definition chunk_after (id : IndexTableId) (n : Z) (es : list LogEntry) (c : Chunk) : Chunk :=
  foldl (put_chunk id n) c es.

Lemma values_of_snoc id es e : values_of id (es ++ [e]) = put_value id (values_of id es) e.
Proof. unfold values_of. by rewrite foldl_app. Qed.
Lemma chunk_after_snoc id n es e c : chunk_after id n (es ++ [e]) c = put_chunk id n (chunk_after id n es c) e.
Proof. unfold chunk_after. by rewrite foldl_app. Qed.

Lemma values_of_in id es n d : values_of id es !! n = Some d → EValue id n d ∈ es.
Proof.
  induction es as [|e es IH] using rev_ind; [done|]. rewrite values_of_snoc, elem_of_app.
  destruct e as [id' n' m ch|id' n' d'|id']; cbn [put_value]; auto.
  case_decide as Hid; [subst id'|auto]. rewrite lookup_insert. case_decide as Hn; [|auto].
  subst n'. intros [= ->]. right. by left.
Qed.
Lemma values_of_some id es n d : EValue id n d ∈ es → is_Some (values_of id es !! n).
Proof.
  induction es as [|e es IH] using rev_ind; [by intros ?%elem_of_nil|]. rewrite values_of_snoc, elem_of_app.
  intros [Hin|Hin%list_elem_of_singleton].
  - apply IH in Hin. destruct e as [id' n' m ch|id' n' d'|id']; cbn [put_value]; auto.
    case_decide; [|done]. rewrite lookup_insert. case_decide; eauto.
  - subst e. cbn [put_value]. rewrite decide_True, lookup_insert_eq by done. eauto.
Qed.

(** Entries of one record for the same chunk are the same. *)
Definition entries_fun (es : list LogEntry) : Prop :=
  ∀ id n m ch m' ch', EIndex id n m ch ∈ es → EIndex id n m' ch' ∈ es → m = m' ∧ ch = ch'.

Lemma put_chunk_cases id n c e : (put_chunk id n c e = c ∧ ∀ m ch, e ≠ EIndex id n m ch) ∨
  ∃ m ch, e = EIndex id n m ch ∧ put_chunk id n c e = merge_chunk m ch c.
Proof.
  destruct e as [id' n' m ch| |]; cbn [put_chunk]; [|by left|by left].
  case_decide as Hd; [|left; split; [done|]; intros m' ch' [= -> -> _ _]; by apply Hd].
  destruct Hd as [-> ->]. right. eauto.
Qed.

Lemma chunk_after_none id n es c : (∀ m ch, EIndex id n m ch ∉ es) → chunk_after id n es c = c.
Proof.
  induction es as [|e es IH] using rev_ind; intros Hno; [done|]. rewrite chunk_after_snoc, IH by set_solver.
  destruct (put_chunk_cases id n c e) as [[-> _]|(m & ch & -> & _)]; [done|]. destruct (Hno m ch). set_solver.
Qed.

Lemma chunk_after_ok id n es c : (∀ m ch, EIndex id n m ch ∈ es → is_chunk ch) → is_chunk c →
  is_chunk (chunk_after id n es c).
Proof.
  induction es as [|e es IH] using rev_ind; intros Hok Hc; [done|]. rewrite chunk_after_snoc.
  assert (Hes : is_chunk (chunk_after id n es c)) by (apply IH; [|done]; intros m ch Hin; apply (Hok m); set_solver).
  destruct (put_chunk_cases id n (chunk_after id n es c) e) as [[-> _]|(m & ch & -> & ->)]; [done|].
  apply merge_chunk_spec; [|done]. apply (Hok m). set_solver.
Qed.

Lemma merge_merge m ch c : is_chunk ch → is_chunk c → merge_chunk m ch (merge_chunk m ch c) = merge_chunk m ch c.
Proof.
  intros Hch Hc. destruct (merge_chunk_spec m ch c Hch Hc) as [Hm He].
  destruct (merge_chunk_spec m ch (merge_chunk m ch c) Hch Hm) as [Hm2 He2].
  apply chunk_ext; [done|done|]. intros j Hj. rewrite He2 by done.
  destruct (Z.testbit m (Z.of_nat j)) eqn:E; [|done]. by rewrite He, E.
Qed.

Lemma chunk_after_one id n es m ch c : EIndex id n m ch ∈ es → entries_fun es → is_chunk ch → is_chunk c →
  chunk_after id n es c = merge_chunk m ch c.
Proof.
  intros Hin Hfun Hch Hc.
  assert (Hsame : ∀ m' ch', EIndex id n m' ch' ∈ es → m' = m ∧ ch' = ch).
  { intros m' ch' Hin'. destruct (Hfun _ _ _ _ _ _ Hin Hin') as [-> ->]. done. }
  clear Hfun. assert (Hgen : ∀ es, (∀ m' ch', EIndex id n m' ch' ∈ es → m' = m ∧ ch' = ch) →
    (chunk_after id n es c = c ∧ EIndex id n m ch ∉ es) ∨ chunk_after id n es c = merge_chunk m ch c).
  { clear es Hin Hsame. intros es. induction es as [|e es IH] using rev_ind; intros Hs; [left; split; [done|set_solver]|].
    specialize (IH ltac:(intros m' ch' Hi; apply Hs; set_solver)).
    rewrite chunk_after_snoc.
    destruct (put_chunk_cases id n (chunk_after id n es c) e) as [[-> Hne]|(m' & ch' & -> & ->)].
    - destruct IH as [[E Hni]|E]; [left|by right]. split; [done|].
      intros [?|?%list_elem_of_singleton]%elem_of_app; [done|by eapply Hne].
    - destruct (Hs m' ch') as [-> ->]; [set_solver|]. right.
      destruct IH as [[-> _]| ->]; [done|by apply merge_merge]. }
  by destruct (Hgen es Hsame) as [[_ ?]|].
Qed.

Section Enact.
Context `{!Uninit}.

(** ** One entry *)

(** [c] is [c0] after the entries [dn] were enacted. *)
Record col_enacted (c0 : HashColumn) (dn : list LogEntry) (c : HashColumn) : Prop := {
  cn_same : ∃ vs idx, c = set_hc_values vs (set_hc_index idx (hc_queue c0) c0);
  cn_len : length (hc_values c) = length (hc_values c0);
  cn_tables : ∀ i t0, hc_values c0 !! i = Some t0 →
    ∃ t, hc_values c !! i = Some t ∧ enacted t0 (values_of (vt_id t0) dn) t;
  cn_index : it_id (hc_index c) = it_id (hc_index c0);
  cn_map : map_wf (hc_index c);
  cn_chunk : ∀ n, map_chunk (hc_index c) n =
    chunk_after (it_id (hc_index c0)) n dn (map_chunk (hc_index c0) n);
  cn_stats : stats_size (hc_index c0) → stats_size (hc_index c);
  cn_mapped : is_Some (it_map (hc_index c0)) → is_Some (it_map (hc_index c));
}.

(** The column takes the entry. *)
Definition entry_fits (c0 : HashColumn) (e : LogEntry) : Prop :=
  match e with
  | EValue id n d => ∃ i t, hc_values c0 !! i = Some t ∧ vt_id t = id ∧ 0 ≤ n ≤ 2 ^ 48 ∧ logged t n d
  | EIndex id n mask ch => id = it_id (hc_index c0) ∧ is_chunk ch ∧ is_u64 mask ∧
      0 ≤ n < IndexTableId.total_chunks id
  | EDrop _ => False
  end.

Record column_wf (c0 : HashColumn) : Prop := {
  cw_tables : ∀ i t, hc_values c0 !! i = Some t → table_wf t ∧ value_tier (vt_id t) = i ∧ file_ok t;
  cw_map : map_wf (hc_index c0);
}.

Lemma col_enacted_nil c0 : column_wf c0 → col_enacted c0 [] c0.
Proof.
  intros [Ht Hm]. split; try done.
  - exists (hc_values c0), (hc_index c0). by destruct c0.
  - intros i t0 Hi. exists t0. split; [done|]. apply enacted_nil. by apply (Ht i).
Qed.

Lemma enact_value_entry c0 dn c id n d r rest : column_wf c0 → col_enacted c0 dn c →
  Forall (entry_fits c0) dn → entry_fits c0 (EValue id n d) → reader_at r d rest →
  ∃ c' r', column_enact_plan (InsertValue id n) (c, r) = (Ok tt, (c', r')) ∧ advanced d r r' ∧
    col_enacted c0 (dn ++ [EValue id n d]) c'.
Proof.
  intros [Hwf Hm] [(vs & idx & ->) Hlen Htab Hidx Hmap Hch Hst Hmp] Hdn (i & t0 & Hi & <- & Hn & Hlog) Hr.
  destruct (Hwf i t0 Hi) as (Hwt & Htier & _). destruct (Htab i t0 Hi) as (t & Ht & Hen).
  cbn [hc_values set_hc_values hc_index set_hc_index] in *.
  destruct (enacted_step t0 (values_of (vt_id t0) dn) t r n d rest Hwt Hen) as (t' & r' & Hrun & Ha & Hen'); try done.
  { intros j [d' Hj]. apply values_of_in in Hj. rewrite Forall_forall in Hdn.
    destruct (Hdn _ Hj) as (_ & _ & _ & _ & ? & _). done. }
  eexists _, r'. split_and!.
  - unfold column_enact_plan, on_value. cbn [hc_values set_hc_values]. by rewrite Htier, Ht, Hrun.
  - done.
  - split; cbn [hc_values set_hc_values hc_index set_hc_index].
    + by exists (<[i := t']> vs), idx.
    + by rewrite length_insert.
    + intros j tj Hj. rewrite list_lookup_insert.
      destruct (decide (i = j ∧ (i < length vs)%nat)) as [[<- _]|Hne].
      * exists t'. split; [done|]. rewrite Hi in Hj. injection Hj as <-.
        rewrite values_of_snoc. cbn [put_value]. by rewrite decide_True.
      * destruct (Htab j tj Hj) as (tj' & Hj' & Hej). exists tj'. split; [done|]. rewrite values_of_snoc. cbn [put_value].
        rewrite decide_False; [done|]. intros Heq. destruct (Hwf j tj Hj) as (_ & Hj2 & _).
        apply Hne. split; [by rewrite <- Htier, Heq|by eapply lookup_lt_Some].
    + done.
    + done.
    + intros k. rewrite chunk_after_snoc. apply Hch.
    + auto.
    + auto.
Qed.

Lemma enact_index_entry c0 dn c id n mask ch r rest : col_enacted c0 dn c →
  entry_fits c0 (EIndex id n mask ch) → reader_at r (entry_payload (EIndex id n mask ch)) rest →
  ∃ c' r', column_enact_plan (InsertIndex id n) (c, r) = (Ok tt, (c', r')) ∧
    advanced (entry_payload (EIndex id n mask ch)) r r' ∧ col_enacted c0 (dn ++ [EIndex id n mask ch]) c'.
Proof.
  intros [(vs & idx & ->) Hlen Htab Hidx Hmap Hch Hst Hmp] (-> & Hchk & Hu & Hn) Hr.
  cbn [hc_values set_hc_values hc_index set_hc_index] in *.
  destruct (enact_index_plan_merge idx r rest n mask ch Hmap Hchk Hu) as (t' & r' & Hrun & Ha & [E1 E2 E3 E4 E5 E6]).
  { by rewrite Hidx. }
  { exact Hr. }
  eexists _, r'. split_and!.
  - unfold column_enact_plan. cbn [hc_index set_hc_values set_hc_index]. rewrite decide_True by done.
    unfold on_index. cbn [hc_index set_hc_values set_hc_index]. by rewrite Hrun.
  - done.
  - split; cbn [hc_values set_hc_values hc_index set_hc_index].
    + by exists vs, t'.
    + done.
    + intros j tj Hj. rewrite values_of_snoc. by apply Htab.
    + by rewrite E1.
    + done.
    + intros k. rewrite chunk_after_snoc. cbn [put_chunk]. destruct (decide _) as [[_ <-]|Hne].
      * by rewrite E3, Hch.
      * rewrite E4 by (intros ->; by apply Hne). apply Hch.
    + auto.
    + auto.
Qed.

(** ** What the column shows afterwards *)

(** The masks cover what the chunks change. *)
Definition entries_cover (idx : IndexTable) (es : list LogEntry) : Prop :=
  ∀ n m ch, EIndex (it_id idx) n m ch ∈ es → is_chunk ch ∧ mask_covers m ch (map_chunk idx n).

(** [w'] shows what [w] did, but for entries of the record [es], which it does
    not show any more. *)
Record entries_left (col : ColId) (es : list LogEntry) (w w' : LogWriter) : Prop := {
  el_value : ∀ id n, ValueTableId.col id = col →
    value_view w' id n = value_view w id n ∨ (value_view w' id n = None ∧ ∃ d, value_view w id n = Some d ∧ EValue id n d ∈ es);
  el_value_fun : ∀ id n d d', EValue id n d ∈ es → EValue id n d' ∈ es → d = d';
  el_value_shown : ∀ id n d, EValue id n d ∈ es → is_Some (value_view w id n);
  el_index : ∀ id n, IndexTableId.col id = col →
    index_view w' id n = index_view w id n ∨ (index_view w' id n = None ∧ ∃ m ch, index_view w id n = Some ch ∧ EIndex id n m ch ∈ es);
  el_index_fun : entries_fun es;
  el_index_shown : ∀ id n m ch, EIndex id n m ch ∈ es → is_Some (index_view w id n);
}.

Lemma enacted_shows col es w w' t0 t j s : entries_left col es w w' → ValueTableId.col (vt_id t0) = col →
  enacted t0 (values_of (vt_id t0) es) t → 1 ≤ j ≤ 2 ^ 48 → slot_is t0 w j s → slot_is t w' j s.
Proof.
  intros [Hv Hfun Hsh _ _ _] Hc [[f ->] _ Hnew Hold _] Hj [Hw [rest Hs]]. split; [done|].
  unfold slot_bytes in *. cbn [vt_id set_vt_file vt_file entry_size].
  change (esz (set_vt_file f t0)) with (esz t0). cbn [vt_file set_vt_file] in *.
  destruct (Hv (vt_id t0) j Hc) as [->|(-> & d & Hd & Hin)].
  - destruct (value_view w (vt_id t0) j) as [d|] eqn:Ed; [by exists rest|].
    destruct (TableFile.read_at (vt_file t0) _ _) as [b| | | | |] eqn:Eb; [|done..].
    injection Hs as ->. exists rest. unfold window in Hold.
    rewrite (Hold j (encode_slot s ++ rest)); [done|lia| |exact Eb].
    destruct (values_of (vt_id t0) es !! j) as [d|] eqn:E; [|done].
    apply values_of_in, Hsh in E as [x Hx]. congruence.
  - rewrite Hd in Hs. injection Hs as ->. destruct (values_of_some _ _ _ _ Hin) as [d' Hd'].
    pose proof (values_of_in _ _ _ _ Hd') as Hin'. rewrite (Hfun _ _ _ _ Hin' Hin) in Hd'.
    destruct (Hnew j _ Hd') as [tail Htail]. unfold window in Htail. rewrite Htail.
    exists (rest ++ tail). by rewrite (assoc_L (++)).
Qed.

Lemma default_chunk_view {L} `{LogView L} (l : L) (t : IndexTable) n :
  default EMPTY_CHUNK (chunk_view t l n) = default (map_chunk t n) (index_view l (it_id t) n).
Proof using Type.
  unfold chunk_view, map_chunk. destruct (index_view l (it_id t) n); [done|]. by destruct (it_map t).
Qed.

Lemma enacted_chunk col es w w' c0 c n : entries_left col es w w' → col_enacted c0 es c → map_wf (hc_index c0) →
  entries_cover (hc_index c0) es → IndexTableId.col (it_id (hc_index c0)) = col →
  default EMPTY_CHUNK (chunk_view (hc_index c) w' n) = default EMPTY_CHUNK (chunk_view (hc_index c0) w n).
Proof.
  intros [_ _ _ Hx Hfun Hsh] [_ _ _ Hid _ Hch _ _] Hwf Hcov Hc. rewrite !default_chunk_view, Hid.
  destruct (Hx (it_id (hc_index c0)) n Hc) as [->|(-> & m & ch & Hd & Hin)].
  - destruct (index_view w _ n) as [ch|] eqn:E; [done|]. cbn. rewrite Hch. apply chunk_after_none.
    intros m ch Hin. apply Hsh in Hin as [? ?]. congruence.
  - destruct (Hcov _ _ _ Hin) as [Hok Hm]. rewrite Hd. cbn. pose proof (map_chunk_ok _ n Hwf).
    rewrite Hch, (chunk_after_one _ _ _ _ _ _ Hin) by done. by apply merge_covered.
Qed.

End Enact.

Section Repr.
Context `{!Uninit, !Codecs, !CodecLaws}.

Lemma col_repr_wf c w M : col_repr c w M → column_wf c.
Proof.
  intros (SS & [I1 I2 I3 I4 I5 I6] & _). split.
  - intros i t Hi. assert (Hlt : (i < SIZE_TIERS)%nat) by (rewrite <- (tb_len _ _ _ _ _ _ I2); by eapply lookup_lt_Some).
    destruct (tables_lookup _ _ _ I1 _ _ _ i I2 Hlt) as (t' & m & Ht' & _ & (free & vals & Hr & _)). simplify_eq.
    split_and!; [apply Hr| |by eapply (tb_file _ _ _ _ _ _ I2)].
    unfold value_tier. rewrite (tb_id _ _ _ _ _ _ I2 _ _ Hi).
    destruct (value_id_new (hc_col c) (Z.of_nat i)) as (_ & -> & _); [done| |lia].
    unfold SIZE_TIERS in Hlt. unfold is_u8. lia.
  - intros m i ch. apply (iw_map _ _ I3).
Qed.

(** [t] and the log [w'] show what [t0] and [w] did. *)
Record table_shows (t0 : ValueTable) (w : LogWriter) (t : ValueTable) (w' : LogWriter) : Prop := {
  th_table : ∃ f b v, t = with_file f b v t0;
  th_file : file_ok t;
  th_header : header_shown t w';
  th_slot : ∀ j s, 1 ≤ j ≤ 2 ^ 48 → slot_is t0 w j s → slot_is t w' j s;
}.

(** The same for a column and the log of a new record. *)
Record col_shows (c0 : HashColumn) (w : LogWriter) (c : HashColumn) (w' : LogWriter) : Prop := {
  ch_col : hc_col c = hc_col c0;
  ch_rc : hc_ref_counted c = hc_ref_counted c0;
  ch_compression : hc_compression c = hc_compression c0;
  ch_queue : hc_queue c = hc_queue c0;
  ch_len : length (hc_values c) = length (hc_values c0);
  ch_tables : ∀ i t0, hc_values c0 !! i = Some t0 → ∃ t, hc_values c !! i = Some t ∧ table_shows t0 w t w';
  ch_index : it_id (hc_index c) = it_id (hc_index c0);
  ch_map : map_wf (hc_index c);
  ch_log : ∀ n ch, index_view w' (it_id (hc_index c)) n = Some ch → is_chunk ch;
  ch_chunk : ∀ n, default EMPTY_CHUNK (chunk_view (hc_index c) w' n) = default EMPTY_CHUNK (chunk_view (hc_index c0) w n);
}.

Lemma col_repr_shows c0 w c o rid M : col_repr c0 w M → col_shows c0 w c (LogWriter.new o rid) →
  col_repr c (LogWriter.new o rid) M.
Proof.
  intros (SS & [I1 I2 I3 I4 I5 I6] & HM) [C1 C2 C3 C4 C5 C6 C7 C8 C9 C10].
  set (w' := LogWriter.new o rid) in *.
  assert (Hsame : ∀ k j, lookup_at (hc_index c) w' k j = lookup_at (hc_index c0) w k j).
  { intros k j. by apply lookup_at_ext. }
  assert (Hback : ∀ i t, hc_values c !! i = Some t → ∃ t0, hc_values c0 !! i = Some t0 ∧ table_shows t0 w t w').
  { intros i t Hi. destruct (lookup_lt_is_Some_2 (hc_values c0) i) as [t0 Ht0].
    { rewrite <- C5. by eapply lookup_lt_Some. }
    destruct (C6 i t0 Ht0) as (t' & Ht' & He). simplify_eq. eauto. }
  exists SS. split; [split; rewrite ?C1, ?C2, ?C3, ?C4|].
  - done.
  - destruct I2 as [T1 T2 T3 T4 T5 T6 T7 T8 T9 T10 T11]. split; try done.
    + by rewrite C5.
    + intros i t m Hi Hm. destruct (Hback i t Hi) as (t0 & Ht0 & [(f & b & v & ->) _ _ Hsl]).
      destruct (T3 _ _ _ Ht0 Hm) as (free & vals & Hrp & ->). exists free, vals. split; [|done].
      pose proof (r_filled _ _ _ _ Hrp) as Hfl. apply (repr_slots t0 w); [|done]. intros j s Hj. apply Hsl. lia.
    + intros i t Hi. destruct (Hback i t Hi) as (t0 & Ht0 & [(f & b & v & ->) _ _ _]). exact (T4 _ _ Ht0).
    + intros i t Hi. destruct (Hback i t Hi) as (t0 & Ht0 & [(f & b & v & ->) _ _ _]). exact (T5 _ _ Ht0).
    + intros t Hi. destruct (Hback _ t Hi) as (t0 & Ht0 & [(f & b & v & ->) _ _ _]). exact (T6 _ Ht0).
    + intros i t Hi. destruct (Hback i t Hi) as (t0 & Ht0 & He). apply He.
    + intros i t Hi. destruct (Hback i t Hi) as (t0 & Ht0 & [(f & b & v & ->) _ _ _]). exact (T10 _ _ Ht0).
    + intros i t Hi. destruct (Hback i t Hi) as (t0 & Ht0 & He). apply He.
  - destruct I3 as [J1 J2 J3]. split; [unfold bits; by rewrite C7|done|exact C8].
  - exact I4.
  - by apply (links_ext _ _ _ Hsame).
  - by split.
  - intros key Hk. specialize (HM key Hk). unfold kv_holds, holds in *. rewrite C3. destruct (M key) as [[v n]|].
    + destruct HM as (s & (j & a & Hs) & Hrest). exists s. split; [|done]. exists j, a. by rewrite Hsame.
    + intros s (j & a & Hs). apply (HM s). exists j, a. by rewrite <- Hsame.
Qed.

(** Entry 0 of the tables. *)
Lemma header_shown_enacted col es w w' t0 t : entries_left col es w w' → ValueTableId.col (vt_id t0) = col → table_wf t0 →
  enacted t0 (values_of (vt_id t0) es) t → is_u64 (last_removed t0) → is_u64 (filled t0) → filled t0 ≠ 0 →
  header_shown t0 w → header_shown t w'.
Proof.
  intros [Hv Hfun Hsh _ _ _] Hc Hwf Hen Hl Hf Hf0 Hh. pose proof Hen as [[f ->] _ Hnew _ Hhd].
  unfold header_shown, disk_meta in *.
  change (dirty_header (set_vt_file f t0)) with (dirty_header t0). change (filled (set_vt_file f t0)) with (filled t0).
  change (last_removed (set_vt_file f t0)) with (last_removed t0). change (vt_id (set_vt_file f t0)) with (vt_id t0).
  destruct Hh as [?|Hh]; [by left|right].
  destruct (Hv (vt_id t0) 0 Hc) as [E|(E & d & Hd & Hin)].
  - rewrite E. destruct (value_view w (vt_id t0) 0) as [d|] eqn:Ed; [done|]. rewrite Hhd; [done|].
    destruct (values_of (vt_id t0) es !! 0) as [d|] eqn:Ev; [|done].
    apply values_of_in, Hsh in Ev as [x Hx]. congruence.
  - rewrite E. rewrite Hd in Hh. destruct (values_of_some _ _ _ _ Hin) as [d' Hd'].
    pose proof (values_of_in _ _ _ _ Hd') as Hin'. rewrite (Hfun _ _ _ _ Hin' Hin) in Hd'.
    destruct (header_make (last_removed t0) (filled t0) Hl Hf) as (H1' & H2' & H3').
    rewrite (enacted_header _ _ _ _ Hwf Hen Hd') by (rewrite Hh; exact H1'). rewrite Hh, H2', H3'.
    split; [done|]. by destruct (Z.eqb_spec (filled t0) 0).
Qed.

(** The column represents the same map when the record was enacted and its
    entries have left the overlays. *)
Lemma col_repr_enacted c0 es c w o rid M : col_repr c0 w M → col_enacted c0 es c →
  IndexTableId.col (it_id (hc_index c0)) = hc_col c0 →
  entries_cover (hc_index c0) es → entries_left (hc_col c0) es w (LogWriter.new o rid) →
  col_repr c (LogWriter.new o rid) M.
Proof.
  intros Hr Hen Hcol Hcov Hleft. pose proof (col_repr_wf _ _ _ Hr) as Hwf. apply (col_repr_shows c0 w); [done|].
  destruct Hr as (SS & [I1 I2 I3 I4 I5 I6] & HM). pose proof Hen as [(vs & idx & ->) Hlen Htab Hidx Hmap Hch _ _].
  cbn [hc_values set_hc_values hc_index set_hc_index] in *.
  split; cbn [hc_col hc_index hc_values hc_queue set_hc_values set_hc_index hc_ref_counted hc_compression]; try done.
  - intros i t0 Ht0. destruct (Htab i t0 Ht0) as (t & Ht & He). exists t. split; [done|].
    assert (Hc : ValueTableId.col (vt_id t0) = hc_col c0).
    { rewrite (tb_id _ _ _ _ _ _ I2 _ _ Ht0). apply value_id_new; [done|]. apply lookup_lt_Some in Ht0.
      rewrite (tb_len _ _ _ _ _ _ I2) in Ht0. unfold SIZE_TIERS in Ht0. unfold is_u8. lia. }
    assert (Hlt : (i < SIZE_TIERS)%nat) by (rewrite <- (tb_len _ _ _ _ _ _ I2); by eapply lookup_lt_Some).
    destruct (tables_lookup _ _ _ I1 _ _ _ i I2 Hlt) as (t0' & m & Ht0' & _ & (free & vals & Hr & _)). simplify_eq.
    pose proof (r_filled _ _ _ _ Hr) as Hfl. pose proof He as [[f Ef] Hok _ _ _]. split.
    + exists f, (dirty_header t0), (db_version t0). by rewrite Ef.
    + done.
    + eapply header_shown_enacted; [exact Hleft|done|apply Hr|done| |unfold is_u64; lia|lia|by eapply (tb_header _ _ _ _ _ _ I2)].
      by eapply repr_last_u64.
    + intros j s Hj. by eapply enacted_shows.
  - intros n ch Hn. rewrite Hidx in Hn. destruct (el_index _ _ _ _ Hleft (it_id (hc_index c0)) n Hcol) as [E|[E _]];
      rewrite E in Hn; [by eapply (iw_log _ _ I3)|done].
  - exact (fun n => enacted_chunk _ _ _ _ _ _ n Hleft Hen (cw_map _ Hwf) Hcov Hcol).
Qed.

End Repr.

(** ** The parts of a column that stay *)

(** A hash column with number [i]. *)
Record column_at (i : nat) (c : HashColumn) : Prop := {
  ca_col : hc_col c = Z.of_nat i;
  ca_u8 : is_u8 (hc_col c);
  ca_index : IndexTableId.col (it_id (hc_index c)) = Z.of_nat i;
  ca_index_u16 : is_u16 (IndexTableId.as_u16 (it_id (hc_index c)));
  ca_bits : bits_ok (bits (hc_index c));
  ca_len : length (hc_values c) = SIZE_TIERS;
  ca_ids : ∀ j t, hc_values c !! j = Some t → vt_id t = ValueTableId.new (hc_col c) (Z.of_nat j);
  ca_wf : column_wf c;
}.
Lemma table_id_u16 i c j t : column_at i c → hc_values c !! j = Some t →
  is_u16 (ValueTableId.as_u16 (vt_id t)) ∧ ValueTableId.col (vt_id t) = hc_col c.
Proof.
  intros [C1 C2 C3 C4 C5 C6 C7 C8] Ht. rewrite (C7 _ _ Ht).
  assert (is_u8 (Z.of_nat j)).
  { apply lookup_lt_Some in Ht. rewrite C6 in Ht. unfold SIZE_TIERS in Ht. unfold is_u8. lia. }
  by destruct (value_id_new (hc_col c) (Z.of_nat j)) as (? & ? & ?).
Qed.
