(* ===== verification/Frames.v ===== *)
(** * What an operation leaves alone

    The operations of a column write to the log only under the tables of that
    column, and never change the record they write to. This holds for every
    outcome, errors and panics included, so it is proved by the shape of the
    code and not by its correctness. *)

From S2P Require Import Prelude.
From S2P Require Import Bytes.
From S2P Require Import Ids.
From S2P Require Import File.
From S2P Require Import Log.
From S2P Require Import Table.
From S2P Require Import Index.
From S2P Require Import Compress.
From S2P Require Import Stats.
From S2P Require Import Column.
From S2P Require Import HashColumn.
From stdpp Require Import options.
#[local] Set Default Proof Using "Type*".

(** ** Operations that keep a property and move along a preorder *)

Section Keeps.
Context {S : Type} (P : S → Prop) (R : S → S → Prop) `{!PreOrder R}.

Definition keeps {A} (m : ST S A) : Prop := ∀ s, P s → P (m s).2 ∧ R s (m s).2.

Lemma keeps_ret {A} (a : A) : keeps (mret a).
Proof. by intros s Hs. Qed.

Lemma keeps_lift {A} (m : outcome A) : keeps (lift_st m).
Proof. by intros s Hs. Qed.

Lemma keeps_bind {A B} (m : ST S A) (f : A → ST S B) :
  keeps m → (∀ a, keeps (f a)) → keeps (m ≫= f).
Proof.
  intros Hm Hf s Hs. destruct (Hm s Hs) as [H1 H2]. unfold mbind, ST_bind.
  destruct (m s) as [[a|e| | | |] s']; try done. cbn in H1, H2.
  destruct (Hf a s' H1) as [H3 H4]. split; [done|]. by etrans.
Qed.

Lemma keeps_lift_bind {A B} (m : outcome A) (f : A → ST S B) :
  (∀ a, m = Ok a → keeps (f a)) → keeps (lift_st m ≫= f).
Proof. intros Hf. destruct m as [a|e| | | |]; [by apply (Hf a)|by intros s Hs..]. Qed.

(** What was read is what the state was. *)
Lemma keeps_get {B} (f : S → ST S B) : (∀ s, P s → keeps (f s)) → keeps (get_st ≫= f).
Proof. intros Hf s Hs. by apply (Hf s Hs s). Qed.

Lemma keeps_modify (f : S → S) : (∀ s, P s → P (f s) ∧ R s (f s)) → keeps (modify_st f).
Proof. intros Hf s Hs. by apply Hf. Qed.

End Keeps.

(** Case analysis along the code; what is left are the steps that write. *)
Ltac keeps_step :=
  match goal with
  | |- keeps _ _ (mret _) => apply keeps_ret; try apply _
  | |- keeps _ _ (lift_st _) => apply keeps_lift; try apply _
  | |- keeps _ _ (get_st ≫= _) => apply keeps_get; [try apply _|intros [? ?] ?]
  | |- keeps _ _ (_ ≫= _) => apply keeps_bind; [try apply _| |intros ?]
  | |- keeps _ _ (match ?x with _ => _ end) => destruct x eqn:?
  | |- keeps _ _ (let '(_, _) := ?x in _) => destruct x eqn:?
  end.
Ltac keeps_tac := repeat (keeps_step || (cbv beta zeta)); eauto with keeps.
Create HintDb keeps.

(** ** The log *)

(** [w'] is [w] after writes under the tables of column [col]. *)
Record writer_step (col : ColId) (w w' : LogWriter) : Prop := {
  ws_overlays : writer_overlays w' = writer_overlays w;
  ws_record : LogWriter.record_id w' = LogWriter.record_id w;
  ws_dropped : dropped_tables (writer_log w') = dropped_tables (writer_log w);
  ws_own_value : ∀ id i, ValueTableId.col id ≠ col →
    overlay_lookup (local_values (writer_log w')) id i = overlay_lookup (local_values (writer_log w)) id i;
  ws_own_index : ∀ id i, IndexTableId.col id ≠ col →
    overlay_lookup (local_index (writer_log w')) id i = overlay_lookup (local_index (writer_log w)) id i;
  ws_value_id : ∀ id i e, overlay_lookup (local_values (writer_log w')) id i = Some e →
    overlay_lookup (local_values (writer_log w)) id i = Some e ∨ e.1 = LogWriter.record_id w;
  ws_index_id : ∀ id i e, overlay_lookup (local_index (writer_log w')) id i = Some e →
    overlay_lookup (local_index (writer_log w)) id i = Some e ∨ e.1.1 = LogWriter.record_id w;
}.

#[global] Instance writer_step_preorder col : PreOrder (writer_step col).
Proof.
  split.
  - intros w. split; auto.
  - intros w1 w2 w3 [A1 A2 A3 A4 A5 A6 A7] [B1 B2 B3 B4 B5 B6 B7]. split; try congruence.
    + intros id i Hid. by rewrite B4, A4.
    + intros id i Hid. by rewrite B5, A5.
    + intros id i e [He|He]%B6; [by apply A6|right; congruence].
    + intros id i e [He|He]%B7; [by apply A7|right; congruence].
Qed.

Lemma ws_value col w w' id i : writer_step col w w' → ValueTableId.col id ≠ col →
  value_view w' id i = value_view w id i.
Proof. intros [A1 A2 A3 A4 A5 A6 A7] Hid. unfold value_view. cbn. by rewrite A1, A4. Qed.
Lemma ws_index col w w' id i : writer_step col w w' → IndexTableId.col id ≠ col →
  index_view w' id i = index_view w id i.
Proof. intros [A1 A2 A3 A4 A5 A6 A7] Hid. unfold index_view. cbn. by rewrite A1, A5. Qed.

Lemma writer_step_value col id i d w : ValueTableId.col id = col →
  writer_step col w (LogWriter.insert_value id i d w).
Proof.
  intros <-. split; auto; intros id' i'; unfold LogWriter.insert_value; cbn; rewrite overlay_lookup_insert.
  - intros Hid. rewrite decide_False; [done|]. by intros [-> _].
  - intros e. destruct (decide _); [|auto]. intros [= <-]. by right.
Qed.

Lemma writer_step_index col id i sub ch w : IndexTableId.col id = col →
  writer_step col w (LogWriter.insert_index id i sub ch w).
Proof.
  intros <-. split; auto; intros id' i'; unfold LogWriter.insert_index; cbn; rewrite overlay_lookup_insert.
  - intros Hid. rewrite decide_False; [done|]. by intros [-> _].
  - intros e. destruct (decide _); [|auto]. intros [= <-]. right. by destruct (_ !! i) as [[[]]|].
Qed.

(** ** Value tables *)

Section Frames.
Context `{!Uninit, !Codecs}.

Section Table.
Variable id : ValueTableId.
Abbreviation col := (ValueTableId.col id).

Definition of_table (s : TW) : Prop := vt_id s.1 = id.
Definition table_step (s s' : TW) : Prop := writer_step col s.2 s'.2 ∧ vt_file s'.1 = vt_file s.1.
#[global] Instance table_step_preorder : PreOrder table_step.
Proof using Type.
  split; [by intros [t w]; unfold table_step|]. intros [] [] [] [] []. unfold table_step. split; [by etrans|congruence].
Qed.

Abbreviation tkeeps := (keeps of_table table_step).

Lemma tkeeps_on_table f : (∀ t, vt_id (f t) = vt_id t) → (∀ t, vt_file (f t) = vt_file t) → tkeeps (on_table f).
Proof. intros Hf Hl [t w] Hs. split; [|by split; cbn]. unfold of_table in *. cbn in *. by rewrite Hf. Qed.

Lemma tkeeps_reading {A} (f : ValueTable → LogWriter → outcome A) : tkeeps (reading f).
Proof. intros [t w] Hs. split; [done|by unfold table_step]. Qed.

Lemma tkeeps_insert t i d : vt_id t = id → tkeeps (on_writer (LogWriter.insert_value (vt_id t) i d)).
Proof. intros Ht [t' w] Hs. split; [done|]. split; cbn; [|done]. apply writer_step_value. by rewrite Ht. Qed.

Hint Resolve tkeeps_reading : keeps.
Hint Extern 1 (keeps _ _ (on_table _)) => apply tkeeps_on_table; done : keeps.
Hint Extern 1 (keeps _ _ (on_writer (LogWriter.insert_value _ _ _))) => apply tkeeps_insert; done : keeps.

Lemma next_free_keeps : tkeeps next_free.
Proof. unfold next_free. keeps_tac. Qed.
Lemma clear_slot_keeps i : tkeeps (clear_slot i).
Proof. unfold clear_slot. keeps_tac. Qed.
Hint Resolve next_free_keeps clear_slot_keeps : keeps.

Lemma clear_chain_keeps i : tkeeps (clear_chain i).
Proof.
  unfold clear_chain. apply keeps_get; [apply _|]. intros [t w] _. generalize (parts_fuel t) as fuel.
  intros fuel. revert i. induction fuel as [|fuel IH]; intros i; cbn [clear_chain_loop]; keeps_tac.
Qed.
Hint Resolve clear_chain_keeps : keeps.

Lemma overwrite_loop_keeps fuel : ∀ key val c rem off start i follow,
  tkeeps (overwrite_loop fuel key val c rem off start i follow).
Proof. induction fuel as [|fuel IH]; intros; cbn [overwrite_loop]; keeps_tac. Qed.
Hint Resolve overwrite_loop_keeps : keeps.

Lemma overwrite_chain_keeps key val at_ c : tkeeps (overwrite_chain key val at_ c).
Proof. unfold overwrite_chain. keeps_tac. Qed.
Hint Resolve overwrite_chain_keeps : keeps.

Lemma write_insert_plan_keeps key val c : tkeeps (write_insert_plan key val c).
Proof. unfold write_insert_plan. keeps_tac. Qed.
Lemma write_replace_plan_keeps i key val c : tkeeps (write_replace_plan i key val c).
Proof. unfold write_replace_plan. keeps_tac. Qed.
Lemma write_remove_plan_keeps i : tkeeps (write_remove_plan i).
Proof. unfold write_remove_plan. keeps_tac. Qed.
Lemma change_ref_keeps i d : tkeeps (change_ref i d).
Proof. unfold change_ref. keeps_tac. Qed.
Hint Resolve write_remove_plan_keeps change_ref_keeps : keeps.
Lemma write_inc_ref_keeps i : tkeeps (write_inc_ref i).
Proof. unfold write_inc_ref. keeps_tac. Qed.
Lemma write_dec_ref_keeps i : tkeeps (write_dec_ref i).
Proof. unfold write_dec_ref. keeps_tac. Qed.
Lemma complete_plan_keeps : tkeeps Table.complete_plan.
Proof. unfold Table.complete_plan. keeps_tac. Qed.

End Table.

(** ** The value tables of a column *)

Section Tables.
Variable col : ColId.

Definition of_tables (s : TRW) : Prop :=
  ∀ i t, tr_tables s.1 !! i = Some t → ValueTableId.col (vt_id t) = col.
Definition tables_step (s s' : TRW) : Prop :=
  writer_step col s.2 s'.2 ∧ vt_file <$> tr_tables s'.1 = vt_file <$> tr_tables s.1.
#[global] Instance tables_step_preorder : PreOrder tables_step.
Proof using Type.
  split; [by intros [t w]; unfold tables_step|]. intros [] [] [] [] []. unfold tables_step. split; [by etrans|congruence].
Qed.

Abbreviation rkeeps := (keeps of_tables tables_step).

Lemma rkeeps_tier {A} tier (m : ST TW A) :
  (∀ id, keeps (of_table id) (table_step id) m) → rkeeps (on_tier tier m).
Proof.
  intros Hm [r w] Hs. unfold on_tier. destruct (tr_tables r !! tier) as [t|] eqn:Ht.
  2: { split; [done|by unfold tables_step]. }
  destruct (Hm (vt_id t) (t, w) eq_refl) as [H1 [H2 H3]]. destruct (m (t, w)) as [o [t' w']].
  unfold of_table in *. cbn in *. split.
  - intros i t1. cbn. rewrite list_lookup_insert. destruct (decide _) as [[<- _]|]; [|apply Hs].
    intros [= <-]. rewrite H1. by eapply Hs.
  - unfold tables_step. cbn. rewrite (Hs _ _ Ht) in H2. split; [done|].
    rewrite list_fmap_insert, H3. by rewrite list_insert_id by (by rewrite list_lookup_fmap, Ht).
Qed.

Lemma rkeeps_at_tier {A} tier (f : ValueTable → LogWriter → outcome A) : rkeeps (at_tier tier f).
Proof. intros [r w] Hs. split; [done|by unfold tables_step]. Qed.

Lemma rkeeps_stats f : rkeeps (on_stats f).
Proof. intros [r w] Hs. split; [done|by unfold tables_step]. Qed.

Hint Resolve rkeeps_at_tier rkeeps_stats : keeps.
Hint Extern 1 (keeps _ _ (on_tier _ _)) => apply rkeeps_tier; intros ? : keeps.
Hint Resolve write_insert_plan_keeps write_replace_plan_keeps write_remove_plan_keeps write_inc_ref_keeps
  write_dec_ref_keeps complete_plan_keeps : keeps.

Lemma existing_size_keeps key a : rkeeps (existing_size key a).
Proof. unfold existing_size. keeps_tac. Qed.
Hint Resolve existing_size_keeps : keeps.

Lemma write_existing_value_plan_keeps key a v : rkeeps (write_existing_value_plan key a v).
Proof. unfold write_existing_value_plan. keeps_tac. Qed.

Lemma write_new_value_plan_keeps key v : rkeeps (write_new_value_plan key v).
Proof. unfold write_new_value_plan. keeps_tac. Qed.

Lemma complete_tables_keeps tiers : rkeeps (complete_tables tiers).
Proof. induction tiers as [|i tiers IH]; cbn [complete_tables]; keeps_tac. Qed.

End Tables.

(** ** Hash columns *)

Section HashColumn.
Variable col : ColId.
Hypothesis col_u8 : is_u8 col.

Definition of_column (s : CW) : Prop :=
  (∀ i t, hc_values s.1 !! i = Some t → ValueTableId.col (vt_id t) = col) ∧
  IndexTableId.col (it_id (hc_index s.1)) = col ∧
  Forall (fun t => IndexTableId.col (it_id t) = col) (hc_queue s.1).
Definition table_files (c : HashColumn) : list TableFile := vt_file <$> hc_values c.
Definition column_step (s s' : CW) : Prop := writer_step col s.2 s'.2 ∧ table_files s'.1 = table_files s.1.
#[global] Instance column_step_preorder : PreOrder column_step.
Proof using Type.
  split; [by intros [t w]; unfold column_step|]. intros [] [] [] [] []. unfold column_step. split; [by etrans|congruence].
Qed.

Abbreviation ckeeps := (keeps of_column column_step).

Lemma ckeeps_tables {A} (m : ST TRW A) : keeps (of_tables col) (tables_step col) m → ckeeps (on_tables m).
Proof.
  intros Hm [c w] [H1 H2]. unfold on_tables, zoom.
  destruct (Hm (as_ref c, w) H1) as [H3 H4]. destruct (m (as_ref c, w)) as [o [r' w']].
  destruct H4 as [H4 H5]. unfold of_tables in *. cbn in *. split.
  - unfold of_column. unfold put_ref. destruct (tr_stats r'); done.
  - split; cbn; [done|]. unfold table_files, put_ref. destruct (tr_stats r'); done.
Qed.

Lemma ckeeps_column f : (∀ c w, of_column (c, w) → of_column (f c, w) ∧ hc_values (f c) = hc_values c) → ckeeps (on_column f).
Proof. intros Hf [c w] Hs. destruct (Hf c w Hs) as [H1 H2]. split; [done|]. split; cbn; [done|]. unfold table_files. by rewrite H2. Qed.

Lemma count_stat_column f c w : of_column (c, w) → of_column (count_stat f c, w) ∧ hc_values (count_stat f c) = hc_values c.
Proof. unfold count_stat. by destruct (hc_collect_stats c). Qed.

Lemma trigger_reindex_column c w : of_column (c, w) →
  of_column (trigger_reindex c, w) ∧ hc_values (trigger_reindex c) = hc_values c.
Proof.
  intros (H1 & H2 & H3). split; [|done]. split; [done|]. split.
  - unfold trigger_reindex. cbn [fst hc_index set_hc_index it_id create_new]. cbn [fst] in H2. rewrite H2.
    apply index_id_new; [done|]. apply Z.mod_pos_bound. lia.
  - apply Forall_app. auto.
Qed.

Abbreviation wkeeps := (keeps (fun _ => True) (writer_step col)).

Lemma ckeeps_log {A} (m : ST LogWriter A) : wkeeps m → ckeeps (on_log m).
Proof.
  intros Hm [c w] Hs. unfold on_log, zoom. destruct (Hm w I) as [_ H2]. cbn. destruct (m w) as [o w'].
  split; [done|]. by split.
Qed.

Lemma wkeeps_insert id i sub ch : IndexTableId.col id = col →
  wkeeps (modify_st (LogWriter.insert_index id i sub ch)).
Proof. intros Hid. apply keeps_modify; [apply _|]. intros w _. split; [done|]. by apply writer_step_index. Qed.
Hint Resolve wkeeps_insert : keeps.

Lemma index_insert_plan_keeps t key a sub : IndexTableId.col (it_id t) = col →
  wkeeps (index_insert_plan t key a sub).
Proof. intros Ht. unfold index_insert_plan, plan_insert_chunk. keeps_tac. Qed.
Lemma index_remove_plan_keeps t key sub : IndexTableId.col (it_id t) = col →
  wkeeps (index_remove_plan t key sub).
Proof. intros Ht. unfold index_remove_plan, plan_remove_chunk. keeps_tac. Qed.

Hint Resolve ckeeps_log ckeeps_tables index_insert_plan_keeps index_remove_plan_keeps
  write_existing_value_plan_keeps write_new_value_plan_keeps complete_tables_keeps : keeps.
Hint Extern 1 (keeps _ _ (on_column _)) => apply ckeeps_column; intros ? ? : keeps.
Hint Resolve count_stat_column trigger_reindex_column : keeps.
Hint Extern 1 (IndexTableId.col (it_id (hc_index _)) = _) =>
  match goal with H : of_column (_, _) |- _ => apply H end : keeps.

Lemma write_plan_existing_keeps key v t sub a : IndexTableId.col (it_id t) = col →
  ckeeps (write_plan_existing key v t sub a).
Proof. intros Ht. unfold write_plan_existing. keeps_tac. Qed.
Hint Resolve write_plan_existing_keeps : keeps.

Lemma write_plan_new_keeps fuel key v : ckeeps (write_plan_new fuel key v).
Proof. induction fuel as [|fuel IH]; cbn [write_plan_new]; keeps_tac. Qed.
Hint Resolve write_plan_new_keeps : keeps.

Lemma search_index_same key t ts w t' sub a : search_index key t ts w = Ok (Some (t', sub, a)) → t' = t.
Proof.
  unfold search_index. unfold mbind, outcome_bind. destruct (get_index t key 0 w) as [[e i]| | | | |]; try done.
  destruct (search_index_loop _ _ _ _ _ _ _) as [[[]|]| | | | |]; try done. by intros [= <-].
Qed.

Lemma search_all_indexes_in key l ts w t sub a :
  search_all_indexes key l ts w = Ok (Some (t, sub, a)) → t ∈ l.
Proof.
  induction l as [|t0 l IH]; cbn [search_all_indexes]; [done|]. unfold mbind, outcome_bind.
  destruct (search_index key t0 ts w) as [[[[t1 s1] a1]|]| | | | |] eqn:E; try done.
  - intros [= <- <- <-]. apply search_index_same in E as ->. by left.
  - intros Ht. right. by apply IH.
Qed.

Lemma write_plan_keeps key v : ckeeps (HashColumn.write_plan key v).
Proof.
  unfold HashColumn.write_plan. apply keeps_get; [apply _|]. intros [c w] Hs.
  apply keeps_lift_bind; [apply _|]. intros [[[t sub] a]|] E; cbv beta iota; [|keeps_tac].
  apply write_plan_existing_keeps. apply search_all_indexes_in in E. destruct Hs as (_ & H2 & H3).
  rewrite Forall_forall in H3. apply elem_of_cons in E as [->|E]; [done|by apply H3].
Qed.
Hint Resolve write_plan_keeps : keeps.

Lemma column_complete_plan_keeps : ckeeps column_complete_plan.
Proof. unfold column_complete_plan. keeps_tac. Qed.

Lemma write_reindex_plan_keeps fuel held key a : ckeeps (write_reindex_plan_from fuel held key a).
Proof.
  revert held. induction fuel as [|fuel IH]; intros held; cbn [write_reindex_plan_from]; unfold upgradable_read;
    keeps_tac.
Qed.

End HashColumn.
End Frames.
#[local] Set Default Proof Using "All".

(** * Queries depend on the log only through its view

    Two logs that show the same chunks and entries answer every query of a table,
    an index and a column alike. A query of the database reads the overlays of
    the log, a planned write reads them through the writer of a record. *)

Section Ext.
Context `{!Uninit, !Codecs}.
Context {L1 L2 : Type} `{LogView L1, LogView L2} (l1 : L1) (l2 : L2).
Hypothesis same_values : ∀ id i, value_view l1 id i = value_view l2 id i.
Hypothesis same_chunks : ∀ id i, index_view l1 id i = index_view l2 id i.

Lemma read_slot_ext t n i buf : read_slot t l1 n i buf = read_slot t l2 n i buf.
Proof. unfold read_slot. by rewrite !value_value_view, same_values. Qed.

Lemma for_parts_ext {A} t key i (f : A → bytes → A * bool) acc :
  for_parts t key i l1 f acc = for_parts t key i l2 f acc.
Proof.
  unfold for_parts. generalize (uninit MAX_ENTRY_BUF_SIZE) as buf, 0%nat as part, false as c, 1 as rc.
  revert key i acc. induction (parts_fuel t) as [|fuel IH]; intros; [done|]. cbn [for_parts_loop].
  rewrite read_slot_ext. destruct (read_slot t l2 _ i buf) as [b| | | | |]; try done.
  rewrite !outcome_bind_Ok. destruct (Entry.is_tombstone (Entry.new b)); [done|].
  destruct (part_header t part c (Entry.new b)) as [[[[e1 n] c1] e]| | | | |]; try done.
  rewrite !outcome_bind_Ok. destruct (part_key t part rc key e) as [[[[rc1 k1] e2]|]| | | | |]; try done.
  rewrite !outcome_bind_Ok. destruct (Entry.remaining_to e1 e2) as [p| | | | |]; try done.
  rewrite !outcome_bind_Ok. destruct (f acc p) as [acc1 cont]. destruct (negb cont); [done|].
  destruct (n =? 0); [done|]. apply IH.
Qed.

Lemma query_ext t key i : query t key i l1 = query t key i l2.
Proof. unfold query. by rewrite for_parts_ext. Qed.

Lemma get_value_ext key a ts c : get_value key a ts c l1 = get_value key a ts c l2.
Proof.
  unfold get_value. destruct (ts !! tier_of a) as [t|]; [|done]. unfold unwrap. rewrite !outcome_bind_Ok.
  by rewrite query_ext.
Qed.

Lemma current_chunk_ext t i : current_chunk t l1 i = current_chunk t l2 i.
Proof. unfold current_chunk. by rewrite !with_index_view, same_chunks. Qed.

Lemma get_index_ext t key sub : get_index t key sub l1 = get_index t key sub l2.
Proof. unfold get_index. by rewrite current_chunk_ext. Qed.

Lemma get_in_index_ext key t ts c : get_in_index key t ts c l1 = get_in_index key t ts c l2.
Proof.
  unfold get_in_index. rewrite get_index_ext. destruct (get_index t key 0 l2) as [[e sub]| | | | |]; try done.
  rewrite !outcome_bind_Ok. revert e sub. induction search_fuel as [|fuel IH]; intros e sub; [done|].
  cbn [get_in_index_loop]. destruct (IEntry.is_empty e); [done|]. rewrite get_value_ext.
  destruct (get_value _ _ _ _ _) as [[r|]| | | | |]; try done. rewrite !outcome_bind_Ok, get_index_ext.
  destruct (get_index t key (S sub) l2) as [[e1 sub1]| | | | |]; try done. rewrite !outcome_bind_Ok. apply IH.
Qed.

Lemma column_get_ext key c : column_get key l1 c = column_get key l2 c.
Proof.
  assert (E : ∀ l ts cp, get_in_indexes key l ts cp l1 = get_in_indexes key l ts cp l2).
  { induction l as [|t l IH]; intros ts cp; [done|]. cbn [get_in_indexes]. rewrite get_in_index_ext.
    destruct (get_in_index key t ts cp l2) as [[r|]| | | | |]; try done. rewrite !outcome_bind_Ok. apply IH. }
  unfold column_get. unfold mbind, ST_bind, get_st. by rewrite E.
Qed.

Lemma iter_while_ext `{!Blake2} {A} c (f : A → IterState → A * bool) : hc_preimage c = false →
  ∀ acc, column_iter_while l1 c f acc = column_iter_while l2 c f acc.
Proof.
  intros Hpre acc. unfold column_iter_while, iter_while_inner. rewrite Hpre. cbn [andb]. rewrite !(ST_bind_Ok (mret tt) _ acc acc tt) by done.
  set (g := fun state => _). cbv zeta. generalize (seqZ 0 (IndexTableId.total_chunks (it_id (hc_index c)) - 0)) as chunks.
  assert (Hentry : ∀ ch e acc, iter_entry l1 c g true ch e acc = iter_entry l2 c g true ch e acc).
  { intros ch e s. unfold iter_entry. destruct (IEntry.is_empty e); [done|]. destruct (entry_location c (hc_index c) e) as [st off].
    rewrite Hpre. cbn [andb]. destruct (hc_values c !! Z.to_nat st) as [t|]; [|done].
    rewrite !(ST_bind_Ok (lift_st _) _ s s t) by done. unfold get_with_meta. by rewrite query_ext. }
  assert (Hentries : ∀ ch l acc, iter_entries l1 c g true ch l acc = iter_entries l2 c g true ch l acc).
  { intros ch l. induction l as [|e l IH]; intros s; [done|]. cbn [iter_entries]. unfold mbind, ST_bind. rewrite Hentry.
    destruct (iter_entry l2 c g true ch e s) as [[[]| | | | |] s']; done || apply IH. }
  intros chunks. revert acc. induction chunks as [|ch chunks IH]; intros acc; [done|]. cbn [iter_chunks].
  unfold Index.entries. rewrite current_chunk_ext. unfold mbind, ST_bind.
  destruct (lift_st _ acc) as [[es| | | | |] s]; try done. rewrite Hentries.
  destruct (iter_entries l2 c g true ch es s) as [[[]| | | | |] s']; done || apply IH.
Qed.

End Ext.
