(* ===== verification/ColumnPending.v ===== *)
(** * A column while records wait in the log

    The entries that the pending records of the log hold for a hash column: they
    are entries of its tables and its index, and the mask of every chunk covers
    what the chunk changes of the one before it. Enacting the first pending
    record leaves the map of the column and the others alone. The records that
    were enacted stay in the log until their file is cleaned up; the tables and
    the index show them. *)

From S2P Require Import Prelude.
From S2P Require Import Bytes.
From S2P Require Import Ids.
From S2P Require Import File.
From S2P Require Import Log.
From S2P Require Import LogState.
From S2P Require Import LogReplay.
From S2P Require Import LogPending.
From S2P Require Import Table.
From S2P Require Import TableSpec.
From S2P Require Import TableEnact.
From S2P Require Import TableStore.
From S2P Require Import Index.
From S2P Require Import IndexProofs.
From S2P Require Import IndexEnact.
From S2P Require Import Compress.
From S2P Require Import Stats.
From S2P Require Import Column.
From S2P Require Import HashColumn.
From S2P Require Import ColumnTables.
From S2P Require Import ColumnLinks.
From S2P Require Import ColumnProofs.
From S2P Require Import ColumnValues.
From S2P Require Import ColumnMap.
From S2P Require Import ColumnEnact.
From S2P Require Import Frames.
From stdpp Require Import options.
#[local] Set Default Proof Using "Type*".

(** ** The entries of a column *)

Definition entry_col (e : LogEntry) : ColId :=
  match e with
  | EIndex id _ _ _ | EDrop id => IndexTableId.col id
  | EValue id _ _ => ValueTableId.col id
  end.
Definition entries_of (col : ColId) (es : list LogEntry) : list LogEntry :=
  filter (fun e => entry_col e = col) es.

Lemma entries_of_snoc col es e :
  entries_of col (es ++ [e]) = entries_of col es ++ (if decide (entry_col e = col) then [e] else []).
Proof. unfold entries_of. rewrite filter_app. by f_equal. Qed.

Lemma entries_of_mid col es1 es2 e e' : entry_col e = col → e' ∈ entries_of col es1 ++ [e] →
  e' ∈ entries_of col (es1 ++ e :: es2).
Proof.
  unfold entries_of. intros Hc [Hin| ->%list_elem_of_singleton]%elem_of_app.
  - apply list_elem_of_filter in Hin as [??]. apply list_elem_of_filter. split; [done|]. set_solver.
  - apply list_elem_of_filter. split; [done|]. set_solver.
Qed.

(** ** The chunks of the pending records *)

(** Each chunk [n] of index [id] in [P] differs from the one before it, [c] at
    first, in entries of its mask only. *)
Fixpoint chunk_chain (id : IndexTableId) (n : Z) (c : Chunk) (P : list LogChange) : Prop :=
  match P with
  | [] => True
  | x :: P =>
      match overlay_lookup (local_index x) id n with
      | Some (_, mask, ch) => mask_covers mask ch c ∧ chunk_chain id n ch P
      | None => chunk_chain id n c P
      end
  end.

Lemma chunk_chain_snoc id n P x : ∀ c, chunk_chain id n c P →
  (∀ rid mask ch, overlay_lookup (local_index x) id n = Some (rid, mask, ch) →
     mask_covers mask ch (default c (snd <$> last_index id n P))) →
  chunk_chain id n c (P ++ [x]).
Proof.
  induction P as [|y P IH]; intros c HP Hx; cbn [chunk_chain app] in *.
  - destruct (overlay_lookup (local_index x) id n) as [[[r m] ch]|]; [|done]. split; [by eapply Hx|done].
  - unfold last_index in *. setoid_rewrite last_entry_cons in Hx.
    destruct (overlay_lookup (local_index y) id n) as [[[r m] ch]|].
    + destruct HP as [Hm HP]. split; [done|]. apply IH; [done|]. intros r' m' ch' He. specialize (Hx _ _ _ He).
      by destruct (last_entry _ P).
    + apply IH; [done|]. intros r' m' ch' He. specialize (Hx _ _ _ He). by destruct (last_entry _ P).
Qed.

(** Within a chain, a chunk differs from the one before it in its mask only. *)
Lemma chunk_chain_app id n P Q : ∀ c,
  chunk_chain id n c (P ++ Q) ↔ chunk_chain id n c P ∧ chunk_chain id n (default c (snd <$> last_index id n P)) Q.
Proof.
  induction P as [|y P IH]; intros c; cbn [chunk_chain app].
  - split; [done|by intros []].
  - unfold last_index in *. rewrite last_entry_cons.
    destruct (overlay_lookup (local_index y) id n) as [[[r m] ch]|]; rewrite IH; destruct (last_entry _ P); naive_solver.
Qed.

Lemma chunk_chain_mid id n P x Q c : chunk_chain id n c (P ++ x :: Q) →
  ∀ rid mask ch, overlay_lookup (local_index x) id n = Some (rid, mask, ch) →
  mask_covers mask ch (default c (snd <$> last_index id n P)).
Proof.
  rewrite chunk_chain_app. cbn [chunk_chain]. intros [_ H] rid mask ch Hx. rewrite Hx in H. by destruct H.
Qed.

(** The records [E] were enacted on the column and are still in the log, the
    records [P] were not: their entries are entries of the tables and the index;
    the chunks are those of the last record of [E], or [base] before the first
    one; so are the entries of the tables that no record of [P] writes. *)
Record column_pending (c : HashColumn) (E P : list LogChange) : Prop := {
  cp_value : ∀ x id n rid d, x ∈ E ++ P → ValueTableId.col id = hc_col c →
    overlay_lookup (local_values x) id n = Some (rid, d) →
    ∃ i t, hc_values c !! i = Some t ∧ vt_id t = id ∧ 0 ≤ n ≤ 2 ^ 48 ∧ logged t n d;
  cp_index : ∀ x id n rid mask ch, x ∈ E ++ P → IndexTableId.col id = hc_col c →
    overlay_lookup (local_index x) id n = Some (rid, mask, ch) →
    id = it_id (hc_index c) ∧ is_chunk ch ∧ is_u64 mask ∧ 0 ≤ n < IndexTableId.total_chunks id;
  cp_chain : ∀ n, ∃ base, chunk_chain (it_id (hc_index c)) n base (E ++ P) ∧
    map_chunk (hc_index c) n = default base (snd <$> last_index (it_id (hc_index c)) n E);
  cp_shown : ∀ i t n rid d, hc_values c !! i = Some t → ValueTableId.col (vt_id t) = hc_col c →
    last_value (vt_id t) n P = None → last_value (vt_id t) n E = Some (rid, d) →
    ∃ tail, window t (vt_file t) n = Ok (d ++ tail);
  cp_stats : stats_size (hc_index c);
  cp_mapped : MIN_INDEX_BITS ≤ bits (hc_index c) ∧ (is_Some (it_map (hc_index c)) ∨ bits (hc_index c) = MIN_INDEX_BITS);
}.

(** The parts of a column that say which entries it takes. *)
Record same_static (c c' : HashColumn) : Prop := {
  ss_col : hc_col c' = hc_col c;
  ss_index : it_id (hc_index c') = it_id (hc_index c);
  ss_chunk : ∀ n, map_chunk (hc_index c') n = map_chunk (hc_index c) n;
  ss_tables : ∀ i t, hc_values c !! i = Some t → ∃ t', hc_values c' !! i = Some t' ∧ vt_id t' = vt_id t ∧
    entry_size t' = entry_size t ∧ multipart t' = multipart t ∧
    ∀ j b, 0 ≤ j ≤ 2 ^ 48 → window t (vt_file t) j = Ok b → window t' (vt_file t') j = Ok b;
  ss_len : length (hc_values c') = length (hc_values c);
  ss_stats : stats_size (hc_index c) → stats_size (hc_index c');
  ss_mapped : is_Some (it_map (hc_index c)) → is_Some (it_map (hc_index c'));
}.

(** A record of the log has an entry of every table it shows one of. *)
Lemma cp_last_value c E P id n rid d : column_pending c E P → ValueTableId.col id = hc_col c →
  last_value id n (E ++ P) = Some (rid, d) →
  ∃ i t, hc_values c !! i = Some t ∧ vt_id t = id ∧ 0 ≤ n ≤ 2 ^ 48 ∧ logged t n d.
Proof. intros Hp Hc (x & Hx & He)%last_entry_in. by eapply (cp_value _ _ _ Hp). Qed.

Lemma last_value_left id n E P e : last_value id n P = None → last_value id n E = Some e → last_value id n (E ++ P) = Some e.
Proof. unfold last_value. rewrite last_entry_app. by intros -> ->. Qed.

Lemma column_pending_static c c' E P : same_static c c' → column_pending c E P → column_pending c' E P.
Proof.
  intros [S1 S2 S3 S4 Sl S5 S6] Hp. pose proof Hp as [C1 C2 C3 C4 C5 C6]. split.
  - intros x id n rid d Hx Hc Hl. rewrite S1 in Hc. destruct (C1 _ _ _ _ _ Hx Hc Hl) as (i & t & Ht & Hid & Hn & Hd).
    destruct (S4 _ _ Ht) as (t' & Ht' & E1 & E2 & E3 & _). exists i, t'. split_and!; [done|congruence|lia|lia|].
    by eapply logged_size.
  - intros x id n rid mask ch Hx Hc. rewrite S1 in Hc. rewrite S2. by eapply C2.
  - intros n. rewrite S2, S3. apply C3.
  - intros i t' n rid d Ht'. rewrite S1. intros Hc HP HE.
    destruct (lookup_lt_is_Some_2 (hc_values c) i) as [t Ht]; [rewrite <- Sl; by eapply lookup_lt_Some|].
    destruct (S4 _ _ Ht) as (t2 & Ht2 & E1 & E2 & E3 & Hw). simplify_eq. rewrite E1 in *.
    destruct (cp_last_value _ _ _ _ n rid d Hp Hc (last_value_left _ _ _ _ _ HP HE)) as (_ & _ & _ & _ & Hn & _).
    destruct (C4 _ _ _ _ _ Ht Hc HP HE) as [tail Htail]. exists tail. by apply Hw.
  - auto.
  - unfold bits. rewrite S2. destruct C6 as [? []]; auto.
Qed.

Section Column.
Context `{!Uninit, !Codecs, !CodecLaws, !HashMapOrder, !Crc32}.
Implicit Types (c : HashColumn) (w : LogWriter) (E P : list LogChange).

Lemma same_column_static c c' w w' M M' : same_column c c' → table_files c' = table_files c →
  col_repr c w M → col_repr c' w' M' → same_static c c'.
Proof.
  intros [S1 S2 S3 _ S5 S6 _ _ _] Hf (SS & [_ I2 _ _ _ _] & _) (SS' & [_ I2' _ _ _ _] & _). split.
  - done.
  - by rewrite S2.
  - intros n. by rewrite S2.
  - intros i t Ht. destruct (lookup_lt_is_Some_2 (hc_values c') i) as [t' Ht'].
    { rewrite (tb_len _ _ _ _ _ _ I2'), <- (tb_len _ _ _ _ _ _ I2). by eapply lookup_lt_Some. }
    destruct (tb_shape _ _ _ _ _ _ I2 _ _ Ht) as [E1 E2]. destruct (tb_shape _ _ _ _ _ _ I2' _ _ Ht') as [E1' E2'].
    assert (Ef : vt_file t' = vt_file t).
    { apply (f_equal (.!! i)) in Hf. unfold table_files in Hf. rewrite !list_lookup_fmap, Ht, Ht' in Hf. by injection Hf. }
    exists t'. split_and!; [done| |congruence|congruence|].
    + rewrite (tb_id _ _ _ _ _ _ I2 _ _ Ht), (tb_id _ _ _ _ _ _ I2' _ _ Ht'). congruence.
    + intros j b _. unfold window, esz. by rewrite Ef, E1, E1'.
  - by rewrite (tb_len _ _ _ _ _ _ I2'), (tb_len _ _ _ _ _ _ I2).
  - by rewrite S2.
  - by rewrite S2.
Qed.

Lemma col_enacted_static c c' : col_enacted c [] c' → same_static c c'.
Proof using Type.
  intros [(vs & idx & ->) Hlen Htab Hidx _ Hch Hst Hmp]. split; try done.
  intros i t Ht. destruct (Htab i t Ht) as (t' & Ht' & [[f ->] _ _ Hold _]). exists (set_vt_file f t).
  split_and!; try done. intros j b Hj Hw. by apply Hold.
Qed.

(** *** A new record *)

Lemma column_pending_snoc c w M (l : LogFiles) E P : col_repr c w M → writer_overlays w = lg_overlays l →
  IndexTableId.col (it_id (hc_index c)) = hc_col c →
  log_pending l E P → column_pending c E P → column_pending c E (P ++ [writer_log w]).
Proof.
  intros (SS & [_ I2 _ _ _ [Hcov Hone]] & _) Hov Hcol Hl [C1 C2 C3 C4 C5 C6]. split.
  - intros x id n rid d. rewrite (assoc_L (++)). intros [Hx| ->%list_elem_of_singleton]%elem_of_app Hc Hx'; [by eapply C1|].
    eapply (tb_logged _ _ _ _ _ _ I2); [done|]. unfold own_value. by rewrite Hx'.
  - intros x id n rid mask ch. rewrite (assoc_L (++)). intros [Hx| ->%list_elem_of_singleton]%elem_of_app Hc Hx'; [by eapply C2|].
    pose proof (Hone _ _ _ Hc Hx') as ->. destruct (Hcov _ _ _ _ Hx') as (H1' & H2' & H3' & _). exact (conj eq_refl (conj H3' (conj H2' H1'))).
  - intros n. destruct (C3 n) as (base & Hch & Hm). exists base. split; [|done]. rewrite (assoc_L (++)).
    apply chunk_chain_snoc; [done|]. intros rid mask ch Hx. destruct (Hcov _ _ _ _ Hx) as (_ & _ & _ & Hmask).
    rewrite default_chunk_view, Hov in Hmask. unfold index_view in Hmask. cbn in Hmask. rewrite (lp_index _ _ _ Hl), Hm in Hmask.
    unfold last_index in *. rewrite last_entry_app. by destruct (last_entry _ P).
  - intros i t n rid d Ht Hc. unfold last_value at 1. rewrite last_entry_snoc. intros HP.
    eapply C4; [done|done|]. by destruct (overlay_lookup _ _ _).
  - done.
  - done.
Qed.

(** Any record of the log is made of entries of the column. *)
Lemma record_fits c E P y : column_pending c E P → y ∈ E ++ P → dropped_tables y = [] →
  Forall (entry_fits c) (entries_of (hc_col c) (record_entries y)).
Proof using Type.
  intros [C1 C2 C3 C4 C5 C6] Hy Hd. apply Forall_forall. unfold entries_of.
  intros [id n m ch|id n d|id] [Hc He]%list_elem_of_filter; cbn [entry_col] in Hc.
  - apply record_entries_index in He as [rid Hr].
    destruct (C2 y _ _ _ _ _ Hy Hc Hr) as (-> & H1' & H2' & H3'). split_and!; try done; try lia.
  - apply record_entries_value in He as [rid Hr]. by eapply (C1 y).
  - by apply drop_not_in in He.
Qed.

(** *** The first record *)

Section First.
Context (c : HashColumn) (x : LogChange) (E P : list LogChange).
Hypothesis pending : column_pending c E (x :: P).
Hypothesis index_col : IndexTableId.col (it_id (hc_index c)) = hc_col c.
Abbreviation es := (entries_of (hc_col c) (record_entries x)).

Lemma entries_of_value id n d : EValue id n d ∈ es ↔
  ValueTableId.col id = hc_col c ∧ ∃ rid, overlay_lookup (local_values x) id n = Some (rid, d).
Proof using Type. unfold entries_of. rewrite list_elem_of_filter, record_entries_value. done. Qed.
Lemma entries_of_index id n m ch : EIndex id n m ch ∈ es ↔
  IndexTableId.col id = hc_col c ∧ ∃ rid, overlay_lookup (local_index x) id n = Some (rid, m, ch).
Proof using Type. unfold entries_of. rewrite list_elem_of_filter, record_entries_index. done. Qed.

Lemma entries_of_fun : entries_fun es.
Proof using Type. intros id n m ch m' ch' [_ [r Hr]]%entries_of_index [_ [r' Hr']]%entries_of_index. split; congruence. Qed.

Lemma pending_cover : entries_cover (hc_index c) es.
Proof using pending.
  destruct pending as [C1 C2 C3 C4 C5 C6]. intros n m ch [Hc [r Hr]]%entries_of_index.
  destruct (C2 x _ _ _ _ _ ltac:(apply elem_of_app; right; left) Hc Hr) as (_ & Hok & _). split; [done|].
  destruct (C3 n) as (base & Hch & ->). by eapply chunk_chain_mid.
Qed.

(** What leaves the overlays with the record. *)
Lemma pending_left (l l' : LogFiles) rid rid' : log_pending l E (x :: P) → log_pending l' (E ++ [x]) P →
  entries_left (hc_col c) es (LogWriter.new (lg_overlays l) rid) (LogWriter.new (lg_overlays l') rid').
Proof using Type.
  intros [_ V X _ _] [_ V' X' _ _].
  assert (Hv : ∀ id n, value_view (LogWriter.new (lg_overlays l) rid) id n = snd <$> last_value id n (x :: P)).
  { intros id n. unfold value_view. cbn. by rewrite V. }
  assert (Hv' : ∀ id n, value_view (LogWriter.new (lg_overlays l') rid') id n = snd <$> last_value id n P).
  { intros id n. unfold value_view. cbn. by rewrite V'. }
  assert (Hx : ∀ id n, index_view (LogWriter.new (lg_overlays l) rid) id n = snd <$> last_index id n (x :: P)).
  { intros id n. unfold index_view. cbn. by rewrite X. }
  assert (Hx' : ∀ id n, index_view (LogWriter.new (lg_overlays l') rid') id n = snd <$> last_index id n P).
  { intros id n. unfold index_view. cbn. by rewrite X'. }
  clear V X V' X'. split.
  - intros id n Hc. rewrite Hv, Hv'. unfold last_value. rewrite last_entry_cons.
    destruct (last_entry _ P) as [[r e]|]; [by left|].
    destruct (overlay_lookup (local_values x) id n) as [[r d]|] eqn:Ei; [|by left]. right. split; [done|].
    exists d. split; [done|]. apply entries_of_value. eauto.
  - intros id n d d' [_ [r Hr]]%entries_of_value [_ [r' Hr']]%entries_of_value. congruence.
  - intros id n d [_ [r Hr]]%entries_of_value. rewrite Hv. unfold last_value. rewrite last_entry_cons, Hr.
    by destruct (last_entry _ P).
  - intros id n Hc. rewrite Hx, Hx'. unfold last_index. rewrite last_entry_cons.
    destruct (last_entry _ P) as [[[r m] e]|]; [by left|].
    destruct (overlay_lookup (local_index x) id n) as [[[r m] ch]|] eqn:Ei; [|by left]. right. split; [done|].
    exists m, ch. split; [done|]. apply entries_of_index. eauto.
  - apply entries_of_fun.
  - intros id n m ch [_ [r Hr]]%entries_of_index. rewrite Hx. unfold last_index. rewrite last_entry_cons, Hr.
    by destruct (last_entry _ P) as [[[? ?] ?]|].
Qed.

(** The others wait as before. *)
Lemma column_pending_tail c' : col_enacted c es c' → column_wf c → column_pending c' (E ++ [x]) P.
Proof.
  pose proof pending_cover as Hcover. pose proof pending as [C1 C2 C3 C4 C5 C6]. intros Hen Hwf.
  pose proof Hen as [(vs & idx & ->) Hlen Htab Hidx Hmap Hch Hst Hmp].
  assert (Happ : (E ++ [x]) ++ P = E ++ x :: P) by (by rewrite <- (assoc_L (++))).
  cbn [hc_values set_hc_values hc_index set_hc_index] in *.
  split; rewrite ?Happ; cbn [hc_col hc_values set_hc_values hc_index set_hc_index].
  - intros y id n rid d Hy Hc Hl. destruct (C1 y id n rid d Hy Hc Hl) as (i & t & Ht & Hid & Hn & Hd).
    destruct (Htab _ _ Ht) as (t' & Ht' & [[f ->] _ _ _ _]). exists i, (set_vt_file f t). split_and!; [done|done|lia|lia|].
    by eapply logged_size.
  - intros y id n rid mask ch Hy. rewrite Hidx. by apply (C2 y).
  - intros n. rewrite Hidx, Hch. destruct (C3 n) as (base & Hcn & Hm). exists base. split; [done|].
    unfold last_index. rewrite last_entry_snoc. destruct (overlay_lookup (local_index x) _ n) as [[[r m] ch]|] eqn:Ex.
    + assert (Hin : EIndex (it_id (hc_index c)) n m ch ∈ es) by (apply entries_of_index; eauto).
      destruct (Hcover _ _ _ Hin) as [Hok Hmc]. pose proof (map_chunk_ok _ n (cw_map _ Hwf)).
      rewrite (chunk_after_one _ _ _ _ _ _ Hin entries_of_fun) by done. by apply merge_covered.
    + rewrite chunk_after_none; [done|]. intros m ch [_ [r Hr]]%entries_of_index. congruence.
  - intros i t' n rid d Ht' Hc HP. unfold last_value. rewrite last_entry_snoc.
    destruct (lookup_lt_is_Some_2 (hc_values c) i) as [t Ht]; [rewrite <- Hlen; by eapply lookup_lt_Some|].
    destruct (Htab _ _ Ht) as (t2 & Ht2 & [[f E2] _ Hnew Hold _]). simplify_eq.
    change (vt_id (set_vt_file f t)) with (vt_id t) in *.
    change (window (set_vt_file f t) (vt_file (set_vt_file f t)) n) with (window t (vt_file (set_vt_file f t)) n).
    destruct (overlay_lookup (local_values x) (vt_id t) n) as [[r d']|] eqn:Ex.
    + intros [= <- <-]. assert (Hin : EValue (vt_id t) n d' ∈ es) by (apply entries_of_value; eauto).
      destruct (values_of_some _ _ _ _ Hin) as [d2 Hd2]. destruct (Hnew n d2 Hd2) as [tail Htail].
      apply values_of_in, entries_of_value in Hd2 as [_ [r2 Hr2]]. exists tail. congruence.
    + intros HE. assert (HPx : last_value (vt_id t) n (x :: P) = None).
      { unfold last_value in *. rewrite last_entry_cons. by rewrite HP. }
      destruct (cp_last_value _ _ _ _ n rid d pending Hc (last_value_left _ _ _ _ _ HPx HE)) as (_ & _ & _ & _ & Hn & _).
      destruct (C4 _ _ _ _ _ Ht Hc HPx HE) as [tail Htail]. exists tail. apply Hold; [done| |done].
      destruct (values_of _ _ !! n) as [d2|] eqn:E2; [|done].
      apply values_of_in, entries_of_value in E2 as [_ [r2 Hr2]]. congruence.
  - auto.
  - unfold bits. rewrite Hidx. destruct C6 as [? []]; auto.
Qed.

End First.

(** *** Cleanup *)

(** The first of the records that were enacted leave the log. *)
Lemma column_pending_clean c D E P : column_pending c (D ++ E) P → column_pending c E P.
Proof using Type.
  intros [C1 C2 C3 C4 C5 C6]. split; try done.
  - intros x id n rid d Hx. apply (C1 x). rewrite <- (assoc_L (++)). apply elem_of_app. by right.
  - intros x id n rid mask ch Hx. apply (C2 x). rewrite <- (assoc_L (++)). apply elem_of_app. by right.
  - intros n. destruct (C3 n) as (base & Hch & Hm). rewrite <- (assoc_L (++)) in Hch.
    apply chunk_chain_app in Hch as [_ Hch]. eexists. split; [exact Hch|]. rewrite Hm. unfold last_index.
    rewrite last_entry_app. by destruct (last_entry _ E).
  - intros i t n rid d Ht Hc HP HE. eapply C4; try done. unfold last_value in *. by rewrite last_entry_app, HE.
Qed.

End Column.
