(* ===== verification/ColumnSession.v ===== *)
(** * Records of a hash column

    The writes of one log record, from the first [write_plan] to
    [complete_plan] (src/src/column.rs), on a column that has room for them. *)

From S2P Require Import Prelude.
From S2P Require Import Bytes.
From S2P Require Import Ids.
From S2P Require Import File.
From S2P Require Import Log.
From S2P Require Import Table.
From S2P Require Import TableSpec.
From S2P Require Import TableOps.
From S2P Require Import TableStore.
From S2P Require Import TableEnact.
From S2P Require Import Index.
From S2P Require Import IndexProofs.
From S2P Require Import Compress.
From S2P Require Import Stats.
From S2P Require Import Column.
From S2P Require Import HashColumn.
From S2P Require Import ColumnTables.
From S2P Require Import ColumnLinks.
From S2P Require Import ColumnProofs.
From S2P Require Import ColumnValues.
From S2P Require Import ColumnMap.
From stdpp Require Import options.
#[local] Set Default Proof Using "All".

(** ** Sequences of writes *)

Definition Change : Type := Key * option bytes.

(** The map after a sequence of writes. *)
Definition kv_writes (rc pre : bool) (M : KV) (l : list Change) : KV :=
  foldl (fun M '(key, val) => kv_set M key (kv_write rc pre (M key) val)) M l.

Definition changes_bound (l : list Change) : Z := foldr (fun '(_, val) n => write_bound val + n) 0 l.

Lemma changes_bound_cons key val l :
  changes_bound ((key, val) :: l) = write_bound val + changes_bound l.
Proof. done. Qed.

Lemma changes_bound_nonneg l : 0 ≤ changes_bound l.
Proof.
  induction l as [|[key val] l IH]; [done|]. rewrite changes_bound_cons.
  destruct val; unfold write_bound; lia.
Qed.

(** Changing the truth of a predicate at one place changes its count by at most
    one. *)
Lemma filter_one_change `{EqDecision A} (P Q : A → Prop) `{!∀ x, Decision (P x), !∀ x, Decision (Q x)} i l :
  NoDup l → (∀ j, j ≠ i → P j → Q j) → (length (filter P l) ≤ S (length (filter Q l)))%nat.
Proof.
  intros Hnd Hpq. change (S (length (filter Q l))) with (length (i :: filter Q l)).
  apply submseteq_length, NoDup_submseteq; [by apply NoDup_filter|].
  intros j [Hp Hj]%list_elem_of_filter. destruct (decide (j = i)) as [->|Hne]; [by left|].
  right. apply list_elem_of_filter. auto.
Qed.

Section Session.
Context `{!Uninit, !Codecs, !CodecLaws}.
Implicit Types (c : HashColumn) (w : LogWriter) (M : KV) (l : list Change).

Fixpoint write_plans (l : list Change) : ST CW (list PlanOutcome) :=
  match l with
  | [] => mret []
  | (key, val) :: l => o ← write_plan key val; os ← write_plans l; mret (o :: os)
  end.

Definition write_record (l : list Change) : ST CW (list PlanOutcome) :=
  os ← write_plans l; _ ← column_complete_plan; mret os.

(** Every chunk of the index has [n] free entries. *)
Definition free_entries c w (n : nat) : Prop :=
  ∀ ci, (n ≤ length (filter (fun j => IEntry.is_empty
    (read_entry (default EMPTY_CHUNK (chunk_view (hc_index c) w ci)) j) = true) (seq 0 CHUNK_ENTRIES)))%nat.

Definition changes_room c (l : list Change) : Prop :=
  ∀ i t, hc_values c !! i = Some t →
    filled t + changes_bound l ≤ 2 ^ 48 ∧ filled t + changes_bound l ≤ 2 ^ (bits (hc_index c) + 6).

Lemma free_entries_room c w key n : free_entries c w (S n) → chunk_room c w key.
Proof.
  intros Hf. specialize (Hf (chunk_index (hc_index c) (prefix_of key))).
  destruct (filter _ _) as [|i rest] eqn:E; [cbn in Hf; lia|].
  assert (Hi : i ∈ i :: rest) by (by left). rewrite <- E in Hi.
  apply list_elem_of_filter in Hi as [He Hi%elem_of_seq]. exists i. split; [lia|done].
Qed.

Lemma free_entries_step b c w c' w' n : write_grow b c w c' w' → free_entries c w (S n) →
  free_entries c' w' n.
Proof.
  intros Hg Hf ci. rewrite (sc_index _ _ (wg_column _ _ _ _ _ Hg)). specialize (Hf ci).
  destruct (wg_entry _ _ _ _ _ Hg) as (ci0 & i & He).
  eapply le_S_n, Nat.le_trans; [exact Hf|].
  apply (filter_one_change _ _ i); [apply NoDup_seq|]. intros j Hj. by rewrite He by naive_solver.
Qed.

Lemma same_column_trans c1 c2 c3 : same_column c1 c2 → same_column c2 c3 → same_column c1 c3.
Proof using Type. intros [] []. split; congruence. Qed.

Lemma changes_room_write c key val l : changes_room c ((key, val) :: l) → write_room c val.
Proof.
  intros Hr i t Hi. specialize (Hr i t Hi). rewrite changes_bound_cons in Hr.
  pose proof (changes_bound_nonneg l). lia.
Qed.

Lemma changes_room_step c w c' w' key val l : write_grow (write_bound val) c w c' w' →
  changes_room c ((key, val) :: l) → changes_room c' l.
Proof.
  intros Hg Hr i t Hi. rewrite (sc_index _ _ (wg_column _ _ _ _ _ Hg)).
  set (n := changes_bound ((key, val) :: l)). set (B := 2 ^ (bits (hc_index c) + 6)).
  assert (H1' : room (hc_values c) n) by (intros i' t' Hi'; apply (Hr i' t' Hi')).
  assert (H2' : room (hc_values c) (n + (2 ^ 48 - B)))
    by (intros i' t' Hi'; destruct (Hr i' t' Hi') as [_ Hb]; fold n B in Hb; lia).
  apply (wg_room _ _ _ _ _ Hg) in H1', H2'. specialize (H1' i t Hi). specialize (H2' i t Hi).
  unfold n in *. rewrite changes_bound_cons in *. lia.
Qed.

(** A sequence of writes on a column with room succeeds without a reindex. *)
Lemma write_plans_ok l : ∀ c w M, col_repr c w M →
  Forall (fun '(key, val) => is_key key ∧ value_ok c val) l → free_entries c w (length l) →
  changes_room c l →
  ∃ os c' w', write_plans l (c, w) = (Ok os, (c', w')) ∧ (NeedReindex ∉ os) ∧
    col_repr c' w' (kv_writes (hc_ref_counted c) (hc_preimage c) M l) ∧ same_column c c'.
Proof.
  induction l as [|[key val] l IH]; intros c w M HM Hok Hfree Hroom.
  { exists [], c, w. split_and!; [done|set_solver|done|by split]. }
  apply Forall_cons in Hok as [[Hkey Hval] Hok].
  destruct (write_plan_ok c w M key val HM Hkey Hval (changes_room_write _ _ _ _ Hroom)) as
    (o & c1 & w1 & Hrun & Ho & HM1 & Hg).
  { intros _ _. by eapply free_entries_room. }
  pose proof (wg_column _ _ _ _ _ Hg) as Hsc.
  destruct (IH c1 w1 _ HM1) as (os & c2 & w2 & Hrun2 & Hos & HM2 & Hsc2).
  - eapply Forall_impl; [exact Hok|]. intros [key' val'] [H1' H2']. split; [done|].
    unfold value_ok in *. by rewrite (sc_compression _ _ Hsc).
  - by eapply free_entries_step.
  - by eapply changes_room_step.
  - exists (o :: os), c2, w2. split_and!.
    + cbn [write_plans]. erewrite ST_bind_Ok by exact Hrun. by erewrite ST_bind_Ok by exact Hrun2.
    + by apply not_elem_of_cons.
    + cbn. by rewrite (sc_rc _ _ Hsc), (sc_preimage _ _ Hsc) in HM2.
    + by eapply same_column_trans.
Qed.

(** ** The end of a record *)

(** The headers are logged at entry 0 of the tables: no value is there. *)
Lemma tables_logged_header col rc comp ts w SS i t : is_u8 col → tables_repr col rc comp ts w SS →
  ts !! i = Some t → (i < SIZE_TIERS)%nat →
  tables_repr col rc comp (<[i := set_dirty_header false t]> ts) (logged_header t w) SS.
Proof.
  intros Hu Htb Ht Hi. destruct (tables_lookup _ _ _ Hu _ _ _ i Htb Hi) as (t' & m & Ht' & Hm & Hr). simplify_eq.
  pose proof Htb as [L1 L2 T3 T4 T5 T6 T7 T8 T9 T10 T11].
  assert (Hother : ∀ j t1 n, ts !! j = Some t1 → (i ≠ j ∨ n ≠ 0) →
    value_view (logged_header t w) (vt_id t1) n = value_view w (vt_id t1) n).
  { intros j t1 n Hj Hne. unfold logged_header. destruct (dirty_header t); [|done].
    rewrite value_view_insert_value, decide_False; [done|]. intros [Hid <-].
    rewrite (T4 _ _ Ht), (T4 _ _ Hj) in Hid. apply (table_id_inj _ Hu) in Hid; [|done|].
    - destruct Hne; congruence.
    - rewrite <- L1. by eapply lookup_lt_Some. }
  split; rewrite ?length_insert; try done.
  - intros j t1 m1. rewrite list_lookup_insert.
    destruct (decide (i = j ∧ _)) as [[<- _]|Hne].
    + intros [= <-] Hm1. rewrite Hm in Hm1. injection Hm1 as <-.
      destruct Hr as (free & vals & Hr & ->). exists free, vals. split; [by apply repr_logged_header|done].
    + intros Hj Hm1. eapply store_repr_frame; [|by eapply T3]. intros n. apply (Hother j t1 n Hj).
      left. intros ->. apply Hne. split; [done|]. by eapply lookup_lt_Some.
  - intros j t1. rewrite list_lookup_insert. destruct (decide _) as [[<- _]|]; [|apply T4].
    intros [= <-]. exact (T4 _ _ Ht).
  - intros j t1. rewrite list_lookup_insert. destruct (decide _) as [[<- _]|]; [|apply T5].
    intros [= <-]. exact (T5 _ _ Ht).
  - intros t1. rewrite list_lookup_insert. destruct (decide _) as [[-> _]|]; [|apply T6].
    intros [= <-]. exact (T6 _ Ht).
  - intros id n d Hc Hd. assert (Hup : ∀ j t1, ts !! j = Some t1 →
      ∃ t2, <[i := set_dirty_header false t]> ts !! j = Some t2 ∧ same_shape t1 t2).
    { intros j t1 Hj. rewrite list_lookup_insert. destruct (decide _) as [[<- _]|]; [|by exists t1].
      eexists. split; [done|]. simplify_eq. by split. }
    assert (Hnew : own_value w id n = Some d ∨ (id = vt_id t ∧ n = 0 ∧ length d = 16%nat)).
    { unfold logged_header in Hd. destruct (dirty_header t); [|by left].
      rewrite own_value_insert_value in Hd. destruct (decide _) as [[<- <-]|]; [|by left].
      right. injection Hd as <-. split_and!; [done|done|]. unfold Header.make, INDEX_SIZE. len. }
    destruct Hnew as [Hold|(-> & -> & Hl)].
    + destruct (T8 _ _ _ Hc Hold) as (j & t1 & Hj & <- & Hn & Hl). destruct (Hup _ _ Hj) as (t2 & Hj2 & Hs2).
      exists j, t2. split_and!; [done|apply Hs2|lia|lia|by eapply logged_shape].
    + destruct (Hup _ _ Ht) as (t2 & Hj2 & Hs2). exists i, t2. split_and!; [done|apply Hs2|lia|lia|by left].
  - intros j t1. rewrite list_lookup_insert. destruct (decide _) as [[<- _]|]; [|apply T9].
    intros [= <-]. exact (T9 _ _ Ht).
  - intros j t1. rewrite list_lookup_insert. destruct (decide _) as [[<- _]|]; [|apply T10].
    intros [= <-]. exact (T10 _ _ Ht).
  - intros j t1. rewrite list_lookup_insert. destruct (decide (i = j ∧ _)) as [[<- _]|Hne].
    + intros [= <-]. specialize (T11 _ _ Ht). unfold header_shown, logged_header in *. right.
      destruct (dirty_header t) eqn:Ed.
      * by rewrite value_view_insert_value, decide_True.
      * destruct T11 as [?|T11]; [done|exact T11].
    + intros Hj. specialize (T11 _ _ Hj). unfold header_shown in *. rewrite (Hother _ _ 0 Hj); [done|].
      left. intros ->. apply Hne. split; [done|]. by eapply lookup_lt_Some.
Qed.

Lemma complete_tables_ok col rc comp tiers : is_u8 col → ∀ r w SS,
  tables_repr col rc comp (tr_tables r) w SS →
  Forall (fun i => (i < SIZE_TIERS)%nat) tiers →
  ∃ ts w', complete_tables tiers (r, w) = (Ok tt, (set_tr_tables ts r, w')) ∧
    tables_repr col rc comp ts w' SS ∧ same_index w w' ∧
    ∀ j t, ts !! j = Some t →
      j ∈ tiers ∨ (∃ t0, tr_tables r !! j = Some t0 ∧ dirty_header t0 = false) → dirty_header t = false.
Proof.
  intros Hu. induction tiers as [|i tiers IH]; intros r w SS Htb Hlt.
  { exists (tr_tables r), w. split_and!; [by destruct r|done|done|]. intros j t Hj [?%not_elem_of_nil|(t0 & Hj0 & Hd)]; [done|].
    congruence. }
  apply Forall_cons in Hlt as [Hi Hlt].
  destruct (tables_lookup _ _ _ Hu _ _ _ i Htb Hi) as (t & m & Ht & Hm & Hr).
  pose proof (tables_logged_header _ _ _ _ _ _ _ _ Hu Htb Ht Hi) as Htb1.
  destruct (IH (set_tr_tables (<[i := set_dirty_header false t]> (tr_tables r)) r) (logged_header t w)
    SS Htb1 Hlt) as (ts & w' & Hrun & Htb2 & Hix & Hclean).
  exists ts, w'. split_and!; [|done| |].
  - cbn [complete_tables]. erewrite ST_bind_Ok.
    2: { unfold on_tier. by rewrite Ht, complete_plan_spec. }
    exact Hrun.
  - etrans; [|exact Hix]. unfold logged_header. by destruct (dirty_header t).
  - intros j t1 Hj Hor. apply (Hclean j); [done|]. cbn [tr_tables set_tr_tables].
    rewrite list_lookup_insert. destruct (decide (i = j ∧ _)) as [[<- _]|Hne]; [right; by eexists|].
    destruct Hor as [[->|Hin]%elem_of_cons|?]; [|by left|by right].
    destruct Hne. split; [done|]. by eapply lookup_lt_Some.
Qed.

(** No header has to be logged. *)
Definition headers_clean c : Prop := ∀ i t, hc_values c !! i = Some t → dirty_header t = false.

Lemma complete_plan_ok c w M : col_repr c w M →
  ∃ c' w', column_complete_plan (c, w) = (Ok tt, (c', w')) ∧ col_repr c' w' M ∧ same_column c c' ∧
    headers_clean c'.
Proof.
  intros (SS & Hinv & HM). pose proof (ci_tables _ _ _ Hinv) as Htb.
  destruct (complete_tables_ok (hc_col c) (hc_ref_counted c) (hc_compression c)
    (seq 0 (length (hc_values c))) (ci_col _ _ _ Hinv) (as_ref c) w SS Htb) as (ts & w' & Hrun & Htb' & Hix & Hclean).
  { apply Forall_forall. intros i Hi%elem_of_seq. rewrite (tb_len _ _ _ _ _ _ Htb) in Hi. lia. }
  apply on_tables_run in Hrun. destruct (same_column_put (set_tr_tables ts (as_ref c)) c) as [Hsc Hv].
  set (c1 := put_ref (set_tr_tables ts (as_ref c)) c) in *.
  destruct (same_column_count ColumnStats.commit c1) as [Hsc2 Hv2].
  destruct (index_frame (hc_index c) w w' Hix (ci_index _ _ _ Hinv)) as [Hwf Hsame].
  assert (HM1 : col_repr c1 w' M).
  { exists SS. destruct Hsc as [C1 C2 C3 C4 C5 C6]. split.
    - split; rewrite ?C1, ?C2, ?C3, ?C5, ?C6, ?Hv; [apply Hinv|done|done|apply Hinv| |].
      + apply (links_ext _ _ _ Hsame), Hinv.
      + by eapply index_logged_frame, ci_logged.
    - intros key Hk. specialize (HM key Hk). unfold kv_holds, holds in *. rewrite C2, C6.
      destruct (M key) as [[v n]|].
      + destruct HM as (s & (j & a & Hs) & Hrest). exists s. split; [|done]. exists j, a. by rewrite Hsame.
      + intros s (j & a & Hs). apply (HM s). exists j, a. by rewrite <- Hsame. }
  exists (count_stat ColumnStats.commit c1), w'. split_and!.
  - unfold column_complete_plan. erewrite ST_bind_Ok by done. cbv beta iota.
    by erewrite ST_bind_Ok by exact Hrun.
  - by eapply col_repr_same.
  - by eapply same_column_trans.
  - intros i t. rewrite Hv2, Hv. cbn [tr_tables set_tr_tables]. intros Hi. apply (Hclean _ _ Hi). left.
    apply elem_of_seq. split; [lia|]. apply lookup_lt_Some in Hi.
    rewrite (tb_len _ _ _ _ _ _ Htb') in Hi. by rewrite (tb_len _ _ _ _ _ _ Htb).
Qed.

End Session.
