(* ===== verification/ColumnOpen.v ===== *)
(** * A new hash column

    [Column::open] and [HashColumn::open_index] (src/src/column.rs) when there
    are no files yet: the column is empty. *)

From S2P Require Import Prelude.
From S2P Require Import Bytes.
From S2P Require Import Ids.
From S2P Require Import File.
From S2P Require Import Log.
From S2P Require Import Table.
From S2P Require Import TableSpec.
From S2P Require Import TableStore.
From S2P Require Import TableThms.
From S2P Require Import Index.
From S2P Require Import IndexProofs.
From S2P Require Import Compress.
From S2P Require Import Stats.
From S2P Require Import Options.
From S2P Require Import Column.
From S2P Require Import HashColumn.
From S2P Require Import ColumnTables.
From S2P Require Import ColumnLinks.
From S2P Require Import ColumnProofs.
From S2P Require Import ColumnMap.
From S2P Require Import ColumnSession.
From stdpp Require Import options.
#[local] Set Default Proof Using "All".

(** ** The entry sizes *)

Lemma sizes_ok : Forall (fun s => MIN_ENTRY_SIZE ≤ s ≤ MAX_ENTRY_SIZE) SIZES.
Proof. unfold MIN_ENTRY_SIZE, MAX_ENTRY_SIZE. repeat constructor; lia. Qed.

Lemma sizes_length : length SIZES = (SIZE_TIERS - 1)%nat.
Proof. reflexivity. Qed.

Lemma size_range tier s : SIZES !! tier = Some s → MIN_ENTRY_SIZE ≤ s ≤ MAX_ENTRY_SIZE.
Proof. intros Hs. by eapply (Forall_lookup_1 _ _ _ _ sizes_ok). Qed.

Section Open.
Context `{!Uninit, !Codecs}.
Context (col : ColId) (options : ColumnOptions) (version : Z).

Definition new_tables (tiers : list nat) : list ValueTable :=
  (fun i => new_table (ValueTableId.new col (wrap8 (Z.of_nat i))) (SIZES !! i) (ref_counted_opt options) version)
    <$> tiers.

Lemma open_tables_new tiers :
  open_tables (fun _ => None) col options version tiers = Ok (new_tables tiers).
Proof.
  induction tiers as [|i tiers IH]; [done|]. cbn [open_tables]. unfold open_table.
  rewrite open_new by (intros s; apply size_range). by rewrite outcome_bind_Ok, IH.
Qed.

Lemma new_tables_lookup i t : new_tables (seq 0 SIZE_TIERS) !! i = Some t →
  (i < SIZE_TIERS)%nat ∧
  t = new_table (ValueTableId.new col (Z.of_nat i)) (SIZES !! i) (ref_counted_opt options) version.
Proof.
  unfold new_tables. rewrite list_lookup_fmap. intros Ht.
  destruct (seq 0 SIZE_TIERS !! i) as [j|] eqn:E; [|done].
  pose proof (lookup_seq 0 SIZE_TIERS i j) as [Hs _]. destruct (Hs E) as [-> Hi]. injection Ht as <-.
  split; [done|]. unfold wrap8. rewrite Z.mod_small; [done|]. unfold SIZE_TIERS in Hi. lia.
Qed.

Lemma new_tables_repr comp rid : is_u8 col →
  tables_repr col (ref_counted_opt options) comp (new_tables (seq 0 SIZE_TIERS))
    (LogWriter.new empty_overlays rid) (replicate SIZE_TIERS ∅).
Proof.
  intros Hu. split.
  - unfold new_tables. by rewrite length_fmap, length_seq.
  - by rewrite length_replicate.
  - intros i t m [Hi ->]%new_tables_lookup [-> _]%lookup_replicate.
    apply new_table_repr. intros s. apply size_range.
  - by intros i t [Hi ->]%new_tables_lookup.
  - by intros i t [Hi ->]%new_tables_lookup.
  - intros t [Hi ->]%new_tables_lookup. cbn -[SIZES SIZE_TIERS].
    by rewrite (lookup_ge_None_2 SIZES) by (rewrite sizes_length; lia).
  - intros i m off s [-> _]%lookup_replicate Hs. by rewrite lookup_empty in Hs.
  - done.
  - intros i t [Hi ->]%new_tables_lookup. apply (new_table_repr _ _ _ _ rid). intros s. apply size_range.
  - by intros i t [Hi ->]%new_tables_lookup.
  - intros i t [Hi ->]%new_tables_lookup. right. by destruct (SIZES !! i).
Qed.

Lemma stored_at_new a : stored_at (replicate SIZE_TIERS ∅) a = None.
Proof.
  unfold stored_at. destruct (replicate SIZE_TIERS ∅ !! tier_of a) as [m|] eqn:E; [|done].
  apply lookup_replicate in E as [-> _]. apply lookup_empty.
Qed.

Lemma lookup_at_new id rid k j :
  lookup_at (create_new id) (LogWriter.new empty_overlays rid) k j = None.
Proof.
  unfold lookup_at, entry_at. replace (chunk_view (create_new id) _ _) with (@None Chunk) by done.
  cbn [default]. by rewrite read_entry_empty_chunk, andb_false_r.
Qed.

Lemma open_index_new : open_index (fun _ => None) col =
  Ok (create_new (IndexTableId.new col MIN_INDEX_BITS), [], ColumnStats.empty).
Proof. reflexivity. Qed.

End Open.

Section Empty.
Context `{!Uninit, !Codecs}.

Definition new_column (col : ColId) (collect : bool) (options : ColumnOptions) (salt : bytes)
    (version : Z) : HashColumn :=
  MkHashColumn col (create_new (IndexTableId.new col MIN_INDEX_BITS))
    (new_tables col options version (seq 0 SIZE_TIERS)) [] 0 (preimage options) (uniform options) collect
    (ref_counted_opt options) salt ColumnStats.empty
    (Compress.new (compression options) (compression_threshold options)) version.

Lemma open_hash_new col collect meta options : meta_columns meta !! Z.to_nat col = Some options →
  open_hash (fun _ => None) (fun _ => None) col collect meta =
  Ok (new_column col collect options (meta_salt meta) (meta_version meta)).
Proof.
  intros Ho. unfold open_hash. rewrite Ho. cbn [unwrap]. rewrite outcome_bind_Ok, open_tables_new.
  by rewrite outcome_bind_Ok, open_index_new, outcome_bind_Ok.
Qed.

Lemma new_column_repr col collect options salt version rid : is_u8 col →
  col_repr (new_column col collect options salt version) (LogWriter.new empty_overlays rid) (fun _ => None).
Proof.
  intros Hu. exists (replicate SIZE_TIERS ∅). split.
  - split; [done|by apply new_tables_repr| |done| |].
    + destruct (index_id_new col MIN_INDEX_BITS) as (_ & Hb & _); [done|done|].
      split; [|done|done]. unfold bits_ok, bits. cbn -[IndexTableId.index_bits]. rewrite Hb.
      unfold MIN_INDEX_BITS. lia.
    + split.
      * intros k k' j _ _ _. cbn. by rewrite !lookup_at_new.
      * intros k j a _. cbn. by rewrite lookup_at_new.
      * intros k j a _. cbn. by rewrite lookup_at_new.
      * intros a s _. by rewrite stored_at_new.
      * intros k j k' j' a _ _. cbn. by rewrite lookup_at_new.
      * intros k j j' a a' s s' _. cbn. by rewrite lookup_at_new.
      * intros k j a s _. cbn. by rewrite lookup_at_new.
    + by split.
  - intros key _ s (j & a & Hf & _). cbn in Hf. by rewrite lookup_at_new in Hf.
Qed.

Lemma new_column_free col collect options salt version rid :
  free_entries (new_column col collect options salt version) (LogWriter.new empty_overlays rid) CHUNK_ENTRIES.
Proof.
  intros ci. cbn [hc_index new_column]. replace (chunk_view (create_new _) _ ci) with (@None Chunk) by done.
  cbn [default]. apply Nat.eq_le_incl. rewrite <- (length_seq 0 CHUNK_ENTRIES) at 1. reflexivity.
Qed.

Lemma new_column_filled col collect options salt version i t :
  hc_values (new_column col collect options salt version) !! i = Some t → filled t = 1.
Proof. by intros [_ ->]%new_tables_lookup. Qed.

End Empty.
