(* ===== verification/ColumnRecover.v ===== *)
(** * Recovering a hash column

    After a crash the tables and the index are what the process left of them,
    and the log still has the records that were enacted and those that were
    not. Opening the column again and replaying all of them gives a column that
    represents what the old one did with the entries of the pending records in
    the overlays (src/src/column.rs, src/src/table.rs). *)

From S2P Require Import Prelude.
From S2P Require Import Bytes.
From S2P Require Import Ids.
From S2P Require Import File.
From S2P Require Import Log.
From S2P Require Import LogProofs.
From S2P Require Import LogState.
From S2P Require Import LogReplay.
From S2P Require Import LogPending.
From S2P Require Import Table.
From S2P Require Import TableSpec.
From S2P Require Import TableRefine.
From S2P Require Import TableStore.
From S2P Require Import TableEnact.
From S2P Require Import Index.
From S2P Require Import IndexProofs.
From S2P Require Import IndexEnact.
From S2P Require Import Compress.
From S2P Require Import Stats.
From S2P Require Import Options.
From S2P Require Import Column.
From S2P Require Import HashColumn.
From S2P Require Import ColumnTables.
From S2P Require Import ColumnLinks.
From S2P Require Import ColumnProofs.
From S2P Require Import ColumnMap.
From S2P Require Import ColumnEnact.
From S2P Require Import ColumnPending.
From S2P Require Import ColumnSession.
From S2P Require Import ColumnOpen.
From stdpp Require Import options.
#[local] Set Default Proof Using "Type*".

(** * Validating the entries of a record

    When the log is replayed, [DbInner::enact_logs] (src/src/db.rs) validates a
    record before it enacts it. The entries that the columns wrote pass: the
    columns read them from the log and stay as they are. On a torn record the
    validation fails, and the columns stay as they are too. *)

Section Validate.
Context `{!Uninit}.
Implicit Types (c : HashColumn) (r : LogReader).

(** ** The index *)

Lemma skip_entries_spec ch l : ∀ r rest, is_chunk ch → Forall (fun i => i < CHUNK_ENTRIES)%nat l →
  is_u64 (read_bytes r) → reader_at r (concat (chunk_entry ch <$> l)) rest →
  ∃ r', skip_entries l r = (Ok tt, r') ∧ advanced (concat (chunk_entry ch <$> l)) r r'.
Proof.
  induction l as [|i l IH]; intros r rest Hc Hl Hu Hr; cbn [skip_entries].
  { exists r. split; [done|by apply advanced_nil]. }
  apply Forall_cons in Hl as [Hi Hl]. cbn [fmap list_fmap concat] in *. rewrite reader_at_split in Hr.
  destruct (reader_read r (chunk_entry ch i) _ ENTRY_BYTES Hr) as (r1 & E1 & Ha1); [by rewrite length_chunk_entry|].
  pose proof (advanced_at _ _ _ _ Hr Ha1) as Hr1. rewrite <- reader_at_split, app_nil_l in Hr1.
  erewrite ST_bind_Ok by exact E1.
  destruct (IH r1 rest Hc Hl (advanced_u64 _ _ _ Ha1) Hr1) as (r' & E & Ha).
  exists r'. split; [exact E|by eapply advanced_trans].
Qed.

Lemma validate_index_plan_ok t n mask ch r rest : bits_ok (bits t) → 0 ≤ n < IndexTableId.total_chunks (it_id t) →
  is_chunk ch → is_u64 mask → reader_at r (entry_payload (EIndex (it_id t) n mask ch)) rest →
  ∃ r', validate_index_plan t n r = (Ok tt, r') ∧ advanced (entry_payload (EIndex (it_id t) n mask ch)) r r'.
Proof.
  intros Hb Hn Hc Hm Hr. unfold validate_index_plan.
  assert (Hte : IndexTableId.total_entries (it_id t) = 2 ^ bits t * 64).
  { unfold IndexTableId.total_entries. rewrite total_chunks_pow by done. apply wrap64_small. unfold is_u64, bits_ok in *.
    change (Z.of_nat CHUNK_ENTRIES) with 64. change (2 ^ 64) with (2 ^ 58 * 64).
    pose proof (Z.pow_le_mono_r 2 (bits t) 57). nia. }
  rewrite total_chunks_pow in Hn by done. rewrite Hte. destruct (Z.leb_spec (2 ^ bits t * 64) n) as [?|_]; [lia|].
  unfold skip_index_plan. cbn [entry_payload] in *. rewrite reader_at_split in Hr.
  destruct (reader_read r (le_encode 8 mask) _ 8 Hr) as (r1 & E1 & Ha1); [by rewrite length_le_encode|].
  pose proof (advanced_at _ _ _ _ Hr Ha1) as Hr1. rewrite <- reader_at_split, app_nil_l in Hr1.
  erewrite ST_bind_Ok by exact E1. rewrite le_decode_encode_small by exact Hm.
  destruct (skip_entries_spec ch (mask_entries mask) r1 rest Hc) as (r' & E & Ha); [|by eapply advanced_u64|exact Hr1|].
  { apply Forall_forall. intros j Hj. by apply mask_entries_elem in Hj as [? _]. }
  exists r'. split; [exact E|by eapply advanced_trans].
Qed.

(** ** The entries *)

Lemma validate_entry c0 dn c e r rest : column_wf c0 → bits_ok (bits (hc_index c0)) → col_enacted c0 dn c →
  entry_fits c0 e → reader_at r (entry_payload e) rest →
  ∃ r', column_validate_plan (entry_action e) (c, r) = (Ok tt, (c, r')) ∧ advanced (entry_payload e) r r'.
Proof.
  intros [Hwf _] Hb Hen Hfit Hr. unfold column_validate_plan. destruct e as [id n mask ch|id n d|id]; [| |done].
  - destruct Hfit as (-> & Hch & Hm & Hn). cbn [column_validate_plan_from entry_action].
    erewrite ST_bind_Ok by done. erewrite ST_bind_Ok by done. cbv beta iota.
    pose proof (cn_index _ _ _ Hen) as Hid. rewrite decide_True by done. unfold validate_index.
    destruct (validate_index_plan_ok (hc_index c) n mask ch r rest) as (r' & E & Ha); rewrite ?Hid; try done.
    { unfold bits. by rewrite Hid. }
    exists r'. rewrite E. split; [done|]. by rewrite Hid in Ha.
  - destruct Hfit as (i & t0 & Hi & <- & Hn & Hlog). destruct (Hwf i t0 Hi) as (Hwt & Htier & _).
    destruct (cn_tables _ _ _ Hen _ _ Hi) as (t & Ht & [[f ->] _ _ _ _]). cbn [column_validate_plan_from entry_action].
    erewrite ST_bind_Ok by done. erewrite ST_bind_Ok by done. cbv beta iota.
    unfold on_value. rewrite Htier, Ht. unfold Table.validate_plan.
    destruct (read_logged_spec (set_vt_file f t0) r n d rest) as (r' & E & Ha); [by destruct Hwt|done|exact Hr|].
    exists r'. erewrite ST_bind_Ok by exact E. cbn. rewrite list_insert_id by done. split; [by destruct c|done].
Qed.

(** ** Entries of a torn record *)

Lemma cut_safe_skip l s : cut_safe (run_reader (skip_entries l)) (s : HashColumn).
Proof.
  induction l as [|i l IH]; cbn [skip_entries]; [apply cut_safe_ret|].
  apply cut_safe_reader_bind; [apply cut_safe_read|]. by intros _.
Qed.

Lemma cut_safe_validate_index t n s : cut_safe (run_reader (validate_index_plan t n)) (s : HashColumn).
Proof.
  unfold validate_index_plan. destruct (_ <=? n); [by apply cut_safe_err|]. unfold skip_index_plan.
  apply cut_safe_reader_bind; [apply cut_safe_read|]. intros buf. apply cut_safe_skip.
Qed.

Lemma cut_safe_read_logged n (t : ValueTable) : cut_safe (read_logged n) t.
Proof.
  assert (Hfrom : ∀ k, cut_safe (from_log k) t) by (intros k; apply (cut_safe_read k)).
  unfold read_logged. apply (cut_safe_state (fun t => _)). apply cut_safe_if; [apply Hfrom|].
  apply cut_safe_bind; [apply Hfrom|]. intros head. cbv zeta.
  apply cut_safe_if; [apply cut_safe_bind; [apply Hfrom|intros; apply cut_safe_ret]|].
  apply cut_safe_if; [apply cut_safe_bind; [apply Hfrom|intros; apply cut_safe_ret]|].
  apply cut_safe_bind; [apply cut_safe_lift|]. intros [[len ?] ?].
  apply cut_safe_bind; [apply cut_safe_lift|]. intros _.
  apply cut_safe_bind; [apply Hfrom|]. intros. apply cut_safe_ret.
Qed.

Lemma cut_safe_on_value {A} (m : ST TR A) tier c : (∀ t, cut_safe m t) → cut_safe (on_value tier m) c.
Proof.
  intros Hm k r a c' r' Hk. unfold on_value. destruct (hc_values c !! tier) as [t|] eqn:Ht; [|done].
  assert (Hid : set_hc_values (<[tier := t]> (hc_values c)) c = c) by (rewrite list_insert_id by done; by destruct c).
  destruct (m (t, r)) as [o [t1 r1]] eqn:E. intros [= -> <- <-].
  destruct (Hm t k r a t1 r1 Hk E) as [-> [[Hk' E']|(r'' & E')]]; rewrite Hid, E', Hid; (split; [done|]).
  - by left.
  - right. by exists r''.
Qed.

Lemma cut_safe_validate c0 dn c e : col_enacted c0 dn c → entry_fits c0 e → cut_safe (column_validate_plan (entry_action e)) c.
Proof.
  intros Hen Hfit. unfold column_validate_plan. destruct e as [id n mask ch|id n d|id];
    cbn [column_validate_plan_from entry_action]; (apply cut_safe_bind; [apply cut_safe_lift|intros _]);
    apply (cut_safe_state (fun c => _)).
  - destruct Hfit as (-> & _). pose proof (cn_index _ _ _ Hen) as Hid. rewrite decide_True by done. apply cut_safe_validate_index.
  - apply cut_safe_on_value. intros t. unfold Table.validate_plan. apply cut_safe_bind; [apply cut_safe_read_logged|].
    intros. apply cut_safe_ret.
  - apply cut_safe_lift.
Qed.

End Validate.

(** * Replaying the pending records *)

(** ** A table *)

Section Table.
Context `{!Uninit}.

(** [t1] was opened on the file of [t0]. *)
Record reopened (t0 : ValueTable) (v : Z) (t1 : ValueTable) : Prop := {
  ro_table : ∃ f fl lr, t1 = MkValueTable (vt_id t0) (entry_size t0) f fl lr false (multipart t0) (ref_counted t0) v;
  ro_file : file (vt_file t1) = file (vt_file t0);
  ro_capacity : capacity (vt_file t1) = capacity (vt_file t0);
  ro_meta : disk_meta t1;
}.

Lemma reopened_facts t0 v t1 : reopened t0 v t1 → table_wf t0 → file_ok t0 →
  table_wf t1 ∧ file_ok t1 ∧ header_of t1 = header_of t0 ∧ vt_id t1 = vt_id t0 ∧
  (∀ j, window t1 (vt_file t1) j = window t0 (vt_file t0) j) ∧
  ∀ n d, logged t0 n d → logged t1 n d.
Proof using Type.
  intros [(f & fl & lr & ->) Hf Hc _] [W1 W2] Hok. cbn [vt_file] in *. split_and!.
  - by split.
  - unfold file_ok, contents in *. cbn [vt_file entry_size]. by rewrite Hf, Hc.
  - unfold header_of, contents. cbn [vt_file]. by rewrite Hf.
  - done.
  - intros j. unfold window, TableFile.read_at. cbn [vt_file]. by rewrite Hf.
  - intros n d. by apply logged_size.
Qed.

Lemma window_size t t' f j : entry_size t' = entry_size t → window t' f j = window t f j.
Proof using Type. intros E. unfold window, esz. by rewrite E. Qed.

(** [Table.open] on the file of a table. *)
Lemma open_reopened t0 v size : table_wf t0 → file_ok t0 →
  (multipart t0, entry_size t0) = match size with Some s => (false, s) | None => (true, 4096) end →
  ∃ t1, Table.open (file (vt_file t0)) (vt_id t0) size (ref_counted t0) v = Ok t1 ∧ reopened t0 v t1.
Proof using Type.
  intros [[W1 W2] _] (F1 & F2 & F3 & F4 & F5) Hsize. unfold contents in *.
  unfold Table.open. rewrite <- Hsize. unfold rust_assert.
  assert (E1 : (MIN_ENTRY_SIZE <=? entry_size t0) = true) by (apply Z.leb_le; exact W1).
  assert (E2 : (if 4 <=? v then entry_size t0 <=? MAX_ENTRY_SIZE else true) = true)
    by (destruct (4 <=? v); [apply Z.leb_le; exact W2|done]).
  rewrite E1, outcome_bind_Ok, E2. clear E1 E2. unfold MIN_ENTRY_SIZE in W1.
  rewrite outcome_bind_Ok. unfold TableFile.open. destruct (file (vt_file t0)) as [c|] eqn:Ef; cbn [default id] in *.
  - specialize (F3 ltac:(eauto)). assert (Hlen : (16 ≤ length c)%nat) by nia.
    assert (E0 : (length c =? 0)%nat = false) by (apply Nat.eqb_neq; lia). rewrite E0. cbn [file].
    unfold read_exact_at. assert (E1 : (0 + 16 <=? length c)%nat = true) by (apply Nat.leb_le; lia).
    rewrite E1, drop_0, outcome_bind_Ok, outcome_bind_Ok. eexists. split; [reflexivity|].
    assert (Hcap : Z.of_nat (length c) / entry_size t0 = capacity (vt_file t0)).
    { symmetry. apply (Z.div_unique _ _ _ (Z.of_nat (length c) - capacity (vt_file t0) * entry_size t0)); lia. }
    split; cbn; [by do 3 eexists|done|done|]. unfold disk_meta, header_of, contents. cbn.
    by rewrite take_app_le by lia.
  - cbn [file]. rewrite outcome_bind_Ok. eexists. split; [reflexivity|].
    split; cbn; [by do 3 eexists|done| |by split]. cbn in F4. nia.
Qed.

Section Recovered.
Context (t0 tc : ValueTable) (v : Z) (w w' : LogWriter) (m0 m : gmap Z bytes) (t1 t2 : ValueTable).
Hypothesis wf0 : table_wf t0.
(** [tc] is what the process left of [t0]: some entries may have been enacted
    that the log shows still. *)
Hypothesis crashed : enacted t0 m0 tc.
Hypothesis opened : reopened tc v t1.
Hypothesis replayed : enacted t1 m t2.
Hypothesis again : ∀ j, is_Some (m0 !! j) → is_Some (m !! j).
(** What was replayed is what the log showed of the table, or what is on disk. *)
Hypothesis shown_log : ∀ j d, value_view w (vt_id t0) j = Some d → m !! j = Some d.
Hypothesis shown_disk : ∀ j d, m !! j = Some d → logged t0 j d ∧ (value_view w (vt_id t0) j = Some d ∨
  value_view w (vt_id t0) j = None ∧ ∃ tail, window t0 (vt_file t0) j = Ok (d ++ tail)).
Hypothesis left_log : ∀ j, value_view w' (vt_id t0) j = None.

Lemma opened_facts : table_wf t1 ∧ vt_id t1 = vt_id t0 ∧ (m !! 0 = None → header_of t1 = header_of t0) ∧
  (∀ j b, 0 ≤ j ≤ 2 ^ 48 → m !! j = None → window t0 (vt_file t0) j = Ok b → window t1 (vt_file t1) j = Ok b) ∧
  ∃ f fl lr, t1 = MkValueTable (vt_id t0) (entry_size t0) f fl lr false (multipart t0) (ref_counted t0) v.
Proof using wf0 crashed opened again.
  destruct crashed as [[f0 ->] Hok0 Hnew0 Hold0 Hhd0].
  assert (Hwfc : table_wf (set_vt_file f0 t0)) by (by destruct wf0).
  destruct (reopened_facts _ _ _ opened Hwfc Hok0) as (Hwf1 & _ & Hhd1 & Hid & Hw1 & _).
  assert (Hno : ∀ j, m !! j = None → m0 !! j = None).
  { intros j Hj. destruct (m0 !! j) eqn:E; [|done]. destruct (again j) as [x Hx]; [by rewrite E|congruence]. }
  split_and!; [done|done| | |exact (ro_table _ _ _ opened)].
  - intros Hm. rewrite Hhd1. by apply Hhd0, Hno.
  - intros j b Hj Hm Hb. rewrite Hw1. by apply Hold0; [|apply Hno|].
Qed.

Lemma replayed_header : is_u64 (last_removed t0) → is_u64 (filled t0) → filled t0 ≠ 0 → dirty_header t0 = false →
  header_shown t0 w → last_removed t0 = Header.last_removed (header_of t2) ∧
    filled t0 = if Header.filled (header_of t2) =? 0 then 1 else Header.filled (header_of t2).
Proof.
  intros Hl Hf Hf0 Hd [Hh|Hh]; [congruence|].
  destruct opened_facts as (Hwf1 & _ & Hhd1 & Hw1 & _).
  destruct replayed as [[f ->] Hok2 Hnew Hold Hhd]. pose proof replayed as Hen.
  destruct (m !! 0) as [d|] eqn:Em.
  - destruct (shown_disk 0 d Em) as [[[_ Hlen]|[? _]] Hs]; [|lia].
    rewrite (enacted_header _ _ _ _ Hwf1 Hen Em Hlen). destruct Hs as [Hs|[Hs [tail Ht]]]; rewrite Hs in Hh.
    + rewrite Hh. destruct (header_make (last_removed t0) (filled t0) Hl Hf) as (_ & -> & ->).
      split; [done|]. by destruct (Z.eqb_spec (filled t0) 0).
    + by rewrite <- (header_window t0 d tail wf0 Ht Hlen).
  - rewrite (Hhd eq_refl), (Hhd1 eq_refl). destruct (value_view w (vt_id t0) 0) as [d|] eqn:Ev; [|exact Hh].
    apply shown_log in Ev. congruence.
Qed.

Lemma replayed_slot j s : 1 ≤ j ≤ 2 ^ 48 → slot_is t0 w j s → ∃ rest, window t1 (vt_file t2) j = Ok (encode_slot s ++ rest).
Proof.
  intros Hj [Hw [rest Hs]]. destruct opened_facts as (_ & _ & _ & Hw1 & _).
  destruct replayed as [_ _ Hnew Hold _]. unfold slot_bytes in Hs.
  fold (window t0 (vt_file t0) j) in Hs. destruct (m !! j) as [d|] eqn:Em.
  - destruct (Hnew j d Em) as [tail Htail]. destruct (shown_disk j d Em) as [Hlg [Hv|[Hv [tl Ht]]]]; rewrite Hv in Hs.
    + injection Hs as ->. exists (rest ++ tail). by rewrite (assoc_L (++)).
    + destruct Hlg as [[? _]|(_ & s' & Hw' & ->)]; [lia|]. rewrite Ht in Hs. injection Hs as Hs.
      rewrite <- (encode_slot_prefix t0 s' s tl rest wf0 Hw' Hw Hs). by exists tail.
  - destruct (value_view w (vt_id t0) j) as [d|] eqn:Ev; [apply shown_log in Ev; congruence|].
    exists rest. apply Hold; [lia|done|]. apply Hw1; [lia|done|]. destruct (window t0 _ j); congruence.
Qed.

Lemma table_recovered : is_u64 (last_removed t0) → is_u64 (filled t0) → filled t0 ≠ 0 → dirty_header t0 = false →
  header_shown t0 w → ∃ t3, Table.refresh_metadata t2 = (Ok tt, t3) ∧ table_shows t0 w t3 w' ∧
    dirty_header t3 = false ∧ vt_file t3 = vt_file t2.
Proof.
  intros Hl Hf Hf0 Hd Hh. pose proof (replayed_header Hl Hf Hf0 Hd Hh) as [M1 M2].
  destruct opened_facts as (Hwf1 & Hid & Hhd1 & Hw1 & (f1 & fl & lr & E1)).
  pose proof replayed_slot as Hslot. pose proof replayed as [[f E2] Hok2 Hnew _ Hhd].
  destruct (refresh_metadata_spec t2) as (t3 & Hrun & [D1 D2] & E3); [subst t2; by destruct Hwf1|done| |].
  { intros Hnone. unfold disk_meta. rewrite Hhd.
    - pose proof (ro_meta _ _ _ opened) as Hm. by rewrite E2.
    - destruct (m !! 0) as [d|] eqn:Em; [|done]. destruct (Hnew 0 d Em) as [tail Ht]. unfold window, TableFile.read_at in Ht.
      by rewrite Hnone in Ht. }
  exists t3. split; [done|].
  assert (Eh : header_of t3 = header_of t2) by (by rewrite E3). rewrite Eh, <- M1 in D1. rewrite Eh, <- M2 in D2.
  assert (Et : t3 = with_file f false v t0).
  { by rewrite E3, D1, D2, E2, E1. }
  split_and!; [|by rewrite Et|by rewrite E3]. split.
  - by exists f, false, v.
  - rewrite E3. exact Hok2.
  - right. assert (Ei : vt_id t3 = vt_id t0) by (by rewrite Et). rewrite Ei, left_log.
    unfold disk_meta. by rewrite Eh, D1, D2.
  - intros j s Hj Hs. destruct (Hslot j s Hj Hs) as [rest Hr]. destruct Hs as [Hw _]. rewrite Et.
    split; [exact Hw|]. exists rest. unfold slot_bytes. change (vt_id (with_file f false v t0)) with (vt_id t0).
    rewrite left_log. rewrite E2, E1 in Hr. unfold window in Hr.
    change (TableFile.read_at f (esz t0) (wrap64 (j * entry_size t0)) = Ok (encode_slot s ++ rest)) in Hr.
    change (match TableFile.read_at f (esz t0) (wrap64 (j * entry_size t0)) with Ok b => Some b | _ => None end =
      Some (encode_slot s ++ rest)). by rewrite Hr.
Qed.

End Recovered.
End Table.

(** ** The entries of several records *)

Definition all_entries `{!HashMapOrder} (Q : list LogChange) : list LogEntry := concat (record_entries <$> Q).

Section Entries.
Context `{!HashMapOrder, !Crc32}.
Implicit Types (x : LogChange) (Q : list LogChange).

Lemma all_entries_snoc Q x : all_entries (Q ++ [x]) = all_entries Q ++ record_entries x.
Proof using Type. unfold all_entries. rewrite fmap_app, concat_app. cbn. by rewrite app_nil_r. Qed.

Lemma elem_all_entries e Q : e ∈ all_entries Q ↔ ∃ x, x ∈ Q ∧ e ∈ record_entries x.
Proof using Type.
  unfold all_entries. rewrite list_elem_of_In, in_concat. setoid_rewrite <- list_elem_of_In. split.
  - intros (es & Hes & He). apply list_elem_of_fmap in Hes as (x & -> & Hx). eauto.
  - intros (x & Hx & He). exists (record_entries x). split; [|done]. by apply list_elem_of_fmap_2.
Qed.

Lemma entries_of_app col es1 es2 : entries_of col (es1 ++ es2) = entries_of col es1 ++ entries_of col es2.
Proof using Type. unfold entries_of. apply filter_app. Qed.

(** *** Values *)

Lemma values_of_app id es1 es2 : ∀ j,
  values_of id (es1 ++ es2) !! j = match values_of id es2 !! j with Some d => Some d | None => values_of id es1 !! j end.
Proof using Type.
  induction es2 as [|e es2 IH] using rev_ind; intros j; [by rewrite app_nil_r|].
  rewrite (assoc_L (++)), !values_of_snoc. destruct e as [id' n m ch|id' n d|id']; cbn [put_value]; try apply IH.
  destruct (decide (id' = id)); [|apply IH]. rewrite !lookup_insert. destruct (decide _); [done|apply IH].
Qed.

Lemma values_of_record id x j : values_of id (entries_of (ValueTableId.col id) (record_entries x)) !! j =
  snd <$> overlay_lookup (local_values x) id j.
Proof using Type.
  destruct (values_of id _ !! j) as [d|] eqn:E.
  - apply values_of_in in E. apply list_elem_of_filter in E as [_ E].
    apply record_entries_value in E as [r ->]. done.
  - destruct (overlay_lookup (local_values x) id j) as [[r d]|] eqn:Eo; [|done].
    destruct (values_of_some id (entries_of (ValueTableId.col id) (record_entries x)) j d) as [d' Hd']; [|congruence].
    apply list_elem_of_filter. split; [done|]. apply record_entries_value. eauto.
Qed.

Lemma values_of_all id Q j : values_of id (entries_of (ValueTableId.col id) (all_entries Q)) !! j =
  snd <$> last_value id j Q.
Proof using Type.
  induction Q as [|x Q IH] using rev_ind; [done|].
  rewrite all_entries_snoc, entries_of_app, values_of_app, values_of_record, IH. unfold last_value.
  rewrite last_entry_snoc. by destruct (overlay_lookup (local_values x) id j) as [[]|].
Qed.

(** *** Chunks *)

Definition replay_chunk (id : IndexTableId) (n : Z) (c : Chunk) x : Chunk :=
  match overlay_lookup (local_index x) id n with
  | Some (_, mask, ch) => merge_chunk mask ch c
  | None => c
  end.
(** Chunk [n] after the records were replayed. *)
Definition replay_chunks (id : IndexTableId) (n : Z) (Q : list LogChange) (c : Chunk) : Chunk := foldl (replay_chunk id n) c Q.

(** The chunks of the records are chunks. *)
Definition chunks_ok (id : IndexTableId) (n : Z) (Q : list LogChange) : Prop :=
  ∀ x r mask ch, x ∈ Q → overlay_lookup (local_index x) id n = Some (r, mask, ch) → is_chunk ch.

Lemma replay_chunks_ok id n Q c : chunks_ok id n Q → is_chunk c → is_chunk (replay_chunks id n Q c).
Proof using Type.
  induction Q as [|x Q IH] using rev_ind; intros Hok Hc; [done|]. unfold replay_chunks. rewrite foldl_snoc.
  fold (replay_chunks id n Q c). assert (is_chunk (replay_chunks id n Q c)).
  { apply IH; [|done]. intros y r mask ch Hy. apply (Hok y). set_solver. }
  unfold replay_chunk. destruct (overlay_lookup (local_index x) id n) as [[[r mask] ch]|] eqn:E; [|done].
  apply merge_chunk_spec; [|done]. eapply (Hok x); [set_solver|done].
Qed.

Lemma chunk_after_record id n x c : (∀ r mask ch, overlay_lookup (local_index x) id n = Some (r, mask, ch) → is_chunk ch) →
  is_chunk c → chunk_after id n (entries_of (IndexTableId.col id) (record_entries x)) c = replay_chunk id n c x.
Proof using Type.
  intros Hok Hc. unfold replay_chunk.
  assert (Hin : ∀ mask ch, EIndex id n mask ch ∈ entries_of (IndexTableId.col id) (record_entries x) ↔
    ∃ r, overlay_lookup (local_index x) id n = Some (r, mask, ch)).
  { intros mask ch. unfold entries_of. rewrite list_elem_of_filter, record_entries_index. by split; [intros []|]. }
  destruct (overlay_lookup (local_index x) id n) as [[[r mask] ch]|] eqn:E.
  - apply chunk_after_one; [apply Hin; eauto| |by eapply Hok|done].
    intros id' n' m1 ch1 m2 ch2 [_ H1]%list_elem_of_filter [_ H2]%list_elem_of_filter.
    apply record_entries_index in H1 as [r1 H1], H2 as [r2 H2]. split; congruence.
  - apply chunk_after_none. intros mask ch [r Hr]%Hin. done.
Qed.

Lemma chunk_after_all id n Q c : chunks_ok id n Q → is_chunk c →
  chunk_after id n (entries_of (IndexTableId.col id) (all_entries Q)) c = replay_chunks id n Q c.
Proof using Type.
  induction Q as [|x Q IH] using rev_ind; intros Hok Hc; [done|].
  assert (HokQ : chunks_ok id n Q) by (intros y r mask ch Hy; apply (Hok y); set_solver).
  rewrite all_entries_snoc, entries_of_app. unfold chunk_after, replay_chunks. rewrite foldl_app, foldl_snoc.
  fold (chunk_after id n (entries_of (IndexTableId.col id) (all_entries Q)) c). rewrite IH by done.
  fold (replay_chunks id n Q c). apply chunk_after_record; [|by apply replay_chunks_ok].
  intros r mask ch. apply (Hok x). set_solver.
Qed.

(** Entry [j] of chunk [n] is in no mask of the records. *)
Definition untouched (id : IndexTableId) (n : Z) (j : nat) (Q : list LogChange) : Prop :=
  ∀ x r mask ch, x ∈ Q → overlay_lookup (local_index x) id n = Some (r, mask, ch) → Z.testbit mask (Z.of_nat j) = false.

Lemma untouched_last id n j Q : ∀ base, chunk_chain id n base Q → (j < CHUNK_ENTRIES)%nat → untouched id n j Q →
  read_entry (default base (snd <$> last_index id n Q)) j = read_entry base j.
Proof using Type.
  induction Q as [|x Q IH] using rev_ind; intros base Hch Hj Hun; [done|].
  assert (HunQ : untouched id n j Q) by (intros y r mask ch Hy; apply (Hun y); set_solver).
  pose proof (chunk_chain_mid id n Q x [] base Hch) as Hmid. apply chunk_chain_app in Hch as [HchQ _].
  unfold last_index. rewrite last_entry_snoc. destruct (overlay_lookup (local_index x) id n) as [[[r mask] ch]|] eqn:E.
  - cbn -[read_entry merge_chunk CHUNK_ENTRIES]. rewrite (Hmid _ _ _ eq_refl j Hj) by (eapply (Hun x); [set_solver|done]).
    by apply IH.
  - by apply IH.
Qed.

(** Replaying a chain gives its last chunk where it is touched, whatever the
    chunk was before. *)
Lemma replay_chunks_entry id n Q c base j : chunks_ok id n Q → is_chunk c → chunk_chain id n base Q →
  (j < CHUNK_ENTRIES)%nat →
  read_entry (replay_chunks id n Q c) j = read_entry (default base (snd <$> last_index id n Q)) j ∨
  (read_entry (replay_chunks id n Q c) j = read_entry c j ∧ untouched id n j Q).
Proof using Type.
  intros Hok Hc Hch Hj. induction Q as [|x Q IH] using rev_ind.
  { right. split; [done|]. by intros x r mask ch Hx%not_elem_of_nil. }
  assert (HokQ : chunks_ok id n Q) by (intros y r mask ch Hy; apply (Hok y); set_solver).
  pose proof (chunk_chain_mid id n Q x [] base Hch) as Hmid. apply chunk_chain_app in Hch as [HchQ _].
  specialize (IH HokQ HchQ). unfold replay_chunks. rewrite foldl_snoc. fold (replay_chunks id n Q c).
  pose proof (replay_chunks_ok id n Q c HokQ Hc) as Hr. unfold replay_chunk, last_index. rewrite last_entry_snoc.
  assert (Hsnoc : ∀ e, overlay_lookup (local_index x) id n = e →
    (∀ r mask ch, e = Some (r, mask, ch) → Z.testbit mask (Z.of_nat j) = false) →
    untouched id n j Q → untouched id n j (Q ++ [x])).
  { intros e <- He HQ y r mask ch [Hy| ->%list_elem_of_singleton]%elem_of_app; [by apply HQ|apply He]. }
  destruct (overlay_lookup (local_index x) id n) as [[[r mask] ch]|] eqn:E.
  - assert (Hchk : is_chunk ch) by (eapply (Hok x); [set_solver|done]).
    destruct (merge_chunk_spec mask ch _ Hchk Hr) as [_ He]. rewrite !He by done. cbn -[read_entry merge_chunk CHUNK_ENTRIES].
    destruct (Z.testbit mask (Z.of_nat j)) eqn:Eb; [by left|].
    destruct IH as [IH|[IH Hun]].
    + left. rewrite IH. symmetry. by apply (Hmid _ _ _ eq_refl).
    + right. split; [done|]. apply (Hsnoc _ eq_refl); [|done]. by intros ? ? ? [= -> -> ->].
  - destruct IH as [IH|[IH Hun]]; [by left|]. right. split; [done|]. by apply (Hsnoc _ eq_refl).
Qed.

(** Entries that the records do not touch stay. *)
Lemma chunk_after_untouched id n j es c : (j < CHUNK_ENTRIES)%nat → is_chunk c →
  (∀ mask ch, EIndex id n mask ch ∈ es → is_chunk ch ∧ Z.testbit mask (Z.of_nat j) = false) →
  is_chunk (chunk_after id n es c) ∧ read_entry (chunk_after id n es c) j = read_entry c j.
Proof using Type.
  intros Hj Hc. induction es as [|e es IH] using rev_ind; intros Hes; [done|].
  destruct IH as [IH1 IH2]; [intros mask ch He; apply (Hes mask ch); set_solver|].
  rewrite chunk_after_snoc. destruct (put_chunk_cases id n (chunk_after id n es c) e) as [[-> _]|(mask & ch & -> & ->)]; [done|].
  destruct (Hes mask ch) as [Hch Hb]; [set_solver|]. destruct (merge_chunk_spec mask ch _ Hch IH1) as [Hm He].
  split; [done|]. by rewrite He, Hb.
Qed.

End Entries.

(** ** A column *)

Lemma each_table_ok (m : ST ValueTable unit) l : (∀ t, t ∈ l → ∃ t', m t = (Ok tt, t')) →
  each_table m l = (Ok tt, (fun t => (m t).2) <$> l).
Proof.
  induction l as [|t l IH]; intros Hl; [done|]. cbn [each_table fmap list_fmap].
  destruct (Hl t) as [t' E]; [by left|]. rewrite E, IH by (intros t1 Ht1; apply Hl; by right). done.
Qed.

(** [c1] was opened on the files of [cc]. *)
Record col_reopened (cc : HashColumn) (v : Z) (c1 : HashColumn) : Prop := {
  rc_col : hc_col c1 = hc_col cc;
  rc_rc : hc_ref_counted c1 = hc_ref_counted cc;
  rc_compression : hc_compression c1 = hc_compression cc;
  rc_queue : hc_queue c1 = [];
  rc_index : hc_index c1 = hc_index cc;
  rc_len : length (hc_values c1) = length (hc_values cc);
  rc_tables : ∀ i t, hc_values cc !! i = Some t → ∃ t1, hc_values c1 !! i = Some t1 ∧ reopened t v t1;
}.

Section Column.
Context `{!Uninit, !Codecs, !CodecLaws, !HashMapOrder, !Crc32}.
Context (i : nat) (c cc c1 c2 : HashColumn) (v : Z) (lg : LogFiles) (E P : list LogChange) (M : KV) (es : list LogEntry).
Context (o' : LogOverlays) (rid' : Z).
Abbreviation w := (LogWriter.new (lg_overlays lg) 0).
Abbreviation w' := (LogWriter.new o' rid').
Abbreviation col := (hc_col c).
Abbreviation iid := (it_id (hc_index c)).
Hypothesis at_c : column_at i c.
Hypothesis repr : col_repr c w M.
Hypothesis in_log : log_pending lg E P.
Hypothesis pending : column_pending c E P.
Hypothesis clean : headers_clean c.
(** When the process died some entries of pending records had been enacted. *)
Hypothesis es_pending : ∀ e, e ∈ es → ∃ x, x ∈ P ∧ e ∈ record_entries x.
Hypothesis crashed : col_enacted c (entries_of col es) cc.
Hypothesis opened : col_reopened cc v c1.
Hypothesis replayed : col_enacted c1 (entries_of col (all_entries (E ++ P))) c2.
Hypothesis no_value : ∀ id n, value_view w' id n = None.
Hypothesis no_index : ∀ id n, index_view w' id n = None.

Lemma view_last id n : value_view w id n = snd <$> last_value id n P.
Proof. unfold value_view. cbn. by rewrite (lp_value _ _ _ in_log). Qed.
Lemma index_view_last id n : index_view w id n = snd <$> last_index id n P.
Proof. unfold index_view. cbn. by rewrite (lp_index _ _ _ in_log). Qed.

(** *** The index *)

Lemma all_chunks_ok n : chunks_ok iid n (E ++ P).
Proof.
  intros x r mask ch Hx Hl. eapply (cp_index _ _ _ pending); [exact Hx| |exact Hl].
  by rewrite (ca_index _ _ at_c), (ca_col _ _ at_c).
Qed.

Lemma map_ok n : is_chunk (map_chunk (hc_index c) n).
Proof. apply map_chunk_ok, (ca_wf _ _ at_c). Qed.

Lemma recovered_chunk n : map_chunk (hc_index c2) n =
  default (map_chunk (hc_index c) n) (snd <$> last_index iid n P).
Proof.
  assert (Hcol : IndexTableId.col iid = col) by (by rewrite (ca_index _ _ at_c), (ca_col _ _ at_c)).
  pose proof (map_ok n) as Hmap. set (Q := E ++ P).
  assert (Hes : ∀ mask ch, EIndex iid n mask ch ∈ entries_of col es →
    is_chunk ch ∧ ∃ x r, x ∈ Q ∧ overlay_lookup (local_index x) iid n = Some (r, mask, ch)).
  { intros mask ch [_ He]%list_elem_of_filter. destruct (es_pending _ He) as (x & Hx & [r Hr]%record_entries_index).
    split; [eapply all_chunks_ok; [|exact Hr]; apply elem_of_app; by right|]. exists x, r. split; [|done].
    apply elem_of_app. by right. }
  assert (Hc1 : map_chunk (hc_index c1) n = chunk_after iid n (entries_of col es) (map_chunk (hc_index c) n)).
  { rewrite (rc_index _ _ _ opened). apply (cn_chunk _ _ _ crashed). }
  assert (Hidx : it_id (hc_index c1) = iid) by (rewrite (rc_index _ _ _ opened); apply (cn_index _ _ _ crashed)).
  assert (Hok1 : is_chunk (map_chunk (hc_index c1) n)).
  { rewrite Hc1. apply chunk_after_ok; [|done]. intros mask ch He. by apply (Hes mask ch He). }
  rewrite (cn_chunk _ _ _ replayed), Hidx, <- Hcol, chunk_after_all by (done || apply all_chunks_ok).
  destruct (cp_chain _ _ _ pending n) as (base & Hch & Hm). fold Q in Hch |- *.
  assert (Htarget : default (map_chunk (hc_index c) n) (snd <$> last_index iid n P) =
    default base (snd <$> last_index iid n Q)).
  { rewrite Hm. unfold Q, last_index. rewrite last_entry_app. by destruct (last_entry _ P). }
  assert (Htok : is_chunk (default base (snd <$> last_index iid n Q))).
  { rewrite <- Htarget. destruct (last_index iid n P) as [[[r mask] ch]|] eqn:El; [|done].
    apply last_entry_in in El as (x & Hx & Hl). eapply all_chunks_ok; [|exact Hl]. apply elem_of_app. by right. }
  rewrite Htarget. apply chunk_ext; [apply replay_chunks_ok; [apply all_chunks_ok|done]|done|]. intros j Hj.
  destruct (replay_chunks_entry iid n Q _ base j (all_chunks_ok n) Hok1 Hch Hj) as [?|[-> Hun]]; [done|].
  rewrite (untouched_last iid n j Q base Hch Hj Hun), Hc1.
  destruct (chunk_after_untouched iid n j (entries_of col es) _ Hj Hmap) as [_ ->].
  { intros mask ch He. destruct (Hes mask ch He) as (? & x & r & Hx & Hl). split; [done|]. by eapply Hun. }
  rewrite Hm. apply (untouched_last iid n j E); [|done|].
  - unfold Q in Hch. by apply chunk_chain_app in Hch as [? _].
  - intros x r mask ch Hx. apply Hun. apply elem_of_app. by left.
Qed.

(** *** The tables *)

Lemma recovered_table k t0 : hc_values c !! k = Some t0 → ∃ t1 t2 t3, hc_values c1 !! k = Some t1 ∧
  hc_values c2 !! k = Some t2 ∧ Table.refresh_metadata t2 = (Ok tt, t3) ∧ table_shows t0 w t3 w' ∧
  dirty_header t3 = false ∧ vt_file t3 = vt_file t2 ∧
  ∀ n r d, last_value (vt_id t0) n (E ++ P) = Some (r, d) → ∃ tail, window t3 (vt_file t3) n = Ok (d ++ tail).
Proof.
  intros Hk. destruct (cn_tables _ _ _ crashed _ _ Hk) as (tc & Htc & Hcr).
  destruct (rc_tables _ _ _ opened _ _ Htc) as (t1 & Ht1 & Hop).
  destruct (cn_tables _ _ _ replayed _ _ Ht1) as (t2 & Ht2 & Hre).
  destruct (table_id_u16 _ _ _ _ at_c Hk) as [_ Hcol].
  assert (Hid : vt_id t1 = vt_id t0).
  { destruct (ro_table _ _ _ Hop) as (f & fl & lr & ->). cbn. by destruct (en_table _ _ _ Hcr) as [f0 ->]. }
  assert (Hm : ∀ j, values_of (vt_id t1) (entries_of col (all_entries (E ++ P))) !! j = snd <$> last_value (vt_id t0) j (E ++ P)).
  { intros j. rewrite Hid, <- Hcol. apply values_of_all. }
  destruct repr as (SS & [I1 I2 _ _ _ _] & _).
  assert (Hlt : (k < SIZE_TIERS)%nat) by (rewrite <- (tb_len _ _ _ _ _ _ I2); by eapply lookup_lt_Some).
  destruct (tables_lookup _ _ _ I1 _ _ _ k I2 Hlt) as (t0' & m0 & Ht0' & _ & (free & vals & Hr & _)). simplify_eq.
  pose proof (r_filled _ _ _ _ Hr) as Hfl.
  destruct (table_recovered t0 tc v w w' (values_of (vt_id t0) (entries_of col es))
    (values_of (vt_id t1) (entries_of col (all_entries (E ++ P)))) t1 t2 (r_wf _ _ _ _ Hr) Hcr Hop Hre) as
    (t3 & Hrun & Hsh & Hd3 & Hf3).
  - intros j [d Hd]. apply values_of_in in Hd. apply list_elem_of_filter in Hd as [_ Hd].
    destruct (es_pending _ Hd) as (x & Hx & [r Hl]%record_entries_value). rewrite Hm.
    destruct (last_value (vt_id t0) j (E ++ P)) eqn:El; [by eexists|].
    eapply last_entry_none in El; [|apply elem_of_app; right; exact Hx]. cbn in El. congruence.
  - intros j d. rewrite view_last, Hm. unfold last_value. rewrite last_entry_app.
    by destruct (last_entry _ P) as [[]|].
  - intros j d. rewrite Hm, view_last. intros Hd. destruct (last_value (vt_id t0) j (E ++ P)) as [[r d']|] eqn:El; [|done].
    injection Hd as ->. destruct (cp_last_value _ _ _ _ _ _ _ pending Hcol El) as (k' & t' & Hk' & Hid' & Hn & Hlg).
    assert (k' = k) as ->.
    { rewrite (ca_ids _ _ at_c _ _ Hk), (ca_ids _ _ at_c _ _ Hk') in Hid'.
      apply (table_id_inj _ (ca_u8 _ _ at_c)) in Hid'; [done| |done].
      rewrite <- (ca_len _ _ at_c). by eapply lookup_lt_Some. }
    simplify_eq. split; [done|]. unfold last_value in El |- *. rewrite last_entry_app in El.
    destruct (last_entry _ P) as [[r' d'']|] eqn:EP in El |- *; [left; by injection El as -> ->|right]. split; [done|].
    by eapply (cp_shown _ _ _ pending).
  - apply no_value.
  - by eapply repr_last_u64.
  - unfold is_u64. lia.
  - lia.
  - by eapply clean.
  - by eapply (tb_header _ _ _ _ _ _ I2).
  - exists t1, t2, t3. split_and!; try done. intros n r d Hl. destruct (en_new _ _ _ Hre n d) as [tail Ht].
    { by rewrite Hm, Hl. }
    exists tail. rewrite Hf3, (window_size t1 t3); [done|].
    destruct (th_table _ _ _ _ Hsh) as (f & b & v' & ->), (ro_table _ _ _ Hop) as (f1 & fl & lr & ->).
    by destruct (en_table _ _ _ Hcr) as [f0 ->].
Qed.

(** *** The whole column *)

Lemma column_recovered : ∃ c3, column_refresh_metadata c2 = (Ok tt, c3) ∧ col_repr c3 w' M ∧
  column_pending c3 (E ++ P) [] ∧ headers_clean c3 ∧ ∃ vs, c3 = set_hc_values vs c2.
Proof.
  set (f := fun t => (Table.refresh_metadata t).2). set (c3 := set_hc_values (f <$> hc_values c2) c2).
  assert (Hlen : length (hc_values c2) = length (hc_values c)).
  { by rewrite (cn_len _ _ _ replayed), (rc_len _ _ _ opened), (cn_len _ _ _ crashed). }
  assert (Hcol : IndexTableId.col iid = col) by (by rewrite (ca_index _ _ at_c), (ca_col _ _ at_c)).
  assert (Hid : it_id (hc_index c2) = iid).
  { rewrite (cn_index _ _ _ replayed), (rc_index _ _ _ opened). apply (cn_index _ _ _ crashed). }
  assert (Hback : ∀ k t2, hc_values c2 !! k = Some t2 → ∃ t0, hc_values c !! k = Some t0).
  { intros k t2 Hk. apply lookup_lt_is_Some_2. rewrite <- Hlen. by eapply lookup_lt_Some. }
  assert (Htab : ∀ k t0, hc_values c !! k = Some t0 → ∃ t3, hc_values c3 !! k = Some t3 ∧ table_shows t0 w t3 w' ∧
    dirty_header t3 = false ∧
    ∀ n r d, last_value (vt_id t0) n (E ++ P) = Some (r, d) → ∃ tail, window t3 (vt_file t3) n = Ok (d ++ tail)).
  { intros k t0 Hk. destruct (recovered_table k t0 Hk) as (t1 & t2 & t3 & _ & Ht2 & Hrun & Hsh & Hd & _ & Hw).
    exists t3. split_and!; [|done..]. unfold c3. cbn [hc_values set_hc_values]. rewrite list_lookup_fmap, Ht2. cbn. unfold f.
    by rewrite Hrun. }
  assert (Hconf : hc_col c2 = col ∧ hc_ref_counted c2 = hc_ref_counted c ∧ hc_compression c2 = hc_compression c ∧ hc_queue c2 = []).
  { destruct (cn_same _ _ _ replayed) as (vs & idx & ->), (cn_same _ _ _ crashed) as (vs' & idx' & Ec).
    destruct opened as [O1 O2 O3 O4 _ _ _]. rewrite Ec in O1, O2, O3. done. }
  destruct Hconf as (K1 & K2 & K3 & K4).
  assert (Hq : hc_queue c = []) by (by destruct repr as (SS & [] & _)).
  exists c3. split_and!.
  - unfold column_refresh_metadata. rewrite each_table_ok; [done|]. intros t2 [k Hk]%list_elem_of_lookup.
    destruct (Hback _ _ Hk) as [t0 Ht0]. destruct (recovered_table k t0 Ht0) as (t1 & t2' & t3 & _ & Ht2 & Hrun & _).
    simplify_eq. by exists t3.
  - apply (col_repr_shows c w); [exact repr|]. split; unfold c3; cbn [hc_col hc_ref_counted hc_compression hc_queue hc_values hc_index set_hc_values]; try done.
    + by rewrite K4.
    + by rewrite length_fmap.
    + intros k t0 Hk. destruct (Htab k t0 Hk) as (t3 & Ht3 & Hsh & _). by exists t3.
    + apply (cn_map _ _ _ replayed).
    + intros n ch. by rewrite no_index.
    + intros n. rewrite !default_chunk_view, no_index, index_view_last. apply recovered_chunk.
  - split; unfold c3; cbn [hc_col hc_index hc_values set_hc_values]; rewrite ?Hid, ?app_nil_r.
    + intros x id n r d Hx Hc Hl. destruct (cp_value _ _ _ pending x id n r d Hx ltac:(congruence) Hl) as (k & t0 & Hk & Hi & Hn & Hlg).
      destruct (Htab k t0 Hk) as (t3 & Ht3 & Hsh & _). exists k, t3. destruct (th_table _ _ _ _ Hsh) as (f1 & b & v' & ->).
      split_and!; [done|done|lia|lia|]. by eapply logged_size.
    + intros x id n r mask ch Hx Hc. eapply (cp_index _ _ _ pending); [done|congruence].
    + intros n. destruct (cp_chain _ _ _ pending n) as (base & Hch & Hm). exists base. split; [done|].
      rewrite recovered_chunk, Hm. unfold last_index. rewrite last_entry_app. by destruct (last_entry _ P).
    + intros k t3 n r d Ht3 Hc _ Hl. destruct (lookup_lt_is_Some_2 (hc_values c) k) as [t0 Hk].
      { apply lookup_lt_Some in Ht3. by rewrite length_fmap, Hlen in Ht3. }
      destruct (Htab k t0 Hk) as (t3' & Ht3' & Hsh & _ & Hw). unfold c3 in Ht3'. cbn [hc_values set_hc_values] in Ht3'. simplify_eq.
      apply (Hw n r). destruct (th_table _ _ _ _ Hsh) as (f1 & b & v' & ->). exact Hl.
    + apply (cn_stats _ _ _ replayed). rewrite (rc_index _ _ _ opened). apply (cn_stats _ _ _ crashed), (cp_stats _ _ _ pending).
    + unfold bits. rewrite Hid. destruct (cp_mapped _ _ _ pending) as [Hmin [Hmp|Hb]]; (split; [exact Hmin|]); [left|by right].
      apply (cn_mapped _ _ _ replayed). rewrite (rc_index _ _ _ opened). by apply (cn_mapped _ _ _ crashed).
  - intros k t3 Ht3. destruct (lookup_lt_is_Some_2 (hc_values c) k) as [t0 Hk].
    { apply lookup_lt_Some in Ht3. unfold c3 in Ht3. cbn [hc_values set_hc_values] in Ht3. by rewrite length_fmap, Hlen in Ht3. }
    destruct (Htab k t0 Hk) as (t3' & Ht3' & _ & Hd & _). by simplify_eq.
  - by eexists.
Qed.

End Column.
