(* ===== verification/ColumnThms.v ===== *)
(** * Theorems about hash columns

    What a database relies on in [HashColumn] (src/src/column.rs): a record of
    writes is an update of a map from keys to values, and a new column is the
    empty map. *)

From S2P Require Import Prelude.
From S2P Require Import Bytes.
From S2P Require Import Ids.
From S2P Require Import Log.
From S2P Require Import Table.
From S2P Require Import TableStore.
From S2P Require Import Instances.
From S2P Require Import Index.
From S2P Require Import IndexProofs.
From S2P Require Import Compress.
From S2P Require Import Stats.
From S2P Require Import Options.
From S2P Require Import Column.
From S2P Require Import HashColumn.
From S2P Require Import ColumnTables.
From S2P Require Import ColumnLinks.
From S2P Require Import ColumnValues.
From S2P Require Import ColumnMap.
From S2P Require Import ColumnSession.
From S2P Require Import ColumnOpen.
From stdpp Require Import options.
#[local] Set Default Proof Using "All".

(** ** Claims *)

(** C7. A record of writes: on a column that represents the map [M], any
    sequence of writes for which the tables and the index have room, followed by
    [complete_plan], succeeds without a reindex; the column then represents the
    map in which each write was made (values replaced, kept in a preimage
    column, counted in a reference counted column, removed with their last
    reference), and [get] returns the value of every key. *)
Theorem column_record_refines `{!Uninit, !Codecs, !CodecLaws} (c : HashColumn) (w : LogWriter)
    (M : KV) (l : list Change) :
  col_repr c w M → Forall (fun '(key, val) => is_key key ∧ value_ok c val) l →
  free_entries c w (length l) → changes_room c l →
  ∃ os c' w', write_record l (c, w) = (Ok os, (c', w')) ∧ (NeedReindex ∉ os) ∧
    let M' := kv_writes (hc_ref_counted c) (hc_preimage c) M l in
    col_repr c' w' M' ∧
    ∀ key, is_key key → ∃ c2, column_get key w' c' = (Ok (fst <$> M' key), c2) ∧ col_repr c2 w' M'.
Proof.
  intros HM Hok Hfree Hroom.
  destruct (write_plans_ok l c w M HM Hok Hfree Hroom) as (os & c1 & w1 & Hrun & Hos & HM1 & Hsc).
  destruct (complete_plan_ok c1 w1 _ HM1) as (c2 & w2 & Hrun2 & HM2 & Hsc2).
  exists os, c2, w2. split; [|split; [done|split; [done|]]].
  - unfold write_record. erewrite ST_bind_Ok by exact Hrun. by erewrite ST_bind_Ok by exact Hrun2.
  - intros key Hk. destruct (column_get_ok c2 w2 _ key HM2 Hk) as (c3 & Hg & Hsc3 & Hv).
    exists c3. split; [done|]. by eapply col_repr_same.
Qed.

(** A new column: without files, opening succeeds for every column of the
    metadata, with the entry sizes of all tiers accepted; the column represents
    the empty map, every chunk of its index is free and every table is empty. *)
Theorem column_open_empty `{!Uninit, !Codecs} (col : ColId) (collect : bool) (meta : Metadata)
    (options : ColumnOptions) (rid : Z) :
  is_u8 col → meta_columns meta !! Z.to_nat col = Some options →
  ∃ c, open_hash (fun _ => None) (fun _ => None) col collect meta = Ok c ∧
    col_repr c (LogWriter.new empty_overlays rid) (fun _ => None) ∧
    free_entries c (LogWriter.new empty_overlays rid) CHUNK_ENTRIES ∧
    Forall (fun t => filled t = 1) (hc_values c) ∧
    hc_ref_counted c = ref_counted_opt options ∧ hc_preimage c = preimage options.
Proof.
  intros Hu Ho. eexists. split; [by apply open_hash_new|]. split_and!; try done.
  - by apply new_column_repr.
  - apply new_column_free.
  - apply Forall_lookup. intros i t. apply new_column_filled.
Qed.

(** ** The theorems at a concrete column *)

#[local] Existing Instances zero_uninit.

(** Codecs that store what they are given. *)
Definition stored_codecs : Codecs := {|
  lz4_block_compress := Some; lz4_block_decompress := Some;
  snap_encode := id; snap_decode := Some;
|}.
#[local] Existing Instance stored_codecs.

Lemma stored_codec_laws : CodecLaws.
Proof. split; [by intros b c [= ->]|done]. Qed.

Definition rc_options : ColumnOptions := MkColumnOptions true false true Lz4 4096 false.
Definition rc_column : HashColumn := new_column 3 true rc_options (replicate 32 x00) 7.
Definition new_log : LogWriter := LogWriter.new empty_overlays 1.

(** Two references to one value, then one is dropped; a second key comes and
    goes. *)
Definition some_changes : list Change :=
  [(replicate 32 x07, Some [x01; x02]); (replicate 32 x07, Some [x01; x02]);
   (replicate 32 x08, Some [x03]); (replicate 32 x07, None); (replicate 32 x08, None)].

Lemma column_record_refines_witness :
  ∃ os c' w', write_record some_changes (rc_column, new_log) = (Ok os, (c', w')) ∧
    (∃ c2, column_get (replicate 32 x07) w' c' = (Ok (Some [x01; x02]), c2)) ∧
    (∃ c2, column_get (replicate 32 x08) w' c' = (Ok None, c2)).
Proof.
  destruct (column_record_refines (H1 := stored_codec_laws) rc_column new_log (fun _ => None) some_changes) as
    (os & c' & w' & Hrun & _ & _ & Hget).
  - by apply new_column_repr.
  - repeat constructor; try done; by eexists.
  - intros ci. etrans; [|apply (new_column_free 3 true rc_options (replicate 32 x00) 7 1 ci)].
    apply Nat.leb_le. reflexivity.
  - intros i t Hi. rewrite (new_column_filled 3 true rc_options (replicate 32 x00) 7 i t Hi).
    split; apply Z.leb_le; vm_compute; reflexivity.
  - exists os, c', w'. split; [exact Hrun|]. split.
    + destruct (Hget (replicate 32 x07) eq_refl) as (c2 & Hg & _). exists c2. rewrite Hg. reflexivity.
    + destruct (Hget (replicate 32 x08) eq_refl) as (c2 & Hg & _). exists c2. rewrite Hg. reflexivity.
Defined.

Lemma column_open_empty_witness :
  ∃ c, open_hash (fun _ => None) (fun _ => None) 0 true (MkMetadata (replicate 32 x00) 7 [rc_options]) = Ok c ∧
    hc_ref_counted c = true.
Proof.
  destruct (column_open_empty 0 true (MkMetadata (replicate 32 x00) 7 [rc_options]) rc_options 1) as
    (c & Ho & _ & _ & _ & Hrc & _).
  - by split.
  - reflexivity.
  - exists c. split; [exact Ho|exact Hrc].
Defined.
