(* ===== verification/ColumnReindex.v ===== *)
(** * Reindexing of hash columns

    [HashColumn::reindex], [write_reindex_plan] and [validate_plan]
    (src/src/column.rs): which entries a batch moves, and what happens when the
    new index has no room either. *)

From S2P Require Import Prelude.
From S2P Require Import Bytes.
From S2P Require Import Ids.
From S2P Require Import Log.
From S2P Require Import Table.
From S2P Require Import Instances.
From S2P Require Import Index.
From S2P Require Import IndexProofs.
From S2P Require Import IndexThms.
From S2P Require Import Compress.
From S2P Require Import Stats.
From S2P Require Import Column.
From S2P Require Import HashColumn.
From stdpp Require Import options.
#[local] Set Default Proof Using "Type*".

(** The key prefix that a reindex works with: the first 50 bits, then zeros. *)
Definition recovered_key (k : Z) : Key := be_encode 8 (key50 k * 2 ^ 14) ++ replicate (KEY_SIZE - 8) x00.

Section Entries.
Context {L} `{LogView L} (t : IndexTable) (log : L).
Hypothesis Hwf : index_wf t log.
Abbreviation total := (IndexTableId.total_chunks (it_id t)).
Abbreviation entry ci j := (read_entry (default EMPTY_CHUNK (chunk_view t log ci)) j).

Lemma partial_key_range e : is_u64 (IEntry.as_u64 e) → 0 ≤ IEntry.partial_key (bits t) e < 2 ^ (50 - bits t).
Proof.
  pose proof (iw_bits _ _ Hwf) as Hb. unfold is_u64. intros He. unfold IEntry.partial_key, shr64.
  rewrite address_bits_ok by done. unfold bits_ok in Hb. rewrite Z.mod_small by lia.
  unfold IEntry.as_u64 in He. rewrite Z.shiftr_div_pow2 by lia.
  split; [apply Z.div_pos; lia|]. apply Z.div_lt_upper_bound; [lia|].
  rewrite <- Z.pow_add_r by lia. replace (bits t + 14 + (50 - bits t)) with 64 by lia. lia.
Qed.

(** Every entry of the index belongs to a key prefix. *)
Lemma entry_owner ci j : 0 ≤ ci < total → (j < CHUNK_ENTRIES)%nat →
  IEntry.is_empty (entry ci j) = false →
  ∃ k, is_u64 k ∧ chunk_index t k = ci ∧
    lookup_at t log k j = Some (IEntry.address (bits t) (entry ci j)) ∧
    recover_key_prefix t ci (entry ci j) = recovered_key k.
Proof.
  intros Hci Hj He. pose proof (iw_bits _ _ Hwf) as Hb. set (e := entry ci j) in *.
  pose proof (partial_key_range e ltac:(apply read_entry_u64)) as Hpk.
  set (pk := IEntry.partial_key (bits t) e) in *. set (k := (ci * 2 ^ (50 - bits t) + pk) * 2 ^ 14).
  rewrite total_chunks_pow in Hci by done. pose proof Hb as [Hb0 Hb1].
  assert (Hp : 2 ^ (64 - bits t) = 2 ^ (50 - bits t) * 2 ^ 14)
    by (rewrite <- Z.pow_add_r by lia; f_equal; lia).
  assert (Hk : is_u64 k).
  { unfold is_u64, k. assert (H64 : 2 ^ 64 = 2 ^ bits t * (2 ^ (50 - bits t) * 2 ^ 14))
      by (rewrite <- !Z.pow_add_r by lia; f_equal; lia). rewrite H64. nia. }
  assert (Hc : chunk_index t k = ci).
  { rewrite chunk_index_div, Hp by done. unfold k. rewrite Z.mul_comm, (Z.mul_comm (2 ^ (50 - bits t))).
    rewrite Z.div_mul_cancel_l by lia. rewrite Z.div_add_l by lia. rewrite Z.div_small by lia. lia. }
  assert (Hx : IEntry.extract_key k (bits t) = pk).
  { assert (H50 : key50 k = ci * 2 ^ (50 - bits t) + pk) by (unfold k, key50; by rewrite Z.div_mul).
    rewrite (key50_split t) in H50 by done. rewrite Hc in H50. lia. }
  exists k. split_and!; [done|done| |].
  - unfold lookup_at, entry_at. rewrite Hc. fold e. rewrite He, (proj2 (Nat.ltb_lt _ _) Hj).
    fold pk. by rewrite Hx, Z.eqb_refl.
  - rewrite <- Hc. apply recover_key_prefix_ok; [done|done|]. by rewrite Hx.
Qed.

(** The entries that a chunk contributes. *)
Lemma chunk_moves_elem ci key a : 0 ≤ ci < total →
  (key, a) ∈ chunk_moves t ci (transmute_chunk (default EMPTY_CHUNK (chunk_view t log ci))) ↔
  ∃ k j, is_u64 k ∧ chunk_index t k = ci ∧ lookup_at t log k j = Some a ∧ key = recovered_key k.
Proof.
  intros Hci. unfold chunk_moves, transmute_chunk. rewrite list_elem_of_fmap. split.
  - intros (e & [= -> ->] & [He Hin]%list_elem_of_filter).
    apply list_elem_of_fmap in Hin as (j & -> & Hj%elem_of_seq).
    destruct (entry_owner ci j Hci ltac:(lia) He) as (k & Hk & Hc & Hl & Hr). by exists k, j.
  - intros (k & j & Hk & Hc & Hl & ->). apply lookup_at_Some in Hl as (Hj & He & Hp & ->).
    unfold entry_at in *. rewrite Hc in *. exists (entry ci j). split.
    + f_equal. rewrite <- Hc. rewrite <- Hc in Hp. symmetry. apply recover_key_prefix_ok; [apply Hwf|done|done].
    + apply list_elem_of_filter. split; [done|]. apply list_elem_of_fmap. exists j. split; [done|].
      apply elem_of_seq. lia.
Qed.

(** The moves of the chunks from [p] up to [q]. *)
Definition moves (p q : Z) : list (Key * Address) :=
  concat ((fun ci => chunk_moves t ci (transmute_chunk (default EMPTY_CHUNK (chunk_view t log ci))))
    <$> seqZ p (q - p)).

Lemma moves_elem p q key a : 0 ≤ p → q ≤ total →
  (key, a) ∈ moves p q ↔
  ∃ k j, is_u64 k ∧ p ≤ chunk_index t k < q ∧ lookup_at t log k j = Some a ∧ key = recovered_key k.
Proof.
  intros Hp Hq. unfold moves. rewrite list_elem_of_In, in_concat. split.
  - intros (x & Hx & Hin). apply list_elem_of_In in Hx, Hin.
    apply list_elem_of_fmap in Hx as (ci & -> & Hci%elem_of_seqZ).
    apply chunk_moves_elem in Hin as (k & j & Hk & Hc & Hl & ->); [|lia]. exists k, j. split_and!; [done|lia|lia|done|done].
  - intros (k & j & Hk & Hc & Hl & ->).
    eexists. split.
    + apply list_elem_of_In, list_elem_of_fmap. exists (chunk_index t k). split; [reflexivity|].
      apply elem_of_seqZ. lia.
    + apply list_elem_of_In, chunk_moves_elem; [lia|]. by exists k, j.
Qed.

Lemma moves_step p q : p < q →
  moves p q = chunk_moves t p (transmute_chunk (default EMPTY_CHUNK (chunk_view t log p))) ++ moves (p + 1) q.
Proof.
  intros Hlt. unfold moves. rewrite seqZ_cons by lia. cbn [fmap list_fmap concat].
  by replace (q - (p + 1)) with (Z.pred (q - p)) by lia.
Qed.

Lemma reindex_loop_ok fuel : ∀ p plan, 0 ≤ p ≤ total → total - p < Z.of_nat fuel →
  ∃ q, reindex_loop fuel t log p plan = Ok (q, plan ++ moves p q) ∧ p ≤ q ≤ total ∧
    (q < total → (MAX_REINDEX_BATCH ≤ length (plan ++ moves p q))%nat) ∧
    (p < total → (length plan < MAX_REINDEX_BATCH)%nat → p < q).
Proof.
  assert (Hnil : ∀ p, moves p p = []) by (intros p; unfold moves; by rewrite Z.sub_diag).
  induction fuel as [|fuel IH]; intros p plan Hp Hf; [lia|]. cbn [reindex_loop].
  destruct (Z.ltb_spec p total) as [Hlt|Hge]; cbn [andb];
    [destruct (Nat.ltb_spec (length plan) MAX_REINDEX_BATCH) as [Hl|Hl]|].
  - unfold entries. rewrite current_chunk_ok, !outcome_bind_Ok by done.
    destruct (IH (p + 1) (plan ++ chunk_moves t p
      (transmute_chunk (default EMPTY_CHUNK (chunk_view t log p)))) ltac:(lia) ltac:(lia)) as
      (q & E & Hq & Hn & Hpr). exists q. rewrite E.
    rewrite (moves_step p q) by lia. rewrite (assoc (++)). split_and!; [done|lia|lia| |lia].
    intros Hqt. by apply Hn.
  - exists p. rewrite Hnil, app_nil_r. split_and!; [done|lia|lia|done|lia].
  - exists p. rewrite Hnil, app_nil_r. split_and!; [done|lia|lia|lia|lia].
Qed.

End Entries.

(** ** Claims *)

(** C34. A reindex batch: [reindex] always returns; the batch holds the address
    of every entry of the chunks it passed, under the first 50 bits of its key,
    and nothing else. It stops before the last chunk only when the batch is
    full, makes progress on every call that is not at the end, and asks to drop
    the old index exactly when it reaches the end. *)
Theorem column_reindex_batch {L} `{LogView L} (c : HashColumn) (log : L) (source : IndexTable)
    (queue : list IndexTable) :
  hc_queue c = source :: queue → index_wf source log →
  let total := IndexTableId.total_chunks (it_id source) in
  let p := hc_progress c in
  0 ≤ p ≤ total →
  ∃ b q, column_reindex log c = (Ok b, set_hc_reindex (hc_queue c) q c) ∧
    p ≤ q ≤ total ∧ (p < total → p < q) ∧
    (q < total → (MAX_REINDEX_BATCH ≤ length (batch b))%nat) ∧
    drop_index_id b = (if decide (p < q ∧ q = total) then Some (it_id source) else None) ∧
    ∀ key a, (key, a) ∈ batch b ↔
      ∃ k j, is_u64 k ∧ p ≤ chunk_index source k < q ∧ lookup_at source log k j = Some a ∧
        key = recovered_key k.
Proof.
  intros Hq Hwf total p Hp. unfold column_reindex. erewrite ST_bind_Ok by done. rewrite Hq. fold total p.
  destruct (Z.eqb_spec p total) as [E|E].
  - exists (MkReindexBatch None []), p. split_and!; try lia.
    + rewrite <- Hq. unfold p. by destruct c.
    + cbn. rewrite decide_False by lia. done.
    + intros key a. cbn. split; [intros Hn; by apply elem_of_nil in Hn|]. intros (k & j & _ & Hk & _). lia.
  - destruct (reindex_loop_ok source log Hwf (S (Z.to_nat (total - p))) p []) as (q & Hrun & Hpq & Hfull & Hpr);
      [done|fold total; lia|]. fold total in Hpq, Hfull, Hpr.
    exists (MkReindexBatch (if q =? total then Some (it_id source) else None) (moves source log p q)), q.
    erewrite ST_bind_Ok by (unfold lift_st; by rewrite Hrun). cbv beta iota.
    specialize (Hpr ltac:(lia)). assert (Hlt : p < q) by (apply Hpr; cbn; unfold MAX_REINDEX_BATCH; lia).
    split_and!; try lia.
    + by erewrite ST_bind_Ok by done.
    + exact Hfull.
    + cbn. destruct (Z.eqb_spec q total); [by rewrite decide_True|by rewrite decide_False by lia].
    + intros key a. apply moves_elem; [done|lia|fold total; lia].
Qed.

(** C35. A move that finds no room: when the new index has no free entry for the
    key either (or the address is too large for it), [write_reindex_plan]
    replaces the index by a larger one and then waits forever for a lock that it
    holds itself. *)
Theorem write_reindex_plan_deadlock `{!Uninit} (c : HashColumn) (w : LogWriter) (key : Key) (a : Address) :
  index_wf (hc_index c) w → search_index key (hc_index c) (hc_values c) w = Ok None →
  (IEntry.last_address (bits (hc_index c)) < Address.as_u64 a ∨
   ∀ i, (i < CHUNK_ENTRIES)%nat →
     IEntry.is_empty (entry_at (hc_index c) w (TableKey.index_from_partial key) i) = false) →
  write_reindex_plan key a (c, w) = (Deadlock, (trigger_reindex c, w)).
Proof.
  intros Hwf Hs Hfull. unfold write_reindex_plan. cbn [write_reindex_plan_from].
  erewrite ST_bind_Ok by done. erewrite ST_bind_Ok by done. cbv beta iota. rewrite Hs.
  erewrite ST_bind_Ok by done. cbv beta iota.
  assert (Hins : on_log (index_insert_plan (hc_index c) key a None) (c, w) = (Ok NeedReindex, (c, w))).
  { unfold on_log, zoom. cbn [snd]. rewrite index_insert_None by done.
    destruct (Z.ltb_spec (IEntry.last_address (bits (hc_index c))) (Address.as_u64 a)); [done|].
    destruct Hfull as [Hf|Hf]; [lia|].
    pose proof (empty_from_spec (default EMPTY_CHUNK (chunk_view (hc_index c) w
      (chunk_index (hc_index c) (TableKey.index_from_partial key)))) CHUNK_ENTRIES 0) as He.
    destruct (empty_from _ 0 CHUNK_ENTRIES) as [i|]; [|done].
    destruct He as (Hi & He & _). specialize (Hf i ltac:(lia)). unfold entry_at in Hf. congruence. }
  erewrite ST_bind_Ok by exact Hins. cbv beta iota. by erewrite ST_bind_Ok by done.
Qed.

(** C36. Validation of an index that is not open: a log that mentions an index
    table for which there is no file (a reindex that was started by the logged
    record itself) makes [validate_plan] start the reindex and then wait forever
    for a lock that it holds itself. *)
Theorem validate_plan_deadlock (c : HashColumn) (r : LogReader) (table : IndexTableId) (index : Z) :
  it_id (hc_index c) ≠ table → Forall (fun t => it_id t ≠ table) (hc_queue c) →
  column_validate_plan (InsertIndex table index) (c, r) = (Deadlock, (trigger_reindex c, r)).
Proof.
  intros Hne Hq. unfold column_validate_plan. cbn [column_validate_plan_from].
  erewrite ST_bind_Ok by done. erewrite ST_bind_Ok by done. cbv beta iota.
  rewrite decide_False by done.
  assert (Hf : list_find (fun t => it_id t = table) (hc_queue c) = None).
  { apply list_find_None. exact Hq. }
  rewrite Hf. by erewrite ST_bind_Ok by done.
Qed.

(** ** The theorems at concrete columns *)

#[local] Existing Instance zero_uninit.

(** A column that moves the entries of an index of 16 bits to one of 17. *)
Definition moving_column : HashColumn :=
  MkHashColumn 0 (create_new (IndexTableId.new 0 17)) [] [demo_index] 0 false false false false
    (replicate 32 x00) ColumnStats.empty Compress.NO_COMPRESSION 7.

(** One entry in the old index. *)
Definition moving_log : LogWriter :=
  set_entry demo_index (TableKey.index_from_partial demo_key) 0
    (new_entry demo_index (TableKey.index_from_partial demo_key) demo_address) demo_log.

Lemma column_reindex_batch_witness :
  ∃ b q, column_reindex moving_log moving_column = (Ok b, set_hc_reindex [demo_index] q moving_column) ∧ 0 < q.
Proof.
  destruct (column_reindex_batch moving_column moving_log demo_index []) as (b & q & Hrun & _ & Hpr & _).
  - reflexivity.
  - apply set_entry_wf; [apply demo_log_wf|]. apply Nat.ltb_lt. reflexivity.
  - vm_compute. split; discriminate.
  - exists b, q. split; [exact Hrun|]. apply Hpr. reflexivity.
Defined.

Lemma write_reindex_plan_deadlock_witness :
  (write_reindex_plan demo_key (Address.new (2 ^ 40) 0) (moving_column, demo_log)).1 = Deadlock.
Proof.
  rewrite (write_reindex_plan_deadlock moving_column demo_log demo_key (Address.new (2 ^ 40) 0)).
  - reflexivity.
  - split; [|done|done]. split; [reflexivity|discriminate].
  - vm_compute. reflexivity.
  - left. reflexivity.
Defined.

Lemma validate_plan_deadlock_witness :
  (column_validate_plan (InsertIndex (IndexTableId.new 0 18) 0)
    (moving_column, LogReader.new (le_encode 8 0) 0 false)).1 = Deadlock.
Proof.
  rewrite (validate_plan_deadlock moving_column (LogReader.new (le_encode 8 0) 0 false) (IndexTableId.new 0 18) 0).
  - reflexivity.
  - discriminate.
  - repeat constructor. discriminate.
Defined.
