(* ===== verification/ColumnIter.v ===== *)
(** * Iteration over hash columns

    [HashColumn::iter_while] (src/src/column.rs) on a column without preimages:
    it visits every key of the map once, with its value and its reference
    count, in an order that does not depend on the callback. *)

From S2P Require Import Prelude.
From S2P Require Import Bytes.
From S2P Require Import Ids.
From S2P Require Import Log.
From S2P Require Import Table.
From S2P Require Import TableSpec.
From S2P Require Import TableStore.
From S2P Require Import Instances.
From S2P Require Import Index.
From S2P Require Import IndexProofs.
From S2P Require Import Compress.
From S2P Require Import Stats.
From S2P Require Import Options.
From S2P Require Import Column.
From S2P Require Import HashColumn.
From S2P Require Import ColumnTables.
From S2P Require Import ColumnLinks.
From S2P Require Import ColumnProofs.
From S2P Require Import ColumnMap.
From S2P Require Import ColumnOpen.
From S2P Require Import ColumnReindex.
From stdpp Require Import options.
#[local] Set Default Proof Using "All".

(** A callback that may stop the iteration, on a list. *)
Fixpoint visit {A B} (f : A → B → A * bool) (acc : A) (l : list B) : A + A :=
  match l with
  | [] => inl acc
  | x :: l => let '(acc, b) := f acc x in if b then visit f acc l else inr acc
  end.
Definition visited {A B} (f : A → B → A * bool) (acc : A) (l : list B) : A :=
  match visit f acc l with inl a | inr a => a end.

Lemma visit_app {A B} (f : A → B → A * bool) l1 l2 : ∀ acc,
  visit f acc (l1 ++ l2) = match visit f acc l1 with inl a => visit f a l2 | inr a => inr a end.
Proof.
  induction l1 as [|x l1 IH]; intros acc; [done|]. cbn. destruct (f acc x) as [a []]; [apply IH|done].
Qed.

Lemma NoDup_fmap_by {A B C} (f : A → B) (g : A → C) l :
  (∀ x y, x ∈ l → y ∈ l → g x = g y → f x = f y) → NoDup (f <$> l) → NoDup (g <$> l).
Proof.
  induction l as [|x l IH]; intros Hfg Hnd; [constructor|]. cbn in *.
  apply NoDup_cons in Hnd as [Hx Hnd]. apply NoDup_cons. split.
  - intros (y & Hy & Hin)%list_elem_of_fmap. apply Hx. apply list_elem_of_fmap. exists y. split; [|done].
    apply Hfg; [by left|by right|done].
  - apply IH; [|done]. intros y z Hy Hz. by apply Hfg; right.
Qed.

(** The first six bytes that are recovered are those of the key. *)
Lemma recovered_take6 key k : is_key key → is_u64 k → key50 (prefix_of key) = key50 k →
  take 6 (recovered_key k) = take 6 key.
Proof.
  intros Hk Hu H50. unfold recovered_key. rewrite take_app_le by len.
  unfold key50 in H50. unfold key50. rewrite <- H50. clear H50. unfold prefix_of, TableKey.index_from_partial.
  assert (Hl : length key = 32%nat) by exact Hk.
  apply be_decode_inj; [rewrite !length_take, Hl; len|]. unfold is_u64 in Hu.
  set (d := be_decode (take 8 key)).
  assert (Hd : 0 ≤ d < 2 ^ 64).
  { unfold d. pose proof (be_decode_range (take 8 key)) as Hr. rewrite length_take in Hr.
    replace (8 `min` length key)%nat with 8%nat in Hr by lia. exact Hr. }
  assert (H6 : ∀ b : bytes, (length b = 8)%nat → be_decode (take 6 b) = be_decode b / 2 ^ 16).
  { intros b Hb. rewrite <- (take_drop 6 b) at 2. rewrite be_decode_app.
    assert (Hl2 : length (drop 6 b) = 2%nat) by (rewrite length_drop; lia).
    pose proof (be_decode_range (drop 6 b)) as Hr. rewrite Hl2 in *.
    change (8 * Z.of_nat 2) with 16 in *. rewrite Z.div_add_l by lia. rewrite Z.div_small by lia. lia. }
  assert (Ht : take 6 key = take 6 (take 8 key)) by (by rewrite take_take).
  rewrite Ht, !H6 by len. fold d. rewrite be_decode_encode. rewrite Z.mod_small; cycle 1.
  { change (2 ^ (8 * Z.of_nat 8)) with (2 ^ 64). pose proof (Z.mul_div_le d (2 ^ 14)).
    pose proof (Z.div_pos d (2 ^ 14)). lia. }
  change (2 ^ 16) with (2 ^ 14 * 2 ^ 2). rewrite <- !Z.div_div by lia. rewrite Z.div_mul by lia.
  rewrite H6 by (rewrite length_take; lia). fold d. change (2 ^ 16) with (2 ^ 14 * 2 ^ 2). by rewrite <- Z.div_div by lia.
Qed.

Section Iter.
Context `{!Uninit, !Codecs, !Blake2}.
Context (c : HashColumn) (w : LogWriter) (SS : list Store).
Hypothesis Hinv : col_inv c w SS.
Hypothesis Hver : 4 ≤ hc_db_version c.
Hypothesis Hpre : hc_preimage c = false.
Abbreviation idx := (hc_index c).

(** The item for position [j] of chunk [ci]. *)
Record item_at (p : Z * nat) (it : IterState) : Prop := {
  ia_key : is_key (iter_key it);
  ia_chunk : chunk_index idx (prefix_of (iter_key it)) = p.1;
  ia_stored : ∃ a s, lookup_at idx w (prefix_of (iter_key it)) p.2 = Some a ∧ stored_at SS a = Some s ∧
    s_key s = partial_key (iter_key it) ∧ s_rc s = iter_rc it ∧
    plain_value (hc_compression c) s (iter_value it);
}.

Definition action {A} (f : A → IterState → A * bool) (state : IterStateOrCorrupted) : ST A bool := fun acc =>
  match state with
  | Item item => let '(acc, b) := f acc item in (Ok b, acc)
  | Corrupted _ _ => (Err (Corruption "Missing indexed value"), acc)
  end.

(** What a loop over items returns: whether it goes on, and the state. *)
Definition visit_st {A} (f : A → IterState → A * bool) (l : list IterState) : ST A bool := fun acc =>
  match visit f acc l with inl acc => (Ok true, acc) | inr acc => (Ok false, acc) end.


Abbreviation entry ci j := (read_entry (default EMPTY_CHUNK (chunk_view idx w ci)) j).

(** The body of the loop at an entry that is not empty. *)
Lemma iter_entry_item ci j : 0 ≤ ci < IndexTableId.total_chunks (it_id idx) → (j < CHUNK_ENTRIES)%nat →
  IEntry.is_empty (entry ci j) = false →
  ∃ it, item_at (ci, j) it ∧ ∀ A (f : A → IterState → A * bool) acc,
    iter_entry w c (action f) true ci (entry ci j) acc = visit_st f [it] acc.
Proof.
  intros Hci Hj He. pose proof (ci_links _ _ _ Hinv) as Hl. set (e := entry ci j) in *.
  destruct (entry_owner idx w (ci_index _ _ _ Hinv) ci j Hci Hj He) as (k & Hk & Hck & Hlk & Hrec).
  fold e in Hlk, Hrec. set (a := IEntry.address (bits idx) e) in *.
  destruct (lk_live _ _ Hl k j a Hk Hlk) as [s Hs].
  destruct (lk_owner _ _ Hl k j a s Hk Hlk Hs) as (key & Hkey & H50 & Hsk).
  destruct (stored_table _ _ _ _ _ _ a s (ci_tables _ _ _ Hinv) Hs) as (t & m & Ht & Hm & Hr & Hoff & Hok).
  destruct (so_plain _ _ Hok) as [v Hv].
  assert (Hkl : length (s_key s) = PARTIAL_SIZE) by (rewrite Hsk; by apply partial_length).
  exists (MkIterState ci key (s_rc s) v). split.
  - split; cbn; [done| |].
    + rewrite <- Hck. apply (key50_eq idx); [apply (ci_index _ _ _ Hinv)|apply index_prefix_u64|done|done].
    + exists a, s. split_and!; try done. rewrite <- Hlk. apply (lk_resp _ _ Hl); [apply index_prefix_u64|done|done].
  - intros A f acc. unfold iter_entry. rewrite He. unfold entry_location.
    rewrite (proj2 (Z.leb_le _ _) Hver). fold a. rewrite Hpre. cbn [andb].
    change (Z.to_nat (Address.size_tier a)) with (tier_of a). rewrite Ht. cbn [unwrap]. erewrite ST_bind_Ok by done.
    rewrite (get_with_meta_store t w m _ s Hr Hoff Hkl). rewrite Hrec.
    assert (Hsp : splice 6 (s_key s) (recovered_key k) = Ok key).
    { unfold splice. rewrite Hkl. assert (Hl32 : length (recovered_key k) = 32%nat)
        by (unfold recovered_key, KEY_SIZE; len).
      rewrite Hl32. cbn [Nat.leb Nat.add PARTIAL_SIZE]. rewrite (recovered_take6 key k) by done.
      rewrite drop_ge by (rewrite Hl32; unfold PARTIAL_SIZE; lia). rewrite app_nil_r, Hsk.
      unfold partial_key. by rewrite take_drop. }
    rewrite Hsp. erewrite ST_bind_Ok by done. unfold plain_value in Hv.
    assert (Hdec : (if s_compressed s then Compress.decompress (hc_compression c) (s_value s)
      else Ok (s_value s)) = Ok v) by (destruct (s_compressed s); [done|by rewrite Hv]).
    rewrite Hdec. erewrite ST_bind_Ok by done. unfold action, visit_st. cbn [visit]. destruct (f acc _) as [acc' b].
    by destruct b.
Qed.

(** What a list of items is for a set of positions. *)
Definition items_for (P : Z * nat → Prop) (l : list ((Z * nat) * IterState)) : Prop :=
  Forall (fun '(p, it) => item_at p it) l ∧ NoDup l.*1 ∧ ∀ p, p ∈ l.*1 ↔ P p.

Lemma items_for_app P Q R l1 l2 : items_for P l1 → items_for Q l2 → (∀ p, P p → ¬ Q p) →
  (∀ p, R p ↔ P p ∨ Q p) → items_for R (l1 ++ l2).
Proof.
  intros (F1 & N1 & M1) (F2 & N2 & M2) Hd HR. split_and!.
  - by apply Forall_app.
  - rewrite fmap_app. apply NoDup_app. split_and!; [done| |done].
    intros p Hp Hq. apply M1 in Hp. apply M2 in Hq. by eapply Hd.
  - intros p. rewrite fmap_app, elem_of_app, M1, M2. symmetry. apply HR.
Qed.

Definition used (ci : Z) (p : Z * nat) : Prop :=
  p.1 = ci ∧ (p.2 < CHUNK_ENTRIES)%nat ∧ IEntry.is_empty (entry ci p.2) = false.

Lemma iter_entries_items ci m : 0 ≤ ci < IndexTableId.total_chunks (it_id idx) → ∀ n,
  (n + m ≤ CHUNK_ENTRIES)%nat →
  ∃ l, items_for (fun p => used ci p ∧ (n ≤ p.2 < n + m)%nat) l ∧
    ∀ A (f : A → IterState → A * bool) acc,
      iter_entries w c (action f) true ci ((fun j => entry ci j) <$> seq n m) acc = visit_st f l.*2 acc.
Proof.
  intros Hci. induction m as [|m IH]; intros n Hn.
  - exists []. split; [|done]. split_and!; [constructor|constructor|]. intros p. split; [set_solver|]. lia.
  - destruct (IH (S n) ltac:(lia)) as (l & Hl & Hrun). cbn [seq fmap list_fmap].
    destruct (IEntry.is_empty (entry ci n)) eqn:He.
    + exists l. split.
      * destruct Hl as (F & N & M). split_and!; [done|done|]. intros p. rewrite M.
        split; [intros [Hu Hp]; split; [done|lia]|]. intros [Hu Hp]. split; [done|].
        destruct (decide (p.2 = n)) as [E|]; [|lia]. destruct Hu as (_ & _ & Hu). congruence.
      * intros A f acc. cbn [iter_entries]. unfold iter_entry at 1. rewrite He. erewrite ST_bind_Ok by done. apply Hrun.
    + destruct (iter_entry_item ci n Hci ltac:(lia) He) as (it & Hit & Hrun1).
      exists (((ci, n), it) :: l). split.
      * change (((ci, n), it) :: l) with ([((ci, n), it)] ++ l).
        eapply (items_for_app (fun p => p = (ci, n))); [|exact Hl| |].
        -- split_and!; [by constructor|by apply NoDup_singleton|]. intros p. apply list_elem_of_singleton.
        -- intros p -> [_ Hp]. cbn in Hp. lia.
        -- intros p. unfold used. split.
           ++ intros ((U1 & U2 & U3) & Hp). destruct (decide (p.2 = n)) as [E|]; [left|right].
              ** destruct p; cbn in *; congruence.
              ** split; [done|lia].
           ++ intros [->|[Hu Hp]]; [cbn; split; [split_and!; [done|lia|done]|lia]|split; [done|lia]].
      * intros A f acc. cbn [iter_entries]. unfold mbind, ST_bind. rewrite Hrun1.
        change ((((ci, n), it) :: l).*2) with ([it] ++ l.*2). unfold visit_st. rewrite visit_app.
        destruct (visit f acc [it]) as [a|a]; [apply Hrun|done].
Qed.

Lemma iter_chunks_items n : ∀ p, 0 ≤ p → p + Z.of_nat n ≤ IndexTableId.total_chunks (it_id idx) →
  ∃ l, items_for (fun q => p ≤ q.1 < p + Z.of_nat n ∧ used q.1 q) l ∧
    ∀ A (f : A → IterState → A * bool) acc,
      iter_chunks w c (action f) true (seqZ p (Z.of_nat n)) acc = (Ok tt, visited f acc l.*2).
Proof.
  induction n as [|n IH]; intros p Hp Hn.
  - exists []. split; [|done]. split_and!; [constructor|constructor|]. intros q. split; [set_solver|]. lia.
  - destruct (IH (p + 1) ltac:(lia) ltac:(lia)) as (l2 & Hl2 & Hrun2).
    destruct (iter_entries_items p CHUNK_ENTRIES ltac:(lia) 0 ltac:(lia)) as (l1 & Hl1 & Hrun1).
    exists (l1 ++ l2). split.
    + eapply items_for_app; [exact Hl1|exact Hl2| |].
      * intros q [[Hq _] _] [Hq2 _]. lia.
      * intros q. cbn. split.
        -- intros [Hq Hu]. destruct (decide (q.1 = p)) as [E|]; [left|right; split; [lia|done]].
           rewrite E in Hu. destruct Hu as (U1 & U2 & U3). split; [by split_and!|lia].
        -- intros [[Hu Hq]|[Hq Hu]]; [|split; [lia|done]]. pose proof Hu as (E & _). rewrite E.
           split; [lia|done].
    + intros A f acc. rewrite seqZ_cons by lia. cbn [iter_chunks].
      unfold Index.entries. rewrite current_chunk_ok by lia. rewrite outcome_bind_Ok. erewrite ST_bind_Ok by done.
      unfold transmute_chunk. unfold mbind, ST_bind. rewrite Hrun1. unfold visited, visit_st. rewrite fmap_app, visit_app.
      destruct (visit f acc l1.*2) as [a|a]; [|done].
      replace (Z.succ p) with (p + 1) by lia. replace (Z.pred (Z.of_nat (S n))) with (Z.of_nat n) by lia.
      rewrite Hrun2. done.
Qed.

(** All items: one for every key of the column. *)
Lemma iter_all_items :
  ∃ l, items_for (fun q => 0 ≤ q.1 < IndexTableId.total_chunks (it_id idx) ∧ used q.1 q) l ∧
    ∀ A (f : A → IterState → A * bool) acc, column_iter_while w c f acc = (Ok tt, visited f acc l.*2).
Proof.
  assert (Ht : 0 ≤ IndexTableId.total_chunks (it_id idx)).
  { rewrite total_chunks_pow by apply (ci_index _ _ _ Hinv). lia. }
  destruct (iter_chunks_items (Z.to_nat (IndexTableId.total_chunks (it_id idx))) 0 ltac:(lia) ltac:(lia)) as
    (l & Hl & Hrun).
  rewrite Z2Nat.id in Hl, Hrun by lia. exists l. split; [exact Hl|].
  intros A f acc. unfold column_iter_while, iter_while_inner. rewrite Hpre. cbn [andb].
  erewrite ST_bind_Ok by done. cbv zeta. rewrite Z.sub_0_r. apply Hrun.
Qed.

Lemma item_holds p it : item_at p it →
  ∃ s, holds (lookup_at idx w) (stored_at SS) (iter_key it) s ∧ s_rc s = iter_rc it ∧
    plain_value (hc_compression c) s (iter_value it).
Proof.
  intros [U1 U2 (a & s & Hl & Hs & Hk & Hr & Hv)]. exists s. split_and!; [|done|done].
  by exists p.2, a.
Qed.

(** The item of a stored key. *)
Lemma key_item l key s : items_for (fun q => 0 ≤ q.1 < IndexTableId.total_chunks (it_id idx) ∧ used q.1 q) l →
  is_key key → holds (lookup_at idx w) (stored_at SS) key s →
  ∃ it, it ∈ l.*2 ∧ iter_key it = key ∧ iter_rc it = s_rc s ∧ plain_value (hc_compression c) s (iter_value it).
Proof.
  intros (HF & Hnd & Hmem) Hkey (j & a & Hf & Hg & Hk). rewrite Forall_forall in HF.
  pose proof (lookup_at_Some _ _ _ _ _ Hf) as (Hj & He & P1 & Ea).
  pose proof (index_prefix_u64 key) as Hu. fold (prefix_of key) in Hu.
  assert (Hin : (chunk_index idx (prefix_of key), j) ∈ l.*1).
  { apply Hmem. split; [apply chunk_index_range; [apply (ci_index _ _ _ Hinv)|done]|]. by split_and!. }
  apply list_elem_of_fmap in Hin as ([p it] & Hp & Hin). cbn in Hp. subst p.
  pose proof (HF _ Hin) as [K1 C1 (a' & s' & L1 & S1 & E1 & R1 & V1)]. cbn [fst snd] in C1, L1.
  apply lookup_at_Some in L1 as (_ & _ & P2 & Ea'). unfold entry_at in *. rewrite C1 in P2, Ea'.
  assert (a' = a) as -> by congruence. assert (s' = s) as -> by congruence.
  assert (iter_key it = key) as <-.
  { apply key_split; [done|done| |congruence].
    apply (key50_eq idx); [apply (ci_index _ _ _ Hinv)|apply index_prefix_u64|done|]. split; congruence. }
  exists it. split; [apply list_elem_of_fmap; eexists; by split; [|exact Hin]|]. by split_and!.
Qed.

Lemma item_position p p' it it' : item_at p it → item_at p' it' → iter_key it = iter_key it' → p = p'.
Proof.
  intros [K1 C1 (a & s & L1 & S1 & E1 & _)] [K2 C2 (a' & s' & L2 & S2 & E2 & _)] Hk.
  rewrite <- Hk in *. destruct p as [ci j], p' as [ci' j']. cbn in *. f_equal; [congruence|].
  eapply (lk_once _ _ (ci_links _ _ _ Hinv)); [apply index_prefix_u64|exact L1|exact L2|done|done|congruence].
Qed.

End Iter.

(** The items of a column, with whole keys. *)
Lemma items_visited `{!Uninit, !Codecs, !Blake2} (c : HashColumn) (w : LogWriter) (M : KV) :
  col_repr c w M → 4 ≤ hc_db_version c → hc_preimage c = false →
  ∃ items, NoDup (iter_key <$> items) ∧ Forall (fun it => is_key (iter_key it)) items ∧
    (∀ key v n, is_key key →
      M key = Some (v, n) ↔ ∃ it, it ∈ items ∧ iter_key it = key ∧ iter_value it = v ∧ iter_rc it = n) ∧
    ∀ A (f : A → IterState → A * bool) acc, column_iter_while w c f acc = (Ok tt, visited f acc items).
Proof.
  intros (SS & Hinv & HM) Hver Hpre. pose proof (ci_links _ _ _ Hinv) as Hl.
  destruct (iter_all_items c w SS Hinv Hver Hpre) as (l & (HF & Hnd & Hmem) & Hrun).
  pose proof HF as HF0. rewrite Forall_forall in HF.
  assert (Hitem : ∀ it, it ∈ l.*2 → ∃ p, item_at c w SS p it ∧ (p, it) ∈ l).
  { intros it ([p it'] & -> & Hin)%list_elem_of_fmap. exists p. split; [|done]. by apply (HF _ Hin). }
  exists (l.*2). split_and!; [| | |exact Hrun].
  - rewrite <- list_fmap_compose. apply (NoDup_fmap_by fst); [|done].
    intros [p it] [p' it'] Hx Hy Hk. cbn.
    exact (item_position c w SS Hinv Hver Hpre p p' it it' (HF _ Hx) (HF _ Hy) Hk).
  - apply Forall_forall. intros it Hin. destruct (Hitem it Hin) as (p & [Hk _ _] & _). exact Hk.
  - intros key v n Hkey. specialize (HM key Hkey). unfold kv_holds in HM. split.
    + intros E. rewrite E in HM. destruct HM as (s & Hs & Hv & <-).
      destruct (key_item c w SS Hinv Hver Hpre l key s (conj HF0 (conj Hnd Hmem)) Hkey Hs) as
        (it & Hin & Hk & Hr & Hv'). exists it. split_and!; try done.
      unfold plain_value in *. destruct (s_compressed s); congruence.
    + intros (it & Hin & <- & <- & <-). destruct (Hitem it Hin) as (p & Hia & _).
      destruct (item_holds c w SS Hinv Hver Hpre p it Hia) as (s & Hs & Hr & Hv).
      destruct (M (iter_key it)) as [[v n]|]; [|by destruct (HM s)].
      destruct HM as (s' & Hs' & Hv' & <-). rewrite (holds_unique _ _ _ _ _ Hl Hs' Hs) in *.
      rewrite Hr. do 2 f_equal. unfold plain_value in *. destruct (s_compressed s); congruence.
Qed.

(** ** Claims *)


(** ** The theorem at a concrete column *)

#[local] Existing Instances zero_uninit.

Definition no_blake2 : Blake2 := {|
  blake2b k d := replicate 32 x00; blake2b_length k d := length_replicate 32 x00;
|}.
Definition id_codecs : Codecs := {|
  lz4_block_compress := Some; lz4_block_decompress := Some; snap_encode := id; snap_decode := Some;
|}.

