(* ===== verification/BTreeNode.v ===== *)
(** * B-tree nodes (src/src/btree/node.rs, src/src/btree/mod.rs)

    The nodes of ordered columns: arrays of 8 separators and 9 children, their
    encoding as values of the value tables, and the operations on one node. *)

From S2P Require Import Prelude.
From S2P Require Import Bytes.
From S2P Require Import Ids.
From S2P Require Import Log.
From S2P Require Import Table.
From S2P Require Import Index.
From S2P Require Import Compress.
From S2P Require Import Stats.
From S2P Require Import Column.
From stdpp Require Import options.
#[local] Set Default Proof Using "Type*".

Definition ORDER : nat := 8.
Definition ORDER_CHILD : nat := S ORDER.
Definition NULL_ADDRESS : Address := Address.from_u64 0.
Definition BTREE_HEADER_SIZE : nat := 8 + 4.
Definition HEADER_ADDRESS : Address := Address.new 1 0.
Definition U8_MAX : Z := 2 ^ 8 - 1.

Record BTreeHeader := MkBTreeHeader { root : Address; depth : Z }.
#[global] Instance BTreeHeader_eq_dec : EqDecision BTreeHeader.
Proof. solve_decision. Defined.

(** ** Data *)

Record SeparatorInner := MkSep { sep_key : bytes; sep_value : Address }.
Record Separator := MkSeparator { modified : bool; separator : option SeparatorInner }.
Record Child := MkChild { moved : bool; entry_index : option Address }.

(** [Node]: the lists stand for the arrays [[Separator; ORDER]] and
    [[Child; ORDER_CHILD]]. *)
Record Node := MkNode {
  separators : list Separator;
  children : list Child;
  changed : bool;
}.

Definition no_separator : Separator := MkSeparator false None.
Definition no_child : Child := MkChild false None.

(** [Node::default]. *)
Definition default_node : Node :=
  MkNode (replicate ORDER no_separator) (replicate ORDER_CHILD no_child) true.

(** ** Arrays *)

Definition sep_at (at_ : nat) (n : Node) : outcome Separator := unwrap (separators n !! at_).
Definition child_at (at_ : nat) (n : Node) : outcome Child := unwrap (children n !! at_).

(** [self.separators[at] = sep] and [self.children[at] = child]. *)
Definition put_sep (at_ : nat) (sep : Separator) (n : Node) : outcome Node :=
  _ ← sep_at at_ n; Ok (MkNode (<[at_ := sep]> (separators n)) (children n) (changed n)).
Definition put_child (at_ : nat) (child : Child) (n : Node) : outcome Node :=
  _ ← child_at at_ n; Ok (MkNode (separators n) (<[at_ := child]> (children n)) (changed n)).
Definition set_changed (n : Node) : Node := MkNode (separators n) (children n) true.

(** [Node::remove_separator]. *)
Definition remove_separator (at_ : nat) (n : Node) : outcome (Separator * Node) :=
  s ← sep_at at_ n;
  n ← put_sep at_ (MkSeparator true None) (set_changed n);
  Ok (MkSeparator true (separator s), n).
(** [Node::remove_child]. *)
Definition remove_child (at_ : nat) (n : Node) : outcome (Child * Node) :=
  c ← child_at at_ n;
  n ← put_child at_ (MkChild true None) (set_changed n);
  Ok (MkChild true (entry_index c), n).
(** [Node::has_separator]. *)
Definition has_separator (at_ : nat) (n : Node) : outcome bool :=
  s ← sep_at at_ n; Ok (match separator s with Some _ => true | None => false end).
(** [Node::separator_key]. *)
Definition separator_key (at_ : nat) (n : Node) : outcome (option bytes) :=
  s ← sep_at at_ n; Ok (sep_key <$> separator s).
(** [Node::separator_address]. *)
Definition separator_address (at_ : nat) (n : Node) : outcome (option Address) :=
  s ← sep_at at_ n; Ok (sep_value <$> separator s).
(** [Node::set_separator]. *)
Definition set_separator (at_ : nat) (sep : Separator) (n : Node) : outcome Node :=
  put_sep at_ (MkSeparator true (separator sep)) (set_changed n).
(** [Node::new_child]. *)
Definition new_child (index : option Address) : Child := MkChild true index.
(** [Node::set_child]. *)
Definition set_child (at_ : nat) (child : Child) (n : Node) : outcome Node :=
  put_child at_ (MkChild true (entry_index child)) (set_changed n).

(** [Node::number_separator]. *)
Fixpoint count_separators (l : list Separator) : nat :=
  match l with
  | s :: l => match separator s with Some _ => S (count_separators l) | None => 0 end
  | [] => 0
  end.
Definition number_separator (n : Node) : nat := count_separators (separators n).
(** [Node::last_separator_index]. *)
Definition last_separator_index (n : Node) : option nat :=
  match number_separator n with O => None | S i => Some i end.
(** [Node::need_rebalance]. *)
Definition need_rebalance (n : Node) : outcome bool :=
  b ← has_separator (ORDER / 2 - 1) n; Ok (negb b).

(** [Node::position]: whether the key is there, and the first separator that is
    not smaller. *)
Fixpoint position_from (key : bytes) (i : nat) (l : list Separator) : bool * nat :=
  match l with
  | s :: l =>
      match separator s with
      | Some sep =>
          match bytes_compare key (sep_key sep) with
          | Gt => position_from key (S i) l
          | Lt => (false, i)
          | Eq => (true, i)
          end
      | None => (false, i)
      end
  | [] => (false, i)
  end.
Definition position (key : bytes) (n : Node) : bool * nat := position_from key 0 (separators n).

(** ** Moving entries *)

(** The loops of [Node::shift_from]: [current] goes to the next place until a
    free place was filled or the array ends. *)
Fixpoint shift_separators (fuel : nat) (i : nat) (current : Separator) (n : Node) : outcome Node :=
  match fuel with
  | O => NoFuel
  | S fuel' =>
      match separator current with
      | None => Ok n
      | Some _ =>
          let current := MkSeparator true (separator current) in
          if (S i =? ORDER)%nat then Ok n
          else
            next ← sep_at (S i) n;
            n ← put_sep (S i) current n;
            shift_separators fuel' (S i) next n
      end
  end.
Fixpoint shift_children (fuel : nat) (i : nat) (current : Child) (n : Node) : outcome Node :=
  match fuel with
  | O => NoFuel
  | S fuel' =>
      match entry_index current with
      | None => Ok n
      | Some _ =>
          let current := MkChild true (entry_index current) in
          if (S i =? ORDER_CHILD)%nat then Ok n
          else
            next ← child_at (S i) n;
            n ← put_child (S i) current n;
            shift_children fuel' (S i) next n
      end
  end.

(** [Node::shift_from]. *)
Definition shift_from (from : nat) (has_child with_left_child : bool) (n : Node) : outcome Node :=
  '(current, n) ← remove_separator from (set_changed n);
  n ← shift_separators (S ORDER) from current n;
  if has_child then
    let i := if with_left_child then from else S from in
    '(current, n) ← remove_child i n;
    shift_children (S ORDER_CHILD) i current n
  else Ok n.

(** The loops of [Node::remove_from]. *)
Fixpoint unshift_separators (fuel : nat) (i : nat) (n : Node) : outcome Node :=
  match fuel with
  | O => NoFuel
  | S fuel' =>
      if (i <? ORDER - 1)%nat then
        '(s, n) ← remove_separator (S i) n;
        n ← put_sep i (MkSeparator true (separator s)) n;
        match separator s with
        | None => Ok n
        | Some _ => unshift_separators fuel' (S i) n
        end
      else Ok n
  end.
Fixpoint unshift_children (fuel : nat) (i : nat) (n : Node) : outcome Node :=
  match fuel with
  | O => NoFuel
  | S fuel' =>
      if (i <? ORDER_CHILD - 1)%nat then
        '(c, n) ← remove_child (S i) n;
        n ← put_child i c n;
        match entry_index c with
        | None => Ok n
        | Some _ => unshift_children fuel' (S i) n
        end
      else Ok n
  end.

(** [Node::remove_from]. *)
Definition remove_from (from : nat) (has_child with_left_child : bool) (n : Node) : outcome Node :=
  n ← unshift_separators (S ORDER) from (set_changed n);
  if has_child then
    unshift_children (S ORDER_CHILD) (if with_left_child then from else S from) n
  else Ok n.

(** The loops of [Node::split]: what is at the places [places] of [n] goes to
    [r_node], the new right node, [ins] in between. *)
Fixpoint split_separators (places : list nat) (start : nat) (n r_node : Node)
    (ins : option (nat * Separator)) (offset : nat) : outcome (Node * Node * option (nat * Separator)) :=
  match places with
  | [] => Ok (n, r_node, ins)
  | i :: places =>
      '(sep, n) ← remove_separator i n;
      '(r_node, ins, offset) ←
        match ins with
        | Some (at_, s) =>
            if (at_ =? i)%nat then r_node ← put_sep (i - start) s r_node; Ok (r_node, None, 1%nat)
            else Ok (r_node, ins, offset)
        | None => Ok (r_node, ins, offset)
        end;
      r_node ← put_sep (i + offset - start) sep r_node;
      split_separators places start n r_node ins offset
  end.
Fixpoint split_children (places : list nat) (start : nat) (n r_node : Node)
    (ins : option (nat * Child)) (offset : nat) : outcome (Node * Node * option (nat * Child)) :=
  match places with
  | [] => Ok (n, r_node, ins)
  | i :: places =>
      '(child, n) ← remove_child i n;
      '(r_node, ins, offset) ←
        match ins with
        | Some (at_, c) =>
            if (S at_ =? i)%nat then
              r_node ← put_child (i - start) (MkChild true (entry_index c)) r_node; Ok (r_node, None, 1%nat)
            else Ok (r_node, ins, offset)
        | None => Ok (r_node, ins, offset)
        end;
      r_node ← put_child (i + offset - start) child r_node;
      split_children places start n r_node ins offset
  end.

(** [Node::split]; the second component of the result of the code is always
    [None]. *)
Definition split (at_ : nat) (skip_left_child : bool) (insert_right : option (nat * Separator))
    (insert_right_child : option (nat * Child)) (has_child : bool) (n : Node)
    : outcome (Node * Node) :=
  '(n, r_node, ins) ← split_separators (seq at_ (ORDER - at_)) at_ n default_node insert_right 0;
  r_node ← match ins with Some (insert, s) => put_sep (insert - at_) s r_node | None => Ok r_node end;
  if has_child then
    let first := (if skip_left_child then S at_ else at_) in
    '(n, r_node, ins) ←
      split_children (seq first (ORDER_CHILD - first)) at_ n r_node insert_right_child 0;
    r_node ← match ins with
            | Some (insert, c) => put_child (S insert - at_) (MkChild true (entry_index c)) r_node
            | None => Ok r_node
            end;
    Ok (n, r_node)
  else Ok (n, r_node).

(** ** Encoding *)

(** [Entry::write_child_index] and [Entry::write_separator]: the bytes that are
    appended. *)
Definition write_child_index (index : Address) : bytes := le_encode 8 (Address.as_u64 index).
Definition write_separator (s : SeparatorInner) : bytes :=
  let size := Z.of_nat (length (sep_key s)) in
  le_encode 8 (Address.as_u64 (sep_value s)) ++
  (if U8_MAX <=? size then [byte_of U8_MAX] ++ le_encode 4 (wrap32 size) else [byte_of size]) ++
  sep_key s.
(** [Entry::write_header]. *)
Definition write_header (h : BTreeHeader) : bytes :=
  le_encode 8 (Address.as_u64 (root h)) ++ le_encode 4 (depth h).

(** The loop of [BTreeTable::write_node_plan] that encodes the node: a child,
    then a separator with the next child, until a separator is missing. *)
Fixpoint encode_from (cs : list Child) (ss : list Separator) : bytes :=
  match cs with
  | [] => []
  | c :: cs =>
      write_child_index (default NULL_ADDRESS (entry_index c)) ++
      match ss with
      | s :: ss =>
          match separator s with
          | Some sep => write_separator sep ++ encode_from cs ss
          | None => []
          end
      | [] => []
      end
  end.
Definition encode_node (n : Node) : bytes := encode_from (children n) (separators n).

(** [Entry::read_child_index]. *)
Definition read_child_index : ST Entry (option Address) :=
  index ← Entry.read_u64;
  mret (if index =? 0 then None else Some (Address.from_u64 index)).

(** [Entry::read_separator]. *)
Definition read_separator : ST Entry (option SeparatorInner) :=
  e ← get_st;
  if (e_offset e =? length (e_data e))%nat then mret None
  else
    value ← Entry.read_u64;
    head ← Entry.read_slice 1;
    let head := le_decode head in
    size ← (if head =? U8_MAX then Entry.read_u32 else mret head);
    key ← Entry.read_slice (Z.to_nat size);
    if value =? 0 then mret None else mret (Some (MkSep key (Address.from_u64 value))).

(** The loop of [Node::from_encoded], from child [i_children] on; the number of
    separators read so far is the same. *)
Fixpoint decode_from (fuel : nat) (i_children : nat) (n : Node) : ST Entry Node :=
  match fuel with
  | O => lift_st NoFuel
  | S fuel' =>
      c ← read_child_index;
      n ← lift_st (match c with
                   | Some c => put_child i_children (MkChild false (Some c)) n
                   | None => Ok n
                   end);
      if (S i_children =? ORDER_CHILD)%nat then mret n
      else
        s ← read_separator;
        match s with
        | Some s =>
            n ← lift_st (put_sep i_children (MkSeparator false (Some s)) n);
            decode_from fuel' (S i_children) n
        | None => mret n
        end
  end.

(** [Node::from_encoded]. *)
Definition from_encoded (enc : bytes) : outcome Node :=
  (decode_from ORDER_CHILD 0
     (MkNode (replicate ORDER no_separator) (replicate ORDER_CHILD no_child) false)
     (Entry.new enc)).1.
