(* ===== verification/BTree.v ===== *)
(** * Ordered columns (src/src/btree/mod.rs, btree.rs and node.rs)

    The B-tree over the value tables: lookup, sorted changes with splits and
    rebalancing, and the table of an ordered column. Values and nodes are
    entries of the value tables without a key. *)

From S2P Require Import Prelude.
From S2P Require Import Bytes.
From S2P Require Import Ids.
From S2P Require Import Log.
From S2P Require Import Table.
From S2P Require Import Index.
From S2P Require Import Compress.
From S2P Require Import Stats.
From S2P Require Import Options.
From S2P Require Import Column.
From S2P Require Import HashColumn.
From S2P Require Import BTreeNode.
From stdpp Require Import options.
#[local] Set Default Proof Using "Type*".

(** [BTree]. *)
Record BTree := MkBTree {
  bt_depth : Z;
  bt_root_index : option Address;
  bt_record_id : Z;
}.

(** Sorted changes: keys with their new values. *)
Definition Changes : Type := list (bytes * option bytes).

(** What a change of a child asks of its parent: to insert a separator and the
    new right node, or to rebalance. *)
Definition ChangeRes : Type := option (Separator * Child) * bool.

(** A descent follows at most this many children. *)
Definition MAX_DEPTH : nat := 64.

Section Tree.
Context `{!Uninit, !Codecs}.

(** ** Lookup *)

Section Lookup.
Context {L} `{LogQuery L} (tables : list ValueTable) (compression : Compress) (log : L).

(** [BTreeTable::get_encoded_entry]; the message of the code names the
    address. *)
Definition get_encoded_entry (at_ : Address) : outcome bytes :=
  r ← get_value (Check_ NoHash) at_ tables compression log;
  match r with
  | Some (_, value) => Ok value
  | None => Err (Corruption "Missing btree entry")
  end.

(** [Node::fetch_child]. *)
Definition fetch_child (i : nat) (n : Node) : outcome (option Node) :=
  c ← child_at i n;
  match entry_index c with
  | Some ix => e ← get_encoded_entry ix; child ← from_encoded e; Ok (Some child)
  | None => Ok None
  end.

(** [BTree::fetch_root]. *)
Definition fetch_root (root : Address) : outcome Node :=
  if decide (root = NULL_ADDRESS) then Ok default_node
  else e ← get_encoded_entry root; from_encoded e.

(** [Node::get]. *)
Fixpoint node_get (fuel : nat) (key : bytes) (n : Node) : outcome (option Address) :=
  match fuel with
  | O => NoFuel
  | S fuel' =>
      let '(at_, i) := position key n in
      if at_ : bool then separator_address i n
      else
        child ← fetch_child i n;
        match child with
        | Some child => node_get fuel' key child
        | None => Ok None
        end
  end.

(** [BTreeTable::btree_header]. *)
Definition btree_header : outcome BTreeHeader :=
  r ← get_value (Fetch None) HEADER_ADDRESS tables compression log;
  match r with
  | Some (_, encoded) =>
      fst ((root ← Entry.read_u64; depth ← Entry.read_u32;
            mret (MkBTreeHeader (Address.from_u64 root) depth)) (Entry.new encoded))
  | None => Ok (MkBTreeHeader NULL_ADDRESS 0)
  end.

(** [BTree::open]. *)
Definition tree_open (record_id : Z) : outcome BTree :=
  h ← btree_header;
  Ok (MkBTree (depth h) (if decide (root h = NULL_ADDRESS) then None else Some (root h)) record_id).

(** [BTree::get]. *)
Definition tree_get (key : bytes) (t : BTree) : outcome (option bytes) :=
  root ← fetch_root (default NULL_ADDRESS (bt_root_index t));
  a ← node_get MAX_DEPTH key root;
  match a with
  | Some address =>
      r ← get_value (Fetch None) address tables compression log;
      Ok (match r with Some (_, value) => Some value | None => None end)
  | None => Ok None
  end.

(** [BTreeTable::get]. *)
Definition btree_get (key : bytes) : outcome (option bytes) :=
  h ← btree_header;
  if decide (root h = NULL_ADDRESS) then Ok None
  else tree_get key (MkBTree (depth h) (Some (root h)) 0).

(** [Node::seek]: the stack of nodes with their positions, the last first. *)
Fixpoint node_seek (depth : nat) (from : Node) (key : bytes) (stack : list (nat * Node))
    : outcome (bool * list (nat * Node)) :=
  let '(at_, i) := position key from in
  if at_ : bool then Ok (true, (i, from) :: stack)
  else
    match depth with
    | O => Ok (false, (i, from) :: stack)
    | S depth' =>
        child ← fetch_child i from;
        match child with
        | Some child => node_seek depth' child key ((i, from) :: stack)
        | None => Ok (false, (i, from) :: stack)
        end
    end.

End Lookup.

Definition fetch_child_st (i : nat) (n : Node) : ST TRW (option Node) :=
  '(r, w) ← get_st; lift_st (fetch_child (tr_tables r) (tr_compression r) w i n).
Definition fetch_root_st (root : Address) : ST TRW Node :=
  '(r, w) ← get_st; lift_st (fetch_root (tr_tables r) (tr_compression r) w root).

(** ** Writing nodes *)

Definition set_tr_compression (c : Compress) (r : TablesRef) : TablesRef :=
  MkTablesRef (tr_tables r) c (tr_preimage r) (tr_ref_counted r) (tr_stats r).

(** Code that runs with another compression; nodes are not compressed. *)
Definition with_compression {A} (c : Compress) (m : ST TRW A) : ST TRW A := fun '(r, w) =>
  let '(o, (r', w')) := m (set_tr_compression c r, w) in
  (o, (set_tr_compression (tr_compression r) r', w')).

(** The test of [BTreeTable::write_node_plan] for something to write. *)
Definition node_changed (n : Node) : bool :=
  changed n || existsb moved (children n) || existsb modified (separators n).

(** [BTreeTable::write_node_plan]: the new address, if it is another. *)
Definition write_node_plan (n : Node) (node_id : option Address) : ST TRW (option Address) :=
  if node_changed n then
    with_compression Compress.NO_COMPRESSION
      (match node_id with
       | Some existing => '(_, new_index) ← write_existing_value_plan NoHash existing (Some (encode_node n)); mret new_index
       | None => a ← write_new_value_plan NoHash (encode_node n); mret (Some a)
       end)
  else mret None.

(** [BTreeTable::write_plan_remove_node]. *)
Definition write_plan_remove_node (node_index : Address) : ST TRW unit :=
  _ ← write_existing_value_plan NoHash node_index None; mret tt.

(** [Node::write_child]. *)
Definition write_child (i : nat) (child : Node) (n : Node) : ST TRW Node :=
  if changed child then
    c ← lift_st (child_at i n);
    new_index ← write_node_plan child (entry_index c);
    match new_index with
    | Some _ => lift_st (put_child i (MkChild (moved c) new_index) (set_changed n))
    | None => mret n
    end
  else mret n.

(** [Node::write_split_child]: the right node of a split is always new. *)
Definition write_split_child (r_node : Node) : ST TRW Child :=
  new_index ← write_node_plan r_node None; mret (new_child new_index).

(** [Node::create_separator]. *)
Definition create_separator (key value : bytes) (existing : option Address) : ST TRW Separator :=
  value ← match existing with
          | Some address =>
              '(_, a) ← write_existing_value_plan NoHash address (Some value);
              mret (default address a)
          | None => write_new_value_plan NoHash value
          end;
  mret (MkSeparator true (Some (MkSep key value))).

(** ** Rebalancing *)

(** The left or right sibling gives one of its separators, through the parent. *)
Definition balance_from_left (has_child : bool) (at_ : nat) (l_node : Node) (n : Node) : ST TRW Node :=
  last_sibling ← lift_st (unwrap (last_separator_index l_node));
  '(child, l_node) ← (if has_child then
                       '(c, l_node) ← lift_st (remove_child (S last_sibling) l_node); mret (Some c, l_node)
                     else mret (None, l_node));
  '(separator2, l_node) ← lift_st (remove_separator last_sibling l_node);
  '(separator, n) ← lift_st (remove_separator (at_ - 1) n);
  n ← lift_st (set_separator (at_ - 1) separator2 n);
  o ← fetch_child_st at_ n;
  r_node ← lift_st (unwrap o);
  r_node ← lift_st (shift_from 0 has_child true r_node);
  r_node ← lift_st (match child with Some c => set_child 0 c r_node | None => Ok r_node end);
  r_node ← lift_st (set_separator 0 separator r_node);
  n ← write_child (at_ - 1) l_node n;
  write_child at_ r_node n.

Definition balance_from_right (has_child : bool) (at_ : nat) (r_node : Node) (n : Node) : ST TRW Node :=
  '(child, r_node) ← (if has_child then
                       '(c, r_node) ← lift_st (remove_child 0 r_node); mret (Some c, r_node)
                     else mret (None, r_node));
  '(separator2, r_node) ← lift_st (remove_separator 0 r_node);
  r_node ← lift_st (remove_from 0 has_child true r_node);
  '(separator, n) ← lift_st (remove_separator at_ n);
  n ← lift_st (set_separator at_ separator2 n);
  o ← fetch_child_st at_ n;
  l_node ← lift_st (unwrap o);
  let last_left := number_separator l_node in
  l_node ← lift_st (set_separator last_left separator l_node);
  l_node ← lift_st (match child with Some c => set_child (S last_left) c l_node | None => Ok l_node end);
  n ← write_child at_ l_node n;
  write_child (S at_) r_node n.

(** The loop that moves the entries [right_i..right_len] of the right node to
    the left one, from [i] on. *)
Fixpoint merge_entries (count : nat) (has_child : bool) (right_i i : nat) (l_node r_node : Node)
    : outcome (Node * Node) :=
  match count with
  | O =>
      if has_child then
        '(c, r_node) ← remove_child right_i r_node;
        l_node ← set_child i c l_node;
        Ok (l_node, r_node)
      else Ok (l_node, r_node)
  | S count' =>
      '(child, r_node) ← (if has_child then '(c, r_node) ← remove_child right_i r_node; Ok (Some c, r_node)
                         else Ok (None, r_node));
      '(s, r_node) ← remove_separator right_i r_node;
      l_node ← set_separator i s l_node;
      l_node ← match child with Some c => set_child i c l_node | None => Ok l_node end;
      merge_entries count' has_child (S right_i) (S i) l_node r_node
  end.

Definition merge_children (has_child : bool) (at_ at_right : nat) (l_node r_node : option Node) (n : Node)
    : ST TRW Node :=
  l_node ← lift_st (unwrap l_node);
  '(separator, n) ← lift_st (remove_separator at_ n);
  let i := number_separator l_node in
  l_node ← lift_st (set_separator i separator l_node);
  r_node ← lift_st (unwrap r_node);
  '(l_node, r_node) ← lift_st (merge_entries (number_separator r_node) has_child 0 (S i) l_node r_node);
  '(removed, n) ← lift_st (remove_child at_right n);
  _ ← match entry_index removed with
      | Some index => write_plan_remove_node index
      | None => mret tt
      end;
  n ← write_child at_ l_node n;
  n ← write_child at_right r_node n;
  lift_st (remove_from at_ true false n).

(** [left.as_ref().map_or(false, |node| node.has_separator(middle))]. *)
Definition can_give (o : option Node) : outcome bool :=
  match o with Some n => has_separator (ORDER / 2) n | None => Ok false end.

(** [Node::rebalance]: child [at] of [n] has too few separators; [has_child]
    tells whether the children have children. *)
Definition rebalance (has_child : bool) (at_ : nat) (n : Node) : ST TRW Node :=
  l_node ← (if (0 <? at_)%nat then fetch_child_st (at_ - 1) n else mret None);
  give ← lift_st (can_give l_node);
  if give : bool then
    l_node ← lift_st (unwrap l_node); balance_from_left has_child at_ l_node n
  else
    let number_child := S (number_separator n) in
    r_node ← (if (S at_ <? number_child)%nat then fetch_child_st (S at_) n else mret None);
    give ← lift_st (can_give r_node);
    if give : bool then
      r_node ← lift_st (unwrap r_node); balance_from_right has_child at_ r_node n
    else if (S at_ =? number_child)%nat then
      r_node ← fetch_child_st at_ n;
      merge_children has_child (at_ - 1) at_ l_node r_node n
    else
      l_node ← fetch_child_st at_ n;
      r_node ← match r_node with Some r => mret (Some r) | None => fetch_child_st (S at_) n end;
      merge_children has_child at_ (S at_) l_node r_node n.

(** [Node::need_remove_root]. *)
Definition need_remove_root (n : Node) : ST TRW (option (option Address * Node) * Node) :=
  if (number_separator n =? 0)%nat then
    o ← fetch_child_st 0 n;
    match o with
    | Some node => '(child, n) ← lift_st (remove_child 0 n); mret (Some (entry_index child, node), n)
    | None => mret (None, n)
    end
  else mret (None, n).

(** [Node::remove_last]: the largest separator of the subtree. *)
Fixpoint remove_last (depth : nat) (n : Node) : ST TRW (bool * option Separator * Node) :=
  match last_separator_index n with
  | None => mret (false, None, n)
  | Some i =>
      match depth with
      | O =>
          '(result, n) ← lift_st (remove_separator i n);
          b ← lift_st (need_rebalance n);
          mret (b, Some result, n)
      | S depth' =>
          o ← fetch_child_st (S i) n;
          match o with
          | Some child =>
              '(need, result, child) ← remove_last depth' child;
              n ← write_child (S i) child n;
              if need : bool then
                n ← rebalance (negb (depth' =? 0)%nat) (S i) n;
                b ← lift_st (need_rebalance n);
                mret (b, result, n)
              else mret (need, result, n)
          | None => mret (false, None, n)
          end
      end
  end.

(** ** Changes *)

(** [Node::insert_node] and the insertion into a full leaf: the node is split
    around its middle; [at_] is the place of the separator, [child] the node on
    its right. *)
Definition insert_split (at_ : nat) (sep : Separator) (child : option Child) (n : Node)
    : ST TRW (Separator * Child * Node) :=
  let middle := (ORDER / 2)%nat in
  let has_child := match child with Some _ => true | None => false end in
  match Nat.compare at_ middle with
  | Eq =>
      '(n, r_node) ← lift_st (split middle true None None has_child n);
      r_node ← lift_st (match child with Some c => set_child 0 c r_node | None => Ok r_node end);
      c ← write_split_child r_node;
      mret (sep, c, n)
  | Lt =>
      '(n, r_node) ← lift_st (split middle false None None has_child n);
      '(up, n) ← lift_st (remove_separator (middle - 1) n);
      n ← lift_st (shift_from at_ has_child false n);
      n ← lift_st (set_separator at_ sep n);
      n ← lift_st (match child with Some c => set_child (S at_) c n | None => Ok n end);
      c ← write_split_child r_node;
      mret (up, c, n)
  | Gt =>
      '(n, r_node) ← lift_st (split (S middle) false (Some (at_, sep))
                               ((fun c => (at_, c)) <$> child) has_child n);
      '(up, n) ← lift_st (remove_separator middle n);
      c ← write_split_child r_node;
      mret (up, c, n)
  end.

(** [Node::insert_node]. *)
Definition insert_node (at_ : nat) (sep : Separator) (right_child : Child) (n : Node)
    : ST TRW (option (Separator * Child) * Node) :=
  full ← lift_st (has_separator (ORDER - 1) n);
  if full : bool then
    '(up, c, n) ← insert_split at_ sep (Some right_child) n; mret (Some (up, c), n)
  else
    n ← lift_st (shift_from at_ true false n);
    n ← lift_st (set_separator at_ sep n);
    n ← lift_st (set_child (S at_) right_child n);
    mret (None, n).

Section Change.
(** [child.change(Some((self, i)), depth - 1, ..)]. *)
Context (change_child : option (Node * nat) → Node → Changes → ST TRW (Node * Changes * ChangeRes)).

(** The part of [Node::insert] and [Node::remove] that goes into a child:
    [depth'] is the depth of the child. *)
Definition change_below (depth' : nat) (i : nat) (n : Node) (changes : Changes)
    : ST TRW (Node * Changes * ChangeRes) :=
  o ← fetch_child_st i n;
  match o with
  | Some child =>
      '(child, changes, r) ← change_child (Some (n, i)) child changes;
      n ← write_child i child n;
      match r with
      | (Some (sep, rc), _) => '(up, n) ← insert_node i sep rc n; mret (n, changes, (up, false))
      | (None, true) =>
          n ← rebalance (negb (depth' =? 0)%nat) i n;
          b ← lift_st (need_rebalance n);
          mret (n, changes, (None, b))
      | (None, false) => mret (n, changes, (None, false))
      end
  | None => mret (n, changes, (None, false))
  end.

(** [Node::insert]. *)
Definition node_insert (depth : nat) (key value : bytes) (n : Node) (changes : Changes)
    : ST TRW (Node * Changes * ChangeRes) :=
  let '(at_, i) := position key n in
  if at_ : bool then
    existing ← lift_st (separator_address i n);
    s ← create_separator key value existing;
    n ← lift_st (set_separator i s n);
    mret (n, changes, (None, false))
  else
    match depth with
    | S depth' => change_below depth' i n changes
    | O =>
        full ← lift_st (has_separator (ORDER - 1) n);
        if full : bool then
          s ← create_separator key value None;
          '(up, c, n) ← insert_split i s None n;
          mret (n, changes, (Some (up, c), false))
        else
          n ← lift_st (shift_from i false false n);
          s ← create_separator key value None;
          n ← lift_st (set_separator i s n);
          mret (n, changes, (None, false))
    end.

(** [Node::remove]. *)
Definition node_remove (depth : nat) (key : bytes) (n : Node) (changes : Changes)
    : ST TRW (Node * Changes * ChangeRes) :=
  let '(at_, i) := position key n in
  if at_ : bool then
    existing ← lift_st (separator_address i n);
    _ ← match existing with
        | Some existing => _ ← write_existing_value_plan NoHash existing None; mret tt
        | None => mret tt
        end;
    '(_, n) ← lift_st (remove_separator i n);
    n ← match depth with
        | S depth' =>
            o ← fetch_child_st i n;
            match o with
            | Some child =>
                '(need_balance, sep, child) ← remove_last depth' child;
                n ← write_child i child n;
                n ← lift_st (match sep with Some s => set_separator i s n | None => Ok n end);
                if need_balance : bool then rebalance (negb (depth' =? 0)%nat) i n else mret n
            | None => mret n
            end
        | O => lift_st (remove_from i false true n)
        end;
    b ← lift_st (need_rebalance n);
    mret (n, changes, (None, b))
  else
    match depth with
    | S depth' => change_below depth' i n changes
    | O => mret (n, changes, (None, false))
    end.

(** Whether the loop of [Node::change] goes on with the next change in the same
    node: the next key is before the last separator, or belongs to the same child
    of the parent, which is not its last. *)
Definition stays (parent : option (Node * nat)) (n : Node) (key : bytes) : bool :=
  match parent with
  | Some (parent, p) =>
      let '(at_, i) := position key n in
      if at_ || (i <? number_separator n)%nat then true
      else
        let '(at_, i) := position key parent in
        negb at_ && (i =? p)%nat && (i <? number_separator parent)%nat
  | None => false
  end.

(** The loop of [Node::change]; every turn but the last drops a change. *)
Fixpoint change_loop (fuel : nat) (depth : nat) (parent : option (Node * nat)) (n : Node)
    (changes : Changes) : ST TRW (Node * Changes * ChangeRes) :=
  match fuel with
  | O => lift_st NoFuel
  | S fuel' =>
      match changes with
      | [] => lift_st Panic
      | (key, value) :: rest =>
          if decide (fst <$> head rest = Some key) then change_loop fuel' depth parent n rest
          else
            '(n, changes, r) ← match value with
                               | Some value => node_insert depth key value n changes
                               | None => node_remove depth key n changes
                               end;
            match r with
            | (Some _, _) | (_, true) => mret (n, changes, r)
            | (None, false) =>
                match changes with
                | _ :: ((key, _) :: _) as rest =>
                    if stays parent n key then change_loop fuel' depth parent n rest
                    else mret (n, changes, (None, false))
                | _ => mret (n, changes, (None, false))
                end
            end
      end
  end.

End Change.

(** [Node::change]. *)
Fixpoint node_change (depth : nat) (parent : option (Node * nat)) (n : Node) (changes : Changes)
    : ST TRW (Node * Changes * ChangeRes) :=
  change_loop (match depth with
               | S depth' => node_change depth'
               | O => fun _ _ _ => lift_st Panic
               end) (S (length changes)) depth parent n changes.

(** The loop of [BTree::write_sorted_changes]. *)
Fixpoint write_changes_loop (fuel : nat) (t : BTree) (root : Node) (changes : Changes)
    : ST TRW (BTree * Node) :=
  match fuel with
  | O => lift_st NoFuel
  | S fuel' =>
      match changes with
      | [] => mret (t, root)
      | _ =>
          '(root, changes, r) ← node_change (Z.to_nat (bt_depth t)) None root changes;
          '(t, root) ←
            match r with
            | (Some (sep, r_node), _) =>
                let left_index := bt_root_index t in
                new_index ← write_node_plan root left_index;
                let new_index := match new_index with Some _ => new_index | None => left_index end in
                root ← lift_st (set_child 0 (new_child new_index) default_node);
                root ← lift_st (set_child 1 r_node root);
                root ← lift_st (set_separator 0 sep root);
                mret (MkBTree (wrap32 (bt_depth t + 1)) None (bt_record_id t), root)
            | (None, true) =>
                '(o, root) ← need_remove_root root;
                match o with
                | Some (node_index, node) =>
                    _ ← match bt_root_index t with
                        | Some index => write_plan_remove_node index
                        | None => mret tt
                        end;
                    mret (MkBTree (wrap32 (bt_depth t - 1)) node_index (bt_record_id t), node)
                | None => mret (t, root)
                end
            | (None, false) => mret (t, root)
            end;
          write_changes_loop fuel' t root (tail changes)
      end
  end.

(** [BTree::write_sorted_changes]. *)
Definition write_sorted_changes (t : BTree) (changes : Changes) : ST TRW BTree :=
  root ← fetch_root_st (default NULL_ADDRESS (bt_root_index t));
  '(t, root) ← write_changes_loop (S (length changes)) t root changes;
  if changed root then
    new_index ← write_node_plan root (bt_root_index t);
    mret (match new_index with
          | Some _ => MkBTree (bt_depth t) new_index (bt_record_id t)
          | None => t
          end)
  else mret t.

(** [BTreeTable::write_plan]. *)
Definition btree_write_plan (t : BTree) (record_id : Z) : ST TRW (BTree * BTreeHeader) :=
  root ← fetch_root_st (default NULL_ADDRESS (bt_root_index t));
  ix ← write_node_plan root (bt_root_index t);
  let t := MkBTree (bt_depth t) (match ix with Some _ => ix | None => bt_root_index t end) record_id in
  mret (t, MkBTreeHeader (default NULL_ADDRESS (bt_root_index t)) (bt_depth t)).

(** ** [BTreeChangeSet::write_plan] *)

(** [changes.sort_by_key(|(k, _)| k.clone())], a stable sort. *)
Fixpoint insert_sorted (c : bytes * option bytes) (l : Changes) : Changes :=
  match l with
  | [] => [c]
  | d :: l' => match bytes_compare c.1 d.1 with Gt => d :: insert_sorted c l' | _ => c :: l end
  end.
Definition sort_changes (l : Changes) : Changes := foldr insert_sorted [] l.

Definition changeset_write_plan (record_id : Z) (changes : Changes) : ST TRW unit :=
  '(r, w) ← get_st;
  tree ← lift_st (tree_open (tr_tables r) (tr_compression r) w record_id);
  let old := MkBTreeHeader (default NULL_ADDRESS (bt_root_index tree)) (bt_depth tree) in
  tree ← write_sorted_changes tree (sort_changes changes);
  '(_, header) ← btree_write_plan tree record_id;
  if decide (old = header) then mret tt
  else
    _ ← write_existing_value_plan NoHash HEADER_ADDRESS
          (Some (take BTREE_HEADER_SIZE (write_header header)));
    mret tt.

End Tree.

(** ** [BTreeTable] *)

Record BTreeTable := MkBTreeTable {
  btt_id : ColId;
  btt_tables : list ValueTable;
  btt_ref_counted : bool;
  btt_compression : Compress;
}.

Definition set_btt_tables (l : list ValueTable) (t : BTreeTable) : BTreeTable :=
  MkBTreeTable (btt_id t) l (btt_ref_counted t) (btt_compression t).

(** [BTreeTable::locked]; the statistics of an ordered column are [None]. *)
Definition btree_locked (t : BTreeTable) : TablesRef :=
  MkTablesRef (btt_tables t) (btt_compression t) false (btt_ref_counted t) None.

Definition BTW : Type := BTreeTable * LogWriter.
Definition on_btree {A} (m : ST TRW A) : ST BTW A :=
  zoom (fun '(t, w) => (btree_locked t, w)) (fun '(r, w) '(t, _) => (set_btt_tables (tr_tables r) t, w)) m.

Section Table.
Context `{!Uninit, !Codecs, !HashMapOrder}.

(** [BTreeTable::open] on the value tables of the column. *)
Definition btree_open (id : ColId) (values : list ValueTable) (metadata : Metadata) : outcome BTreeTable :=
  let size_tier := tier_of HEADER_ADDRESS in
  t ← unwrap (values !! size_tier);
  values ← (if is_init t then Ok values
            else
              let '(o, t') := init_with_entry (write_header (MkBTreeHeader NULL_ADDRESS 0)) t in
              _ ← o; Ok (<[size_tier := t']> values));
  options ← unwrap (meta_columns metadata !! Z.to_nat id);
  Ok (MkBTreeTable id values (ref_counted_opt options)
        (Compress.new (compression options) (compression_threshold options))).

(** [BTreeTable::enact_plan]; another action panics. *)
Definition btree_enact_plan (action : LogAction) : ST (BTreeTable * LogReader) unit :=
  match action with
  | InsertValue table index => fun '(t, r) =>
      match btt_tables t !! value_tier table with
      | Some vt =>
          let '(o, (vt', r')) := Table.enact_plan index (vt, r) in
          (o, (set_btt_tables (<[value_tier table := vt']> (btt_tables t)) t, r'))
      | None => (Panic, (t, r))
      end
  | _ => lift_st Panic
  end.

(** [BTreeTable::validate_plan]. *)
Definition btree_validate_plan (action : LogAction) : ST (BTreeTable * LogReader) unit :=
  match action with
  | InsertValue table index => fun '(t, r) =>
      match btt_tables t !! value_tier table with
      | Some vt =>
          let '(o, (vt', r')) := Table.validate_plan index (vt, r) in
          (o, (set_btt_tables (<[value_tier table := vt']> (btt_tables t)) t, r'))
      | None => (Panic, (t, r))
      end
  | _ => lift_st (Err (Corruption "Unexpected log action"))
  end.

(** [BTreeTable::complete_plan], [refresh_metadata] and [flush]. *)
Definition btree_complete_plan : ST BTW unit :=
  '(t, _) ← get_st; on_btree (complete_tables (seq 0 (length (btt_tables t)))).
Definition btree_refresh_metadata : ST BTreeTable unit := fun t =>
  let '(o, l) := each_table Table.refresh_metadata (btt_tables t) in (o, set_btt_tables l t).
Definition btree_flush : ST BTreeTable unit := fun t =>
  let '(o, l) := each_table Table.flush (btt_tables t) in (o, set_btt_tables l t).

End Table.
