(* ===== verification/Overlay.v ===== *)
(** * The commit overlay and change sets (src/src/db.rs, src/src/btree/mod.rs)

    The most recent values of the commits that are not logged yet, and the
    changes of one commit. *)

From S2P Require Import Prelude.
From S2P Require Import Bytes.
From S2P Require Import Ids.
From S2P Require Import Log.
From S2P Require Import Table.
From S2P Require Import Index.
From S2P Require Import Compress.
From S2P Require Import Stats.
From S2P Require Import Options.
From S2P Require Import Column.
From S2P Require Import HashColumn.
From S2P Require Import BTreeNode.
From S2P Require Import BTree.
From stdpp Require Import options.
#[local] Set Default Proof Using "Type*".

(** ** [BTreeMap<Vec<u8>, A>]: an association list in the order of the keys *)

Module OrdMap.
Section OrdMap.
Context {A : Type}.

Fixpoint get (key : bytes) (m : list (bytes * A)) : option A :=
  match m with
  | [] => None
  | (k, v) :: m => if decide (k = key) then Some v else get key m
  end.
Fixpoint insert (key : bytes) (a : A) (m : list (bytes * A)) : list (bytes * A) :=
  match m with
  | [] => [(key, a)]
  | (k, v) :: m' =>
      match bytes_compare key k with
      | Lt => (key, a) :: m
      | Eq => (key, a) :: m'
      | Gt => (k, v) :: insert key a m'
      end
  end.
Definition remove (key : bytes) (m : list (bytes * A)) : list (bytes * A) :=
  filter (fun p => p.1 ≠ key) m.
(** [range(key..)]. *)
Fixpoint range_from (key : bytes) (m : list (bytes * A)) : list (bytes * A) :=
  match m with
  | [] => []
  | (k, v) :: m' => match bytes_compare k key with Lt => range_from key m' | _ => m end
  end.

End OrdMap.
End OrdMap.

(** ** [CommitOverlay] *)

Abbreviation IndexedCommitOverlay := (gmap Key (Z * option bytes)).
Abbreviation BTreeCommitOverlay := (list (bytes * (Z * option bytes))).

Record CommitOverlay := MkCommitOverlay {
  co_indexed : IndexedCommitOverlay;
  co_btree : BTreeCommitOverlay;
}.

Definition set_co_indexed (m : IndexedCommitOverlay) (o : CommitOverlay) : CommitOverlay :=
  MkCommitOverlay m (co_btree o).
Definition set_co_btree (m : BTreeCommitOverlay) (o : CommitOverlay) : CommitOverlay :=
  MkCommitOverlay (co_indexed o) m.

Module CommitOverlay.

Definition new : CommitOverlay := MkCommitOverlay ∅ [].

(** [CommitOverlay::get] and [get_ref]. *)
Definition get (key : Key) (o : CommitOverlay) : option (option bytes) := snd <$> co_indexed o !! key.
(** [CommitOverlay::get_size]. *)
Definition get_size (key : Key) (o : CommitOverlay) : option (option Z) :=
  (fun v : option bytes => len32 <$> v) <$> get key o.
(** [CommitOverlay::btree_get]. *)
Definition btree_get (key : bytes) (o : CommitOverlay) : option (option bytes) :=
  snd <$> OrdMap.get key (co_btree o).
(** [CommitOverlay::btree_next]. *)
Definition btree_next (last_key : option bytes) (from_seek : bool) (o : CommitOverlay)
    : option (bytes * option bytes) :=
  let item := fun '(k, (_, v)) => (k, v) in
  match last_key with
  | Some key =>
      match OrdMap.range_from key (co_btree o) with
      | (k, v) :: rest =>
          if from_seek || bool_decide (k ≠ key) then Some (item (k, v)) else item <$> head rest
      | [] => None
      end
  | None => item <$> head (co_btree o)
  end.

End CommitOverlay.

(** ** Change sets *)

(** [IndexedChangeSet] and [BTreeChangeSet]; the column is the key of the map of
    [CommitChangeSet]. *)
Definition IndexedChangeSet : Type := list (Key * option bytes).
Definition BTreeChangeSet : Type := Changes.

Module IndexedChangeSet.

(** [IndexedChangeSet::push]. *)
Definition push `{!Blake2} (key : bytes) (v : option bytes) (salt : option bytes) (uniform : bool)
    (db_version : Z) (changes : IndexedChangeSet) : outcome IndexedChangeSet :=
  k ← hash_key key (default (replicate 32 x00) salt) uniform db_version;
  Ok (changes ++ [(k, v)]).

(** [IndexedChangeSet::copy_to_overlay]; [bytes] counts what is queued. *)
Definition copy_change (ref_counted : bool) (record_id : Z) (st : CommitOverlay * Z)
    (c : Key * option bytes) : CommitOverlay * Z :=
  let '(overlay, bytes) := st in
  let '(k, v) := c in
  let bytes := bytes + Z.of_nat (length k) + match v with Some v => Z.of_nat (length v) | None => 0 end in
  if negb ref_counted || bool_decide (is_Some v)
  then (set_co_indexed (<[k := (record_id, v)]> (co_indexed overlay)) overlay, bytes)
  else (overlay, bytes).
Definition copy_to_overlay (ref_counted : bool) (record_id : Z) (changes : IndexedChangeSet)
    (st : CommitOverlay * Z) : CommitOverlay * Z :=
  foldl (copy_change ref_counted record_id) st changes.

(** [IndexedChangeSet::write_plan] on a hash column: the number of operations,
    and whether a reindex was started. *)
Fixpoint write_plan `{!Uninit, !Codecs} (changes : IndexedChangeSet) (ops : Z) (reindex : bool)
    : ST CW (Z * bool) :=
  match changes with
  | [] => mret (ops, reindex)
  | (key, value) :: changes =>
      o ← HashColumn.write_plan key value;
      write_plan changes (ops + 1) (match o with NeedReindex => true | _ => reindex end)
  end.

(** [IndexedChangeSet::clean_overlay]. *)
Definition clean_key (record_id : Z) (m : IndexedCommitOverlay) (key : Key) : IndexedCommitOverlay :=
  match m !! key with
  | Some (id, _) => if id =? record_id then delete key m else m
  | None => m
  end.
Definition clean_overlay (record_id : Z) (changes : IndexedChangeSet) (o : CommitOverlay) : CommitOverlay :=
  set_co_indexed (foldl (clean_key record_id) (co_indexed o) (fst <$> changes)) o.

End IndexedChangeSet.

Module BTreeChangeSet.

(** [BTreeChangeSet::push]. *)
Definition push (k : bytes) (v : option bytes) (changes : BTreeChangeSet) : BTreeChangeSet :=
  changes ++ [(k, v)].

(** [BTreeChangeSet::copy_to_overlay]. *)
Definition copy_change (ref_counted : bool) (record_id : Z) (st : BTreeCommitOverlay * Z)
    (c : bytes * option bytes) : BTreeCommitOverlay * Z :=
  let '(overlay, bytes) := st in
  match c with
  | (key, Some value) =>
      (OrdMap.insert key (record_id, Some value) overlay,
       bytes + Z.of_nat (length key) + Z.of_nat (length value))
  | (key, None) =>
      (if ref_counted then overlay else OrdMap.insert key (record_id, None) overlay,
       bytes + Z.of_nat (length key))
  end.
Definition copy_to_overlay (ref_counted : bool) (record_id : Z) (changes : BTreeChangeSet)
    (st : BTreeCommitOverlay * Z) : BTreeCommitOverlay * Z :=
  foldl (copy_change ref_counted record_id) st changes.

(** [BTreeChangeSet::clean_overlay]; the changes are drained. *)
Definition clean_key (record_id : Z) (m : BTreeCommitOverlay) (key : bytes) : BTreeCommitOverlay :=
  match OrdMap.get key m with
  | Some (id, _) => if id =? record_id then OrdMap.remove key m else m
  | None => m
  end.
Definition clean_overlay (record_id : Z) (changes : BTreeChangeSet) (m : BTreeCommitOverlay)
    : BTreeCommitOverlay :=
  foldl (clean_key record_id) m (fst <$> changes).

End BTreeChangeSet.

(** [CommitChangeSet]: the change sets of the columns. *)
Record CommitChangeSet := MkCommitChangeSet {
  cs_indexed : gmap ColId IndexedChangeSet;
  cs_btree : gmap ColId BTreeChangeSet;
}.
