(* ===== verification/BTreeIter.v ===== *)
(** * Iteration over ordered columns (src/src/btree/iter.rs)

    The iterator over the tree and its merge with the commit overlay. *)

From S2P Require Import Prelude.
From S2P Require Import Bytes.
From S2P Require Import Ids.
From S2P Require Import Log.
From S2P Require Import Table.
From S2P Require Import Index.
From S2P Require Import Compress.
From S2P Require Import Stats.
From S2P Require Import Options.
From S2P Require Import Column.
From S2P Require Import HashColumn.
From S2P Require Import BTreeNode.
From S2P Require Import BTree.
From S2P Require Import Overlay.
From stdpp Require Import options.
#[local] Set Default Proof Using "Type*".

(** [BTreeIterState]: the stack has the deepest node first. *)
Record BTreeIterState := MkBTreeIterState {
  bi_state : list (nat * Node);
  bi_next_separator : bool;
  bi_record_id : Z;
}.

Definition set_bi_state (l : list (nat * Node)) (s : BTreeIterState) : BTreeIterState :=
  MkBTreeIterState l (bi_next_separator s) (bi_record_id s).
Definition set_bi_next (b : bool) (s : BTreeIterState) : BTreeIterState :=
  MkBTreeIterState (bi_state s) b (bi_record_id s).
Definition set_bi_record_id (id : Z) (s : BTreeIterState) : BTreeIterState :=
  MkBTreeIterState (bi_state s) (bi_next_separator s) id.

(** [BTreeIterState::new]. *)
Definition new_iter_state (record_id : Z) : BTreeIterState := MkBTreeIterState [] false record_id.

Section Iter.
Context `{!Uninit, !Codecs} {L} `{LogQuery L}.
Context (table : BTreeTable) (log : L).

Abbreviation tables := (btt_tables table).
Abbreviation comp := (btt_compression table).

(** [while let Some((ix, node)) = self.state.last_mut()]: down to the leaf. *)
Fixpoint descend (fuel : nat) : ST BTreeIterState unit :=
  match fuel with
  | O => lift_st NoFuel
  | S fuel' =>
      s ← get_st;
      match bi_state s with
      | (ix, node) :: _ =>
          child ← lift_st (fetch_child tables comp log ix node);
          match child with
          | Some child => _ ← put_st (set_bi_state ((0%nat, child) :: bi_state s) s); descend fuel'
          | None => mret tt
          end
      | [] => mret tt
      end
  end.

(** The last part of [BTreeIterState::next]: the separator at the position of
    the deepest node, or else of the first node above that has one. *)
Fixpoint next_in (state : list (nat * Node)) : ST BTreeIterState (option (bytes * bytes)) :=
  match state with
  | [] => mret None
  | (ix, node) :: rest =>
      a ← lift_st (if (ix <? ORDER)%nat then separator_address ix node else Ok None);
      match a with
      | Some address =>
          k ← lift_st (separator_key ix node);
          key ← lift_st (unwrap k);
          _ ← modify_st (fun s => set_bi_next false (set_bi_state ((S ix, node) :: rest) s));
          r ← lift_st (get_value (Fetch None) address tables comp log);
          mret (match r with Some (_, value) => Some (key, value) | None => None end)
      | None =>
          _ ← modify_st (fun s => set_bi_next true (set_bi_state rest s));
          next_in rest
      end
  end.

(** [BTreeIterState::next]. *)
Definition iter_next (t : BTree) : ST BTreeIterState (option (bytes * bytes)) :=
  s ← get_st;
  _ ← (if bi_next_separator s then mret tt
       else
         _ ← match bi_state s with
             | [] =>
                 root ← lift_st (fetch_root tables comp log (default NULL_ADDRESS (bt_root_index t)));
                 put_st (set_bi_state [(0%nat, root)] s)
             | _ => mret tt
             end;
         _ ← descend MAX_DEPTH;
         modify_st (set_bi_next true));
  s ← get_st;
  next_in (bi_state s).

(** [BTreeIterState::seek]. *)
Definition iter_seek (key : bytes) (t : BTree) (after : bool) : ST BTreeIterState unit :=
  _ ← modify_st (fun s => set_bi_next false (set_bi_state [] s));
  root ← lift_st (fetch_root tables comp log (default NULL_ADDRESS (bt_root_index t)));
  '(found, stack) ← lift_st (node_seek tables comp log (Z.to_nat (bt_depth t)) root key []);
  _ ← modify_st (set_bi_state stack);
  if (found && after)%bool then
    modify_st (fun s =>
      set_bi_next false
        (set_bi_state (match bi_state s with (ix, n) :: l => (S ix, n) :: l | [] => [] end) s))
  else modify_st (set_bi_next true).

End Iter.

(** ** [BTreeIterator] *)

Record BTreeIterator := MkBTreeIterator {
  it_tree : BTree;
  it_iter : BTreeIterState;
  it_col : ColId;
  it_pending_next_backend : option (option (bytes * bytes));
  it_last_key : option bytes;
  it_from_seek : bool;
}.

Definition set_backend (t : BTree) (s : BTreeIterState) (i : BTreeIterator) : BTreeIterator :=
  MkBTreeIterator t s (it_col i) (it_pending_next_backend i) (it_last_key i) (it_from_seek i).
Definition set_pending (p : option (option (bytes * bytes))) (i : BTreeIterator) : BTreeIterator :=
  MkBTreeIterator (it_tree i) (it_iter i) (it_col i) p (it_last_key i) (it_from_seek i).
Definition set_last (key : bytes) (i : BTreeIterator) : BTreeIterator :=
  MkBTreeIterator (it_tree i) (it_iter i) (it_col i) (it_pending_next_backend i) (Some key) (it_from_seek i).
Definition set_from_seek (b : bool) (i : BTreeIterator) : BTreeIterator :=
  MkBTreeIterator (it_tree i) (it_iter i) (it_col i) (it_pending_next_backend i) (it_last_key i) b.

Section Iterator.
Context `{!Uninit, !Codecs}.
Context (table : BTreeTable) (log : LogOverlays) (overlay : list CommitOverlay).

Abbreviation open_tree := (tree_open (btt_tables table) (btt_compression table) log).
Definition on_iter {A} (m : ST BTreeIterState A) : ST BTreeIterator A :=
  zoom it_iter (fun s i => set_backend (it_tree i) s i) m.

(** [BTreeIterator::new]. *)
Definition iterator_new (col : ColId) : outcome BTreeIterator :=
  tree ← open_tree (last_record_id log col);
  Ok (MkBTreeIterator tree (new_iter_state (bt_record_id tree)) col None None false).

(** [BTreeIterator::seek_backend]. *)
Definition seek_backend (key : bytes) (record_id : Z) (after : bool) : ST BTreeIterator unit :=
  i ← get_st;
  _ ← (if record_id =? bt_record_id (it_tree i) then mret tt
       else
         new_tree ← lift_st (open_tree record_id);
         put_st (set_backend new_tree (set_bi_record_id record_id (it_iter i)) i));
  i ← get_st;
  on_iter (iter_seek table log key (it_tree i) after).

(** [BTreeIterator::seek]. *)
Definition iterator_seek (key : bytes) : ST BTreeIterator unit :=
  _ ← modify_st (fun i => set_pending None (set_last key (set_from_seek true i)));
  i ← get_st;
  seek_backend key (last_record_id log (it_col i)) false.

(** [BTreeIterator::next_backend]. *)
Definition next_backend (record_id : Z) : ST BTreeIterator (option (bytes * bytes)) :=
  i ← get_st;
  _ ← (if record_id =? bt_record_id (it_tree i) then mret tt
       else
         new_tree ← lift_st (open_tree record_id);
         _ ← put_st (set_backend new_tree (it_iter i) i);
         _ ← match it_last_key i with
             | Some last_key => on_iter (iter_seek table log last_key new_tree true)
             | None => mret tt
             end;
         on_iter (modify_st (set_bi_record_id record_id)));
  i ← get_st;
  on_iter (iter_next table log (it_tree i)).

(** [BTreeIterator::next]: every call to itself is past one more key of the
    overlay. *)
Fixpoint iterator_next (fuel : nat) : ST BTreeIterator (option (bytes * bytes)) :=
  match fuel with
  | O => lift_st NoFuel
  | S fuel' =>
      i ← get_st;
      let record_id := last_record_id log (it_col i) in
      let next_commit_overlay :=
        overlay !! Z.to_nat (it_col i) ≫= CommitOverlay.btree_next (it_last_key i) (it_from_seek i) in
      _ ← (if record_id =? bi_record_id (it_iter i) then mret tt else modify_st (set_pending None));
      i ← get_st;
      next ← match it_pending_next_backend i with
             | Some n => _ ← modify_st (set_pending None); mret n
             | None => next_backend record_id
             end;
      let past key := modify_st (fun i => set_from_seek false (set_last key i)) in
      match next_commit_overlay, next with
      | Some (commit_key, commit_value), Some (backend_key, backend_value) =>
          match bytes_compare commit_key backend_key with
          | Lt =>
              _ ← past commit_key;
              _ ← modify_st (set_pending (Some (Some (backend_key, backend_value))));
              match commit_value with
              | Some value => mret (Some (commit_key, value))
              | None => iterator_next fuel'
              end
          | Gt => _ ← modify_st (set_last backend_key); mret (Some (backend_key, backend_value))
          | Eq =>
              _ ← past commit_key;
              match commit_value with
              | Some value => mret (Some (backend_key, value))
              | None => iterator_next fuel'
              end
          end
      | Some (commit_key, commit_value), None =>
          _ ← past commit_key;
          _ ← modify_st (set_pending (Some None));
          match commit_value with
          | Some value => mret (Some (commit_key, value))
          | None => iterator_next fuel'
          end
      | None, Some (backend_key, backend_value) =>
          _ ← modify_st (set_last backend_key); mret (Some (backend_key, backend_value))
      | None, None => _ ← modify_st (set_pending (Some None)); mret None
      end
  end.

End Iterator.
