(* ===== verification/Db.v ===== *)
(** * The database (src/src/db.rs)

    [DbInner]: the columns, the log, the queue of commits and their overlay, and
    the operations of the four worker threads. Locks make every operation here
    atomic; a wait that only another thread can end does not return ([NoFuel]),
    and what runs after such a wait is a definition of its own. *)

From S2P Require Import Prelude.
From S2P Require Import Bytes.
From S2P Require Import Ids.
From S2P Require Import File.
From S2P Require Import Log.
From S2P Require Import LogState.
From S2P Require Import Table.
From S2P Require Import Index.
From S2P Require Import Compress.
From S2P Require Import Stats.
From S2P Require Import Options.
From S2P Require Import Column.
From S2P Require Import HashColumn.
From S2P Require Import BTreeNode.
From S2P Require Import BTree.
From S2P Require Import Overlay.
From S2P Require Import BTreeIter.
From stdpp Require Import options.
#[local] Set Default Proof Using "Type*".

(** ** Constants *)

Definition MAX_COMMIT_QUEUE_BYTES : Z := 16 * 1024 * 1024.
Definition MAX_LOG_QUEUE_BYTES : Z := 128 * 1024 * 1024.
Definition MIN_LOG_SIZE_BYTES : Z := 64 * 1024 * 1024.
Definition KEEP_LOGS : nat := 16.

(** ** Columns *)

(** [pub enum Column] (src/src/column.rs). *)
Inductive Column :=
| Hash (c : HashColumn)
| Tree (t : BTreeTable).

Section Columns.
Context `{!Uninit, !Codecs, !HashMapOrder}.

(** [Column::complete_plan]. *)
Definition any_complete_plan : ST (Column * LogWriter) unit := fun '(c, w) =>
  match c with
  | Hash c => let '(o, (c, w)) := column_complete_plan (c, w) in (o, (Hash c, w))
  | Tree t => let '(o, (t, w)) := btree_complete_plan (t, w) in (o, (Tree t, w))
  end.

(** [Column::validate_plan]. *)
Definition any_validate_plan (action : LogAction) : ST (Column * LogReader) unit := fun '(c, r) =>
  match c with
  | Hash c => let '(o, (c, r)) := column_validate_plan action (c, r) in (o, (Hash c, r))
  | Tree t => let '(o, (t, r)) := btree_validate_plan action (t, r) in (o, (Tree t, r))
  end.

(** [Column::enact_plan]. *)
Definition any_enact_plan (action : LogAction) : ST (Column * LogReader) unit := fun '(c, r) =>
  match c with
  | Hash c => let '(o, (c, r)) := column_enact_plan action (c, r) in (o, (Hash c, r))
  | Tree t => let '(o, (t, r)) := btree_enact_plan action (t, r) in (o, (Tree t, r))
  end.

(** [Column::flush] and [Column::refresh_metadata]. *)
Definition any_flush : ST Column unit := fun c =>
  match c with
  | Hash c => let '(o, c) := column_flush c in (o, Hash c)
  | Tree t => let '(o, t) := btree_flush t in (o, Tree t)
  end.
Definition any_refresh_metadata : ST Column unit := fun c =>
  match c with
  | Hash c => let '(o, c) := column_refresh_metadata c in (o, Hash c)
  | Tree t => let '(o, t) := btree_refresh_metadata t in (o, Tree t)
  end.

(** [Column::write_stats] without the text, and [Column::clear_stats]. *)
Definition any_write_stats (c : Column) : outcome Column :=
  match c with Hash c => Hash <$> column_write_stats c | Tree t => Ok (Tree t) end.
Definition any_clear_stats (c : Column) : outcome Column :=
  match c with Hash c => Hash <$> column_clear_stats c | Tree t => Ok (Tree t) end.

End Columns.

(** ** State *)

(** [Commit]. *)
Record Commit := MkCommit {
  commit_id : Z;
  commit_bytes : Z;
  changeset : CommitChangeSet;
}.

(** [CommitQueue]. *)
Record CommitQueue := MkCommitQueue {
  queue_record_id : Z;
  queue_bytes : Z;
  commits : list Commit;
}.

(** The [work] flags of the [WaitCondvar]s of the workers. *)
Record Signals := MkSignals {
  log_work : bool;
  commit_work : bool;
  flush_work : bool;
  cleanup_work : bool;
}.

(** [DbInner]; [log_queue] is the counter of [log_queue_wait]. *)
Record DbInner := MkDbInner {
  db_columns : list Column;
  db_options : Options;
  db_shutdown : bool;
  db_log : LogFiles;
  commit_queue : CommitQueue;
  commit_overlay : list CommitOverlay;
  log_queue : Z;
  db_signals : Signals;
  last_enacted : Z;
  next_reindex : Z;
  bg_err : option Error;
  db_version : Z;
}.

Definition set_columns (l : list Column) (d : DbInner) : DbInner :=
  MkDbInner l (db_options d) (db_shutdown d) (db_log d) (commit_queue d) (commit_overlay d)
    (log_queue d) (db_signals d) (last_enacted d) (next_reindex d) (bg_err d) (db_version d).
Definition set_log (l : LogFiles) (d : DbInner) : DbInner :=
  MkDbInner (db_columns d) (db_options d) (db_shutdown d) l (commit_queue d) (commit_overlay d)
    (log_queue d) (db_signals d) (last_enacted d) (next_reindex d) (bg_err d) (db_version d).
Definition set_commit_queue (q : CommitQueue) (d : DbInner) : DbInner :=
  MkDbInner (db_columns d) (db_options d) (db_shutdown d) (db_log d) q (commit_overlay d)
    (log_queue d) (db_signals d) (last_enacted d) (next_reindex d) (bg_err d) (db_version d).
Definition set_commit_overlay (o : list CommitOverlay) (d : DbInner) : DbInner :=
  MkDbInner (db_columns d) (db_options d) (db_shutdown d) (db_log d) (commit_queue d) o
    (log_queue d) (db_signals d) (last_enacted d) (next_reindex d) (bg_err d) (db_version d).
Definition set_log_queue (n : Z) (d : DbInner) : DbInner :=
  MkDbInner (db_columns d) (db_options d) (db_shutdown d) (db_log d) (commit_queue d)
    (commit_overlay d) n (db_signals d) (last_enacted d) (next_reindex d) (bg_err d) (db_version d).
Definition set_signals (s : Signals) (d : DbInner) : DbInner :=
  MkDbInner (db_columns d) (db_options d) (db_shutdown d) (db_log d) (commit_queue d)
    (commit_overlay d) (log_queue d) s (last_enacted d) (next_reindex d) (bg_err d) (db_version d).
Definition set_last_enacted (n : Z) (d : DbInner) : DbInner :=
  MkDbInner (db_columns d) (db_options d) (db_shutdown d) (db_log d) (commit_queue d)
    (commit_overlay d) (log_queue d) (db_signals d) n (next_reindex d) (bg_err d) (db_version d).
Definition set_next_reindex (n : Z) (d : DbInner) : DbInner :=
  MkDbInner (db_columns d) (db_options d) (db_shutdown d) (db_log d) (commit_queue d)
    (commit_overlay d) (log_queue d) (db_signals d) (last_enacted d) n (bg_err d) (db_version d).
Definition set_bg_err (e : option Error) (shutdown : bool) (d : DbInner) : DbInner :=
  MkDbInner (db_columns d) (db_options d) shutdown (db_log d) (commit_queue d)
    (commit_overlay d) (log_queue d) (db_signals d) (last_enacted d) (next_reindex d) e (db_version d).

(** [WaitCondvar::signal] of each worker. *)
Definition signal_log (d : DbInner) : DbInner :=
  let s := db_signals d in set_signals (MkSignals true (commit_work s) (flush_work s) (cleanup_work s)) d.
Definition signal_commit (d : DbInner) : DbInner :=
  let s := db_signals d in set_signals (MkSignals (log_work s) true (flush_work s) (cleanup_work s)) d.
Definition signal_flush (d : DbInner) : DbInner :=
  let s := db_signals d in set_signals (MkSignals (log_work s) (commit_work s) true (cleanup_work s)) d.
Definition signal_cleanup (d : DbInner) : DbInner :=
  let s := db_signals d in set_signals (MkSignals (log_work s) (commit_work s) (flush_work s) true) d.

(** Running an operation of the log. *)
Definition on_db_log {A} (m : ST LogFiles A) : ST DbInner A := zoom db_log set_log m.

(** [for x in iter { f(x)? }] on some state. *)
Fixpoint for_each {S X : Type} (f : X → ST S unit) (l : list X) : ST S unit :=
  match l with
  | [] => mret tt
  | x :: l => _ ← f x; for_each f l
  end.

(** [self.columns[i]], which panics when there is no such column. *)
Definition at_column {R A : Type} (i : nat) (m : ST (Column * R) A) : ST (list Column * R) A :=
  fun '(l, r) =>
  match l !! i with
  | Some c => let '(o, (c', r')) := m (c, r) in (o, (<[i := c']> l, r'))
  | None => (Panic, (l, r))
  end.

(** [DbInner::shutdown]. *)
Definition shutdown (d : DbInner) : DbInner :=
  signal_cleanup (signal_commit (signal_log (signal_flush (set_bg_err (bg_err d) true d)))).

(** [DbInner::store_err]. *)
Definition store_err (result : outcome unit) (d : DbInner) : DbInner :=
  match result with
  | Err e => match bg_err d with None => shutdown (set_bg_err (Some e) (db_shutdown d) d) | Some _ => d end
  | _ => d
  end.

(** [DbInner::start_reindex]. *)
Definition start_reindex (record_id : Z) (d : DbInner) : DbInner := set_next_reindex record_id d.

Section Db.
Context `{!Uninit, !Codecs, !HashMapOrder, !Crc32, !Blake2}.

(** ** Queries *)

(** [DbInner::get]: the commit overlay first, then the tables and the log. *)
Definition db_get (col : ColId) (key : bytes) : ST DbInner (option bytes) := fun d =>
  let i := Z.to_nat col in
  match db_columns d !! i with
  | Some (Hash c) =>
      match column_hash_key c key with
      | Ok key =>
          match commit_overlay d !! i ≫= CommitOverlay.get key with
          | Some v => (Ok v, d)
          | None =>
              let '(r, c') := column_get key (lg_overlays (db_log d)) c in
              (r, set_columns (<[i := Hash c']> (db_columns d)) d)
          end
      | Err e => (Err e, d)
      | Panic => (Panic, d)
      | Undefined => (Undefined, d)
      | Deadlock => (Deadlock, d)
      | NoFuel => (NoFuel, d)
      end
  | Some (Tree t) =>
      match commit_overlay d !! i ≫= CommitOverlay.btree_get key with
      | Some v => (Ok v, d)
      | None =>
          (btree_get (btt_tables t) (btt_compression t) (lg_overlays (db_log d)) key, d)
      end
  | None => (Panic, d)
  end.

(** [DbInner::get_size]. *)
Definition db_get_size (col : ColId) (key : bytes) : ST DbInner (option Z) := fun d =>
  let i := Z.to_nat col in
  match db_columns d !! i with
  | Some (Hash c) =>
      match column_hash_key c key with
      | Ok key =>
          match commit_overlay d !! i ≫= CommitOverlay.get_size key with
          | Some v => (Ok v, d)
          | None =>
              let '(r, c') := column_get_size key (lg_overlays (db_log d)) c in
              (r, set_columns (<[i := Hash c']> (db_columns d)) d)
          end
      | Err e => (Err e, d)
      | Panic => (Panic, d)
      | Undefined => (Undefined, d)
      | Deadlock => (Deadlock, d)
      | NoFuel => (NoFuel, d)
      end
  | Some (Tree t) =>
      match commit_overlay d !! i ≫= CommitOverlay.btree_get key with
      | Some v => (Ok (len32 <$> v), d)
      | None =>
          (fmap (fun v : option bytes => len32 <$> v)
             (btree_get (btt_tables t) (btt_compression t) (lg_overlays (db_log d)) key), d)
      end
  | None => (Panic, d)
  end.

(** [DbInner::btree_iter]. *)
Definition db_btree_iter (col : ColId) (d : DbInner) : outcome BTreeIterator :=
  c ← unwrap (db_columns d !! Z.to_nat col);
  match c with
  | Hash _ => Err (InvalidConfiguration "Not an indexed column.")
  | Tree t => iterator_new t (lg_overlays (db_log d)) col
  end.

(** [DbInner::iter_column_while]; it is not implemented for ordered columns. *)
Definition db_iter_column_while {A} (col : ColId) (f : A → IterState → A * bool) (d : DbInner) : ST A unit :=
  c ← lift_st (unwrap (db_columns d !! Z.to_nat col));
  match c with
  | Hash c => column_iter_while (lg_overlays (db_log d)) c f
  | Tree _ => lift_st Panic
  end.

(** ** Commits *)

(** The loop of [DbInner::commit] that sorts the changes by column. *)
Fixpoint commit_changes (options : Options) (version : Z) (tx : list (ColId * bytes * option bytes))
    (cs : CommitChangeSet) : outcome CommitChangeSet :=
  match tx with
  | [] => Ok cs
  | (c, k, v) :: tx =>
      o ← unwrap (columns options !! Z.to_nat c);
      cs ← (if btree_index o then
              let changes := BTreeChangeSet.push k v (default [] (cs_btree cs !! c)) in
              Ok (MkCommitChangeSet (cs_indexed cs) (<[c := changes]> (cs_btree cs)))
            else
              changes ← IndexedChangeSet.push k v (salt_opt options) (uniform o) version
                          (default [] (cs_indexed cs !! c));
              Ok (MkCommitChangeSet (<[c := changes]> (cs_indexed cs)) (cs_btree cs)));
      commit_changes options version tx cs
  end.

(** [indexed.copy_to_overlay(&mut overlay[c], ...)] and the same for the ordered
    changes; the state is the overlays and the bytes counted so far. *)
Definition copy_indexed (options : Options) (record_id : Z) (e : ColId * IndexedChangeSet)
    : ST (list CommitOverlay * Z) unit := fun '(l, b) =>
  let '(c, changes) := e in
  match l !! Z.to_nat c, columns options !! Z.to_nat c with
  | Some o, Some opt =>
      let '(o, b) := IndexedChangeSet.copy_to_overlay (ref_counted_opt opt) record_id changes (o, b) in
      (Ok tt, (<[Z.to_nat c := o]> l, b))
  | _, _ => (Panic, (l, b))
  end.
Definition copy_btree (options : Options) (record_id : Z) (e : ColId * BTreeChangeSet)
    : ST (list CommitOverlay * Z) unit := fun '(l, b) =>
  let '(c, changes) := e in
  match l !! Z.to_nat c, columns options !! Z.to_nat c with
  | Some o, Some opt =>
      let '(m, b) := BTreeChangeSet.copy_to_overlay (ref_counted_opt opt) record_id changes (co_btree o, b) in
      (Ok tt, (<[Z.to_nat c := set_co_btree m o]> l, b))
  | _, _ => (Panic, (l, b))
  end.
Definition copy_commit (options : Options) (record_id : Z) (cs : CommitChangeSet)
    : ST (list CommitOverlay * Z) unit :=
  _ ← for_each (copy_indexed options record_id) (iter (cs_indexed cs));
  for_each (copy_btree options record_id) (iter (cs_btree cs)).

(** [DbInner::commit_raw] once the queue has room. *)
Definition commit_enqueue (cs : CommitChangeSet) : ST DbInner unit := fun d =>
  match bg_err d with
  | Some e => (Err (Background e), d)
  | None =>
      let q := commit_queue d in
      let q := MkCommitQueue (wrap64 (queue_record_id q + 1)) (queue_bytes q) (commits q) in
      let record_id := wrap64 (queue_record_id q + 1) in
      let '(o, (overlay, bytes)) :=
        copy_commit (db_options d) record_id cs (commit_overlay d, 0) in
      let d := set_commit_overlay overlay d in
      match o with
      | Ok _ =>
          (Ok tt, signal_log (set_commit_queue
             (MkCommitQueue (queue_record_id q) (wrap64 (queue_bytes q + bytes))
                (commits q ++ [MkCommit record_id bytes cs])) d))
      | o => (o, set_commit_queue q d)
      end
  end.

(** [DbInner::commit_raw]: it waits while the queue is full. *)
Definition commit_raw (cs : CommitChangeSet) : ST DbInner unit := fun d =>
  if MAX_COMMIT_QUEUE_BYTES <? queue_bytes (commit_queue d) then (NoFuel, d)
  else commit_enqueue cs d.

(** [DbInner::commit]. *)
Definition db_commit (tx : list (ColId * bytes * option bytes)) : ST DbInner unit :=
  d ← get_st;
  cs ← lift_st (commit_changes (db_options d) (db_version d) tx (MkCommitChangeSet ∅ ∅));
  commit_raw cs.

(** ** The log worker *)

(** The columns and the writer of a record, with the number of operations and
    whether a reindex was started. *)
Definition Plan : Type := (list Column * LogWriter) * (Z * bool).

(** [IndexedChangeSet::write_plan]: changes of another kind of column are
    skipped. *)
Definition plan_indexed (e : ColId * IndexedChangeSet) : ST Plan unit := fun '(s, (ops, reindex)) =>
  let '(c, changes) := e in
  let '(o, s) := at_column (Z.to_nat c) (fun '(col, w) =>
    match col with
    | Hash hc =>
        let '(o, (hc, w)) := IndexedChangeSet.write_plan changes ops reindex (hc, w) in (o, (Hash hc, w))
    | Tree t => (Ok (ops, reindex), (Tree t, w))
    end) s in
  match o with
  | Ok (ops, reindex) => (Ok tt, (s, (ops, reindex)))
  | Err e => (Err e, (s, (ops, reindex)))
  | Panic => (Panic, (s, (ops, reindex)))
  | Undefined => (Undefined, (s, (ops, reindex)))
  | Deadlock => (Deadlock, (s, (ops, reindex)))
  | NoFuel => (NoFuel, (s, (ops, reindex)))
  end.

(** The changes of an ordered column. *)
Definition plan_btree (e : ColId * BTreeChangeSet) : ST Plan unit := fun '(s, (ops, reindex)) =>
  let '(c, changes) := e in
  let '(o, s) := at_column (Z.to_nat c) (fun '(col, w) =>
    match col with
    | Hash hc => (Err (InvalidConfiguration "Not an indexed column."), (Hash hc, w))
    | Tree t =>
        let '(o, (t, w)) := on_btree (changeset_write_plan (LogWriter.record_id w) changes) (t, w) in
        (o, (Tree t, w))
    end) s in
  (o, (s, (wrap64 (ops + Z.of_nat (length changes)), reindex))).

(** [c.complete_plan(&mut writer)?]: the final changes to the value tables. *)
Definition plan_complete (i : nat) : ST Plan unit :=
  zoom fst (fun s '(_, n) => (s, n)) (at_column i any_complete_plan).

(** The plan of a commit. *)
Definition plan_commit (cs : CommitChangeSet) : ST Plan unit :=
  _ ← for_each plan_indexed (iter (cs_indexed cs));
  _ ← for_each plan_btree (iter (cs_btree cs));
  '((l, _), _) ← get_st;
  for_each plan_complete (seq 0 (length l)).

(** The cleanup of the commit overlay. *)
Definition clean_indexed (id : Z) (e : ColId * IndexedChangeSet) : ST (list CommitOverlay) unit := fun l =>
  match l !! Z.to_nat e.1 with
  | Some o => (Ok tt, <[Z.to_nat e.1 := IndexedChangeSet.clean_overlay id e.2 o]> l)
  | None => (Panic, l)
  end.
Definition clean_btree (id : Z) (e : ColId * BTreeChangeSet) : ST (list CommitOverlay) unit := fun l =>
  match l !! Z.to_nat e.1 with
  | Some o => (Ok tt, <[Z.to_nat e.1 := set_co_btree (BTreeChangeSet.clean_overlay id e.2 (co_btree o)) o]> l)
  | None => (Panic, l)
  end.
Definition clean_commit (id : Z) (cs : CommitChangeSet) : ST (list CommitOverlay) unit :=
  _ ← for_each (clean_indexed id) (iter (cs_indexed cs));
  for_each (clean_btree id) (iter (cs_btree cs)).

(** Running a plan in a new record, which is then written to the log: the id of
    the record and what the plan counted. *)
Definition log_record (plan : ST Plan unit) : ST DbInner (Z * bool) :=
  writer ← on_db_log begin_record;
  '(writer, reindex) ← (fun d =>
    let '(o, ((l, w), (_, reindex))) := plan ((db_columns d, writer), (0, false)) in
    (_ ← o; Ok (w, reindex), set_columns l d));
  bytes ← on_db_log (end_record (LogWriter.drain writer));
  _ ← modify_st (fun d => signal_flush (set_log_queue (swrap64 (log_queue d + swrap64 bytes)) d));
  mret (LogWriter.record_id writer, reindex).

(** Taking the first commit of the queue. *)
Definition pop_commit : ST DbInner (option Commit) := fun d =>
  let q := commit_queue d in
  match commits q with
  | commit :: rest =>
      (Ok (Some commit),
       set_commit_queue (MkCommitQueue (queue_record_id q) (wrap64 (queue_bytes q - commit_bytes commit)) rest) d)
  | [] => (Ok None, d)
  end.

(** [DbInner::process_commits] once the log queue has room. *)
Definition process_next_commit : ST DbInner bool :=
  commit ← pop_commit;
  match commit with
  | Some commit =>
      '(record_id, reindex) ← log_record (plan_commit (changeset commit));
      _ ← zoom commit_overlay set_commit_overlay (clean_commit (commit_id commit) (changeset commit));
      _ ← modify_st (fun d => if reindex : bool then start_reindex record_id d else d);
      mret true
  | None => mret false
  end.

(** [DbInner::process_commits]: it waits while the log queue is full. *)
Definition process_commits : ST DbInner bool := fun d =>
  if negb (db_shutdown d) && (MAX_LOG_QUEUE_BYTES <? log_queue d) then (NoFuel, d)
  else process_next_commit d.

(** The plan of a batch of moved index entries. *)
Definition plan_reindex (i : nat) (b : ReindexBatch) : ST Plan unit :=
  _ ← for_each (fun '(key, address) '(s, (ops, next)) =>
        let '(o, s) := at_column i (fun '(col, w) =>
          match col with
          | Hash hc => let '(o, (hc, w)) := write_reindex_plan key address (hc, w) in (o, (Hash hc, w))
          | Tree t => (Panic, (Tree t, w))
          end) s in
        (_ ← o; Ok tt, (s, (ops, match o with Ok NeedReindex => true | _ => next end))))
      (batch b);
  match drop_index_id b with
  | Some table => modify_st (fun '((l, w), n) => ((l, LogWriter.drop_table table w), n))
  | None => mret tt
  end.

(** The loop of [DbInner::process_reindex] over the columns; the first column
    with work ends it. *)
Fixpoint reindex_columns (tiers : list nat) : ST DbInner bool :=
  match tiers with
  | [] => _ ← modify_st (set_next_reindex 0); mret false
  | i :: tiers =>
      d ← get_st;
      match db_columns d !! i with
      | Some (Hash c) =>
          b ← (fun d =>
            let '(o, c) := column_reindex (lg_overlays (db_log d)) c in
            (o, set_columns (<[i := Hash c]> (db_columns d)) d));
          if negb (length (batch b) =? 0)%nat || bool_decide (is_Some (drop_index_id b)) then
            '(record_id, next) ← log_record (plan_reindex i b);
            _ ← modify_st (fun d => if next : bool then start_reindex record_id d else d);
            mret true
          else reindex_columns tiers
      | _ => reindex_columns tiers
      end
  end.

(** [DbInner::process_reindex]. *)
Definition process_reindex : ST DbInner bool :=
  d ← get_st;
  if (next_reindex d =? 0) || (last_enacted d <? next_reindex d) then mret false
  else reindex_columns (seq 0 (length (db_columns d))).

(** ** The commit worker *)

Definition DR : Type := DbInner * LogReader.
Definition on_reader {A} (m : ST LogReader A) : ST DR A := zoom snd (fun r '(d, _) => (d, r)) m.
Definition on_columns {A} (m : ST (list Column * LogReader) A) : ST DR A :=
  zoom (fun '(d, r) => (db_columns d, r)) (fun '(l, r) '(d, _) => (set_columns l d, r)) m.

(** The loop that validates a record: [false] if the log is to be cleared. A
    turn reads at least one byte of the file. *)
Fixpoint validate_loop (fuel : nat) : ST DR bool :=
  match fuel with
  | O => lift_st NoFuel
  | S fuel' => fun s =>
      let check (col : ColId) (action : LogAction) : ST DR bool := fun s =>
        match on_columns (at_column (Z.to_nat col) (any_validate_plan action)) s with
        | (Ok _, s) => validate_loop fuel' s
        | (Err _, s) => (Ok false, s)
        | (Panic, s) => (Panic, s)
        | (Undefined, s) => (Undefined, s)
        | (Deadlock, s) => (Deadlock, s)
        | (NoFuel, s) => (NoFuel, s)
        end in
      match on_reader LogReader.next s with
      | (Ok BeginRecord, s) => (Ok false, s)
      | (Ok EndRecord, s) => (Ok true, s)
      | (Ok (InsertIndex table index), s) => check (IndexTableId.col table) (InsertIndex table index) s
      | (Ok (InsertValue table index), s) => check (ValueTableId.col table) (InsertValue table index) s
      | (Ok (DropTable _), s) => validate_loop fuel' s
      | (Err _, s) => (Ok false, s)
      | (Panic, s) => (Panic, s)
      | (Undefined, s) => (Undefined, s)
      | (Deadlock, s) => (Deadlock, s)
      | (NoFuel, s) => (NoFuel, s)
      end
  end.

(** The loop that enacts a record. *)
Fixpoint enact_loop (fuel : nat) : ST DR unit :=
  match fuel with
  | O => lift_st NoFuel
  | S fuel' =>
      action ← on_reader LogReader.next;
      match action with
      | BeginRecord => lift_st (Err (Corruption "Bad log record"))
      | EndRecord => mret tt
      | InsertIndex table _ =>
          _ ← on_columns (at_column (Z.to_nat (IndexTableId.col table)) (any_enact_plan action));
          enact_loop fuel'
      | InsertValue table _ =>
          _ ← on_columns (at_column (Z.to_nat (ValueTableId.col table)) (any_enact_plan action));
          enact_loop fuel'
      | DropTable id =>
          _ ← (fun '(d, r) =>
            let i := Z.to_nat (IndexTableId.col id) in
            match db_columns d !! i with
            | Some (Hash c) =>
                (Ok tt, (start_reindex (reader_record_id r)
                           (set_columns (<[i := Hash (column_drop_index id c)]> (db_columns d)) d), r))
            | Some (Tree _) => (Ok tt, (d, r))
            | None => (Panic, (d, r))
            end);
          enact_loop fuel'
      end
  end.

Definition read_fuel (r : LogReader) : nat := S (length (reader_file r)).

(** The validation of the record the reader is at; the reader returns to the
    start of the record. *)
Definition validate_record : ST DR bool :=
  '(d, r) ← get_st;
  if reader_record_id r =? wrap64 (last_enacted d + 1) then
    valid ← validate_loop (read_fuel r);
    if valid : bool then
      _ ← on_reader (modify_st LogReader.reset);
      _ ← on_reader LogReader.next;
      mret true
    else mret false
  else mret false.

(** Running the reader of a record: its position is kept by the log. *)
Definition with_reader {A} (r : LogReader) (m : ST DR A) : ST DbInner (A * LogReader) := fun d =>
  let '(o, (d, r)) := m (d, r) in
  (a ← o; Ok (a, r), set_log (put_reader r (db_log d)) d).

(** The end of a record that was enacted. *)
Definition finish_record (validation_mode : bool) (r : LogReader) : ST DbInner unit :=
  let record_id := reader_record_id r in
  _ ← modify_st (set_last_enacted record_id);
  _ ← on_db_log (end_read (LogReader.drain r) record_id);
  modify_st (fun d => if validation_mode then d
                      else set_log_queue (swrap64 (log_queue d - swrap64 (read_bytes r))) d).

(** [DbInner::enact_logs]: whether a record was enacted. *)
Definition enact_logs (validation_mode : bool) : ST DbInner bool := fun d =>
  match on_db_log (read_next validation_mode) d with
  | (Ok (Some r), d) =>
      (valid ← (if validation_mode then with_reader r validate_record else mret (true, r));
       match valid with
       | (true, r) =>
           '(_, r) ← with_reader r (enact_loop (read_fuel r));
           _ ← finish_record validation_mode r;
           mret true
       | (false, _) => _ ← on_db_log clear_replay_logs; mret false
       end) d
  | (Ok None, d) => (Ok false, d)
  | (Err (Corruption m), d) =>
      if validation_mode then (_ ← on_db_log clear_replay_logs; mret false) d
      else (Err (Corruption m), d)
  | (Err e, d) => (Err e, d)
  | (Panic, d) => (Panic, d)
  | (Undefined, d) => (Undefined, d)
  | (Deadlock, d) => (Deadlock, d)
  | (NoFuel, d) => (NoFuel, d)
  end.

(** ** The flush and cleanup workers *)

(** [DbInner::flush_logs]. *)
Definition flush_logs (min_log_size : Z) : ST DbInner bool :=
  '(flush_next, read_next, cleanup_next) ← on_db_log (flush_one min_log_size);
  _ ← modify_st (fun d => if read_next : bool then signal_commit d else d);
  _ ← modify_st (fun d => if cleanup_next : bool then signal_cleanup d else d);
  mret flush_next.

(** [for c in self.columns.iter() { c.m()?; }]. *)
Definition each_column (m : ST Column unit) : ST DbInner unit :=
  d ← get_st;
  for_each (fun i => fun d =>
    match db_columns d !! i with
    | Some c => let '(o, c) := m c in (o, set_columns (<[i := c]> (db_columns d)) d)
    | None => (Panic, d)
    end) (seq 0 (length (db_columns d))).

(** [DbInner::clear_stats]. *)
Definition clear_column_stats : ST Column unit := fun c =>
  match any_clear_stats c with
  | Ok c => (Ok tt, c)
  | Err e => (Err e, c)
  | Panic => (Panic, c)
  | Undefined => (Undefined, c)
  | Deadlock => (Deadlock, c)
  | NoFuel => (NoFuel, c)
  end.
Definition db_clear_stats (column : option ColId) : ST DbInner unit :=
  match column with
  | Some col => fun d =>
      match db_columns d !! Z.to_nat col with
      | Some c => let '(o, c) := clear_column_stats c in (o, set_columns (<[Z.to_nat col := c]> (db_columns d)) d)
      | None => (Panic, d)
      end
  | None => each_column clear_column_stats
  end.

(** [DbInner::clean_logs]. *)
Definition db_clean_logs : ST DbInner bool :=
  d ← get_st;
  let keep_logs := if sync_data (db_options d) then 0%nat else KEEP_LOGS in
  let num_cleanup := num_dirty_logs (db_log d) in
  if (keep_logs <? num_cleanup)%nat then
    _ ← (if sync_data (db_options d) then each_column any_flush else mret tt);
    on_db_log (LogState.clean_logs (num_cleanup - keep_logs))
  else mret false.

(** [DbInner::clean_all_logs]. *)
Definition clean_all_logs : ST DbInner unit :=
  _ ← each_column any_flush;
  d ← get_st;
  _ ← on_db_log (LogState.clean_logs (num_dirty_logs (db_log d)));
  mret tt.

(** ** Opening and closing *)

(** [while m()? {}]. *)
Fixpoint while_st {S} (fuel : nat) (m : ST S bool) : ST S unit :=
  match fuel with
  | O => lift_st NoFuel
  | S fuel' => more ← m; if more : bool then while_st fuel' m else mret tt
  end.

(** Every record of the file that is read takes at least one byte. *)
Definition log_fuel (l : LogFiles) : nat :=
  S (match reading_file l with Some h => length (default [] (disk l !! h_id h)) | None => 0 end).
Definition enact_all (validation_mode : bool) : ST DbInner unit := fun d =>
  while_st (log_fuel (db_log d)) (enact_logs validation_mode) d.

(** [DbInner::replay_all_logs]; every turn takes a file of the replay queue. *)
Fixpoint replay_files (fuel : nat) : ST DbInner unit :=
  match fuel with
  | O => lift_st NoFuel
  | S fuel' =>
      id ← on_db_log replay_next;
      match id with
      | Some _ => _ ← enact_all true; replay_files fuel'
      | None => mret tt
      end
  end.
Definition replay_all_logs : ST DbInner unit :=
  d ← get_st;
  _ ← replay_files (S (length (replay_queue (db_log d))));
  each_column any_refresh_metadata.

(** [DbInner::kill_logs], without the text of the statistics. *)
Definition db_kill_logs : ST DbInner unit :=
  d ← get_st;
  match bg_err d with
  | Some _ => mret tt
  | None =>
      _ ← enact_all false;
      _ ← flush_logs 0;
      d ← get_st;
      _ ← while_st (S (length (commits (commit_queue d)))) process_commits;
      _ ← enact_all false;
      _ ← flush_logs 0;
      _ ← enact_all false;
      _ ← clean_all_logs;
      on_db_log kill_logs
  end.

End Db.
