(* ===== verification/DbOpen.v ===== *)
(** * Opening and closing a database (src/src/db.rs)

    [DbInner::open] on the files of the database directory, [Db::open_inner] with
    the replay of the log, the worker loops of [Db] and [Drop for Db]. *)

From S2P Require Import Prelude.
From S2P Require Import Bytes.
From S2P Require Import Ids.
From S2P Require Import File.
From S2P Require Import Log.
From S2P Require Import LogState.
From S2P Require Import Table.
From S2P Require Import Index.
From S2P Require Import Compress.
From S2P Require Import Stats.
From S2P Require Import Options.
From S2P Require Import Column.
From S2P Require Import HashColumn.
From S2P Require Import BTreeNode.
From S2P Require Import BTree.
From S2P Require Import Overlay.
From S2P Require Import Db.
From stdpp Require Import options.
#[local] Set Default Proof Using "Type*".

(** The database directory: whether it exists and whether another process holds
    the lock file, the metadata file, the log files in the order [read_dir]
    lists them, the value tables and the indexes of the columns. *)
Record Dir := MkDir {
  dir_exists : bool;
  dir_locked : bool;
  dir_metadata : option string;
  dir_logs : list (Z * bytes);
  dir_values : ColId → nat → option bytes;
  dir_index : ColId → Z → option IndexMap;
}.

Definition set_dir_metadata (m : option string) (d : Dir) : Dir :=
  MkDir (dir_exists d) (dir_locked d) m (dir_logs d) (dir_values d) (dir_index d).
Definition create_dir_all (d : Dir) : Dir :=
  MkDir true (dir_locked d) (dir_metadata d) (dir_logs d) (dir_values d) (dir_index d).

(** The files of the columns of a database: its value tables and its indexes. *)
Definition column_tables (c : Column) : list ValueTable :=
  match c with Hash c => hc_values c | Tree t => btt_tables t end.
Definition column_indexes (c : Column) : list IndexTable :=
  match c with Hash c => hc_index c :: hc_queue c | Tree _ => [] end.

(** The table files and the index files of the columns. *)
Definition left_values (l : list Column) (col : ColId) (tier : nat) : option bytes :=
  c ← l !! Z.to_nat col; t ← column_tables c !! tier; file (vt_file t).
Definition left_index (l : list Column) (col : ColId) (b : Z) : option IndexMap :=
  c ← l !! Z.to_nat col; '(_, t) ← list_find (fun t => bits t = b) (column_indexes c); it_map t.

(** [InternalOptions] and [EnableCommitPipelineStages]. *)
Inductive EnableCommitPipelineStages := StageCommitOverlay | StageLogOverlay | StageDbFile | Standard.
Record InternalOptions := MkInternalOptions {
  create_opt : bool;
  read_only : bool;
  commit_stages : EnableCommitPipelineStages;
  skip_check_lock : bool;
}.
Definition default_internal : InternalOptions := MkInternalOptions false false Standard false.

Section Open.
Context `{!Uninit, !Codecs, !HashMapOrder, !Crc32, !Blake2, !Hex}.

(** [Column::open] for both kinds of column. *)
Definition any_open (dir : Dir) (col : ColId) (options : Options) (metadata : Metadata)
    : outcome Column :=
  o ← unwrap (meta_columns metadata !! Z.to_nat col);
  if btree_index o then
    values ← open_tables (dir_values dir col) col o (meta_version metadata) (seq 0 SIZE_TIERS);
    Tree <$> btree_open col values metadata
  else Hash <$> open_hash (dir_values dir col) (dir_index dir col) col (stats_opt options) metadata.

(** [for c in 0..metadata.columns.len()]. *)
Fixpoint open_columns (dir : Dir) (cols : list nat) (options : Options) (metadata : Metadata)
    : outcome (list Column) :=
  match cols with
  | [] => Ok []
  | c :: cols =>
      column ← any_open dir (wrap8 (Z.of_nat c)) options metadata;
      l ← open_columns dir cols options metadata;
      Ok (column :: l)
  end.

(** [DbInner::open]; [random] is the salt that is drawn for a new database. *)
Definition db_open (options : Options) (random : bytes) (inner : InternalOptions) : ST Dir DbInner :=
  _ ← modify_st (fun dir => if create_opt inner then create_dir_all dir else dir);
  dir ← get_st;
  _ ← lift_st (if dir_exists dir then Ok tt else Err (Io NotFound));
  _ ← lift_st (if negb (skip_check_lock inner) && dir_locked dir then Err (Locked OtherIo) else Ok tt);
  metadata ← zoom dir_metadata set_dir_metadata
               (Options.load_and_validate_metadata options random (create_opt inner));
  log ← lift_st (open_log (sync_wal_opt options) (dir_logs dir));
  let last_enacted := wrap64 (default 2 (replay_record_id log) - 1) in
  let n := length (meta_columns metadata) in
  columns ← lift_st (open_columns dir (seq 0 n) options metadata);
  let salt := match salt_opt options with None => Some (meta_salt metadata) | s => s end in
  let options := MkOptions (Options.columns options) (sync_wal_opt options) (sync_data options)
                   (stats_opt options) salt in
  mret (MkDbInner columns options false log (MkCommitQueue 0 0 []) (replicate n CommitOverlay.new) 0
          (MkSignals false false false false) last_enacted 1 None (meta_version metadata)).

(** [Db::open_inner]: the database after the replay of its log. *)
Definition open_inner (options : Options) (random : bytes) (inner : InternalOptions) : ST Dir DbInner :=
  _ ← lift_st (rust_assert (Options.is_valid options));
  d ← db_open options random inner;
  lift_st (let '(o, d) := replay_all_logs d in _ ← o; Ok d).

(** [Db::open], [Db::open_or_create] and [Db::open_read_only]. *)
Definition open_existing_db (options : Options) (random : bytes) : ST Dir DbInner :=
  open_inner options random default_internal.
Definition open_or_create (options : Options) (random : bytes) : ST Dir DbInner :=
  open_inner options random (MkInternalOptions true false Standard false).
Definition open_read_only (options : Options) (random : bytes) : ST Dir DbInner :=
  open_inner options random (MkInternalOptions false true Standard false).

(** ** The workers of [Db] *)

(** [WaitCondvar::wait]: it returns when there is work, and takes it. *)
Definition wait_for (work : Signals → bool) (clear : Signals → Signals) : ST DbInner unit := fun d =>
  if work (db_signals d) then (Ok tt, set_signals (clear (db_signals d)) d) else (NoFuel, d).
Definition wait_commit : ST DbInner unit :=
  wait_for commit_work (fun s => MkSignals (log_work s) false (flush_work s) (cleanup_work s)).
Definition wait_log : ST DbInner unit :=
  wait_for log_work (fun s => MkSignals false (commit_work s) (flush_work s) (cleanup_work s)).
Definition wait_flush : ST DbInner unit :=
  wait_for flush_work (fun s => MkSignals (log_work s) (commit_work s) false (cleanup_work s)).
Definition wait_cleanup : ST DbInner unit :=
  wait_for cleanup_work (fun s => MkSignals (log_work s) (commit_work s) (flush_work s) false).

(** One turn of the loop of a worker, with [more_work] of the turn before: what
    [more_work] is next. *)
Definition commit_worker_turn (more_work : bool) : ST DbInner bool :=
  _ ← (if more_work then mret tt else wait_commit);
  enact_logs false.
Definition log_worker_turn (more_work : bool) : ST DbInner bool :=
  _ ← (if more_work then mret tt else wait_log);
  more_commits ← process_commits;
  more_reindex ← process_reindex;
  mret (more_commits || more_reindex).
Definition flush_worker_turn (min_log_size : Z) (more_work : bool) : ST DbInner bool :=
  _ ← (if more_work then mret tt else wait_flush);
  flush_logs min_log_size.
Definition cleanup_worker_turn (more_work : bool) : ST DbInner bool :=
  _ ← (if more_work then mret tt else wait_cleanup);
  db_clean_logs.

(** [while !db.shutdown || more_work { ... }] for [n] turns at most. *)
Fixpoint worker_loop (n : nat) (turn : bool → ST DbInner bool) (more_work : bool) : ST DbInner unit :=
  match n with
  | O => lift_st NoFuel
  | S n' =>
      d ← get_st;
      if negb (db_shutdown d) || more_work then more ← turn more_work; worker_loop n' turn more
      else mret tt
  end.
Definition commit_worker (n : nat) : ST DbInner unit := worker_loop n commit_worker_turn false.
Definition log_worker (n : nat) : ST DbInner unit :=
  more_work ← process_reindex; worker_loop n log_worker_turn more_work.
Definition cleanup_worker (n : nat) : ST DbInner unit := worker_loop n cleanup_worker_turn true.

(** The flush worker stops at a shutdown also when there is more work. *)
Fixpoint flush_worker (n : nat) (min_log_size : Z) (more_work : bool) : ST DbInner unit :=
  match n with
  | O => lift_st NoFuel
  | S n' =>
      d ← get_st;
      if db_shutdown d then mret tt
      else more ← flush_worker_turn min_log_size more_work; flush_worker n' min_log_size more
  end.

(** [Db::num_columns]. *)
Definition num_columns (d : DbInner) : Z := wrap8 (Z.of_nat (length (db_columns d))).

(** ** Turns of the workers *)

(** What the worker threads do; an error of a worker is stored. *)
Inductive WorkerOp := WCommits | WReindex | WEnact (validation : bool) | WFlush (min_size : Z) | WClean.
#[global] Instance WorkerOp_eq_dec : EqDecision WorkerOp.
Proof. solve_decision. Defined.
Definition run_worker (op : WorkerOp) : ST DbInner bool :=
  match op with
  | WCommits => process_commits
  | WReindex => process_reindex
  | WEnact v => enact_logs v
  | WFlush n => flush_logs n
  | WClean => db_clean_logs
  end.
Definition worker_turn (op : WorkerOp) (d : DbInner) : DbInner :=
  match run_worker op d with
  | (Err e, d) => store_err (Err e) d
  | (_, d) => d
  end.
Definition worker_turns (ops : list WorkerOp) (d : DbInner) : DbInner := foldl (fun d op => worker_turn op d) d ops.

(** [Drop for Db] once the workers have ended; an error is only logged. *)
Definition db_drop (d : DbInner) : DbInner := snd (db_kill_logs (shutdown d)).

End Open.
