(* ===== verification/Migration.v ===== *)
(** * Migration (src/src/migration.rs)

    [migrate] copies a database into another one: the columns whose options change
    are read item by item and committed again, the files of the others are
    copied; with [overwrite] the files of a migrated column replace those of the
    source. Errors of the file system are not modelled here. *)

From Stdlib Require Import Ascii String.
From S2P Require Import Prelude.
From S2P Require Import Bytes.
From S2P Require Import Ids.
From S2P Require Import File.
From S2P Require Import Log.
From S2P Require Import LogState.
From S2P Require Import Table.
From S2P Require Import Index.
From S2P Require Import Compress.
From S2P Require Import Stats.
From S2P Require Import Options.
From S2P Require Import Column.
From S2P Require Import HashColumn.
From S2P Require Import BTreeNode.
From S2P Require Import BTree.
From S2P Require Import Overlay.
From S2P Require Import Db.
From S2P Require Import DbOpen.
From stdpp Require Import options.
#[local] Set Default Proof Using "Type*".

Definition COMMIT_SIZE : Z := 10240.

(** ** Names of the files of a column *)

#[local] Open Scope string_scope.
#[local] Open Scope Z_scope.

(** [{:02}]. *)
Definition pad2 (s : string) : string := if (String.length s <? 2)%nat then "0" ++ s else s.

(** [HexDisplay] of src/src/display.rs: [{:02x}] for every byte. *)
Definition hex_digit (z : Z) : ascii := ascii_of_nat (Z.to_nat (if z <? 10 then 48 + z else 87 + z)).
Definition hex_byte (b : byte) : string :=
  String (hex_digit (byte_val b / 16)) (String (hex_digit (byte_val b mod 16)) "").
Fixpoint hex_display (bs : bytes) : string :=
  match bs with
  | [] => ""
  | b :: bs => hex_byte b ++ hex_display bs
  end.

(** [index::TableId::file_name] and [is_file_name]. *)
Module IndexName.
Definition file_name (t : IndexTableId) : string :=
  "index_" ++ pad2 (decimal (IndexTableId.col t)) ++ "_" ++ decimal (IndexTableId.index_bits t).
Definition is_file_name (col : ColId) (name : string) : bool :=
  String.prefix ("index_" ++ pad2 (decimal col) ++ "_") name.
End IndexName.

(** [table::TableId::file_name] and [is_file_name]. *)
Module TableName.
Definition file_name (t : ValueTableId) : string :=
  "table_" ++ pad2 (decimal (ValueTableId.col t)) ++ "_" ++ hex_display [byte_of (ValueTableId.size_tier t)].
Definition is_file_name (col : ColId) (name : string) : bool :=
  String.prefix ("table_" ++ pad2 (decimal col) ++ "_") name.
End TableName.

#[local] Close Scope string_scope.
#[local] Open Scope Z_scope.

(** ** The files of a column *)

(** The files of a directory by their column and their size tier or index bits;
    that is what their names are made of. *)
Record Files := MkFiles {
  files_values : ColId → nat → option bytes;
  files_index : ColId → Z → option IndexMap;
}.
Definition no_files : Files := MkFiles (fun _ _ => None) (fun _ _ => None).
Definition value_name (col : ColId) (tier : nat) : string :=
  TableName.file_name (ValueTableId.new col (Z.of_nat tier)).
Definition index_name (col : ColId) (b : Z) : string := IndexName.file_name (IndexTableId.new col b).

(** The test of [deplace_column]. *)
Definition is_column_file (c : ColId) (file : string) : bool :=
  IndexName.is_file_name c file || TableName.is_file_name c file.

(** A file that is put into a directory replaces the one with its name. *)
Definition put_file {F} (named : bool) (from to : option F) : option F :=
  if named then match from with Some f => Some f | None => to end else to.
Definition take_file {F} (named : bool) (from : option F) : option F := if named then None else from.

(** [deplace_column]: the directories [from] and [to] afterwards. *)
Definition deplace_column (c : ColId) (copy : bool) (from to : Files) : Files * Files :=
  (if copy then from
   else MkFiles (fun col k => take_file (is_column_file c (value_name col k)) (files_values from col k))
          (fun col b => take_file (is_column_file c (index_name col b)) (files_index from col b)),
   MkFiles
     (fun col k => put_file (is_column_file c (value_name col k)) (files_values from col k) (files_values to col k))
     (fun col b => put_file (is_column_file c (index_name col b)) (files_index from col b) (files_index to col b))).
Definition move_column (c : ColId) (from to : Files) : Files * Files := deplace_column c false from to.
Definition copy_column (c : ColId) (from to : Files) : Files * Files := deplace_column c true from to.

Definition dir_files (d : Dir) : Files := MkFiles (dir_values d) (dir_index d).
Definition set_dir_files (f : Files) (d : Dir) : Dir :=
  MkDir (dir_exists d) (dir_locked d) (dir_metadata d) (dir_logs d) (files_values f) (files_index f).

(** [Metadata::columns_to_migrate]. *)
Definition columns_to_migrate (meta : Metadata) : gset ColId := ∅.

(** ** The state of a migration *)

(** The directories of both databases and the one for the files that are
    replaced, the databases while they are open, the changes that are collected
    and their number, and the options of the source. *)
Record MigrationState := MkMigration {
  mg_from : Dir;
  mg_to : Dir;
  mg_tmp : option Files;
  mg_source : option DbInner;
  mg_dest : option DbInner;
  mg_commit : CommitChangeSet;
  mg_nb_commit : Z;
  mg_source_options : Options;
}.
Definition no_changes : CommitChangeSet := MkCommitChangeSet ∅ ∅.
Definition set_from (d : Dir) (s : MigrationState) : MigrationState :=
  MkMigration d (mg_to s) (mg_tmp s) (mg_source s) (mg_dest s) (mg_commit s) (mg_nb_commit s) (mg_source_options s).
Definition set_to (d : Dir) (s : MigrationState) : MigrationState :=
  MkMigration (mg_from s) d (mg_tmp s) (mg_source s) (mg_dest s) (mg_commit s) (mg_nb_commit s) (mg_source_options s).
Definition set_tmp (f : option Files) (s : MigrationState) : MigrationState :=
  MkMigration (mg_from s) (mg_to s) f (mg_source s) (mg_dest s) (mg_commit s) (mg_nb_commit s) (mg_source_options s).
Definition set_source (d : option DbInner) (s : MigrationState) : MigrationState :=
  MkMigration (mg_from s) (mg_to s) (mg_tmp s) d (mg_dest s) (mg_commit s) (mg_nb_commit s) (mg_source_options s).
Definition set_dest (d : option DbInner) (s : MigrationState) : MigrationState :=
  MkMigration (mg_from s) (mg_to s) (mg_tmp s) (mg_source s) d (mg_commit s) (mg_nb_commit s) (mg_source_options s).
Definition set_batch (cs : CommitChangeSet) (n : Z) (s : MigrationState) : MigrationState :=
  MkMigration (mg_from s) (mg_to s) (mg_tmp s) (mg_source s) (mg_dest s) cs n (mg_source_options s).
Definition set_source_options (o : Options) (s : MigrationState) : MigrationState :=
  MkMigration (mg_from s) (mg_to s) (mg_tmp s) (mg_source s) (mg_dest s) (mg_commit s) (mg_nb_commit s) o.
Definition set_salt (salt : option bytes) (o : Options) : Options :=
  MkOptions (columns o) (sync_wal_opt o) (sync_data o) (stats_opt o) salt.
Definition set_option_columns (l : list ColumnOptions) (o : Options) : Options :=
  MkOptions l (sync_wal_opt o) (sync_data o) (stats_opt o) (salt_opt o).

(** What the callback captures; [bt_outcome] is how the last commit ended when
    that was not with [Ok] or [Err]. *)
Record Batch := MkBatch {
  bt_commit : CommitChangeSet;
  bt_nb_commit : Z;
  bt_dest : DbInner;
  bt_outcome : outcome unit;
}.

Section Migrate.
Context `{!Uninit, !Codecs, !HashMapOrder, !Crc32, !Blake2, !Hex}.
(** The operations that the threads of an open database have made before it is
    used next, the order in which a directory lists the log files, and the salt
    that is drawn for a new database without one. *)
Context (threads : DbInner → list WorkerOp).
Context (read_dir : gmap Z bytes → list (Z * bytes)).
Context (random : bytes).

Definition scheduled (d : DbInner) : DbInner := worker_turns (threads d) d.

(** The files of a database: those of its columns, and the others of its
    directory. *)
Definition db_files (dir : Dir) (d : DbInner) : Files :=
  let here (col : ColId) := (Z.to_nat col <? length (db_columns d))%nat in
  MkFiles
    (fun col k => if here col then left_values (db_columns d) col k else dir_values dir col k)
    (fun col b => if here col then left_index (db_columns d) col b else dir_index dir col b).

(** [Drop for Db]: the directory of a database that is closed. *)
Definition left_behind (dir : Dir) (d : DbInner) : Dir :=
  let d := db_drop (scheduled d) in
  let files := db_files dir d in
  MkDir true false (dir_metadata dir) (read_dir (disk (db_log d))) (files_values files) (files_index files).

Definition open_source : ST MigrationState unit :=
  s ← get_st;
  d ← zoom mg_from set_from (open_existing_db (mg_source_options s) random);
  modify_st (set_source (Some d)).
Definition open_dest (to : Options) : ST MigrationState unit :=
  d ← zoom mg_to set_to (open_or_create to random);
  modify_st (set_dest (Some d)).
Definition drop_source : ST MigrationState unit := modify_st (fun s =>
  match mg_source s with
  | Some d => set_source None (set_from (left_behind (mg_from s) d) s)
  | None => s
  end).
Definition drop_dest : ST MigrationState unit := modify_st (fun s =>
  match mg_dest s with
  | Some d => set_dest None (set_to (left_behind (mg_to s) d) s)
  | None => s
  end).

(** ** A column, item by item *)

(** [commit.indexed.entry(c).or_insert_with(..).changes.push(..)]. *)
Definition push_change (c : ColId) (key : Key) (value : bytes) (cs : CommitChangeSet) : CommitChangeSet :=
  MkCommitChangeSet (<[c := default [] (cs_indexed cs !! c) ++ [(key, Some value)]]> (cs_indexed cs)) (cs_btree cs).

(** The body of [for _ in 0..rc]: whether the callback goes on. *)
Definition migrate_ref (c : ColId) (key : Key) (value : bytes) (b : Batch) : Batch * bool :=
  let commit := push_change c key value (bt_commit b) in
  let nb_commit := bt_nb_commit b + 1 in
  if nb_commit =? COMMIT_SIZE then
    match commit_raw commit (scheduled (bt_dest b)) with
    | (Ok _, dest) => (MkBatch no_changes 0 dest (Ok tt), true)
    | (Err _, dest) => (MkBatch no_changes nb_commit dest (Ok tt), false)
    | (o, dest) => (MkBatch no_changes nb_commit dest o, false)
    end
  else (MkBatch commit nb_commit (bt_dest b) (Ok tt), true).

(** [for _ in 0..rc] with [std::mem::take(&mut value)]: the value goes with the
    first change, the others are empty. *)
Fixpoint migrate_refs (rc : nat) (c : ColId) (key : Key) (value : bytes) (b : Batch) : Batch * bool :=
  match rc with
  | O => (b, true)
  | S rc =>
      let '(b, continue) := migrate_ref c key value b in
      if continue then migrate_refs rc c key [] b else (b, false)
  end.
Definition migrate_item (c : ColId) (b : Batch) (item : IterState) : Batch * bool :=
  migrate_refs (Z.to_nat (iter_rc item)) c (iter_key item) (iter_value item) b.

(** [source.iter_column_while(c, ..)?]. *)
Definition migrate_items (c : ColId) : ST MigrationState unit := fun s =>
  match mg_source s, mg_dest s with
  | Some source, Some dest =>
      let source := scheduled source in
      let '(o, b) := db_iter_column_while c (migrate_item c) source
                       (MkBatch (mg_commit s) (mg_nb_commit s) dest (Ok tt)) in
      (_ ← bt_outcome b; o,
       set_batch (bt_commit b) (bt_nb_commit b) (set_dest (Some (bt_dest b)) (set_source (Some source) s)))
  | _, _ => (Panic, s)
  end.

(** [dest.commit_raw(commit)?]. *)
Definition commit_rest : ST MigrationState unit := fun s =>
  match mg_dest s with
  | Some dest =>
      let '(o, dest) := commit_raw (mg_commit s) (scheduled dest) in
      (o, set_batch no_changes 0 (set_dest (Some dest) s))
  | None => (Panic, s)
  end.

(** ** The files of the column *)

(** A column that is not migrated: its files are copied from the source, which
    is open. *)
Definition copy_files (c : ColId) (to : Options) : ST MigrationState unit :=
  _ ← drop_dest;
  _ ← modify_st (fun s =>
        let from := match mg_source s with Some d => db_files (mg_from s) d | None => dir_files (mg_from s) end in
        set_to (set_dir_files (copy_column c from (dir_files (mg_to s))).2 (mg_to s)) s);
  open_dest to.

(** [remove_tmp_dir] and [create_dir_all(&tmp_dir)]. *)
Definition remove_tmp_dir : ST MigrationState unit := modify_st (set_tmp None).
Definition create_tmp_dir : ST MigrationState unit := modify_st (set_tmp (Some no_files)).

(** [move_column(c, from, &tmp_dir)?; move_column(c, &to.path, from)?]. *)
Definition replace_files (c : ColId) : ST MigrationState unit := modify_st (fun s =>
  let '(from, tmp) := move_column c (dir_files (mg_from s)) (default no_files (mg_tmp s)) in
  let '(to, from) := move_column c (dir_files (mg_to s)) from in
  set_tmp (Some tmp) (set_to (set_dir_files to (mg_to s)) (set_from (set_dir_files from (mg_from s)) s))).

(** [source_options.columns[c] = to.columns[c].clone()] and [write_metadata]. *)
Definition update_metadata (c : ColId) (to : Options) : ST MigrationState unit :=
  s ← get_st;
  o ← lift_st (unwrap (columns to !! Z.to_nat c));
  _ ← lift_st (if decide (Z.to_nat c < length (columns (mg_source_options s)))%nat then Ok tt else Panic);
  salt ← lift_st (unwrap (salt_opt to));
  let options := set_option_columns (<[Z.to_nat c := o]> (columns (mg_source_options s))) (mg_source_options s) in
  modify_st (fun s => set_from (set_dir_metadata (Some (Options.write_metadata_file options salt)) (mg_from s))
    (set_source_options options s)).

(** The rest of the loop with [overwrite]: the migrated column replaces the
    column of the source. *)
Definition overwrite_column (c : ColId) (to : Options) : ST MigrationState unit :=
  _ ← commit_rest;
  _ ← drop_dest;
  _ ← open_dest to;
  _ ← drop_dest;
  _ ← drop_source;
  _ ← remove_tmp_dir;
  _ ← create_tmp_dir;
  _ ← replace_files c;
  _ ← update_metadata c to;
  _ ← remove_tmp_dir;
  _ ← open_source;
  open_dest to.

(** ** [migrate] *)

(** The body of [for c in 0..source_options.columns.len()]. *)
Definition migrate_column (to : Options) (overwrite : bool) (to_migrate : gset ColId) (c : ColId) : ST MigrationState unit :=
  if decide (c ∈ to_migrate) then
    _ ← migrate_items c;
    if overwrite then overwrite_column c to else mret tt
  else if overwrite then mret tt else copy_files c to.

(** The options that the source is opened with. *)
Definition source_options (meta : Metadata) : Options :=
  set_option_columns (meta_columns meta) (set_salt (Some (meta_salt meta))
    (Options.with_columns (Z.to_nat (wrap8 (Z.of_nat (length (meta_columns meta))))))).

(** [if source_options.columns[c] != to.columns[c] { to_migrate.insert(c); }]. *)
Definition changed_column (source to : list ColumnOptions) (c : ColId) : bool :=
  negb (bool_decide (source !! Z.to_nat c = to !! Z.to_nat c)).

Definition migrate_body (to : Options) (overwrite : bool) (force_migrate : list ColId) : ST MigrationState unit :=
  s ← get_st;
  meta ← lift_st (Options.load_metadata_file (dir_metadata (mg_from s)));
  meta ← lift_st (match meta with Some meta => Ok meta | None => Err (Migration "Error loading source metadata"%string) end);
  let to_migrate := foldl (fun l force => {[force]} ∪ l) (columns_to_migrate meta) force_migrate in
  _ ← lift_st (if (length (meta_columns meta) =? length (columns to))%nat then Ok tt
               else Err (Migration "Source and dest columns mismatch"%string));
  let to := set_salt (Some (meta_salt meta)) to in
  _ ← lift_st (if bool_decide (salt_opt to = None) && overwrite
               then Err (Migration "Changing salt need to update metadata at once."%string) else Ok tt);
  _ ← modify_st (set_source_options (source_options meta));
  _ ← open_source;
  _ ← open_dest to;
  let cols := seqZ 0 (wrap8 (Z.of_nat (length (meta_columns meta)))) in
  let to_migrate := foldl (fun l c => if changed_column (meta_columns meta) (columns to) c then {[c]} ∪ l else l)
                      to_migrate cols in
  _ ← for_each (migrate_column to overwrite to_migrate) cols;
  commit_rest.

(** [migrate]: both directories afterwards; the databases are dropped on every
    way out. *)
Definition migrate (to : Options) (overwrite : bool) (force_migrate : list ColId) (dirs : Dir * Dir)
    : outcome unit * (Dir * Dir) :=
  let '(o, s) := migrate_body to overwrite force_migrate
                   (MkMigration dirs.1 dirs.2 None None None no_changes 0 to) in
  let '(_, s) := (_ ← drop_dest; drop_source) s in
  (o, (mg_from s, mg_to s)).

End Migrate.
