(* ===== verification/KeyOrder.v ===== *)
(** * The order of keys

    Keys of an ordered column are compared as byte strings
    (src/src/btree/node.rs): a strict total order; lists of pairs that are sorted
    by their keys, and what changes do to them. *)

From stdpp Require Import sorting.
From S2P Require Import Prelude.
From S2P Require Import Bytes.
From S2P Require Import BTree.
From stdpp Require Import options.
#[local] Set Default Proof Using "Type*".

Definition key_lt (a b : bytes) : Prop := bytes_compare a b = Lt.

#[global] Instance key_lt_dec a b : Decision (key_lt a b).
Proof. unfold key_lt. solve_decision. Defined.

Lemma bytes_compare_gt a b : bytes_compare a b = Gt ↔ key_lt b a.
Proof. unfold key_lt. rewrite (bytes_compare_antisym a b). by destruct (bytes_compare a b). Qed.

#[global] Instance key_lt_strict : StrictOrder key_lt.
Proof.
  split.
  - intros a. unfold complement, key_lt. by rewrite bytes_compare_refl.
  - intros a b c. apply bytes_compare_trans.
Qed.

Lemma key_lt_irrefl a : ¬ key_lt a a.
Proof. apply irreflexivity. apply _. Qed.

Lemma key_lt_neq a b : key_lt a b → a ≠ b.
Proof. intros Hl ->. by apply key_lt_irrefl in Hl. Qed.

Lemma key_lt_trichotomy a b : key_lt a b ∨ a = b ∨ key_lt b a.
Proof.
  destruct (bytes_compare a b) eqn:E.
  - right; left. by apply bytes_compare_eq.
  - by left.
  - right; right. by apply bytes_compare_gt.
Qed.

(** ** Sorted lists of pairs *)

Definition keys_sorted {A} (l : list (bytes * A)) : Prop := StronglySorted key_lt l.*1.

Fixpoint find_key {A} (key : bytes) (l : list (bytes * A)) : option A :=
  match l with
  | [] => None
  | (k, a) :: l => if decide (k = key) then Some a else find_key key l
  end.

(** Every key of the list is smaller, or larger, than [key]. *)
Definition all_below {A} (key : bytes) (l : list (bytes * A)) : Prop := Forall (fun k => key_lt k key) l.*1.
Definition all_above {A} (key : bytes) (l : list (bytes * A)) : Prop := Forall (key_lt key) l.*1.

Lemma find_key_none {A} key (l : list (bytes * A)) : Forall (fun k => k ≠ key) l.*1 → find_key key l = None.
Proof.
  induction l as [|[k a] l IH]; [done|]. cbn. intros [Hk Hl]%Forall_cons. rewrite decide_False by done. by apply IH.
Qed.
Lemma find_key_below {A} key (l : list (bytes * A)) : all_below key l → find_key key l = None.
Proof. intros Hl. apply find_key_none. eapply Forall_impl; [exact Hl|]. intros k. apply key_lt_neq. Qed.
Lemma find_key_above {A} key (l : list (bytes * A)) : all_above key l → find_key key l = None.
Proof.
  intros Hl. apply find_key_none. eapply Forall_impl; [exact Hl|]. intros k Hk E. by eapply key_lt_neq.
Qed.
Lemma find_key_app {A} key (l1 l2 : list (bytes * A)) :
  find_key key (l1 ++ l2) = match find_key key l1 with Some a => Some a | None => find_key key l2 end.
Proof. induction l1 as [|[k a] l1 IH]; [done|]. cbn. by case_decide. Qed.

Lemma sorted_app {A} (l1 l2 : list (bytes * A)) : keys_sorted (l1 ++ l2) ↔
  keys_sorted l1 ∧ keys_sorted l2 ∧ (∀ a b, a ∈ l1.*1 → b ∈ l2.*1 → key_lt a b).
Proof.
  unfold keys_sorted. rewrite fmap_app. split.
  - intros Hs. split_and!; [by eapply StronglySorted_app_1_l|by eapply StronglySorted_app_1_r|].
    intros a b Ha Hb. by eapply StronglySorted_app_1_elem_of.
  - intros (H1 & H2 & H3). by apply StronglySorted_app_2.
Qed.

Lemma all_below_app {A} key (l1 l2 : list (bytes * A)) :
  all_below key (l1 ++ l2) ↔ all_below key l1 ∧ all_below key l2.
Proof. unfold all_below. by rewrite fmap_app, Forall_app. Qed.
Lemma all_above_app {A} key (l1 l2 : list (bytes * A)) :
  all_above key (l1 ++ l2) ↔ all_above key l1 ∧ all_above key l2.
Proof. unfold all_above. by rewrite fmap_app, Forall_app. Qed.

(** * What changes do to an ordered column

    The abstract state of an ordered column is the list of its pairs, sorted by
    key. A change gives a key another value or removes it; of several changes of
    one key in a commit the last one counts (src/src/btree/mod.rs,
    [BTreeChangeSet]). *)

(** ** One change *)

Definition new_pair {A} (key : bytes) (o : option A) : list (bytes * A) :=
  match o with Some v => [(key, v)] | None => [] end.
Definition upd {A} (key : bytes) (o : option A) (l : list (bytes * A)) : list (bytes * A) :=
  filter (fun p => key_lt p.1 key) l ++ new_pair key o ++ filter (fun p => key_lt key p.1) l.

Section Upd.
Context {A : Type}.
Implicit Types (l : list (bytes * A)) (o : option A).

Lemma filter_below_of key l : all_below key l →
  filter (fun p => key_lt p.1 key) l = l ∧ filter (fun p => key_lt key p.1) l = [].
Proof.
  induction l as [|p l IH]; [done|]. intros [Hp Hl]%Forall_cons. destruct (IH Hl) as [E1 E2]. split.
  - by rewrite filter_cons_True, E1.
  - rewrite filter_cons_False, E2; [done|]. intros Hp'. eapply key_lt_irrefl. by etrans.
Qed.
Lemma filter_above_of key l : all_above key l →
  filter (fun p => key_lt p.1 key) l = [] ∧ filter (fun p => key_lt key p.1) l = l.
Proof.
  induction l as [|p l IH]; [done|]. intros [Hp Hl]%Forall_cons. destruct (IH Hl) as [E1 E2]. split.
  - rewrite filter_cons_False, E1; [done|]. intros Hp'. eapply key_lt_irrefl. by etrans.
  - by rewrite filter_cons_True, E2.
Qed.

(** A change acts on the part of the list around its key. *)
Lemma upd_mid key o l1 l l2 : all_below key l1 → all_above key l2 → upd key o (l1 ++ l ++ l2) = l1 ++ upd key o l ++ l2.
Proof.
  intros [E1 E2]%filter_below_of [E3 E4]%filter_above_of. unfold upd. rewrite !filter_app, E1, E2, E3, E4.
  by rewrite !app_nil_r, <- !app_assoc.
Qed.
Lemma upd_nil key o : upd key o [] = new_pair key o.
Proof. unfold upd. cbn. apply app_nil_r. Qed.
Lemma upd_miss key o l1 l2 : all_below key l1 → all_above key l2 → upd key o (l1 ++ l2) = l1 ++ new_pair key o ++ l2.
Proof. intros H1 H2. rewrite <- upd_nil. by apply (upd_mid key o l1 [] l2). Qed.
Lemma upd_same key o l : (∀ p, p ∈ l → p.1 = key) → upd key o l = new_pair key o.
Proof.
  intros Hl. unfold upd. assert (E : ∀ (P : bytes * A → Prop) `{!∀ x, Decision (P x)}, (∀ p, p.1 = key → ¬ P p) → filter P l = []).
  { intros P HP Hn. induction l as [|p l IH]; [done|].
    rewrite filter_cons_False; [|apply Hn, Hl; by left]. apply IH. intros q Hq. apply Hl. by right. }
  rewrite !E; [by rewrite app_nil_r|intros p ->; apply key_lt_irrefl|intros p ->; apply key_lt_irrefl].
Qed.
Lemma upd_hit key o l1 v l2 : all_below key l1 → all_above key l2 →
  upd key o (l1 ++ (key, v) :: l2) = l1 ++ new_pair key o ++ l2.
Proof.
  intros H1 H2. etrans; [by apply (upd_mid key o l1 [(key, v)] l2)|]. rewrite upd_same; [done|].
  by intros p ->%list_elem_of_singleton.
Qed.

Lemma find_key_filter (P : bytes → Prop) `{!∀ k, Decision (P k)} key l :
  find_key key (filter (fun p => P p.1) l) = if decide (P key) then find_key key l else None.
Proof.
  induction l as [|[k a] l IH]; [by case_decide|]. rewrite filter_cons. cbn [fst find_key].
  destruct (decide (P k)) as [Hk|Hk]; cbn [find_key]; rewrite IH; repeat case_decide; naive_solver.
Qed.
Lemma find_key_lower k key l : find_key k (filter (fun p => key_lt p.1 key) l) = if decide (key_lt k key) then find_key k l else None.
Proof. exact (find_key_filter (fun k => key_lt k key) k l). Qed.
Lemma find_key_upper k key l : find_key k (filter (fun p => key_lt key p.1) l) = if decide (key_lt key k) then find_key k l else None.
Proof. exact (find_key_filter (key_lt key) k l). Qed.
Lemma find_key_upd k key o l : find_key k (upd key o l) = if decide (k = key) then o else find_key k l.
Proof.
  unfold upd. rewrite !find_key_app, find_key_lower, find_key_upper.
  destruct (decide (k = key)) as [->|Hk].
  - rewrite !decide_False by apply key_lt_irrefl. destruct o; cbn; [by rewrite decide_True|done].
  - assert (Hn : find_key k (new_pair key o) = None) by (destruct o; cbn; [by rewrite decide_False by done|done]).
    rewrite Hn. destruct (key_lt_trichotomy k key) as [H|[->|H]]; [|done|].
    + rewrite decide_True by done. rewrite decide_False; [by destruct (find_key k l)|]. intros H'. eapply key_lt_irrefl. by etrans.
    + rewrite decide_False, decide_True; [done|done|]. intros H'. eapply key_lt_irrefl. by etrans.
Qed.

Lemma filter_sorted (P : bytes → Prop) `{!∀ k, Decision (P k)} l : keys_sorted l → keys_sorted (filter (fun p => P p.1) l).
Proof.
  unfold keys_sorted. induction l as [|p l IH]; [done|]. intros [Hp Hl]%StronglySorted_cons. rewrite filter_cons. specialize (IH Hl).
  case_decide; [|done]. apply StronglySorted_cons. split; [|done]. apply Forall_forall. intros k (q & -> & Hq)%list_elem_of_fmap.
  eapply Forall_forall in Hp; [exact Hp|]. apply list_elem_of_filter in Hq as [_ Hq]. by apply list_elem_of_fmap_2.
Qed.
Lemma upd_sorted key o l : keys_sorted l → keys_sorted (upd key o l).
Proof.
  intros Hl. unfold upd. apply sorted_app. split_and!.
  - exact (filter_sorted (fun k => key_lt k key) l Hl).
  - apply sorted_app. split_and!.
    + destruct o; repeat constructor.
    + exact (filter_sorted (key_lt key) l Hl).
    + intros a b Ha (q & -> & [Hq _]%list_elem_of_filter)%list_elem_of_fmap. destruct o; [|by apply not_elem_of_nil in Ha].
      by apply list_elem_of_singleton in Ha as ->.
  - intros a b (q & -> & [Hq _]%list_elem_of_filter)%list_elem_of_fmap. rewrite fmap_app. intros [Hb|Hb]%elem_of_app.
    + destruct o; [|by apply not_elem_of_nil in Hb]. by apply list_elem_of_singleton in Hb as ->.
    + apply list_elem_of_fmap in Hb as (q' & -> & [Hq' _]%list_elem_of_filter). by etrans.
Qed.

Lemma upd_upd key o o' l : keys_sorted l → upd key o' (upd key o l) = upd key o' l.
Proof.
  intros Hl. unfold upd at 2.
  assert (E1 : all_below key (filter (fun p => key_lt p.1 key) l)).
  { apply Forall_forall. intros k (q & -> & [Hq _]%list_elem_of_filter)%list_elem_of_fmap. done. }
  assert (E2 : all_above key (filter (fun p => key_lt key p.1) l)).
  { apply Forall_forall. intros k (q & -> & [Hq _]%list_elem_of_filter)%list_elem_of_fmap. done. }
  rewrite upd_mid by done. rewrite upd_same; [done|]. intros p Hp. destruct o; [|by apply not_elem_of_nil in Hp].
  by apply list_elem_of_singleton in Hp as ->.
Qed.

End Upd.

(** ** Changes in order *)

Definition upds (cs : Changes) (l : list (bytes * bytes)) : list (bytes * bytes) :=
  foldl (fun l c => upd c.1 c.2 l) l cs.

Lemma upds_sorted cs : ∀ l, keys_sorted l → keys_sorted (upds cs l).
Proof. induction cs as [|c cs IH]; [done|]. intros l Hl. by apply IH, upd_sorted. Qed.
Lemma upds_app cs1 cs2 l : upds (cs1 ++ cs2) l = upds cs2 (upds cs1 l).
Proof. apply foldl_app. Qed.
Lemma upds_skip c d cs l : keys_sorted l → c.1 = d.1 → upds (c :: d :: cs) l = upds (d :: cs) l.
Proof. intros Hl E. unfold upds. cbn [foldl]. by rewrite E, upd_upd. Qed.

(** The last change of a key. *)
Fixpoint last_change (key : bytes) (cs : Changes) : option (option bytes) :=
  match cs with
  | [] => None
  | (k, o) :: cs =>
      match last_change key cs with
      | Some r => Some r
      | None => if decide (k = key) then Some o else None
      end
  end.

Lemma find_key_upds key cs : ∀ l, find_key key (upds cs l) =
  match last_change key cs with Some o => o | None => find_key key l end.
Proof.
  induction cs as [|[k o] cs IH]; intros l; [done|]. cbn [last_change].
  change (upds ((k, o) :: cs) l) with (upds cs (upd k o l)). rewrite IH, find_key_upd.
  destruct (last_change key cs); [done|]. repeat case_decide; congruence.
Qed.

(** ** The sort of a commit *)

Definition key_le (a b : bytes) : Prop := ¬ key_lt b a.
Definition changes_sorted (cs : Changes) : Prop := StronglySorted key_le cs.*1.

Lemma key_le_lt a b c : key_lt a b → key_le b c → key_lt a c.
Proof.
  intros H1 H2. destruct (key_lt_trichotomy b c) as [H|[->|H]]; [by etrans|done|]. by destruct H2.
Qed.
Lemma key_lt_le a b c : key_le a b → key_lt b c → key_lt a c.
Proof.
  intros H1 H2. destruct (key_lt_trichotomy a b) as [H|[->|H]]; [by etrans|done|]. by destruct H1.
Qed.
Lemma key_le_ne a b : key_le a b → a ≠ b → key_lt a b.
Proof. intros H1 H2. destruct (key_lt_trichotomy a b) as [H|[->|H]]; [done|done|]. by destruct H1. Qed.
Lemma key_le_trans a b c : key_le a b → key_le b c → key_le a c.
Proof. intros H1 H2 H. apply H1. destruct (key_lt_trichotomy b c) as [H'|[->|H']]; [by etrans|done|]. by destruct H2. Qed.

Lemma insert_sorted_keys c l : (insert_sorted c l).*1 ≡ₚ c.1 :: l.*1.
Proof.
  induction l as [|d l IH]; [done|]. cbn [insert_sorted]. destruct (bytes_compare c.1 d.1); [done|done|].
  cbn. rewrite IH. constructor.
Qed.
Lemma insert_sorted_sorted c l : changes_sorted l → changes_sorted (insert_sorted c l).
Proof.
  unfold changes_sorted. induction l as [|d l IH]; [by repeat constructor|]. intros [Hd Hl]%StronglySorted_cons.
  cbn [insert_sorted]. destruct (bytes_compare c.1 d.1) eqn:E; cbn [fmap list_fmap].
  1, 2: apply StronglySorted_cons; split; [|by apply StronglySorted_cons];
    assert (Hcd : key_le c.1 d.1) by (unfold key_le; rewrite <- bytes_compare_gt, E; done);
    constructor; [done|]; eapply Forall_impl; [exact Hd|]; intros k; by apply key_le_trans.
  apply StronglySorted_cons. split; [|by apply IH]. change (list_fmap _ _ fst ?l) with (fst <$> l). rewrite insert_sorted_keys.
  constructor; [|done]. unfold key_le. rewrite <- bytes_compare_gt. intros E'. apply bytes_compare_gt in E, E'.
  eapply key_lt_irrefl. by etrans.
Qed.
Lemma last_change_insert key c l : last_change key (insert_sorted c l) = last_change key (c :: l).
Proof.
  induction l as [|d l IH]; [done|]. cbn [insert_sorted]. destruct (bytes_compare c.1 d.1) eqn:E; [done|done|].
  destruct c as [k o], d as [k' o']. cbn [fst last_change] in *. rewrite IH. destruct (last_change key l); [done|].
  apply bytes_compare_gt, key_lt_neq in E. repeat case_decide; congruence.
Qed.

Lemma sort_changes_sorted l : changes_sorted (sort_changes l).
Proof. induction l as [|c l IH]; [constructor|]. by apply insert_sorted_sorted. Qed.
Lemma last_change_sort key l : last_change key (sort_changes l) = last_change key l.
Proof.
  induction l as [|c l IH]; [done|]. change (sort_changes (c :: l)) with (insert_sorted c (sort_changes l)).
  rewrite last_change_insert. destruct c as [k o]. cbn. by rewrite IH.
Qed.
Lemma sort_changes_Permutation l : sort_changes l ≡ₚ l.
Proof.
  induction l as [|c l IH]; [done|]. change (sort_changes (c :: l)) with (insert_sorted c (sort_changes l)).
  transitivity (c :: sort_changes l); [|by constructor].
  generalize (sort_changes l). intros k. induction k as [|d k IHk]; [done|]. cbn [insert_sorted].
  destruct (bytes_compare c.1 d.1); [done|done|]. rewrite IHk. constructor.
Qed.
