(* ===== verification/DbOverlay.v ===== *)
(** * The commit overlay is the commit queue

    The overlay of a column holds, for every key, the last change that a queued
    commit makes to it: [commit_raw] adds the changes of a commit, and
    [process_commits] takes out exactly those of the commit it has logged
    (src/src/db.rs, src/src/btree/mod.rs). *)

From S2P Require Import Prelude.
From S2P Require Import Bytes.
From S2P Require Import Ids.
From S2P Require Import Log.
From S2P Require Import LogState.
From S2P Require Import Options.
From S2P Require Import BTreeNode.
From S2P Require Import BTree.
From S2P Require Import Overlay.
From S2P Require Import Db.
From stdpp Require Import options.
#[local] Set Default Proof Using "Type*".

(** ** Changes *)

(** The last change of a list to a key. *)
Definition last_change {V} (key : bytes) (l : list (bytes * V)) : option V :=
  foldl (fun acc '(k, v) => if decide (k = key) then Some v else acc) None l.

Lemma last_change_acc {V} key (l : list (bytes * V)) : ∀ acc,
  foldl (fun acc '(k, v) => if decide (k = key) then Some v else acc) acc l =
  match last_change key l with Some v => Some v | None => acc end.
Proof.
  unfold last_change. induction l as [|[k v] l IH]; intros acc; [done|]. cbn. rewrite IH.
  rewrite (IH (if decide (k = key) then Some v else None)).
  destruct (foldl _ None l); [done|]. by destruct (decide (k = key)).
Qed.

Lemma last_change_cons {V} key k (v : V) l : last_change key ((k, v) :: l) =
  match last_change key l with Some v => Some v | None => if decide (k = key) then Some v else None end.
Proof. unfold last_change at 1. cbn. by rewrite last_change_acc. Qed.

Lemma last_change_app {V} key (l1 l2 : list (bytes * V)) : last_change key (l1 ++ l2) =
  match last_change key l2 with Some v => Some v | None => last_change key l1 end.
Proof. unfold last_change at 1. by rewrite foldl_app, last_change_acc. Qed.

Lemma last_change_in {V} key (l : list (bytes * V)) v : last_change key l = Some v → (key, v) ∈ l.
Proof.
  induction l as [|[k w] l IH]; [done|]. rewrite last_change_cons.
  destruct (last_change key l) as [v'|] eqn:E.
  - intros [= ->]. right. by apply IH.
  - destruct (decide (k = key)) as [->|]; [|done]. intros [= ->]. by left.
Qed.

(** What [copy_to_overlay] records of the changes: a removal from a reference
    counted column is not. *)
Definition recorded (ref_counted : bool) (l : list (bytes * option bytes)) : list (bytes * option bytes) :=
  filter (fun '(_, v) => ref_counted = false ∨ is_Some v) l.

Lemma recorded_plain l : recorded false l = l.
Proof. induction l as [|[k v] l IH]; [done|]. unfold recorded in *. rewrite filter_cons_True by auto. by rewrite IH. Qed.

(** ** The pending changes of a queue *)

Section Pending.
Variables (ref_counted : bool) (changes : Commit → list (bytes * option bytes)).

Definition add_pending (key : bytes) (acc : option (Z * option bytes)) (c : Commit) : option (Z * option bytes) :=
  match last_change key (recorded ref_counted (changes c)) with
  | Some v => Some (commit_id c, v)
  | None => acc
  end.
Definition pending (key : bytes) (q : list Commit) : option (Z * option bytes) :=
  foldl (add_pending key) None q.

Lemma pending_snoc key q c : pending key (q ++ [c]) = add_pending key (pending key q) c.
Proof. unfold pending. by rewrite foldl_app. Qed.

Lemma pending_cons key c q : pending key (c :: q) =
  match pending key q with Some x => Some x | None => add_pending key None c end.
Proof.
  induction q as [|c' q IH] using rev_ind; [done|].
  rewrite app_comm_cons, !pending_snoc, IH. unfold add_pending at 1 3.
  by destruct (last_change key (recorded ref_counted (changes c'))).
Qed.

Lemma pending_id key q id v : pending key q = Some (id, v) → id ∈ commit_id <$> q.
Proof.
  induction q as [|c q IH]; [done|]. rewrite pending_cons. destruct (pending key q) as [x|].
  - intros [= ->]. right. by apply IH.
  - unfold add_pending. destruct (last_change _ _); [|done]. intros [= <- _]. by left.
Qed.

(** Taking the changes of the first commit out leaves those of the others. *)
Lemma pending_clean key c q : commit_id c ∉ commit_id <$> q →
  match pending key (c :: q) with
  | Some (id, v) => if (id =? commit_id c) && bool_decide (key ∈ (changes c).*1) then None else Some (id, v)
  | None => None
  end = pending key q.
Proof.
  intros Hc. rewrite pending_cons. destruct (pending key q) as [[id v]|] eqn:E.
  - destruct (Z.eqb_spec id (commit_id c)) as [->|]; [|done]. by apply pending_id in E.
  - unfold add_pending. destruct (last_change _ _) as [v|] eqn:El; [|done].
    rewrite Z.eqb_refl, bool_decide_true; [done|]. apply last_change_in in El.
    apply list_elem_of_filter in El as [_ El]. by apply (list_elem_of_fmap_2 fst) in El.
Qed.

End Pending.

(** ** One column *)

Lemma OrdMap_get_insert {A} key (a : A) m key' :
  OrdMap.get key' (OrdMap.insert key a m) = if decide (key = key') then Some a else OrdMap.get key' m.
Proof.
  induction m as [|[k v] m IH]; cbn; [done|]. destruct (bytes_compare key k) eqn:E; cbn.
  - apply bytes_compare_eq in E as <-. by destruct (decide (key = key')).
  - done.
  - rewrite IH. destruct (decide (k = key')) as [<-|], (decide (key = k)) as [->|]; try done.
    by rewrite bytes_compare_refl in E.
Qed.

Lemma OrdMap_get_remove {A} key (m : list (bytes * A)) key' :
  OrdMap.get key' (OrdMap.remove key m) = if decide (key = key') then None else OrdMap.get key' m.
Proof.
  unfold OrdMap.remove. induction m as [|[k v] m IH]; [by cbn; destruct (decide _)|].
  rewrite filter_cons. cbn [fst OrdMap.get]. destruct (decide (k ≠ key)) as [Hk|Hk]; cbn [OrdMap.get].
  - rewrite IH. destruct (decide (k = key')) as [->|]; [|done]. by rewrite decide_False.
  - apply dec_stable in Hk as ->. rewrite IH. by destruct (decide (key = key')).
Qed.

Lemma copy_indexed_lookup rc rid (l : IndexedChangeSet) (k : Key) : ∀ o b,
  let o' := (IndexedChangeSet.copy_to_overlay rc rid l (o, b)).1 in
  co_btree o' = co_btree o ∧
  co_indexed o' !! k =
    match last_change k (recorded rc l) with Some v => Some (rid, v) | None => co_indexed o !! k end.
Proof.
  unfold IndexedChangeSet.copy_to_overlay. induction l as [|[k1 v] l IH]; intros o b; [done|].
  cbn [foldl]. unfold IndexedChangeSet.copy_change at 2 4. unfold recorded. rewrite filter_cons.
  assert (E : negb rc || bool_decide (is_Some v) = bool_decide (rc = false ∨ is_Some v)).
  { destruct rc, v; cbn; symmetry; try (apply bool_decide_eq_true_2; eauto; fail).
    apply bool_decide_eq_false_2. by intros [?|[]]. }
  rewrite E. destruct (decide (rc = false ∨ is_Some v)) as [Hd|Hd].
  - rewrite bool_decide_true by done. destruct (IH (set_co_indexed (<[k1 := (rid, v)]> (co_indexed o)) o)
      (b + Z.of_nat (length k1) + match v with Some v => Z.of_nat (length v) | None => 0 end)) as [IH1 IH2].
    split; [done|]. etrans; [exact IH2|]. rewrite last_change_cons. fold (recorded rc l).
    destruct (last_change k (recorded rc l)); [done|]. cbn [set_co_indexed co_indexed].
    destruct (decide (k1 = k)) as [->|Hk].
    + by rewrite lookup_insert_eq, decide_True.
    + by rewrite lookup_insert_ne, decide_False.
  - rewrite bool_decide_false by done. apply IH.
Qed.

(** The overlay does not depend on the bytes that are counted beside it. *)
Lemma copy_indexed_bytes rc rid (l : IndexedChangeSet) : ∀ o b,
  ∃ b', IndexedChangeSet.copy_to_overlay rc rid l (o, b) = ((IndexedChangeSet.copy_to_overlay rc rid l (o, 0)).1, b').
Proof.
  unfold IndexedChangeSet.copy_to_overlay. induction l as [|[k v] l IH]; intros o b; [by eexists|].
  cbn [foldl]. unfold IndexedChangeSet.copy_change at 2 4.
  destruct (negb rc || bool_decide (is_Some v));
    match goal with |- context [foldl _ (?o1, ?b1) l = ((foldl _ (?o1, ?b2) l).1, _)] =>
      destruct (IH o1 b1) as [b' E1]; destruct (IH o1 b2) as [b'' E2]; rewrite E1, E2 end; by eexists.
Qed.
Lemma copy_btree_bytes rc rid (l : BTreeChangeSet) : ∀ m b,
  ∃ b', BTreeChangeSet.copy_to_overlay rc rid l (m, b) = ((BTreeChangeSet.copy_to_overlay rc rid l (m, 0)).1, b').
Proof.
  unfold BTreeChangeSet.copy_to_overlay. induction l as [|[k v] l IH]; intros o b; [by eexists|].
  cbn [foldl]. unfold BTreeChangeSet.copy_change at 2 4.
  destruct v; match goal with |- context [foldl _ (?o1, ?b1) l = ((foldl _ (?o1, ?b2) l).1, _)] =>
    destruct (IH o1 b1) as [b' E1]; destruct (IH o1 b2) as [b'' E2]; rewrite E1, E2 end; by eexists.
Qed.

Lemma copy_btree_lookup rc rid (l : BTreeChangeSet) k : ∀ m b,
  OrdMap.get k (BTreeChangeSet.copy_to_overlay rc rid l (m, b)).1 =
    match last_change k (recorded rc l) with Some v => Some (rid, v) | None => OrdMap.get k m end.
Proof.
  unfold BTreeChangeSet.copy_to_overlay. induction l as [|[k1 v] l IH]; intros m b; [done|].
  cbn [foldl]. unfold BTreeChangeSet.copy_change at 2. unfold recorded. rewrite filter_cons.
  destruct v as [v|].
  - rewrite decide_True by eauto. rewrite IH, last_change_cons. fold (recorded rc l).
    destruct (last_change k (recorded rc l)); [done|]. rewrite OrdMap_get_insert. by destruct (decide (k1 = k)).
  - destruct rc.
    + rewrite decide_False by (intros [?|[]]; done). apply IH.
    + rewrite decide_True by auto. rewrite IH, last_change_cons. fold (recorded false l).
      destruct (last_change k (recorded false l)); [done|]. rewrite OrdMap_get_insert. by destruct (decide (k1 = k)).
Qed.

Lemma clean_indexed_lookup rid (l : list Key) (k : Key) : ∀ m,
  foldl (IndexedChangeSet.clean_key rid) m l !! k =
    match m !! k with
    | Some (id, v) => if (id =? rid) && bool_decide (k ∈ l) then None else Some (id, v)
    | None => None
    end.
Proof.
  induction l as [|k1 l IH]; intros m; cbn [foldl].
  { destruct (m !! k) as [[id v]|]; [|done]. by rewrite andb_false_r. }
  rewrite IH. unfold IndexedChangeSet.clean_key. destruct (decide (k1 = k)) as [->|Hk].
  - rewrite (bool_decide_true (k ∈ k :: l)) by (by left).
    destruct (m !! k) as [[id v]|] eqn:E; [|by rewrite E]. rewrite andb_true_r. destruct (id =? rid) eqn:Ei.
    + by rewrite lookup_delete_eq.
    + by rewrite E, Ei.
  - assert (Ek : bool_decide (k ∈ k1 :: l) = bool_decide (k ∈ l)).
    { apply bool_decide_ext. rewrite elem_of_cons. naive_solver. }
    rewrite Ek. destruct (m !! k1) as [[id1 v1]|]; [|done]. destruct (id1 =? rid); [|done].
    by rewrite lookup_delete_ne.
Qed.

Lemma clean_btree_lookup rid (l : list bytes) k : ∀ m,
  OrdMap.get k (foldl (BTreeChangeSet.clean_key rid) m l) =
    match OrdMap.get k m with
    | Some (id, v) => if (id =? rid) && bool_decide (k ∈ l) then None else Some (id, v)
    | None => None
    end.
Proof.
  induction l as [|k1 l IH]; intros m; cbn [foldl].
  { destruct (OrdMap.get k m) as [[id v]|]; [|done]. by rewrite andb_false_r. }
  rewrite IH. unfold BTreeChangeSet.clean_key. destruct (decide (k1 = k)) as [->|Hk].
  - rewrite (bool_decide_true (k ∈ k :: l)) by (by left).
    destruct (OrdMap.get k m) as [[id v]|] eqn:E; [|by rewrite E]. rewrite andb_true_r.
    destruct (id =? rid) eqn:Ei.
    + rewrite OrdMap_get_remove. by rewrite decide_True.
    + by rewrite E, Ei.
  - assert (Ek : bool_decide (k ∈ k1 :: l) = bool_decide (k ∈ l)).
    { apply bool_decide_ext. rewrite elem_of_cons. naive_solver. }
    rewrite Ek. destruct (OrdMap.get k1 m) as [[id1 v1]|]; [|done]. destruct (id1 =? rid); [|done].
    rewrite OrdMap_get_remove. by rewrite decide_False.
Qed.

(** ** All columns *)

(** Updates of distinct places of a list, one after the other. *)
Lemma for_each_update {S E X} (f : E → ST S unit) (ov : S → list X) (idx : E → nat) (g : E → X → X) (l : list E) :
  (∀ e s o, e ∈ l → ov s !! idx e = Some o →
    ∃ s', f e s = (Ok tt, s') ∧ ov s' = <[idx e := g e o]> (ov s)) →
  ∀ s, NoDup (idx <$> l) → (∀ e, e ∈ l → (idx e < length (ov s))%nat) →
  ∃ s', for_each f l s = (Ok tt, s') ∧ length (ov s') = length (ov s) ∧
    (∀ i, i ∉ idx <$> l → ov s' !! i = ov s !! i) ∧
    (∀ e o, e ∈ l → ov s !! idx e = Some o → ov s' !! idx e = Some (g e o)).
Proof.
  induction l as [|e l IH]; intros Hf s Hnd Hin.
  { exists s. split_and!; [done|done|done|]. intros e o He. by apply not_elem_of_nil in He. }
  rewrite fmap_cons in Hnd. apply NoDup_cons in Hnd as [Hni Hnd].
  destruct (lookup_lt_is_Some_2 (ov s) (idx e)) as [o Ho]; [apply Hin; by left|].
  destruct (Hf e s o) as (s1 & E1 & Ov1); [by left|done|].
  destruct (IH) with (s := s1) as (s2 & E2 & Hlen & Hother & Hthis); [|done| |].
  { intros e' s' o' He'. apply Hf. by right. }
  { intros e' He'. rewrite Ov1, length_insert. apply Hin. by right. }
  exists s2. split_and!.
  - cbn [for_each]. by erewrite ST_bind_Ok by exact E1.
  - by rewrite Hlen, Ov1, length_insert.
  - intros i Hi. rewrite fmap_cons, not_elem_of_cons in Hi. destruct Hi as [Hi1 Hi2].
    rewrite Hother by done. rewrite Ov1. by apply list_lookup_insert_ne.
  - intros e' o' [->|He']%elem_of_cons Ho'.
    + rewrite Hother by done. rewrite Ov1. assert (o' = o) as -> by congruence.
      apply list_lookup_insert_eq. by eapply lookup_lt_Some.
    + apply Hthis; [done|]. rewrite Ov1, list_lookup_insert_ne; [done|]. intros Heq.
      apply Hni. rewrite Heq. by apply list_elem_of_fmap_2.
Qed.

Section Columns.
Context `{!HashMapOrder}.

(** The same for the entries of a map from columns, in the order of [iter]. *)
Lemma for_each_columns {S X V} (f : ColId * V → ST S unit) (ov : S → list X) (g : ColId → V → X → X) (m : gmap ColId V) s :
  (∀ c v, m !! c = Some v → 0 ≤ c < Z.of_nat (length (ov s))) →
  (∀ c v s' o, m !! c = Some v → ov s' !! Z.to_nat c = Some o →
    ∃ s'', f (c, v) s' = (Ok tt, s'') ∧ ov s'' = <[Z.to_nat c := g c v o]> (ov s')) →
  ∃ s', for_each f (iter m) s = (Ok tt, s') ∧ length (ov s') = length (ov s) ∧
    ∀ i, ov s' !! i = (match m !! Z.of_nat i with Some v => g (Z.of_nat i) v | None => id end) <$> ov s !! i.
Proof.
  intros Hdom Hf.
  assert (Hin : ∀ c v, (c, v) ∈ iter m ↔ m !! c = Some v).
  { intros c v. by rewrite iter_perm, elem_of_map_to_list. }
  destruct (for_each_update f ov (fun e => Z.to_nat e.1) (fun e => g e.1 e.2) (iter m)) with (s := s) as
    (s' & Hrun & Hlen & Hother & Hthis).
  - intros [c v] s0 o He. apply Hin in He. by apply Hf.
  - assert (Hnd : NoDup (iter m).*1) by (rewrite iter_perm; apply NoDup_fst_map_to_list).
    rewrite (list_fmap_compose fst Z.to_nat (iter m)). apply NoDup_fmap_2_strong; [|done].
    intros c1 c2 H1 H2 Heq. apply list_elem_of_fmap in H1 as ([k1 v1] & -> & H1), H2 as ([k2 v2] & -> & H2).
    apply Hin, Hdom in H1, H2. cbn in *. lia.
  - intros [c v] He. apply Hin, Hdom in He. cbn. lia.
  - exists s'. split_and!; [done|done|]. intros i. destruct (m !! Z.of_nat i) as [v|] eqn:E.
    + destruct (ov s !! i) as [o|] eqn:Eo.
      * cbn. specialize (Hthis (Z.of_nat i, v) o). cbn in Hthis. rewrite Nat2Z.id in Hthis.
        apply Hthis; [by apply Hin|done].
      * cbn. apply lookup_ge_None_2. apply lookup_ge_None_1 in Eo. lia.
    + rewrite Hother; [by destruct (ov s !! i)|]. intros ([c v] & Hc & Hcv)%list_elem_of_fmap.
      apply Hin in Hcv. cbn in Hc. pose proof (Hdom _ _ Hcv). subst i. rewrite Z2Nat.id in E by lia.
      enough (Some v = None) by done. etrans; [symmetry; exact Hcv|exact E].
Qed.

(** Every column that a commit changes exists and is of the right kind. *)
Definition changes_ok (options : Options) (n : nat) (cs : CommitChangeSet) : Prop :=
  length (columns options) = n ∧
  (∀ c v, cs_indexed cs !! c = Some v → 0 ≤ c < Z.of_nat n) ∧
  (∀ c v, cs_btree cs !! c = Some v → 0 ≤ c < Z.of_nat n).

Definition column_rc (options : Options) (i : nat) : bool :=
  match columns options !! i with Some o => ref_counted_opt o | None => false end.
Definition indexed_changes (i : nat) (c : Commit) : IndexedChangeSet :=
  default [] (cs_indexed (changeset c) !! Z.of_nat i).
Definition btree_changes (i : nat) (c : Commit) : BTreeChangeSet :=
  default [] (cs_btree (changeset c) !! Z.of_nat i).

(** The overlays show the changes of the commits [q]. *)
Definition overlay_ok (options : Options) (ov : list CommitOverlay) (q : list Commit) : Prop :=
  ∀ i o, ov !! i = Some o →
    (∀ k : Key, co_indexed o !! k = pending (column_rc options i) (indexed_changes i) k q) ∧
    (∀ k, OrdMap.get k (co_btree o) = pending (column_rc options i) (btree_changes i) k q).

(** [copy_commit] adds the changes of a commit. *)
Lemma copy_commit_ok options ov q cs rid : changes_ok options (length ov) cs → overlay_ok options ov q →
  ∃ ov' b, copy_commit options rid cs (ov, 0) = (Ok tt, (ov', b)) ∧ length ov' = length ov ∧
    ∀ bytes, overlay_ok options ov' (q ++ [MkCommit rid bytes cs]).
Proof.
  intros (Hopt & Hi & Hb) Hov.
  assert (Hrc : ∀ c, 0 ≤ c < Z.of_nat (length ov) →
    ∃ o, columns options !! Z.to_nat c = Some o ∧ ref_counted_opt o = column_rc options (Z.to_nat c)).
  { intros c Hc. destruct (lookup_lt_is_Some_2 (columns options) (Z.to_nat c)) as [o Ho]; [lia|].
    exists o. unfold column_rc. by rewrite Ho. }
  destruct (for_each_columns (copy_indexed options rid) fst
    (fun c l o => (IndexedChangeSet.copy_to_overlay (column_rc options (Z.to_nat c)) rid l (o, 0)).1)
    (cs_indexed cs) (ov, 0)) as ([ov1 b1] & Hrun1 & Hlen1 & Hl1); [done| |].
  { intros c l [ov0 b0] o Hc Ho. unfold copy_indexed. cbn [fst] in *. rewrite Ho.
    destruct (Hrc c (Hi _ _ Hc)) as (opt & -> & ->).
    destruct (copy_indexed_bytes (column_rc options (Z.to_nat c)) rid l o b0) as [b' ->]. by eexists. }
  cbn [fst] in *.
  destruct (for_each_columns (copy_btree options rid) fst
    (fun c l o => set_co_btree (BTreeChangeSet.copy_to_overlay (column_rc options (Z.to_nat c)) rid l (co_btree o, 0)).1 o)
    (cs_btree cs) (ov1, b1)) as ([ov2 b2] & Hrun2 & Hlen2 & Hl2); cbn [fst] in *; [by rewrite Hlen1| |].
  { intros c l [ov0 b0] o Hc Ho. unfold copy_btree. cbn [fst] in *. rewrite Ho.
    destruct (Hrc c (Hb _ _ Hc)) as (opt & -> & ->).
    destruct (copy_btree_bytes (column_rc options (Z.to_nat c)) rid l (co_btree o) b0) as [b' ->]. by eexists. }
  exists ov2, b2. split_and!; [|by rewrite Hlen2, Hlen1|].
  { unfold copy_commit. by erewrite ST_bind_Ok by exact Hrun1. }
  intros bytes i o Ho. rewrite Hl2, Hl1 in Ho.
  destruct (ov !! i) as [o0|] eqn:E0; [|done]. destruct (Hov i o0 E0) as [Hov1 Hov2].
  cbn in Ho. injection Ho as <-. rewrite !Nat2Z.id. split; intros k; rewrite pending_snoc.
  - unfold add_pending, indexed_changes. cbn [changeset commit_id]. rewrite <- Hov1.
    etrans; [|etrans; [apply (proj2 (copy_indexed_lookup (column_rc options i) rid
      (default [] (cs_indexed cs !! Z.of_nat i)) k o0 0))|done]].
    destruct (cs_btree cs !! Z.of_nat i), (cs_indexed cs !! Z.of_nat i); done.
  - unfold add_pending, btree_changes. cbn [changeset commit_id]. rewrite <- Hov2.
    etrans; [|etrans; [apply (copy_btree_lookup (column_rc options i) rid
      (default [] (cs_btree cs !! Z.of_nat i)) k (co_btree o0) 0)|done]].
    destruct (cs_btree cs !! Z.of_nat i), (cs_indexed cs !! Z.of_nat i) as [l|]; try done; cbn.
    all: by rewrite (proj1 (copy_indexed_lookup (column_rc options i) rid l k o0 0)).
Qed.

(** [clean_commit] takes the changes of the first commit out. *)
Lemma clean_commit_ok options ov q c : changes_ok options (length ov) (changeset c) →
  commit_id c ∉ commit_id <$> q → overlay_ok options ov (c :: q) →
  ∃ ov', clean_commit (commit_id c) (changeset c) ov = (Ok tt, ov') ∧ length ov' = length ov ∧
    overlay_ok options ov' q.
Proof.
  intros (Hopt & Hi & Hb) Hid Hov.
  destruct (for_each_columns (clean_indexed (commit_id c)) id
    (fun _ l o => IndexedChangeSet.clean_overlay (commit_id c) l o) (cs_indexed (changeset c)) ov) as
    (ov1 & Hrun1 & Hlen1 & Hl1); [done| |].
  { intros col l ov0 o Hc Ho. unfold clean_indexed. cbn [fst snd id] in *. rewrite Ho. by eexists. }
  cbn [id] in *.
  destruct (for_each_columns (clean_btree (commit_id c)) id
    (fun _ l o => set_co_btree (BTreeChangeSet.clean_overlay (commit_id c) l (co_btree o)) o)
    (cs_btree (changeset c)) ov1) as (ov2 & Hrun2 & Hlen2 & Hl2); cbn [id] in *; [by rewrite Hlen1| |].
  { intros col l ov0 o Hc Ho. unfold clean_btree. cbn [fst snd] in *. rewrite Ho. by eexists. }
  exists ov2. split_and!; [|by rewrite Hlen2, Hlen1|].
  { unfold clean_commit. by erewrite ST_bind_Ok by exact Hrun1. }
  intros i o Ho. rewrite Hl2, Hl1 in Ho.
  destruct (ov !! i) as [o0|] eqn:E0; [|done]. destruct (Hov i o0 E0) as [Hov1 Hov2].
  cbn in Ho. injection Ho as <-. split; intros k; rewrite <- (pending_clean _ _ k c q Hid).
  - rewrite <- Hov1. etrans; [|apply (clean_indexed_lookup (commit_id c) (indexed_changes i c).*1 k (co_indexed o0))].
    unfold indexed_changes.
    by destruct (cs_btree (changeset c) !! Z.of_nat i), (cs_indexed (changeset c) !! Z.of_nat i).
  - rewrite <- Hov2. etrans; [|apply (clean_btree_lookup (commit_id c) (btree_changes i c).*1 k (co_btree o0))].
    unfold btree_changes.
    by destruct (cs_btree (changeset c) !! Z.of_nat i), (cs_indexed (changeset c) !! Z.of_nat i).
Qed.

End Columns.
