(* ===== verification/DbColumns.v ===== *)
(** * The columns of a database under a record

    The hash columns of a database share one log writer. The writes of a commit
    to one column leave what the others represent alone, so a commit as a whole
    updates the maps of the columns it changes (src/src/db.rs). *)

From S2P Require Import Prelude.
From S2P Require Import Bytes.
From S2P Require Import Ids.
From S2P Require Import Log.
From S2P Require Import LogState.
From S2P Require Import Table.
From S2P Require Import TableStore.
From S2P Require Import TableEnact.
From S2P Require Import Index.
From S2P Require Import IndexProofs.
From S2P Require Import IndexEnact.
From S2P Require Import Compress.
From S2P Require Import Stats.
From S2P Require Import Options.
From S2P Require Import Column.
From S2P Require Import HashColumn.
From S2P Require Import ColumnTables.
From S2P Require Import ColumnLinks.
From S2P Require Import ColumnProofs.
From S2P Require Import ColumnValues.
From S2P Require Import ColumnMap.
From S2P Require Import ColumnSession.
From S2P Require Import Frames.
From S2P Require Import BTreeNode.
From S2P Require Import BTree.
From S2P Require Import Overlay.
From S2P Require Import Db.
From stdpp Require Import options.
#[local] Set Default Proof Using "All".

Section Frame.
Context `{!Uninit, !Codecs, !CodecLaws}.
Implicit Types (c : HashColumn) (w : LogWriter) (M : KV).

(** What a column represents depends on the log only through the views of its
    own tables. *)
Lemma col_repr_frame c w w' M :
  (∀ id n, ValueTableId.col id = hc_col c → value_view w' id n = value_view w id n) →
  (∀ n, index_view w' (it_id (hc_index c)) n = index_view w (it_id (hc_index c)) n) →
  (∀ id n d, ValueTableId.col id = hc_col c → own_value w' id n = Some d → own_value w id n = Some d) →
  (index_logged (hc_col c) (hc_index c) w → index_logged (hc_col c) (hc_index c) w') →
  col_repr c w M → col_repr c w' M.
Proof.
  intros Hv Hx Hown Hlg (SS & [I1 I2 I3 I4 I5 I6] & HM).
  assert (Hsame : ∀ k j, lookup_at (hc_index c) w' k j = lookup_at (hc_index c) w k j).
  { intros k j. apply lookup_at_ext; [done|]. unfold chunk_view. by rewrite Hx. }
  exists SS. split; [split; try done|].
  - destruct I2 as [T1 T2 T3 T4 T5 T6 T7 T8 T9 T10 T11]. split; try done.
    + intros i t m Ht Hm.
      eapply store_repr_frame; [|by eapply T3]. intros n. apply Hv. rewrite (T4 _ _ Ht).
      apply value_id_new; [done|]. apply lookup_lt_Some in Ht. rewrite T1 in Ht. unfold SIZE_TIERS in Ht.
      unfold is_u8. lia.
    + intros id n d Hc Hd. apply T8; [done|by apply Hown].
    + intros i t Ht. unfold header_shown. rewrite Hv; [by eapply T11|]. rewrite (T4 _ _ Ht).
      apply value_id_new; [done|]. apply lookup_lt_Some in Ht. rewrite T1 in Ht. unfold SIZE_TIERS in Ht.
      unfold is_u8. lia.
  - destruct I3 as [J1 J2 J3]. split; [done| |done]. intros i ch. rewrite Hx. apply J2.
  - by apply (links_ext _ _ _ Hsame).
  - by apply Hlg.
  - intros key Hk. specialize (HM key Hk). unfold kv_holds, holds in *. destruct (M key) as [[v n]|].
    + destruct HM as (s & (j & a & Hs) & Hrest). exists s. split; [|done]. exists j, a. by rewrite Hsame.
    + intros s (j & a & Hs). apply (HM s). exists j, a. by rewrite <- Hsame.
Qed.

(** The next record sees what the last one left. *)
Lemma col_repr_new c w o rid M :
  (∀ id n, value_view o id n = value_view w id n) → (∀ id n, index_view o id n = index_view w id n) →
  col_repr c w M → col_repr c (LogWriter.new o rid) M.
Proof.
  intros Hv Hx. apply col_repr_frame; [by intros id n _; apply Hv|by intros n; apply Hx|done|].
  intros _. by split.
Qed.

(** Writes under another column. *)
Lemma col_repr_other c w w' M col : col ≠ hc_col c → IndexTableId.col (it_id (hc_index c)) = hc_col c →
  writer_step col w w' → col_repr c w M → col_repr c w' M.
Proof.
  intros Hne Hid Hw. apply col_repr_frame.
  - intros id n Hc. eapply ws_value; [done|congruence].
  - intros n. eapply ws_index; [done|congruence].
  - intros id n d Hc. unfold own_value. rewrite (ws_own_value _ _ _ Hw); [done|congruence].
  - intros [Hcov Hown]. split.
    + intros i rid mask ch. rewrite (ws_own_index _ _ _ Hw), (ws_overlays _ _ _ Hw) by congruence. apply Hcov.
    + intros id n e Hc. rewrite (ws_own_index _ _ _ Hw) by congruence. by apply Hown.
Qed.

Lemma free_entries_frame c w w' n :
  (∀ i, index_view w' (it_id (hc_index c)) i = index_view w (it_id (hc_index c)) i) →
  free_entries c w n → free_entries c w' n.
Proof.
  intros Hx Hf ci. specialize (Hf ci). unfold chunk_view in *. by rewrite Hx.
Qed.

End Frame.

(** ** The columns of a database *)

(** A hash column that was opened as number [i] with the options. *)
Record column_of (options : Options) (version : Z) (i : nat) (c : HashColumn) : Prop := {
  co_col : hc_col c = Z.of_nat i;
  co_index : IndexTableId.col (it_id (hc_index c)) = Z.of_nat i;
  co_index_u16 : is_u16 (IndexTableId.as_u16 (it_id (hc_index c)));
  co_options : ∃ o, columns options !! i = Some o ∧ btree_index o = false ∧
    hc_ref_counted c = ref_counted_opt o ∧ hc_preimage c = preimage o ∧ hc_uniform_keys c = uniform o ∧
    hc_compression c = Compress.new (compression o) (compression_threshold o);
  co_salt : salt_opt options = Some (hc_salt c);
  co_salt_len : length (hc_salt c) = 32%nat;
  co_version : hc_db_version c = version;
}.

Lemma column_of_same options version i c c' : same_column c c' →
  column_of options version i c → column_of options version i c'.
Proof.
  intros [S1 S2 S3 S4 S5 S6 S7 S8 S9] [C1 C2 Cu C3 C4 C5 C6]. split; try congruence.
  destruct C3 as (o & ? & ? & ? & ? & ? & ?). exists o. split_and!; congruence.
Qed.

(** The maps of the columns, and a change of one of them. *)
Definition DbMap : Type := nat → KV.
Definition set_map (M : DbMap) (i : nat) (m : KV) : DbMap := fun j => if decide (j = i) then m else M j.

Lemma set_map_eq M i m : set_map M i m i = m.
Proof. unfold set_map. by rewrite decide_True. Qed.
Lemma set_map_ne M i m j : j ≠ i → set_map M i m j = M j.
Proof. intros. unfold set_map. by rewrite decide_False. Qed.

(** The changes of a commit to column [i]. *)
Definition column_writes (options : Options) (i : nat) (m : KV) (l : list Change) : KV :=
  match columns options !! i with
  | Some o => kv_writes (ref_counted_opt o) (preimage o) m l
  | None => m
  end.

(** What stays of a writer during a record of a database of [n] columns. *)
Record same_record (n : nat) (w w' : LogWriter) : Prop := {
  sr_overlays : writer_overlays w' = writer_overlays w;
  sr_record : LogWriter.record_id w' = LogWriter.record_id w;
  sr_dropped : dropped_tables (writer_log w') = dropped_tables (writer_log w);
  sr_value : ∀ id i, ¬ 0 ≤ ValueTableId.col id < Z.of_nat n →
    overlay_lookup (local_values (writer_log w')) id i = overlay_lookup (local_values (writer_log w)) id i;
  sr_index : ∀ id i, ¬ 0 ≤ IndexTableId.col id < Z.of_nat n →
    overlay_lookup (local_index (writer_log w')) id i = overlay_lookup (local_index (writer_log w)) id i;
  sr_value_id : ∀ id i e, overlay_lookup (local_values (writer_log w')) id i = Some e →
    overlay_lookup (local_values (writer_log w)) id i = Some e ∨ e.1 = LogWriter.record_id w;
  sr_index_id : ∀ id i e, overlay_lookup (local_index (writer_log w')) id i = Some e →
    overlay_lookup (local_index (writer_log w)) id i = Some e ∨ e.1.1 = LogWriter.record_id w;
}.
#[global] Instance same_record_preorder n : PreOrder (same_record n).
Proof.
  split; [intros w; split; auto|]. intros w1 w2 w3 [A1 A2 A3 A4 A5 A6 A7] [B1 B2 B3 B4 B5 B6 B7].
  split; try congruence.
  - intros id i Hid. by rewrite B4, A4.
  - intros id i Hid. by rewrite B5, A5.
  - intros id i e [He|He]%B6; [by apply A6|right; congruence].
  - intros id i e [He|He]%B7; [by apply A7|right; congruence].
Qed.
Lemma writer_step_record n i w w' : (i < n)%nat → writer_step (Z.of_nat i) w w' → same_record n w w'.
Proof.
  intros Hi [A1 A2 A3 A4 A5 A6 A7]. split; try done.
  - intros id j Hid. apply A4. lia.
  - intros id j Hid. apply A5. lia.
Qed.

(** The columns keep their configuration, their index and their table files. *)
Definition same_columns (l l' : list Column) : Prop := length l' = length l ∧
  ∀ i c, l !! i = Some (Hash c) →
    ∃ c', l' !! i = Some (Hash c') ∧ same_column c c' ∧ table_files c' = table_files c.
#[global] Instance same_columns_preorder : PreOrder same_columns.
Proof.
  split; [intros l; split; [done|]; intros i c Hi; exists c; split; [done|by split]|]. intros l1 l2 l3 [A1 A2] [B1 B2].
  split; [congruence|]. intros i c (c2 & Hi2 & H2 & F2)%A2. apply B2 in Hi2 as (c3 & Hi3 & H3 & F3).
  exists c3. split_and!; [done|by eapply same_column_trans|congruence].
Qed.
Lemma same_columns_insert l i c c' : l !! i = Some (Hash c) → same_column c c' → table_files c' = table_files c →
  same_columns l (<[i := Hash c']> l).
Proof.
  intros Hi Hsc Hf. split; [by rewrite length_insert|]. intros j cj. rewrite list_lookup_insert.
  destruct (decide _) as [[<- _]|]; [|by exists cj]. intros Hj. exists c'. split; [done|]. by simplify_eq.
Qed.

Section Columns.
Context `{!Uninit, !Codecs, !CodecLaws, !HashMapOrder} (options : Options) (version : Z).

Definition cols_repr (l : list Column) (w : LogWriter) (M : DbMap) : Prop :=
  length l = length (columns options) ∧
  ∀ i col, l !! i = Some col → ∃ c, col = Hash c ∧ column_of options version i c ∧ col_repr c w (M i).

(** The column has room for the changes. *)
Definition room_for (c : HashColumn) (w : LogWriter) (l : list Change) : Prop :=
  Forall (fun '(key, val) => is_key key ∧ value_ok c val) l ∧ free_entries c w (length l) ∧ changes_room c l.

Lemma of_column_repr c w M i : column_of options version i c → col_repr c w M →
  is_u8 (Z.of_nat i) ∧ of_column (Z.of_nat i) (c, w).
Proof.
  intros [C1 C2 _ _ _ _ _] (SS & [I1 I2 I3 I4 I5 I6] & _). rewrite <- C1. split; [done|]. split_and!.
  - intros j t Ht. cbn in Ht. rewrite (tb_id _ _ _ _ _ _ I2 _ _ Ht). apply value_id_new; [done|].
    apply lookup_lt_Some in Ht. rewrite (tb_len _ _ _ _ _ _ I2) in Ht. unfold SIZE_TIERS in Ht. unfold is_u8. lia.
  - cbn. congruence.
  - cbn. by rewrite I4.
Qed.

(** One column of the list changes with the writer: the others still represent
    what they did. *)
Lemma cols_repr_step l w M i c c' w' m : cols_repr l w M → l !! i = Some (Hash c) → same_column c c' →
  writer_step (Z.of_nat i) w w' → col_repr c' w' m → cols_repr (<[i := Hash c']> l) w' (set_map M i m).
Proof.
  intros [Hlen Hl] Hi Hsc Hw Hm. split; [by rewrite length_insert|]. intros j col.
  rewrite list_lookup_insert. destruct (decide (i = j ∧ _)) as [[<- _]|Hne].
  - intros [= <-]. exists c'. split; [done|]. rewrite set_map_eq. split; [|done].
    destruct (Hl _ _ Hi) as (c0 & [= <-] & Hc & _). by eapply column_of_same.
  - intros Hj. assert (j ≠ i) by (intros ->; apply lookup_lt_Some in Hi; lia).
    destruct (Hl _ _ Hj) as (c0 & -> & Hc & Hr). exists c0. split; [done|]. split; [done|].
    rewrite set_map_ne by done. eapply col_repr_other; [| |exact Hw|done].
    + rewrite (co_col _ _ _ _ Hc). lia.
    + by rewrite (co_col _ _ _ _ Hc), (co_index _ _ _ _ Hc).
Qed.

Lemma room_for_step l w M i j c cj w' ch : cols_repr l w M → i ≠ j → l !! i = Some (Hash c) → l !! j = Some (Hash cj) →
  writer_step (Z.of_nat i) w w' → room_for cj w ch → room_for cj w' ch.
Proof.
  intros [Hlen Hl] Hne Hi Hj Hw (R1 & R2 & R3). split_and!; [done| |done].
  eapply free_entries_frame; [|done]. intros n. eapply ws_index; [exact Hw|].
  destruct (Hl _ _ Hj) as (c0 & [= <-] & Hc & _). rewrite (co_index _ _ _ _ Hc). lia.
Qed.

Lemma write_plans_keeps col l : is_u8 col → keeps (of_column col) (column_step col) (write_plans l).
Proof.
  intros Hu. induction l as [|[k v] l IH]; cbn [write_plans]; [apply keeps_ret, _|].
  apply keeps_bind; [apply _|by apply write_plan_keeps|]. intros o.
  apply keeps_bind; [apply _|done|]. intros os. apply keeps_ret, _.
Qed.

(** The writes of a commit to one column. *)
Lemma write_plan_loop changes : ∀ ops re s os s', write_plans changes s = (Ok os, s') → (NeedReindex ∉ os) →
  IndexedChangeSet.write_plan changes ops re s = (Ok (ops + Z.of_nat (length changes), re), s').
Proof.
  induction changes as [|[k v] changes IH]; intros ops re s os s'; cbn [write_plans IndexedChangeSet.write_plan].
  { intros [= <- <-] _. cbn. by rewrite Z.add_0_r. }
  unfold mbind at 1, ST_bind at 1. destruct (HashColumn.write_plan k v s) as [[o|e| | | |] s1] eqn:E1; try done.
  unfold mbind, ST_bind. destruct (write_plans changes s1) as [[os1|e| | | |] s2] eqn:E2; try done.
  intros [= <- <-] Hos. apply not_elem_of_cons in Hos as [Ho Hos]. rewrite E1.
  assert (Ere : match o with NeedReindex => true | _ => re end = re) by (by destruct o).
  rewrite Ere. etrans; [by eapply IH|]. do 3 f_equal. cbn [length]. lia.
Qed.

Lemma plan_indexed_ok l w M c changes ops : cols_repr l w M → 0 ≤ c →
  (∃ hc, l !! Z.to_nat c = Some (Hash hc) ∧ room_for hc w changes) →
  ∃ hc' w' ops', plan_indexed (c, changes) ((l, w), (ops, false)) =
      (Ok tt, ((<[Z.to_nat c := Hash hc']> l, w'), (ops', false))) ∧
    cols_repr (<[Z.to_nat c := Hash hc']> l) w'
      (set_map M (Z.to_nat c) (column_writes options (Z.to_nat c) (M (Z.to_nat c)) changes)) ∧
    writer_step c w w' ∧ same_columns l (<[Z.to_nat c := Hash hc']> l).
Proof.
  intros Hl Hc (hc & Hi & R1 & R2 & R3). set (i := Z.to_nat c) in *.
  destruct (proj2 Hl _ _ Hi) as (c0 & [= <-] & Hco & Hr).
  destruct (write_plans_ok changes hc w (M i) Hr R1 R2 R3) as (os & hc' & w' & Hrun & Hos & Hr' & Hsc).
  assert (Hw : writer_step (Z.of_nat i) w w' ∧ table_files hc' = table_files hc).
  { destruct (of_column_repr hc w (M i) i Hco Hr) as [Hu Hof].
    destruct (write_plans_keeps (Z.of_nat i) changes Hu (hc, w) Hof) as [_ Hst]. by rewrite Hrun in Hst. }
  destruct Hw as [Hw Hfiles]. exists hc', w', (ops + Z.of_nat (length changes)). split_and!.
  - unfold plan_indexed, at_column. fold i. rewrite Hi.
    by rewrite (write_plan_loop changes ops false _ _ _ Hrun Hos).
  - eapply cols_repr_step; try done. unfold column_writes.
    destruct (co_options _ _ _ _ Hco) as (o & -> & _ & <- & <- & _). done.
  - replace c with (Z.of_nat i) by lia. done.
  - by eapply same_columns_insert.
Qed.

(** The plans of all the columns that a commit changes. *)
Definition apply_changes (l : list (ColId * IndexedChangeSet)) (M : DbMap) : DbMap :=
  foldl (fun M '(c, ch) => set_map M (Z.to_nat c) (column_writes options (Z.to_nat c) (M (Z.to_nat c)) ch)) M l.

Lemma plan_all_ok es : ∀ l w M ops, cols_repr l w M → NoDup es.*1 →
  (∀ c ch, (c, ch) ∈ es → 0 ≤ c ∧ ∃ hc, l !! Z.to_nat c = Some (Hash hc) ∧ room_for hc w ch) →
  ∃ l' w' ops', for_each plan_indexed es ((l, w), (ops, false)) = (Ok tt, ((l', w'), (ops', false))) ∧
    cols_repr l' w' (apply_changes es M) ∧ same_record (length l) w w' ∧ same_columns l l'.
Proof.
  induction es as [|[c ch] es IH]; intros l w M ops Hl Hnd Hes.
  { exists l, w, ops. by split_and!. }
  apply NoDup_cons in Hnd as [Hni Hnd]. destruct (Hes c ch) as [Hc Hroom]; [by left|].
  destruct (plan_indexed_ok l w M c ch ops Hl Hc Hroom) as (hc' & w1 & ops1 & Hrun1 & Hl1 & Hw1 & Hsc1).
  destruct (IH (<[Z.to_nat c := Hash hc']> l) w1 _ ops1 Hl1 Hnd) as (l2 & w2 & ops2 & Hrun2 & Hl2 & Hw2 & Hsc2).
  { intros c' ch' Hin. destruct (Hes c' ch') as (Hc' & hc2 & Hi2 & Hr2); [by right|]. split; [done|].
    assert (Hne : Z.to_nat c ≠ Z.to_nat c').
    { intros Heq. assert (c = c') as -> by lia. apply Hni. by apply (list_elem_of_fmap_2 fst) in Hin. }
    exists hc2. split; [by rewrite list_lookup_insert_ne|]. destruct Hroom as (hc & Hi & _).
    eapply (room_for_step l w M); try done. by rewrite Z2Nat.id. }
  exists l2, w2, ops2. split_and!; [|done| |by etrans].
  - cbn [for_each]. by erewrite ST_bind_Ok by exact Hrun1.
  - rewrite length_insert in Hw2. etrans; [|exact Hw2]. destruct Hroom as (hc & Hi & _).
    eapply (writer_step_record _ (Z.to_nat c)); [by eapply lookup_lt_Some|by rewrite Z2Nat.id].
Qed.

(** No column has a header to log. *)
Definition columns_clean (l : list Column) : Prop := ∀ i c, l !! i = Some (Hash c) → headers_clean c.

(** Every table logs its header. *)
Lemma complete_all_ok tiers : ∀ l w M n, cols_repr l w M → Forall (fun i => (i < length l)%nat) tiers →
  ∃ l' w', for_each plan_complete tiers ((l, w), n) = (Ok tt, ((l', w'), n)) ∧ cols_repr l' w' M ∧
    same_record (length l) w w' ∧ same_columns l l' ∧
    ∀ i c, l' !! i = Some (Hash c) → i ∈ tiers ∨ (∀ c0, l !! i = Some (Hash c0) → headers_clean c0) → headers_clean c.
Proof.
  induction tiers as [|i tiers IH]; intros l w M n Hl Hlt.
  { exists l, w. split_and!; try done. intros i c Hi [?%not_elem_of_nil|Hc]; [done|by apply Hc]. }
  apply Forall_cons in Hlt as [Hi Hlt]. destruct (lookup_lt_is_Some_2 l i Hi) as [col Hcol].
  destruct (proj2 Hl _ _ Hcol) as (c & -> & Hco & Hr).
  destruct (complete_plan_ok c w (M i) Hr) as (c1 & w1 & Hrun1 & Hr1 & Hsc & Hcl).
  assert (Hw : writer_step (Z.of_nat i) w w1 ∧ table_files c1 = table_files c).
  { destruct (of_column_repr c w (M i) i Hco Hr) as [Hu Hof].
    destruct (column_complete_plan_keeps (Z.of_nat i) Hu (c, w) Hof) as [_ Hst]. by rewrite Hrun1 in Hst. }
  destruct Hw as [Hw Hfiles].
  pose proof (cols_repr_step l w M i c c1 w1 (M i) Hl Hcol Hsc Hw Hr1) as Hl1.
  destruct (IH (<[i := Hash c1]> l) w1 (set_map M i (M i)) n Hl1) as (l2 & w2 & Hrun2 & Hl2 & Hw2 & Hsc2 & Hcl2).
  { by rewrite length_insert. }
  exists l2, w2. split_and!.
  - cbn [for_each]. erewrite ST_bind_Ok; [exact Hrun2|]. unfold plan_complete, zoom, at_column. cbn [fst]. rewrite Hcol.
    unfold any_complete_plan. by rewrite Hrun1.
  - destruct Hl2 as [L1 L2]. split; [done|]. intros j col Hj. destruct (L2 j col Hj) as (cj & ? & ? & Hrj).
    exists cj. split_and!; [done|done|]. unfold set_map in Hrj. by destruct (decide (j = i)) as [->|].
  - rewrite length_insert in Hw2. etrans; [by eapply writer_step_record|exact Hw2].
  - etrans; [|exact Hsc2]. by eapply same_columns_insert.
  - intros j cj Hj Hor. apply (Hcl2 _ _ Hj). destruct (decide (j = i)) as [->|Hne].
    + right. intros c0. rewrite list_lookup_insert_eq by done. by intros [= <-].
    + destruct Hor as [[?|?]%elem_of_cons|Hor]; [done|by left|right]. by rewrite list_lookup_insert_ne.
Qed.

(** The whole plan of a commit. *)
Definition commit_room (l : list Column) (w : LogWriter) (cs : CommitChangeSet) : Prop :=
  cs_btree cs = ∅ ∧
  ∀ c ch, cs_indexed cs !! c = Some ch → 0 ≤ c ∧ ∃ hc, l !! Z.to_nat c = Some (Hash hc) ∧ room_for hc w ch.

Lemma apply_changes_lookup (m : gmap ColId IndexedChangeSet) M i :
  (∀ c ch, m !! c = Some ch → 0 ≤ c) →
  apply_changes (iter m) M i =
    match m !! Z.of_nat i with Some ch => column_writes options i (M i) ch | None => M i end.
Proof using H2 options.
  intros Hpos. assert (Hin : ∀ c ch, (c, ch) ∈ iter m ↔ m !! c = Some ch).
  { intros c ch. by rewrite iter_perm, elem_of_map_to_list. }
  assert (Hnd : NoDup (iter m).*1) by (rewrite iter_perm; apply NoDup_fst_map_to_list).
  assert (Hgen : ∀ es M, NoDup es.*1 → (∀ c ch, (c, ch) ∈ es → 0 ≤ c) →
    (∀ ch, (Z.of_nat i, ch) ∈ es → apply_changes es M i = column_writes options i (M i) ch) ∧
    (Z.of_nat i ∉ es.*1 → apply_changes es M i = M i)).
  { clear. induction es as [|[c ch] es IH]; intros M Hnd Hpos.
    { split; [|done]. intros ch Hch. by apply not_elem_of_nil in Hch. }
    apply NoDup_cons in Hnd as [Hni Hnd]. cbn [fst] in Hni.
    assert (Hc : 0 ≤ c) by (eapply (Hpos c ch); by left).
    set (M1 := set_map M (Z.to_nat c) (column_writes options (Z.to_nat c) (M (Z.to_nat c)) ch)).
    destruct (IH M1 Hnd ltac:(intros c' ch' ?; eapply (Hpos c' ch'); by right)) as [IH1 IH2].
    split.
    - intros ch' [[= <- <-]|Hch]%elem_of_cons.
      + etrans; [by apply IH2|]. unfold M1. rewrite Nat2Z.id. apply set_map_eq.
      + etrans; [by apply IH1|]. unfold M1. rewrite set_map_ne; [done|]. intros ->. apply Hni.
        rewrite Z2Nat.id in Hch by done. by apply (list_elem_of_fmap_2 fst) in Hch.
    - intros Hn. rewrite fmap_cons, not_elem_of_cons in Hn. destruct Hn as [Hn1 Hn2]. cbn [fst] in Hn1.
      etrans; [by apply IH2|]. unfold M1. apply set_map_ne. lia. }
  destruct (Hgen (iter m) M Hnd) as [H1' H2'].
  { intros c ch Hc. apply Hin in Hc. by eapply Hpos. }
  destruct (m !! Z.of_nat i) as [ch|] eqn:E; [by apply H1', Hin|].
  apply H2'. intros ([c ch] & Hc & Hch)%list_elem_of_fmap. apply Hin in Hch. cbn in Hc. subst c.
  enough (Some ch = None) by done. etrans; [symmetry; exact Hch|exact E].
Qed.

Lemma plan_commit_ok l w M cs : cols_repr l w M → commit_room l w cs →
  ∃ l' w' ops, plan_commit cs ((l, w), (0, false)) = (Ok tt, ((l', w'), (ops, false))) ∧
    cols_repr l' w' (apply_changes (iter (cs_indexed cs)) M) ∧ same_record (length l) w w' ∧ same_columns l l' ∧
    columns_clean l'.
Proof.
  intros Hl [Hb Hroom].
  destruct (plan_all_ok (iter (cs_indexed cs)) l w M 0 Hl) as (l1 & w1 & ops & Hrun1 & Hl1 & Hw1 & Hsc1).
  { rewrite iter_perm. apply NoDup_fst_map_to_list. }
  { intros c ch Hin. apply Hroom. by rewrite iter_perm, elem_of_map_to_list in Hin. }
  destruct (complete_all_ok (seq 0 (length l1)) l1 w1 _ (ops, false) Hl1) as (l2 & w2 & Hrun2 & Hl2 & Hw2 & Hsc2 & Hcl).
  { apply Forall_forall. intros i Hi%elem_of_seq. lia. }
  assert (Hclean : columns_clean l2).
  { intros i c Hi. apply (Hcl _ _ Hi). left. apply lookup_lt_Some in Hi. rewrite (proj1 Hsc2) in Hi. by apply elem_of_seq; lia. }
  rewrite (proj1 Hsc1) in Hw2. exists l2, w2, ops. split_and!; [|done|by etrans|by etrans|done].
  unfold plan_commit. erewrite ST_bind_Ok by exact Hrun1.
  assert (E : iter (cs_btree cs) = []).
  { rewrite Hb. apply Permutation_nil_r. by rewrite iter_perm, map_to_list_empty. }
  rewrite E. erewrite ST_bind_Ok by done. erewrite ST_bind_Ok by done. exact Hrun2.
Qed.

End Columns.
