(* ===== verification/DbEnact.v ===== *)
(** * Enacting a record on the columns

    [DbInner::enact_logs] (src/src/db.rs) hands every entry of a record to its
    column. The columns of a database take the first pending record of the log,
    and represent the same maps when its entries have left the overlays. *)

From S2P Require Import Prelude.
From S2P Require Import Bytes.
From S2P Require Import Ids.
From S2P Require Import Log.
From S2P Require Import LogProofs.
From S2P Require Import LogState.
From S2P Require Import LogStateProofs.
From S2P Require Import LogReplay.
From S2P Require Import LogPending.
From S2P Require Import Table.
From S2P Require Import TableStore.
From S2P Require Import Index.
From S2P Require Import IndexProofs.
From S2P Require Import IndexEnact.
From S2P Require Import Compress.
From S2P Require Import Stats.
From S2P Require Import Options.
From S2P Require Import Column.
From S2P Require Import HashColumn.
From S2P Require Import ColumnTables.
From S2P Require Import ColumnMap.
From S2P Require Import ColumnEnact.
From S2P Require Import ColumnPending.
From S2P Require Import ColumnSession.
From S2P Require Import BTreeNode.
From S2P Require Import BTree.
From S2P Require Import Overlay.
From S2P Require Import Db.
From S2P Require Import DbColumns.
From stdpp Require Import options.
#[local] Set Default Proof Using "Type*".

Section Enact.
Context `{!Uninit, !Codecs, !CodecLaws, !HashMapOrder, !Crc32, !Blake2}.

(** ** The loop over the entries of a record *)

(** What [enact_loop] does with an action. *)
Definition enact_action (a : LogAction) : ST DR unit :=
  match a with
  | InsertIndex t _ => on_columns (at_column (Z.to_nat (IndexTableId.col t)) (any_enact_plan a))
  | InsertValue t _ => on_columns (at_column (Z.to_nat (ValueTableId.col t)) (any_enact_plan a))
  | DropTable id => fun '(d, r) =>
      let i := Z.to_nat (IndexTableId.col id) in
      match db_columns d !! i with
      | Some (Hash c) =>
          (Ok tt, (start_reindex (reader_record_id r)
                     (set_columns (<[i := Hash (column_drop_index id c)]> (db_columns d)) d), r))
      | Some (Tree _) => (Ok tt, (d, r))
      | None => (Panic, (d, r))
      end
  | BeginRecord | EndRecord => mret tt
  end.

Lemma enact_loop_record fuel : ∀ s, enact_loop fuel s = record_loop enact_action fuel s.
Proof.
  induction fuel as [|fuel IH]; intros [d r]; [done|]. cbn [enact_loop record_loop].
  unfold mbind, ST_bind, on_reader, zoom, next_action. cbn [snd].
  destruct (LogReader.next r) as [[a|e| | | |] r1]; try done.
  destruct a as [|t n|t n|t|]; try done; cbn [enact_action].
  - by destruct (on_columns _ (d, r1)) as [[u|e| | | |] s2].
  - by destruct (on_columns _ (d, r1)) as [[u|e| | | |] s2].
  - by destruct (db_columns d !! _) as [[c|c]|].
Qed.

(** ** The columns *)

Lemma column_of_enacted options version i c0 es c : col_enacted c0 es c →
  column_of options version i c0 → column_of options version i c.
Proof.
  intros [(vs & idx & ->) _ _ Hid _ _ _ _] [C1 C2 Cu C3 C4 C5 C6]. cbn [hc_index set_hc_values set_hc_index] in Hid.
  split; cbn [hc_index set_hc_values set_hc_index]; rewrite ?Hid; done.
Qed.

(** Columns that take the same entries. *)
Definition static_columns (l l' : list Column) : Prop := length l' = length l ∧
  ∀ i c', l' !! i = Some (Hash c') → ∃ c, l !! i = Some (Hash c) ∧ same_static c c'.

(** All the columns are hash columns. *)
Definition columns_at (l : list Column) : Prop :=
  ∀ i col, l !! i = Some col → ∃ c, col = Hash c ∧ column_at i c.

Lemma cols_repr_at options version l w M : cols_repr options version l w M → columns_at l.
Proof.
  intros [_ Hl] i col Hi. destruct (Hl i col Hi) as (c & -> & Hco & Hr). exists c. split; [done|].
  pose proof (col_repr_wf _ _ _ Hr) as Hwf. destruct Hr as (SS & [I1 I2 I3 _ _ _] & _).
  split; [apply Hco|done|apply Hco|apply Hco|apply I3|apply I2| |done]. intros j t. apply (tb_id _ _ _ _ _ _ I2).
Qed.

Section Columns.
Context (l0 : list Column).
Hypothesis at0 : columns_at l0.

(** [l] is [l0] after the entries [dn] were enacted. *)
Definition cols_enacted (dn : list LogEntry) (l : list Column) : Prop :=
  length l = length l0 ∧ ∀ i c0, l0 !! i = Some (Hash c0) →
    ∃ c, l !! i = Some (Hash c) ∧ col_enacted c0 (entries_of (hc_col c0) dn) c.

(** The column of an entry takes it. *)
Definition entry_ready (e : LogEntry) : Prop :=
  ∃ i c0, entry_col e = Z.of_nat i ∧ l0 !! i = Some (Hash c0) ∧ entry_fits c0 e.

Lemma cols_at i c0 : l0 !! i = Some (Hash c0) → column_at i c0.
Proof. intros Hi. by destruct (at0 _ _ Hi) as (c & [= <-] & ?). Qed.

Lemma cols_enacted_nil : cols_enacted [] l0.
Proof.
  split; [done|]. intros i c0 Hi. exists c0. split; [done|]. apply col_enacted_nil. by apply (cols_at i).
Qed.

Lemma cols_enacted_step dn l i c0 c' e : cols_enacted dn l → l0 !! i = Some (Hash c0) → entry_col e = Z.of_nat i →
  col_enacted c0 (entries_of (hc_col c0) dn ++ [e]) c' → cols_enacted (dn ++ [e]) (<[i := Hash c']> l).
Proof.
  intros [Hlen Hl] Hi He Hc. split; [by rewrite length_insert|]. intros j cj Hj. rewrite entries_of_snoc.
  rewrite (ca_col _ _ (cols_at j cj Hj)), He. rewrite list_lookup_insert. destruct (decide (i = j ∧ _)) as [[<- _]|Hne].
  - exists c'. split; [done|]. rewrite decide_True by done. simplify_eq.
    by rewrite <- (ca_col _ _ (cols_at i c0 Hi)).
  - destruct (Hl j cj Hj) as (c & Hc' & Hen). exists c. split; [done|]. rewrite <- (ca_col _ _ (cols_at j cj Hj)).
    rewrite decide_False, app_nil_r; [done|]. rewrite (ca_col _ _ (cols_at j cj Hj)).
    intros Heq. apply Hne. split; [lia|]. apply lookup_lt_Some in Hj. lia.
Qed.

Lemma entry_ready_wf e : entry_ready e → entry_wf e.
Proof.
  intros (i & c0 & He & Hi & Hfit). pose proof (cols_at _ _ Hi) as Hat.
  destruct e as [id n mask ch|id n d|id]; cbn in Hfit |- *; [| |done].
  - destruct Hfit as (-> & _ & Hm & Hn). split; [apply Hat|]. split; [|done].
    rewrite total_chunks_pow in Hn by apply Hat. pose proof (ca_bits _ _ Hat) as Hb. unfold bits_ok, bits in *.
    pose proof (Z.pow_lt_mono_r 2 (IndexTableId.index_bits (it_id (hc_index c0))) 64). unfold is_u64. lia.
  - destruct Hfit as (j & t & Ht & <- & Hn & _). split; [by apply (table_id_u16 _ _ _ _ Hat Ht)|unfold is_u64; lia].
Qed.

(** One entry. *)
Lemma enact_action_ok d dn e l r rest : Forall entry_ready dn → entry_ready e →
  cols_enacted dn l → reader_at r (entry_payload e) rest →
  ∃ l' r', enact_action (entry_action e) (set_columns l d, r) = (Ok tt, (set_columns l' d, r')) ∧
    advanced (entry_payload e) r r' ∧ cols_enacted (dn ++ [e]) l'.
Proof.
  intros Hdn Hready Hl Hr. destruct Hready as (i & c0 & He & Hi & Hfit). pose proof (cols_at i c0 Hi) as Hat.
  destruct (proj2 Hl i c0 Hi) as (c & Hc & Hen).
  assert (Hfit_dn : Forall (entry_fits c0) (entries_of (hc_col c0) dn)).
  { apply Forall_forall. intros e' [Hce Hin]%list_elem_of_filter. rewrite Forall_forall in Hdn.
    destruct (Hdn e' Hin) as (j & cj & Hj & Hcj & Hfj). pose proof (ca_col _ _ Hat). assert (j = i) as -> by lia.
    by simplify_eq. }
  enough (∃ c' r', column_enact_plan (entry_action e) (c, r) = (Ok tt, (c', r')) ∧ advanced (entry_payload e) r r' ∧
    col_enacted c0 (entries_of (hc_col c0) dn ++ [e]) c') as (c' & r' & Hrun & Ha & Hen').
  - exists (<[i := Hash c']> l), r'. split_and!; [|done|by eapply cols_enacted_step].
    destruct e as [id n mask ch|id n v|id]; cbn [entry_action enact_action entry_col] in *; [| |done].
    all: unfold on_columns, zoom, at_column; cbn [db_columns set_columns]; rewrite He, Nat2Z.id, Hc; cbn [any_enact_plan].
    all: by rewrite Hrun.
  - destruct e as [id n mask ch|id n v|id]; cbn [entry_action entry_payload] in *; [| |done].
    + by eapply enact_index_entry.
    + eapply enact_value_entry; [apply Hat|done..].
Qed.

(** All the entries of a record, or the first [k] turns of the loop. *)
Section Record.
Context (d : DbInner) (x : LogChange) (dn : list LogEntry) (l : list Column).
Hypothesis dn_ready : Forall entry_ready dn.
Hypothesis x_ready : Forall entry_ready (record_entries x).
Hypothesis l_enacted : cols_enacted dn l.
Definition enacting (es : list LogEntry) (d' : DbInner) : Prop := ∃ dn' l', dn ++ record_entries x = dn' ++ es ∧
  d' = set_columns l' d ∧ cols_enacted dn' l'.

Lemma enacting_step e es s r rest : enacting (e :: es) s → reader_at r (entry_payload e) rest →
  ∃ s' r', enact_action (entry_action e) (s, r) = (Ok tt, (s', r')) ∧ advanced (entry_payload e) r r' ∧ enacting es s'.
Proof.
  intros (dn' & l1 & Hdn & -> & Hl) Hr0.
  assert (Hall : Forall entry_ready (dn' ++ e :: es)) by (rewrite <- Hdn; by apply Forall_app).
  apply Forall_app in Hall as [Hd' [He _]%Forall_cons].
  destruct (enact_action_ok d dn' e l1 r rest Hd' He Hl Hr0) as (l' & r1 & Hrun & Ha & Hl').
  exists (set_columns l' d), r1. split_and!; [done|done|]. exists (dn' ++ [e]), l'. by rewrite <- (assoc_L (++)).
Qed.

Lemma enacting_start : enacting (record_entries x) (set_columns l d).
Proof. by exists dn, l. Qed.

Lemma x_wf : Forall entry_wf (record_entries x).
Proof. eapply Forall_impl; [exact x_ready|]. intros e. by apply entry_ready_wf. Qed.

Lemma enact_record_ok v f pos r : at_record v f pos x r →
  ∃ l' r', enact_loop (read_fuel r) (set_columns l d, r) = (Ok tt, (set_columns l' d, r')) ∧
    cols_enacted (dn ++ record_entries x) l' ∧ looped (record_entries x) r r'.
Proof.
  intros Har. rewrite enact_loop_record. destruct (ar_at _ _ _ _ _ Har) as [rest Hr].
  destruct (record_loop_ok enact_action enacting) with (es := record_entries x) (fuel := read_fuel r)
    (s := set_columns l d) (r := r) (crc := crc32 (flush_body x)) (rest := rest) as
    (d' & r' & Hrun & (dn' & l' & Hdn & -> & Hl) & Hlo & _).
  - intros e es s r0 rest0 _. apply enacting_step.
  - apply x_wf.
  - apply enacting_start.
  - unfold read_fuel. rewrite (ar_file _ _ _ _ _ Har). by eapply record_fuel.
  - apply crc32_range.
  - exact Hr.
  - rewrite app_nil_r in Hdn. subst dn'. exists l', r'. split_and!; [|done|done]. rewrite Hrun.
    by rewrite (ar_crc _ _ _ _ _ Har).
Qed.

Lemma enact_some_ok v f pos r k d' r' : at_record v f pos x r →
  enact_loop k (set_columns l d, r) = (NoFuel, (d', r')) →
  ∃ es1 es2 l', record_entries x = es1 ++ es2 ∧ d' = set_columns l' d ∧ cols_enacted (dn ++ es1) l'.
Proof.
  intros Har. rewrite enact_loop_record. destruct (ar_at _ _ _ _ _ Har) as [rest Hr]. intros Hrun.
  destruct (record_loop_some enact_action enacting) with (es := record_entries x) (fuel := k)
    (s := set_columns l d) (r := r) (crc := crc32 (flush_body x)) (rest := rest) (s' := d') (r' := r') as
    (es1 & es2 & He & dn' & l' & Hdn & -> & Hl); try done.
  - intros e es s r0 rest0 _. apply enacting_step.
  - apply x_wf.
  - apply enacting_start.
  - apply crc32_range.
  - exists es1, es2, l'. split_and!; [done|done|]. rewrite He, (assoc_L (++)) in Hdn. by apply app_inj_2 in Hdn as [-> _].
Qed.

End Record.

(** The columns afterwards. *)
Lemma cols_enacted_at es l i col : cols_enacted es l → l !! i = Some col →
  ∃ c0 c, col = Hash c ∧ l0 !! i = Some (Hash c0) ∧ col_enacted c0 (entries_of (hc_col c0) es) c.
Proof.
  intros [Hlen Hl] Hi. destruct (lookup_lt_is_Some_2 l0 i) as [col0 Hi0]; [rewrite <- Hlen; by eapply lookup_lt_Some|].
  destruct (at0 _ _ Hi0) as (c0 & -> & _). destruct (Hl i c0 Hi0) as (c & Hc & Hen).
  exists c0, c. split_and!; [congruence|done|done].
Qed.

Lemma cols_enacted_static l : cols_enacted [] l → static_columns l0 l.
Proof.
  intros Hl. split; [apply Hl|]. intros i c' Hi. destruct (cols_enacted_at [] l i _ Hl Hi) as (c & c0 & [= <-] & Hi0 & Hen).
  exists c. split; [done|]. by apply col_enacted_static.
Qed.

Lemma cols_enacted_clean es l : cols_enacted es l → columns_clean l0 → columns_clean l.
Proof.
  intros Hl Hc i c Hi j t Ht. destruct (cols_enacted_at es l i _ Hl Hi) as (c0 & c1 & [= <-] & Hi0 & Hen).
  destruct (lookup_lt_is_Some_2 (hc_values c0) j) as [t0 Ht0]; [rewrite <- (cn_len _ _ _ Hen); by eapply lookup_lt_Some|].
  destruct (cn_tables _ _ _ Hen _ _ Ht0) as (t1 & Ht1 & [[f ->] _ _ _ _]). simplify_eq.
  exact (Hc i c0 Hi0 j t0 Ht0).
Qed.

Lemma cols_enacted_repr options version w M es l o rid : cols_repr options version l0 w M → cols_enacted es l →
  (∀ i c0, l0 !! i = Some (Hash c0) → entries_cover (hc_index c0) (entries_of (hc_col c0) es) ∧
     entries_left (hc_col c0) (entries_of (hc_col c0) es) w (LogWriter.new o rid)) →
  cols_repr options version l (LogWriter.new o rid) M.
Proof.
  intros repr Hl Hleft. split; [rewrite (proj1 Hl); apply repr|].
  intros i col Hi. destruct (cols_enacted_at es l i col Hl Hi) as (c0 & c & -> & Hi0 & Hen). exists c. split; [done|].
  destruct (proj2 repr _ _ Hi0) as (c0' & [= <-] & Hco & Hr). destruct (Hleft _ _ Hi0) as [Hcov Hl0].
  pose proof (cols_at _ _ Hi0) as Hat. split.
  - by eapply column_of_enacted.
  - eapply col_repr_enacted; [done|done|by rewrite (ca_index _ _ Hat), (ca_col _ _ Hat)|done|done].
Qed.

End Columns.

(** ** The first pending record *)

(** The entries of a record are those of [n] columns; it drops no table. *)
Record record_range (n : nat) (x : LogChange) : Prop := {
  rg_value : ∀ id i e, overlay_lookup (local_values x) id i = Some e → 0 ≤ ValueTableId.col id < Z.of_nat n;
  rg_index : ∀ id i e, overlay_lookup (local_index x) id i = Some e → 0 ≤ IndexTableId.col id < Z.of_nat n;
  rg_dropped : dropped_tables x = [];
}.

(** The records [E] were enacted on the columns [l] and the records [P] wait in
    the log [lg] for them. *)
Record pipeline (l : list Column) (lg : LogFiles) (E P : list LogChange) : Prop := {
  pl_log : log_pending lg E P;
  pl_columns : ∀ i c, l !! i = Some (Hash c) → column_pending c E P;
  pl_range : Forall (record_range (length l)) (E ++ P);
  pl_next : is_u64 (next_record_id lg);
  pl_clean : columns_clean l;
}.

Lemma same_columns_static options version l l' w w' M M' : same_columns l l' → cols_repr options version l w M →
  cols_repr options version l' w' M' → static_columns l l'.
Proof.
  intros [Hlen Hsame] [_ Hl] [_ Hl']. split; [done|]. intros i c' Hi'.
  destruct (lookup_lt_is_Some_2 l i) as [col Hi]; [rewrite <- Hlen; by eapply lookup_lt_Some|].
  destruct (Hl _ _ Hi) as (c & -> & _ & Hr). destruct (Hl' _ _ Hi') as (c'' & [= <-] & _ & Hr').
  destruct (Hsame _ _ Hi) as (c2 & Hi2 & Hsc & Hf). simplify_eq. exists c. split; [done|]. by eapply same_column_static.
Qed.

Lemma pipeline_static l l' lg lg' E P : static_columns l l' → columns_clean l' → log_pending lg' E P →
  is_u64 (next_record_id lg') → pipeline l lg E P → pipeline l' lg' E P.
Proof.
  intros [Hlen Hst] Hcl Hlg' Hn [_ Hc Hr _ _]. split; [done| |by rewrite Hlen|done|done].
  intros i c' (c & Hi & Hs)%Hst. eapply column_pending_static; [exact Hs|by eapply Hc].
Qed.

(** Files with records that were enacted are cleaned up. *)
Lemma pipeline_clean l lg lg' D E P : log_pending lg' E P → is_u64 (next_record_id lg') →
  pipeline l lg (D ++ E) P → pipeline l lg' E P.
Proof.
  intros Hlg' Hn [_ Hc Hr _ Hcl]. split; [done| | |done|done].
  - intros i c Hi. eapply column_pending_clean. by eapply Hc.
  - rewrite <- (assoc_L (++)) in Hr. by apply Forall_app in Hr as [_ Hr].
Qed.

(** A record of these columns is added. *)
Lemma new_record_own n o rid w : same_record n (LogWriter.new o rid) w →
  entries_own (writer_log w) ∧ record_range n (writer_log w).
Proof.
  intros [S1 S2 S3 S4 S5 S6 S7]. change (LogWriter.record_id (LogWriter.new o rid)) with rid in *.
  assert (Hid : change_record_id (writer_log w) = rid) by exact S2.
  assert (no_entry : ∀ K A `{Countable K} (t : K) i (e : A), overlay_lookup ∅ t i = Some e → False).
  { intros K A ? ? t i e. by rewrite overlay_lookup_empty. }
  split; split.
  - intros id i e [He|He]%S6; [by apply no_entry in He|]. congruence.
  - intros id i e [He|He]%S7; [by apply no_entry in He|]. congruence.
  - intros id i e He. destruct (decide (0 ≤ ValueTableId.col id < Z.of_nat n)); [done|].
    rewrite S4 in He by done. by apply no_entry in He.
  - intros id i e He. destruct (decide (0 ≤ IndexTableId.col id < Z.of_nat n)); [done|].
    rewrite S5 in He by done. by apply no_entry in He.
  - done.
Qed.

Lemma pipeline_snoc options version l l' lg lg' rid w w0 M M' E P : cols_repr options version l w0 M →
  cols_repr options version l' w M' → same_columns l l' → columns_clean l' →
  same_record (length l) (LogWriter.new (lg_overlays lg) rid) w →
  log_pending lg' E (P ++ [writer_log w]) → is_u64 (next_record_id lg') →
  pipeline l lg E P → pipeline l' lg' E (P ++ [writer_log w]).
Proof.
  intros Hl Hl' Hsame Hcl Hrec Hlg' Hn [Hlg Hc Hr _ _].
  pose proof (same_columns_static _ _ _ _ _ _ _ _ Hsame Hl Hl') as [Hlen Hst].
  split; [done| | |done|done].
  - intros i c' Hi'. destruct (Hst i c' Hi') as (c & Hi & Hs). destruct (proj2 Hl' _ _ Hi') as (c'' & [= <-] & Hco & Hr').
    eapply column_pending_snoc; [exact Hr'|by apply Hrec| |exact Hlg|eapply column_pending_static; [exact Hs|by eapply Hc]].
    by rewrite (co_col _ _ _ _ Hco), (co_index _ _ _ _ Hco).
  - rewrite Hlen, (assoc_L (++)). apply Forall_app. split; [done|]. constructor; [|done]. by eapply new_record_own.
Qed.

(** The columns take the records of the log. *)
Lemma records_ready l lg E P x : columns_at l → pipeline l lg E P → x ∈ E ++ P → Forall (entry_ready l) (record_entries x).
Proof.
  intros Hat [Hl Hc Hr _ _] Hx. rewrite Forall_forall in Hr. destruct (Hr x Hx) as [R1 R2 R3].
  apply Forall_forall. intros e He.
  assert (Hrange : 0 ≤ entry_col e < Z.of_nat (length l)).
  { destruct e as [id n m ch|id n d|id]; cbn [entry_col].
    - apply record_entries_index in He as [rid He]. by eapply R2.
    - apply record_entries_value in He as [rid He]. by eapply R1.
    - exfalso. by eapply drop_not_in. }
  destruct (lookup_lt_is_Some_2 l (Z.to_nat (entry_col e))) as [col Hcol]; [lia|].
  destruct (Hat _ _ Hcol) as (c0 & -> & Hc0). exists (Z.to_nat (entry_col e)), c0. split_and!; [lia|done|].
  assert (Hf : Forall (entry_fits c0) (entries_of (hc_col c0) (record_entries x))) by (eapply record_fits; [by eapply Hc|done|done]). rewrite Forall_forall in Hf. apply Hf.
  apply list_elem_of_filter. split; [|done]. rewrite (ca_col _ _ Hc0). lia.
Qed.

Section First.
Context (options : Options) (version : Z) (l0 : list Column) (w : LogWriter) (M : DbMap).
Context (lg : LogFiles) (x : LogChange) (E P : list LogChange).
Hypothesis repr : cols_repr options version l0 w M.
Hypothesis waits : pipeline l0 lg E (x :: P).

Lemma first_ready : Forall (entry_ready l0) (record_entries x).
Proof. eapply records_ready; [by eapply cols_repr_at|exact waits|].
  apply elem_of_app. right. apply list_elem_of_here. Qed.

(** When the record has left the overlays. *)
Lemma record_enacted_repr l lg' rid : w = LogWriter.new (lg_overlays lg) rid → cols_enacted l0 (record_entries x) l →
  log_pending lg' (E ++ [x]) P → next_record_id lg' = next_record_id lg →
  cols_repr options version l (LogWriter.new (lg_overlays lg') rid) M ∧ pipeline l lg' (E ++ [x]) P.
Proof.
  intros -> Hl Hlg' Hn. pose proof (cols_repr_at _ _ _ _ _ repr) as Hat. destruct waits as [Hlg Hcp Hrg Hnx Hcl]. split.
  - eapply cols_enacted_repr; [done|done|done|]. intros i c0 Hi. split; [eapply pending_cover; by eapply Hcp|by eapply pending_left].
  - split; [done| | |by rewrite Hn|by eapply cols_enacted_clean].
    + intros i c Hi. destruct (cols_enacted_at _ Hat _ _ _ _ Hl Hi) as (c0 & c' & [= <-] & Hi0 & Hen).
      pose proof (cols_at _ Hat i _ Hi0) as Hc0. eapply column_pending_tail; [by eapply Hcp| |exact Hen|apply Hc0].
      by rewrite (ca_index _ _ Hc0), (ca_col _ _ Hc0).
    + rewrite (proj1 Hl), <- (assoc_L (++)). exact Hrg.
Qed.

End First.
End Enact.
