(* ===== verification/DbReplay.v ===== *)
(** * Replaying the log on the columns

    [DbInner::replay_all_logs] (src/src/db.rs): every record that is left in the
    log files is validated and enacted again, in the order in which the records
    were written. *)

From S2P Require Import Prelude.
From S2P Require Import Bytes.
From S2P Require Import Ids.
From S2P Require Import Log.
From S2P Require Import LogProofs.
From S2P Require Import LogState.
From S2P Require Import LogStateProofs.
From S2P Require Import LogReplay.
From S2P Require Import LogPending.
From S2P Require Import LogCrash.
From S2P Require Import Table.
From S2P Require Import Index.
From S2P Require Import Compress.
From S2P Require Import Column.
From S2P Require Import HashColumn.
From S2P Require Import ColumnEnact.
From S2P Require Import ColumnPending.
From S2P Require Import ColumnRecover.
From S2P Require Import BTreeNode.
From S2P Require Import BTree.
From S2P Require Import Overlay.
From S2P Require Import Db.
From S2P Require Import DbColumns.
From S2P Require Import DbEnact.
From stdpp Require Import options.
#[local] Set Default Proof Using "Type*".

Section Replay.
Context `{!Uninit, !Codecs, !CodecLaws, !HashMapOrder, !Crc32, !Blake2}.

(** ** The validation of a record *)

(** What [validate_loop] does with an action. *)
Definition validate_action (a : LogAction) : ST DR unit :=
  match a with
  | InsertIndex t _ => on_columns (at_column (Z.to_nat (IndexTableId.col t)) (any_validate_plan a))
  | InsertValue t _ => on_columns (at_column (Z.to_nat (ValueTableId.col t)) (any_validate_plan a))
  | _ => mret tt
  end.

Lemma validate_loop_record fuel : ∀ s s', record_loop validate_action fuel s = (Ok tt, s') →
  validate_loop fuel s = (Ok true, s').
Proof.
  induction fuel as [|fuel IH]; intros [d r] s'; [done|]. cbn [validate_loop record_loop].
  unfold mbind, ST_bind, on_reader, zoom, next_action. cbn [snd].
  destruct (LogReader.next r) as [[a|e| | | |] r1]; try done.
  destruct a as [|t n|t n|t|]; try done; cbn [validate_action].
  - destruct (on_columns _ (d, r1)) as [[u|e| | | |] s2]; try done. apply IH.
  - destruct (on_columns _ (d, r1)) as [[u|e| | | |] s2]; try done. apply IH.
  - apply IH.
  - unfold mret, ST_ret. by intros [= <-].
Qed.

Section Columns.
Context (l0 : list Column).
Hypothesis at0 : columns_at l0.

Lemma validate_action_ok d dn e l r rest : entry_ready l0 e → cols_enacted l0 dn l → reader_at r (entry_payload e) rest →
  ∃ r', validate_action (entry_action e) (set_columns l d, r) = (Ok tt, (set_columns l d, r')) ∧
    advanced (entry_payload e) r r'.
Proof.
  intros (i & c0 & He & Hi & Hfit) Hl Hr. pose proof (cols_at l0 at0 i c0 Hi) as Hat.
  destruct (proj2 Hl i c0 Hi) as (c & Hc & Hen).
  destruct (validate_entry c0 _ c e r rest (ca_wf _ _ Hat) (ca_bits _ _ Hat) Hen Hfit Hr) as (r' & Hrun & Ha).
  exists r'. split; [|done].
  destruct e as [id n mask ch|id n v|id]; cbn [entry_action validate_action entry_col] in *; [| |done].
  all: unfold on_columns, zoom, at_column; cbn [db_columns set_columns]; rewrite He, Nat2Z.id, Hc; cbn [any_validate_plan].
  all: rewrite Hrun; by rewrite list_insert_id.
Qed.

Lemma validate_record_ok d x dn l f pos r : Forall (entry_ready l0) (record_entries x) → cols_enacted l0 dn l →
  at_record true f pos x r → Z.of_nat (length f) < 2 ^ 64 → change_record_id x = wrap64 (last_enacted d + 1) →
  validate_record (set_columns l d, r) = (Ok true, (set_columns l d, r)).
Proof.
  intros Hx Hl Har Hf Hid. unfold validate_record. erewrite ST_bind_Ok by done. cbv beta iota.
  rewrite (ar_id _ _ _ _ _ Har). cbn [last_enacted set_columns]. rewrite Hid, Z.eqb_refl.
  destruct (ar_at _ _ _ _ _ Har) as [rest Hr].
  destruct (record_loop_ok validate_action (fun es d' => d' = set_columns l d ∧ Forall (entry_ready l0) es)) with
    (es := record_entries x) (fuel := read_fuel r) (s := set_columns l d) (r := r) (crc := crc32 (flush_body x)) (rest := rest)
    as (d' & r' & Hrun & [-> _] & Hlo & Hr').
  - intros e es s r0 rest0 _ [-> [He Hes]%Forall_cons] Hr0.
    destruct (validate_action_ok d dn e l r0 rest0 He Hl Hr0) as (r1 & Hrun & Ha). by exists (set_columns l d), r1.
  - eapply Forall_impl; [exact Hx|]. intros e. by apply (entry_ready_wf l0).
  - done.
  - unfold read_fuel. rewrite (ar_file _ _ _ _ _ Har). by eapply record_fuel.
  - apply crc32_range.
  - exact Hr.
  - rewrite (ar_crc _ _ _ _ _ Har) in Hrun. apply validate_loop_record in Hrun.
    erewrite ST_bind_Ok by exact Hrun. cbv iota beta. erewrite ST_bind_Ok by reflexivity.
    assert (Hreset : LogReader.reset r' = LogReader.new f pos true).
    { unfold LogReader.reset, LogReader.new. destruct Hr as [Hr Hle].
      rewrite (lo_file _ _ _ Hlo), (lo_validate _ _ _ Hlo), (lo_pos _ _ _ Hlo), (lo_bytes _ _ _ Hlo).
      rewrite (ar_file _ _ _ _ _ Har), (ar_validate _ _ _ _ _ Har), (ar_pos _ _ _ _ _ Har), (ar_bytes _ _ _ _ _ Har) in *.
      apply (f_equal length) in Hr. rewrite length_drop, !length_app, length_le_encode in Hr.
      set (n := length (concat (entry_bytes <$> record_entries x))) in *.
      rewrite !length_le_encode in Hr. rewrite wrap64_small by (unfold is_u64; lia). f_equal. lia. }
    erewrite ST_bind_Ok; [reflexivity|]. unfold on_reader, zoom. cbn [snd]. unfold modify_st. cbn.
    rewrite Hreset. by rewrite (ar_next _ _ _ _ _ Har).
Qed.

(** ** The validation of a torn record *)

Lemma cut_safe_action d dn e l : entry_ready l0 e → cols_enacted l0 dn l →
  cut_safe (validate_action (entry_action e)) (set_columns l d).
Proof.
  intros (i & c0 & He & Hi & Hfit) Hl. destruct (proj2 Hl i c0 Hi) as (c & Hc & Hen).
  assert (Hon : cut_safe (on_columns (at_column (Z.to_nat (entry_col e)) (any_validate_plan (entry_action e)))) (set_columns l d)).
  { intros k r a s' r' Hk. unfold on_columns, zoom, at_column. cbn [db_columns set_columns]. rewrite He, Nat2Z.id, Hc.
    cbn [any_validate_plan]. destruct (column_validate_plan (entry_action e) (c, r)) as [o [c1 r1]] eqn:E. intros [= -> <- <-].
    destruct (cut_safe_validate c0 _ c e Hen Hfit k r a c1 r1 Hk E) as [-> [[Hk' E']|(r'' & E')]];
      rewrite list_insert_id by done; (split; [done|]); rewrite E', list_insert_id by done.
    - by left.
    - right. by exists r''. }
  destruct e; [exact Hon|exact Hon|apply cut_safe_ret].
Qed.

(** The validation stops at the cut. *)
Lemma validate_loop_torn es : ∀ fuel k d dn l r crc rest, Forall (entry_ready l0) es → cols_enacted l0 dn l →
  is_u32 crc → crc_good r (concat (entry_bytes <$> es) ++ le_encode 1 END_RECORD) crc = true →
  reader_at r [] (concat (entry_bytes <$> es) ++ le_encode 1 END_RECORD ++ le_encode 4 crc ++ rest) →
  (reader_pos r ≤ k < reader_pos r + length (concat (entry_bytes <$> es)) + 5)%nat → (k - reader_pos r < fuel)%nat →
  ∃ r', validate_loop fuel (set_columns l d, cut k r) = (Ok false, (set_columns l d, r')).
Proof.
  induction es as [|e es IH]; intros fuel k d dn l r crc rest Hes Hl Hcrc Hgood Hr Hk Hfuel;
    (destruct fuel as [|fuel]; [lia|]); cbn [validate_loop].
  - cbn [fmap list_fmap concat app length] in *. destruct (next_end r crc rest Hcrc Hr) as (r' & E & _ & _ & _ & _ & _ & Hp & _).
    assert (E' : run_reader LogReader.next (set_columns l d, r) = (Ok EndRecord, (set_columns l d, r'))).
    { unfold run_reader. rewrite E. unfold crc_good in Hgood. destruct (validate r); [|done].
      cbn [negb orb] in Hgood. by rewrite Hgood. }
    destruct (cut_safe_next (set_columns l d) k r _ _ _ ltac:(lia) E') as [_ [[Hk' _]|(r'' & E2)]]; [lia|].
    unfold run_reader in E2. unfold on_reader, zoom. cbn [snd]. destruct (LogReader.next (cut k r)) as [o r3].
    injection E2 as -> ->. by exists r''.
  - apply Forall_cons in Hes as [He Hes]. pose proof (entry_ready_wf l0 at0 e He) as Hw. cbn [fmap list_fmap concat] in Hr.
    unfold entry_bytes at 1 in Hr. rewrite <- !(assoc_L (++)) in Hr. destruct (next_entry r e _ Hw Hr) as (r1 & E & Ha1 & Hr1).
    set (r1' := with_cleared (note_cleared (cleared r) e) r1) in *.
    assert (E' : run_reader LogReader.next (set_columns l d, r) = (Ok (entry_action e), (set_columns l d, r1'))) by (unfold run_reader; by rewrite E).
    destruct (cut_safe_next (set_columns l d) k r _ _ _ ltac:(lia) E') as [_ [[Hk1 E2]|(r'' & E2)]];
      unfold run_reader in E2; unfold on_reader, zoom; cbn [snd]; destruct (LogReader.next (cut k r)) as [o r3]; injection E2 as -> ->.
    2: { by exists r''. }
    assert (Hr1' : reader_at r1' (entry_payload e) (concat (entry_bytes <$> es) ++
      le_encode 1 END_RECORD ++ le_encode 4 crc ++ rest)) by exact Hr1.
    destruct (validate_action_ok d dn e l r1' _ He Hl Hr1') as (r2 & Hval & Ha2).
    pose proof (advanced_at _ _ _ _ Hr1' Ha2) as Hr2. pose proof (adv_pos _ _ _ Ha1) as Hp1. pose proof (adv_pos _ _ _ Ha2) as Hp2.
    assert (Hlen : length (concat (entry_bytes <$> e :: es)) =
      (length (entry_head e) + length (entry_payload e) + length (concat (entry_bytes <$> es)))%nat).
    { cbn [fmap list_fmap concat]. unfold entry_bytes at 1. by rewrite !length_app. }
    change (reader_pos r1') with (reader_pos r1) in *. pose proof (entry_head_nonempty e) as Hhd.
    destruct (cut_safe_action d dn e l He Hl k r1' tt _ r2 Hk1 Hval) as [_ [[Hk2 E3]|(r'' & E3)]].
    + destruct (IH fuel k d dn l r2 crc rest Hes Hl Hcrc) as (r' & Hrun); [|exact Hr2|lia|lia|].
      { rewrite (crc_good_entry e es r r1 r2 crc Ha1 Ha2). exact Hgood. }
      exists r'. destruct e; cbn [entry_action validate_action] in *; [by rewrite E3|by rewrite E3|].
      apply (f_equal (fun x => snd (snd x))) in E3. cbn [mret ST_ret snd] in E3. by rewrite E3.
    + exists r''. destruct e; cbn [entry_action validate_action] in *; [by rewrite E3|by rewrite E3|done].
Qed.

(** A record that was cut is rejected. *)
Lemma reject_torn d dn K r c l : Forall (entry_ready l0) (record_entries c) → cols_enacted l0 dn l →
  (∃ f pos, at_record true f pos c r) → (K ≤ length (reader_file r))%nat →
  (reader_pos r ≤ K < reader_pos r + length (concat (entry_bytes <$> record_entries c)) + 5)%nat →
  ∃ r', validate_record (set_columns l d, cut K r) = (Ok false, (set_columns l d, r')).
Proof.
  intros Hready Hcols (f & pos & Har) HK Hr. unfold validate_record. erewrite ST_bind_Ok by done. cbv beta iota.
  destruct (_ =? _); [|by eexists]. destruct (ar_at _ _ _ _ _ Har) as [rest Hat].
  destruct (validate_loop_torn (record_entries c) (read_fuel (cut K r)) K d dn l r _ rest Hready Hcols (crc32_range _)
    (ar_crc _ _ _ _ _ Har) Hat Hr) as (r' & Hrun).
  { unfold read_fuel. cbn [cut reader_file]. rewrite length_take. lia. }
  exists r'. by erewrite ST_bind_Ok by exact Hrun.
Qed.

(** ** The records of the files *)

(** [Q] are the records in the log files, with consecutive ids from [m]. *)
Context (d0 : DbInner) (Q : list LogChange) (m : Z).
Hypothesis all_ready : Forall (entry_ready l0) (all_entries Q).
Hypothesis ids : change_record_id <$> Q = seqZ m (Z.of_nat (length Q)).
Hypothesis ids_u64 : 0 ≤ m ∧ m + Z.of_nat (length Q) < 2 ^ 64.
(** Log files are shorter than 2^64 bytes. *)
Hypothesis files_u64 : ∀ id f, disk (db_log d0) !! id = Some f → Z.of_nat (length f) < 2 ^ 64.

(** What follows the last record in its file: a part of another record. *)
Record torn_tail (J : bytes) : Prop := {
  tt_record : ∃ c j, J = take j (record_bytes c) ∧ (j < length (record_bytes c))%nat ∧ is_u64 (change_record_id c) ∧
    Forall (entry_ready l0) (record_entries c);
}.
Context (J : bytes).
Hypothesis torn : torn_tail J.

(** The records [dn] were replayed; [P1] and the tail [t] are left of the file
    that is read and [Rs] are the files of the queue. Files are lost when there
    is a tail. *)
Record replayed (d : DbInner) (dn P1 : list LogChange) (t : bytes) (Rs : list LogFile) : Prop := {
  re_all : Q = dn ++ P1 ++ concat Rs.*1;
  re_log : ∃ Fs E2, (J = [] → dn = concat Fs ++ E2) ∧ replaying J (db_log d) Fs E2 P1 t Rs;
  re_ok : log_ok (db_log d);
  re_disk : ∀ id f, disk (db_log d) !! id = Some f → disk (db_log d0) !! id = Some f;
  re_cols : cols_enacted l0 (all_entries dn) (db_columns d);
  re_enacted : Q ≠ [] → last_enacted d = wrap64 (m + Z.of_nat (length dn) - 1);
  re_next : next_record_id (db_log d) = match dn with [] => 1 | _ => m + Z.of_nat (length dn) end;
  re_rest : ∃ l lg n, d = set_last_enacted n (set_log lg (set_columns l d0));
}.

Lemma record_id dn c rest : Q = dn ++ c :: rest → change_record_id c = m + Z.of_nat (length dn) ∧
  m + Z.of_nat (length dn) + 1 < 2 ^ 64.
Proof using ids ids_u64.
  intros HQ. assert (Hlen : (length dn < length Q)%nat) by (rewrite HQ, length_app; cbn; lia). split; [|lia].
  assert (Hl : (change_record_id <$> Q) !! length dn = Some (change_record_id c)).
  { rewrite list_lookup_fmap, HQ, list_lookup_middle by done. done. }
  rewrite ids in Hl. apply lookup_seqZ in Hl as [-> _]. lia.
Qed.

Lemma dn_ready dn rest : Q = dn ++ rest → Forall (entry_ready l0) (all_entries dn).
Proof using all_ready.
  intros HQ. rewrite HQ in all_ready. unfold all_entries in *. rewrite fmap_app, concat_app in all_ready.
  by apply Forall_app in all_ready as [? _].
Qed.

Lemma set_columns_id d : set_columns (db_columns d) d = d.
Proof. by destruct d. Qed.

(** One turn of [enact_logs]. *)
Lemma replay_record d dn c P1 t Rs : replayed d dn (c :: P1) t Rs →
  ∃ d', enact_logs true d = (Ok true, d') ∧ replayed d' (dn ++ [c]) P1 t Rs.
Proof using All.
  intros [HQ (Fs & E2 & Hdn0 & Hrp) Hok Hdisk Hcols Hen Hnx Hrest].
  destruct (record_id dn c (P1 ++ concat Rs.*1) HQ) as [Hid Hu].
  assert (HidsP : Forall (fun c => is_u64 (change_record_id c)) (c :: P1)).
  { apply Forall_forall. intros x Hx. assert (Hx' : x ∈ Q) by (rewrite HQ; set_solver).
    apply (list_elem_of_fmap_2 change_record_id) in Hx'. rewrite ids in Hx'. apply elem_of_seqZ in Hx'.
    unfold is_u64. lia. }
  destruct (read_replaying _ _ _ _ _ _ _ Hrp HidsP) as [[? _]|[(c' & P1' & r & h & [= <- <-] & Hh & Hrun & Har & Hstep)|(h & ? & _)]]; [done| |done].
  set (f := log_file (db_log d) (h_id h)) in *. set (l1 := put_reader r (db_log d)) in *.
  assert (Hf : Z.of_nat (length f) < 2 ^ 64).
  { unfold f, log_file. destruct (disk (db_log d) !! h_id h) as [b|] eqn:Eb; cbn; [by eapply files_u64, Hdisk|lia]. }
  assert (HQne : Q ≠ []) by (rewrite HQ; by destruct dn). specialize (Hen HQne).
  assert (Hready : Forall (entry_ready l0) (all_entries (dn ++ [c]))) by (apply (dn_ready _ (P1 ++ concat Rs.*1)); by rewrite <- (assoc_L (++))).
  rewrite all_entries_snoc in Hready. apply Forall_app in Hready as [Hdn Hc].
  assert (Hval : validate_record (set_log l1 d, r) = (Ok true, (set_log l1 d, r))).
  { rewrite <- (set_columns_id (set_log l1 d)).
    apply (validate_record_ok (set_log l1 d) c (all_entries dn) (db_columns d) f (h_pos h) r); try done.
    cbn [last_enacted set_log]. rewrite Hen, Hid. rewrite wrap64_add_l. f_equal. rewrite wrap64_small; unfold is_u64; lia. }
  destruct (enact_record_ok l0 at0 (set_log l1 d) c (all_entries dn) (db_columns d) Hdn Hc Hcols true f (h_pos h) r Har) as
    (l & r' & Hloop & Hcols' & Hlo).
  assert (Hput : ∀ r0, put_reader r0 l1 = put_reader r0 (db_log d)) by (intros r0; unfold l1, put_reader; cbn; by rewrite Hh).
  assert (Hpos : reader_pos r' = (h_pos h + length (record_bytes c))%nat).
  { rewrite (lo_pos _ _ _ Hlo), (ar_pos _ _ _ _ _ Har), length_record_bytes. lia. }
  specialize (Hstep r' Hpos). set (l2 := put_reader r' (db_log d)) in *.
  destruct (end_read_replaying J l2 Fs (E2 ++ [c]) P1 t Rs (LogReader.drain r') (change_record_id c) Hstep) as (l3 & Hend & Hrp3 & Hd3 & Hn3).
  exists (set_log l3 (set_last_enacted (change_record_id c) (set_columns l d))). split.
  - unfold enact_logs, on_db_log at 1, zoom. rewrite Hrun. fold l1. cbv iota beta.
    erewrite ST_bind_Ok.
    2: { unfold with_reader. rewrite Hval. cbn [outcome_bind db_log set_log]. rewrite Hput. reflexivity. }
    cbv beta iota. change (set_log (put_reader r (db_log d)) (set_log l1 d)) with (set_log l1 d).
    erewrite ST_bind_Ok.
    2: { unfold with_reader. rewrite <- (set_columns_id (set_log l1 d)). cbn [db_columns set_log].
         rewrite Hloop. cbn [outcome_bind db_log set_log set_columns]. rewrite Hput. fold l2. reflexivity. }
    cbv beta iota. erewrite ST_bind_Ok; [reflexivity|]. unfold finish_record. erewrite ST_bind_Ok by done.
    rewrite (lo_record _ _ _ Hlo), (ar_id _ _ _ _ _ Har).
    erewrite ST_bind_Ok; [reflexivity|]. unfold on_db_log, zoom. cbn [db_log set_last_enacted set_log set_columns].
    by rewrite Hend.
  - split; cbn [db_log set_log db_columns set_columns set_last_enacted last_enacted].
    + by rewrite <- (assoc_L (++)).
    + exists Fs, (E2 ++ [c]). split; [intros HJ; by rewrite (Hdn0 HJ), (assoc_L (++))|done].
    + pose proof (end_read_ok (LogReader.drain r') (change_record_id c) l2 (put_reader_ok _ _ Hok)) as Hok3. by rewrite Hend in Hok3.
    + intros id b. rewrite Hd3. apply Hdisk.
    + by rewrite all_entries_snoc.
    + intros _. rewrite length_app. cbn [length]. rewrite wrap64_small; unfold is_u64; lia.
    + rewrite Hn3. change (next_record_id l2) with (next_record_id (db_log d)). rewrite Hnx, length_app. cbn [length].
      assert (Hw : wrap64 (change_record_id c + 1) = m + Z.of_nat (length dn + 1)) by (rewrite wrap64_small; unfold is_u64; lia).
      rewrite Hw. destruct dn as [|x dn']; cbn [app].
      * destruct (Z.leb_spec 1 (change_record_id c)); [lia|]. cbn [length] in *. lia.
      * destruct (Z.leb_spec (m + Z.of_nat (length (x :: dn'))) (change_record_id c)); [lia|]. lia.
    + destruct Hrest as (l' & lg' & n' & ->). by exists l, l3, (change_record_id c).
Qed.

(** The end of a file. *)
Lemma replayed_log d l' dn t Rs t' Fs' E2' : replayed d dn [] t Rs → (J = [] → dn = concat Fs' ++ E2') →
  replaying J l' Fs' E2' [] t' Rs → log_ok l' → next_record_id l' = next_record_id (db_log d) →
  (∀ id f, disk l' !! id = Some f → disk (db_log d) !! id = Some f) → replayed (set_log l' d) dn [] t' Rs.
Proof using Type.
  intros [HQ _ Hok Hdisk Hcols Hen Hnx Hrest] Hdn Hrp Hok' Hn' Hd'.
  split; cbn [db_log set_log db_columns last_enacted]; try done.
  - by exists Fs', E2'.
  - intros id f Hf. by apply Hdisk, Hd'.
  - congruence.
  - destruct Hrest as (l & lg & n & ->). by exists l, l', n.
Qed.

(** Clearing the log behind a record that is rejected. *)
Lemma clear_replayed d dn t r : replayed d dn [] t [] → J ≠ [] →
  ∃ l', clear_replay_logs (put_reader r (db_log d)) = (Ok tt, l') ∧ replayed (set_log l' d) dn [] [] [].
Proof using Type.
  intros Hd HJ. pose proof Hd as [_ (Fs & E2 & _ & [F1 F2 [Hf Ha] Hq He]) Hok _ _ _ _ _].
  destruct (clear_replay_logs_ok (put_reader r (db_log d))) as (l' & Hrun & Hok' & Hq' & Hr' & Ho' & Hc' & Hn' & Ha' & Hf' & Hd');
    [by apply put_reader_ok|]. exists l'. split; [exact Hrun|].
  apply (replayed_log d l' dn t [] [] [] []); try done.
  split; [done|by rewrite Hr'|by rewrite Hf', Ha'|by rewrite Hq'|done].
Qed.

Lemma replay_torn d dn t h pre : replayed d dn [] t [] → reading_file (db_log d) = Some h → reading_state (db_log d) = Reading_ →
  t ≠ [] → t = J → log_file (db_log d) (h_id h) = pre ++ t → h_pos h = length pre →
  ∃ d' t', enact_logs true d = (Ok false, d') ∧ replayed d' dn [] t' [].
Proof using All.
  intros Hd Hh Hs Ht -> Hfile Hpos. destruct torn as [(c & j & HJ & Hj & Hid & Hready)].
  pose proof Hd as [HQ (Fs & E2 & Hdn & Hrp) Hok Hdisk Hcols Hen Hnx Hrest]. set (l := db_log d) in *.
  set (f := log_file l (h_id h)) in *.
  assert (Hf : f = pre ++ take j (record_bytes c)) by (by rewrite Hfile, HJ).
  destruct (read_torn true pre c j Hj Hid) as [(r & E)|(r & Har & E & Hr)]; rewrite <- Hf, <- Hpos in *.
  - assert (Hrun : read_next true l = (Ok None, set_reading (reading_file (put_reader r l)) Idle (put_reader r l))).
    { unfold read_next. rewrite Hs, Hh. fold (log_file l (h_id h)). fold f. by rewrite E. }
    eexists _, J. split; [unfold enact_logs, on_db_log, zoom; fold l; by rewrite Hrun|].
    pose proof (read_next_ok true l Hok) as Hok'. rewrite Hrun in Hok'.
    apply (replayed_log d _ dn J [] J Fs E2); try done.
    destruct Hrp as [F1 F2 Fn Fq Fe]. unfold put_reader in *. rewrite Hh in *. destruct F2 as (G1 & G2 & _). by split.
  - set (l1 := put_reader (cut (length f) r) l).
    assert (Hrun : read_next true l = (Ok (Some (cut (length f) r)), l1)).
    { unfold read_next. rewrite Hs, Hh. fold (log_file l (h_id h)). fold f. by rewrite E. }
    destruct (reject_torn (set_log l1 d) (all_entries dn) (length f) r c (db_columns d) Hready Hcols ltac:(by eexists _, _)) as (r' & Hval);
      [|done|].
    { rewrite (ar_file _ _ _ _ _ Har), Hf, !length_app, length_take. lia. }
    assert (HJ0 : J ≠ []) by done. destruct (clear_replayed d dn J r' Hd HJ0) as (l' & Hclear & Hd').
    assert (Hput : put_reader r' l1 = put_reader r' l) by (unfold l1, put_reader; cbn; by rewrite Hh).
    exists (set_log l' d), []. split; [|done]. unfold enact_logs, on_db_log at 1, zoom. fold l. rewrite Hrun.
    change (set_columns (db_columns d) (set_log l1 d)) with (set_columns (db_columns (set_log l1 d)) (set_log l1 d)) in Hval.
    rewrite set_columns_id in Hval. erewrite ST_bind_Ok.
    2: { unfold with_reader. rewrite Hval. cbn [outcome_bind db_log set_log]. rewrite Hput. reflexivity. }
    cbv beta iota. erewrite ST_bind_Ok; [reflexivity|]. unfold on_db_log, zoom. cbn [db_log set_log]. unfold l. by rewrite Hclear.
Qed.

Lemma replay_end d dn t Rs : replayed d dn [] t Rs → ∃ d' t', enact_logs true d = (Ok false, d') ∧ replayed d' dn [] t' Rs.
Proof using All.
  intros Hd. pose proof Hd as [HQ (Fs & E2 & Hdn & Hrp) Hok Hdisk Hcols Hen Hnx Hrest].
  destruct (read_replaying _ _ _ _ _ _ _ Hrp ltac:(constructor)) as
    [[_ (l' & Hrun & Hrp' & Hn' & Hd')]|[(? & ? & ? & ? & ? & _)|(h & _ & -> & Hh & Hs & Ht & HJ & Hfile & Hpos)]]; [|done|].
  - exists (set_log l' d), t. split; [unfold enact_logs, on_db_log, zoom; by rewrite Hrun|].
    pose proof (read_next_ok true (db_log d) Hok) as Hok'. rewrite Hrun in Hok'.
    apply (replayed_log d l' dn t Rs t Fs E2); try done. by rewrite Hd'.
  - by apply (replay_torn d dn t h (records_bytes E2)).
Qed.

(** A file. *)
Lemma replay_file P1 : ∀ fuel d dn t Rs, (length P1 < fuel)%nat → replayed d dn P1 t Rs →
  ∃ d' t', while_st fuel (enact_logs true) d = (Ok tt, d') ∧ replayed d' (dn ++ P1) [] t' Rs.
Proof using All.
  induction P1 as [|c P1 IH]; intros fuel d dn t Rs Hfuel Hd; (destruct fuel as [|fuel]; [lia|]); cbn [while_st].
  - destruct (replay_end d dn t Rs Hd) as (d' & t' & Hrun & Hd'). erewrite ST_bind_Ok by exact Hrun.
    exists d', t'. split; [done|]. by rewrite app_nil_r.
  - destruct (replay_record d dn c P1 t Rs Hd) as (d1 & Hrun & Hd1). erewrite ST_bind_Ok by exact Hrun. cbv beta iota.
    destruct (IH fuel d1 (dn ++ [c]) t Rs) as (d' & t' & Hrun' & Hd'); [cbn in Hfuel; lia|done|].
    exists d', t'. split; [exact Hrun'|]. by rewrite <- (assoc_L (++)) in Hd'.
Qed.

(** All the files. *)
Lemma replay_files_ok Rs : ∀ fuel d dn t, (length Rs < fuel)%nat → replayed d dn [] t Rs →
  ∃ d', replay_files fuel d = (Ok tt, d') ∧ replay_ended J Q (db_log d') ∧ log_ok (db_log d') ∧
    cols_enacted l0 (all_entries Q) (db_columns d') ∧
    next_record_id (db_log d') = (match Q with [] => 1 | _ => m + Z.of_nat (length Q) end) ∧
    ∃ l lg n, d' = set_last_enacted n (set_log lg (set_columns l d0)).
Proof using All.
  induction Rs as [|[R t'] Rs IH]; intros fuel d dn t Hfuel Hd; (destruct fuel as [|fuel]; [lia|]); cbn [replay_files].
  - destruct Hd as [HQ (Fs & E2 & Hdn & Hrp) Hok Hdisk Hcols Hen Hnx Hrest]. cbn in HQ. rewrite app_nil_r in HQ. subst dn.
    destruct (replay_next_none _ _ _ _ _ Hrp) as (l' & Hrun & [Hov Hf Hcl] & Hn).
    erewrite ST_bind_Ok by (unfold on_db_log, zoom; by rewrite Hrun). cbv beta iota.
    exists (set_log l' d). split; [done|]. cbn [db_log set_log db_columns]. split_and!.
    + split; [done| |done]. intros HJ. rewrite (Hdn HJ). by apply Hf.
    + pose proof (replay_next_ok (db_log d) Hok) as Hok'. by rewrite Hrun in Hok'.
    + done.
    + by rewrite Hn.
    + destruct Hrest as (l & lg & n & ->). by exists l, l', n.
  - destruct Hd as [HQ (Fs & E2 & Hdn & Hrp) Hok Hdisk Hcols Hen Hnx Hrest].
    destruct (replay_next_some _ _ _ _ _ _ _ _ Hrp) as (id & l' & Fs' & Hrun & Hrp' & HFs' & Hn & Hd').
    erewrite ST_bind_Ok by (unfold on_db_log, zoom; by rewrite Hrun). cbv beta iota.
    assert (Hre : replayed (set_log l' d) dn R t' Rs).
    { split; cbn [db_log set_log db_columns last_enacted]; try done.
      - exists Fs', []. split; [intros HJ; by rewrite HFs', app_nil_r, Hdn|done].
      - pose proof (replay_next_ok (db_log d) Hok) as Hok'. by rewrite Hrun in Hok'.
      - by rewrite Hd'.
      - congruence.
      - destruct Hrest as (l & lg & n & ->). by exists l, l', n. }
    destruct (replay_file R (log_fuel l') (set_log l' d) dn t' Rs) as (d1 & t1 & Hrun1 & Hd1); [|done|].
    { pose proof (replaying_length _ _ _ _ _ _ _ Hrp') as Hl. unfold log_fuel. unfold log_file in Hl. lia. }
    erewrite ST_bind_Ok by exact Hrun1. apply (IH fuel d1 (dn ++ R) t1); [cbn in Hfuel; lia|done].
Qed.

End Columns.

(** ** From the log that was opened *)

Lemma torn_nil l0 : torn_tail l0 [].
Proof.
  split. exists (LogChange_new 0), 0%nat. split_and!; [done|rewrite length_record_bytes; lia|by split|].
  apply Forall_forall. intros e He. exfalso. destruct e as [id n mask ch|id n v|id].
  - apply record_entries_index in He as (? & He). unfold overlay_lookup in He. cbn in He. by rewrite lookup_empty in He.
  - apply record_entries_value in He as (? & He). unfold overlay_lookup in He. cbn in He. by rewrite lookup_empty in He.
  - by apply drop_not_in in He.
Qed.

Lemma opened_first J lg S Q : log_opened J Q lg S → match Q with
  | x :: _ => replay_record_id lg = Some (change_record_id x)
  | [] => True
  end.
Proof using Type.
  intros [_ Hq HS Hw _ _]. unfold replay_record_id. rewrite Hq. subst Q. destruct S as [|[id [R t]] S]; [done|].
  destruct R as [|x R]; [|done]. cbn. destruct S as [|e S]; [done|].
  cbn [fmap list_fmap snd] in Hw. by apply whole_but_last_cons in Hw as (_ & ? & _).
Qed.

Lemma replay_opened l0 d lg J S Q n : columns_at l0 → db_columns d = l0 → db_log d = lg →
  last_enacted d = wrap64 (default 2 (replay_record_id lg) - 1) → log_opened J Q lg S → torn_tail l0 J → consecutive n Q → is_u64 n →
  Forall (entry_ready l0) (all_entries Q) → (∀ id f, disk lg !! id = Some f → Z.of_nat (length f) < 2 ^ 64) →
  ∃ d', replay_files (Datatypes.S (length (replay_queue lg))) d = (Ok tt, d') ∧ replay_ended J Q (db_log d') ∧ log_ok (db_log d') ∧
    cols_enacted l0 (all_entries Q) (db_columns d') ∧
    consecutive (next_record_id (db_log d')) Q ∧ is_u64 (next_record_id (db_log d')) ∧
    ∃ l lg n, d' = set_last_enacted n (set_log lg (set_columns l d)).
Proof using All.
  intros Hat Hc Hlg Hlast Hop Htorn [Hn Hids] Hu Hready Hfiles. set (m := n - Z.of_nat (length Q)) in *.
  pose proof (opened_first J lg S Q Hop) as Hfirst. unfold is_u64 in Hu.
  destruct (replay_files_ok l0 Hat d Q m Hready Hids ltac:(lia)) with (J := J) (Rs := snd <$> S) (fuel := Datatypes.S (length (replay_queue lg)))
    (d := d) (dn := @nil LogChange) (t := @nil Byte.byte) as (d' & Hrun & Hf & Hok & Hcols & Hnx & Hrest).
  - by rewrite Hlg.
  - done.
  - rewrite (op_queue _ _ _ _ Hop). unfold queue_of. rewrite !length_fmap. lia.
  - split; rewrite ?Hlg, ?Hc; try done.
    + pose proof (op_records _ _ _ _ Hop) as HQ. rewrite list_fmap_compose in HQ. exact (eq_sym HQ).
    + exists [], []. split; [done|]. by eapply opened_replaying.
    + apply (op_ok _ _ _ _ Hop).
    + apply cols_enacted_nil, Hat.
    + intros HQ. rewrite Hlast. destruct Q as [|x Q]; [done|]. rewrite Hfirst. cbn [default length].
      pose proof (f_equal head Hids) as Hh. cbn in Hh. rewrite Z.add_0_r. f_equal. f_equal.
      rewrite seqZ_cons in Hh by lia. by injection Hh.
    + apply (op_state _ _ _ _ Hop).
    + exists l0, lg, (last_enacted d). rewrite <- Hc, <- Hlg. by destruct d.
  - exists d'. split_and!; try done.
    + rewrite Hnx. unfold consecutive. destruct Q as [|x Q]; [done|]. split; [lia|]. by rewrite Hids; f_equal; lia.
    + rewrite Hnx. destruct Q; [done|]. unfold is_u64. lia.
Qed.

End Replay.
