(* ===== verification/DbRefine.v ===== *)
(** * The database as a map

    The commits of a database whose columns are hash columns: what was committed
    is what the tables and the log hold, changed by the commits that are still
    queued. [commit] adds to it at once, the log worker moves commits from the
    queue to the log without changing it, and [get] reads it
    (src/src/db.rs). *)

From S2P Require Import Prelude.
From S2P Require Import Bytes.
From S2P Require Import Ids.
From S2P Require Import Log.
From S2P Require Import LogState.
From S2P Require Import LogStateProofs.
From S2P Require Import LogReplay.
From S2P Require Import LogPending.
From S2P Require Import LogCrash.
From S2P Require Import Table.
From S2P Require Import Index.
From S2P Require Import Compress.
From S2P Require Import Stats.
From S2P Require Import Options.
From S2P Require Import Column.
From S2P Require Import HashColumn.
From S2P Require Import ColumnMap.
From S2P Require Import ColumnTables.
From S2P Require Import ColumnSession.
From S2P Require Import Frames.
From S2P Require Import BTreeNode.
From S2P Require Import BTree.
From S2P Require Import Overlay.
From S2P Require Import Db.
From S2P Require Import DbOverlay.
From S2P Require Import DbColumns.
From S2P Require Import ColumnPending.
From S2P Require Import DbEnact.
From stdpp Require Import options.
#[local] Set Default Proof Using "All".

(** ** Keys *)

Section Keys.
Context `{!Blake2}.

Definition key_ok (uniform : bool) (key : bytes) : Prop := if uniform then (32 ≤ length key)%nat else True.

Lemma hash_key_ok key salt uniform version : length salt = 32%nat → key_ok uniform key →
  ∃ k, hash_key key salt uniform version = Ok k ∧ is_key k.
Proof.
  intros Hs Hk. unfold hash_key, is_key, KEY_SIZE. destruct uniform.
  - unfold slice. cbn in Hk. rewrite (proj2 (Nat.leb_le 32 (length key)) Hk). cbn [Nat.leb andb].
    rewrite outcome_bind_Ok. destruct (version <=? 5); (eexists; split; [done|]).
    + rewrite length_take, drop_0. lia.
    + rewrite length_zip_with, length_take, drop_0. lia.
  - eexists. split; [done|]. apply blake2b_length.
Qed.

(** The key under which a column stores a value. *)
Definition stored_key (options : Options) (version : Z) (c : ColId) (key : bytes) : outcome Key :=
  o ← unwrap (columns options !! Z.to_nat c);
  hash_key key (default (replicate 32 x00) (salt_opt options)) (uniform o) version.

End Keys.

(** ** What was committed *)

Section Refine.
Context `{!Uninit, !Codecs, !CodecLaws, !HashMapOrder, !Crc32, !Blake2}.

Definition Tx : Type := list (ColId * bytes * option bytes).

(** One change of a transaction. *)
Definition put_change (options : Options) (version : Z) (M : DbMap) (e : ColId * bytes * option bytes) : DbMap :=
  let '(c, key, v) := e in
  match stored_key options version c key with
  | Ok k => set_map M (Z.to_nat c) (column_writes options (Z.to_nat c) (M (Z.to_nat c)) [(k, v)])
  | _ => M
  end.
Definition put_tx (options : Options) (version : Z) (M : DbMap) (tx : Tx) : DbMap :=
  foldl (put_change options version) M tx.

(** A commit of the queue. *)
Definition put_commit (options : Options) (M : DbMap) (c : Commit) : DbMap :=
  fun i => column_writes options i (M i) (indexed_changes i c).
Definition committed (d : DbInner) (M : DbMap) : DbMap :=
  foldl (put_commit (db_options d)) M (commits (commit_queue d)).

(** The tables and the log of [d] hold [M]; the overlay is that of the queue;
    records wait in the log. *)
Record db_repr (d : DbInner) (M : DbMap) : Prop := {
  dr_cols : cols_repr (db_options d) (db_version d) (db_columns d) (LogWriter.new (lg_overlays (db_log d)) 0) M;
  dr_len : length (commit_overlay d) = length (db_columns d);
  dr_overlay : overlay_ok (db_options d) (commit_overlay d) (commits (commit_queue d));
  dr_changes : Forall (fun c => changes_ok (db_options d) (length (commit_overlay d)) (changeset c))
    (commits (commit_queue d));
  dr_ids : NoDup (commit_id <$> commits (commit_queue d));
  dr_bound : Forall (fun c => commit_id c ≤ queue_record_id (commit_queue d) + 1) (commits (commit_queue d));
  dr_record : 0 ≤ queue_record_id (commit_queue d);
  dr_log : log_ok (db_log d);
  dr_pipeline : ∃ E P, pipeline (db_columns d) (db_log d) E P;
}.

(** ** Transactions *)

Definition change_ok (options : Options) (e : ColId * bytes * option bytes) : Prop :=
  let '(c, key, _) := e in
  0 ≤ c ∧ ∃ o, columns options !! Z.to_nat c = Some o ∧ btree_index o = false ∧ key_ok (uniform o) key.

(** The changes of a transaction to one column, with stored keys. *)
Fixpoint tx_changes (options : Options) (version : Z) (c : ColId) (tx : Tx) : list Change :=
  match tx with
  | [] => []
  | (c', key, v) :: tx =>
      match stored_key options version c' key with
      | Ok k => (if decide (c' = c) then [(k, v)] else []) ++ tx_changes options version c tx
      | _ => tx_changes options version c tx
      end
  end.

Definition salt_ok (options : Options) : Prop := ∃ s, salt_opt options = Some s ∧ length s = 32%nat.

Lemma stored_key_ok options version c key v : salt_ok options → change_ok options (c, key, v) →
  ∃ k o, columns options !! Z.to_nat c = Some o ∧ btree_index o = false ∧
    stored_key options version c key = Ok k ∧ is_key k ∧
    hash_key key (default (replicate 32 x00) (salt_opt options)) (uniform o) version = Ok k.
Proof.
  intros (s & Hs & Hlen) (Hc & o & Ho & Hb & Hk).
  destruct (hash_key_ok key s (uniform o) version Hlen Hk) as (k & Hh & Hkey). exists k, o.
  unfold stored_key. rewrite Ho. unfold unwrap. by rewrite outcome_bind_Ok, Hs.
Qed.

Lemma commit_changes_ok options version tx : salt_ok options → Forall (change_ok options) tx → ∀ cs,
  ∃ cs', commit_changes options version tx cs = Ok cs' ∧ cs_btree cs' = cs_btree cs ∧
    (∀ c, default [] (cs_indexed cs' !! c) = default [] (cs_indexed cs !! c) ++ tx_changes options version c tx) ∧
    (∀ c v, cs_indexed cs' !! c = Some v → is_Some (cs_indexed cs !! c) ∨
       (0 ≤ c < Z.of_nat (length (columns options)))).
Proof.
  intros Hsalt. induction tx as [|[[c key] v] tx IH]; intros Htx cs.
  { exists cs. split_and!; [done|done| |eauto]. intros c. cbn. by rewrite app_nil_r. }
  apply Forall_cons in Htx as [Hch Htx].
  destruct (stored_key_ok options version c key v Hsalt Hch) as (k & o & Ho & Hb & Hsk & Hkey & Hh).
  set (cs1 := MkCommitChangeSet (<[c := default [] (cs_indexed cs !! c) ++ [(k, v)]]> (cs_indexed cs)) (cs_btree cs)).
  destruct (IH Htx cs1) as (cs' & Hrun & Hbt & Hix & Hdom). exists cs'. split_and!.
  - cbn [commit_changes]. rewrite Ho. unfold unwrap. rewrite outcome_bind_Ok, Hb. unfold IndexedChangeSet.push.
    by rewrite Hh, !outcome_bind_Ok.
  - done.
  - intros c1. rewrite Hix. cbn [cs1 cs_indexed tx_changes]. rewrite Hsk.
    destruct (decide (c = c1)) as [->|Hne].
    + rewrite lookup_insert_eq. cbn [default id]. by rewrite <- app_assoc.
    + by rewrite lookup_insert_ne.
  - intros c1 v1 Hc1. destruct (Hdom _ _ Hc1) as [Hs|?]; [|by right]. cbn [cs1 cs_indexed] in Hs.
    destruct (decide (c = c1)) as [->|Hne]; [|left; by rewrite lookup_insert_ne in Hs].
    right. destruct Hch as [Hpos _]. apply lookup_lt_Some in Ho. lia.
Qed.

(** A transaction changes each column by its own changes. *)
Lemma column_writes_nil options i m : column_writes options i m [] = m.
Proof. unfold column_writes. by destruct (columns options !! i). Qed.
Lemma column_writes_app options i m l1 l2 :
  column_writes options i m (l1 ++ l2) = column_writes options i (column_writes options i m l1) l2.
Proof. unfold column_writes. destruct (columns options !! i); [|done]. unfold kv_writes. by rewrite foldl_app. Qed.

Lemma put_tx_column options version tx : salt_ok options → Forall (change_ok options) tx → ∀ M i,
  put_tx options version M tx i = column_writes options i (M i) (tx_changes options version (Z.of_nat i) tx).
Proof.
  intros Hsalt. induction tx as [|[[c key] v] tx IH]; intros Htx M i.
  { cbn. by rewrite column_writes_nil. }
  apply Forall_cons in Htx as [Hch Htx].
  destruct (stored_key_ok options version c key v Hsalt Hch) as (k & o & Ho & Hb & Hsk & Hkey & Hh).
  unfold put_tx in *. cbn [foldl tx_changes]. rewrite (IH Htx). unfold put_change. rewrite Hsk.
  rewrite column_writes_app. f_equal. destruct Hch as [Hpos _].
  destruct (decide (c = Z.of_nat i)) as [->|Hne].
  - by rewrite Nat2Z.id, set_map_eq.
  - rewrite column_writes_nil. apply set_map_ne. lia.
Qed.

(** ** [commit] *)

Lemma cols_salt d M : db_repr d M → (0 < length (db_columns d))%nat → salt_ok (db_options d).
Proof.
  intros Hd Hlen. destruct (lookup_lt_is_Some_2 (db_columns d) 0 Hlen) as [col Hcol].
  destruct (proj2 (dr_cols _ _ Hd) _ _ Hcol) as (c & _ & Hc & _).
  exists (hc_salt c). split; [apply Hc|apply Hc].
Qed.

(** A change set is queued; nothing else changes. *)
Record queued (cs : CommitChangeSet) (d d' : DbInner) : Prop := {
  qd_commits : ∃ c, commits (commit_queue d') = commits (commit_queue d) ++ [c] ∧ changeset c = cs;
  qd_options : db_options d' = db_options d;
  qd_version : db_version d' = db_version d;
  qd_columns : db_columns d' = db_columns d;
  qd_log : db_log d' = db_log d;
  qd_err : bg_err d' = None;
  qd_log_queue : log_queue d' = log_queue d;
}.

Lemma commit_raw_ok d M cs : db_repr d M → bg_err d = None → queue_bytes (commit_queue d) ≤ MAX_COMMIT_QUEUE_BYTES →
  queue_record_id (commit_queue d) + 2 < 2 ^ 64 → changes_ok (db_options d) (length (commit_overlay d)) cs →
  ∃ d', commit_raw cs d = (Ok tt, d') ∧ db_repr d' M ∧ queued cs d d'.
Proof.
  intros Hd Hbg Hfull Hid Hok. set (rid := wrap64 (wrap64 (queue_record_id (commit_queue d) + 1) + 1)).
  pose proof (dr_record _ _ Hd) as Hpos.
  assert (Hrid : rid = queue_record_id (commit_queue d) + 2).
  { unfold rid. rewrite !wrap64_small; unfold is_u64; try lia. rewrite wrap64_small; unfold is_u64; lia. }
  destruct (copy_commit_ok (db_options d) (commit_overlay d) (commits (commit_queue d)) cs rid Hok (dr_overlay _ _ Hd))
    as (ov & b & Hcopy & Hovlen & Hov).
  eexists. split; [|split].
  - unfold commit_raw. rewrite (proj2 (Z.ltb_ge _ _) Hfull). unfold commit_enqueue. rewrite Hbg.
    cbn [queue_record_id]. fold rid. by rewrite Hcopy.
  - destruct Hd as [D1 D2 D3 D4 D5 D6 D7 D8 D9]. split; cbn; try done.
    + congruence.
    + apply Forall_app. split; [by rewrite Hovlen|]. constructor; [|done]. by rewrite Hovlen.
    + rewrite fmap_app. apply NoDup_app. split_and!; [done| |cbn; apply NoDup_singleton].
      intros id Hin Hn. cbn in Hn. apply list_elem_of_singleton in Hn as ->.
      apply list_elem_of_fmap in Hin as (c & Hc & Hin). rewrite Forall_forall in D6. specialize (D6 c Hin). lia.
    + rewrite wrap64_small by (unfold is_u64; lia). apply Forall_app. split; [|constructor; [cbn; lia|done]].
      eapply Forall_impl; [exact D6|]. cbn. lia.
    + unfold wrap64. apply Z.mod_pos_bound. lia.
  - split; try done. by eexists.
Qed.

Lemma commit_ok d M tx : db_repr d M → bg_err d = None → queue_bytes (commit_queue d) ≤ MAX_COMMIT_QUEUE_BYTES →
  queue_record_id (commit_queue d) + 2 < 2 ^ 64 → (0 < length (db_columns d))%nat →
  Forall (change_ok (db_options d)) tx →
  ∃ d', db_commit tx d = (Ok tt, d') ∧ db_repr d' M ∧
    (∃ c, commits (commit_queue d') = commits (commit_queue d) ++ [c] ∧
       ∀ A i, put_commit (db_options d) A c i = put_tx (db_options d) (db_version d) A tx i) ∧
    db_options d' = db_options d ∧ db_version d' = db_version d ∧ db_columns d' = db_columns d ∧
    db_log d' = db_log d ∧ bg_err d' = None ∧ log_queue d' = log_queue d.
Proof.
  intros Hd Hbg Hfull Hid Hcols Htx. pose proof (cols_salt _ _ Hd Hcols) as Hsalt.
  destruct (commit_changes_ok (db_options d) (db_version d) tx Hsalt Htx (MkCommitChangeSet ∅ ∅)) as
    (cs & Hcs & Hbt & Hix & Hdom).
  assert (Hlen : length (columns (db_options d)) = length (commit_overlay d)).
  { rewrite (dr_len _ _ Hd). symmetry. apply (dr_cols _ _ Hd). }
  assert (Hok : changes_ok (db_options d) (length (commit_overlay d)) cs).
  { split_and!; [done| |].
    - intros c v Hc. destruct (Hdom _ _ Hc) as [Hs|Hr]; [|lia]. cbn in Hs. rewrite lookup_empty in Hs. by destruct Hs.
    - intros c v Hc. rewrite Hbt in Hc. cbn in Hc. by rewrite lookup_empty in Hc. }
  destruct (commit_raw_ok d M cs Hd Hbg Hfull Hid Hok) as (d' & Hrun & Hd' & [(c & Hq & Hc) K1 K2 K3 K4 K5 K6]).
  exists d'. split; [|split; [done|split; [|done]]].
  - unfold db_commit. erewrite ST_bind_Ok by done. by erewrite ST_bind_Ok by (unfold lift_st; by rewrite Hcs).
  - exists c. split; [done|]. intros A i. rewrite (put_tx_column _ _ _ Hsalt Htx). unfold put_commit, indexed_changes.
    rewrite Hc, Hix. cbn. by rewrite lookup_empty.
Qed.

(** ** The log worker *)

Lemma cols_repr_view options version l w o rid M :
  (∀ id n, value_view o id n = value_view w id n) → (∀ id n, index_view o id n = index_view w id n) →
  cols_repr options version l w M → cols_repr options version l (LogWriter.new o rid) M.
Proof.
  intros Hv Hx [Hlen Hl]. split; [done|]. intros i col Hi. destruct (Hl i col Hi) as (c & -> & Hc & Hr).
  exists c. split_and!; [done|done|]. by eapply col_repr_new.
Qed.

Lemma cols_repr_map options version l w M M' : (∀ i, M' i = M i) →
  cols_repr options version l w M → cols_repr options version l w M'.
Proof.
  intros He [Hlen Hl]. split; [done|]. intros i col Hi. destruct (Hl i col Hi) as (c & -> & Hc & Hr).
  exists c. split_and!; [done|done|]. by rewrite He.
Qed.

(** A record was appended to the log; the files of the columns are as before. *)
Definition logged_record (d d' : DbInner) (P P' : list LogChange) : Prop :=
  same_columns (db_columns d) (db_columns d') ∧
  ∃ c, P' = P ++ [c] ∧ change_record_id c = next_record_id (db_log d) ∧ appended (db_log d) c (db_log d').

Lemma log_record_ok d M cs E P : cols_repr (db_options d) (db_version d) (db_columns d)
    (LogWriter.new (lg_overlays (db_log d)) 0) M →
  log_ok (db_log d) → pipeline (db_columns d) (db_log d) E P →
  next_log_id (db_log d) + 1 < 2 ^ 32 → next_record_id (db_log d) + 1 < 2 ^ 64 →
  commit_room (db_columns d) (LogWriter.new (lg_overlays (db_log d)) 0) cs →
  ∃ d' rid P', log_record (plan_commit cs) d = (Ok (rid, false), d') ∧
    cols_repr (db_options d) (db_version d) (db_columns d') (LogWriter.new (lg_overlays (db_log d')) 0)
      (apply_changes (db_options d) (iter (cs_indexed cs)) M) ∧
    log_ok (db_log d') ∧ pipeline (db_columns d') (db_log d') E P' ∧
    db_options d' = db_options d ∧ db_version d' = db_version d ∧
    commit_queue d' = commit_queue d ∧ commit_overlay d' = commit_overlay d ∧ bg_err d' = bg_err d ∧
    logged_record d d' P P'.
Proof.
  intros Hl Hlog Hpipe Hnext Hrec Hroom. set (rid := next_record_id (db_log d)).
  pose proof (pl_next _ _ _ _ Hpipe) as Hrid. fold rid in Hrid. unfold is_u64 in Hrid.
  set (l1 := set_next_record_id (rid + 1) (db_log d)).
  assert (Hbegin : begin_record (db_log d) = (Ok (LogWriter.new (lg_overlays (db_log d)) rid), l1)).
  { unfold begin_record. erewrite ST_bind_Ok by done. fold rid in Hrec |- *.
    rewrite wrap64_small by (unfold is_u64; lia). done. }
  set (w := LogWriter.new (lg_overlays (db_log d)) rid) in *.
  pose proof (begin_record_ok _ Hlog) as Hok1. rewrite Hbegin in Hok1. cbn [snd] in Hok1.
  destruct (plan_commit_ok (db_options d) (db_version d) (db_columns d) w M cs) as
    (cols & w' & ops & Hplan & Hl' & Hsr & Hsc & Hcl); [by eapply cols_repr_view; [| |exact Hl]|exact Hroom|].
  assert (Hov : writer_overlays w' = lg_overlays l1) by (by rewrite (sr_overlays _ _ _ Hsr)).
  assert (Hid : LogWriter.record_id w' = rid) by apply (sr_record _ _ _ Hsr).
  assert (Hnr : wrap64 (LogWriter.record_id w' + 1) = next_record_id l1).
  { rewrite Hid. cbn. fold rid in Hrec |- *. apply wrap64_small. unfold is_u64. lia. }
  destruct (end_record_spec l1 w' Hok1 Hnext Hov Hnr) as
    (l2 & h & f & Hend & Hok2 & _ & _ & _ & _ & _ & _ & _ & Hnx & Hv & Hx & _).
  destruct (record_pending (db_log d) w' E P Hlog (pl_log _ _ _ _ Hpipe) Hnext Hrec Hov Hid) as (n & l2' & Hend' & Hp2).
  { by eapply new_record_own. }
  fold rid in Hend'. fold l1 in Hend'. rewrite Hend in Hend'. injection Hend' as <- <-.
  eexists _, (LogWriter.record_id w'), (P ++ [writer_log w']). split_and!.
  - unfold log_record. erewrite ST_bind_Ok.
    2: { unfold on_db_log, zoom. by rewrite Hbegin. }
    erewrite ST_bind_Ok.
    2: { cbn [db_columns set_log]. by rewrite Hplan. }
    cbv beta iota. erewrite ST_bind_Ok.
    2: { unfold on_db_log, zoom. cbn [db_log set_columns set_log]. by rewrite Hend. }
    by erewrite ST_bind_Ok by done.
  - cbn. eapply cols_repr_view; [| |exact Hl'].
    + intros id m. etrans; [|apply Hv]. done.
    + intros id m. etrans; [|apply Hx]. done.
  - done.
  - cbn. eapply pipeline_snoc; [exact Hl|exact Hl'|done|done|exact Hsr|done| |done].
    rewrite Hnx, <- Hnr. apply wrap64_range.
  - done.
  - done.
  - done.
  - done.
  - done.
  - split; [done|]. exists (writer_log w'). split; [done|]. split; [exact Hid|]. exact (end_record_appended l1 w' _ l2 Hok1 Hnext Hov Hnr Hend).
Qed.

(** The first commit of the queue goes to the log. *)
Definition process_ready (d : DbInner) : Prop :=
  (db_shutdown d = true ∨ log_queue d ≤ MAX_LOG_QUEUE_BYTES) ∧ next_log_id (db_log d) + 1 < 2 ^ 32 ∧
  next_record_id (db_log d) + 1 < 2 ^ 64 ∧
  match commits (commit_queue d) with
  | c :: _ => commit_room (db_columns d) (LogWriter.new (lg_overlays (db_log d)) 0) (changeset c)
  | [] => True
  end.

Lemma process_ok d M : db_repr d M → process_ready d →
  ∃ b d' M', process_commits d = (Ok b, d') ∧ b = negb (length (commits (commit_queue d)) =? 0)%nat ∧
    db_repr d' M' ∧ M' = match commits (commit_queue d) with c :: _ => put_commit (db_options d) M c | [] => M end ∧
    commits (commit_queue d') = tail (commits (commit_queue d)) ∧
    queue_record_id (commit_queue d') = queue_record_id (commit_queue d) ∧
    db_options d' = db_options d ∧ db_version d' = db_version d ∧ bg_err d' = bg_err d ∧
    (b = false ∧ d' = d ∨ ∃ E P P', pipeline (db_columns d) (db_log d) E P ∧ pipeline (db_columns d') (db_log d') E P' ∧
       logged_record d d' P P').
Proof.
  intros Hd (Hq & Hnext & Hrec & Hroom). unfold process_commits.
  assert (E : negb (db_shutdown d) && (MAX_LOG_QUEUE_BYTES <? log_queue d) = false).
  { destruct Hq as [->|Hq]; [done|]. by rewrite (proj2 (Z.ltb_ge _ _) Hq), andb_false_r. }
  rewrite E. clear E. unfold process_next_commit, pop_commit.
  destruct (commits (commit_queue d)) as [|c q] eqn:Eq.
  { exists false, d, M. split_and!; rewrite ?Eq; try done; [unfold mbind, ST_bind; by rewrite Eq|by left]. }
  set (d1 := set_commit_queue (MkCommitQueue (queue_record_id (commit_queue d))
    (wrap64 (queue_bytes (commit_queue d) - commit_bytes c)) q) d).
  destruct (dr_pipeline _ _ Hd) as (E & P & Hpipe).
  destruct (log_record_ok d1 M (changeset c) E P (dr_cols _ _ Hd) (dr_log _ _ Hd) Hpipe Hnext Hrec Hroom) as
    (d2 & rid & P' & Hrun & Hcols & Hlog & Hpipe' & K1 & K2 & K3 & K4 & K5 & Hrec').
  pose proof Hd as [D1 D2 D3 D4 D5 D6 D7 D8 D9]. rewrite Eq in D3, D4, D5, D6.
  apply Forall_cons in D4 as [Hch D4]. apply NoDup_cons in D5 as [Hni D5]. apply Forall_cons in D6 as [_ D6].
  destruct (clean_commit_ok (db_options d) (commit_overlay d) q c Hch Hni D3) as (ov & Hclean & Hovlen & Hov).
  exists true, (set_commit_overlay ov d2), (put_commit (db_options d) M c). split_and!.
  - erewrite (ST_bind_Ok _ _ d). 2: { rewrite Eq. reflexivity. }
    cbv beta iota. erewrite ST_bind_Ok by exact Hrun. cbv beta iota. erewrite ST_bind_Ok.
    2: { unfold zoom. rewrite K4. cbn [d1 set_commit_queue commit_overlay]. by rewrite Hclean. }
    by erewrite ST_bind_Ok by done.
  - done.
  - split; cbn; rewrite ?K1, ?K2, ?K3; cbn; try done.
    + eapply cols_repr_map; [|exact Hcols]. intros i.
      etrans; [|symmetry; apply apply_changes_lookup; intros ch0 v0 Hc0; by destruct (proj2 Hroom _ _ Hc0)].
      unfold put_commit, indexed_changes. destruct (cs_indexed (changeset c) !! Z.of_nat i); [done|].
      cbn. by rewrite column_writes_nil.
    + rewrite Hovlen, (dr_len _ _ Hd), (proj1 (dr_cols _ _ Hd)). symmetry. apply Hcols.
    + by rewrite Hovlen.
    + by exists E, P'.
  - done.
  - cbn. by rewrite K3.
  - cbn. by rewrite K3.
  - done.
  - done.
  - done.
  - right. by exists E, P, P'.
Qed.

(** ** [get] *)

(** In a column without counters the last change of a key is its value. *)
Lemma plain_writes m (l : list (bytes * option bytes)) (k : bytes) :
  fst <$> kv_writes false false m l k = match last_change k l with Some v => v | None => fst <$> m k end.
Proof.
  revert m. induction l as [|[k1 v] l IH]; intros m; [done|]. rewrite last_change_cons.
  unfold kv_writes in *. cbn [foldl]. rewrite IH. destruct (last_change k l); [done|].
  unfold kv_set. destruct (decide (k = k1)) as [->|Hne].
  - rewrite !decide_True by done. by destruct (m k1) as [[v0 n]|], v.
  - rewrite !decide_False by congruence. done.
Qed.

Definition plain_column (options : Options) (i : nat) : Prop :=
  ∃ o, columns options !! i = Some o ∧ ref_counted_opt o = false ∧ preimage o = false.

Lemma committed_pending options i M (k : Key) q : plain_column options i →
  fst <$> foldl (put_commit options) M q i k =
  match pending (column_rc options i) (indexed_changes i) k q with
  | Some (_, v) => v
  | None => fst <$> M i k
  end.
Proof.
  intros (o & Ho & Hrc & Hpre). induction q as [|c q IH] using rev_ind; [done|].
  rewrite foldl_app, pending_snoc. cbn [foldl]. unfold put_commit at 1, column_writes. rewrite Ho, Hrc, Hpre.
  rewrite plain_writes. unfold add_pending, column_rc. rewrite Ho, Hrc, recorded_plain.
  destruct (last_change k (indexed_changes i c)); [done|]. by rewrite IH; unfold column_rc; rewrite Ho, Hrc.
Qed.

(** What [get] returns, and the statistics that it counts. *)
Lemma get_value d M c key : cols_repr (db_options d) (db_version d) (db_columns d) (LogWriter.new (lg_overlays (db_log d)) 0) M →
  length (commit_overlay d) = length (db_columns d) →
  overlay_ok (db_options d) (commit_overlay d) (commits (commit_queue d)) →
  change_ok (db_options d) (c, key, None) → plain_column (db_options d) (Z.to_nat c) →
  ∃ k d', stored_key (db_options d) (db_version d) c key = Ok k ∧
    db_get c key d = (Ok (fst <$> committed d M (Z.to_nat c) k), d') ∧
    (d' = d ∨ ∃ hc hc', db_columns d !! Z.to_nat c = Some (Hash hc) ∧ same_column hc hc' ∧ hc_values hc' = hc_values hc ∧
       d' = set_columns (<[Z.to_nat c := Hash hc']> (db_columns d)) d).
Proof.
  intros Hcols Hlen Hover Hch Hplain. pose proof Hch as [Hpos (o & Ho & Hb & Hk)]. set (i := Z.to_nat c) in *.
  destruct (lookup_lt_is_Some_2 (db_columns d) i) as [col Hcol].
  { rewrite (proj1 Hcols). by eapply lookup_lt_Some. }
  destruct (proj2 Hcols _ _ Hcol) as (hc & -> & Hco & Hr).
  destruct (lookup_lt_is_Some_2 (commit_overlay d) i) as [ov Hov].
  { rewrite Hlen. by eapply lookup_lt_Some. }
  assert (Hsalt : salt_ok (db_options d)) by (exists (hc_salt hc); split; apply Hco).
  destruct (stored_key_ok _ (db_version d) c key None Hsalt Hch) as (k & o' & Ho' & _ & Hsk & Hkey & Hh).
  fold i in Ho'. assert (o' = o) as -> by congruence. clear Ho'.
  assert (Hck : column_hash_key hc key = Ok k).
  { unfold column_hash_key. rewrite (co_version _ _ _ _ Hco). rewrite (co_salt _ _ _ _ Hco) in Hh. cbn in Hh.
    destruct (co_options _ _ _ _ Hco) as (o1 & Ho1 & _ & _ & _ & -> & _). congruence. }
  exists k. destruct (Hover i ov Hov) as [Hix _].
  assert (Hval : fst <$> committed d M i k = match co_indexed ov !! k with Some (_, v) => v | None => fst <$> M i k end).
  { rewrite Hix. unfold committed. by apply committed_pending. }
  rewrite Hval. unfold db_get. fold i. rewrite Hcol, Hck, Hov. cbn [mbind option_bind].
  unfold CommitOverlay.get. destruct (co_indexed ov !! k) as [[id v]|] eqn:Eo; cbn.
  { exists d. split_and!; [done|done|by left]. }
  rewrite (column_get_ext (lg_overlays (db_log d)) (LogWriter.new (lg_overlays (db_log d)) 0)) by done.
  destruct (column_get_ok hc _ (M i) k Hr Hkey) as (hc' & Hget & Hsc & Hvals). rewrite Hget.
  eexists. split_and!; [done|done|]. right. by exists hc, hc'.
Qed.

Lemma get_ok d M c key : db_repr d M → change_ok (db_options d) (c, key, None) →
  plain_column (db_options d) (Z.to_nat c) →
  ∃ k d', stored_key (db_options d) (db_version d) c key = Ok k ∧
    db_get c key d = (Ok (fst <$> committed d M (Z.to_nat c) k), d') ∧ db_repr d' M ∧
    (∀ i, committed d' M i = committed d M i) ∧ commit_queue d' = commit_queue d ∧
    db_options d' = db_options d ∧ db_version d' = db_version d ∧ db_log d' = db_log d ∧ bg_err d' = bg_err d.
Proof.
  intros Hd Hch Hplain. set (i := Z.to_nat c).
  destruct (get_value d M c key (dr_cols _ _ Hd) (dr_len _ _ Hd) (dr_overlay _ _ Hd) Hch Hplain) as
    (k & d' & Hsk & Hrun & [->|(hc & hc' & Hcol & Hsc & Hvals & ->)]); [by exists k, d; split_and!|].
  fold i in Hcol, Hrun. exists k. eexists. split_and!; [done|exact Hrun|..|done|done|done|done|done|done].
  destruct Hd as [[L1 L2] D2 D3 D4 D5 D6 D7 D8 (E & P & Hp)]. destruct (L2 _ _ Hcol) as (hc0 & [= <-] & Hco & Hr).
  assert (Hl' : cols_repr (db_options d) (db_version d) (<[i := Hash hc']> (db_columns d))
    (LogWriter.new (lg_overlays (db_log d)) 0) M); [|split; cbn; try done].
  - split; [by rewrite length_insert|]. intros j col. rewrite list_lookup_insert.
    destruct (decide (i = j ∧ _)) as [[<- _]|_]; [|apply L2]. intros [= <-]. exists hc'.
    split_and!; [done|by eapply column_of_same|]. by eapply col_repr_same.
  - by rewrite length_insert.
  - exists E, P. eapply pipeline_static; [| |apply Hp|apply Hp|exact Hp].
    + eapply same_columns_static; [| |exact Hl']; [|by split]. eapply same_columns_insert; [done|done|].
      unfold table_files. by rewrite Hvals.
    + intros j cj. rewrite list_lookup_insert. destruct (decide _) as [[<- _]|_]; [|apply (pl_clean _ _ _ _ Hp)].
      intros [= <-] n t. rewrite Hvals. by apply (pl_clean _ _ _ _ Hp i).
Qed.

End Refine.
