(* ===== verification/DbNew.v ===== *)
(** * A new database

    [Db::open_or_create] in a directory without files: hash columns that are
    empty maps, an empty log and an empty queue (src/src/db.rs). *)

From S2P Require Import Prelude.
From S2P Require Import Bytes.
From S2P Require Import Ids.
From S2P Require Import File.
From S2P Require Import Log.
From S2P Require Import LogState.
From S2P Require Import LogStateProofs.
From S2P Require Import Table.
From S2P Require Import TableThms.
From S2P Require Import Index.
From S2P Require Import Compress.
From S2P Require Import Stats.
From S2P Require Import Options.
From S2P Require Import Column.
From S2P Require Import HashColumn.
From S2P Require Import ColumnMap.
From S2P Require Import ColumnSession.
From S2P Require Import ColumnOpen.
From S2P Require Import BTreeNode.
From S2P Require Import BTree.
From S2P Require Import Overlay.
From S2P Require Import Db.
From S2P Require Import DbOpen.
From S2P Require Import DbOverlay.
From S2P Require Import LogPending.
From S2P Require Import IndexEnact.
From S2P Require Import ColumnPending.
From S2P Require Import DbColumns.
From S2P Require Import DbEnact.
From S2P Require Import DbRefine.
From stdpp Require Import options.
#[local] Set Default Proof Using "All".

Definition empty_dir : Dir := MkDir false false None [] (fun _ _ => None) (fun _ _ => None).

(** The state of a new database: [salt] is the one of the options or the drawn
    one. *)
Definition opened_options (options : Options) (salt : bytes) : Options :=
  MkOptions (columns options) (sync_wal_opt options) (sync_data options) (stats_opt options) (Some salt).
Definition new_columns (options : Options) (salt : bytes) : list Column :=
  imap (fun i o => Hash (new_column (Z.of_nat i) (stats_opt options) o salt CURRENT_VERSION)) (columns options).
Definition new_log (options : Options) : LogFiles :=
  MkLogFiles empty_overlays None None Idle None 1 true [] [] [] 0 (sync_wal_opt options) ∅.
Definition new_db (options : Options) (salt : bytes) : DbInner :=
  MkDbInner (new_columns options salt) (opened_options options salt) false (new_log options)
    (MkCommitQueue 0 0 []) (replicate (length (columns options)) CommitOverlay.new) 0
    (MkSignals false false false false) 1 1 None CURRENT_VERSION.

(** Options for hash columns. *)
Definition hash_options (options : Options) : Prop :=
  Forall (fun o => btree_index o = false) (columns options) ∧ (length (columns options) ≤ 256)%nat.

Section New.
Context `{!Uninit, !Codecs, !CodecLaws, !HashMapOrder, !Crc32, !Blake2, !Hex}.

Lemma open_columns_new dir options meta cols :
  dir_values dir = (fun _ _ => None) → dir_index dir = (fun _ _ => None) → hash_options options → meta_columns meta = columns options →
  (∀ i, i ∈ cols → (i < length (columns options))%nat) →
  open_columns dir cols options meta =
  Ok ((fun i => Hash (new_column (Z.of_nat i) (stats_opt options)
         (default ColumnOptions.default_options (columns options !! i)) (meta_salt meta) (meta_version meta))) <$> cols).
Proof.
  intros Hdv Hdi [Hh Hn] Hm. induction cols as [|i cols IH]; intros Hin; [done|].
  assert (Hi : (i < length (columns options))%nat) by (apply Hin; by left).
  destruct (lookup_lt_is_Some_2 _ _ Hi) as [o Ho]. cbn [open_columns fmap list_fmap].
  assert (Hw : wrap8 (Z.of_nat i) = Z.of_nat i) by (unfold wrap8; rewrite Z.mod_small; lia).
  unfold any_open. rewrite Hw, Nat2Z.id, Hm, Ho. cbn [unwrap]. rewrite outcome_bind_Ok.
  rewrite (Forall_lookup_1 _ _ _ _ Hh Ho). rewrite Hdv, Hdi.
  rewrite (open_hash_new (Z.of_nat i) (stats_opt options) meta o) by (by rewrite Nat2Z.id, Hm).
  cbn [fmap outcome_fmap]. rewrite !outcome_bind_Ok, IH by (intros j Hj; apply Hin; by right).
  by rewrite outcome_bind_Ok.
Qed.

Lemma refresh_no_file l : Forall (fun t => file (vt_file t) = None) l →
  each_table Table.refresh_metadata l = (Ok tt, l).
Proof.
  induction 1 as [|t l Ht _ IH]; [done|]. cbn [each_table]. unfold Table.refresh_metadata at 1. by rewrite Ht, IH.
Qed.
Lemma refresh_new_tables col o v tiers :
  each_table Table.refresh_metadata (new_tables col o v tiers) = (Ok tt, new_tables col o v tiers).
Proof. apply refresh_no_file. unfold new_tables. apply Forall_fmap, Forall_true. intros i. unfold compose, new_table. by destruct (SIZES !! i). Qed.

Lemma refresh_new_columns d is_ : (∀ i, i ∈ is_ → ∃ col st o s v, db_columns d !! i = Some (Hash (new_column col st o s v))) →
  for_each (fun i d => match db_columns d !! i with
                       | Some c => let '(o, c) := any_refresh_metadata c in (o, set_columns (<[i := c]> (db_columns d)) d)
                       | None => (Panic, d)
                       end) is_ d = (Ok tt, d).
Proof.
  induction is_ as [|i is_ IH]; intros Hin; [done|]. cbn [for_each].
  destruct (Hin i) as (col & st & o & s & v & Hi); [by left|].
  erewrite ST_bind_Ok; [apply IH; intros j Hj; apply Hin; by right|].
  rewrite Hi. cbn [any_refresh_metadata]. unfold column_refresh_metadata. cbn [hc_values new_column].
  rewrite refresh_new_tables. f_equal.
  change (set_hc_values _ (new_column col st o s v)) with (new_column col st o s v).
  rewrite list_insert_id by done. by destruct d.
Qed.

Lemma new_columns_seq options salt :
  (fun i => Hash (new_column (Z.of_nat i) (stats_opt options)
     (default ColumnOptions.default_options (columns options !! i)) salt CURRENT_VERSION))
    <$> seq 0 (length (columns options)) = new_columns options salt.
Proof.
  apply list_eq. intros i. unfold new_columns. rewrite list_lookup_fmap, list_lookup_imap.
  destruct (columns options !! i) as [o|] eqn:E.
  - rewrite lookup_seq_lt by (by eapply lookup_lt_Some). cbn. by rewrite E.
  - rewrite lookup_seq_ge by (by apply lookup_ge_None_1). done.
Qed.

(** Its directory has the metadata and no other file. *)
Definition new_dir (options : Options) (salt : bytes) : Dir :=
  MkDir true false (Some (Options.write_metadata_file options salt)) [] (fun _ _ => None) (fun _ _ => None).

Lemma db_open_new options random inner : hash_options options → create_opt inner = true →
  let salt := default random (salt_opt options) in
  db_open options random inner empty_dir = (Ok (new_db options salt), new_dir options salt).
Proof.
  intros Hh Hc. cbv zeta. unfold db_open. rewrite Hc. do 3 erewrite ST_bind_Ok by done.
  erewrite ST_bind_Ok by (by rewrite andb_false_r).
  unfold Options.load_and_validate_metadata, zoom. cbn [dir_metadata create_dir_all empty_dir].
  erewrite ST_bind_Ok by reflexivity. erewrite ST_bind_Ok by reflexivity. cbn [meta_columns].
  erewrite ST_bind_Ok.
  2: { unfold lift_st. rewrite (open_columns_new _ options) by (try done; intros i Hi%elem_of_seq; lia).
       cbn [meta_salt meta_version]. by rewrite new_columns_seq. }
  unfold mret, ST_ret. f_equal. unfold new_db, opened_options. by destruct (salt_opt options).
Qed.

Lemma replay_new options salt : replay_all_logs (new_db options salt) = (Ok tt, new_db options salt).
Proof.
  unfold replay_all_logs. erewrite ST_bind_Ok by done. erewrite ST_bind_Ok by done.
  unfold each_column. erewrite ST_bind_Ok by done. apply refresh_new_columns.
  intros i Hi%elem_of_seq. cbn [db_columns new_db set_log] in *. unfold new_columns in *.
  rewrite length_imap in Hi. rewrite list_lookup_imap.
  destruct (lookup_lt_is_Some_2 (columns options) i) as [o Ho]; [lia|]. rewrite Ho. cbn. by repeat eexists.
Qed.

Lemma open_new_db options random : hash_options options → Options.is_valid options = true →
  let salt := default random (salt_opt options) in
  open_or_create options random empty_dir = (Ok (new_db options salt), new_dir options salt).
Proof.
  intros Hh Hv. pose proof (db_open_new options random (MkInternalOptions true false Standard false) Hh eq_refl) as E.
  cbv zeta in *. unfold open_or_create, open_inner. rewrite Hv. erewrite ST_bind_Ok by done.
  erewrite ST_bind_Ok by exact E. unfold lift_st. by rewrite replay_new.
Qed.

(** No record waits in a new log. *)
Lemma new_columns_lookup options salt i col : new_columns options salt !! i = Some col →
  ∃ o, columns options !! i = Some o ∧
    col = Hash (new_column (Z.of_nat i) (stats_opt options) o salt CURRENT_VERSION).
Proof.
  unfold new_columns. rewrite list_lookup_imap. destruct (columns options !! i) as [o|]; [|done].
  intros [= <-]. by exists o.
Qed.

Lemma new_column_pending col st o salt v : is_u8 col → column_pending (new_column col st o salt v) [] [].
Proof.
  intros Hu. split; try done.
  - by intros x id n rid d Hx%not_elem_of_nil.
  - by intros x id n rid m ch Hx%not_elem_of_nil.
  - intros n. by exists EMPTY_CHUNK.
  - destruct (index_id_new col MIN_INDEX_BITS) as (_ & Hb & _); [done|done|].
    change (MIN_INDEX_BITS ≤ IndexTableId.index_bits (IndexTableId.new col MIN_INDEX_BITS) ∧ (is_Some (None : option IndexMap) ∨
      IndexTableId.index_bits (IndexTableId.new col MIN_INDEX_BITS) = MIN_INDEX_BITS)). rewrite Hb. by split; [|right].
Qed.

Lemma new_pipeline options salt : hash_options options →
  pipeline (new_columns options salt) (new_log options) [] [].
Proof.
  intros [_ Hn]. split; [| |constructor|done|].
  - split; [split; [done|]; exists [], [], [], [], []|intros id n..|constructor|done]; try apply overlay_lookup_empty.
    split; [done|]. split; [done|]. by split.
  - intros i c (o & Ho & [= ->])%new_columns_lookup. apply new_column_pending.
    apply lookup_lt_Some in Ho. unfold is_u8. lia.
  - intros i c (o & Ho & [= ->])%new_columns_lookup j t [_ ->]%new_tables_lookup. unfold new_table.
    by destruct (SIZES !! j).
Qed.

(** A new database holds nothing. *)
Lemma new_db_repr options salt : hash_options options → length salt = 32%nat →
  db_repr (new_db options salt) (fun _ _ => None).
Proof.
  intros [Hh Hn] Hs. split; cbn; try done.
  - split; [unfold new_columns; by rewrite length_imap|]. intros i col. unfold new_columns.
    rewrite list_lookup_imap. destruct (columns options !! i) as [o|] eqn:Ho; [|done]. intros [= <-].
    assert (Hu : is_u8 (Z.of_nat i)) by (apply lookup_lt_Some in Ho; unfold is_u8; lia).
    eexists. split; [done|]. split; [|by apply new_column_repr]. split; try done.
    + by apply index_id_new.
    + by apply index_id_new.
    + exists o. split_and!; try done. by eapply (Forall_lookup_1 _ _ _ _ Hh).
  - unfold new_columns. by rewrite length_replicate, length_imap.
  - intros i o Ho. apply lookup_replicate in Ho as [-> _]. split; [|done]. intros k. apply lookup_empty.
  - constructor.
  - split; cbn; try done.
    + constructor.
    + intros id. rewrite lookup_empty, elem_of_nil. split; [by intros []|done].
    + split; [done|]. intros id Hid. by apply not_elem_of_nil in Hid.
  - exists [], []. by apply new_pipeline.
Qed.

(** The first commit of a new database has room for up to 64 small values. *)
Lemma new_db_room options salt cs : hash_options options → cs_btree cs = ∅ →
  (∀ c ch, cs_indexed cs !! c = Some ch → 0 ≤ c < Z.of_nat (length (columns options)) ∧
    (length ch ≤ CHUNK_ENTRIES)%nat ∧ changes_bound ch < 2 ^ 22 ∧
    ∀ o, columns options !! Z.to_nat c = Some o →
      Forall (fun '(key, val) => is_key key ∧
        value_ok (new_column c (stats_opt options) o salt CURRENT_VERSION) val) ch) →
  commit_room (new_columns options salt) (LogWriter.new empty_overlays 0) cs.
Proof.
  intros [_ Hn] Hb Hcs. split; [done|]. intros c ch Hc. destruct (Hcs c ch Hc) as (Hr & Hlen & Hbound & Hval).
  split; [lia|]. destruct (lookup_lt_is_Some_2 (columns options) (Z.to_nat c)) as [o Ho]; [lia|].
  eexists. split; [unfold new_columns; rewrite list_lookup_imap, Ho; cbn; by rewrite Z2Nat.id by lia|].
  split_and!.
  - by apply Hval.
  - intros ci. etrans; [exact Hlen|]. apply new_column_free.
  - intros i t Ht. rewrite (new_column_filled _ _ _ _ _ _ _ Ht).
    destruct (index_id_new c MIN_INDEX_BITS) as (_ & Hbits & _); [unfold is_u8; lia|done|].
    unfold bits. cbn [hc_index new_column create_new it_id]. rewrite Hbits. unfold MIN_INDEX_BITS. lia.
Qed.

End New.
