(* ===== verification/DbSteps.v ===== *)
(** * Steps of the workers

    The operations of the log, commit, flush and cleanup workers, other than
    processing a commit, leave the commit queue, its overlay and the options
    alone, whatever their outcome (src/src/db.rs). *)

From S2P Require Import Prelude.
From S2P Require Import Bytes.
From S2P Require Import Ids.
From S2P Require Import Log.
From S2P Require Import LogState.
From S2P Require Import Table.
From S2P Require Import Index.
From S2P Require Import Compress.
From S2P Require Import Options.
From S2P Require Import Column.
From S2P Require Import HashColumn.
From S2P Require Import Frames.
From S2P Require Import BTreeNode.
From S2P Require Import BTree.
From S2P Require Import Overlay.
From S2P Require Import Db.
From S2P Require Import DbOpen.
From S2P Require Import DbOverlay.
From stdpp Require Import options.
#[local] Set Default Proof Using "Type*".

Record same_queue (d d' : DbInner) : Prop := {
  sq_queue : commit_queue d' = commit_queue d;
  sq_overlay : commit_overlay d' = commit_overlay d;
  sq_options : db_options d' = db_options d;
  sq_err : bg_err d' = bg_err d;
  sq_version : db_version d' = db_version d;
}.
#[global] Instance same_queue_preorder : PreOrder same_queue.
Proof. split; [by split|]. intros d1 d2 d3 [] []. split; congruence. Qed.

Section Steps.
Context `{!Uninit, !Codecs, !HashMapOrder, !Crc32, !Blake2}.

Abbreviation qkeeps := (keeps (fun _ : DbInner => True) same_queue).

Lemma qkeeps_log {A} (m : ST LogFiles A) : qkeeps (on_db_log m).
Proof. intros d _. unfold on_db_log, zoom. by destruct (m (db_log d)). Qed.

(** Any function that sets other fields. *)
Lemma qkeeps_modify f : (∀ d, same_queue d (f d)) → qkeeps (modify_st f).
Proof. intros Hf d _. split; [done|apply Hf]. Qed.
Lemma qkeeps_fun {A} (m : ST DbInner A) : (∀ d, same_queue d (m d).2) → qkeeps m.
Proof. intros Hm d _. split; [done|apply Hm]. Qed.

Hint Resolve qkeeps_log : keeps.

Ltac qsolve := intros; repeat (case_match || (cbn in *)); by split.
Hint Extern 2 (keeps _ _ (modify_st _)) => apply qkeeps_modify; qsolve : keeps.

Lemma log_record_keeps plan : qkeeps (log_record plan).
Proof.
  unfold log_record. apply keeps_bind; [apply _|auto with keeps|]. intros w.
  apply keeps_bind; [apply _| |].
  - apply qkeeps_fun. intros d. destruct (plan _) as [o [[l w'] [n re]]]. by split.
  - intros [w' re]. keeps_tac.
Qed.
Hint Resolve log_record_keeps : keeps.

Lemma reindex_columns_keeps tiers : qkeeps (reindex_columns tiers).
Proof.
  induction tiers as [|i tiers IH]; cbn [reindex_columns]; [keeps_tac|].
  apply keeps_get; [apply _|]. intros d _. destruct (db_columns d !! i) as [[c|t]|]; [|done..].
  apply keeps_bind; [apply _| |].
  - apply qkeeps_fun. intros d'. destruct (column_reindex _ c) as [o c']. by split.
  - intros b. destruct (_ || _); [|done]. keeps_tac.
Qed.

Lemma process_reindex_keeps : qkeeps process_reindex.
Proof.
  unfold process_reindex. apply keeps_get; [apply _|]. intros d _.
  destruct (_ || _); [apply keeps_ret, _|apply reindex_columns_keeps].
Qed.

(** ** Reading the log *)

Definition reader_step (s s' : DR) : Prop := same_queue s.1 s'.1.
#[local] Instance reader_step_preorder : PreOrder reader_step.
Proof using Type. split; [by intros []; unfold reader_step|]. intros [] [] []. unfold reader_step. apply transitivity. Qed.
Abbreviation dkeeps := (keeps (fun _ : DR => True) reader_step).

Lemma dkeeps_reader {A} (m : ST LogReader A) : dkeeps (on_reader m).
Proof. intros [d r] _. unfold on_reader, zoom, reader_step. cbn. by destruct (m r). Qed.
Lemma dkeeps_columns {A} (m : ST (list Column * LogReader) A) : dkeeps (on_columns m).
Proof. intros [d r] _. unfold on_columns, zoom, reader_step. cbn. by destruct (m (db_columns d, r)) as [o [l r']]. Qed.
Hint Resolve dkeeps_reader dkeeps_columns : keeps.

Lemma enact_loop_keeps fuel : dkeeps (enact_loop fuel).
Proof.
  induction fuel as [|fuel IH]; cbn [enact_loop]; [keeps_tac|].
  apply keeps_bind; [apply _|auto with keeps|]. intros [|t i|t i|t|]; keeps_tac.
  intros [d r] _. unfold reader_step. destruct (db_columns d !! _) as [[]|]; by split.
Qed.

(** One turn of the validation that goes on. *)
Lemma validate_turn_keeps (f : ST DR bool) {A} (m : ST DR A) : dkeeps m → dkeeps f →
  dkeeps (fun s => match m s with
                   | (Ok _, s) => f s
                   | (Err _, s) => (Ok false, s)
                   | (Panic, s) => (Panic, s)
                   | (Undefined, s) => (Undefined, s)
                   | (Deadlock, s) => (Deadlock, s)
                   | (NoFuel, s) => (NoFuel, s)
                   end).
Proof.
  intros Hm Hf s _. destruct (Hm s I) as [_ Hs1]. destruct (m s) as [[a|e| | | |] s']; try done.
  destruct (Hf s' I) as [_ Hs2]. split; [done|]. cbn in *. by etrans.
Qed.

Lemma validate_loop_keeps fuel : dkeeps (validate_loop fuel).
Proof.
  induction fuel as [|fuel IH]; cbn [validate_loop]; [keeps_tac|].
  intros s _. destruct (dkeeps_reader LogReader.next s I) as [_ Hs1].
  destruct (on_reader LogReader.next s) as [[a|e| | | |] s1]; try done. cbn [snd] in Hs1.
  enough (Hcheck : ∀ col action, dkeeps (fun s => match on_columns (at_column (Z.to_nat col) (any_validate_plan action)) s with
        | (Ok _, s) => validate_loop fuel s
        | (Err _, s) => (Ok false, s)
        | (Panic, s) => (Panic, s)
        | (Undefined, s) => (Undefined, s)
        | (Deadlock, s) => (Deadlock, s)
        | (NoFuel, s) => (NoFuel, s)
        end)).
  - split; [done|]. etrans; [exact Hs1|]. destruct a as [|t i|t i|t|]; try done.
    + apply (Hcheck (IndexTableId.col t) (InsertIndex t i) s1 I).
    + apply (Hcheck (ValueTableId.col t) (InsertValue t i) s1 I).
    + apply (IH s1 I).
  - intros col action. apply (validate_turn_keeps (validate_loop fuel)); [apply dkeeps_columns|done].
Qed.

Lemma validate_record_keeps : dkeeps validate_record.
Proof.
  unfold validate_record. apply keeps_get; [apply _|]. intros [d r] _.
  destruct (_ =? _); [|apply keeps_ret, _]. apply keeps_bind; [apply _|apply validate_loop_keeps|].
  intros []; keeps_tac.
Qed.

Lemma with_reader_keeps {A} r (m : ST DR A) : dkeeps m → qkeeps (with_reader r m).
Proof.
  intros Hm d _. unfold with_reader. destruct (Hm (d, r) I) as [_ [Hs1 Hs2 Hs3 Hs4 Hs5]].
  destruct (m (d, r)) as [o [d' r']]. by split.
Qed.

Lemma finish_record_keeps v r : qkeeps (finish_record v r).
Proof. unfold finish_record. keeps_tac. Qed.

(** From a state back to the code that runs on it. *)
Ltac as_keeps :=
  match goal with |- same_queue ?d (?m ?d).2 => let K := fresh "K" in assert (K : qkeeps m); [|exact (proj2 (K d I))] end.

Lemma enact_logs_keeps v : qkeeps (enact_logs v).
Proof.
  intros d _. split; [done|]. unfold enact_logs. destruct (qkeeps_log (read_next v) d I) as [_ Hs1].
  destruct (on_db_log (read_next v) d) as [[[r|]|e| | | |] d1]; try done; cbn [snd] in Hs1.
  - etrans; [exact Hs1|]. as_keeps. apply keeps_bind; [apply _| |].
    + destruct v; [apply with_reader_keeps, validate_record_keeps|apply keeps_ret, _].
    + intros [[] r1]; [|keeps_tac]. apply keeps_bind; [apply _|apply with_reader_keeps, enact_loop_keeps|].
      intros [u r2]. apply keeps_bind; [apply _|apply finish_record_keeps|]. intros u'. apply keeps_ret, _.
  - destruct e; try done. destruct v; [|done]. etrans; [exact Hs1|].
    as_keeps. apply keeps_bind; [apply _|auto with keeps|]. intros u. apply keeps_ret, _.
Qed.

Lemma flush_logs_keeps n : qkeeps (flush_logs n).
Proof.
  unfold flush_logs. apply keeps_bind; [apply _|auto with keeps|]. intros [[f r] c]. keeps_tac.
Qed.

Lemma each_column_keeps m : qkeeps (each_column m).
Proof.
  unfold each_column. apply keeps_get; [apply _|]. intros d _. generalize (seq 0 (length (db_columns d))) as l.
  induction l as [|i l IH]; cbn [for_each]; [apply keeps_ret, _|]. apply keeps_bind; [apply _| |done].
  apply qkeeps_fun. intros d'. destruct (db_columns d' !! i) as [c|]; [|done]. by destruct (m c).
Qed.

Lemma clean_logs_keeps : qkeeps db_clean_logs.
Proof.
  unfold db_clean_logs. apply keeps_get; [apply _|]. intros d _. destruct (_ <? _)%nat; [|apply keeps_ret, _].
  apply keeps_bind; [apply _| |auto with keeps]. destruct (sync_data (db_options d)); [apply each_column_keeps|apply keeps_ret, _].
Qed.

Lemma while_keeps fuel (m : ST DbInner bool) : qkeeps m → qkeeps (while_st fuel m).
Proof.
  intros Hm. induction fuel as [|fuel IH]; cbn [while_st]; [apply keeps_lift, _|].
  apply keeps_bind; [apply _|done|]. intros []; [done|apply keeps_ret, _].
Qed.

Lemma replay_all_logs_keeps : qkeeps replay_all_logs.
Proof.
  unfold replay_all_logs. apply keeps_get; [apply _|]. intros d _.
  apply keeps_bind; [apply _| |intros u; apply each_column_keeps].
  induction (S (length (replay_queue (db_log d)))) as [|fuel IH]; cbn [replay_files]; [apply keeps_lift, _|].
  apply keeps_bind; [apply _|auto with keeps|]. intros [id|]; [|apply keeps_ret, _].
  apply keeps_bind; [apply _| |done]. intros d1 _. apply (while_keeps _ _ (enact_logs_keeps true)). done.
Qed.

(** ** The queue and its overlay *)

Record queue_ok (d : DbInner) : Prop := {
  qo_overlay : overlay_ok (db_options d) (commit_overlay d) (commits (commit_queue d));
  qo_changes : Forall (fun c => changes_ok (db_options d) (length (commit_overlay d)) (changeset c))
    (commits (commit_queue d));
  qo_ids : NoDup (commit_id <$> commits (commit_queue d));
  qo_bound : Forall (fun c => commit_id c ≤ queue_record_id (commit_queue d) + 1) (commits (commit_queue d));
  qo_record : 0 ≤ queue_record_id (commit_queue d);
}.

Lemma queue_ok_same d d' : same_queue d d' → queue_ok d → queue_ok d'.
Proof. intros [E1 E2 E3 E4 E5] [Q1 Q2 Q3 Q4 Q5]. split; rewrite ?E1, ?E2, ?E3; done. Qed.

(** A commit is queued behind the others, with the next id. *)
Lemma commit_raw_queue cs d d' : queue_ok d → changes_ok (db_options d) (length (commit_overlay d)) cs →
  queue_record_id (commit_queue d) + 2 < 2 ^ 64 → commit_raw cs d = (Ok tt, d') →
  queue_ok d' ∧ bg_err d' = bg_err d ∧ db_options d' = db_options d ∧
  length (commit_overlay d') = length (commit_overlay d) ∧
  db_columns d' = db_columns d ∧ db_log d' = db_log d ∧
  ∃ b, commits (commit_queue d') =
    commits (commit_queue d) ++ [MkCommit (queue_record_id (commit_queue d) + 2) b cs].
Proof.
  intros [Q1 Q2 Q3 Q4 Q5] Hcs Hid. unfold commit_raw. destruct (_ <? _); [done|]. unfold commit_enqueue.
  destruct (bg_err d) eqn:Ebg; [done|]. cbn [queue_record_id commits queue_bytes].
  rewrite !(wrap64_small (queue_record_id (commit_queue d) + 1)), wrap64_small by (unfold is_u64; lia).
  rewrite <- Z.add_assoc. change (1 + 1) with 2.
  set (rid := queue_record_id (commit_queue d) + 2) in *.
  destruct (copy_commit_ok (db_options d) (commit_overlay d) (commits (commit_queue d)) cs rid Hcs Q1)
    as (ov & b & -> & Hlen & Hov).
  intros [= <-]. split_and!; [|done|done|done|done|done|by eexists]. split; cbn.
  - apply Hov.
  - apply Forall_app. split; [by rewrite Hlen|]. constructor; [|done]. by rewrite Hlen.
  - rewrite fmap_app. apply NoDup_app. split_and!; [done| |cbn; apply NoDup_singleton].
    intros id Hin Hn. cbn in Hn. apply list_elem_of_singleton in Hn as ->.
    apply list_elem_of_fmap in Hin as (c & Hc & Hin). rewrite Forall_forall in Q4. specialize (Q4 c Hin). lia.
  - apply Forall_app. split; [|constructor; [cbn; lia|done]]. eapply Forall_impl; [exact Q4|]. cbn. lia.
  - lia.
Qed.

(** The first commit leaves the queue together with its changes. *)
Lemma process_commits_queue d b d' : queue_ok d → process_commits d = (Ok b, d') →
  queue_ok d' ∧ bg_err d' = bg_err d ∧ db_options d' = db_options d ∧
  length (commit_overlay d') = length (commit_overlay d) ∧
  commits (commit_queue d') = tail (commits (commit_queue d)).
Proof.
  intros Hq. unfold process_commits. destruct (_ && _); [done|]. unfold process_next_commit, pop_commit.
  unfold mbind at 1, ST_bind at 1. destruct (commits (commit_queue d)) as [|c q] eqn:Eq.
  { intros [= _ <-]. by rewrite Eq. }
  set (d1 := set_commit_queue _ d). unfold mbind, ST_bind.
  destruct (log_record_keeps (plan_commit (changeset c)) d1 I) as [_ [E1 E2 E3 E4 E5]].
  destruct (log_record (plan_commit (changeset c)) d1) as [[[rid re]|e| | | |] d2]; try done.
  cbn [snd] in *. destruct Hq as [Q1 Q2 Q3 Q4 Q5]. rewrite Eq in Q1, Q2, Q3, Q4.
  apply Forall_cons in Q2 as [Hc Q2]. apply NoDup_cons in Q3 as [Hni Q3]. apply Forall_cons in Q4 as [_ Q4].
  destruct (clean_commit_ok (db_options d) (commit_overlay d) q c Hc Hni Q1) as (ov & Hclean & Hlen & Hov).
  unfold zoom. rewrite E2. cbn [d1 set_commit_queue commit_overlay]. rewrite Hclean.
  intros [= _ <-]. assert (Hsame : ∀ d0, same_queue d0 (if re then start_reindex rid d0 else d0)) by (by destruct re).
  destruct (Hsame (set_commit_overlay ov d2)) as [S1 S2 S3 S4 S5]. unfold modify_st. cbn [snd].
  split_and!; [|by rewrite S4|by rewrite S3|by rewrite S2|by rewrite S1; cbn; rewrite E1].
  split; rewrite ?S1, ?S2, ?S3; cbn; rewrite ?E1, ?E3; cbn; try done. by rewrite Hlen.
Qed.

(** ** Runs of the database *)

(** A client commits, a worker makes a turn; an error of a worker is stored. *)
Inductive db_step (d : DbInner) : DbInner → Prop :=
| step_commit cs d' : changes_ok (db_options d) (length (commit_overlay d)) cs →
    queue_record_id (commit_queue d) + 2 < 2 ^ 64 → commit_raw cs d = (Ok tt, d') → db_step d d'
| step_worker op b d' : run_worker op d = (Ok b, d') → db_step d d'
| step_error op e d' : run_worker op d = (Err e, d') → db_step d (store_err (Err e) d').

Lemma worker_err_kept op d : bg_err (run_worker op d).2 = bg_err d.
Proof.
  destruct op as [| |v|n|]; cbn [run_worker].
  - unfold process_commits. destruct (_ && _); [done|]. unfold process_next_commit, pop_commit.
    unfold mbind at 1, ST_bind at 1. destruct (commits (commit_queue d)) as [|c q]; [done|].
    set (d1 := set_commit_queue _ d). unfold mbind, ST_bind.
    destruct (log_record_keeps (plan_commit (changeset c)) d1 I) as [_ [E1 E2 E3 E4 E5]].
    destruct (log_record (plan_commit (changeset c)) d1) as [[[rid re]|e| | | |] d2]; try done.
    unfold zoom. destruct (clean_commit _ _ _) as [[u|e| | | |] ov]; try done. by destruct re.
  - by destruct (process_reindex_keeps d I) as [_ []].
  - by destruct (enact_logs_keeps v d I) as [_ []].
  - by destruct (flush_logs_keeps n d I) as [_ []].
  - by destruct (clean_logs_keeps d I) as [_ []].
Qed.

Lemma db_step_queue d d' : db_step d d' → (bg_err d = None → queue_ok d) → bg_err d' = None → queue_ok d'.
Proof.
  intros Hstep Hq Hbg. destruct Hstep as [cs d' Hcs Hid Hrun|op b d' Hrun|op e d' Hrun].
  - assert (Hb : bg_err d = None).
    { revert Hrun. unfold commit_raw. destruct (_ <? _); [done|]. unfold commit_enqueue. by destruct (bg_err d). }
    by apply (commit_raw_queue cs d d' (Hq Hb) Hcs Hid Hrun).
  - pose proof (worker_err_kept op d) as He. rewrite Hrun in He. cbn in He. specialize (Hq ltac:(congruence)).
    destruct op as [| |v|n|]; cbn [run_worker] in Hrun.
    + by apply (process_commits_queue d b d' Hq Hrun).
    + destruct (process_reindex_keeps d I) as [_ Hs]. rewrite Hrun in Hs. by eapply queue_ok_same.
    + destruct (enact_logs_keeps v d I) as [_ Hs]. rewrite Hrun in Hs. by eapply queue_ok_same.
    + destruct (flush_logs_keeps n d I) as [_ Hs]. rewrite Hrun in Hs. by eapply queue_ok_same.
    + destruct (clean_logs_keeps d I) as [_ Hs]. rewrite Hrun in Hs. by eapply queue_ok_same.
  - exfalso. revert Hbg. unfold store_err. destruct (bg_err d') eqn:E; [congruence|]. done.
Qed.

(** ** A database that was just opened *)

Context `{!Hex}.

Lemma db_open_queue options random inner dir d dir' : db_open options random inner dir = (Ok d, dir') →
  commit_queue d = MkCommitQueue 0 0 [] ∧ bg_err d = None ∧
  commit_overlay d = replicate (length (commit_overlay d)) CommitOverlay.new.
Proof.
  unfold db_open. intros Hrun.
  repeat match type of Hrun with (_ ≫= _) _ = _ => apply ST_bind_inv in Hrun as (? & ? & _ & Hrun) end.
  injection Hrun as <- _. cbn. by rewrite length_replicate.
Qed.

Lemma open_inner_queue options random inner dir d dir' : open_inner options random inner dir = (Ok d, dir') →
  queue_ok d ∧ bg_err d = None.
Proof.
  intros Hrun. unfold open_inner in Hrun. apply ST_bind_inv in Hrun as (u & s1 & _ & Hrun).
  apply ST_bind_inv in Hrun as (d0 & s2 & Hopen & Hrun). apply db_open_queue in Hopen as (Hq & Hbg & Hov).
  unfold lift_st in Hrun. destruct (replay_all_logs_keeps d0 I) as [_ Hs].
  destruct (replay_all_logs d0) as [[x|e| | | |] d1]; try done. cbn in Hrun. injection Hrun as <- _.
  cbn [snd] in Hs. split; [|by rewrite (sq_err _ _ Hs)]. apply (queue_ok_same d0 d1 Hs).
  split; rewrite Hq; cbn; try done; [|constructor]. intros i o Ho. rewrite Hov in Ho.
  apply lookup_replicate in Ho as [-> _]. split; [|done]. intros k. apply lookup_empty.
Qed.

End Steps.
