(* ===== verification/DbPipeline.v ===== *)
(** * The workers behind the log

    What waits in the log is enacted, log files are flushed and cleaned; the
    database holds the same maps all the while (src/src/db.rs). *)

From S2P Require Import Prelude.
From S2P Require Import Bytes.
From S2P Require Import Ids.
From S2P Require Import File.
From S2P Require Import Log.
From S2P Require Import LogProofs.
From S2P Require Import LogState.
From S2P Require Import LogStateProofs.
From S2P Require Import LogReplay.
From S2P Require Import LogPending.
From S2P Require Import Table.
From S2P Require Import TableStore.
From S2P Require Import TableEnact.
From S2P Require Import Index.
From S2P Require Import IndexEnact.
From S2P Require Import Compress.
From S2P Require Import Stats.
From S2P Require Import Options.
From S2P Require Import Column.
From S2P Require Import HashColumn.
From S2P Require Import ColumnTables.
From S2P Require Import ColumnMap.
From S2P Require Import ColumnEnact.
From S2P Require Import ColumnPending.
From S2P Require Import BTreeNode.
From S2P Require Import BTree.
From S2P Require Import Overlay.
From S2P Require Import Db.
From S2P Require Import DbOverlay.
From S2P Require Import DbSteps.
From S2P Require Import DbColumns.
From S2P Require Import DbEnact.
From S2P Require Import DbRefine.
From stdpp Require Import options.
#[local] Set Default Proof Using "Type*".

Section Pipeline.
Context `{!Uninit, !Codecs, !CodecLaws, !HashMapOrder, !Crc32, !Blake2}.

Abbreviation cols_of d := (cols_repr (db_options d) (db_version d)).
Abbreviation log_view d := (LogWriter.new (lg_overlays (db_log d)) 0).

(** A worker that leaves the queue alone and the maps of the columns. *)
Lemma db_repr_log d d' M : db_repr d M → same_queue d d' → cols_of d (db_columns d') (log_view d') M →
  log_ok (db_log d') → (∃ E P, pipeline (db_columns d') (db_log d') E P) →
  db_repr d' M ∧ ∀ i, committed d' M i = committed d M i.
Proof.
  intros [D1 D2 D3 D4 D5 D6 D7 D8 D9] [Q1 Q2 Q3 Q4 Q5] Hc Hlog Hp. split.
  - split; rewrite ?Q1, ?Q2, ?Q3, ?Q5; try done. rewrite D2, (proj1 D1). symmetry. apply Hc.
  - intros i. unfold committed. by rewrite Q1, Q3.
Qed.

(** ** The commit worker *)

(** A turn enacts a record, after which less of the file is unread, or finds the
    reader at the end of its file. *)
Record enact_progress (d : DbInner) (b : bool) (d' : DbInner) : Prop := {
  ep_reader : reader_ok (db_log d) → reader_ok (db_log d');
  ep_idle : b = false → reader_ok (db_log d) → reading_state (db_log d') = Idle;
  ep_unread : b = true → (unread (db_log d') < unread (db_log d))%nat;
}.

Lemma enact_step d M : db_repr d M →
  ∃ b d', enact_logs false d = (Ok b, d') ∧ db_repr d' M ∧ same_queue d d' ∧ (∀ i, committed d' M i = committed d M i) ∧
    enact_progress d b d'.
Proof.
  intros Hd. destruct (dr_pipeline _ _ Hd) as (E0 & P0 & Hp0).
  enough (∃ b d', enact_logs false d = (Ok b, d') ∧ cols_of d (db_columns d') (log_view d') M ∧ log_ok (db_log d') ∧
    (∃ E P, pipeline (db_columns d') (db_log d') E P) ∧ enact_progress d b d') as (b & d' & Hrun & Hc & Hlog & Hp & Hpr).
  { exists b, d'. pose proof (enact_logs_keeps false d I) as [_ Hs]. rewrite Hrun in Hs. cbn [snd] in Hs.
    destruct (db_repr_log d d' M Hd Hs Hc Hlog Hp). by split_and!. }
  pose proof (dr_cols _ _ Hd) as Hcols. pose proof (cols_repr_at _ _ _ _ _ Hcols) as Hat.
  unfold enact_logs, on_db_log at 1, zoom.
  assert (Hnx : next_record_id (db_log d) ≤ 2 ^ 64) by (pose proof (pl_next _ _ _ _ Hp0) as Hn; unfold is_u64 in Hn; lia).
  destruct (read_next_cases (db_log d) E0 P0 (pl_log _ _ _ _ Hp0) Hnx) as
    [(l' & Hrun & Hlp & Hok & Hov & Hn & Hidle)|(x & P & r & l1 & -> & Hrun & [(f & pos & Har) Hend])]; rewrite Hrun.
  - eexists _, _. split; [reflexivity|]. cbn. split_and!; [by rewrite Hov|apply Hok; apply Hd| |].
    + exists E0, P0. destruct Hp0 as [_ H1' H2' H3' H4']. split; [done..|by rewrite Hn|done].
    + split; [intros Hr; left; by apply Hidle|by intros _|done].
  - destruct (enact_record_ok _ Hat (set_log l1 d) x [] (db_columns d) ltac:(constructor)
      (first_ready _ _ _ _ _ _ _ _ _ Hcols Hp0) (cols_enacted_nil _ Hat) false f pos r Har) as (l & r' & Hloop & Hen & Hlo).
    destruct (Hend r') as (l2 & Hend2 & Hlp & Hok2 & Hn2 & Hun & Hrd).
    { apply (lo_pos _ _ _ Hlo). }
    { rewrite (lo_cleared _ _ _ Hlo). by rewrite (ar_cleared _ _ _ _ _ Har). }
    destruct (record_enacted_repr _ _ _ _ M _ x E0 P Hcols Hp0 l l2 0 eq_refl Hen Hlp Hn2) as [Hc Hp].
    eexists true, _. split_and!.
    + erewrite ST_bind_Ok by done. cbv beta iota. erewrite ST_bind_Ok.
      2: { unfold with_reader. replace (set_log l1 d) with (set_columns (db_columns d) (set_log l1 d)) by (by destruct d).
           rewrite Hloop. by cbn [outcome_bind]. }
      cbv beta iota. erewrite ST_bind_Ok; [reflexivity|].
      unfold finish_record. erewrite ST_bind_Ok by done.
      rewrite (lo_record _ _ _ Hlo), (ar_id _ _ _ _ _ Har). erewrite ST_bind_Ok; [reflexivity|].
      unfold on_db_log, zoom. cbn [db_log set_last_enacted set_log set_columns]. by rewrite Hend2.
    + exact Hc.
    + apply Hok2, Hd.
    + by exists (E0 ++ [x]), P.
    + split; [by intros _|done|by intros _].
Qed.

Lemma enact_ok d M : db_repr d M →
  ∃ b d', enact_logs false d = (Ok b, d') ∧ db_repr d' M ∧ same_queue d d' ∧ ∀ i, committed d' M i = committed d M i.
Proof. intros Hd. destruct (enact_step d M Hd) as (b & d' & H'). exists b, d'. tauto. Qed.

(** ** The flush worker *)

(** It waits while a file is flushing and another one is read. *)
Definition flush_ready (d : DbInner) : Prop := flushing (db_log d) = None ∨ reading_state (db_log d) = Idle.

Lemma flush_ok d M n : db_repr d M → flush_ready d →
  ∃ b d', flush_logs n d = (Ok b, d') ∧ db_repr d' M ∧ same_queue d d' ∧ ∀ i, committed d' M i = committed d M i.
Proof.
  intros Hd Hr. destruct (dr_pipeline _ _ Hd) as (E & P & Hp).
  destruct (flush_one_pending (db_log d) E P n (pl_log _ _ _ _ Hp) Hr) as ([[a b] c] & l & Hrun & Hlp & Hov & Hn).
  assert (Hsame : ∀ d', same_queue d d' → db_columns d' = db_columns d → db_log d' = l →
    db_repr d' M ∧ same_queue d d' ∧ ∀ i, committed d' M i = committed d M i).
  { intros d' Hs Hc Hl. enough (db_repr d' M ∧ ∀ i, committed d' M i = committed d M i) by tauto.
    apply db_repr_log; [done|done| | |]; rewrite ?Hc, ?Hl.
    - rewrite Hov. apply Hd.
    - pose proof (flush_one_ok n (db_log d) (dr_log _ _ Hd)) as Hok. by rewrite Hrun in Hok.
    - exists E, P. destruct Hp as [_ H1' H2' H3' H4']. split; [done..|by rewrite Hn|done]. }
  unfold flush_logs. erewrite ST_bind_Ok by (unfold on_db_log, zoom; by rewrite Hrun).
  cbv beta iota. do 2 erewrite ST_bind_Ok by done. eexists _, _. split; [reflexivity|].
  apply Hsame; by destruct b, c.
Qed.

(** ** The cleanup worker *)

Lemma flush_enacted t : file_ok t → enacted t ∅ (Table.flush t).2 ∧ (Table.flush t).1 = Ok tt.
Proof. intros Hok. split; [|done]. split; [by eexists|done..]. Qed.

Lemma each_table_flush l : each_table Table.flush l = (Ok tt, (fun t => (Table.flush t).2) <$> l).
Proof. induction l as [|t l IH]; [done|]. cbn [each_table fmap list_fmap]. unfold Table.flush at 1. cbn. by rewrite IH. Qed.

(** A flushed column is the column after no entry was enacted. *)
Lemma column_flush_enacted c : column_wf c → ∃ c', column_flush c = (Ok tt, c') ∧ col_enacted c [] c'.
Proof.
  intros [Ht Hm]. unfold column_flush. rewrite each_table_flush. eexists. split; [done|].
  split; cbn [hc_values set_hc_values hc_index]; try done.
  - eexists _, (hc_index c). by destruct c.
  - by rewrite length_fmap.
  - intros i t0 Hi. rewrite list_lookup_fmap, Hi. eexists. split; [done|]. apply flush_enacted. by apply (Ht i).
Qed.

Lemma each_column_ok (m : ST Column unit) (f : Column → Column) (l : list Column) d :
  (∀ col, col ∈ l → m col = (Ok tt, f col)) → db_columns d = l → each_column m d = (Ok tt, set_columns (f <$> l) d).
Proof using Type.
  intros Hm Hd. unfold each_column. erewrite ST_bind_Ok by done. rewrite Hd.
  set (run := fun i d => match db_columns d !! i with
    | Some c => let '(o, c) := m c in (o, set_columns (<[i := c]> (db_columns d)) d) | None => (Panic, d) end).
  enough (Hgen : ∀ n k d, (k + n = length l)%nat → db_columns d = (f <$> take k l) ++ drop k l →
    for_each run (seq k n) d = (Ok tt, set_columns (f <$> l) d)) by (by apply Hgen).
  clear d Hd. induction n as [|n IH]; intros k d Hk Hd; cbn [seq for_each].
  - rewrite take_ge, drop_ge, app_nil_r in Hd by lia. rewrite <- Hd. by destruct d.
  - destruct (lookup_lt_is_Some_2 l k) as [col Hcol]; [lia|].
    assert (Hlen : length (f <$> take k l) = k) by (rewrite length_fmap, length_take; lia).
    rewrite (drop_S _ _ _ Hcol) in Hd. erewrite ST_bind_Ok.
    2: { unfold run. rewrite Hd, lookup_app_r, Hlen, Nat.sub_diag by lia. cbn [lookup list_lookup].
         by rewrite Hm by (by eapply list_elem_of_lookup_2). }
    rewrite (IH (S k)); [done|lia|]. cbn [db_columns set_columns].
    rewrite (take_S_r _ _ _ Hcol), fmap_app, <- (assoc_L (++)), insert_app_r_alt, Hlen, Nat.sub_diag by lia. done.
Qed.

Lemma flush_columns l : columns_at l →
  ∃ l', cols_enacted l [] l' ∧ ∀ d, db_columns d = l → each_column any_flush d = (Ok tt, set_columns l' d).
Proof.
  intros Hl. set (f := fun col => (any_flush col).2). exists (f <$> l).
  assert (Hf : ∀ i col, l !! i = Some col → ∃ c c', col = Hash c ∧ any_flush col = (Ok tt, Hash c') ∧ col_enacted c [] c').
  { intros i col Hi. destruct (Hl _ _ Hi) as (c & -> & Hc).
    destruct (column_flush_enacted c) as (c' & Hrun & Hen); [apply Hc|].
    exists c, c'. cbn [any_flush]. by rewrite Hrun. }
  split; [split; [by rewrite length_fmap|]|].
  - intros i c0 Hi. destruct (Hf i _ Hi) as (c & c' & [= <-] & Hrun & Hen). exists c'.
    rewrite list_lookup_fmap, Hi. cbn. unfold f. by rewrite Hrun.
  - intros d. apply each_column_ok. intros col [i Hi]%list_elem_of_lookup. unfold f.
    by destruct (Hf i _ Hi) as (c & c' & -> & -> & _).
Qed.

Lemma entries_left_refl col w : entries_left col [] w w.
Proof.
  split; try (intros ? ? ?; by left); try (by intros ? ? ? ?%not_elem_of_nil); by intros ? ? ? ? ? ? ?%not_elem_of_nil || intros ? ? ? ? ?%not_elem_of_nil.
Qed.

Lemma flush_each_ok d M : db_repr d M →
  ∃ l, each_column any_flush d = (Ok tt, set_columns l d) ∧ cols_of d l (log_view d) M ∧
    static_columns (db_columns d) l ∧ columns_clean l.
Proof.
  intros Hd. destruct (dr_pipeline _ _ Hd) as (E & P & Hp).
  pose proof (dr_cols _ _ Hd) as Hcols. pose proof (cols_repr_at _ _ _ _ _ Hcols) as Hat.
  destruct (flush_columns _ Hat) as (l & Hen & Hrun). exists l. split_and!; [by apply Hrun| | |].
  - eapply cols_enacted_repr; [exact Hat|exact Hcols|exact Hen|]. intros i c0 _.
    split; [by intros n m ch ?%not_elem_of_nil|apply entries_left_refl].
  - by eapply cols_enacted_static.
  - eapply cols_enacted_clean; [exact Hat|exact Hen|apply Hp].
Qed.

(** Log files are cleaned; the columns were flushed or not. *)
Lemma clean_files_ok d M l n : db_repr d M → cols_of d l (log_view d) M → static_columns (db_columns d) l →
  columns_clean l → (n ≤ length (cleanup_queue (db_log d)))%nat →
  ∃ b lg, LogState.clean_logs n (db_log d) = (Ok b, lg) ∧ cleanup_queue lg = drop n (cleanup_queue (db_log d)) ∧
    reading_state lg = reading_state (db_log d) ∧ let d' := set_log lg (set_columns l d) in
    db_repr d' M ∧ same_queue d d' ∧ ∀ i, committed d' M i = committed d M i.
Proof.
  intros Hd Hcols Hst Hcl Hn. destruct (dr_pipeline _ _ Hd) as (E & P & Hp).
  destruct (clean_logs_pending (db_log d) E P n (dr_log _ _ Hd) (pl_log _ _ _ _ Hp) Hn) as
    (b & lg & D & E' & Hclean & Hok & -> & Hlp & Hov & Hnx & Hc & Hr).
  exists b, lg. split_and!; [done..|]. cbv zeta. assert (Hs : same_queue d (set_log lg (set_columns l d))) by (by split).
  destruct (db_repr_log d _ M Hd Hs) as [Hd' Hcm]; [| | |by split_and!]; cbn [db_columns db_log set_log set_columns].
  - by rewrite Hov.
  - done.
  - exists E', P. assert (Hnl : is_u64 (next_record_id lg)) by (rewrite Hnx; apply Hp).
    eapply pipeline_clean; [done|done|]. eapply pipeline_static; [done|done|apply Hp|apply Hp|exact Hp].
Qed.

Lemma clean_ok d M : db_repr d M →
  ∃ b d', db_clean_logs d = (Ok b, d') ∧ db_repr d' M ∧ same_queue d d' ∧ ∀ i, committed d' M i = committed d M i.
Proof.
  intros Hd. unfold db_clean_logs. erewrite ST_bind_Ok by done.
  set (keep := if sync_data (db_options d) then 0%nat else KEEP_LOGS).
  destruct (Nat.ltb_spec keep (num_dirty_logs (db_log d))) as [Hlt|_]; [|by eexists _, d].
  assert (Hflush : ∃ l, (if sync_data (db_options d) then each_column any_flush else mret tt) d = (Ok tt, set_columns l d) ∧
    cols_of d l (log_view d) M ∧ static_columns (db_columns d) l ∧ columns_clean l).
  { destruct (sync_data (db_options d)); [by apply flush_each_ok|]. destruct (dr_pipeline _ _ Hd) as (E & P & Hp).
    exists (db_columns d). split_and!; [by destruct d|apply Hd| |apply Hp]. split; [done|]. intros i c Hi. exists c.
    split; [done|]. split; eauto 10. }
  destruct Hflush as (l & Hrun & Hcols & Hst & Hcl). erewrite ST_bind_Ok by exact Hrun.
  destruct (clean_files_ok d M l (num_dirty_logs (db_log d) - keep) Hd Hcols Hst Hcl) as (b & lg & Hclean & _ & _ & Hd');
    [unfold num_dirty_logs; lia|].
  eexists _, _. split; [unfold on_db_log, zoom; cbn [db_log set_columns]; by rewrite Hclean|]. exact Hd'.
Qed.

(** ** The reindex turn of the log worker *)

(** No column has an index that waits to be reindexed. *)
Lemma reindex_columns_none tiers : ∀ d M, cols_of d (db_columns d) (log_view d) M →
  Forall (fun i => (i < length (db_columns d))%nat) tiers →
  reindex_columns tiers d = (Ok false, set_next_reindex 0 d).
Proof.
  induction tiers as [|i tiers IH]; intros d M Hd Hlt; cbn [reindex_columns]; [done|].
  apply Forall_cons in Hlt as [Hi Hlt]. erewrite ST_bind_Ok by done.
  destruct (lookup_lt_is_Some_2 _ _ Hi) as [col Hcol]. destruct (proj2 Hd _ _ Hcol) as (c & -> & _ & SS & Hinv & _).
  rewrite Hcol. erewrite ST_bind_Ok.
  2: { unfold column_reindex, mbind, ST_bind, get_st. rewrite (ci_queue _ _ _ Hinv). reflexivity. }
  cbn [batch length Nat.eqb negb drop_index_id orb]. rewrite bool_decide_false by (by intros []).
  rewrite list_insert_id by done. replace (set_columns (db_columns d) d) with d by (by destruct d). by eapply IH.
Qed.

Lemma reindex_ok d M : db_repr d M →
  ∃ d', process_reindex d = (Ok false, d') ∧ db_repr d' M ∧ same_queue d d' ∧ ∀ i, committed d' M i = committed d M i.
Proof.
  intros Hd. unfold process_reindex. erewrite ST_bind_Ok by done. destruct (_ || _).
  { exists d. by split_and!. }
  eexists. split; [apply (reindex_columns_none _ d M (dr_cols _ _ Hd))|].
  { apply Forall_forall. intros i Hi%elem_of_seq. lia. }
  assert (Hs : same_queue d (set_next_reindex 0 d)) by (by split).
  destruct (db_repr_log d _ M Hd Hs (dr_cols _ _ Hd) (dr_log _ _ Hd) (dr_pipeline _ _ Hd)). by split_and!.
Qed.

End Pipeline.
