(* ===== verification/DbRecover.v ===== *)
(** * Recovery after a crash

    A process that dies leaves the metadata, the table and index files of its
    columns and the log files. Opening the directory again replays the log
    (src/src/db.rs): the database that is opened holds everything that was in
    the log or the tables. *)

From S2P Require Import Prelude.
From S2P Require Import Bytes.
From S2P Require Import Ids.
From S2P Require Import File.
From S2P Require Import Log.
From S2P Require Import LogProofs.
From S2P Require Import LogState.
From S2P Require Import LogStateProofs.
From S2P Require Import LogReplay.
From S2P Require Import LogPending.
From S2P Require Import LogCrash.
From S2P Require Import Table.
From S2P Require Import TableSpec.
From S2P Require Import TableRefine.
From S2P Require Import TableStore.
From S2P Require Import TableEnact.
From S2P Require Import Index.
From S2P Require Import IndexProofs.
From S2P Require Import IndexEnact.
From S2P Require Import Compress.
From S2P Require Import Stats.
From S2P Require Import Options.
From S2P Require Import OptionsThms.
From S2P Require Import Column.
From S2P Require Import HashColumn.
From S2P Require Import ColumnTables.
From S2P Require Import ColumnProofs.
From S2P Require Import ColumnMap.
From S2P Require Import ColumnEnact.
From S2P Require Import Frames.
From S2P Require Import ColumnPending.
From S2P Require Import ColumnSession.
From S2P Require Import ColumnRecover.
From S2P Require Import BTreeNode.
From S2P Require Import BTree.
From S2P Require Import Overlay.
From S2P Require Import Db.
From S2P Require Import DbOpen.
From S2P Require Import DbOverlay.
From S2P Require Import DbColumns.
From S2P Require Import DbEnact.
From S2P Require Import DbReplay.
From S2P Require Import DbRefine.
From S2P Require Import DbPipeline.
From stdpp Require Import options.
#[local] Set Default Proof Using "Type*".

(** ** What is left in the directory *)

(** The files of the columns are in the directory. *)
Definition files_left (l : list Column) (values : ColId → nat → option bytes) (index : ColId → Z → option IndexMap) : Prop :=
  (∀ col k, values col k = left_values l col k) ∧ (∀ col b, index col b = left_index l col b).

(** The directory of a database of which no process has the lock any more;
    [logs] are the log files as [read_dir] lists them. *)
Definition left_dir `{!Hex} (d : DbInner) (logs : list (Z * bytes)) : Dir :=
  MkDir true false
    (Some (Options.write_metadata_with_version (db_options d) (default [] (salt_opt (db_options d))) (Some (db_version d))))
    logs (left_values (db_columns d)) (left_index (db_columns d)).

(** ** Statistics that can be read *)

Definition takes {A} (n : nat) (m : ST bytes A) : Prop :=
  ∀ data, (n ≤ length data)%nat → ∃ a, m data = (Ok a, drop n data).

Lemma takes_ret {A} (a : A) : takes 0 (mret a).
Proof. intros data _. by exists a. Qed.
Lemma takes_bind {A B} n k (m : ST bytes A) (f : A → ST bytes B) : takes n m → (∀ a, takes k (f a)) → takes (n + k) (a ← m; f a).
Proof.
  intros Hm Hf data Hd. destruct (Hm data) as [a Ha]; [lia|]. erewrite ST_bind_Ok by exact Ha.
  destruct (Hf a (drop n data)) as [b Hb]; [rewrite length_drop; lia|]. exists b. by rewrite Hb, drop_drop.
Qed.
Lemma takes_cursor n : takes n (cursor_read n).
Proof. intros data Hd. unfold cursor_read. rewrite (proj2 (Nat.leb_le _ _) Hd). by eexists. Qed.
Lemma takes_i64 : takes 8 read_i64.
Proof. apply (takes_bind 8 0); [apply takes_cursor|intros; apply takes_ret]. Qed.
Lemma takes_array n (m : ST bytes Z) k : takes n m → takes (k * n) (read_array k m).
Proof.
  intros Hm. induction k as [|k IH]; [apply takes_ret|]. cbn [read_array].
  apply (takes_bind n (k * n)); [done|]. intros z. rewrite <- (Nat.add_0_r (k * n)).
  apply takes_bind; [exact IH|]. intros l. apply takes_ret.
Qed.

Lemma takes_stats : takes TOTAL_SIZE ColumnStats.read_stats.
Proof.
  unfold ColumnStats.read_stats.
  change TOTAL_SIZE with
    (HISTOGRAM_BUCKETS * 4 + (SIZE_TIERS * 8 + (8 + (8 + (8 + (8 + (8 + (8 + (8 + (8 + (8 + (8 + (8 + (HISTOGRAM_BUCKETS * 8 + 0))))))))))))))%nat.
  apply takes_bind; [apply takes_array, takes_cursor|intros ?].
  apply takes_bind; [apply takes_array, takes_cursor|intros ?].
  do 11 (apply takes_bind; [apply takes_cursor|intros ?]).
  apply takes_bind; [apply takes_array, takes_i64|intros ?]. apply takes_ret.
Qed.

Lemma stats_fit : (HEADER_SIZE + TOTAL_SIZE ≤ META_SIZE)%nat.
Proof. apply Nat.leb_le. vm_compute. reflexivity. Qed.

Lemma load_stats_ok t : stats_size t → ∃ s, load_stats t = Ok s.
Proof.
  intros Hs. pose proof stats_fit. unfold load_stats. destruct (it_map t) as [mp|] eqn:Em; [|by eexists]. specialize (Hs mp Em).
  rewrite slice_Ok by (rewrite Hs; lia). rewrite outcome_bind_Ok.
  destruct (takes_stats (take (HEADER_SIZE + TOTAL_SIZE - HEADER_SIZE) (drop HEADER_SIZE (im_stats mp)))) as [s Hr].
  { rewrite length_take, length_drop, Hs. lia. }
  exists s. unfold ColumnStats.from_slice. by rewrite Hr.
Qed.

(** ** Opening a column *)

Lemma index_id_eta t : is_u16 (IndexTableId.as_u16 t) → IndexTableId.new (IndexTableId.col t) (IndexTableId.index_bits t) = t.
Proof.
  destruct t as [z]. unfold IndexTableId.new, IndexTableId.col, IndexTableId.index_bits, IndexTableId.as_u16.
  cbn [index_table_u16]. intros Hz. f_equal. unfold is_u16 in Hz.
  assert (Hd : 0 ≤ z / 2 ^ 8 < 2 ^ 8) by (split; [apply Z.div_pos|apply Z.div_lt_upper_bound]; lia).
  pose proof (Z.mod_pos_bound z (2 ^ 8) ltac:(lia)) as Hm. change 0xff with (Z.ones 8).
  rewrite Z.land_ones, Z.shiftr_div_pow2 by lia. unfold wrap8. rewrite !(Z.mod_small _ (2 ^ 8)) by lia.
  rewrite wrap16_shiftl8 by done. rewrite Z.shiftl_mul_pow2 by lia.
  assert (Hor : Z.lor (z / 2 ^ 8 * 2 ^ 8) (z mod 2 ^ 8) = z / 2 ^ 8 * 2 ^ 8 + z mod 2 ^ 8).
  { rewrite <- Z.lxor_lor; [symmetry; apply Z.add_nocarry_lxor|]; rewrite <- Z.land_ones by lia;
      apply Z.bits_inj'; intros n Hn; rewrite !Z.land_spec, Z.bits_0, <- Z.shiftl_mul_pow2, Z.shiftl_spec, Z.testbit_ones_nonneg by lia;
      (destruct (Z.ltb_spec n 8); [rewrite Z.testbit_neg_r by lia|]); by rewrite ?andb_false_r. }
  rewrite Hor. pose proof (Z.div_mod z (2 ^ 8) ltac:(lia)). lia.
Qed.

Lemma open_index_none files col bs : ∀ top re st, (∀ b, b ∈ bs → files b = None) →
  open_index_loop files col bs top re st = Ok (top, re, st).
Proof.
  induction bs as [|b bs IH]; intros top re st Hf; [done|]. cbn [open_index_loop]. unfold open_existing.
  rewrite Hf by (by left). cbn. apply IH. intros b' Hb'. apply Hf. by right.
Qed.

Lemma open_index_one files col bs : ∀ B mp s, NoDup bs → B ∈ bs → files B = Some mp → (∀ b, b ≠ B → files b = None) →
  load_stats (MkIndexTable (IndexTableId.new col B) (Some mp)) = Ok s →
  open_index_loop files col bs None [] ColumnStats.empty = Ok (Some (MkIndexTable (IndexTableId.new col B) (Some mp)), [], s).
Proof.
  induction bs as [|b bs IH]; intros B mp s Hnd HB Hf Hno Hs; [by apply not_elem_of_nil in HB|].
  apply NoDup_cons in Hnd as [Hni Hnd]. cbn [open_index_loop]. unfold open_existing. destruct (decide (b = B)) as [->|Hne].
  - rewrite Hf. cbn [fmap option_fmap option_map]. rewrite Hs, outcome_bind_Ok. apply open_index_none.
    intros b' Hb'. apply Hno. by intros ->.
  - rewrite Hno by done. cbn [fmap option_fmap option_map]. apply (IH B mp s); try done. by apply elem_of_cons in HB as [<-|?].
Qed.

Section Open.
Context `{!Uninit, !Codecs, !CodecLaws, !HashMapOrder, !Crc32, !Blake2, !Hex, !HexLaws}.

(** What opening relies on. *)
Record openable (options : Options) (version : Z) (i : nat) (c : HashColumn) : Prop := {
  ob_at : column_at i c;
  ob_of : column_of options version i c;
  ob_queue : hc_queue c = [];
  ob_shape : ∀ k t, hc_values c !! k = Some t → ref_counted t = hc_ref_counted c ∧
    (multipart t, entry_size t) = match SIZES !! k with Some s => (false, s) | None => (true, 4096) end;
  ob_stats : stats_size (hc_index c);
  ob_mapped : MIN_INDEX_BITS ≤ bits (hc_index c) ∧ (is_Some (it_map (hc_index c)) ∨ bits (hc_index c) = MIN_INDEX_BITS);
}.

Lemma open_index_left options version i c l index : openable options version i c → l !! i = Some (Hash c) →
  (∀ b, index b = left_index l (Z.of_nat i) b) → ∃ s, open_index index (Z.of_nat i) = Ok (hc_index c, [], s).
Proof.
  intros [Hat Hof Hq _ Hst [Hmin Hmap]] Hl Hfile. unfold open_index.
  assert (Hid : it_id (hc_index c) = IndexTableId.new (Z.of_nat i) (bits (hc_index c))).
  { rewrite <- (ca_index _ _ Hat). symmetry. apply index_id_eta, Hat. }
  assert (Hfiles : ∀ b, index b = if decide (bits (hc_index c) = b) then it_map (hc_index c) else None).
  { intros b. rewrite Hfile. unfold left_index. rewrite Nat2Z.id, Hl. cbn [mbind option_bind column_indexes]. rewrite Hq.
    cbn [list_find]. by destruct (decide (bits (hc_index c) = b)). }
  destruct (it_map (hc_index c)) as [mp|] eqn:Em.
  - destruct (load_stats_ok (hc_index c) Hst) as [s Hs]. exists s.
    rewrite (open_index_one _ _ _ (bits (hc_index c)) mp s).
    + rewrite outcome_bind_Ok. cbv beta iota. cbn [default]. rewrite <- Hid, <- Em. by destruct (hc_index c).
    + rewrite reverse_Permutation. apply NoDup_seqZ.
    + rewrite reverse_Permutation. apply elem_of_seqZ. pose proof (ca_bits _ _ Hat) as Hb. unfold bits_ok, MIN_INDEX_BITS in *. lia.
    + by rewrite Hfiles, decide_True.
    + intros b Hb. by rewrite Hfiles, decide_False by congruence.
    + rewrite <- Hid, <- Em. by destruct (hc_index c).
  - destruct Hmap as [[? ?]|Hb]; [done|]. exists ColumnStats.empty.
    rewrite open_index_none by (intros b _; rewrite Hfiles; by destruct (decide _)).
    rewrite outcome_bind_Ok. cbv beta iota. cbn [default]. unfold create_new. rewrite <- Hb, <- Hid, <- Em. by destruct (hc_index c).
Qed.

Lemma open_tables_left options version i c l o values : openable options version i c → l !! i = Some (Hash c) →
  (∀ k, values k = left_values l (Z.of_nat i) k) →
  hc_ref_counted c = ref_counted_opt o → ∀ tiers, (∀ k, k ∈ tiers → (k < SIZE_TIERS)%nat) →
  ∃ ts, open_tables values (Z.of_nat i) o version tiers = Ok ts ∧
    Forall2 (fun k t1 => ∃ t, hc_values c !! k = Some t ∧ reopened t version t1) tiers ts.
Proof.
  intros [Hat Hof _ Hsh _ _] Hl Hfile Hrc tiers. induction tiers as [|k tiers IH]; intros Hk; [by exists []|].
  destruct IH as (ts & Hts & HF); [intros j Hj; apply Hk; by right|]. cbn [open_tables]. unfold open_table.
  assert (Hlt : (k < SIZE_TIERS)%nat) by (apply Hk; by left).
  destruct (lookup_lt_is_Some_2 (hc_values c) k) as [t Ht]; [by rewrite (ca_len _ _ Hat)|].
  destruct (cw_tables _ (ca_wf _ _ Hat) _ _ Ht) as (Hwf & _ & Hok). destruct (Hsh _ _ Ht) as [Hr Hs].
  destruct (open_reopened t version (SIZES !! k) Hwf Hok Hs) as (t1 & Hopen & Hre).
  assert (Hw : wrap8 (Z.of_nat k) = Z.of_nat k) by (unfold wrap8; rewrite Z.mod_small; [done|unfold SIZE_TIERS in Hlt; lia]).
  assert (Hv : values k = file (vt_file t)).
  { rewrite Hfile. unfold left_values. rewrite Nat2Z.id, Hl. cbn [mbind option_bind column_tables]. by rewrite Ht. }
  rewrite Hw, Hv, <- Hrc, <- Hr, <- (ca_col _ _ Hat), <- (ca_ids _ _ Hat _ _ Ht), Hopen, outcome_bind_Ok.
  rewrite (ca_col _ _ Hat), Hts, outcome_bind_Ok. exists (t1 :: ts). split; [done|]. constructor; [by exists t|done].
Qed.

Lemma open_column_left options version salt i c l : openable options version i c → l !! i = Some (Hash c) →
  salt_opt options = Some salt → ∀ dir, files_left l (dir_values dir) (dir_index dir) →
  ∃ c1, any_open dir (wrap8 (Z.of_nat i)) options (MkMetadata salt version (columns options)) = Ok (Hash c1) ∧
    col_reopened c version c1 ∧ column_of options version i c1.
Proof.
  intros Hob Hl Hsalt dir [Hdv Hdi]. pose proof Hob as [Hat [C1 C2 C3 (o & Ho & Hbt & O1 & O2 & O3 & O4) C5 C6 C7] _ _ _ _].
  assert (Hi : is_u8 (Z.of_nat i)) by (rewrite <- C1; apply Hat).
  assert (Hw : wrap8 (Z.of_nat i) = Z.of_nat i) by (unfold wrap8; rewrite Z.mod_small; [done|exact Hi]).
  unfold any_open. rewrite Hw, Nat2Z.id. cbn [meta_columns]. rewrite Ho. cbn [unwrap]. rewrite outcome_bind_Ok, Hbt.
  unfold open_hash. cbn [meta_columns meta_version meta_salt]. rewrite Nat2Z.id, Ho. cbn [unwrap]. rewrite outcome_bind_Ok.
  destruct (open_tables_left options version i c l o (dir_values dir (Z.of_nat i)) Hob Hl (Hdv _) O1 (seq 0 SIZE_TIERS)) as (ts & Hts & HF).
  { intros k Hk%elem_of_seq. lia. }
  rewrite Hts, outcome_bind_Ok. destruct (open_index_left options version i c l (dir_index dir (Z.of_nat i)) Hob Hl (Hdi _)) as [s Hs]. rewrite Hs, outcome_bind_Ok.
  cbv beta iota. cbn [fmap outcome_fmap]. eexists. split; [reflexivity|].
  split; [split; cbn; try congruence|split; cbn; try done; try congruence].
  - rewrite <- (Forall2_length _ _ _ HF), length_seq. by rewrite (ca_len _ _ Hat).
  - intros k t Ht. assert (Hlt : (k < SIZE_TIERS)%nat) by (rewrite <- (ca_len _ _ Hat); by eapply lookup_lt_Some).
    destruct (Forall2_lookup_l _ _ _ k k HF) as (t1 & Ht1 & t' & Ht' & Hre); [by apply lookup_seq|].
    exists t1. split; [done|]. by simplify_eq.
  - by exists o.
Qed.

(** ** Which columns can be opened *)

Lemma repr_openable options version i c w M E P : column_at i c → column_of options version i c → col_repr c w M →
  column_pending c E P → openable options version i c.
Proof.
  intros Hat Hof (SS & [I1 I2 I3 I4 I5 I6] & _) Hp. split; try done; [|apply Hp|apply Hp].
  intros k t Ht. destruct (tb_shape _ _ _ _ _ _ I2 _ _ Ht) as [H1' H2']. split; [by eapply (tb_rc _ _ _ _ _ _ I2)|].
  rewrite H1', H2'. by destruct (SIZES !! k).
Qed.

Lemma openable_enacted options version i c es cc : openable options version i c → col_enacted c es cc →
  openable options version i cc.
Proof.
  intros [Hat Hof Hq Hsh Hst [Hmin Hmp]] Hen. pose proof Hen as [(vs & idx & ->) Hlen Htab Hidx Hmap Hch Hst' Hmp'].
  cbn [hc_values set_hc_values hc_index set_hc_index] in *.
  assert (Hback : ∀ k t, vs !! k = Some t → ∃ t0, hc_values c !! k = Some t0 ∧ ∃ f, t = set_vt_file f t0 ∧ file_ok t).
  { intros k t Ht. destruct (lookup_lt_is_Some_2 (hc_values c) k) as [t0 Ht0]; [rewrite <- Hlen; by eapply lookup_lt_Some|].
    destruct (Htab _ _ Ht0) as (t' & Ht' & [[f ->] Hok _ _ _]). simplify_eq. eauto. }
  split; cbn [hc_values set_hc_values hc_index set_hc_index hc_queue]; try done.
  - destruct Hat as [A1 A2 A3 A4 A5 A6 A7 [A8 A9]].
    split; cbn [hc_values set_hc_values hc_index set_hc_index hc_col]; unfold bits in *; rewrite ?Hidx; try done.
    + by rewrite Hlen.
    + intros k t Ht. destruct (Hback _ _ Ht) as (t0 & Ht0 & f & -> & _). exact (A7 _ _ Ht0).
    + split; [|done]. intros k t Ht. destruct (Hback _ _ Ht) as (t0 & Ht0 & f & -> & Hok).
      destruct (A8 _ _ Ht0) as ([W1 W2] & Htier & _). by split_and!.
  - by eapply column_of_enacted.
  - intros k t Ht. destruct (Hback _ _ Ht) as (t0 & Ht0 & f & -> & _). exact (Hsh _ _ Ht0).
  - auto.
  - unfold bits in *. rewrite Hidx. destruct Hmp; auto.
Qed.

Lemma reopened_at options version i c c1 : openable options version i c → col_reopened c version c1 → column_at i c1.
Proof.
  intros [[A1 A2 A3 A4 A5 A6 A7 [A8 A9]] _ _ _ _ _] [R1 R2 R3 R4 R5 R6 R7].
  assert (Hback : ∀ k t1, hc_values c1 !! k = Some t1 → ∃ t, hc_values c !! k = Some t ∧ reopened t version t1).
  { intros k t1 Ht1. destruct (lookup_lt_is_Some_2 (hc_values c) k) as [t Ht]; [rewrite <- R6; by eapply lookup_lt_Some|].
    destruct (R7 _ _ Ht) as (t' & Ht' & Hre). simplify_eq. eauto. }
  split; rewrite ?R1, ?R5, ?R6; try done.
  - intros k t1 (t & Ht & Hre)%Hback. destruct (ro_table _ _ _ Hre) as (f & fl & lr & ->). exact (A7 _ _ Ht).
  - split; [|by rewrite R5]. intros k t1 (t & Ht & Hre)%Hback. destruct (A8 _ _ Ht) as (Hwf & Htier & Hok).
    destruct (reopened_facts t version t1 Hre Hwf Hok) as (W & F & _ & Hid & _). split_and!; [done|by rewrite Hid|done].
Qed.

(** The entries that a column takes, its copies take. *)
Lemma entry_fits_same c c1 e : it_id (hc_index c1) = it_id (hc_index c) →
  (∀ k t, hc_values c !! k = Some t → ∃ t1, hc_values c1 !! k = Some t1 ∧ vt_id t1 = vt_id t ∧
     entry_size t1 = entry_size t ∧ multipart t1 = multipart t) →
  entry_fits c e → entry_fits c1 e.
Proof using Type.
  intros Hidx Ht Hf. destruct e as [id n mask ch|id n d|id]; cbn in *; [by rewrite Hidx| |done].
  destruct Hf as (k & t & Hk & Hid & Hn & Hlg). destruct (Ht _ _ Hk) as (t1 & Hk1 & E1 & E2 & E3).
  exists k, t1. split_and!; [done|congruence|lia|lia|]. by eapply logged_size.
Qed.

Lemma reopened_fits options version i c es cc c1 e : openable options version i c → col_enacted c es cc →
  col_reopened cc version c1 → entry_fits c e → entry_fits c1 e.
Proof.
  intros Hob Hen Hre. apply entry_fits_same.
  - rewrite (rc_index _ _ _ Hre). apply Hen.
  - intros k t Hk. destruct (cn_tables _ _ _ Hen _ _ Hk) as (tc & Htc & [[f ->] _ _ _ _]).
    destruct (rc_tables _ _ _ Hre _ _ Htc) as (t1 & Ht1 & Hro). exists t1. split; [done|].
    by destruct (ro_table _ _ _ Hro) as (f' & fl & lr & ->).
Qed.

(** ** The columns *)

Lemma open_columns_left options version salt lc dir : files_left lc (dir_values dir) (dir_index dir) →
  salt_opt options = Some salt → ∀ is_, (∀ i, i ∈ is_ → ∃ cc, lc !! i = Some (Hash cc) ∧ openable options version i cc) →
  ∃ l1, open_columns dir is_ options (MkMetadata salt version (columns options)) = Ok l1 ∧
    Forall2 (fun i col => ∃ cc c1, lc !! i = Some (Hash cc) ∧ col = Hash c1 ∧ openable options version i cc ∧
      col_reopened cc version c1 ∧ column_of options version i c1) is_ l1.
Proof.
  intros Hdir Hsalt is_. induction is_ as [|i is_ IH]; intros Hall; [by exists []|].
  destruct IH as (l1 & Hl1 & HF); [intros j Hj; apply Hall; by right|].
  destruct (Hall i) as (cc & Hcc & Hob); [by left|].
  destruct (open_column_left options version salt i cc lc Hob Hcc Hsalt dir Hdir) as (c1 & Hopen & Hre & Hof).
  cbn [open_columns]. rewrite Hopen, outcome_bind_Ok, Hl1, outcome_bind_Ok. exists (Hash c1 :: l1). split; [done|].
  constructor; [|done]. by exists cc, c1.
Qed.

Section Recover.
Context (options : Options) (version : Z) (l0 lc : list Column) (lg : LogFiles) (E P : list LogChange).
Context (es : list LogEntry) (M : DbMap).
Hypothesis repr : cols_repr options version l0 (LogWriter.new (lg_overlays lg) 0) M.
Hypothesis waits : pipeline l0 lg E P.
Hypothesis crashed : cols_enacted l0 es lc.
Hypothesis es_pending : ∀ e, e ∈ es → ∃ x, x ∈ P ∧ e ∈ record_entries x.

Lemma left_openable i c : l0 !! i = Some (Hash c) → ∃ cc, lc !! i = Some (Hash cc) ∧
  col_enacted c (entries_of (hc_col c) es) cc ∧ openable options version i c ∧ openable options version i cc.
Proof using All.
  intros Hi. destruct (proj2 crashed _ _ Hi) as (cc & Hcc & Hen).
  pose proof (cols_at _ (cols_repr_at _ _ _ _ _ repr) _ _ Hi) as Hat.
  destruct (proj2 repr _ _ Hi) as (c' & [= <-] & Hof & Hr).
  assert (Hob : openable options version i c) by (eapply repr_openable; [done|done|exact Hr|by eapply waits]).
  exists cc. split_and!; [done|done|done|by eapply openable_enacted].
Qed.

Context (l1 : list Column).
Hypothesis opened : Forall2 (fun i col => ∃ cc c1, lc !! i = Some (Hash cc) ∧ col = Hash c1 ∧ openable options version i cc ∧
      col_reopened cc version c1 ∧ column_of options version i c1) (seq 0 (length l0)) l1.

Lemma opened_length : length l1 = length l0.
Proof using opened. by rewrite <- (Forall2_length _ _ _ opened), length_seq. Qed.

Lemma opened_lookup i c : l0 !! i = Some (Hash c) → ∃ cc c1, l1 !! i = Some (Hash c1) ∧ openable options version i c ∧
  col_enacted c (entries_of (hc_col c) es) cc ∧ openable options version i cc ∧ col_reopened cc version c1 ∧ column_of options version i c1.
Proof using All.
  intros Hi. destruct (left_openable i c Hi) as (cc & Hcc & Hen & Hob & Hobc).
  assert (Hlt : (i < length l0)%nat) by (by eapply lookup_lt_Some).
  destruct (Forall2_lookup_l _ _ _ i i opened) as (col & Hcol & cc' & c1 & Hcc' & -> & _ & Hre & Hof); [by apply lookup_seq|].
  simplify_eq. by exists cc, c1.
Qed.

Lemma opened_back i col : l1 !! i = Some col → ∃ c, l0 !! i = Some (Hash c).
Proof using All.
  intros Hi. destruct (lookup_lt_is_Some_2 l0 i) as [col0 Hi0]; [rewrite <- opened_length; by eapply lookup_lt_Some|].
  destruct (proj2 repr _ _ Hi0) as (c & -> & _). by exists c.
Qed.

Lemma opened_at : columns_at l1.
Proof using All.
  intros i col Hi. destruct (opened_back _ _ Hi) as (c & Hc). destruct (opened_lookup i c Hc) as (cc & c1 & Hi1 & Hob & Hen & Hobc & Hre & Hof).
  simplify_eq. exists c1. split; [done|]. by eapply reopened_at.
Qed.

(** The entries that the columns take, the opened columns take. *)
Lemma opened_entry e : entry_ready l0 e → entry_ready l1 e.
Proof using All.
  intros (i & c & Hcol & Hi & Hfit). destruct (opened_lookup i c Hi) as (cc & c1 & Hi1 & Hob & Hen & Hobc & Hre & Hof).
  exists i, c1. split_and!; [done|done|]. exact (reopened_fits _ _ _ _ _ _ _ _ Hob Hen Hre Hfit).
Qed.

Lemma opened_ready : Forall (entry_ready l1) (all_entries (E ++ P)).
Proof using All.
  apply Forall_forall. intros e (x & Hx & He)%elem_all_entries. apply opened_entry.
  pose proof (records_ready _ _ _ _ x (cols_repr_at _ _ _ _ _ repr) waits Hx) as Hr. rewrite Forall_forall in Hr. by apply Hr.
Qed.

Context (l2 : list Column) (lg' : LogFiles).
Hypothesis replayed : cols_enacted l1 (all_entries (E ++ P)) l2.
Hypothesis empty : lg_overlays lg' = empty_overlays.

(** [refresh_metadata] on a column after the replay. *)
Lemma refreshed i c2 : l2 !! i = Some (Hash c2) → ∃ c3, any_refresh_metadata (Hash c2) = (Ok tt, Hash c3) ∧
  column_of options version i c3 ∧ col_repr c3 (LogWriter.new (lg_overlays lg') 0) (M i) ∧
  column_pending c3 (E ++ P) [] ∧ headers_clean c3.
Proof using All.
  intros Hi. destruct (lookup_lt_is_Some_2 l1 i) as [col1 Hi1]; [rewrite <- (proj1 replayed); by eapply lookup_lt_Some|].
  destruct (opened_back _ _ Hi1) as (c & Hc). destruct (opened_lookup i c Hc) as (cc & c1 & Hi1' & Hob & Hen & Hobc & Hre & Hof).
  simplify_eq. destruct (proj2 replayed _ _ Hi1) as (c2' & Hi2 & Hen2). simplify_eq.
  destruct (proj2 repr _ _ Hc) as (c' & [= <-] & _ & Hr).
  assert (Hcol : hc_col c1 = hc_col c).
  { rewrite (rc_col _ _ _ Hre). destruct (cn_same _ _ _ Hen) as (vs & idx & ->). done. }
  rewrite Hcol in Hen2.
  destruct (column_recovered i c cc c1 c2 version lg E P (M i) es (lg_overlays lg') 0) as (c3 & Hrun & Hr3 & Hp3 & Hcl3 & vs & Hc3); try done.
  - apply Hob.
  - apply waits.
  - by eapply waits.
  - by eapply waits.
  - intros id n. rewrite empty. done.
  - intros id n. rewrite empty. done.
  - exists c3. cbn [any_refresh_metadata]. rewrite Hrun. split_and!; try done. rewrite Hc3.
    rewrite <- Hcol in Hen2. pose proof (column_of_enacted _ _ _ _ _ _ Hen2 Hof) as [D1 D2 D3 D4 D5 D6 D7]. by split.
Qed.

(** The columns after [refresh_metadata], whatever records are still in the log
    files: all of them, or none. *)
Definition refreshed_columns : list Column := (fun col => (any_refresh_metadata col).2) <$> l2.

Lemma refreshed_lookup i col : refreshed_columns !! i = Some col → ∃ c2 c3, l2 !! i = Some (Hash c2) ∧ col = Hash c3 ∧
  any_refresh_metadata (Hash c2) = (Ok tt, Hash c3) ∧ column_of options version i c3 ∧
  col_repr c3 (LogWriter.new (lg_overlays lg') 0) (M i) ∧ column_pending c3 (E ++ P) [] ∧ headers_clean c3.
Proof using All.
  unfold refreshed_columns. rewrite list_lookup_fmap. destruct (l2 !! i) as [col2|] eqn:Hi; [|done]. intros [= <-].
  destruct (cols_enacted_at l1 opened_at _ _ _ _ replayed Hi) as (c0 & c2 & -> & _).
  destruct (refreshed i c2 Hi) as (c3 & Hrun & Hrest). exists c2, c3. by rewrite Hrun.
Qed.

Lemma refresh_columns d : db_columns d = l2 → each_column any_refresh_metadata d = (Ok tt, set_columns refreshed_columns d).
Proof using All.
  intros Hd. apply each_column_ok; [|done]. intros col [i Hi]%list_elem_of_lookup.
  destruct (cols_enacted_at l1 opened_at _ _ _ _ replayed Hi) as (c0 & c2 & -> & _).
  destruct (refreshed i c2 Hi) as (c3 & Hrun & _). by rewrite Hrun.
Qed.

Lemma refreshed_length : length refreshed_columns = length l0.
Proof using All. unfold refreshed_columns. by rewrite length_fmap, (proj1 replayed), opened_length. Qed.

Lemma refreshed_repr : cols_repr options version refreshed_columns (LogWriter.new (lg_overlays lg') 0) M.
Proof using All.
  split; [rewrite refreshed_length; apply repr|]. intros i col Hi.
  destruct (refreshed_lookup i col Hi) as (c2 & c3 & _ & -> & _ & Hof & Hr & _). by exists c3.
Qed.

Lemma refreshed_pipeline E' : E' = E ++ P ∨ E' = [] → files_hold lg' E' [] → is_u64 (next_record_id lg') →
  consecutive (next_record_id lg') (E ++ P) → pipeline refreshed_columns lg' E' [].
Proof using All.
  intros HE Hf Hu Hcons. split.
  - split; [done| | | |]; [intros id n; rewrite empty; apply overlay_lookup_empty..| |];
      rewrite app_nil_r; destruct HE as [->| ->]; [apply waits|constructor|done|].
    split; [unfold is_u64 in Hu; cbn; lia|done].
  - intros i c3 Hi. destruct (refreshed_lookup i _ Hi) as (c2 & c3' & _ & [= <-] & _ & _ & _ & Hp & _).
    destruct HE as [->| ->]; [done|]. apply (column_pending_clean c3 (E ++ P)). by rewrite app_nil_r.
  - rewrite app_nil_r, refreshed_length. destruct HE as [->| ->]; [apply waits|constructor].
  - done.
  - intros i c3 Hi. by destruct (refreshed_lookup i _ Hi) as (c2 & c3' & _ & [= <-] & _ & _ & _ & _ & Hcl).
Qed.

End Recover.

(** ** Death and opening *)

(** The process dies between two operations of the workers, or after [k] entries
    of the record that is enacted were written. *)
Inductive dies (d : DbInner) : DbInner → Prop :=
| dies_between : dies d d
| dies_enacting l r k d1 r1 : read_next false (db_log d) = (Ok (Some r), l) →
    enact_loop k (set_log l d, r) = (NoFuel, (d1, r1)) → dies d d1.

Lemma dies_left d d1 M E P : db_repr d M → pipeline (db_columns d) (db_log d) E P → dies d d1 →
  ∃ es, cols_enacted (db_columns d) es (db_columns d1) ∧ (∀ e, e ∈ es → ∃ x, x ∈ P ∧ e ∈ record_entries x) ∧
    disk (db_log d1) = disk (db_log d) ∧ db_options d1 = db_options d ∧ db_version d1 = db_version d.
Proof.
  intros Hd Hp Hdies. pose proof (cols_repr_at _ _ _ _ _ (dr_cols _ _ Hd)) as Hat. destruct Hdies as [|l r k d1 r1 Hread Hloop].
  { exists []. split_and!; [by apply cols_enacted_nil|by intros e ?%not_elem_of_nil|done..]. }
  assert (Hnx : next_record_id (db_log d) ≤ 2 ^ 64) by (pose proof (pl_next _ _ _ _ Hp) as Hn; unfold is_u64 in Hn; lia).
  destruct (read_next_cases (db_log d) E P (pl_log _ _ _ _ Hp) Hnx) as [(l' & Hrun & _)|(x & P' & r' & l' & -> & Hrun & [(f & pos & Har) _])];
    [congruence|]. rewrite Hread in Hrun. injection Hrun as <- <-.
  destruct (enact_some_ok _ Hat (set_log l d) x [] (db_columns d) ltac:(constructor)
    (first_ready _ _ _ _ _ _ _ _ _ (dr_cols _ _ Hd) Hp) (cols_enacted_nil _ Hat) false f pos r k d1 r1 Har) as
    (es1 & es2 & l' & Hx & -> & Hen).
  { exact Hloop. }
  exists es1. cbn [db_columns set_columns db_log set_log db_options db_version]. split_and!; [exact Hen| | |done|done].
  - intros e He. exists x. split; [by left|]. rewrite Hx. apply elem_of_app. by left.
  - revert Hread. unfold read_next. destruct (reading_state (db_log d)); [|done]. destruct (reading_file (db_log d)); [|done].
    destruct (LogReader.next _) as [[[]|[[]| | | | | | | | |]| | | |] r2]; try done; intros Hq; inversion Hq; by subst.
Qed.

(** A directory of which no process has the lock: the metadata of [d], the files
    of the columns [l] and the log files [logs]. *)
Record left_by (d : DbInner) (l : list Column) (logs : list (Z * bytes)) (dir : Dir) : Prop := {
  lb_exists : dir_exists dir = true;
  lb_locked : dir_locked dir = false;
  lb_metadata : dir_metadata dir =
    Some (Options.write_metadata_with_version (db_options d) (default [] (salt_opt (db_options d))) (Some (db_version d)));
  lb_logs : dir_logs dir = logs;
  lb_files : files_left l (dir_values dir) (dir_index dir);
}.

Lemma left_dir_by d d1 logs : db_options d1 = db_options d → db_version d1 = db_version d →
  left_by d (db_columns d1) logs (left_dir d1 logs).
Proof using Type. intros Ho Hv. split; cbn; [done|done|by rewrite Ho, Hv|done|done]. Qed.

(** [DbInner::open] on what is left. *)
Lemma db_open_left d l dir logs random salt options version l1 lg1 : db_options d = options → db_version d = version →
  left_by d l logs dir → salt_opt options = Some salt → length salt = SALT_SIZE → LAST_SUPPORTED_VERSION ≤ version < 2 ^ 32 →
  Forall (fun o => compression_threshold o = 4096) (columns options) →
  open_log (sync_wal_opt options) logs = Ok lg1 →
  open_columns dir (seq 0 (length (columns options))) options (MkMetadata salt version (columns options)) = Ok l1 →
  db_open options random default_internal dir =
    (Ok (MkDbInner l1 options false lg1 (MkCommitQueue 0 0 []) (replicate (length (columns options)) CommitOverlay.new) 0
      (MkSignals false false false false) (wrap64 (default 2 (replay_record_id lg1) - 1)) 1 None version), dir).
Proof.
  intros Ho Hv [Hex Hlock Hmeta Hlogs _] Hsalt Hsl Hver Hth Hlog Hcols.
  assert (Hper : persisted <$> columns options = columns options).
  { clear -Hth. induction Hth as [|o os E _ IH]; [done|]. cbn. f_equal; [|exact IH]. destruct o. cbn in E. by subst. }
  unfold db_open. cbn [create_opt skip_check_lock default_internal]. do 2 erewrite ST_bind_Ok by done.
  erewrite ST_bind_Ok by (unfold lift_st; by rewrite Hex). erewrite ST_bind_Ok by (unfold lift_st; by rewrite Hlock).
  erewrite ST_bind_Ok.
  2: { unfold zoom, Options.load_and_validate_metadata. erewrite ST_bind_Ok by done.
       rewrite Hmeta, Ho, Hv, Hsalt, (load_written options salt (Some version)) by done. cbn [default id]. erewrite ST_bind_Ok by done.
       cbn [meta_columns]. rewrite Hper, Nat.eqb_refl, check_columns_same. erewrite ST_bind_Ok by done. reflexivity. }
  assert (Hset : set_dir_metadata (Some (Options.write_metadata_with_version options salt (Some version))) dir = dir).
  { rewrite <- Ho, <- Hv in *. rewrite Hsalt in Hmeta. cbn in Hmeta. rewrite <- Hmeta. by destruct dir. }
  rewrite Hset, Hlogs.
  erewrite ST_bind_Ok by (unfold lift_st; by rewrite Hlog).
  erewrite ST_bind_Ok.
  2: { unfold lift_st. cbn [meta_columns]. rewrite Hcols. reflexivity. }
  rewrite Hsalt. cbn [meta_columns]. unfold mret, ST_ret. f_equal. f_equal. by destruct options; cbn in *; subst.
Qed.

Lemma hash_columns_valid options version l w M : cols_repr options version l w M → Options.is_valid options = true.
Proof using Type.
  intros [Hlen Hl]. apply forallb_forall. intros o Ho. apply list_elem_of_In, list_elem_of_lookup in Ho as [i Hi].
  destruct (lookup_lt_is_Some_2 l i) as [col Hcol]; [rewrite Hlen; by eapply lookup_lt_Some|].
  destruct (Hl _ _ Hcol) as (c & _ & [_ _ _ (o' & Ho' & Hb & _) _ _ _] & _). simplify_eq.
  unfold ColumnOptions.is_valid. by rewrite Hb.
Qed.

(** The metadata can be read and has the thresholds of the options, which it does
    not keep. *)
Record metadata_ok (d : DbInner) : Prop := {
  md_salt : ∃ salt, salt_opt (db_options d) = Some salt ∧ length salt = SALT_SIZE;
  md_version : LAST_SUPPORTED_VERSION ≤ db_version d < 2 ^ 32;
  md_threshold : Forall (fun o => compression_threshold o = 4096) (columns (db_options d));
}.

(** The log files have ids and lengths that fit, and those with a record have
    room for its id, which [Log::open] reads. *)
Definition disk_ok (D : gmap Z bytes) : Prop :=
  (∀ id f, D !! id = Some f → 0 ≤ id < 2 ^ 32 - 1 ∧ Z.of_nat (length f) < 2 ^ 64 ∧ file_readable f).

(** The columns and the queue answer as the map; the queue is empty. *)
Record db_serves (d : DbInner) (M : DbMap) : Prop := {
  sv_cols : cols_repr (db_options d) (db_version d) (db_columns d) (LogWriter.new (lg_overlays (db_log d)) 0) M;
  sv_len : length (commit_overlay d) = length (db_columns d);
  sv_overlay : overlay_ok (db_options d) (commit_overlay d) (commits (commit_queue d));
  sv_queue : commits (commit_queue d) = [];
}.

(** The bytes of a record of which the end is missing. *)
Definition torn_record (d : DbInner) (J : bytes) : Prop :=
  J = [] ∨ ∃ c j, J = take j (record_bytes c) ∧ (j < length (record_bytes c))%nat ∧
    change_record_id c = next_record_id (db_log d) ∧ Forall (entry_ready (db_columns d)) (record_entries c).

Lemma torn_first_id c j : is_u64 (change_record_id c) → (9 ≤ length (take j (record_bytes c)))%nat →
  first_id ([], take j (record_bytes c)) = change_record_id c.
Proof using Type.
  intros Hid Hj. cbn. rewrite length_take in Hj. rewrite take_take, Nat.min_l by lia.
  pose proof (content_id ([c], []) (fun _ => Hid)) as Hc. unfold content, records_bytes in Hc. cbn in Hc. by rewrite !app_nil_r in Hc.
Qed.

(** [Db::open] on what is left: the tables and indexes [lc] into which a part of
    the log was enacted, and the log files [D], where the last record may be
    torn. *)
Section Left.
Context (d : DbInner) (M : DbMap) (E P : list LogChange) (es : list LogEntry) (lc : list Column).
Context (J : bytes) (D : gmap Z bytes) (logs : list (Z * bytes)) (dir : Dir).
Hypothesis repr : db_repr d M.
Hypothesis waits : pipeline (db_columns d) (db_log d) E P.
Hypothesis crashed : cols_enacted (db_columns d) es lc.
Hypothesis es_pending : ∀ e, e ∈ es → ∃ x, x ∈ P ∧ e ∈ record_entries x.
Hypothesis left : left_by d lc logs dir.
Hypothesis meta : metadata_ok d.
Hypothesis torn : torn_record d J.
Hypothesis on_disk : torn_disk (db_log d) J D.
Hypothesis fits : disk_ok D.
Hypothesis listed : logs ≡ₚ map_to_list D.

Let options := db_options d.
Let version := db_version d.

Lemma left_columns salt : salt_opt options = Some salt →
  ∃ l1, open_columns dir (seq 0 (length (db_columns d))) options (MkMetadata salt version (columns options)) = Ok l1 ∧
    Forall2 (fun i col => ∃ cc c1, lc !! i = Some (Hash cc) ∧ col = Hash c1 ∧ openable options version i cc ∧
      col_reopened cc version c1 ∧ column_of options version i c1) (seq 0 (length (db_columns d))) l1.
Proof using All.
  intros Hsalt. apply (open_columns_left options version salt lc); [apply left|done|]. intros i Hi%elem_of_seq.
  destruct (lookup_lt_is_Some_2 (db_columns d) i) as [col Hcol]; [lia|].
  destruct (proj2 (dr_cols _ _ repr) _ _ Hcol) as (c & -> & _).
  destruct (left_openable options version _ lc (db_log d) E P es M (dr_cols _ _ repr) waits crashed es_pending i c Hcol) as (cc & Hcc & _ & _ & Hob).
  by exists cc.
Qed.

Lemma left_log : ∃ l1 S, open_log (sync_wal_opt options) logs = Ok l1 ∧ log_opened J (E ++ P) l1 S ∧
  ∀ id f, disk l1 !! id = Some f → D !! id = Some f.
Proof using All.
  pose proof (pl_log _ _ _ _ waits) as [Hfiles _ _ _ Hcons]. pose proof (pl_next _ _ _ _ waits) as Hnx.
  apply (open_crash _ (db_log d) E P (next_record_id (db_log d)) J D); try done.
  - apply repr.
  - unfold is_u64 in Hnx. lia.
  - destruct torn as [->|(c & j & -> & _ & Hid & _)]; [cbn; lia|]. rewrite <- Hid. apply torn_first_id. by rewrite Hid.
  - intros id f Hf. by apply (fits id).
  - intros id [f Hf]. by apply (fits id f).
Qed.

Lemma open_torn random : ∃ d' dir', open_existing_db options random dir = (Ok d', dir') ∧ db_serves d' M ∧
  (J = [] ∨ cleanup_queue (db_log d') = [] → db_repr d' M) ∧ db_options d' = options ∧ db_version d' = version.
Proof using All.
  destruct meta as [(salt & Hsalt & Hsl) Hv Hth]. pose proof (dr_cols _ _ repr) as Hcols.
  destruct left_log as (lg1 & S & Hlog & Hop & Hback). destruct (left_columns salt Hsalt) as (l1 & Hl1 & HF).
  pose proof (pl_log _ _ _ _ waits) as [_ _ _ _ Hcons]. pose proof (pl_next _ _ _ _ waits) as Hnx.
  assert (Hlen : length (db_columns d) = length (columns options)) by apply Hcols. rewrite Hlen in Hl1.
  pose proof (db_open_left d lc dir logs random salt options version l1 lg1 eq_refl eq_refl left Hsalt Hsl Hv Hth Hlog Hl1) as Hopen.
  set (d2 := MkDbInner _ _ _ _ _ _ _ _ _ _ _ _) in Hopen.
  pose proof (opened_at options version _ lc (db_log d) E P es M Hcols waits crashed es_pending l1 HF) as Hat1.
  pose proof (opened_ready options version _ lc (db_log d) E P es M Hcols waits crashed es_pending l1 HF) as Hready.
  assert (Htorn : torn_tail l1 J).
  { destruct torn as [->|(c & j & HJ & Hj & Hid & Hc)]; [apply torn_nil|]. split. exists c, j. split_and!; [done|done|by rewrite Hid|].
    eapply Forall_impl; [exact Hc|]. intros e. by apply (opened_entry options version _ lc (db_log d) E P es M). }
  destruct (replay_opened l1 d2 lg1 J S (E ++ P) (next_record_id (db_log d)) Hat1) as
    (d3 & Hrun & [Hov3 Hwhole Hclean] & Hok3 & Hcols3 & Hcons3 & Hnx3 & (l2 & lg3 & n3 & Hd3)); try done.
  { intros id f Hf. by apply (fits id), Hback. }
  set (l3 := refreshed_columns (db_columns d3)).
  pose proof (refreshed_repr options version _ lc (db_log d) E P es M Hcols waits crashed es_pending l1 HF
    (db_columns d3) (db_log d3) Hcols3 Hov3) as Hr3. fold l3 in Hr3.
  exists (set_columns l3 d3), dir.
  assert (Hd' : commit_queue d3 = MkCommitQueue 0 0 [] ∧ commit_overlay d3 = replicate (length (columns options)) CommitOverlay.new ∧
    db_options d3 = options ∧ db_version d3 = version) by (by subst d3).
  destruct Hd' as (Hq & Hover & Ho & Hve).
  assert (Hempty : overlay_ok options (commit_overlay d3) []).
  { rewrite Hover. intros i o Hi. apply lookup_replicate in Hi as [-> _]. split; [|done]. intros k. apply lookup_empty. }
  assert (Hlen3 : length (commit_overlay d3) = length l3) by (rewrite Hover, length_replicate; symmetry; apply Hr3).
  split_and!; [|split; cbn; rewrite ?Hq, ?Ho, ?Hve; done| |done|done].
  - unfold open_existing_db, open_inner. erewrite ST_bind_Ok.
    2: { unfold lift_st. rewrite (hash_columns_valid options version _ _ M Hcols). reflexivity. }
    erewrite ST_bind_Ok by exact Hopen. unfold lift_st, replay_all_logs. erewrite ST_bind_Ok by done.
    erewrite ST_bind_Ok by exact Hrun.
    rewrite (refresh_columns options version _ lc (db_log d) E P es M Hcols waits crashed es_pending l1 HF
      (db_columns d3) (db_log d3) Hcols3 Hov3 d3 eq_refl). reflexivity.
  - intros HJ. assert (HE : ∃ E', (E' = E ++ P ∨ E' = []) ∧ files_hold (db_log d3) E' []).
    { destruct HJ as [HJ|HJ]; [exists (E ++ P)|exists []]; auto. }
    destruct HE as (E' & HE & Hfiles).
    split; cbn; rewrite ?Hq, ?Ho, ?Hve; try done; [constructor|]. exists E', [].
    exact (refreshed_pipeline options version _ lc (db_log d) E P es M Hcols waits crashed es_pending l1 HF
      (db_columns d3) (db_log d3) Hcols3 Hov3 E' HE Hfiles Hnx3 Hcons3).
Qed.

End Left.

(** What opening the directory again needs: the metadata can be read and has the
    thresholds of the options, which it does not keep; the ids of the log files
    fit, and their lengths. *)
Record reopenable (d : DbInner) : Prop := {
  rb_salt : ∃ salt, salt_opt (db_options d) = Some salt ∧ length salt = SALT_SIZE;
  rb_version : LAST_SUPPORTED_VERSION ≤ db_version d < 2 ^ 32;
  rb_threshold : Forall (fun o => compression_threshold o = 4096) (columns (db_options d));
  rb_log_id : next_log_id (db_log d) < 2 ^ 32;
  rb_files : ∀ id f, disk (db_log d) !! id = Some f → Z.of_nat (length f) < 2 ^ 64;
}.

Lemma reopenable_ok d M : db_repr d M → reopenable d → metadata_ok d ∧ disk_ok (disk (db_log d)).
Proof.
  intros Hd [Hsalt Hv Hth Hnl Hlen]. split; [done|]. intros id f Hf. split_and!; [| |by eapply Hlen|].
  1,2: destruct (ok_next _ (dr_log _ _ Hd)) as [_ Hlt]; specialize (Hlt id); rewrite <- (ok_disk _ (dr_log _ _ Hd)) in Hlt;
    specialize (Hlt ltac:(by eexists)); lia.
  destruct (dr_pipeline _ _ Hd) as (E & P & Hp). eapply (whole_readable _ E P (dr_log _ _ Hd)); [|done]. apply Hp.
Qed.

(** A process that dies between two records. *)
Lemma open_left d d1 M logs random : db_repr d M → dies d d1 → reopenable d → logs ≡ₚ map_to_list (disk (db_log d1)) →
  ∃ d' dir', open_existing_db (db_options d) random (left_dir d1 logs) = (Ok d', dir') ∧ db_repr d' M ∧
    db_options d' = db_options d ∧ db_version d' = db_version d ∧ commits (commit_queue d') = [].
Proof using All.
  intros Hd Hdies Hro Hlogs. destruct (dr_pipeline _ _ Hd) as (E & P & Hp). destruct (reopenable_ok d M Hd Hro) as [Hmeta Hdisk].
  destruct (dies_left d d1 M E P Hd Hp Hdies) as (es & Hen & Hes & Hd1 & Ho1 & Hv1). rewrite Hd1 in Hlogs.
  destruct (open_torn d M E P es (db_columns d1) [] (disk (db_log d)) logs (left_dir d1 logs) Hd Hp Hen Hes) with (random := random) as
    (d' & dir' & Hrun & Hs & Hd' & Ho & Hv); [by apply left_dir_by|done|by left|apply whole_disk, Hd|done|done|].
  exists d', dir'. split_and!; [done|apply Hd'; by left|done|done|apply Hs].
Qed.

(** ** Death while a record is written *)

Lemma same_columns_left l l' : columns_at l → same_columns l l' → files_left l (left_values l') (left_index l').
Proof using Type.
  intros Hat [Hlen Hsame].
  assert (Hcase : ∀ i, (l !! i = None ∧ l' !! i = None) ∨ ∃ c c', l !! i = Some (Hash c) ∧ l' !! i = Some (Hash c') ∧
    same_column c c' ∧ table_files c' = table_files c).
  { intros i. destruct (l !! i) as [col|] eqn:Hi.
    - right. destruct (Hat _ _ Hi) as (c & -> & _). destruct (Hsame _ _ Hi) as (c' & Hi' & Hc). by exists c, c'.
    - left. split; [done|]. apply lookup_ge_None in Hi. apply lookup_ge_None. lia. }
  split; intros col k; unfold left_values, left_index; destruct (Hcase (Z.to_nat col)) as [[-> ->]|(c & c' & -> & -> & Hsc & Hf)]; try done;
    cbn [mbind option_bind column_tables column_indexes].
  - apply (f_equal (.!! k)) in Hf. unfold table_files in Hf. rewrite !list_lookup_fmap in Hf.
    destruct (hc_values c !! k) as [t|], (hc_values c' !! k) as [t'|]; cbn in *; congruence.
  - by rewrite (sc_index _ _ Hsc), (sc_queue _ _ Hsc).
Qed.

Lemma entry_ready_back l l' e : static_columns l l' → entry_ready l' e → entry_ready l e.
Proof using Type.
  intros [_ Hst] (i & c' & Hcol & Hi & Hfit). destruct (Hst _ _ Hi) as (c & Hc & Hs). exists i, c. split_and!; [done|done|].
  revert Hfit. apply entry_fits_same; [by rewrite (ss_index _ _ Hs)|]. intros k t' Ht'.
  destruct (lookup_lt_is_Some_2 (hc_values c) k) as [t Ht]; [rewrite <- (ss_len _ _ Hs); by eapply lookup_lt_Some|].
  destruct (ss_tables _ _ Hs _ _ Ht) as (t2 & Ht2 & E1 & E2 & E3 & _). simplify_eq. by exists t.
Qed.

Lemma dying_disk l l' D : disk_ok (disk l') → dying_append l l' D → (∀ id f, D !! id = Some f → file_readable f) → disk_ok D.
Proof using Type.
  intros Hok (id0 & f0 & n & Hf0 & Hn & ->) Hread id f Hf. specialize (Hread id f Hf). rewrite lookup_insert in Hf. case_decide as E.
  - injection Hf as <-. subst id0. destruct (Hok _ _ Hf0) as (H1' & H2' & _). split_and!; [lia..| |done]. rewrite length_take. lia.
  - destruct (Hok _ _ Hf) as ([? ?] & ? & _). by split_and!.
Qed.

(** The log worker dies while it writes the record of a commit: the commit is
    recovered if the whole record was written, and otherwise the database is as it
    was before. *)
Lemma open_dying d d' M M' b logs D random : db_repr d M → process_ready d → process_commits d = (Ok b, d') →
  M' = match commits (commit_queue d) with c :: _ => put_commit (db_options d) M c | [] => M end →
  reopenable d' → dying_append (db_log d) (db_log d') D → (∀ id f, D !! id = Some f → file_readable f) →
  logs ≡ₚ map_to_list D →
  ∃ d2 dir', open_existing_db (db_options d) random (left_dir d' logs) = (Ok d2, dir') ∧
    let M2 := if decide (D = disk (db_log d')) then M' else M in
    db_serves d2 M2 ∧ (D = disk (db_log d') ∨ cleanup_queue (db_log d2) = [] → db_repr d2 M2) ∧
    db_options d2 = db_options d ∧ db_version d2 = db_version d.
Proof using All.
  intros Hd Hready Hrun HM' Hro HD Hread Hlogs.
  destruct (process_ok d M Hd Hready) as (b' & d'' & M'' & Hrun' & _ & Hd' & HM & _ & _ & Ho & Hv & _ & Hcase).
  rewrite Hrun in Hrun'. injection Hrun' as <- <-. assert (M'' = M') as -> by congruence. clear HM.
  destruct (reopenable_ok d' M' Hd' Hro) as [Hmeta Hdisk]. cbv zeta. destruct (decide (D = disk (db_log d'))) as [->|Hne].
  { destruct (dr_pipeline _ _ Hd') as (E & P & Hp). pose proof (cols_repr_at _ _ _ _ _ (dr_cols _ _ Hd')) as Hat.
    destruct (open_torn d' M' E P [] (db_columns d') [] (disk (db_log d')) logs (left_dir d' logs) Hd' Hp) with (random := random) as
      (d2 & dir' & Hopen & Hs & Hd2 & Ho2 & Hv2); [by apply cols_enacted_nil|by intros e ?%not_elem_of_nil|by apply left_dir_by|done|by left|apply whole_disk, Hd'|done|done|].
    rewrite Ho in Hopen. exists d2, dir'. split_and!; [done|done|intros _; apply Hd2; by left|congruence|congruence]. }
  destruct Hcase as [[_ ->]|(E & P & P' & Hp & Hp' & Hsame & c & -> & Hid & Happ)].
  { destruct HD as (id & f & n & Hf & Hn & ->). exfalso. apply Hne. unfold log_file in Hn. rewrite Hf in Hn. cbn in Hn.
    rewrite take_ge by lia. by apply insert_id. }
  destruct (dying_torn _ _ _ _ Happ HD) as [?|(j & Hj & Htorn)]; [done|].
  pose proof (cols_repr_at _ _ _ _ _ (dr_cols _ _ Hd)) as Hat. pose proof (cols_repr_at _ _ _ _ _ (dr_cols _ _ Hd')) as Hat'.
  destruct (open_torn d M E P [] (db_columns d) (take j (record_bytes c)) D logs (left_dir d' logs) Hd Hp) with (random := random) as
      (d2 & dir' & Hopen & Hs & Hd2 & Ho2 & Hv2); try done.
  - by apply cols_enacted_nil.
  - by intros e ?%not_elem_of_nil.
  - split; cbn; [done|done|by rewrite Ho, Hv|done|by apply same_columns_left].
  - destruct Hmeta as [M1 M2 M3]. rewrite Ho in M1, M3. rewrite Hv in M2. by split.
  - right. exists c, j. split_and!; [done|done|done|].
    assert (Hc : Forall (entry_ready (db_columns d')) (record_entries c)).
    { eapply records_ready; [done|exact Hp'|]. rewrite !elem_of_app, list_elem_of_singleton. by right; right. }
    pose proof (dr_cols _ _ Hd') as Hcols'. rewrite Ho, Hv in Hcols'.
    eapply Forall_impl; [exact Hc|]. intros e. apply entry_ready_back. by eapply same_columns_static; [|apply Hd|].
  - by eapply dying_disk.
  - exists d2, dir'. split_and!; [done|done|intros [?|?]; [done|apply Hd2; by right]|done|done].
Qed.

End Open.
