(* ===== verification/DbShutdown.v ===== *)
(** * Closing a database

    [DbInner::kill_logs] after the workers have ended (src/src/db.rs): what is
    logged is enacted, the queued commits are logged, the log files are cleaned
    and deleted. The database holds the same maps all the while, and nothing is
    left in the queue. *)

From S2P Require Import Prelude.
From S2P Require Import Bytes.
From S2P Require Import Ids.
From S2P Require Import File.
From S2P Require Import Log.
From S2P Require Import LogProofs.
From S2P Require Import LogState.
From S2P Require Import LogStateProofs.
From S2P Require Import LogReplay.
From S2P Require Import LogPending.
From S2P Require Import Table.
From S2P Require Import TableStore.
From S2P Require Import TableEnact.
From S2P Require Import Index.
From S2P Require Import IndexEnact.
From S2P Require Import Compress.
From S2P Require Import Stats.
From S2P Require Import Options.
From S2P Require Import Column.
From S2P Require Import HashColumn.
From S2P Require Import ColumnTables.
From S2P Require Import ColumnMap.
From S2P Require Import ColumnEnact.
From S2P Require Import ColumnPending.
From S2P Require Import BTreeNode.
From S2P Require Import BTree.
From S2P Require Import Overlay.
From S2P Require Import Db.
From S2P Require Import DbOverlay.
From S2P Require Import DbSteps.
From S2P Require Import DbColumns.
From S2P Require Import DbEnact.
From S2P Require Import DbRefine.
From S2P Require Import Frames.
From S2P Require Import DbOpen.
From S2P Require Import DbPipeline.
From S2P Require Import DbRecover.
From stdpp Require Import options.
#[local] Set Default Proof Using "All".

(** ** The reader of the log *)

Record same_reader (l l' : LogFiles) : Prop := {
  sr_state : reading_state l' = reading_state l;
  sr_file : reading_file l' = reading_file l;
}.
#[global] Instance same_reader_preorder : PreOrder same_reader.
Proof. split; [by split|]. intros l1 l2 l3 [] []. split; congruence. Qed.

Lemma same_reader_ok l l' : same_reader l l' → reader_ok l → reader_ok l'.
Proof. intros [E1 E2]. unfold reader_ok. by rewrite E1, E2. Qed.

Section Shutdown.
Context `{!Uninit, !Codecs, !CodecLaws, !HashMapOrder, !Crc32, !Blake2}.

Abbreviation lkeeps := (keeps (fun _ : LogFiles => True) same_reader).
Definition db_reader (d d' : DbInner) : Prop := same_reader (db_log d) (db_log d').
#[local] Instance db_reader_preorder : PreOrder db_reader.
Proof. split; [by intros d|]. intros d1 d2 d3 H1' H2'. unfold db_reader. by etrans. Qed.
Abbreviation dbkeeps := (keeps (fun _ : DbInner => True) db_reader).

Lemma end_record_reader c : lkeeps (end_record c).
Proof using Type.
  unfold end_record, activate_appending. destruct (flush_to_file c) as [data fl]. intros l _. split; [done|].
  unfold mbind, ST_bind, get_st, lift_st, modify_st, mret, ST_ret.
  destruct (rust_assert _); try done. destruct (appending l) as [[h s]|]; [by split|]. by destruct (log_pool l).
Qed.

Lemma dbkeeps_log {A} (m : ST LogFiles A) : lkeeps m → dbkeeps (on_db_log m).
Proof using Type.
  intros Hm d _. split; [done|]. destruct (Hm (db_log d) I) as [_ Hs]. unfold on_db_log, zoom, db_reader.
  by destruct (m (db_log d)).
Qed.
Lemma dbkeeps_fun {A} (m : ST DbInner A) : (∀ d, db_log (m d).2 = db_log d) → dbkeeps m.
Proof using Type. intros Hm d _. split; [done|]. unfold db_reader. by rewrite Hm. Qed.

Lemma process_commits_reader : dbkeeps process_commits.
Proof.
  intros d _. unfold process_commits. destruct (_ && _); [done|]. revert d.
  enough (H' : dbkeeps process_next_commit) by (intros d; by apply H').
  unfold process_next_commit. apply keeps_bind; [apply _| |].
  { apply dbkeeps_fun. intros d. unfold pop_commit. by destruct (commits _). }
  intros [c|]; [|apply keeps_ret, _].
  apply keeps_bind; [apply _| |].
  - unfold log_record. apply keeps_bind; [apply _|apply dbkeeps_log; intros l _; by split|]. intros w.
    apply keeps_bind; [apply _| |].
    { apply dbkeeps_fun. intros d. by destruct (plan_commit _ _) as [o [[l w'] [n re]]]. }
    intros [w' re]. apply keeps_bind; [apply _|apply dbkeeps_log, end_record_reader|]. intros n.
    apply keeps_bind; [apply _|by apply dbkeeps_fun|]. intros _. apply keeps_ret, _.
  - intros [rid re]. apply keeps_bind; [apply _| |].
    { apply dbkeeps_fun. intros d. unfold zoom. by destruct (clean_commit _ _ _). }
    intros _. apply keeps_bind; [apply _| |intros _; apply keeps_ret, _]. apply dbkeeps_fun. intros d. by destruct re.
Qed.

Lemma flush_one_reader n l : reader_ok l → reader_ok (flush_one n l).2.
Proof using Type.
  intros Hr. assert (Hrot : ∀ l1, reader_ok l1 → reader_ok (flush_rotate n l1).2).
  { intros l1 Hl1. unfold flush_rotate, mbind, ST_bind, get_st. by destruct (_ && _). }
  unfold flush_one. unfold mbind at 1, ST_bind at 1.
  assert (Hadv : reader_ok (flush_advance l).2).
  { unfold flush_advance, mbind, ST_bind, get_st. destruct (flushing l) as [f|]; [|done].
    destruct (reading_state l); [done|]. destruct (reading_file l) as [r|]; right; by eexists. }
  destruct (flush_advance l) as [[[a b]| | | | |] l1]; try done. cbn [snd] in Hadv. specialize (Hrot l1 Hadv).
  unfold mbind at 1, ST_bind at 1. destruct (flush_rotate n l1) as [[u| | | | |] l2]; done.
Qed.

(** ** The steps of [kill_logs] *)

(** The database before and after holds the same, with the commits of the
    queue. *)
Record same_db (d : DbInner) (M : DbMap) (d' : DbInner) (M' : DbMap) : Prop := {
  sd_repr : db_repr d' M';
  sd_committed : ∀ i, committed d' M' i = committed d M i;
  sd_options : db_options d' = db_options d;
  sd_version : db_version d' = db_version d;
  sd_err : bg_err d' = bg_err d;
}.

Lemma same_db_trans d M d1 M1 d2 M2 : same_db d M d1 M1 → same_db d1 M1 d2 M2 → same_db d M d2 M2.
Proof using Type. intros [] []. split; congruence. Qed.
Lemma same_db_queue d M d' : db_repr d' M → same_queue d d' → (∀ i, committed d' M i = committed d M i) → same_db d M d' M.
Proof using Type. by intros ? [] ?. Qed.

(** [while self.enact_logs(false)? {}] ends: every turn reads on in the file. *)
Lemma enact_while fuel : ∀ d M, db_repr d M → reader_ok (db_log d) → (unread (db_log d) < fuel)%nat →
  ∃ d', while_st fuel (enact_logs false) d = (Ok tt, d') ∧ same_db d M d' M ∧ commit_queue d' = commit_queue d ∧
    reading_state (db_log d') = Idle.
Proof.
  induction fuel as [|fuel IH]; intros d M Hd Hr Hu; [lia|]. cbn [while_st].
  destruct (enact_step d M Hd) as (b & d1 & Hrun & Hd1 & Hq & Hc & [P1 P2 P3]).
  erewrite ST_bind_Ok by exact Hrun. pose proof (same_db_queue d M d1 Hd1 Hq Hc) as Hs. destruct b.
  - destruct (IH d1 M Hd1 (P1 Hr)) as (d2 & Hrun2 & Hs2 & Hq2 & Hi); [pose proof (P3 eq_refl); lia|].
    exists d2. split_and!; [done|by eapply same_db_trans| |done]. rewrite Hq2. apply Hq.
  - exists d1. split_and!; [done|done|apply Hq|by apply P2].
Qed.

Lemma enact_all_ok d M : db_repr d M → reader_ok (db_log d) →
  ∃ d', enact_all false d = (Ok tt, d') ∧ same_db d M d' M ∧ commit_queue d' = commit_queue d ∧
    reading_state (db_log d') = Idle.
Proof.
  intros Hd Hr. apply enact_while; [done|done|]. unfold log_fuel, unread, log_file.
  destruct (reading_state (db_log d)), (reading_file (db_log d)); lia.
Qed.

Lemma flush_logs_log n d : db_log (flush_logs n d).2 = (flush_one n (db_log d)).2.
Proof using Type.
  unfold flush_logs, on_db_log, zoom, mbind, ST_bind. destruct (flush_one n (db_log d)) as [[[[a b] c]| | | | |] l]; try done.
  by destruct b, c.
Qed.

Lemma flush_all_ok d M n : db_repr d M → reading_state (db_log d) = Idle →
  ∃ b d', flush_logs n d = (Ok b, d') ∧ same_db d M d' M ∧ commit_queue d' = commit_queue d ∧ reader_ok (db_log d').
Proof.
  intros Hd Hi. destruct (flush_ok d M n Hd (or_intror Hi)) as (b & d' & Hrun & Hd' & Hq & Hc).
  exists b, d'. split_and!; [done|by apply same_db_queue|apply Hq|].
  replace d' with (flush_logs n d).2 by (by rewrite Hrun). rewrite flush_logs_log. apply flush_one_reader. by left.
Qed.

(** The log has room for the [n] commits of the queue. *)
Fixpoint commits_ready (n : nat) (d : DbInner) : Prop :=
  process_ready d ∧ match n with O => True | S n => commits_ready n (process_commits d).2 end.

(** [while self.process_commits()? {}]: the queue is empty afterwards. *)
Lemma process_while n : ∀ d M, length (commits (commit_queue d)) = n → db_repr d M → reader_ok (db_log d) →
  commits_ready n d →
  ∃ d' M', while_st (S n) process_commits d = (Ok tt, d') ∧ same_db d M d' M' ∧ commits (commit_queue d') = [] ∧
    reader_ok (db_log d').
Proof.
  induction n as [|n IH]; intros d M Hn Hd Hr [Hp Hready]; cbn [while_st];
    destruct (process_ok d M Hd Hp) as (b & d1 & M1 & Hrun & -> & Hd1 & HM & Hq & _ & K1 & K2 & K3 & _);
    rewrite Hn in Hrun; cbn [Nat.eqb negb] in Hrun; erewrite ST_bind_Ok by exact Hrun;
    pose proof (process_commits_reader d I) as [_ Hrd]; rewrite Hrun in Hrd; cbn [snd] in Hrd.
  - apply nil_length_inv in Hn. rewrite Hn in *. exists d1, M1. split_and!; [done| |done|by eapply same_reader_ok].
    split; try done. intros i. unfold committed. by rewrite Hq, Hn, HM.
  - destruct (commits (commit_queue d)) as [|c q] eqn:Eq; [done|]. injection Hn as Hn.
    rewrite Hrun in Hready. cbn [snd] in Hready.
    destruct (IH d1 M1) as (d2 & M2 & Hrun2 & Hs2 & Hq2 & Hr2); [by rewrite Hq|done|by eapply same_reader_ok|done|].
    exists d2, M2. split_and!; [done| |done|done]. eapply same_db_trans; [|exact Hs2]. split; try done.
    intros i. unfold committed. by rewrite Hq, Eq, K1, HM.
Qed.

(** [clean_all_logs] and [Log::kill_logs]: only the file that waits to be read is
    left. *)
Lemma clean_all_ok d M : db_repr d M → reading_state (db_log d) = Idle →
  ∃ d', clean_all_logs d = (Ok tt, d') ∧ same_db d M d' M ∧ commit_queue d' = commit_queue d ∧
    reading_state (db_log d') = Idle ∧ cleanup_queue (db_log d') = [].
Proof.
  intros Hd Hi. destruct (flush_each_ok d M Hd) as (l & Hrun & Hcols & Hst & Hcl).
  destruct (clean_files_ok d M l (num_dirty_logs (db_log d)) Hd Hcols Hst Hcl ltac:(done)) as
    (b & lg & Hclean & Hq & Hs & Hd' & Hsq & Hc).
  exists (set_log lg (set_columns l d)). split_and!; [|by apply same_db_queue|apply Hsq|by rewrite <- Hi|].
  - unfold clean_all_logs. erewrite ST_bind_Ok by exact Hrun. erewrite ST_bind_Ok by done.
    erewrite ST_bind_Ok; [done|]. unfold on_db_log, zoom. cbn [db_log set_columns]. by rewrite Hclean.
  - cbn. rewrite Hq. by apply drop_ge.
Qed.

Lemma kill_log_ok d M : db_repr d M → reading_state (db_log d) = Idle → cleanup_queue (db_log d) = [] →
  ∃ d', on_db_log kill_logs d = (Ok tt, d') ∧ same_db d M d' M ∧ commit_queue d' = commit_queue d ∧
    log_pool (db_log d') = [] ∧ reading_file (db_log d') = None.
Proof.
  intros Hd Hi Hq. destruct (dr_pipeline _ _ Hd) as (E & P & Hp).
  destruct (kill_logs_pending (db_log d) E P (dr_log _ _ Hd) (pl_log _ _ _ _ Hp) Hq Hi) as
    (lg & Hrun & Hok & Hlp & Hov & Hn & Hpool & Hr & _).
  assert (Hs : same_queue d (set_log lg d)) by (by split).
  destruct (db_repr_log d (set_log lg d) M Hd Hs) as [Hd' Hc]; cbn [db_columns db_log set_log].
  - rewrite Hov. apply Hd.
  - done.
  - exists [], P. assert (Hnl : is_u64 (next_record_id lg)) by (rewrite Hn; apply Hp).
    eapply (pipeline_clean _ _ _ E); [done|done|]. by rewrite app_nil_r.
  - eexists. split; [unfold on_db_log, zoom; by rewrite Hrun|]. split_and!; [by apply same_db_queue|done|done|done].
Qed.

(** ** [kill_logs] *)

(** The log has room for the commits that are queued when the database closes. *)
Definition kill_ready (d : DbInner) : Prop :=
  commits_ready (length (commits (commit_queue d))) ((_ ← enact_all false; flush_logs 0) d).2.

Lemma db_kill_logs_ok d M : db_repr d M → bg_err d = None → reader_ok (db_log d) → kill_ready d →
  ∃ d' M', db_kill_logs d = (Ok tt, d') ∧ same_db d M d' M' ∧ commits (commit_queue d') = [] ∧
    log_pool (db_log d') = [] ∧ reading_file (db_log d') = None.
Proof.
  intros Hd Hbg Hr Hready. destruct (enact_all_ok d M Hd Hr) as (d1 & R1 & S1 & Q1 & I1).
  destruct (flush_all_ok d1 M 0 (sd_repr _ _ _ _ S1) I1) as (b2 & d2 & R2 & S2 & Q2 & I2).
  unfold kill_ready in Hready. erewrite ST_bind_Ok in Hready by exact R1. rewrite R2 in Hready. cbn [snd] in Hready.
  destruct (process_while (length (commits (commit_queue d))) d2 M) as (d3 & M3 & R3 & S3 & Q3 & I3);
    [by rewrite Q2, Q1|apply S2|done|done|].
  destruct (enact_all_ok d3 M3 (sd_repr _ _ _ _ S3) I3) as (d4 & R4 & S4 & Q4 & I4).
  destruct (flush_all_ok d4 M3 0 (sd_repr _ _ _ _ S4) I4) as (b5 & d5 & R5 & S5 & Q5 & I5).
  destruct (enact_all_ok d5 M3 (sd_repr _ _ _ _ S5) I5) as (d6 & R6 & S6 & Q6 & I6).
  destruct (clean_all_ok d6 M3 (sd_repr _ _ _ _ S6) I6) as (d7 & R7 & S7 & Q7 & I7 & C7).
  destruct (kill_log_ok d7 M3 (sd_repr _ _ _ _ S7) I7 C7) as (d8 & R8 & S8 & Q8 & L8 & F8).
  exists d8, M3. split_and!; [|do 7 (eapply same_db_trans; [eassumption|]); exact S8| |done|done].
  2: { by rewrite Q8, Q7, Q6, Q5, Q4. }
  unfold db_kill_logs. erewrite ST_bind_Ok by done. rewrite Hbg. erewrite ST_bind_Ok by exact R1.
  erewrite ST_bind_Ok by exact R2. erewrite ST_bind_Ok by done. erewrite ST_bind_Ok by (rewrite Q2, Q1; exact R3).
  erewrite ST_bind_Ok by exact R4. erewrite ST_bind_Ok by exact R5. erewrite ST_bind_Ok by exact R6.
  erewrite ST_bind_Ok by exact R7. exact R8.
Qed.

End Shutdown.
