(* ===== verification/DbThms.v ===== *)
(** * Theorems about the database

    What a client of [Db] (src/src/db.rs) relies on: reads see every commit, in
    order, whatever the log worker has done so far. *)

From S2P Require Import Prelude.
From S2P Require Import Bytes.
From S2P Require Import Ids.
From S2P Require Import Log.
From S2P Require Import LogState.
From S2P Require Import LogProofs.
From S2P Require Import LogStateProofs.
From S2P Require Import LogReplay.
From S2P Require Import Table.
From S2P Require Import Instances.
From S2P Require Import Index.
From S2P Require Import Compress.
From S2P Require Import Stats.
From S2P Require Import Options.
From S2P Require Import OptionsThms.
From S2P Require Import Column.
From S2P Require Import HashColumn.
From S2P Require Import ColumnTables.
From S2P Require Import ColumnMap.
From S2P Require Import ColumnSession.
From S2P Require Import ColumnOpen.
From S2P Require Import ColumnThms.
From S2P Require Import BTreeNode.
From S2P Require Import BTree.
From S2P Require Import Overlay.
From S2P Require Import Db.
From S2P Require Import DbOpen.
From S2P Require Import DbOverlay.
From S2P Require Import DbSteps.
From S2P Require Import DbColumns.
From S2P Require Import DbRefine.
From S2P Require Import DbPipeline.
From S2P Require Import DbNew.
From S2P Require Import DbRecover.
From stdpp Require Import options.
#[local] Set Default Proof Using "All".

(** ** Histories of operations *)

(** A client commits and reads, the workers make turns; a turn that processes
    commits says whether there was one. [OpCrash k logs]: the process dies, with
    [Some k] while it enacts a record, after [k] of its entries; the directory
    is opened again, with the log files in the order [logs]. *)
Inductive DbOp :=
| OpCommit (tx : Tx)
| OpWork (op : WorkerOp)
| OpGet (c : ColId) (key : bytes)
| OpCrash (k : option nat) (logs : list (Z * bytes)).

Inductive DbRes :=
| Committed
| Worked (processed : option bool)
| Got (v : option bytes)
| Reopened.

Definition worked (op : WorkerOp) (b : bool) : DbRes :=
  Worked (match op with WCommits => Some b | _ => None end).

Section Ops.
Context `{!Uninit, !Codecs, !CodecLaws, !HashMapOrder, !Crc32, !Blake2, !Hex, !HexLaws}.

(** The state in which the process dies. *)
Definition dead (k : option nat) (d : DbInner) : DbInner :=
  match k with
  | None => d
  | Some k =>
      match read_next false (db_log d) with
      | (Ok (Some r), l) =>
          match enact_loop k (set_log l d, r) with
          | (NoFuel, (d', _)) => d'
          | _ => d
          end
      | _ => d
      end
  end.

Lemma dead_dies k d : dies d (dead k d).
Proof using Type.
  destruct k as [k|]; [|constructor]. cbn [dead]. destruct (read_next false (db_log d)) as [[[r|]| | | | |] l] eqn:Er; try constructor.
  destruct (enact_loop k (set_log l d, r)) as [[] [d' r']] eqn:El; try constructor. by eapply dies_enacting.
Qed.

(** The database that is opened after the death; the salt that [open] could draw
    is not used, since the metadata has one. *)
Definition crash (k : option nat) (logs : list (Z * bytes)) : ST DbInner unit := fun d =>
  match (open_existing_db (db_options d) [] (left_dir (dead k d) logs)).1 with
  | Ok d' => (Ok tt, d')
  | Err e => (Err e, d)
  | Panic => (Panic, d)
  | Undefined => (Undefined, d)
  | Deadlock => (Deadlock, d)
  | NoFuel => (NoFuel, d)
  end.

Definition run_db (op : DbOp) : ST DbInner DbRes :=
  match op with
  | OpCommit tx => _ ← db_commit tx; mret Committed
  | OpWork op => b ← run_worker op; mret (worked op b)
  | OpGet c key => v ← db_get c key; mret (Got v)
  | OpCrash k logs => _ ← crash k logs; mret Reopened
  end.
Fixpoint run_dbs (ops : list DbOp) : ST DbInner (list DbRes) :=
  match ops with
  | [] => mret []
  | op :: ops => r ← run_db op; rs ← run_dbs ops; mret (r :: rs)
  end.

(** When an operation may be made: no worker has failed, the queues are not
    full, the keys are long enough for their columns, the tables and the index
    have room for the commit that is processed, no log file is still being read
    when another one is flushed, records are enacted without validation (the
    database was opened), reads are from columns that neither count nor keep
    their values, and a crash leaves a directory that can be opened. *)
Definition work_ready (op : WorkerOp) (d : DbInner) : Prop :=
  match op with
  | WCommits => process_ready d
  | WFlush _ => flush_ready d
  | WEnact validation => validation = false
  | WReindex | WClean => True
  end.
Definition db_ready (op : DbOp) (d : DbInner) : Prop :=
  match op with
  | OpCommit tx =>
      bg_err d = None ∧ queue_bytes (commit_queue d) ≤ MAX_COMMIT_QUEUE_BYTES ∧
      queue_record_id (commit_queue d) + 2 < 2 ^ 64 ∧ (0 < length (db_columns d))%nat ∧
      Forall (change_ok (db_options d)) tx
  | OpWork op => work_ready op d
  | OpGet c key => change_ok (db_options d) (c, key, None) ∧ plain_column (db_options d) (Z.to_nat c)
  | OpCrash k logs => reopenable d ∧ logs ≡ₚ map_to_list (disk (db_log (dead k d)))
  end.
Fixpoint dbs_ready (ops : list DbOp) (d : DbInner) : Prop :=
  match ops with
  | [] => True
  | op :: ops => db_ready op d ∧ dbs_ready ops (run_db op d).2
  end.

(** The same operations on a map [D], which a crash does not touch, and a queue
    of transactions, which a crash empties: a commit is seen at once. *)
Definition spec_db (options : Options) (version : Z) (D : DbMap) (Q : list Tx) (op : DbOp) : DbRes * DbMap * list Tx :=
  match op with
  | OpCommit tx => (Committed, D, Q ++ [tx])
  | OpWork WCommits =>
      match Q with
      | tx :: Q => (Worked (Some true), put_tx options version D tx, Q)
      | [] => (Worked (Some false), D, [])
      end
  | OpWork _ => (Worked None, D, Q)
  | OpGet c key =>
      (Got (match stored_key options version c key with
            | Ok k => fst <$> foldl (put_tx options version) D Q (Z.to_nat c) k
            | _ => None
            end), D, Q)
  | OpCrash _ _ => (Reopened, D, [])
  end.
Fixpoint spec_dbs (options : Options) (version : Z) (D : DbMap) (Q : list Tx) (ops : list DbOp) : list DbRes :=
  match ops with
  | [] => []
  | op :: ops =>
      let '(r, D, Q) := spec_db options version D Q op in r :: spec_dbs options version D Q ops
  end.

(** The specification does not distinguish maps that are equal pointwise. *)
Definition map_eq (A B : DbMap) : Prop := ∀ i, A i = B i.
#[local] Instance map_eq_equiv : Equivalence map_eq.
Proof using Type.
  split; [by intros A i|by intros A B He i|]. intros A B C H1' H2' i. by rewrite H1'.
Qed.
#[local] Instance put_change_proper options version : Proper (map_eq ==> (=) ==> map_eq) (put_change options version).
Proof using Type.
  intros A B He e _ <- i. unfold put_change. destruct e as [[c key] v].
  destruct (stored_key options version c key); try apply He. unfold set_map. destruct (decide _); [by rewrite He|apply He].
Qed.
#[local] Instance put_tx_proper options version : Proper (map_eq ==> (=) ==> map_eq) (put_tx options version).
Proof using Type.
  intros A B He tx _ <-. unfold put_tx. revert A B He.
  induction tx as [|e tx IH]; intros A B He; [done|]. cbn [foldl]. apply IH. by rewrite He.
Qed.
#[local] Instance put_txs_proper options version : Proper (map_eq ==> (=) ==> map_eq) (foldl (put_tx options version)).
Proof using Type.
  intros A B He Q _ <-. revert A B He. induction Q as [|tx Q IH]; intros A B He; [done|]. cbn [foldl]. apply IH. by rewrite He.
Qed.

Lemma spec_db_eq options version A B Q op : map_eq A B →
  ∃ r A' B' Q', spec_db options version A Q op = (r, A', Q') ∧ spec_db options version B Q op = (r, B', Q') ∧ map_eq A' B'.
Proof using Type.
  intros He. destruct op as [tx|op|c key|k logs]; cbn.
  - by eexists _, _, _, _.
  - destruct op; try (by eexists _, _, _, _). destruct Q as [|tx Q]; [by eexists _, _, _, _|].
    eexists _, _, _, _. split_and!; [done..|]. by rewrite He.
  - eexists _, _, _, _. split_and!; [done| |done]. destruct (stored_key options version c key) as [kk| | | | |]; try done.
    assert (Hq : map_eq (foldl (put_tx options version) A Q) (foldl (put_tx options version) B Q)) by (by rewrite He).
    by rewrite Hq.
  - by eexists _, _, _, _.
Qed.

Lemma spec_dbs_eq options version ops : ∀ A B Q, map_eq A B →
  spec_dbs options version A Q ops = spec_dbs options version B Q ops.
Proof using Type.
  induction ops as [|op ops IH]; intros A B Q He; [done|]. cbn [spec_dbs].
  destruct (spec_db_eq options version A B Q op He) as (r & A' & B' & Q' & -> & -> & He'). f_equal. by apply IH.
Qed.

(** The queued commits are those of the transactions. *)
Definition queued_txs (d : DbInner) (Q : list Tx) : Prop :=
  Forall2 (fun c tx => ∀ A i, put_commit (db_options d) A c i = put_tx (db_options d) (db_version d) A tx i)
    (commits (commit_queue d)) Q.

Lemma queued_committed d M Q : queued_txs d Q →
  map_eq (committed d M) (foldl (put_tx (db_options d) (db_version d)) M Q).
Proof using Type.
  unfold queued_txs, committed. intros HQ. revert M. induction HQ as [|c tx cs Q Hc _ IH]; intros M; [done|].
  cbn [foldl]. rewrite (IH (put_commit (db_options d) M c)).
  assert (He : map_eq (put_commit (db_options d) M c) (put_tx (db_options d) (db_version d) M tx)) by (intros i; apply Hc).
  by rewrite He.
Qed.

(** A turn of a worker that leaves the queue alone. *)
Lemma run_worker_ok d M op : db_repr d M → work_ready op d → op ≠ WCommits →
  ∃ b d', run_worker op d = (Ok b, d') ∧ db_repr d' M ∧
    db_options d' = db_options d ∧ db_version d' = db_version d ∧ commit_queue d' = commit_queue d.
Proof.
  intros Hd Hr Hop.
  assert (Hsame : ∀ m : ST DbInner bool, (∃ b d', m d = (Ok b, d') ∧ db_repr d' M ∧ same_queue d d' ∧
      ∀ i, committed d' M i = committed d M i) →
    ∃ b d', m d = (Ok b, d') ∧ db_repr d' M ∧ db_options d' = db_options d ∧ db_version d' = db_version d ∧
      commit_queue d' = commit_queue d).
  { intros m (b & d' & Hrun & Hd' & [] & Hc). exists b, d'. by split_and!. }
  destruct op as [| |v|n|]; cbn [work_ready run_worker] in *; [done|..].
  - apply Hsame. destruct (reindex_ok d M Hd) as (d' & H'). by exists false, d'.
  - subst v. by apply Hsame, enact_ok.
  - by apply Hsame, flush_ok.
  - by apply Hsame, clean_ok.
Qed.

Lemma crash_ok d M k logs : db_repr d M → reopenable d → logs ≡ₚ map_to_list (disk (db_log (dead k d))) →
  ∃ d', crash k logs d = (Ok tt, d') ∧ db_repr d' M ∧ db_options d' = db_options d ∧ db_version d' = db_version d ∧
    commits (commit_queue d') = [].
Proof.
  intros Hd Hr Hlogs. destruct (open_left d (dead k d) M logs [] Hd (dead_dies k d) Hr Hlogs) as (d' & dir' & Hrun & H').
  exists d'. unfold crash. by rewrite Hrun.
Qed.

(** One operation refines the specification. *)
Lemma run_db_ok d M Q op : db_repr d M → queued_txs d Q → db_ready op d →
  ∃ r d' M' D' Q', run_db op d = (Ok r, d') ∧ db_repr d' M' ∧ queued_txs d' Q' ∧
    spec_db (db_options d) (db_version d) M Q op = (r, D', Q') ∧ map_eq D' M' ∧
    db_options d' = db_options d ∧ db_version d' = db_version d.
Proof.
  intros Hd HQ Hr. destruct op as [tx|op|c key|k logs]; cbn [db_ready] in Hr.
  - destruct Hr as (R1 & R2 & R3 & R4 & R5).
    destruct (commit_ok d M tx Hd R1 R2 R3 R4 R5) as (d' & Hrun & Hd' & (cm & Hc & Hput) & K1 & K2 & _).
    eexists _, d', M, _, _. split_and!; [|done| |done|done|done|done].
    + cbn [run_db]. by erewrite ST_bind_Ok by exact Hrun.
    + unfold queued_txs. rewrite Hc, K1, K2. by apply Forall2_app; [|constructor].
  - destruct (decide (op = WCommits)) as [->|Hop].
    + destruct (process_ok d M Hd Hr) as (b & d' & M' & Hrun & -> & Hd' & -> & Hq & _ & K1 & K2 & _).
      unfold queued_txs in *.
      eexists _, d', _, (match Q with tx :: _ => put_tx (db_options d) (db_version d) M tx | [] => M end), (tail Q).
      split_and!; [cbn [run_db run_worker]; by erewrite ST_bind_Ok by exact Hrun|done| | | |done|done].
      * rewrite Hq, K1, K2. by destruct HQ.
      * cbn [spec_db]. destruct HQ; reflexivity.
      * destruct HQ as [|c tx cs Q' Hc _]; [done|]. intros i. symmetry. apply Hc.
    + destruct (run_worker_ok d M op Hd Hr Hop) as (b & d' & Hrun & Hd' & K1 & K2 & Hq).
      exists (worked op b), d', M, M, Q. split_and!; [|done| | |done|done|done].
      * cbn [run_db]. by erewrite ST_bind_Ok by exact Hrun.
      * unfold queued_txs. by rewrite Hq, K1, K2.
      * by destruct op.
  - destruct Hr as [R1 R2]. destruct (get_ok d M c key Hd R1 R2) as (kk & d' & Hk & Hrun & Hd' & Hc & Hq & K1 & K2 & K3 & K4).
    eexists _, d', M, M, Q. split_and!; [|done| | |done|done|done].
    + cbn [run_db]. by erewrite ST_bind_Ok by exact Hrun.
    + unfold queued_txs. by rewrite Hq, K1, K2.
    + cbn [spec_db]. by rewrite Hk, (queued_committed d M Q HQ).
  - destruct Hr as [R1 R2]. destruct (crash_ok d M k logs Hd R1 R2) as (d' & Hrun & Hd' & K1 & K2 & Hq).
    eexists _, d', M, M, []. split_and!; [|done| |done|done|done|done].
    + cbn [run_db]. by erewrite ST_bind_Ok by exact Hrun.
    + unfold queued_txs. rewrite Hq. constructor.
Qed.

(** A history. *)
Lemma run_dbs_ok ops : ∀ d M Q, db_repr d M → queued_txs d Q → dbs_ready ops d →
  ∃ d' M', run_dbs ops d = (Ok (spec_dbs (db_options d) (db_version d) M Q ops), d') ∧ db_repr d' M'.
Proof.
  induction ops as [|op ops IH]; intros d M Q Hd HQ Hr; [by exists d, M|].
  destruct Hr as [Hop Hr].
  destruct (run_db_ok d M Q op Hd HQ Hop) as (r & d1 & M1 & D1 & Q1 & Hrun & Hd1 & HQ1 & Hspec & He & K1 & K2).
  rewrite Hrun in Hr. destruct (IH d1 M1 Q1 Hd1 HQ1 Hr) as (d2 & M2 & Hrun2 & Hd2). exists d2, M2. split; [|done].
  cbn [run_dbs spec_dbs]. erewrite ST_bind_Ok by exact Hrun. erewrite ST_bind_Ok by exact Hrun2.
  rewrite Hspec. unfold mret, ST_ret. rewrite K1, K2. by rewrite (spec_dbs_eq _ _ ops D1 M1).
Qed.

Lemma dbs_ready_app ops1 ops2 : ∀ d rs d', run_dbs ops1 d = (Ok rs, d') → dbs_ready ops1 d → dbs_ready ops2 d' →
  dbs_ready (ops1 ++ ops2) d.
Proof using Type.
  induction ops1 as [|op ops IH]; intros d rs d' Hrun H1' H2'; [by injection Hrun as _ <-|].
  destruct H1' as [Hop H1']. split; [done|]. cbn [run_dbs] in Hrun. unfold mbind, ST_bind in Hrun.
  destruct (run_db op d) as [[r| | | | |] d1] eqn:E1; try done. cbn [snd] in *.
  destruct (run_dbs ops d1) as [[rs'| | | | |] d2] eqn:E2; try done. injection Hrun as _ <-. by eapply IH.
Qed.

(** ** Claims *)


(** C2. Recovery: the process dies between two operations of the workers or in
    the middle of enacting a record, and the directory it left is opened again,
    with the log files in any order. The database that is opened holds what the
    tables and the log of the dead process held; no commit is queued. *)
Theorem crash_recovers (d d1 : DbInner) (M : DbMap) (logs : list (Z * bytes)) (random : bytes) :
  db_repr d M → dies d d1 → reopenable d → logs ≡ₚ map_to_list (disk (db_log d1)) →
  ∃ d' dir, open_existing_db (db_options d) random (left_dir d1 logs) = (Ok d', dir) ∧ db_repr d' M ∧
    db_options d' = db_options d ∧ db_version d' = db_version d ∧ commits (commit_queue d') = [].
Proof. apply open_left. Qed.

End Ops.

Section Claims.
Context `{!Uninit, !Codecs, !CodecLaws, !HashMapOrder, !Crc32, !Blake2, !Hex}.

(** A new database: in a directory without files, [open_or_create] with
    options for hash columns succeeds; the database holds the empty map and its
    queue is empty. *)
Theorem db_open_new_empty (options : Options) (random : bytes) :
  hash_options options → Options.is_valid options = true →
  length (default random (salt_opt options)) = 32%nat →
  ∃ d dir, open_or_create options random empty_dir = (Ok d, dir) ∧
    db_repr d (fun _ _ => None) ∧ (∀ i k, committed d (fun _ _ => None) i k = None) ∧
    columns (db_options d) = columns options ∧ db_version d = CURRENT_VERSION.
Proof.
  intros Hh Hv Hs. pose proof (open_new_db options random Hh Hv) as E. eexists _, _.
  split; [exact E|]. split; [by apply new_db_repr|done].
Qed.

(** C10. The commit overlay: from the opening of a database on, through any
    interleaving of commits and turns of the workers, and as long as no worker
    has failed, the overlay of every column (hash or ordered) holds exactly the
    last queued change of every key, with the id of its commit; the ids of the
    queued commits are distinct. *)
Theorem overlay_is_queue (options : Options) (random : bytes) (inner : InternalOptions) (dir dir' : Dir)
    (d0 d : DbInner) :
  open_inner options random inner dir = (Ok d0, dir') → rtc db_step d0 d → bg_err d = None → queue_ok d.
Proof using Type.
  intros Hopen Hsteps. apply open_inner_queue in Hopen as [Hq0 _].
  assert (Hinv : bg_err d0 = None → queue_ok d0) by done. clear Hq0.
  induction Hsteps as [d|d0 d1 d Hstep _ IH]; [done|]. apply IH. by apply (db_step_queue d0).
Qed.

(** C37. Writes under a salt of the options: when the options override the salt
    of the metadata so that a key is stored under another hash than the column
    looks for, a committed value is not read back: [get] answers as before the
    commit. *)
Theorem salt_override_unread (d d' : DbInner) (hc : HashColumn) (o : ColumnOptions) (c : ColId) (key v : bytes)
    (k k' : Key) :
  queue_ok d → queue_record_id (commit_queue d) + 2 < 2 ^ 64 → 0 ≤ c →
  length (columns (db_options d)) = length (commit_overlay d) →
  db_columns d !! Z.to_nat c = Some (Hash hc) → columns (db_options d) !! Z.to_nat c = Some o →
  btree_index o = false → column_hash_key hc key = Ok k →
  stored_key (db_options d) (db_version d) c key = Ok k' → k ≠ k' →
  db_commit [(c, key, Some v)] d = (Ok tt, d') →
  (db_get c key d').1 = (db_get c key d).1.
Proof using Type.
  intros Hq Hid Hc Hlen Hcol Ho Hb Hk Hk' Hne Hrun. unfold stored_key in Hk'. rewrite Ho in Hk'. cbn [unwrap] in Hk'.
  rewrite outcome_bind_Ok in Hk'.
  set (cs := MkCommitChangeSet {[c := [(k', Some v)]]} ∅).
  assert (Hcs : commit_changes (db_options d) (db_version d) [(c, key, Some v)] (MkCommitChangeSet ∅ ∅) = Ok cs).
  { cbn [commit_changes]. rewrite Ho. cbn [unwrap]. rewrite outcome_bind_Ok, Hb. unfold IndexedChangeSet.push.
    by rewrite Hk', !outcome_bind_Ok. }
  assert (Hok : changes_ok (db_options d) (length (commit_overlay d)) cs).
  { split_and!; [done| |done]. intros c1 ch Hc1. cbn in Hc1. apply lookup_singleton_Some in Hc1 as [<- _].
    apply lookup_lt_Some in Ho. lia. }
  unfold db_commit in Hrun. erewrite ST_bind_Ok in Hrun by done. rewrite Hcs in Hrun.
  destruct (commit_raw_queue cs d d' Hq Hok Hid Hrun) as (Hq' & _ & K1 & K2 & K3 & K4 & b & Hqs).
  assert (Hov : ∀ i, match commit_overlay d' !! i with Some o => CommitOverlay.get k o | None => None end =
                     match commit_overlay d !! i with Some o => CommitOverlay.get k o | None => None end).
  { intros i. destruct (commit_overlay d !! i) as [o1|] eqn:E1.
    - destruct (lookup_lt_is_Some_2 (commit_overlay d') i) as [o2 E2].
      { rewrite K2. by eapply lookup_lt_Some. }
      rewrite E2. unfold CommitOverlay.get. destruct (qo_overlay _ Hq i o1 E1) as [H1' _].
      destruct (qo_overlay _ Hq' i o2 E2) as [H2' _]. rewrite H1', H2', K1, Hqs, pending_snoc. f_equal.
      unfold add_pending, indexed_changes. cbn [changeset cs_indexed cs].
      replace (last_change _ _) with (@None (option bytes)); [done|].
      destruct (decide (c = Z.of_nat i)) as [->|Hi].
      + rewrite lookup_singleton_eq. cbn [default id]. unfold recorded. rewrite filter_cons_True by eauto.
        rewrite last_change_cons. cbn. by rewrite decide_False.
      + by rewrite lookup_singleton_ne.
    - rewrite (lookup_ge_None_2 (commit_overlay d')); [done|]. apply lookup_ge_None_1 in E1. lia. }
  unfold db_get. rewrite K3, Hcol, Hk. specialize (Hov (Z.to_nat c)).
  assert (E : ∀ ov : option CommitOverlay, ov ≫= CommitOverlay.get k = match ov with Some o => CommitOverlay.get k o | None => None end)
    by (by intros []).
  rewrite !E, Hov, K4. destruct (commit_overlay d !! Z.to_nat c) as [o1|].
  - destruct (CommitOverlay.get k o1); [done|]. by destruct (column_get k (lg_overlays (db_log d)) hc).
  - by destruct (column_get k (lg_overlays (db_log d)) hc).
Qed.

(** C38. Replay of a damaged log: a record that names a column the database does
    not have panics before its checksum is looked at, instead of being
    discarded. *)
Theorem replay_unknown_column_panics (d : DbInner) (h : Handle) (rid i : Z) (table : ValueTableId) (rest : bytes) :
  reading_state (db_log d) = Reading_ → reading_file (db_log d) = Some h → h_pos h = 0%nat →
  disk (db_log d) !! h_id h = Some (le_encode 1 BEGIN_RECORD ++ le_encode 8 rid ++
    entry_head (EValue table i []) ++ rest) →
  is_u64 rid → rid = wrap64 (last_enacted d + 1) → is_u16 (ValueTableId.as_u16 table) → is_u64 i →
  (length (db_columns d) ≤ Z.to_nat (ValueTableId.col table))%nat →
  (enact_logs true d).1 = Panic.
Proof using Type.
  intros Hst Hf Hpos Hd Hu Hrid Ht Hi Hcol. set (f := le_encode 1 BEGIN_RECORD ++ _) in Hd.
  assert (Hr0 : reader_at (LogReader.new f 0 true) [] (le_encode 1 BEGIN_RECORD ++ le_encode 8 rid ++
    entry_head (EValue table i []) ++ rest)) by (split; [by rewrite drop_0|cbn; lia]).
  destruct (next_begin _ rid _ Hu Hr0) as (r1 & E1 & A1 & Hr1).
  destruct (next_entry (LogReader.set_record_id rid r1) (EValue table i []) rest (conj Ht Hi) Hr1) as (r2 & E2 & A2 & _).
  unfold enact_logs, on_db_log, zoom. unfold read_next at 1. rewrite Hst, Hf, Hpos, Hd. cbn [default id].
  rewrite E1. unfold mbind, ST_bind. unfold with_reader at 1. unfold validate_record.
  unfold mbind, ST_bind, get_st. cbn [reader_record_id LogReader.set_record_id last_enacted set_log].
  rewrite Hrid, Z.eqb_refl. unfold read_fuel. cbn [validate_loop]. unfold on_reader at 1, zoom. cbn [snd].
  rewrite <- Hrid, E2. cbn [entry_action]. unfold on_columns, zoom, at_column. cbn [fst snd db_columns set_log].
  by rewrite (lookup_ge_None_2 _ _ Hcol).
Qed.

End Claims.

(** ** The theorems at a concrete database *)

#[local] Existing Instances zero_uninit stored_codecs list_order ieee_crc32 hex_codec.

(** A hash that pads or cuts the data. *)
Definition pad_hash : Blake2.
Proof.
  refine {| blake2b := fun _ d => take 32 (d ++ replicate 32 x00) |}.
  intros k d. rewrite length_take, length_app, length_replicate. lia.
Defined.
#[local] Existing Instance pad_hash.

(** One plain column with uniform keys. *)
Definition one_column (salt : option bytes) : Options :=
  MkOptions [MkColumnOptions false true false NoCompression 4096 false] true true false salt.
Definition zero_salt : bytes := replicate 32 x00.
Definition some_key : bytes := replicate 32 x05.
Definition small_db : DbInner := new_db (one_column None) zero_salt.

Lemma one_column_hash salt : hash_options (one_column salt).
Proof. split; [by repeat constructor|]. apply Nat.leb_le. reflexivity. Qed.

(** A commit goes to the log; the process dies while it is enacted, with another
    commit in the queue; then it goes all the way to the tables. *)
Definition ops_before : list DbOp :=
  [OpCommit [(0, some_key, Some [x01; x02])]; OpGet 0 some_key; OpWork WCommits; OpWork (WFlush 0); OpWork (WFlush 0);
   OpCommit [(0, some_key, Some [x03])]; OpGet 0 some_key].
Definition dying_db : DbInner := (run_dbs ops_before small_db).2.
Definition left_logs : list (Z * bytes) := map_to_list (disk (db_log dying_db)).
Definition ops_after : list DbOp :=
  [OpCrash (Some 1%nat) left_logs; OpGet 0 some_key; OpWork (WFlush 0); OpWork (WEnact false); OpGet 0 some_key; OpWork WClean].
Definition some_ops : list DbOp := ops_before ++ ops_after.

Lemma some_change_ok salt v : change_ok (one_column salt) (0, some_key, v).
Proof. split; [done|]. eexists. split_and!; [done|done|]. apply Nat.leb_le. reflexivity. Qed.
Lemma one_column_plain salt : plain_column (one_column salt) 0.
Proof. by eexists. Qed.

(** Evaluates a field of a state that an operation left. *)
Ltac field_is f v :=
  match goal with |- context [f ?d] => replace (f d) with v by (vm_compute; reflexivity) end.

(** What the first commit queues. *)
Definition some_commit : Commit :=
  MkCommit 2 34 (MkCommitChangeSet {[0 := [(some_key, Some [x01; x02])]]} ∅).

Lemma some_commit_room :
  commit_room (new_columns (one_column None) zero_salt) (LogWriter.new empty_overlays 0) (changeset some_commit).
Proof.
  apply (new_db_room (H1 := stored_codec_laws)); [apply one_column_hash|done|].
  intros c ch Hc. cbn [changeset some_commit cs_indexed] in Hc. apply lookup_singleton_Some in Hc as [<- <-].
  split_and!; [done|done|apply Nat.leb_le; reflexivity|by apply Z.ltb_lt|]. intros o Ho.
  constructor; [|done]. split; [done|]. split; [done|]. injection Ho as <-. by eexists.
Qed.

(** Short files. *)
Lemma files_short (m : gmap Z bytes) : forallb (fun e => (length e.2 <? 1000)%nat) (map_to_list m) = true →
  ∀ id f, m !! id = Some f → Z.of_nat (length f) < 2 ^ 64.
Proof.
  intros E id f Hf%elem_of_map_to_list%list_elem_of_In. rewrite forallb_forall in E. specialize (E _ Hf).
  apply Nat.ltb_lt in E. cbn [snd] in E. lia.
Qed.

Lemma dying_reopenable : reopenable dying_db.
Proof.
  split.
  - exists zero_salt. split; vm_compute; reflexivity.
  - field_is db_version CURRENT_VERSION. by split; [apply Z.leb_le|apply Z.ltb_lt].
  - field_is db_options (one_column (Some zero_salt)). by repeat constructor.
  - apply Z.ltb_lt. vm_compute. reflexivity.
  - apply files_short. vm_compute. reflexivity.
Qed.

Lemma perm_of_eq {A} (l k : list A) : l = k → l ≡ₚ k.
Proof. by intros ->. Qed.

(** When the operations of the runs may be made. *)
Lemma get_ready d : db_options d = one_column (Some zero_salt) → db_ready (OpGet 0 some_key) d.
Proof. intros E. unfold db_ready. rewrite E. split; [apply some_change_ok|apply one_column_plain]. Qed.
Lemma commit_ready d v : db_options d = one_column (Some zero_salt) → bg_err d = None →
  (queue_bytes (commit_queue d) <=? MAX_COMMIT_QUEUE_BYTES) = true → (queue_record_id (commit_queue d) + 2 <? 2 ^ 64) = true →
  (0 <? length (db_columns d))%nat = true → db_ready (OpCommit [(0, some_key, v)]) d.
Proof.
  intros E H1' H2'%Z.leb_le H3'%Z.ltb_lt H4'%Nat.ltb_lt. unfold db_ready. rewrite E. split_and!; try done.
  constructor; [apply some_change_ok|done].
Qed.

Lemma ops_before_ready : dbs_ready ops_before small_db.
Proof.
  refine (conj (commit_ready _ _ _ _ _ _ _) (conj (get_ready _ _) (conj _ (conj _ (conj _ (conj (commit_ready _ _ _ _ _ _ _)
    (conj (get_ready _ _) I)))))));
    [vm_compute; reflexivity|vm_compute; reflexivity|vm_compute; reflexivity|vm_compute; reflexivity|vm_compute; reflexivity|vm_compute; reflexivity| |left; vm_compute; reflexivity|right; vm_compute; reflexivity|vm_compute; reflexivity..].
  unfold db_ready, work_ready, process_ready.
  field_is db_columns (new_columns (one_column None) zero_salt). field_is log_queue 0.
  field_is db_log (new_log (one_column None)). field_is db_shutdown false.
  match goal with |- context [commits (commit_queue ?d)] =>
    replace (commits (commit_queue d)) with [some_commit] by (vm_compute; reflexivity) end.
  split_and!; [right; by apply Z.leb_le|by apply Z.ltb_lt|by apply Z.ltb_lt|apply some_commit_room].
Qed.

Lemma dying_run : ∃ rs M, run_dbs ops_before small_db = (Ok rs, dying_db) ∧ db_repr dying_db M.
Proof.
  destruct (run_dbs_ok (H1 := stored_codec_laws) (H6 := hex_codec_laws) ops_before small_db (fun _ _ => None) []) as (d & M & Hrun & Hd).
  - apply (new_db_repr (H1 := stored_codec_laws)); [apply one_column_hash|reflexivity].
  - constructor.
  - exact ops_before_ready.
  - assert (E : d = dying_db) by (unfold dying_db; by rewrite Hrun). rewrite E in Hd, Hrun. eexists _, M. exact (conj Hrun Hd).
Qed.

Lemma ops_after_ready : dbs_ready ops_after dying_db.
Proof.
  refine (conj (conj dying_reopenable _) (conj (get_ready _ _) (conj _ (conj eq_refl (conj (get_ready _ _) (conj I I))))));
    [apply perm_of_eq; vm_compute; reflexivity|vm_compute; reflexivity|left; vm_compute; reflexivity|vm_compute; reflexivity].
Qed.


(** The first entry of the record that was enacted made the index file. *)
Lemma crash_recovers_witness : ∃ d' dir M,
  open_existing_db (db_options dying_db) [] (left_dir (dead (Some 1%nat) dying_db) left_logs) = (Ok d', dir) ∧ db_repr d' M ∧
  (db_get 0 some_key d').1 = Ok (Some [x01; x02]) ∧
  left_index (db_columns dying_db) 0 16 = None ∧
  bool_decide (is_Some (left_index (db_columns (dead (Some 1%nat) dying_db)) 0 16)) = true.
Proof.
  destruct dying_run as (_ & M & _ & Hd).
  destruct (crash_recovers (H1 := stored_codec_laws) (H6 := hex_codec_laws) dying_db (dead (Some 1%nat) dying_db) M left_logs []) as
      (d' & dir & Hrun & Hd' & _).
  - exact Hd.
  - apply dead_dies.
  - exact dying_reopenable.
  - apply perm_of_eq. vm_compute. reflexivity.
  - exists d', dir, M. split; [exact Hrun|]. split; [exact Hd'|]. split; [|split; vm_compute; reflexivity].
    assert (Eget : match (open_existing_db (db_options dying_db) [] (left_dir (dead (Some 1%nat) dying_db) left_logs)).1 with
      | Ok d' => (db_get 0 some_key d').1 | _ => Panic end = Ok (Some [x01; x02])) by (vm_compute; reflexivity).
    rewrite Hrun in Eget. exact Eget.
Defined.

Lemma db_open_new_empty_witness :
  ∃ d dir, open_or_create (one_column None) zero_salt empty_dir = (Ok d, dir) ∧ db_version d = 7.
Proof.
  destruct (db_open_new_empty (H1 := stored_codec_laws) (one_column None) zero_salt) as (d & dir & E & _ & _ & _ & Hv).
  - apply one_column_hash.
  - reflexivity.
  - reflexivity.
  - exists d, dir. split; [exact E|exact Hv].
Defined.

(** A run: the database is created and a commit is queued. *)
Definition queued_db : DbInner := (commit_raw (changeset some_commit) small_db).2.

Lemma queued_step : db_step small_db queued_db.
Proof.
  apply (step_commit _ (changeset some_commit)).
  - split_and!; [done| |done]. intros c ch Hc. cbn in Hc. by apply lookup_singleton_Some in Hc as [<- _].
  - by apply Z.ltb_lt.
  - assert (E : (commit_raw (changeset some_commit) small_db).1 = Ok tt) by (vm_compute; reflexivity).
    rewrite <- E. apply surjective_pairing.
Qed.

Lemma overlay_is_queue_witness : queue_ok queued_db ∧ length (commits (commit_queue queued_db)) = 1%nat.
Proof.
  split; [|by vm_compute].
  pose proof (open_new_db (H1 := stored_codec_laws) (one_column None) zero_salt (one_column_hash None) eq_refl) as E.
  apply (overlay_is_queue _ _ _ _ _ _ queued_db E).
  - eapply rtc_l; [apply queued_step|apply rtc_refl].
  - by vm_compute.
Defined.

(** A database that was created with one salt and is opened with another. *)
Definition other_salt : bytes := replicate 32 x01.
Definition created_dir : Dir := (open_or_create (one_column None) zero_salt empty_dir).2.
Definition reopened : outcome DbInner := (open_existing_db (one_column (Some other_salt)) zero_salt created_dir).1.
Definition reopened_db : DbInner := match reopened with Ok d => d | _ => small_db end.
Definition reopened_column : HashColumn := new_column 0 false (MkColumnOptions false true false NoCompression 4096 false) zero_salt 7.

Lemma reopened_queue : reopened = Ok reopened_db ∧ queue_ok reopened_db.
Proof.
  assert (E : reopened = Ok reopened_db) by (by vm_compute). split; [done|].
  assert (Ho : open_inner (one_column (Some other_salt)) zero_salt default_internal created_dir =
    (Ok reopened_db, (open_existing_db (one_column (Some other_salt)) zero_salt created_dir).2)).
  { rewrite <- E. unfold reopened, open_existing_db. by destruct (open_inner _ _ _ _). }
  by apply open_inner_queue in Ho as [Hq _].
Qed.

Definition unread_db : DbInner := (db_commit [(0, some_key, Some [x01])] reopened_db).2.

Lemma salt_override_unread_witness :
  db_commit [(0, some_key, Some [x01])] reopened_db = (Ok tt, unread_db) ∧ (db_get 0 some_key unread_db).1 = Ok None.
Proof.
  assert (Hrun : db_commit [(0, some_key, Some [x01])] reopened_db = (Ok tt, unread_db)).
  { assert (E : (db_commit [(0, some_key, Some [x01])] reopened_db).1 = Ok tt) by (vm_compute; reflexivity).
    rewrite <- E. apply surjective_pairing. }
  split; [exact Hrun|].
  rewrite (salt_override_unread reopened_db unread_db reopened_column
    (MkColumnOptions false true false NoCompression 4096 false) 0 some_key [x01] (replicate 32 x05) (replicate 32 x04)).
  - vm_compute. reflexivity.
  - apply reopened_queue.
  - vm_compute. reflexivity.
  - vm_compute. discriminate.
  - vm_compute. reflexivity.
  - vm_compute. reflexivity.
  - vm_compute. reflexivity.
  - reflexivity.
  - vm_compute. reflexivity.
  - vm_compute. reflexivity.
  - discriminate.
  - exact Hrun.
Defined.

(** A log file with a record that names column 7, and no more. *)
Definition damaged_db : DbInner :=
  set_log (MkLogFiles empty_overlays None (Some (MkHandle 0 0)) Reading_ None 1 true [] [] [] 1 true
    {[0 := le_encode 1 BEGIN_RECORD ++ le_encode 8 2 ++ entry_head (EValue (ValueTableId.new 7 0) 1 []) ++ []]}) small_db.

Lemma replay_unknown_column_panics_witness : (enact_logs true damaged_db).1 = Panic.
Proof.
  apply (replay_unknown_column_panics damaged_db (MkHandle 0 0) 2 1 (ValueTableId.new 7 0) []).
  - reflexivity.
  - reflexivity.
  - reflexivity.
  - reflexivity.
  - by split.
  - reflexivity.
  - by split.
  - by split.
  - apply Nat.leb_le. reflexivity.
Defined.
