(* ===== verification/DbClose.v ===== *)
(** * Closing and opening again

    [Drop for Db] followed by [Db::open] (src/src/db.rs): nothing that was
    committed is lost, also what was only queued. *)

From S2P Require Import Prelude.
From S2P Require Import Bytes.
From S2P Require Import Ids.
From S2P Require Import File.
From S2P Require Import Log.
From S2P Require Import LogState.
From S2P Require Import LogPending.
From S2P Require Import LogCrash.
From S2P Require Import Table.
From S2P Require Import Instances.
From S2P Require Import Index.
From S2P Require Import Compress.
From S2P Require Import Options.
From S2P Require Import OptionsThms.
From S2P Require Import Column.
From S2P Require Import HashColumn.
From S2P Require Import ColumnMap.
From S2P Require Import ColumnSession.
From S2P Require Import ColumnThms.
From S2P Require Import BTreeNode.
From S2P Require Import BTree.
From S2P Require Import Overlay.
From S2P Require Import Db.
From S2P Require Import DbOpen.
From S2P Require Import DbOverlay.
From S2P Require Import DbColumns.
From S2P Require Import DbSteps.
From S2P Require Import DbRefine.
From S2P Require Import DbPipeline.
From S2P Require Import DbNew.
From S2P Require Import DbRecover.
From S2P Require Import DbThms.
From S2P Require Import DbShutdown.
From stdpp Require Import options.
#[local] Set Default Proof Using "All".

Section Close.
Context `{!Uninit, !Codecs, !CodecLaws, !HashMapOrder, !Crc32, !Blake2, !Hex, !HexLaws}.

Lemma db_repr_map d M M' : (∀ i, M' i = M i) → db_repr d M → db_repr d M'.
Proof. intros He []. split; try done. by eapply cols_repr_map. Qed.

(** The database that is closed. *)
Lemma db_drop_ok d M : db_repr d M → bg_err d = None → reader_ok (db_log d) → kill_ready (shutdown d) →
  db_repr (db_drop d) (committed d M) ∧ commits (commit_queue (db_drop d)) = [] ∧
  db_options (db_drop d) = db_options d ∧ db_version (db_drop d) = db_version d ∧
  log_pool (db_log (db_drop d)) = [] ∧ reading_file (db_log (db_drop d)) = None.
Proof.
  intros Hd Hbg Hr Hk. assert (Hd' : db_repr (shutdown d) M) by (by destruct Hd; split).
  destruct (db_kill_logs_ok (shutdown d) M Hd' Hbg Hr Hk) as (d1 & M1 & Hrun & [S1 S2 S3 S4 S5] & Hq & Hl & Hf).
  unfold db_drop. rewrite Hrun. cbn [snd]. split_and!; try done. eapply db_repr_map; [|exact S1].
  intros i. etrans; [symmetry; exact (S2 i)|]. unfold committed. by rewrite Hq.
Qed.


End Close.

(** ** The theorem at a concrete database *)

#[local] Existing Instances zero_uninit stored_codecs list_order ieee_crc32 hex_codec pad_hash.

(** A commit is queued when the database is closed; it stays in a log file. *)
Definition closed_db : DbInner := db_drop queued_db.
Definition closed_logs : list (Z * bytes) := map_to_list (disk (db_log closed_db)).

Lemma queued_repr : db_repr queued_db (fun _ _ => None).
Proof.
  assert (Hd : db_repr small_db (fun _ _ => None)) by (apply (new_db_repr (H1 := stored_codec_laws)); [apply one_column_hash|reflexivity]).
  destruct (commit_ok (H1 := stored_codec_laws) small_db (fun _ _ => None) [(0, some_key, Some [x01; x02])] Hd) as
    (d' & Hrun & Hd' & _); [reflexivity|by apply Z.leb_le|by apply Z.ltb_lt|by apply Nat.ltb_lt|
      constructor; [apply some_change_ok|done]|].
  assert (E : (db_commit [(0, some_key, Some [x01; x02])] small_db).2 = queued_db) by (vm_compute; reflexivity).
  rewrite Hrun in E. cbn [snd] in E. by rewrite <- E.
Qed.

Lemma queued_kill_ready : kill_ready (shutdown queued_db).
Proof.
  unfold kill_ready. field_is commits [some_commit]. cbn [length commits_ready]. unfold process_ready. split.
  - field_is db_columns (new_columns (one_column None) zero_salt). field_is db_log (new_log (one_column None)).
    match goal with |- context [commits (commit_queue ?d)] =>
      replace (commits (commit_queue d)) with [some_commit] by (vm_compute; reflexivity) end.
    split_and!; [left; vm_compute; reflexivity|by apply Z.ltb_lt|by apply Z.ltb_lt|apply some_commit_room].
  - split; [|done]. split_and!; [left; vm_compute; reflexivity|apply Z.ltb_lt; vm_compute; reflexivity|
      apply Z.ltb_lt; vm_compute; reflexivity|].
    match goal with |- context [commits (commit_queue ?d)] =>
      replace (commits (commit_queue d)) with (@nil Commit) by (vm_compute; reflexivity) end. done.
Qed.

Lemma closed_reopenable : reopenable closed_db.
Proof.
  split.
  - exists zero_salt. split; vm_compute; reflexivity.
  - field_is db_version CURRENT_VERSION. by split; [apply Z.leb_le|apply Z.ltb_lt].
  - field_is db_options (one_column (Some zero_salt)). by repeat constructor.
  - apply Z.ltb_lt. vm_compute. reflexivity.
  - apply files_short. vm_compute. reflexivity.
Qed.

