(* ===== verification/DbTorn.v ===== *)
(** * Death while the log is written

    A process that dies while [Log::end_record] (src/src/log.rs) writes a record
    leaves a part of it at the end of a log file. What [Db::open]
    (src/src/db.rs) makes of it: the commit is there as a whole or not at all,
    unless the file is too short to open; and what is left of the log after
    such a recovery is not fit for another crash. *)

From S2P Require Import Prelude.
From S2P Require Import Bytes.
From S2P Require Import Ids.
From S2P Require Import File.
From S2P Require Import Log.
From S2P Require Import LogState.
From S2P Require Import LogPending.
From S2P Require Import LogCrash.
From S2P Require Import Table.
From S2P Require Import Instances.
From S2P Require Import Index.
From S2P Require Import Compress.
From S2P Require Import Options.
From S2P Require Import OptionsThms.
From S2P Require Import Column.
From S2P Require Import HashColumn.
From S2P Require Import ColumnMap.
From S2P Require Import ColumnSession.
From S2P Require Import ColumnThms.
From S2P Require Import BTreeNode.
From S2P Require Import BTree.
From S2P Require Import Overlay.
From S2P Require Import Db.
From S2P Require Import DbOpen.
From S2P Require Import DbOverlay.
From S2P Require Import DbColumns.
From S2P Require Import DbSteps.
From S2P Require Import DbRefine.
From S2P Require Import DbPipeline.
From S2P Require Import DbNew.
From S2P Require Import DbRecover.
From S2P Require Import DbThms.
From stdpp Require Import options.
#[local] Set Default Proof Using "All".

Section Torn.
Context `{!Uninit, !Codecs, !CodecLaws, !HashMapOrder, !Crc32, !Blake2, !Hex, !HexLaws}.

(** Every read of a column without counters returns the value of the map. *)
Definition answers (d : DbInner) (M : DbMap) : Prop :=
  ∀ c key, change_ok (db_options d) (c, key, None) → plain_column (db_options d) (Z.to_nat c) →
  ∃ k, stored_key (db_options d) (db_version d) c key = Ok k ∧ (db_get c key d).1 = Ok (fst <$> M (Z.to_nat c) k).

Lemma serves_answers d M : db_serves d M → answers d M.
Proof.
  intros [Hcols Hlen Hov Hq] c key Hch Hp. destruct (get_value d M c key Hcols Hlen Hov Hch Hp) as (k & d' & Hk & Hrun & _).
  exists k. split; [done|]. rewrite Hrun. unfold committed. by rewrite Hq.
Qed.

(** C5. Atomicity of a commit: the process dies while the log worker writes the
    record of the next commit, with any part of its bytes in the log file. If the
    directory can be opened - no log file is shorter than the head of a record -
    the database then answers as if the commit had been processed when the whole
    record was written, and as if it had never been made otherwise. Unless a
    record was torn and another log file waits for cleanup, the database is also
    ready for everything that may follow. *)
Theorem commit_atomic (d d' : DbInner) (M : DbMap) (b : bool) (D : gmap Z bytes) (logs : list (Z * bytes)) (random : bytes) :
  db_repr d M → process_ready d → process_commits d = (Ok b, d') → reopenable d' →
  dying_append (db_log d) (db_log d') D → (∀ id f, D !! id = Some f → file_readable f) → logs ≡ₚ map_to_list D →
  ∃ d2 dir, open_existing_db (db_options d) random (left_dir d' logs) = (Ok d2, dir) ∧
    let committed := match commits (commit_queue d) with c :: _ => put_commit (db_options d) M c | [] => M end in
    let M2 := if decide (D = disk (db_log d')) then committed else M in
    answers d2 M2 ∧ commits (commit_queue d2) = [] ∧
    (D = disk (db_log d') ∨ cleanup_queue (db_log d2) = [] → db_repr d2 M2).
Proof.
  intros Hd Hready Hrun Hro HD Hread Hlogs.
  destruct (open_dying d d' M _ b logs D random Hd Hready Hrun eq_refl Hro HD Hread Hlogs) as (d2 & dir & Hopen & Hs & Hd2 & _).
  exists d2, dir. split; [exact Hopen|]. cbv zeta in *. split; [by apply serves_answers|]. split; [apply Hs|done].
Qed.

(** ** Log files that are too short *)

Lemma open_logs_short files : ∀ logs max disk, (∃ id f, (id, f) ∈ files ∧ (0 < length f < 9)%nat) →
  open_logs files logs max disk = Err (Io UnexpectedEof).
Proof using Type.
  induction files as [|[id f] files IH]; intros logs max disk (id0 & f0 & Hin & Hf0); [by apply not_elem_of_nil in Hin|].
  cbn [open_logs]. unfold open_log_file. destruct (Nat.eqb_spec (length f) 0) as [E|E].
  - rewrite outcome_bind_Ok. apply IH. exists id0, f0. split; [|done]. apply elem_of_cons in Hin as [[= -> ->]|?]; [lia|done].
  - unfold read_exact_at. destruct (Nat.leb_spec (0 + 9) (length f)); [|done].
    rewrite !outcome_bind_Ok. apply IH. exists id0, f0. split; [|done]. apply elem_of_cons in Hin as [[= -> ->]|?]; [lia|done].
Qed.

(** C22. A log file with some bytes but less than the head of a record, as a
    process can leave it that dies when it starts a file, keeps the database from
    being opened: whatever else is in the directory, [Db::open] fails. *)
Theorem short_log_blocks_open (options : Options) (random : bytes) (inner : InternalOptions) (dir : Dir) (id : Z) (f : bytes) :
  (id, f) ∈ dir_logs dir → (0 < length f < 9)%nat →
  ∀ d dir', open_inner options random inner dir ≠ (Ok d, dir').
Proof using Type.
  intros Hin Hf d dir' Hrun. unfold open_inner in Hrun.
  apply ST_bind_inv in Hrun as (? & dir1 & H1' & Hrun). injection H1' as _ <-.
  apply ST_bind_inv in Hrun as (d1 & dir2 & Hrun & _). unfold db_open in Hrun.
  apply ST_bind_inv in Hrun as (? & dir3 & [= _ <-] & Hrun). apply ST_bind_inv in Hrun as (dir4 & ? & [= <- <-] & Hrun).
  do 3 (apply ST_bind_inv in Hrun as (? & ? & _ & Hrun)). apply ST_bind_inv in Hrun as (lg & ? & Hlog & _).
  assert (Hlogs : dir_logs (if create_opt inner then create_dir_all dir else dir) = dir_logs dir) by by destruct (create_opt inner).
  rewrite Hlogs in Hlog. unfold lift_st, open_log in Hlog. rewrite open_logs_short in Hlog; [done|by eexists _, _].
Qed.

End Torn.

(** ** At a concrete database *)

#[local] Existing Instances zero_uninit stored_codecs list_order ieee_crc32 hex_codec pad_hash.

(** A commit is queued; the process dies when twenty bytes of its record are in
    the first log file. *)
Definition one_queued : DbInner := (db_commit [(0, some_key, Some [x01; x02])] small_db).2.
Definition one_written : DbInner := (process_commits one_queued).2.
Definition written_file : bytes := default [] (disk (db_log one_written) !! 0).
Definition torn_files : gmap Z bytes := <[0 := take 20 written_file]> (disk (db_log one_written)).

Lemma one_queued_repr : db_repr one_queued (fun _ _ => None).
Proof.
  destruct (commit_ok (H1 := stored_codec_laws) small_db (fun _ _ => None) [(0, some_key, Some [x01; x02])]) as (d & Hrun & Hd & _).
  - apply (new_db_repr (H1 := stored_codec_laws)); [apply one_column_hash|reflexivity].
  - reflexivity.
  - by apply Z.leb_le.
  - by apply Z.ltb_lt.
  - by apply Nat.ltb_lt.
  - constructor; [apply some_change_ok|done].
  - unfold one_queued. by rewrite Hrun.
Qed.

Lemma one_queued_ready : process_ready one_queued.
Proof.
  unfold process_ready.
  field_is db_columns (new_columns (one_column None) zero_salt). field_is log_queue 0.
  field_is db_log (new_log (one_column None)). field_is db_shutdown false.
  replace (commits (commit_queue one_queued)) with [some_commit] by (vm_compute; reflexivity).
  split_and!; [right; by apply Z.leb_le|by apply Z.ltb_lt|by apply Z.ltb_lt|apply some_commit_room].
Qed.

Lemma one_written_reopenable : reopenable one_written.
Proof.
  split.
  - exists zero_salt. split; vm_compute; reflexivity.
  - field_is db_version CURRENT_VERSION. by split; [apply Z.leb_le|apply Z.ltb_lt].
  - field_is db_options (one_column (Some zero_salt)). by repeat constructor.
  - apply Z.ltb_lt. vm_compute. reflexivity.
  - apply files_short. vm_compute. reflexivity.
Qed.

Lemma torn_files_readable : ∀ id f, torn_files !! id = Some f → file_readable f.
Proof.
  assert (E : map_to_list torn_files = [(0, take 20 written_file)]) by (vm_compute; reflexivity).
  intros id f Hf%elem_of_map_to_list. rewrite E in Hf. apply list_elem_of_singleton in Hf. apply (f_equal snd) in Hf.
  change (f = take 20 written_file) in Hf. rewrite Hf. right. apply Nat.leb_le. vm_compute. reflexivity.
Qed.

Lemma torn_files_dying : dying_append (db_log one_queued) (db_log one_written) torn_files.
Proof.
  exists 0, written_file, 20%nat. split_and!; [vm_compute; reflexivity| |apply Nat.leb_le; vm_compute; reflexivity|reflexivity].
  apply Nat.leb_le. vm_compute. reflexivity.
Qed.

Lemma commit_atomic_witness : ∃ d2 dir,
  open_existing_db (db_options one_queued) [] (left_dir one_written (map_to_list torn_files)) = (Ok d2, dir) ∧
  (db_get 0 some_key d2).1 = Ok None ∧ db_repr d2 (fun _ _ => None).
Proof.
  assert (Hne : torn_files ≠ disk (db_log one_written)).
  { intros E. apply (f_equal (fun D => length (default [] (D !! 0)))) in E. revert E. vm_compute. discriminate. }
  destruct (commit_atomic (H1 := stored_codec_laws) (H6 := hex_codec_laws) one_queued one_written (fun _ _ => None) true torn_files
    (map_to_list torn_files) []) as (d2 & dir & Hopen & _ & _ & Hd2).
  - exact one_queued_repr.
  - exact one_queued_ready.
  - assert (E : (process_commits one_queued).1 = Ok true) by (vm_compute; reflexivity). rewrite <- E.
    unfold one_written. apply surjective_pairing.
  - exact one_written_reopenable.
  - exact torn_files_dying.
  - exact torn_files_readable.
  - reflexivity.
  - exists d2, dir. split; [exact Hopen|]. split.
    + assert (Eget : match (open_existing_db (db_options one_queued) [] (left_dir one_written (map_to_list torn_files))).1 with
        | Ok d => (db_get 0 some_key d).1 | _ => Panic end = Ok None) by (vm_compute; reflexivity).
      rewrite Hopen in Eget. exact Eget.
    + rewrite decide_False in Hd2 by exact Hne. apply Hd2. right.
      assert (Eq : match (open_existing_db (db_options one_queued) [] (left_dir one_written (map_to_list torn_files))).1 with
        | Ok d => cleanup_queue (db_log d) | _ => [MkHandle 0 0] end = []) by (vm_compute; reflexivity).
      rewrite Hopen in Eq. exact Eq.
Defined.

(** The head of a record, cut. *)
Lemma short_log_blocks_open_witness :
  (open_existing_db (one_column None) [] (left_dir one_written [(0, take 5 written_file)])).1 = Err (Io UnexpectedEof) ∧
  ∀ d dir', open_inner (one_column None) [] default_internal (left_dir one_written [(0, take 5 written_file)]) ≠ (Ok d, dir').
Proof.
  split; [vm_compute; reflexivity|]. intros d dir'.
  apply (short_log_blocks_open (one_column None) [] default_internal _ 0 (take 5 written_file)); [by left|].
  split; apply Nat.ltb_lt; vm_compute; reflexivity.
Defined.

(** ** Two crashes *)

(** The options of a database whose data files are not synced. *)
Definition unsynced : Options :=
  MkOptions [MkColumnOptions false true false NoCompression 4096 false] true false false None.

(** Three commits; the records of the second and the third are in one file. *)
Definition written (v : bytes) : list DbOp := [OpCommit [(0, some_key, Some v)]; OpWork WCommits].
Definition three_commits : list DbOp := written [x01] ++ [OpWork (WFlush 0)] ++ written [x02] ++ written [x03].
Definition three_db : DbInner := (run_dbs three_commits (new_db unsynced zero_salt)).2.

(** The log files of a database, with [n] bytes of file [1]. *)
Definition files_cut (n : nat) (d : DbInner) : list (Z * bytes) := map_to_list (alter (take n) 1 (disk (db_log d))).
Definition files_of (d : DbInner) : list (Z * bytes) := map_to_list (disk (db_log d)).

(** A fourth commit, all the way to the tables. *)
Definition to_the_tables : list DbOp :=
  written [x04] ++ [OpWork (WFlush 0); OpWork (WFlush 0); OpWork (WEnact false); OpWork WClean; OpGet 0 some_key].
Definition after_crash (n : nat) : list DbOp := [OpCrash None (files_cut n three_db); OpGet 0 some_key] ++ to_the_tables.
Definition second_crash (n : nat) : outcome (list DbRes) :=
  let d := (run_dbs (after_crash n) three_db).2 in (run_dbs [OpCrash None (files_of d); OpGet 0 some_key] d).1.

