(* ===== verification/MigrationProofs.v ===== *)
(** * Lemmas about migration

    The names of the files of a column, the changes that the callback of
    [migrate] collects, and what is committed of them. *)

From Stdlib Require Import Ascii String.
From S2P Require Import Prelude.
From S2P Require Import Bytes.
From S2P Require Import Ids.
From S2P Require Import File.
From S2P Require Import Log.
From S2P Require Import LogState.
From S2P Require Import LogPending.
From S2P Require Import LogCrash.
From S2P Require Import Table.
From S2P Require Import Instances.
From S2P Require Import Index.
From S2P Require Import Compress.
From S2P Require Import Options.
From S2P Require Import OptionsThms.
From S2P Require Import Column.
From S2P Require Import HashColumn.
From S2P Require Import ColumnMap.
From S2P Require Import ColumnSession.
From S2P Require Import ColumnThms.
From S2P Require Import BTreeNode.
From S2P Require Import BTree.
From S2P Require Import Overlay.
From S2P Require Import Db.
From S2P Require Import DbOpen.
From S2P Require Import DbOverlay.
From S2P Require Import DbColumns.
From S2P Require Import DbSteps.
From S2P Require Import DbRefine.
From S2P Require Import DbPipeline.
From S2P Require Import DbNew.
From S2P Require Import DbRecover.
From S2P Require Import DbThms.
From S2P Require Import DbShutdown.
From S2P Require Import TableSpec.
From S2P Require Import TableStore.
From S2P Require Import ColumnTables.
From S2P Require Import ColumnLinks.
From S2P Require Import ColumnProofs.
From S2P Require Import ColumnIter.
From S2P Require Import Frames.
From S2P Require Import Migration.
From S2P Require Import DbClose.
From stdpp Require Import options.
#[local] Set Default Proof Using "All".
#[local] Open Scope Z_scope.

(** ** Names of files *)

(** No underscore in a string. *)
Fixpoint plain (s : string) : bool :=
  match s with
  | EmptyString => true
  | String a s => negb (Ascii.eqb a "_"%char) && plain s
  end.

Lemma string_app_cons x a b : (String x a ++ b)%string = String x (a ++ b).
Proof. done. Qed.

Lemma prefix_app a b r : String.prefix (a ++ b) (a ++ r) = String.prefix b r.
Proof.
  induction a as [|x a IH]; [done|]. rewrite !string_app_cons. cbn [String.prefix].
  destruct (ascii_dec x x); [exact IH|done].
Qed.

(** Up to the first underscore two strings agree only when they are equal. *)
Lemma prefix_field a b r : plain a = true → plain b = true →
  String.prefix (a ++ "_") (b ++ "_" ++ r) = String.eqb a b.
Proof.
  revert b. induction a as [|x a IH]; intros [|y b] Ha Hb; rewrite ?string_app_cons in *; cbn [plain] in *.
  - destruct r; done.
  - apply andb_true_iff in Hb as [Hy Hb]. change ("" ++ "_")%string with "_"%string. cbn [String.prefix String.eqb].
    destruct (ascii_dec "_" y) as [<-|]; [discriminate Hy|done].
  - apply andb_true_iff in Ha as [Hx Ha]. change ("" ++ String "_" ("" ++ r))%string with (String "_" r). cbn [String.prefix String.eqb].
    destruct (ascii_dec x "_") as [->|]; [discriminate Hx|]. done.
  - apply andb_true_iff in Ha as [Hx Ha]. apply andb_true_iff in Hb as [Hy Hb]. cbn [String.prefix String.eqb].
    destruct (ascii_dec x y) as [->|Hne]; [rewrite Ascii.eqb_refl; by apply IH|].
    by rewrite (proj2 (Ascii.eqb_neq x y) Hne).
Qed.

(** The columns of a [u8] have different names. *)
Definition col_field (c : ColId) : string := pad2 (decimal c).

Lemma u8_in c : is_u8 c → In c (seqZ 0 256).
Proof. intros Hc. apply list_elem_of_In, elem_of_seqZ. unfold is_u8 in Hc. lia. Qed.

Lemma col_field_plain c : is_u8 c → plain (col_field c) = true.
Proof.
  assert (E : forallb (fun c => plain (col_field c)) (seqZ 0 256) = true) by (vm_compute; reflexivity).
  intros Hc. rewrite forallb_forall in E. by apply E, u8_in.
Qed.
Lemma col_field_eqb c c' : is_u8 c → is_u8 c' → String.eqb (col_field c) (col_field c') = (c =? c').
Proof.
  assert (E : forallb (fun c => forallb (fun c' => Bool.eqb (String.eqb (col_field c) (col_field c')) (c =? c'))
    (seqZ 0 256)) (seqZ 0 256) = true) by (vm_compute; reflexivity).
  intros Hc Hc'. rewrite forallb_forall in E. specialize (E c (u8_in c Hc)). rewrite forallb_forall in E.
  specialize (E c' (u8_in c' Hc')). cbv beta in E. by apply Bool.eqb_prop in E.
Qed.

Lemma field_match (kind rest : string) c c' : is_u8 c → is_u8 c' →
  String.prefix (kind ++ col_field c ++ "_") (kind ++ col_field c' ++ "_" ++ rest) = (c =? c').
Proof. intros Hc Hc'. rewrite prefix_app, prefix_field; [by apply col_field_eqb|by apply col_field_plain..]. Qed.

Lemma table_name_match c t : is_u8 c → is_u8 (ValueTableId.col t) →
  TableName.is_file_name c (TableName.file_name t) = (c =? ValueTableId.col t).
Proof. intros Hc Ht. exact (field_match "table_" _ _ _ Hc Ht). Qed.
Lemma index_name_match c t : is_u8 c → is_u8 (IndexTableId.col t) →
  IndexName.is_file_name c (IndexName.file_name t) = (c =? IndexTableId.col t).
Proof. intros Hc Ht. exact (field_match "index_" _ _ _ Hc Ht). Qed.

(** The test of [deplace_column] is that of the column. *)
Lemma is_value_file c col k : is_u8 c → is_u8 col → (k < SIZE_TIERS)%nat →
  is_column_file c (value_name col k) = (c =? col).
Proof.
  intros Hc Hcol Hk. unfold is_column_file, value_name.
  destruct (value_id_new col (Z.of_nat k) Hcol) as (E & _ & _); [unfold SIZE_TIERS in Hk; unfold is_u8; lia|].
  replace (IndexName.is_file_name c _) with false by reflexivity. cbn [orb].
  rewrite table_name_match by (by rewrite ?E). by rewrite E.
Qed.
Lemma is_index_file c col b : is_u8 c → is_u8 col → is_u8 b → is_column_file c (index_name col b) = (c =? col).
Proof.
  intros Hc Hcol Hb. unfold is_column_file, index_name. destruct (index_id_new col b Hcol Hb) as (E & _ & _).
  replace (TableName.is_file_name c _) with false by reflexivity. rewrite orb_false_r.
  rewrite index_name_match by (by rewrite ?E). by rewrite E.
Qed.

(** ** Values and their counters *)

Section Column.
Context `{!Uninit, !Codecs, !CodecLaws}.

(** Counters are positive, and 1 in a column that does not count. *)
Lemma col_counters c w M key v n : col_repr c w M → is_key key → M key = Some (v, n) →
  0 < n ≤ LOCKED_REF ∧ (hc_ref_counted c = false → n = 1).
Proof.
  intros (SS & Hinv & HM) Hkey E. specialize (HM key Hkey). rewrite E in HM.
  destruct HM as (s & (j & a & _ & Hs & _) & _ & <-).
  destruct (stored_table _ _ _ _ _ _ a s (ci_tables _ _ _ Hinv) Hs) as (t & m & Ht & Hm & (free & vals & Hr & ->) & Hoff & _).
  assert (Hwf : stored_wf t s).
  { apply elem_of_list_to_map_2, list_elem_of_fmap in Hoff as ([idxs s'] & [= _ <-] & Hin).
    pose proof (r_vals _ _ _ _ Hr) as HF. rewrite Forall_forall in HF. by destruct (HF _ Hin). }
  destruct Hwf as [H1' H2' _]. unfold LOCKED_REF, U32_MAX. split; [lia|]. intros Hrc. apply H2'.
  by rewrite (tb_rc _ _ _ _ _ _ (ci_tables _ _ _ Hinv) _ _ Ht).
Qed.

End Column.

(** What a value and its counter become in a column with these options: the
    counted changes after the first have no value. *)
Definition migrated (rc pre : bool) (v : bytes) (n : Z) : bytes * Z :=
  if rc then (v, n) else if pre then (v, 1) else if n =? 1 then (v, 1) else ([], 1).

(** The changes for an item, and for the items of a column. *)
Definition item_changes (it : IterState) : list Change :=
  match Z.to_nat (iter_rc it) with
  | O => []
  | S n => (iter_key it, Some (iter_value it)) :: replicate n (iter_key it, Some [])
  end.

Lemma kv_writes_cons rc pre M k v l :
  kv_writes rc pre M ((k, v) :: l) = kv_writes rc pre (kv_set M k (kv_write rc pre (M k) v)) l.
Proof. done. Qed.
Lemma kv_set_eq M key o : kv_set M key o key = o.
Proof. unfold kv_set. by rewrite decide_True. Qed.

Lemma kv_writes_other rc pre l : ∀ M key, Forall (fun e => e.1 ≠ key) l → kv_writes rc pre M l key = M key.
Proof.
  induction l as [|[k v] l IH]; intros M key Hl; [done|]. apply Forall_cons in Hl as [Hk Hl]. cbn in Hk.
  rewrite kv_writes_cons, IH by done. unfold kv_set. by rewrite decide_False by congruence.
Qed.

(** A value without a counter that is written again. *)
Lemma kv_writes_empty key n : ∀ M, M key = Some ([], 1) →
  kv_writes false false M (replicate n (key, Some [])) key = Some ([], 1).
Proof.
  induction n as [|n IH]; intros M HM; [done|]. cbn [replicate]. rewrite kv_writes_cons. apply IH.
  rewrite kv_set_eq. by rewrite HM.
Qed.

Lemma kv_writes_again rc pre key v n : ∀ M m, M key = Some (v, m) → 0 < m → m + Z.of_nat n ≤ LOCKED_REF →
  kv_writes rc pre M (replicate n (key, Some [])) key =
  Some (if rc then (v, m + Z.of_nat n) else if pre then (v, m) else if decide (n = 0%nat) then (v, m) else ([], 1)).
Proof.
  induction n as [|n IH]; intros M m HM Hm Hle.
  { cbn. rewrite HM, Z.add_0_r. by destruct rc, pre. }
  cbn [replicate]. rewrite kv_writes_cons, HM. cbn [kv_write]. set (M1 := kv_set M key _). pose proof (kv_set_eq M key) as E.
  destruct rc; [|destruct pre].
  - rewrite (IH M1 (m + 1)); [do 2 f_equal; lia|unfold M1; rewrite E; do 2 f_equal; lia|lia|lia].
  - by rewrite (IH M1 m) by (lia || apply E).
  - by rewrite (kv_writes_empty key n M1 (E _)).
Qed.

(** The changes of one item make the migrated value. *)
Lemma item_written rc pre M it : M (iter_key it) = None → 0 < iter_rc it ≤ LOCKED_REF →
  kv_writes rc pre M (item_changes it) (iter_key it) = Some (migrated rc pre (iter_value it) (iter_rc it)).
Proof.
  intros HM Hrc. unfold item_changes. destruct (Z.to_nat (iter_rc it)) as [|n] eqn:En; [lia|].
  rewrite kv_writes_cons, HM. set (M1 := kv_set M _ _).
  assert (E1 : M1 (iter_key it) = Some (iter_value it, 1)) by apply kv_set_eq.
  rewrite (kv_writes_again rc pre (iter_key it) (iter_value it) n M1 1 E1 ltac:(lia) ltac:(lia)). unfold migrated. f_equal. destruct rc; [f_equal; lia|]. destruct pre; [done|].
  destruct (decide (n = 0%nat)), (Z.eqb_spec (iter_rc it) 1); try done; lia.
Qed.

Lemma kv_writes_app rc pre M l1 l2 : kv_writes rc pre M (l1 ++ l2) = kv_writes rc pre (kv_writes rc pre M l1) l2.
Proof. unfold kv_writes. by rewrite foldl_app. Qed.

Lemma item_changes_key it : Forall (fun e => e.1 = iter_key it) (item_changes it).
Proof. unfold item_changes. destruct (Z.to_nat _); [constructor|]. constructor; [done|]. by apply Forall_replicate. Qed.

(** Items with different keys that hold a map make the migrated map. *)
Lemma items_written rc pre (items : list IterState) : NoDup (iter_key <$> items) →
  Forall (fun it => 0 < iter_rc it ≤ LOCKED_REF) items → ∀ M key, (∀ it, it ∈ items → M (iter_key it) = None) →
  kv_writes rc pre M (items ≫= item_changes) key =
  match list_find (fun it => iter_key it = key) items with
  | Some (_, it) => Some (migrated rc pre (iter_value it) (iter_rc it))
  | None => M key
  end.
Proof.
  induction items as [|it items IH]; intros Hnd Hrc M key HM; [done|].
  cbn [fmap list_fmap] in Hnd. apply NoDup_cons in Hnd as [Hni Hnd]. apply Forall_cons in Hrc as [Hr Hrc].
  change ((it :: items) ≫= item_changes) with (item_changes it ++ (items ≫= item_changes)). rewrite kv_writes_app.
  assert (Hother : ∀ k, k ≠ iter_key it → kv_writes rc pre M (item_changes it) k = M k).
  { intros k Hk. apply kv_writes_other. eapply Forall_impl; [apply item_changes_key|]. cbn. congruence. }
  cbn [list_find]. destruct (decide (iter_key it = key)) as [<-|Hne].
  - rewrite kv_writes_other; [by apply item_written; [apply HM; left|]|].
    apply Forall_forall. intros e (it' & He & Hin)%list_elem_of_bind.
    pose proof (item_changes_key it') as HF. rewrite Forall_forall in HF. rewrite (HF _ He).
    intros E. apply Hni. rewrite <- E. by apply list_elem_of_fmap_2.
  - rewrite (IH Hnd Hrc).
    + destruct (list_find _ items) as [[i it']|] eqn:Ef; [done|]. cbn. by apply Hother.
    + intros it' Hin. rewrite Hother; [apply HM; by right|]. intros E. apply Hni. rewrite <- E. by apply list_elem_of_fmap_2.
Qed.

(** ** The columns to migrate *)

(** The columns to migrate contain those that are forced and those that
    changed. *)
Lemma forced_in c l : ∀ S : gset ColId, c ∈ S ∨ c ∈ l → c ∈ foldl (fun l force => {[force]} ∪ l) S l.
Proof. induction l as [|x l IH]; intros S; cbn; [set_solver|]. intros Hc. apply IH. set_solver. Qed.
Lemma changed_in (f : ColId → bool) c l : ∀ S : gset ColId, c ∈ S ∨ c ∈ l ∧ f c = true →
  c ∈ foldl (fun l c => if f c then {[c]} ∪ l else l) S l.
Proof.
  induction l as [|x l IH]; intros S; cbn; [set_solver|]. intros Hc. apply IH.
  destruct Hc as [Hc|[[->|Hc]%elem_of_cons Hf]]; [left; destruct (f x); set_solver|left; rewrite Hf; set_solver|by right].
Qed.

(** ** Callbacks on lists of changes *)

(** A callback that goes through a list for every item. *)
Lemma visit_bind {A B C} (f : A → B → A * bool) (g : A → C → A * bool) (h : B → list C) l :
  (∀ a x, f a x = match visit g a (h x) with inl a => (a, true) | inr a => (a, false) end) →
  ∀ a, visit f a l = visit g a (l ≫= h).
Proof.
  intros Hf. induction l as [|x l IH]; intros a; [done|]. cbn [visit].
  change ((x :: l) ≫= h) with (h x ++ (l ≫= h)). rewrite visit_app, Hf.
  destruct (visit g a (h x)) as [a'|a']; [apply IH|done].
Qed.

Section Push.
Context `{!Uninit, !Codecs, !CodecLaws, !HashMapOrder, !Crc32, !Blake2, !Hex, !HexLaws}.
Context (threads : DbInner → list WorkerOp).
Abbreviation scheduled := (scheduled threads).

(** ** Turns of the workers *)

(** Every turn finds room. *)
Fixpoint turns_ready (ops : list WorkerOp) (d : DbInner) : Prop :=
  match ops with
  | [] => True
  | op :: ops => work_ready op d ∧ turns_ready ops (worker_turn op d)
  end.

Lemma worker_turn_ok d M op : db_repr d M → work_ready op d →
  ∃ M', same_db d M (worker_turn op d) M' ∧
    (commits (commit_queue d) = [] → commits (commit_queue (worker_turn op d)) = []).
Proof using -(threads).
  intros Hd Hr. unfold worker_turn. pose proof (worker_err_kept op d) as He.
  destruct (decide (op = WCommits)) as [->|Hop].
  - destruct (process_ok d M Hd Hr) as (b & d' & M' & Hrun & _ & Hd' & -> & Hq & _ & K1 & K2 & K3 & _).
    cbn [run_worker] in *. rewrite Hrun in *. eexists. split; [split; try done|].
    + intros i. unfold committed. rewrite Hq, K1. by destruct (commits (commit_queue d)).
    + intros E. by rewrite Hq, E.
  - destruct (run_worker_ok d M op Hd Hr Hop) as (b & d' & Hrun & Hd' & K1 & K2 & Hq). rewrite Hrun in *.
    exists M. split; [split; try done|by rewrite Hq]. intros i. unfold committed. by rewrite Hq, K1.
Qed.

Lemma worker_turns_ok ops : ∀ d M, db_repr d M → turns_ready ops d →
  ∃ M', same_db d M (worker_turns ops d) M' ∧
    (commits (commit_queue d) = [] → commits (commit_queue (worker_turns ops d)) = []).
Proof using -(threads).
  induction ops as [|op ops IH]; intros d M Hd Hr; [exists M; by split|]. destruct Hr as [Hop Hr].
  destruct (worker_turn_ok d M op Hd Hop) as (M1 & Hs1 & Hq1).
  destruct (IH (worker_turn op d) M1 (sd_repr _ _ _ _ Hs1) Hr) as (M2 & Hs2 & Hq2).
  exists M2. split; [by eapply same_db_trans|]. auto.
Qed.

(** ** Committing the collected changes *)

(** The threads make room for a commit. *)
Definition raw_ready (d : DbInner) : Prop :=
  turns_ready (threads d) d ∧ queue_bytes (commit_queue (scheduled d)) ≤ MAX_COMMIT_QUEUE_BYTES ∧
  queue_record_id (commit_queue (scheduled d)) + 2 < 2 ^ 64.

(** What the destination holds once the changes are committed. *)
Record batch_holds (options : Options) (version : Z) (D : DbMap) (b : Batch) (M : DbMap) : Prop := {
  bh_repr : db_repr (bt_dest b) M;
  bh_options : db_options (bt_dest b) = options;
  bh_version : db_version (bt_dest b) = version;
  bh_err : bg_err (bt_dest b) = None;
  bh_outcome : bt_outcome b = Ok tt;
  bh_btree : cs_btree (bt_commit b) = ∅;
  bh_columns : ∀ c l, cs_indexed (bt_commit b) !! c = Some l → 0 ≤ c < Z.of_nat (length (columns options));
  bh_map : ∀ i, D i = column_writes options i (committed (bt_dest b) M i)
                        (default [] (cs_indexed (bt_commit b) !! Z.of_nat i));
}.
Definition batch_ok (options : Options) (version : Z) (D : DbMap) (b : Batch) : Prop :=
  ∃ M, batch_holds options version D b M.

Lemma repr_columns d M : db_repr d M → length (columns (db_options d)) = length (commit_overlay d).
Proof using -(threads). intros Hd. rewrite (dr_len _ _ Hd). symmetry. apply (dr_cols _ _ Hd). Qed.

Lemma commit_batch o v D b n : batch_ok o v D b → raw_ready (bt_dest b) →
  ∃ d', commit_raw (bt_commit b) (scheduled (bt_dest b)) = (Ok tt, d') ∧ batch_ok o v D (MkBatch no_changes n d' (Ok tt)).
Proof.
  intros (M & [B1 B2 B3 B4 B5 B6 B7 B8]) (Ht & Hq & Hid).
  destruct (worker_turns_ok (threads (bt_dest b)) (bt_dest b) M B1 Ht) as (M1 & [S1 S2 S3 S4 S5] & _).
  change (worker_turns (threads (bt_dest b)) (bt_dest b)) with (scheduled (bt_dest b)) in *.
  set (d := scheduled (bt_dest b)) in *.
  destruct (commit_raw_ok d M1 (bt_commit b) S1) as (d' & Hrun & Hd' & [(c & Hc & Hcs) K1 K2 K3 K4 K5 K6]);
    [congruence|done|done| |].
  { split; [by apply (repr_columns d M1)|]. rewrite B6. split; [|by intros c l; rewrite lookup_empty].
    intros c l Hl. specialize (B7 c l Hl). rewrite <- (repr_columns d M1 S1). congruence. }
  exists d'. split; [done|]. exists M1. split; cbn; try done; try congruence.
  intros i. rewrite lookup_empty. cbn [default]. rewrite column_writes_nil, B8.
  unfold committed at 2. rewrite Hc, K1, foldl_app. cbn [foldl]. unfold put_commit at 1, indexed_changes.
  rewrite Hcs, S3, B2. f_equal. rewrite <- S2. unfold committed. by rewrite S3, B2.
Qed.

(** One more change. *)
Lemma push_batch o v D b n c key value : batch_ok o v D b → 0 ≤ c < Z.of_nat (length (columns o)) →
  batch_ok o v (set_map D (Z.to_nat c) (column_writes o (Z.to_nat c) (D (Z.to_nat c)) [(key, Some value)]))
    (MkBatch (push_change c key value (bt_commit b)) n (bt_dest b) (Ok tt)).
Proof using -(threads).
  intros (M & [B1 B2 B3 B4 B5 B6 B7 B8]) Hc. exists M. split; cbn; try done.
  - intros c1 l. rewrite lookup_insert. case_decide as E; [by intros _; rewrite <- E|apply B7].
  - intros i. rewrite lookup_insert. destruct (decide (i = Z.to_nat c)) as [->|Hne].
    + rewrite set_map_eq, Z2Nat.id, decide_True by lia. cbn [default from_option id].
      by rewrite column_writes_app, (B8 (Z.to_nat c)), Z2Nat.id by lia.
    + rewrite set_map_ne by done. rewrite decide_False by lia. apply B8.
Qed.

(** ** The callback *)

(** The body of its loop on a change. *)
Definition push (c : ColId) (b : Batch) (x : Change) : Batch * bool := migrate_ref threads c x.1 (default [] x.2) b.

Lemma migrate_refs_visit c key n : ∀ b value,
  migrate_refs threads (S n) c key value b =
  match visit (push c) b ((key, Some value) :: replicate n (key, Some [])) with inl b => (b, true) | inr b => (b, false) end.
Proof.
  assert (Hpush : ∀ b value, push c b (key, Some value) = migrate_ref threads c key value b) by done.
  induction n as [|n IH]; intros b value; cbn [visit replicate]; rewrite Hpush; cbn [migrate_refs];
    destruct (migrate_ref threads c key value b) as [b1 go]; destruct go; try reflexivity.
  apply (IH b1 []).
Qed.

Lemma migrate_item_visit c b it :
  migrate_item threads c b it =
  match visit (push c) b (item_changes it) with inl b => (b, true) | inr b => (b, false) end.
Proof.
  unfold migrate_item, item_changes. destruct (Z.to_nat (iter_rc it)) as [|n]; [done|]. apply migrate_refs_visit.
Qed.

Lemma visited_items c b items : visit (migrate_item threads c) b items = visit (push c) b (items ≫= item_changes).
Proof. apply visit_bind. intros. apply migrate_item_visit. Qed.

(** The threads make room whenever enough changes were collected. *)
Fixpoint pushes_ready (c : ColId) (l : list Change) (b : Batch) : Prop :=
  match l with
  | [] => True
  | x :: l => (bt_nb_commit b + 1 = COMMIT_SIZE → raw_ready (bt_dest b)) ∧ pushes_ready c l (push c b x).1
  end.

Lemma push_ok o v D b c key value : batch_ok o v D b → 0 ≤ c < Z.of_nat (length (columns o)) →
  (bt_nb_commit b + 1 = COMMIT_SIZE → raw_ready (bt_dest b)) →
  (push c b (key, Some value)).2 = true ∧
  batch_ok o v (set_map D (Z.to_nat c) (column_writes o (Z.to_nat c) (D (Z.to_nat c)) [(key, Some value)]))
    (push c b (key, Some value)).1.
Proof.
  intros Hb Hc Hready. unfold push, migrate_ref. cbn [fst snd default from_option id]. unfold id.
  pose proof (push_batch o v D b (bt_nb_commit b + 1) c key value Hb Hc) as Hp.
  destruct (Z.eqb_spec (bt_nb_commit b + 1) COMMIT_SIZE) as [E|_]; [|by split].
  destruct (commit_batch _ _ _ _ 0 Hp (Hready E)) as (d' & Hrun & Hd'). cbn [bt_commit bt_dest] in Hrun.
  rewrite Hrun. by split.
Qed.

Lemma pushes_ok o v c l : 0 ≤ c < Z.of_nat (length (columns o)) → ∀ D b, batch_ok o v D b →
  Forall (fun x => is_Some x.2) l → pushes_ready c l b →
  ∃ b' D', visit (push c) b l = inl b' ∧ batch_ok o v D' b' ∧
    D' (Z.to_nat c) = column_writes o (Z.to_nat c) (D (Z.to_nat c)) l ∧ ∀ i, i ≠ Z.to_nat c → D' i = D i.
Proof.
  intros Hc. induction l as [|[key val] l IH]; intros D b Hb Hl Hr.
  { exists b, D. split_and!; [done|done|by rewrite column_writes_nil|done]. }
  apply Forall_cons in Hl as [[value Hv] Hl]. cbn in Hv. subst val. destruct Hr as [Hr1 Hr].
  destruct (push_ok o v D b c key value Hb Hc Hr1) as [E Hb1]. cbn [visit].
  destruct (push c b (key, Some value)) as [b1 go]. cbn [fst snd] in *. subst go.
  destruct (IH _ b1 Hb1 Hl Hr) as (b' & D' & Hrun & Hb' & HD & Ho). exists b', D'. split_and!; [done|done| |].
  - rewrite HD, set_map_eq. by rewrite <- column_writes_app.
  - intros i Hi. by rewrite Ho, set_map_ne.
Qed.

End Push.
