(* ===== verification/MigrationThms.v ===== *)
(** * Theorems about migration

    What [migrate] (src/src/migration.rs) makes of a database: every key of a
    migrated column is in the destination, with the value and the counter that
    its options leave of them. *)

From Stdlib Require Import Ascii String.
From S2P Require Import Prelude.
From S2P Require Import Bytes.
From S2P Require Import Ids.
From S2P Require Import File.
From S2P Require Import Log.
From S2P Require Import LogState.
From S2P Require Import LogPending.
From S2P Require Import LogCrash.
From S2P Require Import Table.
From S2P Require Import Instances.
From S2P Require Import Index.
From S2P Require Import Compress.
From S2P Require Import Options.
From S2P Require Import OptionsThms.
From S2P Require Import Column.
From S2P Require Import HashColumn.
From S2P Require Import ColumnMap.
From S2P Require Import ColumnSession.
From S2P Require Import ColumnThms.
From S2P Require Import BTreeNode.
From S2P Require Import BTree.
From S2P Require Import Overlay.
From S2P Require Import Db.
From S2P Require Import DbOpen.
From S2P Require Import DbOverlay.
From S2P Require Import DbColumns.
From S2P Require Import DbSteps.
From S2P Require Import DbEnact.
From S2P Require Import DbRefine.
From S2P Require Import DbPipeline.
From S2P Require Import DbNew.
From S2P Require Import DbRecover.
From S2P Require Import DbThms.
From S2P Require Import DbShutdown.
From S2P Require Import TableSpec.
From S2P Require Import TableStore.
From S2P Require Import ColumnTables.
From S2P Require Import ColumnLinks.
From S2P Require Import ColumnProofs.
From S2P Require Import ColumnIter.
From S2P Require Import Frames.
From S2P Require Import Migration.
From S2P Require Import DbClose.
From S2P Require Import MigrationProofs.
From stdpp Require Import options.
#[local] Set Default Proof Using "All".
#[local] Open Scope Z_scope.

Section Migrate.
Context `{!Uninit, !Codecs, !CodecLaws, !HashMapOrder, !Crc32, !Blake2, !Hex, !HexLaws}.
Context (threads : DbInner → list WorkerOp).
Context (read_dir : gmap Z bytes → list (Z * bytes)).
Context (random : bytes).
Hypothesis read_dir_perm : ∀ m, read_dir m ≡ₚ map_to_list m.
Abbreviation scheduled := (scheduled threads).

(** ** The items of a column *)

(** The items in the order of [iter_column_while]. *)
Definition column_items (d : DbInner) (c : ColId) : list IterState :=
  (db_iter_column_while c (fun l it => (l ++ [it], true)) d []).2.

Lemma visited_collect (items : list IterState) : ∀ l, visited (fun l it => (l ++ [it], true)) l items = l ++ items.
Proof using Type.
  induction items as [|it items IH]; intros l; [by rewrite app_nil_r|]. unfold visited in *. cbn [visit].
  by rewrite IH, <- (assoc_L (++)).
Qed.

(** They hold the map of the column. *)
Record items_hold (rc : bool) (m : KV) (items : list IterState) : Prop := {
  ih_nodup : NoDup (iter_key <$> items);
  ih_keys : Forall (fun it => is_key (iter_key it)) items;
  ih_counters : Forall (fun it => 0 < iter_rc it ≤ LOCKED_REF) items;
  ih_map : ∀ key, is_key key → m key =
    (fun '(_, it) => (iter_value it, iter_rc it)) <$> list_find (fun it => iter_key it = key) items;
}.

Lemma column_items_ok d M i : db_repr d M → 4 ≤ db_version d →
  Forall (fun o => preimage o = false) (columns (db_options d)) → (i < length (db_columns d))%nat →
  items_hold (column_rc (db_options d) i) (M i) (column_items d (Z.of_nat i)) ∧
  ∀ A (f : A → IterState → A * bool) acc,
    db_iter_column_while (Z.of_nat i) f d acc = (Ok tt, visited f acc (column_items d (Z.of_nat i))).
Proof using Type*.
  intros Hd Hver Hpre Hi. destruct (lookup_lt_is_Some_2 _ _ Hi) as [col Hcol].
  destruct (proj2 (dr_cols _ _ Hd) _ _ Hcol) as (hc & -> & Hco & Hr).
  destruct (co_options _ _ _ _ Hco) as (o & Ho & _ & Hrc & Hp & _).
  rewrite Forall_forall in Hpre. rewrite (Hpre o) in Hp by (by eapply list_elem_of_lookup_2).
  destruct (items_visited hc (LogWriter.new (lg_overlays (db_log d)) 0) (M i) Hr) as (items & Hnd & Hk & Hmem & Hrun);
    [by rewrite (co_version _ _ _ _ Hco)|done|].
  assert (Hall : ∀ A (f : A → IterState → A * bool) acc,
    db_iter_column_while (Z.of_nat i) f d acc = (Ok tt, visited f acc items)).
  { intros A f acc. unfold db_iter_column_while. rewrite Nat2Z.id, Hcol. erewrite ST_bind_Ok by done. cbv beta iota.
    rewrite (iter_while_ext (lg_overlays (db_log d)) (LogWriter.new (lg_overlays (db_log d)) 0)) by done. apply Hrun. }
  assert (E : column_items d (Z.of_nat i) = items).
  { unfold column_items. rewrite Hall. cbn [snd]. by rewrite visited_collect. }
  rewrite E. split; [|exact Hall]. split; [done|done| |].
  - apply Forall_forall. intros it Hin. rewrite Forall_forall in Hk.
    assert (Hm : M i (iter_key it) = Some (iter_value it, iter_rc it)) by (apply Hmem; [by apply Hk|eauto]).
    by destruct (col_counters _ _ _ _ _ _ Hr (Hk _ Hin) Hm).
  - intros key Hkey. destruct (list_find _ items) as [[j it]|] eqn:Ef.
    + apply list_find_Some in Ef as (Hj & Hjk & _). cbn. apply Hmem; [done|]. exists it. split; [by eapply list_elem_of_lookup_2|done].
    + cbn. destruct (M i key) as [[v n]|] eqn:Em; [|done]. apply Hmem in Em as (it & Hin & <- & _); [|done].
      apply list_find_None in Ef. rewrite Forall_forall in Ef. by destruct (Ef it Hin).
Qed.

(** The changes for the items make the migrated map. *)
Definition migrated_map (o : ColumnOptions) (m : KV) (key : Key) : option (bytes * Z) :=
  (fun '(v, n) => migrated (ref_counted_opt o) (preimage o) v n) <$> m key.

Lemma items_migrated rc (o : ColumnOptions) (m D : KV) items key : items_hold rc m items → is_key key →
  (∀ key, is_key key → D key = None) →
  kv_writes (ref_counted_opt o) (preimage o) D (items ≫= item_changes) key = migrated_map o m key.
Proof using Type.
  intros [H1' H2' H3' H4'] Hkey HD. rewrite items_written; [|done|done|].
  - unfold migrated_map. rewrite H4' by done. destruct (list_find _ items) as [[j it]|]; [done|]. by apply HD.
  - intros it Hin. apply HD. rewrite Forall_forall in H2'. by apply H2'.
Qed.

(** ** The loop over the columns *)

(** The changes that are collected for [n] columns from [c] on; the threads of
    the source work before each. *)
Fixpoint plan (n : nat) (c : Z) (src : DbInner) : list (ColId * list Change) :=
  match n with
  | O => []
  | S n => let src := scheduled src in (c, column_items src c ≫= item_changes) :: plan n (c + 1) src
  end.
Fixpoint source_ready (n : nat) (src : DbInner) : Prop :=
  match n with
  | O => True
  | S n => turns_ready (threads src) src ∧ source_ready n (scheduled src)
  end.

(** The threads of the destination make room for the commits on the way. *)
Fixpoint plan_ready (p : list (ColId * list Change)) (b : Batch) : Prop :=
  match p with
  | [] => True
  | (c, l) :: p => pushes_ready threads c l b ∧ plan_ready p (visited (push threads c) b l)
  end.
Definition run_plan (p : list (ColId * list Change)) (b : Batch) : Batch :=
  foldl (fun b '(c, l) => visited (push threads c) b l) b p.

(** The source holds the map; its queue is empty. *)
Record source_holds (src : DbInner) (M : DbMap) : Prop := {
  so_repr : ∃ M', db_repr src M' ∧ ∀ i, M' i = M i;
  so_queue : commits (commit_queue src) = [];
  so_version : 4 ≤ db_version src;
  so_preimage : Forall (fun o => preimage o = false) (columns (db_options src));
}.

Lemma source_scheduled src M : source_holds src M → turns_ready (threads src) src →
  source_holds (scheduled src) M ∧ db_options (scheduled src) = db_options src.
Proof using -(read_dir random read_dir_perm).
  intros [(M' & Hd & HM) Hq Hv Hp] Ht. destruct (worker_turns_ok (threads src) src M' Hd Ht) as (M1 & [S1 S2 S3 S4 S5] & Hq1).
  change (worker_turns (threads src) src) with (scheduled src) in *. split; [|done]. split.
  - exists M1. split; [done|]. intros i. rewrite <- HM. specialize (S2 i). unfold committed in S2.
    by rewrite Hq, (Hq1 Hq) in S2.
  - auto.
  - by rewrite S4.
  - by rewrite S3.
Qed.

Lemma changes_values it : Forall (fun x : Change => is_Some x.2) (item_changes it).
Proof using Type.
  unfold item_changes. destruct (Z.to_nat _); [constructor|]. constructor; [by eexists|]. apply Forall_replicate. by eexists.
Qed.

(** One column. *)
Lemma migrate_items_ok s src M o v D b i :
  mg_source s = Some src → mg_dest s = Some (bt_dest b) → mg_commit s = bt_commit b → mg_nb_commit s = bt_nb_commit b →
  source_holds src M → turns_ready (threads src) src → (i < length (columns (db_options src)))%nat →
  batch_ok o v D b → (i < length (columns o))%nat →
  let l := column_items (scheduled src) (Z.of_nat i) ≫= item_changes in
  pushes_ready threads (Z.of_nat i) l b →
  let b' := visited (push threads (Z.of_nat i)) b l in
  migrate_items threads (Z.of_nat i) s =
    (Ok tt, set_batch (bt_commit b') (bt_nb_commit b') (set_dest (Some (bt_dest b')) (set_source (Some (scheduled src)) s))) ∧
  ∃ D', batch_ok o v D' b' ∧ (∀ j, j ≠ i → D' j = D j) ∧
    ∀ co, columns o !! i = Some co → (∀ key, is_key key → D i key = None) →
      ∀ key, is_key key → D' i key = migrated_map co (M i) key.
Proof using -(read_dir random read_dir_perm).
  intros Hsrc Hdst Hcm Hnb Hs Ht Hi Hb Hio l Hready b'.
  destruct (source_scheduled src M Hs Ht) as [[(M' & Hd & HM) _ Hv Hp] Ho].
  destruct (column_items_ok (scheduled src) M' i Hd Hv Hp) as [Hitems Hrun].
  { rewrite (proj1 (dr_cols _ _ Hd)). by rewrite Ho. }
  destruct (pushes_ok threads o v (Z.of_nat i) l ltac:(lia) D b Hb) as (b1 & D' & Hvis & Hb' & HD & Hother); [|done|].
  { apply Forall_forall. intros x (it & Hx & _)%list_elem_of_bind. pose proof (changes_values it) as HF.
    rewrite Forall_forall in HF. by apply HF. }
  rewrite Nat2Z.id in HD, Hother.
  assert (E : b' = b1) by (unfold b', visited; by rewrite Hvis). rewrite E. split.
  - unfold migrate_items. rewrite Hsrc, Hdst. cbv zeta. rewrite Hcm, Hnb.
    destruct Hb as (M0 & Hb0). assert (Eb : MkBatch (bt_commit b) (bt_nb_commit b) (bt_dest b) (Ok tt) = b).
    { rewrite <- (bh_outcome _ _ _ _ _ Hb0). by destruct b. }
    rewrite Eb, Hrun. unfold visited. rewrite visited_items. fold l. rewrite Hvis.
    destruct Hb' as (M1 & Hb1). by rewrite (bh_outcome _ _ _ _ _ Hb1).
  - exists D'. split_and!; [done|done|]. intros co Hco HD0 key Hkey. rewrite HD. unfold column_writes. rewrite Hco.
    rewrite <- HM. by eapply items_migrated.
Qed.

(** All columns from [i] on. *)
Lemma migrate_columns_ok to all M o v n : ∀ i s src D b,
  (∀ c, Z.of_nat i ≤ c < Z.of_nat (i + n) → c ∈ all) →
  mg_source s = Some src → mg_dest s = Some (bt_dest b) → mg_commit s = bt_commit b → mg_nb_commit s = bt_nb_commit b →
  source_holds src M → source_ready n src → (i + n = length (columns (db_options src)))%nat →
  (i + n = length (columns o))%nat → batch_ok o v D b →
  (∀ j, (i ≤ j)%nat → ∀ key, is_key key → D j key = None) →
  plan_ready (plan n (Z.of_nat i) src) b →
  let b' := run_plan (plan n (Z.of_nat i) src) b in
  ∃ s' D', for_each (migrate_column threads read_dir random to false all) (seqZ (Z.of_nat i) (Z.of_nat n)) s = (Ok tt, s') ∧
    mg_from s' = mg_from s ∧ mg_to s' = mg_to s ∧ mg_dest s' = Some (bt_dest b') ∧ mg_commit s' = bt_commit b' ∧
    batch_ok o v D' b' ∧ (∀ j, (j < i)%nat → D' j = D j) ∧
    ∀ j co, (i ≤ j)%nat → columns o !! j = Some co → ∀ key, is_key key → D' j key = migrated_map co (M j) key.
Proof using -(read_dir_perm).
  induction n as [|n IH]; intros i s src D b Hall Hsrc Hdst Hcm Hnb Hs Hr Hlen Hlo Hb HD Hp b'.
  { exists s, D. split_and!; try done. intros j co Hj Hco. apply lookup_lt_Some in Hco. lia. }
  destruct Hr as [Ht Hr]. cbn [plan plan_ready] in Hp. destruct Hp as [Hp1 Hp].
  destruct (migrate_items_ok s src M o v D b i Hsrc Hdst Hcm Hnb Hs Ht ltac:(lia) Hb ltac:(lia) Hp1) as (Hrun & D1 & Hb1 & Ho1 & HD1).
  set (b1 := visited _ b _) in *. destruct (source_scheduled src M Hs Ht) as [Hs1 Hopt].
  replace (Z.of_nat i + 1) with (Z.of_nat (S i)) in Hp by lia.
  set (s1 := set_batch (bt_commit b1) (bt_nb_commit b1) (set_dest (Some (bt_dest b1)) (set_source (Some (scheduled src)) s))) in *.
  destruct (IH (S i) s1 (scheduled src) D1 b1) as
    (s' & D' & Hrun' & K1 & K2 & K3 & K4 & K5 & K6 & K7); try done.
  { intros c Hc. apply Hall. lia. }
  { rewrite Hopt. lia. }
  { lia. }
  { intros j Hj key Hkey. rewrite Ho1 by lia. apply HD; [lia|done]. }
  assert (Eb : b' = run_plan (plan n (Z.of_nat (S i)) (scheduled src)) b1).
  { unfold b'. cbn [plan run_plan foldl]. by replace (Z.of_nat i + 1) with (Z.of_nat (S i)) by lia. }
  rewrite Eb. exists s', D'. split_and!; [|done|done|done|done|done| |].
  - rewrite seqZ_cons by lia. cbn [for_each]. erewrite ST_bind_Ok.
    2: { unfold migrate_column. rewrite decide_True by (apply Hall; lia). erewrite ST_bind_Ok by exact Hrun. reflexivity. }
    replace (Z.succ (Z.of_nat i)) with (Z.of_nat (S i)) by lia. replace (Z.pred (Z.of_nat (S n))) with (Z.of_nat n) by lia.
    exact Hrun'.
  - intros j Hj. rewrite K6 by lia. apply Ho1. lia.
  - intros j co Hj Hco key Hkey. destruct (decide (j = i)) as [->|Hne].
    + rewrite K6 by lia. apply HD1; [done| |done]. intros key' Hk'. by apply HD.
    + apply K7; [lia|done|done].
Qed.

(** ** Closing the destination *)

(** The threads, closing and opening again find what they need. *)
Record close_ready (d : DbInner) : Prop := {
  cr_turns : turns_ready (threads d) d;
  cr_reader : reader_ok (db_log (scheduled d));
  cr_kill : kill_ready (shutdown (scheduled d));
  cr_reopen : reopenable (db_drop (scheduled d));
}.

Lemma open_closed d M logs dir : db_repr d M → reopenable d → left_by d (db_columns d) logs dir →
  logs ≡ₚ map_to_list (disk (db_log d)) →
  ∃ d' dir', open_existing_db (db_options d) random dir = (Ok d', dir') ∧ db_repr d' M.
Proof using -(threads read_dir read_dir_perm).
  intros Hd Hro Hleft Hlogs. destruct (dr_pipeline _ _ Hd) as (E & P & Hp). destruct (reopenable_ok d M Hd Hro) as [Hmeta Hdisk].
  pose proof (cols_repr_at _ _ _ _ _ (dr_cols _ _ Hd)) as Hat.
  destruct (open_torn d M E P [] (db_columns d) [] (disk (db_log d)) logs dir Hd Hp) with (random := random) as
    (d' & dir' & Hrun & _ & Hd' & _); [by apply cols_enacted_nil|by intros e ?%not_elem_of_nil|done|done|by left|
      apply whole_disk, Hd|done|done|].
  exists d', dir'. split; [done|]. apply Hd'. by left.
Qed.

(** A directory without other files than those of the columns. *)
Lemma db_files_left dir d : (∀ col k, dir_values dir col k = None) → (∀ col b, dir_index dir col b = None) →
  files_left (db_columns d) (files_values (db_files dir d)) (files_index (db_files dir d)).
Proof using Type.
  intros Hv Hx. split; intros col k; unfold db_files; cbn [files_values files_index];
    destruct (Z.to_nat col <? length (db_columns d))%nat eqn:E; try done; apply Nat.ltb_ge in E;
    rewrite ?Hv, ?Hx; unfold left_values, left_index; by rewrite (lookup_ge_None_2 _ _ E).
Qed.

(** The directory that a database in a new directory leaves. *)
Lemma left_behind_by options salt d : salt_opt options = Some salt →
  db_options (db_drop (scheduled d)) = options → db_version (db_drop (scheduled d)) = CURRENT_VERSION →
  left_by (db_drop (scheduled d)) (db_columns (db_drop (scheduled d))) (read_dir (disk (db_log (db_drop (scheduled d)))))
    (left_behind threads read_dir (new_dir options salt) d).
Proof using Type.
  intros Hs Ho Hv. split; [done|done| |done|by apply (db_files_left (new_dir options salt))].
  cbn. rewrite Ho, Hv, Hs. done.
Qed.

Lemma close_dest options salt d M : salt_opt options = Some salt → db_repr d M → db_options d = options →
  db_version d = CURRENT_VERSION → bg_err d = None → close_ready d →
  ∃ d' dir, open_existing_db options random (left_behind threads read_dir (new_dir options salt) d) = (Ok d', dir) ∧
    ∃ M', db_repr d' M' ∧ ∀ i, M' i = committed d M i.
Proof.
  intros Hs Hd Ho Hv Hbg [Ht Hrd Hk Hro].
  destruct (worker_turns_ok (threads d) d M Hd Ht) as (M1 & [S1 S2 S3 S4 S5] & _).
  change (worker_turns (threads d) d) with (scheduled d) in *.
  destruct (db_drop_ok (scheduled d) M1 S1) as (Hd2 & _ & Ho2 & Hv2 & _); [congruence|done|done|].
  assert (E1 : db_options (db_drop (scheduled d)) = options) by congruence.
  assert (E2 : db_version (db_drop (scheduled d)) = CURRENT_VERSION) by congruence.
  destruct (open_closed _ _ _ _ Hd2 Hro (left_behind_by options salt d Hs E1 E2) (read_dir_perm _)) as (d' & dir & Hrun & Hd').
  rewrite E1 in Hrun. exists d', dir. split; [done|]. by exists (committed (scheduled d) M1).
Qed.

(** ** [migrate] *)

(** The batch that a migration into a new database starts with. *)
Definition first_batch (to : Options) (salt : bytes) : Batch := MkBatch no_changes 0 (new_db to salt) (Ok tt).

Lemma first_batch_ok to salt : hash_options to → length salt = 32%nat → salt_opt to = Some salt →
  batch_ok to CURRENT_VERSION (fun _ _ => None) (first_batch to salt).
Proof using -(threads read_dir random read_dir_perm).
  intros Hh Hs Hsalt. exists (fun _ _ => None). split; cbn; try done.
  - by apply new_db_repr.
  - unfold opened_options. destruct to. cbn in *. by subst.
  - intros i. by rewrite lookup_empty, column_writes_nil.
Qed.

Lemma open_source_ok s d dir : open_existing_db (mg_source_options s) random (mg_from s) = (Ok d, dir) →
  open_source random s = (Ok tt, set_source (Some d) (set_from dir s)).
Proof using Type.
  intros Hrun. unfold open_source. erewrite ST_bind_Ok by done.
  erewrite ST_bind_Ok; [reflexivity|]. unfold zoom. by rewrite Hrun.
Qed.
Lemma open_dest_ok to s d dir : open_or_create to random (mg_to s) = (Ok d, dir) →
  open_dest random to s = (Ok tt, set_dest (Some d) (set_to dir s)).
Proof using Type. intros Hrun. unfold open_dest. erewrite ST_bind_Ok; [reflexivity|]. unfold zoom. by rewrite Hrun. Qed.

(** The whole of [migrate] into a new database, when every column is migrated. *)
Definition migrated_to (to : Options) (meta : Metadata) : Options := set_salt (Some (meta_salt meta)) to.
Definition migration_batch (to : Options) (meta : Metadata) (src : DbInner) : Batch :=
  run_plan (plan (length (columns to)) 0 src) (first_batch (migrated_to to meta) (meta_salt meta)).
Definition migration_dest (to : Options) (meta : Metadata) (src : DbInner) : DbInner :=
  let b := migration_batch to meta src in (commit_raw (bt_commit b) (scheduled (bt_dest b))).2.

(** The threads of both databases find room all the way. *)
Record migration_ready (to : Options) (meta : Metadata) (src : DbInner) : Prop := {
  mr_source : source_ready (length (columns to)) src;
  mr_plan : plan_ready (plan (length (columns to)) 0 src) (first_batch (migrated_to to meta) (meta_salt meta));
  mr_rest : raw_ready threads (bt_dest (migration_batch to meta src));
  mr_close : close_ready (migration_dest to meta src);
}.

Lemma migrate_body_ok from from' to force meta src M :
  Options.load_metadata_file (dir_metadata from) = Ok (Some meta) →
  length (columns to) = length (meta_columns meta) → (length (columns to) < 256)%nat →
  length (meta_salt meta) = 32%nat → hash_options to → Options.is_valid to = true →
  open_existing_db (source_options meta) random from = (Ok src, from') →
  db_options src = source_options meta → source_holds src M →
  (∀ c, 0 ≤ c < Z.of_nat (length (columns to)) →
     c ∈ force ∨ meta_columns meta !! Z.to_nat c ≠ columns to !! Z.to_nat c) →
  migration_ready to meta src →
  ∃ s D, migrate_body threads read_dir random to false force
      (MkMigration from empty_dir None None None no_changes 0 to) = (Ok tt, s) ∧
    mg_dest s = Some (migration_dest to meta src) ∧ mg_to s = new_dir (migrated_to to meta) (meta_salt meta) ∧
    batch_ok (migrated_to to meta) CURRENT_VERSION D (MkBatch no_changes 0 (migration_dest to meta src) (Ok tt)) ∧
    ∀ i co, columns to !! i = Some co → ∀ key, is_key key → D i key = migrated_map co (M i) key.
Proof using -(read_dir_perm).
  intros Hmeta Hlen Hn Hsl Hh Hv Hopen Hso Hs Hall [R1 R2 R3 R4]. set (n := length (columns to)) in *.
  set (to' := migrated_to to meta) in *.
  assert (Hdst : open_or_create to' random empty_dir = (Ok (new_db to' (meta_salt meta)), new_dir to' (meta_salt meta))).
  { exact (open_new_db to' random Hh Hv). }
  assert (Hw : wrap8 (Z.of_nat (length (meta_columns meta))) = Z.of_nat n).
  { rewrite <- Hlen. unfold wrap8. apply Z.mod_small. lia. }
  set (all := foldl (fun l c => if changed_column (meta_columns meta) (columns to') c then {[c]} ∪ l else l)
    (foldl (fun l force => {[force]} ∪ l) (columns_to_migrate meta) force) (seqZ 0 (Z.of_nat n))).
  set (s0 := MkMigration from empty_dir None None None no_changes 0 to).
  set (s1 := set_dest (Some (new_db to' (meta_salt meta))) (set_to (new_dir to' (meta_salt meta))
    (set_source (Some src) (set_from from' (set_source_options (source_options meta) s0))))).
  destruct (migrate_columns_ok to' all M to' CURRENT_VERSION n 0 s1 src (fun _ _ => None) (first_batch to' (meta_salt meta))) as
    (s2 & D & Hrun & K1 & K2 & K3 & K4 & K5 & _ & K7); try done.
  { intros c Hc. assert (Hr : 0 ≤ c < Z.of_nat n) by lia. apply changed_in. destruct (Hall c Hr) as [Hf|Hf].
    - left. apply forced_in. by right.
    - right. split; [apply elem_of_seqZ; lia|]. unfold changed_column. by rewrite bool_decide_false. }
  { rewrite Hso. cbn. lia. }
  { by apply first_batch_ok. }
  change (run_plan (plan n (Z.of_nat 0) src) (first_batch to' (meta_salt meta))) with (migration_batch to meta src) in *.
  set (b := migration_batch to meta src) in *.
  destruct (commit_batch threads _ _ _ _ 0 K5 R3) as (d & Hcommit & Hd).
  assert (Ed : migration_dest to meta src = d) by (unfold migration_dest; fold b; by rewrite Hcommit).
  rewrite Ed. exists (set_batch no_changes 0 (set_dest (Some d) s2)), D. split_and!; [|done|done|done|].
  - unfold migrate_body. erewrite ST_bind_Ok by done. erewrite ST_bind_Ok by (unfold lift_st; cbn [mg_from s0]; by rewrite Hmeta).
    cbv beta. do 1 erewrite ST_bind_Ok by done. cbv beta zeta.
    erewrite ST_bind_Ok by (unfold lift_st; change (length (columns to)) with n; by rewrite Hlen, Nat.eqb_refl).
    erewrite ST_bind_Ok by (unfold lift_st; by rewrite andb_false_r).
    erewrite ST_bind_Ok by done. erewrite ST_bind_Ok by (apply open_source_ok; exact Hopen).
    erewrite ST_bind_Ok by (apply open_dest_ok; exact Hdst).
    rewrite Hw. erewrite ST_bind_Ok by exact Hrun.
    unfold commit_rest. rewrite K3, K4, Hcommit. done.
  - intros i co Hco. apply K7; [lia|done].
Qed.

(** ** Claims *)

(** C9. Migration into a new database: when every column is migrated, because
    it is forced or its options change, the source is a database of hash columns
    without preimages that holds the map [M], and the threads of both databases
    find room, [migrate] succeeds, and the database that is opened in the
    destination afterwards holds exactly the keys of [M], in every column. A
    column that counts references keeps values and counters, a preimage column
    keeps the values; in any other column a value with a counter of one is kept
    and a value with a larger counter is replaced by the empty value. *)
Theorem migrate_copies (from from' : Dir) (to : Options) (force : list ColId) (meta : Metadata) (src : DbInner) (M : DbMap) :
  Options.load_metadata_file (dir_metadata from) = Ok (Some meta) →
  length (columns to) = length (meta_columns meta) → (length (columns to) < 256)%nat →
  length (meta_salt meta) = 32%nat → hash_options to → Options.is_valid to = true →
  open_existing_db (source_options meta) random from = (Ok src, from') →
  db_options src = source_options meta → source_holds src M →
  (∀ c, 0 ≤ c < Z.of_nat (length (columns to)) →
     c ∈ force ∨ meta_columns meta !! Z.to_nat c ≠ columns to !! Z.to_nat c) →
  migration_ready to meta src →
  ∃ dirs d dir M', migrate threads read_dir random to false force (from, empty_dir) = (Ok tt, dirs) ∧
    open_existing_db (migrated_to to meta) random dirs.2 = (Ok d, dir) ∧ db_repr d M' ∧
    ∀ i o, columns to !! i = Some o → ∀ key, is_key key →
      M' i key = (fun '(v, n) => migrated (ref_counted_opt o) (preimage o) v n) <$> M i key.
Proof.
  intros Hmeta Hlen Hn Hsl Hh Hv Hopen Hso Hs Hall Hready.
  destruct (migrate_body_ok from from' to force meta src M Hmeta Hlen Hn Hsl Hh Hv Hopen Hso Hs Hall Hready) as
    (s & D & Hrun & Hdest & Hto & (M0 & [B1 B2 B3 B4 _ _ _ B8]) & HD). cbn [bt_dest bt_commit] in *.
  destruct (close_dest (migrated_to to meta) (meta_salt meta) (migration_dest to meta src) M0 eq_refl B1 B2 B3 B4
    (mr_close _ _ _ Hready)) as (d & dir & Hd & M' & HM' & E).
  assert (Hmig : ∃ f, migrate threads read_dir random to false force (from, empty_dir) =
    (Ok tt, (f, left_behind threads read_dir (mg_to s) (migration_dest to meta src)))).
  { unfold migrate. cbn [fst snd]. rewrite Hrun. unfold drop_dest, drop_source, mbind, ST_bind, modify_st. rewrite Hdest.
    cbn. destruct (mg_source s); by eexists. }
  destruct Hmig as [f Hmig]. rewrite Hto in Hmig. eexists _, d, dir, M'. split; [exact Hmig|]. split; [exact Hd|].
  split; [exact HM'|].
  intros i o Ho key Hkey. rewrite E. specialize (B8 i). cbn in B8. rewrite lookup_empty in B8. cbn in B8.
  rewrite column_writes_nil in B8. rewrite <- B8. by apply HD.
Qed.

End Migrate.

(** C16. The files of a column: [deplace_column] puts the files of the column,
    and no other, from one directory into the other, where they replace the files
    with their names; unless it copies them, it takes them out of the first
    directory. Its test on the names of the files never takes those of another
    column. *)
Theorem deplace_column_files (c col : ColId) (copy : bool) (from to : Files) (k : nat) (b : Z) :
  is_u8 c → is_u8 col → (k < SIZE_TIERS)%nat → is_u8 b →
  let '(from', to') := deplace_column c copy from to in
  (col = c → files_values to' col k = match files_values from col k with Some f => Some f | None => files_values to col k end ∧
     files_index to' col b = match files_index from col b with Some f => Some f | None => files_index to col b end ∧
     files_values from' col k = (if copy then files_values from col k else None) ∧
     files_index from' col b = (if copy then files_index from col b else None)) ∧
  (col ≠ c → files_values to' col k = files_values to col k ∧ files_index to' col b = files_index to col b ∧
     files_values from' col k = files_values from col k ∧ files_index from' col b = files_index from col b).
Proof.
  intros Hc Hcol Hk Hb. unfold deplace_column. cbn [files_values files_index].
  pose proof (is_value_file c col k Hc Hcol Hk) as Ev. pose proof (is_index_file c col b Hc Hcol Hb) as Ei. split.
  - intros ->. rewrite Z.eqb_refl in *. destruct copy; cbn [files_values files_index]; by rewrite Ev, Ei.
  - intros Hne. rewrite (proj2 (Z.eqb_neq c col)) in Ev, Ei by congruence.
    destruct copy; cbn [files_values files_index]; by rewrite Ev, Ei.
Qed.

(** ** The theorem at a concrete database *)

#[local] Existing Instances zero_uninit stored_codecs list_order ieee_crc32 hex_codec pad_hash.

(** One column with uniform keys that counts references or does not; the
    options of the first are those that [migrate] opens the source with. *)
Definition one_option (rc : bool) : ColumnOptions := MkColumnOptions false true rc NoCompression 4096 false.
Definition counted_options : Options := MkOptions [one_option true] true true true (Some zero_salt).
Definition uncounted_options : Options := MkOptions [one_option false] true true true (Some zero_salt).

(** A value that is written twice, and what is left of it. *)
Definition two_writes : list Change := [(some_key, Some [x01; x02]); (some_key, Some [x01; x02])].
Definition two_pushes : list Change := [(some_key, Some [x01; x02]); (some_key, Some [])].
Definition one_changeset (l : list Change) : CommitChangeSet := MkCommitChangeSet {[0 := l]} ∅.
Definition queued_in (options : Options) (l : list Change) : DbInner :=
  (commit_raw (one_changeset l) (new_db options zero_salt)).2.
Definition counted_db : DbInner := queued_in counted_options two_writes.
Definition uncounted_db : DbInner := queued_in uncounted_options two_pushes.

Lemma one_hash options : options = counted_options ∨ options = uncounted_options → hash_options options.
Proof. intros [->| ->]; (split; [by repeat constructor|]); apply Nat.leb_le; reflexivity. Qed.

Lemma queued_in_repr options l : options = counted_options ∨ options = uncounted_options →
  ∃ d, commit_raw (one_changeset l) (new_db options zero_salt) = (Ok tt, d) ∧ db_repr d (fun _ _ => None) ∧
    queued (one_changeset l) (new_db options zero_salt) d.
Proof.
  intros Ho. apply (commit_raw_ok (H1 := stored_codec_laws)).
  - apply (new_db_repr (H1 := stored_codec_laws)); [by apply one_hash|reflexivity].
  - reflexivity.
  - by apply Z.leb_le.
  - by apply Z.ltb_lt.
  - split_and!; [by destruct Ho as [->| ->]| |done]. intros c v Hc. cbn in Hc. apply lookup_singleton_Some in Hc as [<- _].
    by destruct Ho as [->| ->].
Qed.

Lemma one_room options l : options = counted_options ∨ options = uncounted_options →
  (length l ≤ CHUNK_ENTRIES)%nat → changes_bound l < 2 ^ 22 → l = two_writes ∨ l = two_pushes →
  commit_room (new_columns options zero_salt) (LogWriter.new empty_overlays 0) (one_changeset l).
Proof.
  intros Ho Hlen Hb Hl. apply (new_db_room (H1 := stored_codec_laws)); [by apply one_hash|done|].
  intros c ch Hc. cbn in Hc. apply lookup_singleton_Some in Hc as [<- <-].
  split_and!; [done|by destruct Ho as [->| ->]|done|done|]. intros o Hco.
  assert (Hc : compression o = NoCompression) by (destruct Ho as [->| ->]; by injection Hco as <-).
  apply Forall_forall. intros [key val] Hin.
  assert (Hk : key = some_key ∧ (val = Some [x01; x02] ∨ val = Some [])).
  { destruct Hl as [->| ->]; set_solver. }
  destruct Hk as [-> Hv]. split; [done|]. destruct Hv as [->| ->]; (split; [done|]); cbn; rewrite Hc; by eexists.
Qed.

(** Closing a database with such a commit in its queue. *)
Ltac kill_tac options l :=
  unfold kill_ready;
  match goal with |- context [length (commits (commit_queue ?d))] =>
    replace (length (commits (commit_queue d))) with 1%nat by (vm_compute; reflexivity) end;
  cbn [commits_ready]; unfold process_ready; split;
  [field_is db_columns (new_columns options zero_salt); field_is db_log (new_log options);
   match goal with |- context [commits (commit_queue ?d)] =>
     replace (commits (commit_queue d)) with (commits (commit_queue (queued_in options l))) by (vm_compute; reflexivity) end;
   split_and!; [left; vm_compute; reflexivity|by apply Z.ltb_lt|by apply Z.ltb_lt|]
  |split; [|done]; split_and!; [left; vm_compute; reflexivity|apply Z.ltb_lt; vm_compute; reflexivity|
      apply Z.ltb_lt; vm_compute; reflexivity|];
   match goal with |- context [commits (commit_queue ?d)] =>
      replace (commits (commit_queue d)) with (@nil Commit) by (vm_compute; reflexivity) end; done].

Lemma queued_in_head options l : options = counted_options ∨ options = uncounted_options → l = two_writes ∨ l = two_pushes →
  match commits (commit_queue (queued_in options l)) with
  | c :: _ => commit_room (new_columns options zero_salt) (LogWriter.new empty_overlays 0) (changeset c)
  | [] => True
  end.
Proof.
  intros Ho Hl. destruct (queued_in_repr options l Ho) as (d & Hrun & _ & [(c & Hc & Hcs) _ _ _ _ _ _]).
  unfold queued_in. rewrite Hrun. cbn [snd]. rewrite Hc. cbn. rewrite Hcs. apply one_room; [done| | |done].
  - apply Nat.leb_le. by destruct Hl as [->| ->].
  - apply Z.ltb_lt. by destruct Hl as [->| ->].
Qed.

Lemma counted_kill : kill_ready (shutdown counted_db).
Proof. kill_tac counted_options two_writes. apply queued_in_head; by left. Qed.
Lemma uncounted_kill : kill_ready (shutdown uncounted_db).
Proof. kill_tac uncounted_options two_pushes. apply queued_in_head; by right. Qed.

Ltac reopen_tac options :=
  split; [exists zero_salt; split; vm_compute; reflexivity
    |field_is db_version CURRENT_VERSION; by split; [apply Z.leb_le|apply Z.ltb_lt]
    |field_is db_options options; by repeat constructor
    |apply Z.ltb_lt; vm_compute; reflexivity
    |apply files_short; vm_compute; reflexivity].

Lemma counted_reopen : reopenable (db_drop counted_db).
Proof. reopen_tac counted_options. Qed.
Lemma uncounted_reopen : reopenable (db_drop uncounted_db).
Proof. reopen_tac uncounted_options. Qed.

(** The directory of the source, and what it holds. *)
Definition source_dir : Dir := left_dir (db_drop counted_db) (map_to_list (disk (db_log (db_drop counted_db)))).
Definition source_meta : Metadata := MkMetadata zero_salt CURRENT_VERSION [one_option true].
Definition source_map : DbMap := committed counted_db (fun _ _ => None).

Lemma source_meta_read : Options.load_metadata_file (dir_metadata source_dir) = Ok (Some source_meta).
Proof. vm_compute. reflexivity. Qed.

Lemma source_map_key : source_map 0%nat some_key = Some ([x01; x02], 2).
Proof. vm_compute. reflexivity. Qed.
Lemma source_map_other key : key ≠ some_key → source_map 0%nat key = None.
Proof.
  intros Hne. assert (E : source_map 0%nat = kv_writes true false (fun _ => None) two_writes) by (vm_compute; reflexivity).
  rewrite E. apply (kv_writes_other true false two_writes (fun _ => None) key).
  constructor; [by intros E'%eq_sym|]. constructor; [by intros E'%eq_sym|]. constructor.
Qed.

Lemma source_opens : ∃ src dir, open_existing_db (source_options source_meta) [] source_dir = (Ok src, dir) ∧
  db_repr src source_map ∧ db_options src = source_options source_meta ∧ db_version src = CURRENT_VERSION ∧
  commits (commit_queue src) = [].
Proof.
  destruct (queued_in_repr counted_options two_writes (or_introl eq_refl)) as (d & Hrun & Hd & [_ Ho Hv _ _ Hbg _]).
  assert (Hc : counted_db = d) by (unfold counted_db, queued_in; by rewrite Hrun).
  rewrite <- Hc in *. clear Hc Hrun d.
  destruct (db_drop_ok (H1 := stored_codec_laws) (H6 := hex_codec_laws) counted_db (fun _ _ => None) Hd Hbg) as
    (Hd2 & _ & Ho2 & Hv2 & _); [left; vm_compute; reflexivity|exact counted_kill|].
  destruct (open_left (H1 := stored_codec_laws) (H6 := hex_codec_laws) (db_drop counted_db) (db_drop counted_db) source_map
    (map_to_list (disk (db_log (db_drop counted_db)))) [] Hd2 (dies_between _) counted_reopen (reflexivity _)) as
    (src & dir & Hopen & Hs & Hso & Hsv & Hq).
  assert (E : db_options (new_db counted_options zero_salt) = source_options source_meta) by reflexivity.
  rewrite Ho2, Ho, E in Hopen, Hso. rewrite Hv2, Hv in Hsv. exists src, dir.
  exact (conj Hopen (conj Hs (conj Hso (conj Hsv Hq)))).
Qed.

(** The one item of the source. *)
Lemma source_items rc items : items_hold rc (source_map 0%nat) items → items ≫= item_changes = two_pushes.
Proof.
  intros [Hnd Hk _ HM].
  assert (Hin : ∀ it, it ∈ items → iter_key it = some_key).
  { intros it Hit. destruct (decide (iter_key it = some_key)) as [|Hne]; [done|]. rewrite Forall_forall in Hk.
    specialize (HM _ (Hk _ Hit)). rewrite (source_map_other _ Hne) in HM.
    destruct (list_find (fun it0 => iter_key it0 = iter_key it) items) as [[j it']|] eqn:Ef; [done|].
    apply list_find_None in Ef. rewrite Forall_forall in Ef. by destruct (Ef it Hit). }
  specialize (HM some_key eq_refl). rewrite source_map_key in HM.
  destruct items as [|it [|it2 items]]; [done| |].
  - cbn in HM. rewrite decide_True in HM by (apply Hin; by left). injection HM as Hv Hr.
    cbn. rewrite app_nil_r. unfold item_changes. rewrite <- Hr, <- Hv, (Hin it) by (by left). reflexivity.
  - apply NoDup_cons in Hnd as [Hni _]. destruct Hni. cbn. rewrite (Hin it), (Hin it2) by set_solver. by left.
Qed.

(** No thread works between the commits. *)
Definition no_threads : DbInner → list WorkerOp := fun _ => [].

Lemma one_migration_ready src : db_repr src source_map → db_options src = source_options source_meta →
  db_version src = CURRENT_VERSION →
  migration_ready no_threads uncounted_options source_meta src.
Proof.
  intros Hs Ho Hv.
  assert (Hlen : (0 < length (db_columns src))%nat).
  { rewrite (proj1 (dr_cols _ _ Hs)), Ho. by apply Nat.ltb_lt. }
  destruct (column_items_ok (H1 := stored_codec_laws) src source_map 0 Hs) as [Hitems _];
    [by rewrite Hv|rewrite Ho; by repeat constructor|done|].
  apply source_items in Hitems. change (Z.of_nat 0) with 0 in Hitems.
  assert (Hplan : plan no_threads (length (columns uncounted_options)) 0 src = [(0, two_pushes)]).
  { cbn. change (Migration.scheduled no_threads src) with src. by rewrite Hitems. }
  assert (Hdest : migration_dest no_threads uncounted_options source_meta src = uncounted_db).
  { unfold migration_dest, migration_batch. rewrite Hplan. vm_compute. reflexivity. }
  split.
  - done.
  - rewrite Hplan. unfold two_pushes. cbn [plan_ready pushes_ready]. split_and!; [..|done|done].
    + intros E. exfalso. revert E. vm_compute. discriminate.
    + intros E. exfalso. revert E. vm_compute. discriminate.
  - unfold migration_batch. rewrite Hplan. split; [done|]. split; [apply Z.leb_le|apply Z.ltb_lt]; vm_compute; reflexivity.
  - rewrite Hdest. split; [done|left; vm_compute; reflexivity|exact uncounted_kill|exact uncounted_reopen].
Qed.

Lemma migrate_copies_witness :
  source_map 0%nat some_key = Some ([x01; x02], 2) ∧
  ∃ dirs d dir M', migrate no_threads map_to_list [] uncounted_options false [] (source_dir, empty_dir) = (Ok tt, dirs) ∧
    open_existing_db (migrated_to uncounted_options source_meta) [] dirs.2 = (Ok d, dir) ∧ db_repr d M' ∧
    M' 0%nat some_key = Some ([], 1).
Proof.
  split; [exact source_map_key|]. destruct source_opens as (src & from' & Hopen & Hs & Ho & Hv & Hq).
  destruct (migrate_copies (H1 := stored_codec_laws) (H6 := hex_codec_laws) no_threads map_to_list []
    (fun m => reflexivity (map_to_list m)) source_dir from' uncounted_options [] source_meta src source_map) as
    (dirs & d & dir & M' & Hrun & Hd & HM' & HM).
  - exact source_meta_read.
  - reflexivity.
  - apply Nat.ltb_lt. reflexivity.
  - reflexivity.
  - apply one_hash. by right.
  - reflexivity.
  - exact Hopen.
  - exact Ho.
  - split; [exact (ex_intro _ source_map (conj Hs (fun i => eq_refl)))|exact Hq|by rewrite Hv|rewrite Ho; by repeat constructor].
  - intros c Hc. right. assert (c = 0) as -> by (cbn in Hc; lia). discriminate.
  - exact (one_migration_ready src Hs Ho Hv).
  - exists dirs, d, dir, M'. split; [exact Hrun|]. split; [exact Hd|]. split; [exact HM'|].
    rewrite (HM 0%nat (one_option false) eq_refl some_key eq_refl), source_map_key. reflexivity.
Defined.

(** The files of column 1 of two, by a copy. *)
Definition two_columns (b : bytes) : Files := MkFiles (fun col k => if (col <? 2) && (k =? 0)%nat then Some b else None) (fun _ _ => None).
Lemma deplace_column_files_witness :
  let to' := (deplace_column 1 true (two_columns [x01]) (two_columns [x02])).2 in
  files_values to' 1 0%nat = Some [x01] ∧ files_values to' 0 0%nat = Some [x02].
Proof.
  pose proof (deplace_column_files 1 1 true (two_columns [x01]) (two_columns [x02]) 0 16 ltac:(by split) ltac:(by split)
    ltac:(by apply Nat.ltb_lt) ltac:(by split)) as [H1' _].
  pose proof (deplace_column_files 1 0 true (two_columns [x01]) (two_columns [x02]) 0 16 ltac:(by split) ltac:(by split)
    ltac:(by apply Nat.ltb_lt) ltac:(by split)) as [_ H2'].
  cbv zeta. split; [exact (proj1 (H1' eq_refl))|]. exact (proj1 (H2' ltac:(discriminate))).
Defined.
