(* ===== verification/BTreeCodec.v ===== *)
(** * Nodes and their encoding

    The content of a node: its separators and the addresses of its children. A
    node that is written to a table entry and read back has the same content
    (src/src/btree/mod.rs, src/src/btree/node.rs). *)

From S2P Require Import Prelude.
From S2P Require Import Bytes.
From S2P Require Import Ids.
From S2P Require Import Log.
From S2P Require Import Table.
From S2P Require Import TableSpec.
From S2P Require Import BTreeNode.
From stdpp Require Import options.
#[local] Set Default Proof Using "Type*".

(** ** Content *)

Definition fill {A} (n : nat) (a : A) (l : list A) : list A := l ++ replicate (n - length l) a.

(** The separators and children of the arrays, without the flags. *)
Record has_content (n : Node) (ss : list SeparatorInner) (cs : list (option Address)) : Prop := {
  hc_seps : separator <$> separators n = fill ORDER None (Some <$> ss);
  hc_children : entry_index <$> children n = fill ORDER_CHILD None cs;
  hc_slen : (length ss ≤ ORDER)%nat;
  hc_clen : length cs = S (length ss);
}.

(** A node as it is read from an entry. *)
Definition clean_node (ss : list SeparatorInner) (cs : list (option Address)) : Node :=
  MkNode (fill ORDER no_separator (MkSeparator false ∘ Some <$> ss))
    (fill ORDER_CHILD no_child (MkChild false <$> cs)) false.

Lemma fill_length {A} n (a : A) l : (length l ≤ n)%nat → length (fill n a l) = n.
Proof. intros. unfold fill. rewrite length_app, length_replicate. lia. Qed.

Lemma fill_fmap {A B} (f : A → B) n a l : f <$> fill n a l = fill n (f a) (f <$> l).
Proof. unfold fill. by rewrite fmap_app, fmap_replicate, length_fmap. Qed.

(** The next free place of a filled array. *)
Lemma fill_insert {A} n (a x : A) l : (length l < n)%nat → <[length l := x]> (fill n a l) = fill n a (l ++ [x]).
Proof.
  intros Hl. unfold fill. rewrite length_app. cbn [length].
  replace (n - length l)%nat with (S (n - (length l + 1))) by lia. cbn [replicate].
  by rewrite insert_app_r_alt, Nat.sub_diag, <- app_assoc by lia.
Qed.
Lemma fill_default {A} n (a : A) l : (length l < n)%nat → fill n a (l ++ [a]) = fill n a l.
Proof.
  intros Hl. unfold fill. rewrite length_app. cbn [length].
  replace (n - length l)%nat with (S (n - (length l + 1))) by lia. cbn [replicate]. by rewrite <- app_assoc.
Qed.

Lemma clean_node_content ss cs : (length ss ≤ ORDER)%nat → length cs = S (length ss) →
  has_content (clean_node ss cs) ss cs.
Proof.
  intros Hs Hc. split; try done; cbn [clean_node separators children]; rewrite fill_fmap.
  - by rewrite <- list_fmap_compose.
  - rewrite <- list_fmap_compose. unfold compose. cbn. by rewrite list_fmap_id.
Qed.

(** ** Encoding *)

Definition address_ok (a : Address) : Prop := 0 < Address.as_u64 a < 2 ^ 64.
Definition sep_ok (s : SeparatorInner) : Prop :=
  Z.of_nat (length (sep_key s)) < 2 ^ 32 ∧ address_ok (sep_value s).
Definition content_ok (ss : list SeparatorInner) (cs : list (option Address)) : Prop :=
  Forall sep_ok ss ∧ Forall (fun c => match c with Some a => address_ok a | None => True end) cs.

Fixpoint encode_content (cs : list (option Address)) (ss : list SeparatorInner) : bytes :=
  match cs with
  | [] => []
  | c :: cs =>
      write_child_index (default NULL_ADDRESS c) ++
      match ss with s :: ss => write_separator s ++ encode_content cs ss | [] => [] end
  end.

Lemma encode_from_content cs ss : ∀ (csn : list Child) (ssn : list Separator) k m,
  entry_index <$> csn = cs ++ replicate k None → separator <$> ssn = (Some <$> ss) ++ replicate m None →
  length cs = S (length ss) → encode_from csn ssn = encode_content cs ss.
Proof.
  revert ss. induction cs as [|c cs IH]; intros ss csn ssn k m Hc Hs Hlen; [done|].
  destruct csn as [|cn csn]; [done|]. injection Hc as Hc1 Hc. cbn [encode_from encode_content]. rewrite Hc1. f_equal.
  destruct ss as [|s ss].
  - destruct ssn as [|sn ssn]; [done|]. cbn in Hs. destruct m; [done|]. injection Hs as -> _. done.
  - destruct ssn as [|sn ssn]; [done|]. injection Hs as -> Hs. f_equal. eapply IH; try done. cbn in Hlen. lia.
Qed.

Lemma encode_node_content n ss cs : has_content n ss cs → encode_node n = encode_content cs ss.
Proof.
  intros [H1 H2 H3 H4]. unfold encode_node. eapply encode_from_content; [exact H2|exact H1|done].
Qed.

(** A buffer with a position: what was read and what is left. *)
Definition cursor (p rest : bytes) : Entry := MkEntry (length p) (p ++ rest).

Lemma cursor_read p x rest n : n = length x →
  Entry.read_slice n (cursor p (x ++ rest)) = (Ok x, cursor (p ++ x) rest).
Proof.
  intros ->. unfold cursor. etrans; [by apply read_slice_at|]. by rewrite length_app, <- app_assoc.
Qed.
Lemma cursor_u64 p v rest : 0 ≤ v < 2 ^ 64 →
  Entry.read_u64 (cursor p (le_encode 8 v ++ rest)) = (Ok v, cursor (p ++ le_encode 8 v) rest).
Proof.
  intros Hv. unfold Entry.read_u64. erewrite ST_bind_Ok by (apply cursor_read; by len).
  unfold mret, ST_ret. by rewrite le_decode_encode_small.
Qed.
Lemma cursor_u32 p v rest : 0 ≤ v < 2 ^ 32 →
  Entry.read_u32 (cursor p (le_encode 4 v ++ rest)) = (Ok v, cursor (p ++ le_encode 4 v) rest).
Proof.
  intros Hv. unfold Entry.read_u32. erewrite ST_bind_Ok by (apply cursor_read; by len).
  unfold mret, ST_ret. by rewrite le_decode_encode_small.
Qed.
Lemma cursor_byte p v rest : 0 ≤ v < 2 ^ 8 →
  Entry.read_slice 1 (cursor p (byte_of v :: rest)) = (Ok [byte_of v], cursor (p ++ [byte_of v]) rest) ∧
  le_decode [byte_of v] = v.
Proof.
  intros Hv. split; [by apply (cursor_read p [byte_of v])|].
  change (le_decode [byte_of v]) with (byte_val (byte_of v) + 2 ^ 8 * 0). rewrite byte_val_of, Z.mod_small; lia.
Qed.

Lemma read_child_index_at p rest c : (match c with Some x => address_ok x | None => True end) →
  read_child_index (cursor p (write_child_index (default NULL_ADDRESS c) ++ rest)) =
  (Ok c, cursor (p ++ write_child_index (default NULL_ADDRESS c)) rest).
Proof.
  intros Hc. unfold read_child_index, write_child_index. erewrite ST_bind_Ok.
  2: { apply cursor_u64. destruct c as [x|]; [unfold address_ok in Hc; cbn; lia|done]. }
  unfold mret, ST_ret. do 2 f_equal. destruct c as [[x]|]; [|done]. unfold address_ok in Hc. cbn in *.
  by rewrite (proj2 (Z.eqb_neq _ _)) by lia.
Qed.

Lemma read_separator_at p rest s : sep_ok s →
  read_separator (cursor p (write_separator s ++ rest)) = (Ok (Some s), cursor (p ++ write_separator s) rest).
Proof.
  intros [Hk Ha]. unfold address_ok in Ha. destruct s as [key [v]]. cbn [sep_key sep_value Address.as_u64 address_u64] in *.
  unfold read_separator. erewrite ST_bind_Ok by done. cbn [e_offset e_data].
  assert (E : (e_offset (cursor p (write_separator (MkSep key (MkAddress v)) ++ rest)) =?
    length (e_data (cursor p (write_separator (MkSep key (MkAddress v)) ++ rest))))%nat = false).
  { apply Nat.eqb_neq. unfold cursor, write_separator. cbn [e_offset e_data]. rewrite !length_app, length_le_encode. lia. }
  rewrite E. clear E. unfold write_separator. cbn [sep_key sep_value Address.as_u64 address_u64].
  rewrite <- app_assoc. erewrite ST_bind_Ok by (apply cursor_u64; lia).
  set (size := Z.of_nat (length key)) in *. destruct (Z.leb_spec U8_MAX size) as [Hbig|Hsmall]; unfold U8_MAX in *.
  - rewrite <- !app_assoc. cbn [app].
    destruct (cursor_byte (p ++ le_encode 8 v) (2 ^ 8 - 1) (le_encode 4 (wrap32 size) ++ key ++ rest)) as [E1 E2]; [lia|].
    erewrite ST_bind_Ok by exact E1. rewrite E2, Z.eqb_refl. unfold wrap32. rewrite Z.mod_small by lia.
    erewrite ST_bind_Ok by (apply cursor_u32; lia). erewrite ST_bind_Ok by (apply cursor_read; lia).
    rewrite (proj2 (Z.eqb_neq _ _)) by lia. unfold mret, ST_ret. f_equal. f_equal. rewrite <- !app_assoc. done.
  - rewrite <- !app_assoc. cbn [app].
    destruct (cursor_byte (p ++ le_encode 8 v) size (key ++ rest)) as [E1 E2]; [lia|].
    erewrite ST_bind_Ok by exact E1. rewrite E2, (proj2 (Z.eqb_neq size (2 ^ 8 - 1))) by lia. erewrite ST_bind_Ok by done.
    erewrite ST_bind_Ok by (apply cursor_read; lia).
    rewrite (proj2 (Z.eqb_neq _ _)) by lia. unfold mret, ST_ret. f_equal. f_equal. rewrite <- !app_assoc. done.
Qed.

(** The rest of a node is read into the free places of the arrays. *)
Lemma decode_from_content cs : ∀ ss p ss0 cs0 fuel, content_ok ss cs → length cs = S (length ss) →
  length cs0 = length ss0 → (length cs0 + length cs ≤ ORDER_CHILD)%nat → (length cs ≤ fuel)%nat →
  (decode_from fuel (length cs0) (clean_node ss0 cs0) (cursor p (encode_content cs ss))).1 =
  Ok (clean_node (ss0 ++ ss) (cs0 ++ cs)).
Proof.
  induction cs as [|c cs IH]; intros ss p ss0 cs0 fuel [Hss Hcs] Hlen H0 Hle Hf; [done|].
  apply Forall_cons in Hcs as [Hc Hcs]. destruct fuel as [|fuel]; [cbn in Hf; lia|]. cbn [length] in *.
  assert (Hput : ∃ n1, (match c with
      | Some c => put_child (length cs0) (MkChild false (Some c)) (clean_node ss0 cs0)
      | None => Ok (clean_node ss0 cs0) end) = Ok n1 ∧ n1 = MkNode (separators (clean_node ss0 cs0))
        (fill ORDER_CHILD no_child (MkChild false <$> (cs0 ++ [c]))) false).
  { eexists. split; [|done]. rewrite fmap_app. cbn [fmap list_fmap]. destruct c as [c|].
    - unfold put_child, child_at, clean_node. cbn [children separators changed].
      destruct (lookup_lt_is_Some_2 (fill ORDER_CHILD no_child (MkChild false <$> cs0)) (length cs0)) as [x ->].
      { rewrite fill_length by (rewrite length_fmap; lia). lia. }
      cbn [unwrap]. rewrite outcome_bind_Ok.
      rewrite <- (fill_insert ORDER_CHILD no_child) by (rewrite length_fmap; lia). by rewrite length_fmap.
    - rewrite fill_default by (rewrite length_fmap; lia). done. }
  cbn [decode_from encode_content]. erewrite ST_bind_Ok by (by apply read_child_index_at).
  destruct Hput as (n1 & -> & ->). erewrite ST_bind_Ok by done.
  destruct ss as [|s ss].
  - destruct cs; [|cbn in Hlen; lia]. rewrite app_nil_r. destruct (S (length cs0) =? ORDER_CHILD)%nat; [done|].
    unfold read_separator, mbind, ST_bind, get_st. cbn [cursor e_offset e_data].
    by rewrite app_nil_r, Nat.eqb_refl.
  - apply Forall_cons in Hss as [Hs Hss]. cbn [length] in Hlen.
    rewrite (proj2 (Nat.eqb_neq _ _)) by lia. erewrite ST_bind_Ok by (by apply read_separator_at).
    assert (Hsep : put_sep (length cs0) (MkSeparator false (Some s))
      (MkNode (separators (clean_node ss0 cs0)) (fill ORDER_CHILD no_child (MkChild false <$> (cs0 ++ [c]))) false) =
      Ok (clean_node (ss0 ++ [s]) (cs0 ++ [c]))).
    { unfold put_sep, sep_at, clean_node. cbn [children separators changed].
      assert (Hlt : (length ss0 < ORDER)%nat) by (unfold ORDER_CHILD in *; lia).
      destruct (lookup_lt_is_Some_2 (fill ORDER no_separator (MkSeparator false ∘ Some <$> ss0)) (length cs0)) as [x ->].
      { rewrite fill_length by (rewrite length_fmap; lia). lia. }
      cbn [unwrap]. rewrite outcome_bind_Ok, (fmap_app (MkSeparator false ∘ Some)).
      change (MkSeparator false ∘ Some <$> [s]) with [MkSeparator false (Some s)].
      rewrite <- (fill_insert ORDER no_separator) by (rewrite length_fmap; lia). by rewrite length_fmap, H0. }
    cbv beta iota. rewrite Hsep. erewrite ST_bind_Ok by done.
    replace (S (length cs0)) with (length (cs0 ++ [c])) by (rewrite length_app; cbn; lia).
    rewrite IH; rewrite ?length_app; cbn [length]; try lia; try done. by rewrite <- !app_assoc.
Qed.

Lemma from_encoded_content n ss cs : has_content n ss cs → content_ok ss cs →
  from_encoded (encode_node n) = Ok (clean_node ss cs).
Proof.
  intros Hn Hok. rewrite (encode_node_content n ss cs Hn). destruct Hn as [_ _ Hs Hc].
  unfold from_encoded.
  apply (decode_from_content cs ss [] [] [] ORDER_CHILD); try done; unfold ORDER_CHILD; cbn [length]; lia.
Qed.
