(* ===== verification/BTreeLookup.v ===== *)
(** * Lookup in a tree of nodes

    The tree that a node stands for, through the addresses of its children, as
    the sorted list of its entries; lookup goes down one path and finds what the
    list holds (src/src/btree/node.rs, src/src/btree/mod.rs). *)

From S2P Require Import Prelude.
From S2P Require Import Bytes.
From S2P Require Import Ids.
From S2P Require Import Log.
From S2P Require Import Table.
From S2P Require Import TableSpec.
From S2P Require Import Compress.
From S2P Require Import Column.
From S2P Require Import BTreeNode.
From S2P Require Import BTree.
From S2P Require Import KeyOrder.
From S2P Require Import BTreeCodec.
From stdpp Require Import sorting.
From stdpp Require Import options.
#[local] Set Default Proof Using "Type*".

Abbreviation Entries := (list (bytes * Address)).

(** ** The entries of a node *)

Definition sep_entry (s : SeparatorInner) : bytes * Address := (sep_key s, sep_value s).

(** The entries of the children, with the separators in between. *)
Fixpoint interleave (ls : list Entries) (ss : list SeparatorInner) : Entries :=
  match ls with
  | [] => []
  | l :: ls => l ++ match ss with s :: ss => sep_entry s :: interleave ls ss | [] => [] end
  end.

(** What is before the last of the children, and after the first. *)
Definition left_of (ls : list Entries) (ss : list SeparatorInner) : Entries :=
  concat (zip_with (fun l s => l ++ [sep_entry s]) ls ss).
Definition right_of (ls : list Entries) (ss : list SeparatorInner) : Entries :=
  match ss with s :: ss => sep_entry s :: interleave ls ss | [] => [] end.

Lemma interleave_split ls1 l ls2 ss1 ss2 : length ls1 = length ss1 →
  interleave (ls1 ++ l :: ls2) (ss1 ++ ss2) = left_of ls1 ss1 ++ l ++ right_of ls2 ss2.
Proof.
  revert ss1. induction ls1 as [|l1 ls1 IH]; intros [|s ss1] Hlen; try done.
  injection Hlen as Hlen. unfold left_of. cbn. rewrite IH by done. by rewrite <- !app_assoc.
Qed.

(** The position of a key among the separators: what is before it is smaller,
    what is after it larger. *)
Lemma position_split key : ∀ ss ls i b j seps k, length ls = S (length ss) → keys_sorted (interleave ls ss) →
  separator <$> seps = (Some <$> ss) ++ replicate k None → position_from key i seps = (b, j) →
  ∃ ls1 ls2 ss1 ss2 l, j = (i + length ls1)%nat ∧ ls = ls1 ++ l :: ls2 ∧ ss = ss1 ++ ss2 ∧ length ls1 = length ss1 ∧
    all_below key (left_of ls1 ss1) ∧
    (if b then ∃ s ss3, ss2 = s :: ss3 ∧ sep_key s = key else all_above key (right_of ls2 ss2)).
Proof.
  induction ss as [|s ss IH]; intros ls i b j seps k Hlen Hs Hseps Hp.
  - destruct ls as [|l [|]]; [done| |done]. exists [], [], [], [], l.
    assert (Hj : b = false ∧ j = i).
    { destruct seps as [|sn seps]; cbn in Hp; [by simplify_eq|]. destruct k; [done|].
      injection Hseps as E _. rewrite E in Hp. by simplify_eq. }
    destruct Hj as [-> ->]. split_and!; try done; constructor.
  - destruct ls as [|l ls]; [done|]. destruct seps as [|sn seps]; [done|].
    injection Hseps as Hsn Hseps. cbn [position_from] in Hp. rewrite Hsn in Hp. cbn [interleave] in Hs.
    apply sorted_app in Hs as (Hl & [Habove Hrs]%StronglySorted_cons & Hlr).
    destruct (bytes_compare key (sep_key s)) eqn:Ec; [|injection Hp as <- <-|].
    + apply bytes_compare_eq in Ec. injection Hp as <- <-. exists [], ls, [], (s :: ss), l.
      split_and!; try done; [constructor|by exists s, ss].
    + exists [], ls, [], (s :: ss), l. split_and!; try done; [constructor|]. cbn [right_of].
      constructor; [done|]. eapply Forall_impl; [exact Habove|]. intros x Hx. by etrans.
    + apply bytes_compare_gt in Ec.
      destruct (IH ls (S i) b j seps k) as (ls1 & ls2 & ss1 & ss2 & l' & Hj & E1 & E2 & Hm & Hb & Hf);
        [cbn in Hlen; lia|done|done|done|].
      exists (l :: ls1), ls2, (s :: ss1), ss2, l'. cbn [length]. split_and!; [lia|by rewrite E1|by rewrite E2|lia| |done].
      unfold left_of. cbn [zip_with concat]. apply all_below_app. split; [|done]. apply all_below_app. split; [|by repeat constructor].
      apply Forall_forall. intros x Hx. etrans; [|exact Ec]. apply Hlr; [done|]. cbn. by left.
Qed.

(** ** Trees *)

Section Lookup.
Context `{!Uninit, !Codecs} {L} `{LogQuery L} (tables : list ValueTable) (compression : Compress) (log : L).

(** The node that is stored at an address. *)
Definition stored_node (a : Address) (n : Node) : Prop :=
  ∃ e, get_encoded_entry tables compression log a = Ok e ∧ from_encoded e = Ok n.

(** [n] is the root of a tree of height [h] with the entries [l]. *)
Fixpoint node_tree (h : nat) (n : Node) (l : Entries) : Prop :=
  ∃ ss cs, has_content n ss cs ∧
    match h with
    | O => Forall (fun c => c = None) cs ∧ l = sep_entry <$> ss
    | S h => ∃ ls, l = interleave ls ss ∧
        Forall2 (fun c l => ∃ a child, c = Some a ∧ stored_node a child ∧ node_tree h child l) cs ls
    end.

Lemma interleave_leaf ss : interleave (replicate (S (length ss)) []) ss = sep_entry <$> ss.
Proof. induction ss as [|s ss IH]; [done|]. cbn [length]. cbn. f_equal. exact IH. Qed.

(** The content of the children, as reading them gives it. *)
Lemma fetch_child_content n ss cs i c : has_content n ss cs → cs !! i = Some c →
  fetch_child tables compression log i n =
  match c with Some a => e ← get_encoded_entry tables compression log a; child ← from_encoded e; Ok (Some child) | None => Ok None end.
Proof.
  intros [_ Hc _ _] Hi. unfold fetch_child, child_at.
  assert (E : entry_index <$> (children n !! i) = Some c).
  { rewrite <- list_lookup_fmap, Hc. unfold fill. by apply lookup_app_l_Some. }
  destruct (children n !! i) as [x|]; [|done]. injection E as E. cbn [unwrap]. by rewrite outcome_bind_Ok, E.
Qed.
Lemma separator_address_content n ss cs i s : has_content n ss cs → ss !! i = Some s →
  separator_address i n = Ok (Some (sep_value s)).
Proof.
  intros [Hs _ _ _] Hi. unfold separator_address, sep_at.
  assert (E : separator <$> (separators n !! i) = Some (Some s)).
  { rewrite <- list_lookup_fmap, Hs. unfold fill. apply lookup_app_l_Some. by rewrite list_lookup_fmap, Hi. }
  destruct (separators n !! i) as [x|]; [|done]. injection E as E. cbn [unwrap]. by rewrite outcome_bind_Ok, E.
Qed.

(** A node with its children: a leaf has empty ones. *)
Lemma node_tree_children h n l : node_tree h n l → ∃ ss cs ls, has_content n ss cs ∧ length ls = S (length ss) ∧
  l = interleave ls ss ∧
  ∀ i l, ls !! i = Some l → match h with
    | O => cs !! i = Some None ∧ l = []
    | S h => ∃ a child, cs !! i = Some (Some a) ∧ stored_node a child ∧ node_tree h child l
    end.
Proof.
  destruct h as [|h]; intros (ss & cs & Hn & Ht); pose proof (hc_clen _ _ _ Hn) as Hlen.
  - destruct Ht as [Hcs ->]. exists ss, cs, (replicate (S (length ss)) []).
    split_and!; [done|apply length_replicate|by rewrite interleave_leaf|].
    intros i l' [-> Hi]%lookup_replicate. split; [|done]. rewrite <- Hlen in Hi.
    apply lookup_lt_is_Some in Hi as [c Hc]. by rewrite Hc, (Forall_lookup_1 _ _ _ _ Hcs Hc).
  - destruct Ht as (ls & -> & Hcs). exists ss, cs, ls. split_and!; [done| |done|].
    { rewrite <- Hlen. symmetry. by eapply Forall2_length. }
    intros i l' Hl. destruct (Forall2_lookup_r _ _ _ _ _ Hcs Hl) as (c & Hc & a & child & -> & Hst & Htree). eauto.
Qed.

Lemma node_tree_get h : ∀ n l fuel key, node_tree h n l → keys_sorted l → (h < fuel)%nat →
  node_get tables compression log fuel key n = Ok (find_key key l).
Proof.
  induction h as [h IH] using lt_wf_ind. intros n l [|fuel] key Ht Hs Hf; [lia|].
  apply node_tree_children in Ht as (ss & cs & ls & Hn & Hlen & -> & Hch). cbn [node_get]. unfold position.
  destruct (position_from key 0 (separators n)) as [b j] eqn:Hp.
  eapply position_split in Hp as (ls1 & ls2 & ss1 & ss2 & l & Ej & Els & Ess & Hm & Hb & Hf');
    [|exact Hlen|exact Hs|apply (hc_seps _ _ _ Hn)]. subst j ls ss.
  rewrite interleave_split in Hs |- * by done. cbn [Nat.add]. rewrite find_key_app, (find_key_below key (left_of _ _)) by done.
  specialize (Hch (length ls1) l). rewrite lookup_app_r, Nat.sub_diag in Hch by lia. specialize (Hch eq_refl).
  apply sorted_app in Hs as (_ & Hs & _). destruct b.
  - destruct Hf' as (s & ss3 & -> & <-). cbn [right_of] in Hs |- *.
    rewrite find_key_app, find_key_below; [cbn; rewrite decide_True by done|].
    + apply (separator_address_content n (ss1 ++ s :: ss3) cs); [done|]. by rewrite Hm, lookup_app_r, Nat.sub_diag by lia.
    + apply Forall_forall. intros x Hx. apply sorted_app in Hs as (_ & _ & Hs). apply Hs; [done|]. cbn. by left.
  - rewrite find_key_app, (find_key_above key (right_of _ _)) by done. apply sorted_app in Hs as (Hs & _).
    destruct h as [|h].
    + destruct Hch as [Hc ->]. by rewrite (fetch_child_content _ _ _ _ _ Hn Hc).
    + destruct Hch as (a & child & Hc & (e & He & Hd) & Htree).
      rewrite (fetch_child_content _ _ _ _ _ Hn Hc), He, outcome_bind_Ok, Hd, !outcome_bind_Ok.
      rewrite (IH h) with (l := l) by (done || lia). by destruct (find_key key l).
Qed.

(** ** The table of an ordered column *)

(** The value at an address. *)
Definition stored_value (a : Address) (v : bytes) : Prop :=
  ∃ tier, get_value (Fetch None) a tables compression log = Ok (Some (tier, v)).

(** The table holds the pairs [kv], in the order of the keys. *)
Definition table_repr (kv : list (bytes * bytes)) : Prop :=
  ∃ hd, btree_header tables compression log = Ok hd ∧
    if decide (root hd = NULL_ADDRESS) then kv = []
    else ∃ n l h, stored_node (root hd) n ∧ node_tree h n l ∧ (h < MAX_DEPTH)%nat ∧ keys_sorted l ∧
      Forall2 (fun e p => e.1 = p.1 ∧ stored_value e.2 p.2) l kv.

Lemma find_key_values key (l : Entries) (kv : list (bytes * bytes)) :
  Forall2 (fun e p => e.1 = p.1 ∧ stored_value e.2 p.2) l kv →
  match find_key key l with
  | Some a => ∃ v, find_key key kv = Some v ∧ stored_value a v
  | None => find_key key kv = None
  end.
Proof.
  induction 1 as [|[k a] [k' v] l kv [E Hv] _ IH]; [done|]. cbn in E, Hv |- *. subst k'. case_decide; [by exists v|done].
Qed.

Lemma table_get key kv : table_repr kv → btree_get tables compression log key = Ok (find_key key kv).
Proof.
  intros (hd & Hh & Hr). unfold btree_get. rewrite Hh, outcome_bind_Ok. case_decide as Hroot; [by subst kv|].
  destruct Hr as (n & l & h & (e & He & Hd) & Htree & Hdepth & Hs & Hkv).
  unfold tree_get, fetch_root. cbn [bt_root_index].
  change (default NULL_ADDRESS (Some (root hd))) with (root hd). rewrite decide_False by done.
  rewrite He, outcome_bind_Ok, Hd, outcome_bind_Ok, (node_tree_get h n l) by done.
  rewrite outcome_bind_Ok. apply (find_key_values key) in Hkv. destruct (find_key key l) as [a|].
  - destruct Hkv as (v & -> & tier & ->). done.
  - by rewrite Hkv.
Qed.

End Lookup.
