(* ===== verification/BTreeShape.v ===== *)
(** * Operations on the arrays of a node

    What [shift_from], [remove_from], [split] and the loop of a merge
    (src/src/btree/node.rs) do to the separators and children of a node, as lists.
    Places of the arrays behind the children in use may hold anything: a merge
    of the last two of nine children leaves an address there. *)

From S2P Require Import Prelude.
From S2P Require Import Bytes.
From S2P Require Import Ids.
From S2P Require Import Table.
From S2P Require Import Compress.
From S2P Require Import Column.
From S2P Require Import BTreeNode.
From S2P Require Import BTree.
From S2P Require Import KeyOrder.
From S2P Require Import BTreeCodec.
From stdpp Require Import options.
#[local] Set Default Proof Using "Type*".

(** ** Arrays *)

(** The arrays of a node, without the flags. *)
Record arr (n : Node) (L : list (option SeparatorInner)) (C : list (option Address)) : Prop := {
  arr_seps : separator <$> separators n = L;
  arr_children : entry_index <$> children n = C;
}.

Lemma arr_set_changed n L C : arr n L C → arr (set_changed n) L C.
Proof. by intros []. Qed.

Lemma sep_at_arr n L C i x : arr n L C → L !! i = Some x → ∃ s, sep_at i n = Ok s ∧ separator s = x.
Proof.
  intros [<- _]. rewrite list_lookup_fmap. unfold sep_at. destruct (separators n !! i) as [s|]; [|done].
  intros [= <-]. by exists s.
Qed.
Lemma child_at_arr n L C i x : arr n L C → C !! i = Some x → ∃ c, child_at i n = Ok c ∧ entry_index c = x.
Proof.
  intros [_ <-]. rewrite list_lookup_fmap. unfold child_at. destruct (children n !! i) as [c|]; [|done].
  intros [= <-]. by exists c.
Qed.

Lemma put_sep_arr n L C i s : arr n L C → is_Some (L !! i) →
  ∃ n', put_sep i s n = Ok n' ∧ arr n' (<[i := separator s]> L) C ∧ changed n' = changed n.
Proof.
  intros Ha [x Hx]. unfold put_sep. destruct (sep_at_arr _ _ _ _ _ Ha Hx) as (s0 & -> & _). rewrite outcome_bind_Ok.
  destruct Ha as [<- <-]. eexists. split_and!; [done| |done]. split; [|done]. cbn. by rewrite list_fmap_insert.
Qed.
Lemma put_child_arr n L C i c : arr n L C → is_Some (C !! i) →
  ∃ n', put_child i c n = Ok n' ∧ arr n' L (<[i := entry_index c]> C) ∧ changed n' = changed n.
Proof.
  intros Ha [x Hx]. unfold put_child. destruct (child_at_arr _ _ _ _ _ Ha Hx) as (c0 & -> & _). rewrite outcome_bind_Ok.
  destruct Ha as [<- <-]. eexists. split_and!; [done| |done]. split; [done|]. cbn. by rewrite list_fmap_insert.
Qed.

Lemma remove_separator_arr n L C i x : arr n L C → L !! i = Some x →
  ∃ s n', remove_separator i n = Ok (s, n') ∧ separator s = x ∧ arr n' (<[i := None]> L) C ∧ changed n' = true.
Proof.
  intros Ha Hx. unfold remove_separator. destruct (sep_at_arr _ _ _ _ _ Ha Hx) as (s & -> & Es). rewrite outcome_bind_Ok.
  destruct (put_sep_arr (set_changed n) L C i (MkSeparator true None)) as (n' & -> & Hn' & Hc);
    [by apply arr_set_changed|by eexists|].
  rewrite outcome_bind_Ok. eexists _, n'. split_and!; [done|done|done|by rewrite Hc].
Qed.
Lemma remove_child_arr n L C i x : arr n L C → C !! i = Some x →
  ∃ c n', remove_child i n = Ok (c, n') ∧ entry_index c = x ∧ arr n' L (<[i := None]> C) ∧ changed n' = true.
Proof.
  intros Ha Hx. unfold remove_child. destruct (child_at_arr _ _ _ _ _ Ha Hx) as (c & -> & Ec). rewrite outcome_bind_Ok.
  destruct (put_child_arr (set_changed n) L C i (MkChild true None)) as (n' & -> & Hn' & Hc);
    [by apply arr_set_changed|by eexists|].
  rewrite outcome_bind_Ok. eexists _, n'. split_and!; [done|done|done|by rewrite Hc].
Qed.
Lemma set_separator_arr n L C i s : arr n L C → is_Some (L !! i) →
  ∃ n', set_separator i s n = Ok n' ∧ arr n' (<[i := separator s]> L) C ∧ changed n' = true.
Proof.
  intros Ha Hx. destruct (put_sep_arr (set_changed n) L C i (MkSeparator true (separator s))) as (n' & Hp & Hn' & Hc);
    [by apply arr_set_changed|done|]. exists n'. split_and!; [done|done|by rewrite Hc].
Qed.
Lemma set_child_arr n L C i c : arr n L C → is_Some (C !! i) →
  ∃ n', set_child i c n = Ok n' ∧ arr n' L (<[i := entry_index c]> C) ∧ changed n' = true.
Proof.
  intros Ha Hx. destruct (put_child_arr (set_changed n) L C i (MkChild true (entry_index c))) as (n' & Hp & Hn' & Hc);
    [by apply arr_set_changed|done|]. exists n'. split_and!; [done|done|by rewrite Hc].
Qed.

(** The element between two parts of a list. *)
Lemma lookup_mid {A} (l1 l2 : list A) x i : i = length l1 → (l1 ++ x :: l2) !! i = Some x.
Proof. intros ->. by rewrite lookup_app_r, Nat.sub_diag by lia. Qed.
Lemma insert_mid {A} (l1 l2 : list A) x y i : i = length l1 → <[i := y]> (l1 ++ x :: l2) = l1 ++ y :: l2.
Proof. intros ->. by rewrite insert_app_r_alt, Nat.sub_diag by lia. Qed.

(** ** Loops *)

(** [shift_separators] and [shift_children] push an element into the places that
    follow, up to the first free one; [unshift_separators] and
    [unshift_children] pull them back. *)
Fixpoint push {A} (x : option A) (l : list (option A)) : list (option A) :=
  match x, l with
  | None, _ => l
  | Some _, [] => []
  | Some _, y :: l => x :: push y l
  end.
Fixpoint pull {A} (x : option A) (l : list (option A)) : list (option A) :=
  match l with
  | [] => [x]
  | None :: l => None :: None :: l
  | Some y :: l => Some y :: pull None l
  end.

Lemma push_length {A} (l : list (option A)) : ∀ x, length (push x l) = length l.
Proof. induction l as [|y l IH]; intros [x|]; try done. cbn. by rewrite IH. Qed.
Lemma pull_length {A} (l : list (option A)) : ∀ x, length (pull x l) = S (length l).
Proof. induction l as [|[y|] l IH]; intros x; try done. cbn. by rewrite IH. Qed.

Lemma push_free {A} (l : list A) r : ∀ a, push (Some a) ((Some <$> l) ++ None :: r) = (Some <$> a :: l) ++ r.
Proof.
  induction l as [|b l IH]; intros a; [by destruct r|].
  change (Some a :: push (Some b) ((Some <$> l) ++ None :: r) = (Some <$> a :: b :: l) ++ r). by rewrite IH.
Qed.
Lemma push_junk {A} (l : list A) : ∀ a junk, junk ≠ [] →
  ∃ junk', push (Some a) ((Some <$> l) ++ junk) = (Some <$> a :: l) ++ junk'.
Proof.
  induction l as [|b l IH]; intros a junk Hj.
  - destruct junk as [|y junk]; [done|]. by exists (push y junk).
  - destruct (IH b junk Hj) as [junk' E]. exists junk'. cbn. f_equal. exact E.
Qed.
Lemma pull_free {A} (l : list A) k : pull None ((Some <$> l) ++ replicate k None) = (Some <$> l) ++ replicate (S k) None.
Proof. induction l as [|b l IH]; [by destruct k|]. cbn. by rewrite IH. Qed.
Lemma pull_junk {A} (l : list A) : ∀ x junk, ∃ junk', pull x ((Some <$> l) ++ junk) = (Some <$> l) ++ junk'.
Proof.
  induction l as [|b l IH]; intros x junk; [by eexists|]. destruct (IH None junk) as [junk' E]. exists junk'. cbn. by rewrite E.
Qed.

(** The next place of an array, for the loops. *)
Lemma lookup_next {A} (pre post : list A) x y : (pre ++ x :: y :: post) !! S (length pre) = Some y.
Proof. rewrite lookup_app_r, Nat.sub_succ_l, Nat.sub_diag by lia. done. Qed.
Lemma insert_next {A} (pre post : list A) x y z : <[S (length pre) := z]> (pre ++ x :: y :: post) = (pre ++ [x]) ++ z :: post.
Proof. rewrite insert_app_r_alt, Nat.sub_succ_l, Nat.sub_diag by lia. by rewrite <- app_assoc. Qed.
Lemma length_snoc {A} (pre : list A) x : length (pre ++ [x]) = S (length pre).
Proof. rewrite length_app. cbn. lia. Qed.

Lemma shift_separators_arr post : ∀ fuel cur n pre x C, arr n (pre ++ x :: post) C →
  (S (length pre) + length post = ORDER)%nat → (length post < fuel)%nat → changed n = true →
  ∃ n', shift_separators fuel (length pre) cur n = Ok n' ∧ arr n' (pre ++ x :: push (separator cur) post) C ∧
    changed n' = true.
Proof.
  induction post as [|y post IH]; intros [|fuel] cur n pre x C Ha Hlen Hf Hc; try lia; cbn [shift_separators].
  - destruct (separator cur) as [c|]; [|by exists n]. cbn [length] in Hlen. rewrite (proj2 (Nat.eqb_eq _ _)) by lia. by exists n.
  - cbn [length] in *. destruct (separator cur) as [c|] eqn:Ec; [|by exists n]. rewrite (proj2 (Nat.eqb_neq _ _)) by lia.
    destruct (sep_at_arr _ _ _ _ _ Ha (lookup_next pre post x y)) as (s & -> & <-). rewrite outcome_bind_Ok.
    destruct (put_sep_arr _ _ _ (S (length pre)) (MkSeparator true (Some c)) Ha (ex_intro _ _ (lookup_next pre post x _)))
      as (n1 & -> & Ha1 & Hc1). rewrite outcome_bind_Ok. cbn [separator] in Ha1. rewrite insert_next in Ha1.
    destruct (IH fuel s n1 _ _ C Ha1) as (n' & Hrun & Ha' & Hc'); rewrite ?length_snoc; [lia|lia|by rewrite Hc1|].
    rewrite length_snoc in Hrun. exists n'. split_and!; [done| |done]. by rewrite <- app_assoc in Ha'.
Qed.

Lemma shift_children_arr post : ∀ fuel cur n pre x L, arr n L (pre ++ x :: post) →
  (S (length pre) + length post = ORDER_CHILD)%nat → (length post < fuel)%nat → changed n = true →
  ∃ n', shift_children fuel (length pre) cur n = Ok n' ∧ arr n' L (pre ++ x :: push (entry_index cur) post) ∧
    changed n' = true.
Proof.
  induction post as [|y post IH]; intros [|fuel] cur n pre x L Ha Hlen Hf Hc; try lia; cbn [shift_children length] in *.
  - destruct (entry_index cur) as [c|]; [|by exists n]. rewrite (proj2 (Nat.eqb_eq _ _)) by lia. by exists n.
  - destruct (entry_index cur) as [c|] eqn:Ec; [|by exists n]. rewrite (proj2 (Nat.eqb_neq _ _)) by lia.
    destruct (child_at_arr _ _ _ _ _ Ha (lookup_next pre post x y)) as (s & -> & <-). rewrite outcome_bind_Ok.
    destruct (put_child_arr _ _ _ (S (length pre)) (MkChild true (Some c)) Ha (ex_intro _ _ (lookup_next pre post x _)))
      as (n1 & -> & Ha1 & Hc1). rewrite outcome_bind_Ok. cbn [entry_index] in Ha1. rewrite insert_next in Ha1.
    destruct (IH fuel s n1 _ _ L Ha1) as (n' & Hrun & Ha' & Hc'); rewrite ?length_snoc; [lia|lia|by rewrite Hc1|].
    rewrite length_snoc in Hrun. exists n'. split_and!; [done| |done]. by rewrite <- app_assoc in Ha'.
Qed.

Lemma unshift_separators_arr post : ∀ fuel n pre x C, arr n (pre ++ x :: post) C →
  (S (length pre) + length post = ORDER)%nat → (length post < fuel)%nat → changed n = true →
  ∃ n', unshift_separators fuel (length pre) n = Ok n' ∧ arr n' (pre ++ pull x post) C ∧ changed n' = true.
Proof.
  induction post as [|y post IH]; intros [|fuel] n pre x C Ha Hlen Hf Hc; try lia; cbn [unshift_separators length] in *.
  - rewrite (proj2 (Nat.ltb_ge _ _)) by lia. by exists n.
  - rewrite (proj2 (Nat.ltb_lt _ _)) by lia.
    destruct (remove_separator_arr _ _ _ _ _ Ha (lookup_next pre post x y)) as (s & n1 & -> & <- & Ha1 & Hc1).
    rewrite outcome_bind_Ok. rewrite insert_next in Ha1. rewrite <- app_assoc in Ha1. cbn [app] in Ha1.
    destruct (put_sep_arr _ _ _ (length pre) (MkSeparator true (separator s)) Ha1) as (n2 & -> & Ha2 & Hc2).
    { exists x. by apply lookup_mid. }
    rewrite outcome_bind_Ok. cbn [separator] in Ha2. rewrite insert_mid in Ha2 by done.
    destruct (separator s) as [c|].
    + rewrite (assoc_L (++) pre [Some c] (None :: post) : pre ++ Some c :: None :: post = _) in Ha2.
      destruct (IH fuel n2 _ _ C Ha2) as (n' & Hrun & Ha' & Hc'); rewrite ?length_snoc; [lia|lia|by rewrite Hc2|].
      rewrite length_snoc in Hrun. exists n'. split_and!; [done| |done]. by rewrite <- app_assoc in Ha'.
    + exists n2. split_and!; [done|done|by rewrite Hc2].
Qed.

Lemma unshift_children_arr post : ∀ fuel n pre x L, arr n L (pre ++ x :: post) →
  (S (length pre) + length post = ORDER_CHILD)%nat → (length post < fuel)%nat → changed n = true →
  ∃ n', unshift_children fuel (length pre) n = Ok n' ∧ arr n' L (pre ++ pull x post) ∧ changed n' = true.
Proof.
  induction post as [|y post IH]; intros [|fuel] n pre x L Ha Hlen Hf Hc; try lia; cbn [unshift_children length] in *.
  - rewrite (proj2 (Nat.ltb_ge _ _)) by lia. by exists n.
  - rewrite (proj2 (Nat.ltb_lt _ _)) by lia.
    destruct (remove_child_arr _ _ _ _ _ Ha (lookup_next pre post x y)) as (s & n1 & -> & <- & Ha1 & Hc1).
    rewrite outcome_bind_Ok. rewrite insert_next in Ha1. rewrite <- app_assoc in Ha1. cbn [app] in Ha1.
    destruct (put_child_arr _ _ _ (length pre) s Ha1) as (n2 & -> & Ha2 & Hc2).
    { exists x. by apply lookup_mid. }
    rewrite outcome_bind_Ok. rewrite insert_mid in Ha2 by done.
    destruct (entry_index s) as [c|].
    + rewrite (assoc_L (++) pre [Some c] (None :: post) : pre ++ Some c :: None :: post = _) in Ha2.
      destruct (IH fuel n2 _ _ L Ha2) as (n' & Hrun & Ha' & Hc'); rewrite ?length_snoc; [lia|lia|by rewrite Hc2|].
      rewrite length_snoc in Hrun. exists n'. split_and!; [done| |done]. by rewrite <- app_assoc in Ha'.
    + exists n2. split_and!; [done|done|by rewrite Hc2].
Qed.

(** ** Nodes in memory *)

Definition seps_of (ss : list SeparatorInner) : list (option SeparatorInner) := fill ORDER None (Some <$> ss).

(** The children in use; a leaf has none. *)
Definition kids (inner : bool) (C : list (option Address)) (as_ : list Address) : Prop :=
  length C = ORDER_CHILD ∧
  if inner then ∃ junk, C = (Some <$> as_) ++ junk else as_ = [] ∧ C = replicate ORDER_CHILD None.

Record mem (inner : bool) (n : Node) (ss : list SeparatorInner) (as_ : list Address) : Prop := {
  mem_arr : ∃ C, arr n (seps_of ss) C ∧ kids inner C as_;
  mem_le : (length ss ≤ ORDER)%nat;
  mem_len : if inner then length as_ = S (length ss) else as_ = [];
}.

(** The separators with a free place in between. *)
Definition gap (ss1 ss2 : list SeparatorInner) : list (option SeparatorInner) :=
  (Some <$> ss1) ++ None :: (Some <$> ss2) ++ replicate (ORDER - S (length ss1 + length ss2)) None.

Lemma seps_of_mid ss1 s ss2 : (length ss1 + length ss2 < ORDER)%nat →
  seps_of (ss1 ++ s :: ss2) = (Some <$> ss1) ++ Some s :: (Some <$> ss2) ++ replicate (ORDER - S (length ss1 + length ss2)) None.
Proof.
  intros Hl. unfold seps_of, fill. rewrite fmap_app, fmap_cons, <- app_assoc, length_app. cbn [length app].
  rewrite !length_fmap. do 5 f_equal. lia.
Qed.
Lemma seps_of_app ss1 ss2 : (length ss1 + length ss2 < ORDER)%nat →
  seps_of (ss1 ++ ss2) = (Some <$> ss1) ++ (Some <$> ss2) ++ None :: replicate (ORDER - S (length ss1 + length ss2)) None.
Proof.
  intros Hl. unfold seps_of, fill. rewrite fmap_app, <- app_assoc, length_app, !length_fmap.
  replace (ORDER - (length ss1 + length ss2))%nat with (S (ORDER - S (length ss1 + length ss2))) by lia. done.
Qed.

Lemma remove_mid inner n ss1 s ss2 as_ : mem inner n (ss1 ++ s :: ss2) as_ → ∃ sp n' C,
  remove_separator (length ss1) n = Ok (sp, n') ∧ separator sp = Some s ∧ arr n' (gap ss1 ss2) C ∧ kids inner C as_ ∧
  changed n' = true.
Proof.
  intros [(C & Ha & Hk) Hle _]. rewrite length_app in Hle. cbn [length] in Hle.
  rewrite seps_of_mid in Ha by lia.
  destruct (remove_separator_arr _ _ _ (length ss1) (Some s) Ha) as (sp & n' & Hr & Hs & Ha' & Hc).
  { apply lookup_mid. by rewrite length_fmap. }
  exists sp, n', C. split_and!; [done|done| |done|done]. by rewrite insert_mid in Ha' by (by rewrite length_fmap).
Qed.
Lemma set_mid inner n ss1 ss2 C as_ sp s : arr n (gap ss1 ss2) C → kids inner C as_ → separator sp = Some s →
  (length ss1 + length ss2 < ORDER)%nat → (if inner then length as_ = S (S (length ss1 + length ss2)) else as_ = []) →
  ∃ n', set_separator (length ss1) sp n = Ok n' ∧ mem inner n' (ss1 ++ s :: ss2) as_ ∧ changed n' = true.
Proof.
  intros Ha Hk Hs Hl Has.
  destruct (set_separator_arr _ _ _ (length ss1) sp Ha) as (n' & Hr & Ha' & Hc).
  { exists None. apply lookup_mid. by rewrite length_fmap. }
  exists n'. split_and!; [done| |done]. unfold gap in Ha'. rewrite insert_mid, Hs in Ha' by (by rewrite length_fmap).
  split.
  - exists C. split; [|done]. by rewrite seps_of_mid.
  - rewrite length_app. cbn. lia.
  - rewrite length_app. cbn [length]. destruct inner; [lia|done].
Qed.

(** Another separator in the place of one. *)
Lemma replace_mid inner n ss1 s ss2 as_ : mem inner n (ss1 ++ s :: ss2) as_ → ∃ sp n1,
  remove_separator (length ss1) n = Ok (sp, n1) ∧ separator sp = Some s ∧ ∀ sp2 s2, separator sp2 = Some s2 →
  ∃ n2, set_separator (length ss1) sp2 n1 = Ok n2 ∧ mem inner n2 (ss1 ++ s2 :: ss2) as_ ∧ changed n2 = true.
Proof.
  intros Hm. destruct (remove_mid _ _ _ _ _ _ Hm) as (sp & n1 & C & Hr & Hs & Ha & Hk & Hc). exists sp, n1.
  split_and!; [done|done|]. intros sp2 s2 Hs2. destruct Hm as [_ Hle Has]. rewrite length_app in Hle, Has. cbn [length] in Hle, Has.
  eapply set_mid; [done|done|done|lia|]. destruct inner; [lia|done].
Qed.
Lemma overwrite_mid inner n ss1 s ss2 as_ sp2 s2 : mem inner n (ss1 ++ s :: ss2) as_ → separator sp2 = Some s2 →
  ∃ n2, set_separator (length ss1) sp2 n = Ok n2 ∧ mem inner n2 (ss1 ++ s2 :: ss2) as_ ∧ changed n2 = true.
Proof.
  intros [(C & Ha & Hk) Hle Has] Hs2. rewrite length_app in Hle, Has. cbn [length] in Hle, Has.
  rewrite seps_of_mid in Ha by lia.
  destruct (set_separator_arr _ _ _ (length ss1) sp2 Ha) as (n' & Hr & Ha' & Hc).
  { exists (Some s). apply lookup_mid. by rewrite length_fmap. }
  exists n'. split_and!; [done| |done]. rewrite insert_mid, Hs2 in Ha' by (by rewrite length_fmap).
  split; [|rewrite length_app; cbn [length]; lia|rewrite length_app; cbn [length]; destruct inner; [lia|done]].
  exists C. split; [|done]. by rewrite seps_of_mid by lia.
Qed.

(** The children with a free place in between. *)
Definition kids_gap (C : list (option Address)) (as1 as2 : list Address) : Prop :=
  length C = ORDER_CHILD ∧ ∃ x junk, C = (Some <$> as1) ++ x :: (Some <$> as2) ++ junk.

Lemma kids_gap_set C as1 as2 a : kids_gap C as1 as2 →
  kids true (<[length as1 := Some a]> C) (as1 ++ a :: as2) ∧ is_Some (C !! length as1).
Proof.
  intros (Hl & x & junk & ->). split.
  - split; [by rewrite length_insert|]. exists junk. rewrite insert_mid by (by rewrite length_fmap).
    by rewrite fmap_app, fmap_cons, <- app_assoc.
  - exists x. apply lookup_mid. by rewrite length_fmap.
Qed.

(** [shift_from] makes a free place for a separator, and for a child. *)
Lemma shift_from_ok inner wl n ss1 ss2 as1 as2 : mem inner n (ss1 ++ ss2) (as1 ++ as2) →
  (length ss1 + length ss2 < ORDER)%nat → (inner = true → length as1 = if wl : bool then length ss1 else S (length ss1)) →
  ∃ n' C, shift_from (length ss1) inner wl n = Ok n' ∧ arr n' (gap ss1 ss2) C ∧ changed n' = true ∧
    if inner then kids_gap C as1 as2 else kids false C [].
Proof.
  intros [(C & Ha & Hk) Hle Has] Hl H1. rewrite length_app in Hle, Has. rewrite seps_of_app in Ha by lia.
  set (tl := replicate (ORDER - S (length ss1 + length ss2)) None) in *.
  assert (Hx : ∃ x post, (Some <$> ss2) ++ None :: tl = x :: post ∧ (S (length ss1) + length post = ORDER)%nat ∧
    push x post = (Some <$> ss2) ++ tl).
  { destruct ss2 as [|s ss2].
    - exists None, tl. split_and!; [done|unfold tl; rewrite length_replicate; cbn [length] in *; lia|by destruct tl].
    - exists (Some s), ((Some <$> ss2) ++ None :: tl). split_and!; [done| |by rewrite push_free].
      rewrite length_app, length_fmap. unfold tl. cbn [length]. rewrite length_replicate. cbn [length] in *. lia. }
  destruct Hx as (x & post & E & Hpost & Hpush). rewrite E in Ha. unfold shift_from.
  destruct (remove_separator_arr _ _ _ (length ss1) x (arr_set_changed _ _ _ Ha)) as (cur & n1 & -> & Ecur & Ha1 & Hc1).
  { apply lookup_mid. by rewrite length_fmap. }
  rewrite outcome_bind_Ok. rewrite insert_mid in Ha1 by (by rewrite length_fmap).
  destruct (shift_separators_arr post (S ORDER) cur n1 _ _ C Ha1) as (n2 & Hrun & Ha2 & Hc2); rewrite ?length_fmap; [lia|lia|done|].
  rewrite length_fmap in Hrun. rewrite Hrun, outcome_bind_Ok. rewrite Ecur, Hpush in Ha2. clear Hrun Hpush Ha1 E.
  destruct inner; [|exists n2, C; split_and!; [done|done|done|destruct Hk as (? & _ & ?); by split]].
  destruct Hk as [Hlen [junk ->]]. rewrite fmap_app, <- app_assoc in Ha2. specialize (H1 eq_refl).
  assert (Hj : (length ((Some <$> as2) ++ junk) = ORDER_CHILD - length as1)%nat).
  { autorewrite with pdb in Hlen |- *. lia. }
  assert (Hx : ∃ x post, (Some <$> as2) ++ junk = x :: post ∧ (S (length as1) + length post = ORDER_CHILD)%nat ∧
    ∃ junk', push x post = (Some <$> as2) ++ junk').
  { rewrite length_app in Has. destruct as2 as [|a as2].
    - destruct junk as [|y junk]; [exfalso; cbn in Hj; destruct wl; unfold ORDER_CHILD in *; lia|].
      exists y, junk. split_and!; [done|cbn in Hj; unfold ORDER_CHILD in *; lia|by eexists].
    - exists (Some a), ((Some <$> as2) ++ junk). split_and!; [done|cbn [length fmap list_fmap app] in Hj; lia|].
      apply push_junk. intros ->. cbn in Hj, Has. rewrite length_app, length_fmap in Hj. cbn in Hj.
      unfold ORDER_CHILD in *. lia. }
  destruct Hx as (y & posty & E & Hposty & junk' & Hpush). rewrite E in Ha2.
  replace (if wl then length ss1 else S (length ss1)) with (length as1) by done.
  destruct (remove_child_arr _ _ _ (length as1) y Ha2) as (cc & n3 & -> & Ec & Ha3 & Hc3).
  { apply lookup_mid. by rewrite length_fmap. }
  rewrite outcome_bind_Ok. rewrite insert_mid in Ha3 by (by rewrite length_fmap).
  destruct (shift_children_arr posty (S ORDER_CHILD) cc n3 _ _ _ Ha3) as (n4 & Hrun & Ha4 & Hc4);
    rewrite ?length_fmap; [lia|lia|done|].
  rewrite length_fmap in Hrun. rewrite Ec in Ha4. exists n4. eexists. split_and!; [done|exact Ha4|done|].
  split; [rewrite length_app, length_fmap; cbn [length]; rewrite push_length; lia|]. rewrite Hpush. by eexists _, _.
Qed.

(** [remove_from] closes a free place. *)
Lemma remove_from_ok (inner wl : bool) n ss1 ss2 as1 as2 C : arr n (gap ss1 ss2) C →
  (if inner then kids_gap C as1 as2 else kids false C [] ∧ as1 ++ as2 = []) → (length ss1 + length ss2 < ORDER)%nat →
  (inner = true → length as1 = (if wl : bool then length ss1 else S (length ss1)) ∧
    length (as1 ++ as2) = S (length ss1 + length ss2)) →
  ∃ n', remove_from (length ss1) inner wl n = Ok n' ∧ mem inner n' (ss1 ++ ss2) (as1 ++ as2) ∧ changed n' = true.
Proof.
  intros Ha Hk Hl H1. unfold remove_from, gap in *.
  destruct (unshift_separators_arr _ (S ORDER) _ _ _ _ (arr_set_changed _ _ _ Ha)) as (n1 & Hrun & Ha1 & Hc1); [..|done|].
  { autorewrite with pdb. lia. }
  { autorewrite with pdb. lia. }
  rewrite length_fmap in Hrun. rewrite Hrun, outcome_bind_Ok. clear Hrun. rewrite pull_free in Ha1.
  change (replicate (S ?k) ?x) with (x :: replicate k x) in Ha1. rewrite <- seps_of_app in Ha1 by done. destruct inner.
  - destruct Hk as [Hlen (x & junk & ->)]. destruct (H1 eq_refl) as [Has1 Has]. rewrite <- Has1.
    destruct (unshift_children_arr _ (S ORDER_CHILD) _ _ _ _ Ha1) as (n2 & Hrun & Ha2 & Hc2); [..|done|].
    { autorewrite with pdb in Hlen |- *. cbn [length] in Hlen. autorewrite with pdb in Hlen. lia. }
    { autorewrite with pdb in Hlen |- *. cbn [length] in Hlen. autorewrite with pdb in Hlen. lia. }
    rewrite length_fmap in Hrun. exists n2. split_and!; [done| |done].
    destruct (pull_junk as2 x junk) as [junk' Hpull]. split; [|rewrite length_app; lia|by rewrite Has, length_app].
    eexists. split; [exact Ha2|]. split.
    + autorewrite with pdb in Hlen |- *. cbn [length] in Hlen. rewrite pull_length. autorewrite with pdb in Hlen |- *. lia.
    + exists junk'. by rewrite Hpull, fmap_app, <- app_assoc.
  - exists n1. destruct Hk as [Hk ->]. split_and!; [done| |done]. split; [by exists C|rewrite length_app; lia|done].
Qed.

(** ** Compound moves *)

Lemma kids_true C as1 a as2 : kids true C (as1 ++ a :: as2) → C !! length as1 = Some (Some a) ∧
  kids_gap (<[length as1 := None]> C) as1 as2 ∧ ∀ b, kids true (<[length as1 := Some b]> C) (as1 ++ b :: as2).
Proof.
  intros [Hl [junk ->]]. rewrite fmap_app, fmap_cons, <- app_assoc. cbn [app]. split_and!.
  - apply lookup_mid. by rewrite length_fmap.
  - split; [rewrite length_insert; revert Hl; autorewrite with pdb; cbn [length]; autorewrite with pdb; lia|].
    exists None, junk. by rewrite insert_mid by (by rewrite length_fmap).
  - intros b. split; [rewrite length_insert; revert Hl; autorewrite with pdb; cbn [length]; autorewrite with pdb; lia|].
    exists junk. rewrite insert_mid by (by rewrite length_fmap). by rewrite fmap_app, fmap_cons, <- app_assoc.
Qed.

(** A separator with the child on its right comes in ([insert_node]). *)
Lemma insert_child_ok n ss1 ss2 as1 as2 sp s c a : mem true n (ss1 ++ ss2) (as1 ++ as2) →
  (length ss1 + length ss2 < ORDER)%nat → length as1 = S (length ss1) → separator sp = Some s → entry_index c = Some a →
  ∃ n1 n2 n3, shift_from (length ss1) true false n = Ok n1 ∧ set_separator (length ss1) sp n1 = Ok n2 ∧
    set_child (S (length ss1)) c n2 = Ok n3 ∧ mem true n3 (ss1 ++ s :: ss2) (as1 ++ a :: as2) ∧ changed n3 = true.
Proof.
  intros Hm Hl Has Hs Ha. pose proof (mem_len _ _ _ _ Hm) as Hlen. cbn in Hlen.
  destruct (shift_from_ok true false n ss1 ss2 as1 as2 Hm Hl) as (n1 & C & H1 & Ha1 & Hc1 & Hk); [done|].
  destruct (set_separator_arr _ _ _ (length ss1) sp Ha1) as (n2 & H2 & Ha2 & Hc2).
  { exists None. apply lookup_mid. by rewrite length_fmap. }
  destruct (kids_gap_set C as1 as2 a Hk) as [Hk' Hx].
  destruct (set_child_arr _ _ _ (length as1) c Ha2 Hx) as (n3 & H3 & Ha3 & Hc3). rewrite Has in H3.
  exists n1, n2, n3. split_and!; [done..| |done].
  split; [|rewrite length_app; cbn [length]; lia|].
  - rewrite Ha in Ha3. eexists. split; [|exact Hk']. unfold gap in Ha3.
    rewrite insert_mid, Hs in Ha3 by (by rewrite length_fmap). by rewrite seps_of_mid.
  - revert Hlen. rewrite !length_app. cbn [length]. lia.
Qed.

(** The child that moves with a separator between siblings. *)
Definition moved_kid (inner : bool) (o : option Child) (l : list Address) : Prop :=
  if inner then ∃ c a, o = Some c ∧ entry_index c = Some a ∧ l = [a] else o = None ∧ l = [].
Definition take_child (inner : bool) (i : nat) (n : Node) : outcome (option Child * Node) :=
  if inner then '(c, n) ← remove_child i n; Ok (Some c, n) else Ok (None, n).
Definition give_child (o : option Child) (i : nat) (n : Node) : outcome Node :=
  match o with Some c => set_child i c n | None => Ok n end.

Lemma mem_leaf_kids n ss as_ : mem false n ss as_ → as_ = [].
Proof. by intros []. Qed.

Lemma take_child_ok (inner : bool) n L C as1 la as2 : arr n L C → (if inner then kids true C (as1 ++ la ++ as2) else kids false C []) →
  (if inner then length la = 1%nat else la = []) →
  ∃ o n' C', take_child inner (length as1) n = Ok (o, n') ∧ moved_kid inner o la ∧ arr n' L C' ∧
    (if inner then kids_gap C' as1 as2 else kids false C' []) ∧ (inner = false → n' = n) ∧ (inner = true → changed n' = true).
Proof.
  intros Ha Hk Hla. destruct inner; [|subst la; exists None, n, C; by split_and!].
  destruct la as [|a []]; [done| |done]. cbn [app] in Hk. destruct (kids_true _ _ _ _ Hk) as (Hx & Hg & _).
  destruct (remove_child_arr _ _ _ _ _ Ha Hx) as (c & n' & Hr & Hc & Ha' & Hch).
  unfold take_child. rewrite Hr, outcome_bind_Ok. exists (Some c), n'. eexists. split_and!; [done| |exact Ha'|done|done|done].
  by exists c, a.
Qed.

(** The last separator and child of a node go ([rebalance], left sibling). *)
Lemma take_last_ok (inner : bool) n ss s as_ la : mem inner n (ss ++ [s]) (as_ ++ la) → (if inner then length la = 1%nat else la = []) →
  ∃ o n1 sp n2, take_child inner (S (length ss)) n = Ok (o, n1) ∧ moved_kid inner o la ∧
    remove_separator (length ss) n1 = Ok (sp, n2) ∧ separator sp = Some s ∧ mem inner n2 ss as_ ∧ changed n2 = true.
Proof.
  intros [(C & Ha & Hk) Hle Has] Hla. rewrite length_app in Hle, Has. cbn [length] in Hle, Has.
  assert (Hlen : if inner then length as_ = S (length ss) else as_ = []).
  { destruct inner; [rewrite ?length_app in Has; cbn [length] in Has; lia|]. by apply app_eq_nil in Has as [? _]. }
  destruct (take_child_ok inner n _ C as_ la [] Ha) as (o & n1 & C' & Ht & Ho & Ha1 & Hk1 & _ & _).
  { rewrite app_nil_r. destruct inner; [done|]. destruct Hk as (? & _ & ?). by split. }
  { done. }
  rewrite (seps_of_mid ss s []) in Ha1 by (cbn [length]; lia).
  destruct (remove_separator_arr _ _ _ (length ss) (Some s) Ha1) as (sp & n2 & Hr & Hs & Ha2 & Hc2).
  { apply lookup_mid. by rewrite length_fmap. }
  exists o, n1, sp, n2. split_and!; [|done|done|done| |done].
  { destruct inner; [by rewrite Hlen in Ht|done]. }
  rewrite insert_mid in Ha2 by (by rewrite length_fmap). split; [|lia|done]. exists C'. split.
  - pose proof (seps_of_app ss [] ltac:(cbn [length]; lia)) as E. rewrite app_nil_r in E. by rewrite E.
  - destruct inner; [|by subst]. destruct Hk1 as (Hl & x & junk & ->). split; [done|]. exists (x :: junk). done.
Qed.

(** The first separator and child go ([rebalance], right sibling). *)
Lemma take_first_ok (inner : bool) n s ss la as_ : mem inner n (s :: ss) (la ++ as_) → (if inner then length la = 1%nat else la = []) →
  ∃ o n1 sp n2 n3, take_child inner 0 n = Ok (o, n1) ∧ moved_kid inner o la ∧
    remove_separator 0 n1 = Ok (sp, n2) ∧ separator sp = Some s ∧ remove_from 0 inner true n2 = Ok n3 ∧
    mem inner n3 ss as_ ∧ changed n3 = true.
Proof.
  intros [(C & Ha & Hk) Hle Has] Hla. cbn [length] in Hle, Has.
  destruct (take_child_ok inner n _ C [] la as_ Ha) as (o & n1 & C' & Ht & Ho & Ha1 & Hk1 & _ & _).
  { destruct inner; [done|]. destruct Hk as (? & _ & ?). by split. }
  { done. }
  pose proof (seps_of_mid [] s ss ltac:(cbn [length]; lia)) as E. cbn [app fmap list_fmap] in E. rewrite E in Ha1. clear E.
  destruct (remove_separator_arr _ _ _ 0 (Some s) Ha1) as (sp & n2 & Hr & Hs & Ha2 & Hc2); [done|].
  cbn [app list_insert fmap list_fmap] in Ha2.
  destruct (remove_from_ok inner true n2 [] ss [] as_ C' Ha2) as (n3 & Hrun & Hm & Hc3).
  - destruct inner; [done|]. split; [done|]. by apply app_eq_nil in Has as [_ ->].
  - cbn [length]. lia.
  - intros ->. rewrite length_app in Has. cbn. split; [done|lia].
  - by exists o, n1, sp, n2, n3.
Qed.

(** A separator and a child come in at the front. *)
Lemma prepend_ok (inner : bool) n ss as_ o la sp s : mem inner n ss as_ → (length ss < ORDER)%nat → moved_kid inner o la →
  separator sp = Some s →
  ∃ n1 n2 n3, shift_from 0 inner true n = Ok n1 ∧ give_child o 0 n1 = Ok n2 ∧ set_separator 0 sp n2 = Ok n3 ∧
    mem inner n3 (s :: ss) (la ++ as_) ∧ changed n3 = true.
Proof.
  intros Hm Hl Ho Hs. pose proof (mem_len _ _ _ _ Hm) as Hlen.
  destruct (shift_from_ok inner true n [] ss [] as_ Hm) as (n1 & C & H1 & Ha1 & Hc1 & Hk); [done|done|].
  assert (Hg : ∃ n2 C', give_child o 0 n1 = Ok n2 ∧ arr n2 (gap [] ss) C' ∧ kids inner C' (la ++ as_)).
  { destruct inner.
    - destruct Ho as (c & a & -> & Hca & ->). destruct (kids_gap_set C [] as_ a Hk) as [Hk' Hx].
      destruct (set_child_arr _ _ _ 0 c Ha1 Hx) as (n2 & H2 & Ha2 & _). rewrite Hca in Ha2. by exists n2, (<[0%nat := Some a]> C).
    - destruct Ho as [-> ->]. exists n1, C. subst as_. done. }
  destruct Hg as (n2 & C' & H2 & Ha2 & Hk2).
  destruct (set_mid inner n2 [] ss C' (la ++ as_) sp s Ha2 Hk2 Hs) as (n3 & H3 & Hm3 & Hc3); [done| |].
  { destruct inner; [destruct Ho as (c & a & _ & _ & ->); cbn; lia|]. destruct Ho as [_ ->]. done. }
  by exists n1, n2, n3.
Qed.

(** A separator and a child come in at the end. *)
Lemma append_ok (inner : bool) n ss as_ o la sp s : mem inner n ss as_ → (length ss < ORDER)%nat → moved_kid inner o la →
  separator sp = Some s →
  ∃ n1 n2, set_separator (length ss) sp n = Ok n1 ∧ give_child o (S (length ss)) n1 = Ok n2 ∧
    mem inner n2 (ss ++ [s]) (as_ ++ la) ∧ changed n2 = true.
Proof.
  intros [(C & Ha & Hk) Hle Has] Hl Ho Hs.
  pose proof (seps_of_app ss [] ltac:(cbn [length]; lia)) as E. rewrite app_nil_r in E. rewrite E in Ha. cbn [fmap list_fmap app] in Ha.
  destruct (set_separator_arr _ _ _ (length ss) sp Ha) as (n1 & H1 & Ha1 & Hc1).
  { exists None. apply lookup_mid. by rewrite length_fmap. }
  rewrite insert_mid, Hs in Ha1 by (by rewrite length_fmap).
  pose proof (seps_of_mid ss s [] ltac:(cbn [length]; lia)) as E2. cbn [fmap list_fmap app] in E2. rewrite <- E2 in Ha1.
  assert (Hle' : (length (ss ++ [s]) ≤ ORDER)%nat) by (rewrite length_snoc; lia).
  destruct inner.
  - destruct Ho as (c & a & -> & Hca & ->). destruct Hk as [Hlen [junk ->]].
    assert (Hj : ∃ x junk', junk = x :: junk').
    { destruct junk as [|x junk']; [|by eexists _, _]. exfalso. revert Hlen. autorewrite with pdb. cbn [length]. unfold ORDER_CHILD. lia. }
    destruct Hj as (x & junk' & ->).
    destruct (set_child_arr _ _ _ (S (length ss)) c Ha1) as (n2 & H2 & Ha2 & Hc2).
    { exists x. apply lookup_mid. by rewrite length_fmap. }
    exists n1, n2. split_and!; [done|done| |done]. split; [|done|rewrite !length_snoc; lia].
    rewrite insert_mid, Hca in Ha2 by (by rewrite length_fmap). eexists. split; [exact Ha2|]. split.
    + revert Hlen. autorewrite with pdb. done.
    + exists junk'. by rewrite fmap_app, <- app_assoc.
  - destruct Ho as [-> ->]. exists n1, n1. split_and!; [done|done| |done]. rewrite app_nil_r. split; [by exists C|done|done].
Qed.

(** A separator of a leaf goes. *)
Lemma remove_leaf_ok n ss1 s ss2 : mem false n (ss1 ++ s :: ss2) [] → ∃ sp n1 n2,
  remove_separator (length ss1) n = Ok (sp, n1) ∧ separator sp = Some s ∧ remove_from (length ss1) false true n1 = Ok n2 ∧
  mem false n2 (ss1 ++ ss2) [] ∧ changed n2 = true.
Proof.
  intros Hm. destruct (remove_mid _ _ _ _ _ _ Hm) as (sp & n1 & C & Hr & Hs & Ha & Hk & Hc).
  pose proof (mem_le _ _ _ _ Hm) as Hle. rewrite length_app in Hle. cbn [length] in Hle.
  destruct (remove_from_ok false true n1 ss1 ss2 [] [] C Ha) as (n2 & Hrun & Hm2 & Hc2); [by split|lia|done|].
  by exists sp, n1, n2.
Qed.
Lemma remove_last_ok n ss s : mem false n (ss ++ [s]) [] → ∃ sp n',
  remove_separator (length ss) n = Ok (sp, n') ∧ separator sp = Some s ∧ mem false n' ss [] ∧ changed n' = true.
Proof.
  intros Hm. destruct (take_last_ok false n ss s [] [] Hm eq_refl) as (o & n1 & sp & n2 & Ht & _ & Hr & Hs & Hm2 & Hc).
  cbn in Ht. injection Ht as <- <-. by exists sp, n2.
Qed.

(** ** Merging *)

(** The arrays while entries move: [as_] has no child yet for the last separator. *)
Definition kids_short (inner : bool) (C : list (option Address)) (as_ : list Address) (k : nat) : Prop :=
  kids inner C as_ ∧ if inner then length as_ = k else as_ = [].

Lemma snoc_kids inner C as_ k a : kids_short true C as_ k → inner = true → (k < ORDER_CHILD)%nat →
  is_Some (C !! k) ∧ kids_short true (<[k := Some a]> C) (as_ ++ [a]) (S k).
Proof.
  intros [[Hl [junk ->]] Hk] _ Hlt. subst k.
  assert (Hj : ∃ x junk', junk = x :: junk').
  { destruct junk as [|x junk']; [|by eexists _, _]. exfalso. revert Hl. autorewrite with pdb. cbn [length]. lia. }
  destruct Hj as (x & junk' & ->). split; [exists x; apply lookup_mid; by rewrite length_fmap|].
  rewrite insert_mid by (by rewrite length_fmap). split; [|by rewrite length_snoc]. split.
  - revert Hl. autorewrite with pdb. done.
  - exists junk'. by rewrite fmap_app, <- app_assoc.
Qed.
Lemma snoc_seps ss s n C sp : arr n (seps_of ss) C → (length ss < ORDER)%nat → separator sp = Some s →
  ∃ n', set_separator (length ss) sp n = Ok n' ∧ arr n' (seps_of (ss ++ [s])) C ∧ changed n' = true.
Proof.
  intros Ha Hl Hs. pose proof (seps_of_app ss [] ltac:(cbn [length]; lia)) as E. rewrite app_nil_r in E. rewrite E in Ha.
  cbn [fmap list_fmap app] in Ha.
  destruct (set_separator_arr _ _ _ (length ss) sp Ha) as (n1 & H1 & Ha1 & Hc1).
  { exists None. apply lookup_mid. by rewrite length_fmap. }
  rewrite insert_mid, Hs in Ha1 by (by rewrite length_fmap). exists n1. split_and!; [done| |done].
  pose proof (seps_of_mid ss s [] ltac:(cbn [length]; lia)) as E2. cbn [fmap list_fmap app] in E2. by rewrite E2.
Qed.

Lemma merge_entries_ok (inner : bool) rs : ∀ l r ls las ras Cl Cr prel prec rest junk,
  arr l (seps_of ls) Cl → kids_short inner Cl las (length ls) → changed l = true →
  arr r (prel ++ (Some <$> rs) ++ rest) Cr → length prec = length prel →
  (if inner then Cr = prec ++ (Some <$> ras) ++ junk ∧ length ras = S (length rs) else ras = []) →
  (length ls + length rs ≤ ORDER)%nat →
  ∃ l' r' Cl' Cr', merge_entries (length rs) inner (length prel) (length ls) l r = Ok (l', r') ∧
    arr l' (seps_of (ls ++ rs)) Cl' ∧ kids_short inner Cl' (las ++ ras) (S (length ls + length rs)) ∧ changed l' = true ∧
    arr r' (prel ++ replicate (length rs) None ++ rest) Cr' ∧ length Cr' = length Cr ∧
    (changed r' = true ∨ rs = [] ∧ inner = false ∧ r' = r).
Proof.
  induction rs as [|s rs IH]; intros l r ls las ras Cl Cr prel prec rest junk Hal Hkl Hcl Har Hpre Hras Hle;
    cbn [merge_entries length] in *.
  - destruct inner.
    + destruct Hras as [-> Hras]. destruct ras as [|a []]; try done. cbn [fmap list_fmap app] in Har.
      destruct (remove_child_arr _ _ _ (length prel) (Some a) Har) as (c & r1 & -> & Hc & Har1 & Hcr).
      { by apply lookup_mid. }
      rewrite outcome_bind_Ok. destruct (snoc_kids true Cl las _ a Hkl eq_refl) as [Hx Hkl']; [unfold ORDER_CHILD; lia|].
      destruct (set_child_arr _ _ _ (length ls) c Hal Hx) as (l1 & -> & Hal1 & Hcl1). rewrite Hc in Hal1.
      rewrite outcome_bind_Ok. exists l1, r1. eexists _, _. split_and!; [done|by rewrite app_nil_r|by rewrite Nat.add_0_r|done|exact Har1|by rewrite length_insert|by left].
    + exists l, r, Cl, Cr. rewrite app_nil_r. destruct Hkl as [Hkl ->]. subst ras. split_and!; try done. by right.
  - assert (Hkid : ∃ o r1 Cr1 la ras', (if inner then '(c, r_node) ← remove_child (length prel) r; Ok (Some c, r_node) else Ok (None, r)) = Ok (o, r1) ∧
      moved_kid inner o la ∧ arr r1 (prel ++ (Some <$> s :: rs) ++ rest) Cr1 ∧ ras = la ++ ras' ∧ length Cr1 = length Cr ∧
      (if inner then Cr1 = (prec ++ [None]) ++ (Some <$> ras') ++ junk ∧ length ras' = S (length rs) else ras' = [])).
    { destruct inner; [|by exists None, r, Cr, [], ras]. destruct Hras as [-> Hras]. destruct ras as [|a ras]; [done|].
      destruct (remove_child_arr _ _ _ (length prel) (Some a) Har) as (c & r1 & -> & Hc & Har1 & _); [by apply lookup_mid|].
      rewrite outcome_bind_Ok. exists (Some c), r1. eexists _, [a], ras. split_and!; [done|by exists c, a|exact Har1|done|by rewrite length_insert| |].
      - cbn [fmap list_fmap app]. rewrite insert_mid by done. by rewrite <- app_assoc.
      - cbn in Hras. lia. }
    destruct Hkid as (o & r1 & Cr1 & la & ras' & -> & Ho & Har1 & -> & HlC & Hras'). rewrite outcome_bind_Ok.
    destruct (remove_separator_arr _ _ _ (length prel) (Some s) Har1) as (sp & r2 & -> & Hs & Har2 & Hc2); [by apply lookup_mid|].
    rewrite outcome_bind_Ok. cbn [fmap list_fmap app] in Har2. rewrite insert_mid in Har2 by done.
    destruct (snoc_seps ls s l Cl sp Hal ltac:(lia) Hs) as (l1 & -> & Hal1 & Hcl1). rewrite outcome_bind_Ok.
    assert (Hgive : ∃ l2 Cl2, (match o with Some c => set_child (length ls) c l1 | None => Ok l1 end) = Ok l2 ∧
      arr l2 (seps_of (ls ++ [s])) Cl2 ∧ kids_short inner Cl2 (las ++ la) (S (length ls)) ∧ changed l2 = true).
    { destruct inner.
      - destruct Ho as (c & a & -> & Hc & ->).
        destruct (snoc_kids true Cl las _ a Hkl eq_refl) as [Hx Hkl']; [unfold ORDER_CHILD; lia|].
        destruct (set_child_arr _ _ _ (length ls) c Hal1 Hx) as (l2 & -> & Hal2 & Hcl2). rewrite Hc in Hal2. by eexists _, _.
      - destruct Ho as [-> ->]. exists l1, Cl. split_and!; [done|done|destruct Hkl as [Hkl ->]; by split|done]. }
    destruct Hgive as (l2 & Cl2 & -> & Hal2 & Hkl2 & Hcl2). rewrite outcome_bind_Ok.
    rewrite (app_assoc prel [None] ((Some <$> rs) ++ rest) : prel ++ None :: _ = _) in Har2.
    destruct (IH l2 r2 (ls ++ [s]) (las ++ la) ras' Cl2 Cr1 (prel ++ [None]) (prec ++ [None]) rest junk) as
      (l' & r' & Cl' & Cr' & Hrun & Hl' & Hk' & Hcl' & Hr' & HlC' & Hcr'); rewrite ?length_snoc; try done; try lia.
    rewrite !length_snoc in Hrun. rewrite length_snoc in Hk'. exists l', r', Cl', Cr'. rewrite <- (app_assoc prel) in Hr'.
    rewrite <- (app_assoc ls) in Hl'. rewrite <- (app_assoc las) in Hk'. split_and!; try done.
    + replace (length ls + S (length rs))%nat with (S (length ls) + length rs)%nat by lia. done.
    + congruence.
    + left. destruct Hcr' as [|(_ & _ & ->)]; done.
Qed.

(** A node without separators takes eight bytes. *)
Lemma encode_empty n L C : arr n (None :: L) C → C ≠ [] → length (encode_node n) = 8%nat.
Proof.
  intros [HL HC] Hne. unfold encode_node. destruct (children n) as [|c cs]; [by destruct Hne|].
  destruct (separators n) as [|s ss]; [done|]. cbn in HL. injection HL as Hs _. cbn [encode_from]. rewrite Hs, app_nil_r.
  apply length_le_encode.
Qed.

(** The right node [r] is appended to [l] with a separator in between. *)
Lemma merge_ok (inner : bool) l r ls rs las ras sp s : mem inner l ls las → mem inner r rs ras → separator sp = Some s →
  (S (length ls + length rs) ≤ ORDER)%nat → rs ≠ [] →
  ∃ l1 l2 r2, set_separator (length ls) sp l = Ok l1 ∧
    merge_entries (length rs) inner 0 (S (length ls)) l1 r = Ok (l2, r2) ∧
    mem inner l2 (ls ++ s :: rs) (las ++ ras) ∧ changed l2 = true ∧ changed r2 = true ∧ length (encode_node r2) = 8%nat.
Proof.
  intros [(Cl & Hal & Hkl) _ Hlas] [(Cr & Har & Hkr) Hrle Hras] Hs Hle Hne.
  destruct (snoc_seps ls s l Cl sp Hal ltac:(lia) Hs) as (l1 & H1 & Hal1 & Hcl1).
  destruct (merge_entries_ok inner rs l1 r (ls ++ [s]) las ras Cl Cr [] [] (replicate (ORDER - length rs) None)
    (drop (length ras) Cr)) as (l2 & r2 & Cl' & Cr' & Hrun & Hl' & Hk' & Hcl' & Hr' & HlC & Hcr); try done.
  - split; [done|]. rewrite length_snoc. by destruct inner.
  - unfold seps_of, fill in Har. by rewrite length_fmap in Har.
  - destruct inner; [|done]. split; [|done]. destruct Hkr as [_ [junk ->]]. by rewrite drop_app_length' by (by rewrite length_fmap).
  - rewrite length_snoc. lia.
  - rewrite length_snoc in Hrun. exists l1, l2, r2. rewrite <- app_assoc in Hl'. rewrite length_snoc in Hk'.
    split_and!; [done|done| |done| |].
    + split; [exists Cl'; split; [done|apply Hk']|rewrite length_app; cbn [length]; lia|].
      destruct Hk' as [_ Hk']. destruct inner; [|done]. rewrite !length_app in *. cbn [length] in *. lia.
    + destruct Hcr as [|[-> _]]; done.
    + destruct rs as [|x rs]; [done|]. eapply encode_empty; [exact Hr'|]. intros ->.
      destruct Hkr as [Hkr _]. rewrite Hkr in HlC. done.
Qed.

(** ** Reading a node *)

Lemma count_separators_fill ss : ∀ l k, separator <$> l = (Some <$> ss) ++ replicate k None → count_separators l = length ss.
Proof.
  induction ss as [|s ss IH]; intros [|x l] k E; try done.
  - destruct k as [|k]; [done|]. injection E as E _. cbn. by rewrite E.
  - injection E as E1 E2. cbn. rewrite E1. f_equal. by eapply IH.
Qed.
Lemma number_separator_mem inner n ss as_ : mem inner n ss as_ → number_separator n = length ss.
Proof. intros [(C & [Hs _] & _) _ _]. by eapply count_separators_fill. Qed.
Lemma last_separator_mem inner n ss as_ : mem inner n ss as_ →
  last_separator_index n = match ss with [] => None | _ => Some (length ss - 1)%nat end.
Proof.
  intros Hm. unfold last_separator_index. rewrite (number_separator_mem _ _ _ _ Hm). destruct ss; [done|]. cbn. by rewrite Nat.sub_0_r.
Qed.

Lemma seps_of_lookup ss i : (i < ORDER)%nat → (length ss ≤ ORDER)%nat → seps_of ss !! i = Some (ss !! i).
Proof.
  intros Hi Hle. unfold seps_of, fill. rewrite lookup_app, list_lookup_fmap, length_fmap.
  destruct (ss !! i) as [s|] eqn:Es; [done|]. cbn [fmap option_fmap option_map]. apply lookup_ge_None in Es.
  by rewrite lookup_replicate_2 by lia.
Qed.
Lemma sep_at_mem inner n ss as_ i : mem inner n ss as_ → (i < ORDER)%nat → ∃ s, sep_at i n = Ok s ∧ separator s = ss !! i.
Proof. intros [(C & Ha & _) Hle _] Hi. eapply sep_at_arr; [exact Ha|]. by rewrite seps_of_lookup. Qed.
Lemma has_separator_mem inner n ss as_ i : mem inner n ss as_ → (i < ORDER)%nat → has_separator i n = Ok (bool_decide (i < length ss)%nat).
Proof.
  intros Hm Hi. unfold has_separator. destruct (sep_at_mem _ _ _ _ _ Hm Hi) as (s & -> & Hs). rewrite outcome_bind_Ok, Hs.
  destruct (ss !! i) as [x|] eqn:E.
  - rewrite bool_decide_true; [done|]. by eapply lookup_lt_Some.
  - rewrite bool_decide_false; [done|]. apply lookup_ge_None in E. lia.
Qed.
Lemma need_rebalance_mem inner n ss as_ : mem inner n ss as_ → need_rebalance n = Ok (bool_decide (length ss ≤ 3)%nat).
Proof.
  intros Hm. unfold need_rebalance. change (ORDER / 2 - 1)%nat with 3%nat. rewrite (has_separator_mem _ _ _ _ 3 Hm) by (unfold ORDER; lia).
  rewrite outcome_bind_Ok. f_equal. repeat case_bool_decide; try done; lia.
Qed.
Lemma separator_address_mem inner n ss as_ i s : mem inner n ss as_ → ss !! i = Some s →
  separator_address i n = Ok (Some (sep_value s)).
Proof.
  intros Hm Hi. unfold separator_address. pose proof (mem_le _ _ _ _ Hm) as Hle.
  destruct (sep_at_mem _ _ _ _ i Hm) as (x & -> & Hx); [apply lookup_lt_Some in Hi; lia|].
  by rewrite outcome_bind_Ok, Hx, Hi.
Qed.
Lemma child_at_kids n L C as_ i a : arr n L C → kids true C as_ → as_ !! i = Some a →
  C !! i = Some (Some a).
Proof. intros _ [_ [junk ->]] Hi. apply lookup_app_l_Some. by rewrite list_lookup_fmap, Hi. Qed.
Lemma child_at_mem n ss as_ i a : mem true n ss as_ → as_ !! i = Some a → ∃ c, child_at i n = Ok c ∧ entry_index c = Some a.
Proof. intros [(C & Ha & Hk) _ _] Hi. eapply child_at_arr; [exact Ha|]. by eapply child_at_kids. Qed.
Lemma child_at_leaf n ss as_ i : mem false n ss as_ → (i < ORDER_CHILD)%nat → ∃ c, child_at i n = Ok c ∧ entry_index c = None.
Proof.
  intros [(C & Ha & Hk) _ _] Hi. eapply child_at_arr; [exact Ha|]. destruct Hk as (_ & _ & ->). by apply lookup_replicate_2.
Qed.

(** The place of a key among the separators. *)
Lemma position_from_ok key ss : ∀ seps k i b j, separator <$> seps = (Some <$> ss) ++ replicate k None →
  position_from key i seps = (b, j) →
  ∃ ss1 ss2, ss = ss1 ++ ss2 ∧ j = (i + length ss1)%nat ∧ (∀ s, last ss1 = Some s → key_lt (sep_key s) key) ∧
    if b then ∃ s ss3, ss2 = s :: ss3 ∧ sep_key s = key else ∀ s, head ss2 = Some s → key_lt key (sep_key s).
Proof.
  induction ss as [|s ss IH]; intros seps k i b j Hseps Hp.
  - exists [], []. assert (Hj : b = false ∧ j = i).
    { destruct seps as [|sn seps]; cbn in Hp; [by simplify_eq|]. destruct k; [done|].
      injection Hseps as E _. rewrite E in Hp. by simplify_eq. }
    destruct Hj as [-> ->]. by rewrite Nat.add_0_r.
  - destruct seps as [|sn seps]; [done|]. injection Hseps as Hsn Hseps. cbn [position_from] in Hp. rewrite Hsn in Hp.
    destruct (bytes_compare key (sep_key s)) eqn:Ec; [|injection Hp as <- <-|].
    + apply bytes_compare_eq in Ec. injection Hp as <- <-. exists [], (s :: ss). rewrite Nat.add_0_r. split_and!; try done. by exists s, ss.
    + exists [], (s :: ss). rewrite Nat.add_0_r. split_and!; try done. by intros x [= <-].
    + apply bytes_compare_gt in Ec. destruct (IH seps k (S i) b j Hseps Hp) as (ss1 & ss2 & -> & -> & H1 & H2).
      exists (s :: ss1), ss2. split_and!; [done|cbn; lia| |done]. intros x Hx. rewrite last_cons in Hx.
      destruct (last ss1) as [y|] eqn:Ey; injection Hx as <-; [by apply H1|done].
Qed.
Lemma position_mem inner n ss as_ key b i : mem inner n ss as_ → position key n = (b, i) →
  ∃ ss1 ss2, ss = ss1 ++ ss2 ∧ i = length ss1 ∧ (∀ s, last ss1 = Some s → key_lt (sep_key s) key) ∧
    if b then ∃ s ss3, ss2 = s :: ss3 ∧ sep_key s = key else ∀ s, head ss2 = Some s → key_lt key (sep_key s).
Proof. intros [(C & [Hs _] & _) _ _] Hp. exact (position_from_ok key ss _ _ 0%nat b i Hs Hp). Qed.

(** ** Encoding *)

Definition kid_list (inner : bool) (ss : list SeparatorInner) (as_ : list Address) : list (option Address) :=
  if inner then Some <$> as_ else replicate (S (length ss)) None.
Definition encoded (inner : bool) (ss : list SeparatorInner) (as_ : list Address) : bytes :=
  encode_content (kid_list inner ss as_) ss.

Lemma encode_from_junk cs ss : ∀ (csn : list Child) (ssn : list Separator) junk m,
  entry_index <$> csn = cs ++ junk → separator <$> ssn = (Some <$> ss) ++ replicate m None →
  length cs = S (length ss) → encode_from csn ssn = encode_content cs ss.
Proof.
  revert ss. induction cs as [|c cs IH]; intros ss csn ssn junk m Hc Hs Hlen; [done|].
  destruct csn as [|cn csn]; [done|]. injection Hc as Hc1 Hc. cbn [encode_from encode_content]. rewrite Hc1. f_equal.
  destruct ss as [|s ss].
  - destruct ssn as [|sn ssn]; [done|]. cbn in Hs. destruct m; [done|]. injection Hs as -> _. done.
  - destruct ssn as [|sn ssn]; [done|]. injection Hs as -> Hs. f_equal. eapply IH; try done. cbn in Hlen. lia.
Qed.
Lemma encode_mem inner n ss as_ : mem inner n ss as_ → encode_node n = encoded inner ss as_.
Proof.
  intros [(C & [Hs Hc] & Hk) Hle Has]. unfold encode_node, encoded, kid_list. destruct inner.
  - destruct Hk as [_ [junk ->]]. eapply encode_from_junk; [done|exact Hs|by rewrite length_fmap].
  - destruct Hk as (_ & _ & ->). eapply (encode_from_junk _ _ _ _ (replicate (ORDER_CHILD - S (length ss)) None));
      [|exact Hs|by rewrite length_replicate].
    rewrite Hc, <- replicate_add. f_equal. unfold ORDER_CHILD. lia.
Qed.

(** A node as it is read. *)
Definition read_form (inner : bool) (ss : list SeparatorInner) (as_ : list Address) : Node :=
  clean_node ss (kid_list inner ss as_).
Lemma kid_list_length (inner : bool) ss as_ : (if inner then length as_ = S (length ss) else as_ = []) → length (kid_list inner ss as_) = S (length ss).
Proof. destruct inner; cbn [kid_list]; [by rewrite length_fmap|]. by rewrite length_replicate. Qed.
Lemma read_form_mem (inner : bool) ss as_ : (length ss ≤ ORDER)%nat → (if inner then length as_ = S (length ss) else as_ = []) →
  mem inner (read_form inner ss as_) ss as_.
Proof.
  intros Hle Has. destruct (clean_node_content ss (kid_list inner ss as_)) as [E1 E2 _ _]; [done|by apply kid_list_length|].
  split; [|done|done]. eexists. split; [by split; [exact E1|exact E2]|]. split.
  - apply fill_length. rewrite kid_list_length by done. unfold ORDER_CHILD. lia.
  - unfold kid_list, fill. destruct inner; [by eexists|]. split; [done|]. rewrite length_replicate, <- replicate_add. f_equal.
    unfold ORDER_CHILD. lia.
Qed.
Lemma read_encoded (inner : bool) ss as_ : (length ss ≤ ORDER)%nat → (if inner then length as_ = S (length ss) else as_ = []) →
  Forall sep_ok ss → Forall address_ok as_ → from_encoded (encoded inner ss as_) = Ok (read_form inner ss as_).
Proof.
  intros Hle Has Hss Hok.
  pose proof (clean_node_content ss (kid_list inner ss as_) Hle (kid_list_length _ _ _ Has)) as Hn.
  unfold encoded. rewrite <- (encode_node_content _ _ _ Hn). apply from_encoded_content; [done|]. split; [done|].
  unfold kid_list. destruct inner; [by rewrite Forall_fmap|]. by apply Forall_replicate.
Qed.

(** A bound on the size of a node with keys of at most [K] bytes. *)
Definition node_bytes (K : nat) : nat := (8 + 8 * (K + 21))%nat.
Lemma write_separator_length s : (length (write_separator s) ≤ 13 + length (sep_key s))%nat.
Proof.
  unfold write_separator. rewrite !length_app, length_le_encode. destruct (U8_MAX <=? _); [rewrite length_app, length_le_encode|];
    cbn [length]; lia.
Qed.
Lemma encode_content_length K cs ss : Forall (fun s => (length (sep_key s) ≤ K)%nat) ss →
  (length (encode_content cs ss) ≤ 8 + length ss * (K + 21))%nat.
Proof.
  intros Hk. revert cs. induction Hk as [|s ss Hs _ IH]; intros [|c cs]; cbn [encode_content length]; try lia.
  - unfold write_child_index. rewrite app_nil_r, length_le_encode. lia.
  - unfold write_child_index. rewrite !length_app, length_le_encode. pose proof (write_separator_length s). specialize (IH cs). lia.
Qed.
Lemma encode_mem_length K inner n ss as_ : mem inner n ss as_ → Forall (fun s => (length (sep_key s) ≤ K)%nat) ss →
  (length (encode_node n) ≤ node_bytes K)%nat.
Proof.
  intros Hm Hk. rewrite (encode_mem _ _ _ _ Hm). unfold encoded. pose proof (encode_content_length K (kid_list inner ss as_) ss Hk).
  pose proof (mem_le _ _ _ _ Hm) as Hle. unfold node_bytes. unfold ORDER in Hle. nia.
Qed.

(** * Splitting a full node

    [Node::insert_node] and the insertion into a full leaf
    (src/src/btree/node.rs): a node of eight separators becomes two of four, and
    the middle one of nine goes up. *)

(** [insert_split] without the write of the right node: the separator that goes
    up, the left and the right node. *)
Definition split_nodes (at_ : nat) (sep : Separator) (child : option Child) (n : Node) : outcome (Separator * Node * Node) :=
  let middle := (ORDER / 2)%nat in
  let has_child := match child with Some _ => true | None => false end in
  match Nat.compare at_ middle with
  | Eq =>
      '(n, r_node) ← split middle true None None has_child n;
      r_node ← match child with Some c => set_child 0 c r_node | None => Ok r_node end;
      Ok (sep, n, r_node)
  | Lt =>
      '(n, r_node) ← split middle false None None has_child n;
      '(up, n) ← remove_separator (middle - 1) n;
      n ← shift_from at_ has_child false n;
      n ← set_separator at_ sep n;
      n ← match child with Some c => set_child (S at_) c n | None => Ok n end;
      Ok (up, n, r_node)
  | Gt =>
      '(n, r_node) ← split (S middle) false (Some (at_, sep)) ((fun c => (at_, c)) <$> child) has_child n;
      '(up, n) ← remove_separator middle n;
      Ok (up, n, r_node)
  end.

Lemma insert_split_nodes `{!Uninit, !Codecs} at_ sep child n up l r st : split_nodes at_ sep child n = Ok (up, l, r) →
  insert_split at_ sep child n st = (c ← write_split_child r; mret (up, c, l)) st.
Proof.
  unfold split_nodes, insert_split. destruct (Nat.compare at_ (ORDER / 2)).
  - intros E. apply outcome_bind_inv in E as ([n1 r1] & E1 & E). apply outcome_bind_inv in E as (r2 & E2 & [= -> -> ->]).
    erewrite ST_bind_Ok by (unfold lift_st; by rewrite E1). cbv beta iota. by erewrite ST_bind_Ok by (unfold lift_st; by rewrite E2).
  - intros E. apply outcome_bind_inv in E as ([n1 r1] & E1 & E). apply outcome_bind_inv in E as ([u n2] & E2 & E).
    apply outcome_bind_inv in E as (n3 & E3 & E). apply outcome_bind_inv in E as (n4 & E4 & E).
    apply outcome_bind_inv in E as (n5 & E5 & [= -> -> ->]).
    erewrite ST_bind_Ok by (unfold lift_st; by rewrite E1). cbv beta iota. erewrite ST_bind_Ok by (unfold lift_st; by rewrite E2).
    cbv beta iota. erewrite ST_bind_Ok by (unfold lift_st; by rewrite E3). erewrite ST_bind_Ok by (unfold lift_st; by rewrite E4).
    by erewrite ST_bind_Ok by (unfold lift_st; by rewrite E5).
  - intros E. apply outcome_bind_inv in E as ([n1 r1] & E1 & E). apply outcome_bind_inv in E as ([u n2] & E2 & [= -> -> ->]).
    erewrite ST_bind_Ok by (unfold lift_st; by rewrite E1). cbv beta iota. by erewrite ST_bind_Ok by (unfold lift_st; by rewrite E2).
Qed.

(** ** The full node, place by place *)

Definition explicit (flags : list bool) (l : list SeparatorInner) : list Separator := zip_with (fun f s => MkSeparator f (Some s)) flags l.

Lemma full_seps seps ss : separator <$> seps = seps_of ss → length ss = ORDER →
  ∃ f0 f1 f2 f3 f4 f5 f6 f7 s0 s1 s2 s3 s4 s5 s6 s7, ss = [s0; s1; s2; s3; s4; s5; s6; s7] ∧
    seps = explicit [f0; f1; f2; f3; f4; f5; f6; f7] ss.
Proof.
  unfold seps_of, fill. intros E Hl. do 8 (destruct ss as [|? ss]; [done|]). destruct ss; [|done]. cbn in E.
  do 8 (destruct seps as [|[] seps]; [done|]). destruct seps; [|done]. cbn in E. simplify_eq. repeat eexists.
Qed.
Lemma full_children chs as_ junk : entry_index <$> chs = (Some <$> as_) ++ junk → length chs = ORDER_CHILD → length as_ = ORDER_CHILD →
  ∃ f0 f1 f2 f3 f4 f5 f6 f7 f8 a0 a1 a2 a3 a4 a5 a6 a7 a8, as_ = [a0; a1; a2; a3; a4; a5; a6; a7; a8] ∧
    chs = zip_with (fun f a => MkChild f (Some a)) [f0; f1; f2; f3; f4; f5; f6; f7; f8] as_.
Proof.
  intros E Hl Ha. do 9 (destruct as_ as [|? as_]; [done|]). destruct as_; [|done]. cbn in E.
  do 9 (destruct chs as [|[] chs]; [done|]). destruct chs; [|done]. cbn in E. simplify_eq. repeat eexists.
Qed.
Lemma leaf_children chs : entry_index <$> chs = replicate ORDER_CHILD None →
  ∃ f0 f1 f2 f3 f4 f5 f6 f7 f8, chs = (fun f => MkChild f None) <$> [f0; f1; f2; f3; f4; f5; f6; f7; f8].
Proof.
  intros E. do 9 (destruct chs as [|[] chs]; [done|]). destruct chs; [|done]. cbn in E. simplify_eq. repeat eexists.
Qed.

(** What a split gives. *)
Definition split_ok (inner : bool) (at_ : nat) (sp : Separator) (o : option Child) (n : Node)
    (all : list SeparatorInner) (kids_ : list Address) : Prop :=
  ∃ up l r u, split_nodes at_ sp o n = Ok (up, l, r) ∧ separator up = Some u ∧ all = take 4 all ++ u :: drop 5 all ∧
    mem inner l (take 4 all) (if inner then take 5 kids_ else []) ∧ mem inner r (drop 5 all) (if inner then drop 5 kids_ else []) ∧
    changed l = true ∧ changed r = true.

Ltac split_tac :=
  eexists _, _, _, _; split; [vm_compute; reflexivity|]; split; [reflexivity|]; split; [reflexivity|];
  split; [|split; [|split; reflexivity]]; (split; [eexists; split; [split; reflexivity|split; [reflexivity|]]
    |apply Nat.leb_le; reflexivity|reflexivity]).

Lemma split_leaf_ok n ss1 ss2 sp s : mem false n (ss1 ++ ss2) [] → (length ss1 + length ss2 = ORDER)%nat → separator sp = Some s →
  split_ok false (length ss1) sp None n (ss1 ++ s :: ss2) [].
Proof.
  intros [(C & [Hs Hc] & _ & _ & ->) _ _] Hl Hsp. destruct n as [seps chs ch], sp as [m x]. cbn in Hs, Hc, Hsp. subst x.
  destruct (full_seps seps _ Hs) as (f0 & f1 & f2 & f3 & f4 & f5 & f6 & f7 & s0 & s1 & s2 & s3 & s4 & s5 & s6 & s7 & E & ->);
    [by rewrite length_app|].
  destruct (leaf_children chs Hc) as (g0 & g1 & g2 & g3 & g4 & g5 & g6 & g7 & g8 & ->).
  do 8 (destruct ss1 as [|? ss1]; [cbn in E; simplify_eq; split_tac; by split|]).
  destruct ss1; [|cbn in Hl; unfold ORDER in Hl; lia]. destruct ss2; [|cbn in Hl; unfold ORDER in Hl; lia]. cbn in E. simplify_eq. split_tac; by split.
Qed.

Lemma split_inner_ok n ss1 ss2 as1 as2 sp s c a : mem true n (ss1 ++ ss2) (as1 ++ as2) → (length ss1 + length ss2 = ORDER)%nat →
  length as1 = S (length ss1) → separator sp = Some s → entry_index c = Some a →
  split_ok true (length ss1) sp (Some c) n (ss1 ++ s :: ss2) (as1 ++ a :: as2).
Proof.
  intros [(C & [Hs Hc] & Hlen & junk & ->) _ Has] Hl H1 Hsp Hca. destruct n as [seps chs ch], sp as [m x], c as [mc ac].
  cbn in Hs, Hc, Hsp, Hca. subst x ac.
  destruct (full_seps seps _ Hs) as (f0 & f1 & f2 & f3 & f4 & f5 & f6 & f7 & s0 & s1 & s2 & s3 & s4 & s5 & s6 & s7 & E & ->);
    [by rewrite length_app|].
  destruct (full_children chs _ junk Hc) as (g0 & g1 & g2 & g3 & g4 & g5 & g6 & g7 & g8 & a0 & a1 & a2 & a3 & a4 & a5 & a6 & a7 & a8 & Ea & ->);
    [by rewrite <- Hlen, <- Hc, length_fmap|rewrite Has, length_app, Hl; done|].
  clear Hs Hc Hlen Has junk.
  destruct as1 as [|x as1]; [done|].
  do 8 (destruct ss1 as [|? ss1]; [destruct as1; [|done]; cbn in E, Ea; simplify_eq; split_tac; by exists (replicate 4 None)|
    destruct as1 as [|? as1]; [done|]]).
  destruct ss1; [|cbn in Hl; unfold ORDER in Hl; lia]. destruct ss2; [|cbn in Hl; unfold ORDER in Hl; lia].
  destruct as1; [|done]. cbn in E, Ea. simplify_eq. split_tac; by exists (replicate 4 None).
Qed.
