(* ===== verification/EntryStore.v ===== *)
(** * The entries of an ordered column as a map

    The value tables of an ordered column hold a map from addresses to byte
    strings: values, nodes and the header of the tree, without keys
    (src/src/btree/mod.rs); what [write_new_value_plan],
    [write_existing_value_plan] and [get_value] (src/src/column.rs) do to it. *)

From S2P Require Import Prelude.
From S2P Require Import Bytes.
From S2P Require Import Ids.
From S2P Require Import Log.
From S2P Require Import Table.
From S2P Require Import TableSpec.
From S2P Require Import TableOps.
From S2P Require Import TableStore.
From S2P Require Import Index.
From S2P Require Import Compress.
From S2P Require Import Stats.
From S2P Require Import Column.
From S2P Require Import ColumnTables.
From S2P Require Import ColumnLinks.
From S2P Require Import ColumnProofs.
From S2P Require Import ColumnValues.
From S2P Require Import BTree.
From stdpp Require Import options.
#[local] Set Default Proof Using "Type*".

#[global] Program Instance Address_countable : Countable Address :=
  inj_countable' address_u64 MkAddress _.
Next Obligation. by intros []. Qed.

Abbreviation EntryMap := (gmap Address bytes).

Lemma no_hash_wf : key_wf NoHash.
Proof. done. Qed.

Section Entries.
Context `{!Uninit, !Codecs, !CodecLaws}.
Context (col : ColId) (comp : Compress) (w0 : LogWriter).
Hypothesis col_u8 : is_u8 col.

(** The address of an entry that is not the null address. *)
Definition entry_address (a : Address) : Prop := valid_address a ∧ 0 < Address.as_u64 a.

Definition holds_entries (SS : list Store) (E : EntryMap) : Prop :=
  ∀ a v, E !! a = Some v → entry_address a ∧ ∃ s, stored_at SS a = Some s ∧ s_key s = [] ∧ plain_value comp s v.

(** The tables, with the log, hold the entries [E] and maybe others, and have
    room for [n] more; [c] is the compression that is used. *)
Record entries_repr (c : Compress) (s : TRW) (E : EntryMap) (n : nat) : Prop := {
  er_rc : tr_ref_counted s.1 = false;
  er_preimage : tr_preimage s.1 = false;
  er_stats : tr_stats s.1 = None;
  er_comp : tr_compression s.1 = c;
  er_tables : ∃ SS, tables_repr col false comp (tr_tables s.1) s.2 SS ∧ holds_entries SS E;
  er_room : room (tr_tables s.1) (Z.of_nat n);
  er_index : same_index w0 s.2;
}.

Lemma entries_weaken c s E E' n n' : E' ⊆ E → (n' ≤ n)%nat → entries_repr c s E n → entries_repr c s E' n'.
Proof.
  intros HE Hn [R1 R2 R3 R4 (SS & Htb & Hh) R6 R7]. split; try done.
  - exists SS. split; [done|]. intros a v Ha. apply Hh. by eapply lookup_weaken.
  - eapply room_le; [|exact R6]. lia.
Qed.

Lemma entries_address c s E n a v : entries_repr c s E n → E !! a = Some v → entry_address a.
Proof. intros [_ _ _ _ (SS & _ & Hh) _ _] Ha. by apply Hh in Ha as [? _]. Qed.

(** Another compression for the writes. *)
Lemma entries_compression c c' s E n : entries_repr c s E n → entries_repr c' (set_tr_compression c' s.1, s.2) E n.
Proof. by intros []. Qed.

(** What a plan leaves. *)
Lemma entries_planned c r w r' w' SS SS' E E' n m : entries_repr c (r, w) E n →
  plan_done col false comp (Z.of_nat m) r w SS r' w' SS' → (m ≤ n)%nat → holds_entries SS' E' →
  entries_repr c (r', w') E' (n - m).
Proof.
  intros [R1 R2 R3 R4 _ R6 R7] [D1 D2 (C1 & C2 & C3 & C4) D4] Hm Hh. cbn in *. split; cbn.
  - congruence.
  - congruence.
  - destruct (tr_stats r'); [|done]. rewrite R3 in C4. destruct C4 as [C4 _]. by destruct C4.
  - congruence.
  - by exists SS'.
  - replace (Z.of_nat (n - m)) with (Z.of_nat n - Z.of_nat m) by lia. by apply D4.
  - by etrans.
Qed.

(** ** Reading *)

Lemma entries_get c s E n a v q : entries_repr c s E n → c = comp → E !! a = Some v → q = Check_ NoHash ∨ q = Fetch None →
  get_value q a (tr_tables s.1) (tr_compression s.1) s.2 = Ok (Some (Address.size_tier a, v)).
Proof.
  intros [_ _ _ Hc (SS & Htb & Hh) _ _] -> Ha Hq. apply Hh in Ha as (_ & st & Hs & Hk & Hp).
  destruct (stored_table _ _ _ _ _ _ a st Htb Hs) as (t & m & Ht & Hm & Hr & Hoff & _).
  unfold get_value. rewrite Ht. cbn [unwrap]. rewrite outcome_bind_Ok.
  assert (Hf : query_fits q (s_key st)) by (rewrite Hk; by destruct Hq as [->| ->]).
  rewrite (query_store t s.2 m _ st q Hr Hoff Hf), outcome_bind_Ok, Hk, Hc.
  unfold plain_value in Hp. destruct Hq as [->| ->]; cbn; (destruct (s_compressed st); [by rewrite Hp|by rewrite Hp]).
Qed.

(** ** Writing *)

(** The room that a value takes at most. *)
Definition entry_cost (v : bytes) : nat := 31 + length v.

(** The value can be compressed; the snappy encoder never fails, lz4 may. *)
Definition can_write (c : Compress) (v : bytes) : Prop :=
  Z.of_nat (length v) < 2 ^ 32 ∧ ∃ cv, Compress.compress c v = Ok cv.

Lemma holds_insert SS SS' E a v s : holds_entries SS E → entry_address a →
  (∀ b, valid_address b → stored_at SS' b = if decide (a = b) then Some s else stored_at SS b) →
  s_key s = [] → plain_value comp s v → holds_entries SS' (<[a := v]> E).
Proof.
  intros Hh Ha Hst Hk Hp b x. rewrite lookup_insert. case_decide as Hab.
  - subst b. intros [= <-]. split; [done|]. exists s. rewrite Hst by apply Ha. by rewrite decide_True.
  - intros Hb. destruct (Hh b x Hb) as (Hb' & sb & H1' & H2' & H3'). split; [done|]. exists sb.
    rewrite Hst by apply Hb'. by rewrite decide_False.
Qed.

Lemma entries_new c s E n v : entries_repr c s E n → writes_with comp c → can_write c v → (entry_cost v ≤ n)%nat →
  ∃ a s', write_new_value_plan NoHash v s = (Ok a, s') ∧ E !! a = None ∧ entry_address a ∧
    entries_repr c s' (<[a := v]> E) (n - entry_cost v).
Proof.
  destruct s as [r w]. intros Hr Hc (Hlen & cv & Hcv) Hn.
  destruct (er_tables _ _ _ _ Hr) as (SS & Htb & Hh). pose proof (er_comp _ _ _ _ Hr) as Ec. cbn in Htb, Ec.
  destruct (new_value_ok col false comp col_u8 r w SS NoHash v cv) as
    (a & r' & w' & SS' & s' & Hrun & Hd & Hst & Hp & _ & Hk & Ha & Hfree & Hpos); try done.
  { by rewrite Ec. }
  { by rewrite Ec. }
  { eapply room_le; [|apply (er_room _ _ _ _ Hr)]. unfold entry_cost in Hn. lia. }
  exists a, (r', w'). split_and!; [done| |done|].
  - destruct (E !! a) as [x|] eqn:Hx; [|done]. apply Hh in Hx as (_ & ? & ? & _). congruence.
  - eapply (entries_planned _ _ _ _ _ SS SS'); [done| |done|by eapply holds_insert].
    replace (Z.of_nat (entry_cost v)) with (31 + Z.of_nat (length v)) by (unfold entry_cost; lia). done.
Qed.

(** The contract of [write_existing_value_plan] on an entry. *)
Lemma entries_existing c s E n a v0 val : entries_repr c s E n → writes_with comp c → E !! a = Some v0 →
  match val with Some v => can_write c v ∧ (entry_cost v ≤ n)%nat | None => True end →
  ∃ SS s0, holds_entries SS E ∧
    existing_ok col false comp s.1 s.2 SS a s0 NoHash val.
Proof.
  destruct s as [r w]. intros Hr Hc Ha Hv. destruct (er_tables _ _ _ _ Hr) as (SS & Htb & Hh).
  destruct (Hh _ _ Ha) as ([Hva _] & s0 & Hs & Hk & _). cbn [fst snd] in *. exists SS, s0. split; [done|].
  pose proof (er_comp _ _ _ _ Hr) as Ec. cbn in Ec.
  apply existing_value_ok; try done.
  - by rewrite Ec.
  - right. apply (er_stats _ _ _ _ Hr).
  - apply (er_rc _ _ _ _ Hr).
  - destruct val as [v|].
    + destruct Hv as [[Hlen Hcv] Hn]. split_and!; [done|by rewrite Ec|]. eapply room_le; [|apply (er_room _ _ _ _ Hr)].
      unfold entry_cost in Hn. lia.
    + eapply room_le; [|apply (er_room _ _ _ _ Hr)]. lia.
Qed.

(** A small value goes to the first table. *)
Lemma first_tier ts w SS c v cv : tables_repr col false comp ts w SS → Compress.compress c v = Ok cv → (length v ≤ 28)%nat →
  ∃ cval, compress c NoHash v ts = Ok (cval, 0%nat).
Proof.
  intros Htb Hcv Hlen.
  destruct (tables_lookup col false comp col_u8 ts w SS 0 Htb ltac:(unfold SIZE_TIERS; lia)) as (t & m & Ht & _).
  assert (Hv : value_size t NoHash = Some 30).
  { unfold value_size, ref_size. destruct (tb_shape _ _ _ _ _ _ Htb _ _ Ht) as [-> _]. rewrite (tb_rc _ _ _ _ _ _ Htb _ _ Ht). reflexivity. }
  unfold compress. assert (E : ∃ len cval, (if threshold c <? Z.of_nat (length v) then
      cvalue ← Compress.compress c v;
      Ok (if (length cvalue <? length v)%nat then (length cvalue, Some cvalue) else (length v, None))
    else Ok (length v, None)) = Ok (len, cval) ∧ (len ≤ length v)%nat).
  { destruct (threshold c <? _); [|by eexists _, _]. rewrite Hcv, outcome_bind_Ok.
    destruct (Nat.ltb_spec (length cv) (length v)); eexists _, _; split; [done|lia|done|lia]. }
  destruct E as (len & cval & -> & Hle). rewrite outcome_bind_Ok. exists cval. destruct ts as [|t' ts]; [done|].
  injection Ht as ->. cbn [position]. rewrite Hv, (proj2 (Z.leb_le _ _)) by lia. done.
Qed.
Lemma existing_in_place r w a v cval res s' : tr_ref_counted r = false → tr_preimage r = false → tr_stats r = None →
  compress (tr_compression r) NoHash v (tr_tables r) = Ok (cval, tier_of a) →
  write_existing_value_plan NoHash a (Some v) (r, w) = (Ok res, s') → snd res = None.
Proof.
  intros E1 E2 E3 E4. unfold write_existing_value_plan. erewrite ST_bind_Ok by done. cbv beta iota. rewrite E1, E2, E3, E4.
  erewrite ST_bind_Ok by done. cbv beta iota. destruct (chosen v cval) as [cv c]. erewrite ST_bind_Ok by done. rewrite Nat.eqb_refl.
  unfold mbind, ST_bind. destruct (on_tier _ _ (r, w)) as [[] [r2 w2]]; try done. by intros [= <- <-].
Qed.

(** Replacing an entry may move it to another address, which was free. *)
Lemma entries_replace c s E n a v0 v : entries_repr c s E n → writes_with comp c → E !! a = Some v0 →
  can_write c v → (entry_cost v ≤ n)%nat →
  ∃ res a' s', write_existing_value_plan NoHash a (Some v) s = (Ok res, s') ∧ default a (snd res) = a' ∧
    (a' = a ∧ snd res = None ∨ snd res = Some a') ∧
    delete a E !! a' = None ∧ entry_address a' ∧ entries_repr c s' (<[a' := v]> (delete a E)) (n - entry_cost v) ∧
    ((length v ≤ 28)%nat → tier_of a = 0%nat → snd res = None).
Proof.
  destruct s as [r w]. intros Hr Hc Ha Hcw Hn.
  destruct (entries_existing c (r, w) E n a v0 (Some v) Hr Hc Ha (conj Hcw Hn)) as (SS & s0 & Hh & Hok).
  destruct Hok as (res & r' & w' & SS' & oa' & s' & Hrun & Hd & Hst & Hvs & Has & Hk). cbn [fst snd] in *.
  pose proof (er_preimage _ _ _ _ Hr) as Hp. cbn in Hp. rewrite Hp in Hvs. cbn in Hvs.
  destruct Hvs as ([a' ->] & Hpl & _ & Hks). cbn in Has.
  destruct (Hh _ _ Ha) as (Haa & _).
  assert (Hout : default a (snd res) = a' ∧ (a' = a ∧ snd res = None ∨ snd res = Some a') ∧ entry_address a' ∧ delete a E !! a' = None).
  { destruct Has as [(-> & o & -> & _)|(_ & -> & Hva & Hfree & Hpos)].
    - split_and!; [done|by left|done|by rewrite lookup_delete_eq].
    - split_and!; [done|by right|done|]. apply lookup_delete_None. right.
      destruct (E !! a') as [x|] eqn:Hx; [|done]. apply Hh in Hx as (_ & ? & ? & _). congruence. }
  destruct Hout as (Hdef & Hres & Haddr & Hfree). exists res, a', (r', w'). split_and!; try done.
  2: { intros Hlen Ht. destruct (er_tables _ _ _ _ Hr) as (SS0 & Htb & _). destruct Hcw as (_ & cv & Hcv).
    destruct (first_tier _ _ _ c v cv Htb Hcv Hlen) as [cval Hcomp]. eapply (existing_in_place r w a v cval); try done.
    - apply (er_rc _ _ _ _ Hr).
    - apply (er_stats _ _ _ _ Hr).
    - pose proof (er_comp _ _ _ _ Hr) as Ec. cbn in Ec. by rewrite Ec, Ht. }
  eapply (entries_planned _ _ _ _ _ SS SS'); [done| |done|].
  - replace (Z.of_nat (entry_cost v)) with (write_bound (Some v)) by (unfold entry_cost; cbn; lia). done.
  - intros b x. rewrite lookup_insert. case_decide as Hab.
    + subst b. intros [= <-]. split; [done|]. exists s'. rewrite Hst by apply Haddr. rewrite decide_True by done.
      split_and!; [done|by apply Hk; eauto|done].
    + intros [Hne Hb]%lookup_delete_Some. destruct (Hh b x Hb) as (Hb' & sb & H1' & H2' & H3'). split; [done|]. exists sb.
      rewrite Hst by apply Hb'. by rewrite !decide_False by congruence.
Qed.

Lemma entries_remove c s E n a v0 : entries_repr c s E n → writes_with comp c → E !! a = Some v0 →
  ∃ res s', write_existing_value_plan NoHash a None s = (Ok res, s') ∧ entries_repr c s' (delete a E) n.
Proof.
  destruct s as [r w]. intros Hr Hc Ha.
  destruct (entries_existing c (r, w) E n a v0 None Hr Hc Ha I) as (SS & s0 & Hh & Hok).
  destruct Hok as (res & r' & w' & SS' & oa' & s' & Hrun & Hd & Hst & Hvs & _ & _). cbn [fst snd value_spec] in *. subst oa'.
  exists res, (r', w'). split; [done|]. replace n with (n - 0)%nat by lia.
  eapply (entries_planned _ _ _ _ _ SS SS'); [done|by apply Hd|lia|].
  intros b x [Hne Hb]%lookup_delete_Some. destruct (Hh b x Hb) as (Hb' & sb & H1' & H2' & H3'). split; [done|]. exists sb.
  rewrite Hst by apply Hb'. by rewrite !decide_False by congruence.
Qed.

End Entries.
