(* ===== verification/EntryLogic.v ===== *)
(** * A separation logic for the entries of an ordered column

    Assertions about a part of the entries of the value tables, with their
    uncompressed content, and about room in the tables ([credits]). The entries
    of two separate assertions are different, so that a write to one node of a
    tree leaves the others alone. Assertions are kept by more entries and more
    room; entries that nothing refers to are dropped. *)

From iris.proofmode Require Import proofmode.
From S2P Require Import Prelude.
From S2P Require Import Bytes.
From S2P Require Import Ids.
From S2P Require Import Log.
From S2P Require Import Table.
From S2P Require Import Compress.
From S2P Require Import Column.
From S2P Require Import ColumnTables.
From S2P Require Import ColumnLinks.
From S2P Require Import ColumnValues.
From S2P Require Import BTreeNode.
From S2P Require Import BTree.
From S2P Require Import EntryStore.
From stdpp Require Import options.
#[local] Set Default Proof Using "Type*".

(** ** Parts of the entries *)

Record heap := MkHeap { cells : EntryMap; credits : nat }.

Definition heap_le (a b : heap) : Prop := cells a ⊆ cells b ∧ (credits a ≤ credits b)%nat.
Definition heap_sep (a b : heap) : Prop := cells a ##ₘ cells b.
Definition heap_join (a b : heap) : heap := MkHeap (cells a ∪ cells b) (credits a + credits b)%nat.
Definition heap_none : heap := MkHeap ∅ 0.

#[global] Instance heap_le_preorder : PreOrder heap_le.
Proof.
  split; [by intros a|]. intros a b c [H1 H2] [H3 H4]. split; [by etrans|lia].
Qed.
#[global] Instance heap_sep_sym : Symmetric heap_sep.
Proof. intros a b. apply map_disjoint_sym. Qed.

Lemma heap_none_le a : heap_le heap_none a.
Proof. split; [apply map_empty_subseteq|cbn; lia]. Qed.
Lemma heap_none_sep a : heap_sep heap_none a.
Proof. apply map_disjoint_empty_l. Qed.
Lemma heap_none_join a : heap_join heap_none a = a.
Proof. destruct a as [m n]. unfold heap_join. cbn. by rw map_empty_union. Qed.
Lemma heap_join_comm a b : heap_sep a b → heap_join a b = heap_join b a.
Proof. intros Hd. unfold heap_join. f_equal; [by apply map_union_comm|lia]. Qed.
Lemma heap_join_assoc a b c : heap_join (heap_join a b) c = heap_join a (heap_join b c).
Proof. unfold heap_join. cbn. f_equal; [by rw (assoc_L (∪))|lia]. Qed.
Lemma heap_join_l a b : heap_le a (heap_join a b).
Proof. split; [apply map_union_subseteq_l|cbn; lia]. Qed.
Lemma heap_join_r a b : heap_sep a b → heap_le b (heap_join a b).
Proof. split; [by apply map_union_subseteq_r|cbn; lia]. Qed.
Lemma heap_sep_le a a' b b' : heap_le a a' → heap_le b b' → heap_sep a' b' → heap_sep a b.
Proof. intros [H1 _] [H2 _] Hd. by eapply map_disjoint_weaken. Qed.
Lemma heap_join_le a a' b b' : heap_sep a' b' → heap_le a a' → heap_le b b' →
  heap_le (heap_join a b) (heap_join a' b').
Proof.
  intros Hd [H1 H2] [H3 H4]. split; cbn; [|lia]. trans (cells a ∪ cells b'); [by apply map_union_mono_l|by apply map_union_mono_r].
Qed.
Lemma heap_sep_join_l a b c : heap_sep (heap_join a b) c ↔ heap_sep a c ∧ heap_sep b c.
Proof. apply map_disjoint_union_l. Qed.
Lemma heap_sep_join_r a b c : heap_sep c (heap_join a b) ↔ heap_sep c a ∧ heap_sep c b.
Proof. apply map_disjoint_union_r. Qed.

(** ** Assertions *)

Record hprop := MkHprop {
  in_heap :> heap → Prop;
  in_heap_le : ∀ a b, heap_le a b → in_heap a → in_heap b;
}.

Record hentails (P Q : hprop) : Prop := entails_of { entails_at : ∀ h, P h → Q h }.
Record hequiv (P Q : hprop) : Prop := equiv_of { equiv_at : ∀ h, P h ↔ Q h }.
Arguments entails_at {P Q} _ _ _.
Arguments equiv_at {P Q} _ _.
#[local] Instance hprop_equiv : Equiv hprop := hequiv.
#[local] Instance hprop_equivalence : Equivalence (≡@{hprop}).
Proof.
  split; [by intros P|intros P Q [E]|intros P Q R [E] [F]]; split; intros h; [by rw (E h)|by rw (E h) (F h)].
Qed.
Canonical Structure hpropO := discreteO hprop.

Program Definition h_pure (φ : Prop) : hprop := MkHprop (fun _ => φ) _.
Next Obligation. done. Qed.
Program Definition h_and (P Q : hprop) : hprop := MkHprop (fun h => P h ∧ Q h) _.
Next Obligation. intros P Q a b Hle [H1 H2]. split; by eapply in_heap_le. Qed.
Program Definition h_or (P Q : hprop) : hprop := MkHprop (fun h => P h ∨ Q h) _.
Next Obligation. intros P Q a b Hle [H1|H1]; [left|right]; by eapply in_heap_le. Qed.
Program Definition h_impl (P Q : hprop) : hprop := MkHprop (fun h => ∀ h', heap_le h h' → P h' → Q h') _.
Next Obligation. intros P Q a b Hle HPQ h' Hh. apply HPQ. by etrans. Qed.
Program Definition h_forall (A : Type) (Φ : A → hprop) : hprop := MkHprop (fun h => ∀ x, Φ x h) _.
Next Obligation. intros A Φ a b Hle H x. by eapply in_heap_le. Qed.
Program Definition h_exist (A : Type) (Φ : A → hprop) : hprop := MkHprop (fun h => ∃ x, Φ x h) _.
Next Obligation. intros A Φ a b Hle [x H]. exists x. by eapply in_heap_le. Qed.
Program Definition h_sep (P Q : hprop) : hprop :=
  MkHprop (fun h => ∃ a b, heap_sep a b ∧ heap_le (heap_join a b) h ∧ P a ∧ Q b) _.
Next Obligation. intros P Q h h' Hle (a & b & Hd & Hj & HP & HQ). exists a, b. split_and!; [done|by etrans|done|done]. Qed.
Program Definition h_wand (P Q : hprop) : hprop :=
  MkHprop (fun h => ∀ h', heap_sep h h' → P h' → Q (heap_join h h')) _.
Next Obligation.
  intros P Q a b Hle HPQ h' Hd HP. assert (Hd' : heap_sep a h') by (by eapply heap_sep_le; [exact Hle|reflexivity|]).
  eapply in_heap_le; [|by apply HPQ]. by apply heap_join_le.
Qed.
Definition h_pers (P : hprop) : hprop := h_pure (hentails (h_pure True) P).

Lemma hprop_bi_mixin : BiMixin hentails (h_pure True) h_pure h_and h_or h_impl h_forall h_exist h_sep h_wand.
Proof.
  split.
  - split; [by intros P; split|]. intros P Q R [H1] [H2]. split. intros h HP. by apply H2, H1.
  - intros P Q. split; [intros [E]; split; split; intros h; apply E|]. intros [[H1] [H2]]. split. intros h. split; [apply H1|apply H2].
  - intros n φ ψ E. split. intros h. apply E.
  - intros n P P' [E1] Q Q' [E2]. split. intros h. cbn. by rw (E1 h) (E2 h).
  - intros n P P' [E1] Q Q' [E2]. split. intros h. cbn. by rw (E1 h) (E2 h).
  - intros n P P' [E1] Q Q' [E2]. split. intros h. cbn.
    split; intros HPQ h' Hle HP; apply E2, HPQ; [done|by apply E1|done|by apply E1].
  - intros A n Φ Ψ E. split. intros h. cbn. split; intros H x; apply (equiv_at (E x)), H.
  - intros A n Φ Ψ E. split. intros h. cbn. split; intros [x H]; exists x; by apply (equiv_at (E x)).
  - intros n P P' [E1] Q Q' [E2]. split. intros h. cbn. split; intros (a & b & ? & ? & ? & ?); exists a, b;
      (split_and!; [done|done|by apply E1|by apply E2]).
  - intros n P P' [E1] Q Q' [E2]. split. intros h. cbn.
    split; intros HPQ h' Hd HP; apply E2, HPQ; [done|by apply E1|done|by apply E1].
  - intros φ P Hφ. split. intros h _. exact Hφ.
  - intros φ P HP. split. intros h Hφ. by apply (entails_at (HP Hφ)).
  - intros P Q. split. by intros h [? ?].
  - intros P Q. split. by intros h [? ?].
  - intros P Q R [H1] [H2]. split. intros h HP. split; [by apply H1|by apply H2].
  - intros P Q. split. intros h ?. by left.
  - intros P Q. split. intros h ?. by right.
  - intros P Q R [H1] [H2]. split. intros h [?|?]; [by apply H1|by apply H2].
  - intros P Q R [HR]. split. intros h HP h' Hle HQ. apply HR. split; [by eapply in_heap_le|done].
  - intros P Q R [HR]. split. intros h [HP HQ]. by apply (HR h HP h).
  - intros A P Ψ HΨ. split. intros h HP x. by apply (entails_at (HΨ x)).
  - intros A Ψ x. split. intros h HΨ. apply HΨ.
  - intros A Ψ x. split. intros h HΨ. by exists x.
  - intros A Φ Q HΦ. split. intros h [x Hx]. by apply (entails_at (HΦ x)).
  - intros P P' Q Q' [H1] [H2]. split. intros h (a & b & ? & ? & ? & ?). exists a, b.
    split_and!; [done|done|by apply H1|by apply H2].
  - intros P. split. intros h HP. exists heap_none, h. split_and!; [apply heap_none_sep|by rw heap_none_join|done|done].
  - intros P. split. intros h (a & b & Hd & Hj & _ & HP). eapply in_heap_le; [|exact HP]. etrans; [by apply heap_join_r|done].
  - intros P Q. split. intros h (a & b & Hd & Hj & HP & HQ). exists b, a.
    split_and!; [by symmetry|by rw heap_join_comm|done|done].
  - intros P Q R. split. intros h (ab & c & Hd & Hj & (a & b & Hab & Hjab & HP & HQ) & HR).
    assert (Hd' : heap_sep (heap_join a b) c) by (eapply heap_sep_le; [exact Hjab|reflexivity|done]).
    apply heap_sep_join_l in Hd' as [Hac Hbc]. exists a, (heap_join b c). split_and!.
    + by apply heap_sep_join_r.
    + rw -heap_join_assoc. etrans; [|exact Hj]. by apply heap_join_le.
    + done.
    + by exists b, c.
  - intros P Q R [HR]. split. intros h HP h' Hd HQ. apply HR. by exists h, h'.
  - intros P Q R [HR]. split. intros h (a & b & Hd & Hj & HP & HQ). eapply in_heap_le; [exact Hj|]. by apply (HR a HP b).
Qed.

Lemma hprop_persistently_mixin : BiPersistentlyMixin hentails (h_pure True) h_and h_exist h_sep h_pers.
Proof.
  eapply bi_persistently_mixin_discrete, hprop_bi_mixin; [done| |done].
  intros A Φ [H]. destruct (H heap_none I) as [x Hx]. exists x. split. intros h _. eapply in_heap_le; [|exact Hx]. apply heap_none_le.
Qed.
Lemma hprop_later_mixin : BiLaterMixin hentails h_pure h_or h_impl h_forall h_exist h_sep h_pers id.
Proof. by eapply bi_later_mixin_id, hprop_bi_mixin. Qed.

Canonical Structure hpropI : bi := {|
  bi_ofe_mixin := ofe_mixin_of hprop;
  bi_bi_mixin := hprop_bi_mixin;
  bi_bi_persistently_mixin := hprop_persistently_mixin;
  bi_bi_later_mixin := hprop_later_mixin
|}.
#[global] Instance hprop_pure_forall : BiPureForall hpropI.
Proof. intros A φ. split. intros h H. exact H. Qed.
#[global] Instance hprop_affine : BiAffine hpropI | 0.
Proof. intros P. split. by intros h _. Qed.

(** ** An entry, and room *)

Bind Scope bi_scope with hprop.

Program Definition cell_at (a : Address) (v : bytes) : hprop :=
  MkHprop (fun h => entry_address a ∧ cells h !! a = Some v) _.
Next Obligation. intros a v h h' [Hle _] [Ha H]. split; [done|]. by eapply lookup_weaken. Qed.
Program Definition credit (n : nat) : hprop := MkHprop (fun h => (n ≤ credits h)%nat) _.
Next Obligation. cbn. intros n h h' [_ Hle] H. lia. Qed.

Notation "a ↦ v" := (cell_at a v) (at level 20, format "a  ↦  v") : bi_scope.

Lemma entry_ne a b v w : a ↦ v ⊢ b ↦ w -∗ ⌜a ≠ b⌝.
Proof.
  split. intros h [_ Ha] h' Hd [_ Hb]. cbn in *. intros ->. by eapply (map_disjoint_spec (cells h) (cells h')).
Qed.

Lemma credit_split n m : credit (n + m) ⊣⊢ credit n ∗ credit m.
Proof.
  split. intros h. split.
  - intros H. exists (MkHeap (cells h) n), (MkHeap ∅ m). split_and!; [apply map_disjoint_empty_r| |cbn; lia|cbn; lia].
    split; cbn in *; [by rw map_union_empty|lia].
  - intros (a & b & _ & [_ Hle] & Ha & Hb). cbn in *. lia.
Qed.
Lemma credit_le n m : (m ≤ n)%nat → credit n ⊢ credit m.
Proof. intros Hle. split. intros h. cbn. lia. Qed.

(** At least [n] entries. *)
Program Definition entries_ge (n : nat) : hprop :=
  MkHprop (fun h => ∃ A, NoDup A ∧ length A = n ∧ Forall (fun a => entry_address a ∧ is_Some (cells h !! a)) A) _.
Next Obligation.
  cbn. intros n h h' [Hle _] (A & H1 & H2 & H3). exists A. split_and!; [done|done|]. eapply Forall_impl; [exact H3|].
  intros a [Ha [v Hv]]. split; [done|]. exists v. by eapply lookup_weaken.
Qed.
Lemma entries_ge_none : ⊢ entries_ge 0.
Proof. split. intros h _. exists []. split_and!; [constructor|done|constructor]. Qed.
Lemma entries_ge_one a v : a ↦ v ⊢ entries_ge 1.
Proof.
  split. intros h [Ha Hv]. exists [a]. split_and!; [apply NoDup_singleton|done|]. apply Forall_singleton. split; [done|by eexists].
Qed.
Lemma entries_ge_sep n m : entries_ge n ∗ entries_ge m ⊢ entries_ge (n + m).
Proof.
  split. intros h (h1 & h2 & Hd & [Hle _] & (A & HA & <- & FA) & (B & HB & <- & FB)). exists (A ++ B).
  assert (Hsub : ∀ hi C, (cells hi ⊆ cells h1 ∪ cells h2) → Forall (fun a => entry_address a ∧ is_Some (cells hi !! a)) C →
    Forall (fun a => entry_address a ∧ is_Some (cells h !! a)) C).
  { intros hi C Hi HC. eapply Forall_impl; [exact HC|]. intros a [Ha [v Hv]]. split; [done|]. exists v.
    eapply lookup_weaken; [|exact Hle]. cbn. by eapply lookup_weaken. }
  split_and!.
  - apply NoDup_app. split_and!; [done| |done]. intros a Ha Hb. rw !Forall_forall in FA FB.
    destruct (FA a Ha) as [_ [v Hv]], (FB a Hb) as [_ [w Hw]]. by eapply (map_disjoint_spec (cells h1) (cells h2)).
  - by rw length_app.
  - apply Forall_app. split; [eapply Hsub; [|exact FA]; by apply map_union_subseteq_l|eapply Hsub; [|exact FB]; by apply map_union_subseteq_r].
Qed.
(** Addresses have 64 bits. *)
Lemma entries_ge_bound n : entries_ge n ⊢ ⌜Z.of_nat n ≤ 2 ^ 64⌝.
Proof.
  split. intros h (A & HA & <- & FA).
  assert (Hsub : Address.as_u64 <$> A ⊆+ seqZ 0 (2 ^ 64)).
  { apply NoDup_submseteq.
    - apply NoDup_fmap_2_strong; [|done]. intros [x] [y] _ _ E. cbn in E. by rw E.
    - intros z (a & -> & Ha)%list_elem_of_fmap. rw Forall_forall in FA. destruct (FA a Ha) as [[Hv _] _].
      unfold valid_address, is_u64 in Hv. apply elem_of_seqZ. lia. }
  apply submseteq_length in Hsub. rw length_fmap length_seqZ in Hsub. change (Z.of_nat (length A) ≤ 2 ^ 64). lia.
Qed.

Lemma cell_address a v : a ↦ v ⊢ ⌜entry_address a⌝.
Proof. split. by intros h [Ha _]. Qed.

(** ** Programs *)

Section Wp.
Context `{!Uninit, !Codecs, !CodecLaws}.
Context (col : ColId) (comp : Compress) (w0 : LogWriter).
Hypothesis col_u8 : is_u8 col.

(** The tables and the log hold the entries of [h]. *)
Definition world (s : TRW) (h : heap) : Prop := entries_repr col comp w0 comp s (cells h) (credits h).

Lemma world_le s h h' : heap_le h h' → world s h' → world s h.
Proof. intros [? ?]. by apply entries_weaken. Qed.

(** [m] runs without an error and leaves entries with [Φ]; other entries stay. *)
Program Definition wp {A} (m : ST TRW A) (Φ : A → hprop) : hprop :=
  MkHprop (fun h => ∀ rest s, heap_sep h rest → world s (heap_join h rest) →
    ∃ x s' h', m s = (Ok x, s') ∧ heap_sep h' rest ∧ world s' (heap_join h' rest) ∧ Φ x h') _.
Next Obligation.
  intros A m Φ h1 h2 Hle Hwp rest s Hd Hw. apply Hwp.
  - by eapply heap_sep_le; [exact Hle|reflexivity|].
  - eapply world_le; [|exact Hw]. by apply heap_join_le.
Qed.

Lemma wp_mono {A} (m : ST TRW A) (Φ Ψ : A → hprop) : (∀ x, Φ x ⊢ Ψ x) → wp m Φ ⊢ wp m Ψ.
Proof.
  intros HΦ. split. intros h Hwp rest s Hd Hw. destruct (Hwp rest s Hd Hw) as (x & s' & h' & ? & ? & ? & ?). exists x, s', h'.
  split_and!; [done|done|done|by apply (entails_at (HΦ x))].
Qed.
Lemma wp_frame {A} (m : ST TRW A) (P : hprop) (Φ : A → hprop) : P ∗ wp m Φ ⊢ wp m (λ x, P ∗ Φ x).
Proof.
  split. intros h (h1 & h2 & Hd12 & Hj & HP & Hwp) rest s Hd Hw.
  assert (Hd' : heap_sep (heap_join h1 h2) rest) by (eapply heap_sep_le; [exact Hj|reflexivity|done]).
  apply heap_sep_join_l in Hd' as [Hd1 Hd2].
  destruct (Hwp (heap_join h1 rest) s) as (x & s' & h' & Hm & Hs & Hw' & HΦ).
  { apply heap_sep_join_r. by split. }
  { eapply world_le; [|exact Hw]. rw -heap_join_assoc. rw (heap_join_comm h2 h1) //. by apply heap_join_le. }
  apply heap_sep_join_r in Hs as [Hs1 Hs2]. exists x, s', (heap_join h1 h'). split_and!; [done| | |].
  - apply heap_sep_join_l. done.
  - rw (heap_join_comm h1 h') // heap_join_assoc //.
  - exists h1, h'. split_and!; done.
Qed.
Lemma wp_wand {A} (m : ST TRW A) (Φ Ψ : A → hprop) : wp m Φ ⊢ (∀ x, Φ x -∗ Ψ x) -∗ wp m Ψ.
Proof.
  iIntros "Hwp HΦ". iPoseProof (wp_frame m (∀ x, Φ x -∗ Ψ x)%I Φ with "[HΦ Hwp]") as "H"; [by iFrame|]. iApply (wp_mono with "H").
  iIntros (x) "[H Hx]". by iApply "H".
Qed.

Lemma wp_ret {A} (x : A) (Φ : A → hprop) : Φ x ⊢ wp (mret x) Φ.
Proof. split. intros h HΦ rest s Hd Hw. by exists x, s, h. Qed.
Lemma wp_bind {A B} (m : ST TRW A) (f : A → ST TRW B) (Φ : B → hprop) : wp m (λ x, wp (f x) Φ) ⊢ wp (m ≫= f) Φ.
Proof.
  split. intros h Hwp rest s Hd Hw. destruct (Hwp rest s Hd Hw) as (x & s' & h' & Hm & Hd' & Hw' & Hf).
  destruct (Hf rest s' Hd' Hw') as (y & s2 & h2 & Hy & ?). exists y, s2, h2. split; [|done].
  by rw (ST_bind_Ok _ _ _ _ _ Hm).
Qed.
Lemma wp_ext {A} (m m' : ST TRW A) (Φ : A → hprop) : (∀ s, m s = m' s) → wp m' Φ ⊢ wp m Φ.
Proof. intros E. split. intros h Hwp rest s Hd Hw. rw (E s). by apply Hwp. Qed.
Lemma wp_lift {A} (o : outcome A) (x : A) (Φ : A → hprop) : o = Ok x → Φ x ⊢ wp (lift_st o) Φ.
Proof. intros ->. split. intros h HΦ rest s Hd Hw. by exists x, s, h. Qed.
Lemma wp_lift_bind {A B} (o : outcome A) (x : A) (f : A → ST TRW B) (Φ : B → hprop) : o = Ok x → wp (f x) Φ ⊢ wp (lift_st o ≫= f) Φ.
Proof. iIntros (Ho) "H". iApply wp_bind. by iApply wp_lift. Qed.
Lemma wp_ret_bind {A B} (x : A) (f : A → ST TRW B) (Φ : B → hprop) : wp (f x) Φ ⊢ wp (mret x ≫= f) Φ.
Proof. iIntros "H". iApply wp_bind. by iApply wp_ret. Qed.

End Wp.

(** * The plans of an ordered column in the logic of entries

    Reading a node, writing and removing values and nodes
    ([BTreeTable::write_node_plan] and the like, src/src/btree/mod.rs) as rules
    about the entries at their addresses. *)

Section Plans.
Context `{!Uninit, !Codecs, !CodecLaws}.
Context (col : ColId) (comp : Compress) (w0 : LogWriter).
Hypothesis col_u8 : is_u8 col.
Abbreviation wp := (wp col comp w0 col_u8).
Abbreviation world := (world col comp w0).

(** One write: the entry at [a'] replaces what was taken from the heap. *)
Lemma written_world c s E n h rest a' v k : entries_repr col comp w0 c s (<[a' := v]> E) (n - k) →
  heap_sep h rest → cells rest ⊆ E → (∀ x, cells rest !! a' ≠ Some x) → (credits rest + k ≤ n)%nat →
  heap_sep (MkHeap {[a' := v]} 0) rest ∧
  entries_repr col comp w0 c s (cells (heap_join (MkHeap {[a' := v]} 0) rest)) (credits (heap_join (MkHeap {[a' := v]} 0) rest)).
Proof.
  intros Hr Hd Hsub Hfree Hk. split.
  - apply map_disjoint_singleton_l. destruct (cells rest !! a') as [x|] eqn:Hx; [|done]. by destruct (Hfree x).
  - eapply entries_weaken; [done| | |exact Hr]; cbn; [|lia].
    rw -insert_union_singleton_l. by apply insert_mono.
Qed.


Lemma world_get s h a v q : world s h → cells h !! a = Some v → q = Check_ NoHash ∨ q = Fetch None →
  get_value q a (tr_tables s.1) (tr_compression s.1) s.2 = Ok (Some (Address.size_tier a, v)).
Proof. intros Hw Ha Hq. by eapply entries_get. Qed.

Lemma wp_fetch_child i n a e child : child_at i n = Ok child → entry_index child = Some a →
  ∀ c, from_encoded e = Ok c → a ↦ e ⊢ wp (fetch_child_st i n) (λ o, ⌜o = Some c⌝ ∗ a ↦ e).
Proof.
  intros Hc Ha c He. split. intros h [Haddr Hcell] rest s Hd Hw. exists (Some c), s, h.
  split_and!; [|done|done|exists heap_none, h; split_and!; [apply heap_none_sep|by rw heap_none_join|done|done]].
  unfold fetch_child_st. destruct s as [r w]. unfold mbind, ST_bind, get_st, lift_st. f_equal. unfold fetch_child.
  rw Hc outcome_bind_Ok Ha. unfold get_encoded_entry.
  rw (world_get (r, w) (heap_join h rest) a e (Check_ NoHash) Hw); [|by apply lookup_union_Some_l|by left].
  by rw !outcome_bind_Ok He.
Qed.
Lemma wp_fetch_none i n child (Φ : option Node → hprop) : child_at i n = Ok child → entry_index child = None →
  Φ None ⊢ wp (fetch_child_st i n) Φ.
Proof.
  intros Hc Hn. split. intros h HΦ rest s Hd Hw. exists None, s, h. split_and!; [|done|done|done].
  unfold fetch_child_st. destruct s as [r w]. unfold mbind, ST_bind, get_st, lift_st, fetch_child. by rw Hc outcome_bind_Ok Hn.
Qed.

Lemma wp_fetch_root a e c : a ≠ NULL_ADDRESS → from_encoded e = Ok c →
  a ↦ e ⊢ wp (fetch_root_st a) (λ n, ⌜n = c⌝ ∗ a ↦ e).
Proof.
  intros Ha He. split. intros h [Haddr Hcell] rest s Hd Hw. exists c, s, h.
  split_and!; [|done|done|exists heap_none, h; split_and!; [apply heap_none_sep|by rw heap_none_join|done|done]].
  unfold fetch_root_st. destruct s as [r w]. unfold mbind, ST_bind, get_st, lift_st, fetch_root. f_equal.
  rw decide_False //. unfold get_encoded_entry.
  rw (world_get (r, w) (heap_join h rest) a e (Check_ NoHash) Hw); [|by apply lookup_union_Some_l|by left].
  by rw !outcome_bind_Ok.
Qed.

(** What is computed from one entry. *)
Lemma wp_read {A} a v (f : TablesRef → LogWriter → outcome A) x :
  (∀ r w, get_value (Fetch None) a (tr_tables r) (tr_compression r) w = Ok (Some (Address.size_tier a, v)) → f r w = Ok x) →
  a ↦ v ⊢ wp ('(r, w) ← get_st; lift_st (f r w)) (λ y, ⌜y = x⌝ ∗ a ↦ v).
Proof.
  intros Hf. split. intros h [Haddr Hcell] rest s Hd Hw. exists x, s, h.
  split_and!; [|done|done|exists heap_none, h; split_and!; [apply heap_none_sep|by rw heap_none_join|done|done]].
  destruct s as [r w]. unfold mbind, ST_bind, get_st, lift_st. f_equal. apply Hf.
  apply (world_get (r, w) (heap_join h rest) a v (Fetch None) Hw); [by apply lookup_union_Some_l|by right].
Qed.

(** ** Writing *)

Lemma joined_credit h rest a b k : heap_sep h rest → heap_le (heap_join a b) h → (k ≤ credits b)%nat →
  (credits rest + k ≤ credits (heap_join h rest))%nat.
Proof. intros _ [_ Hle] Hk. cbn in *. lia. Qed.

Section Compression.
Context (c : Compress).
Hypothesis Hc : writes_with comp c.
Abbreviation repr := (entries_repr col comp w0 c).

(** [write_new_value_plan] with compression [c], on the whole of the entries. *)
Lemma new_plan v s h1 h rest : (entry_cost v ≤ credits h1)%nat → heap_le h1 h → heap_sep h rest → can_write c v →
  repr s (cells (heap_join h rest)) (credits (heap_join h rest)) →
  ∃ a s' h', write_new_value_plan NoHash v s = (Ok a, s') ∧ heap_sep h' rest ∧
    repr s' (cells (heap_join h' rest)) (credits (heap_join h' rest)) ∧ (a ↦ v)%I h'.
Proof.
  intros Hk [_ Hle] Hd Hv Hr.
  destruct (entries_new col comp w0 col_u8 c s _ _ v Hr Hc Hv) as (a & s' & Hrun & Hfree & Ha & Hr'); [cbn -[entry_cost]; lia|].
  destruct (written_world c s' _ _ h rest a v _ Hr' Hd) as [Hd' Hw'].
  - cbn. by apply map_union_subseteq_r.
  - intros x Hx. cbn in Hfree. apply lookup_union_None in Hfree as [_ Hfree]. congruence.
  - cbn -[entry_cost]. lia.
  - exists a, s', (MkHeap {[a := v]} 0). split_and!; [done|done|done|]. split; [done|]. cbn. apply lookup_singleton_eq.
Qed.

Lemma replace_plan a v0 v s h1 h2 h rest : cells h1 !! a = Some v0 → (entry_cost v ≤ credits h2)%nat →
  heap_sep h1 h2 → heap_le (heap_join h1 h2) h → heap_sep h rest → can_write c v →
  repr s (cells (heap_join h rest)) (credits (heap_join h rest)) →
  ∃ res a' s' h', write_existing_value_plan NoHash a (Some v) s = (Ok res, s') ∧ heap_sep h' rest ∧
    repr s' (cells (heap_join h' rest)) (credits (heap_join h' rest)) ∧ (a' ↦ v)%I h' ∧
    default a (snd res) = a' ∧ ((length v ≤ 28)%nat → tier_of a = 0%nat → a' = a).
Proof.
  intros Ha Hk Hd12 [Hle1 Hle2] Hd Hv Hr.
  assert (Hah : cells h !! a = Some v0) by (eapply lookup_weaken; [|exact Hle1]; cbn; by apply lookup_union_Some_l).
  assert (Ha' : cells (heap_join h rest) !! a = Some v0) by (cbn; by apply lookup_union_Some_l).
  destruct (entries_replace col comp w0 col_u8 c s _ _ a v0 v Hr Hc Ha' Hv) as
    (res & a' & s' & Hrun & Hdef & Hres & Hfree & Haddr & Hr' & Hsmall); [cbn -[entry_cost] in *; lia|].
  assert (Hsub : cells rest ⊆ delete a (cells (heap_join h rest))).
  { apply map_subseteq_spec. intros b x Hb. rw lookup_delete_ne; [by apply lookup_union_Some_r|].
    intros <-. by eapply (map_disjoint_spec (cells h) (cells rest)). }
  destruct (written_world c s' _ _ h rest a' v _ Hr' Hd Hsub) as [Hd' Hw'].
  - intros x Hx. eapply lookup_weaken in Hx; [|exact Hsub]. congruence.
  - cbn -[entry_cost] in *. lia.
  - exists res, a', s', (MkHeap {[a' := v]} 0). split_and!; [done|done|done|split; [done|cbn; apply lookup_singleton_eq]|done|].
    intros Hlen Ht. rw -Hdef. by rw (Hsmall Hlen Ht).
Qed.

Lemma remove_plan a v0 s h rest : cells h !! a = Some v0 → heap_sep h rest →
  repr s (cells (heap_join h rest)) (credits (heap_join h rest)) →
  ∃ res s', write_existing_value_plan NoHash a None s = (Ok res, s') ∧
    repr s' (cells (heap_join heap_none rest)) (credits (heap_join heap_none rest)).
Proof.
  intros Ha Hd Hr. assert (Ha' : cells (heap_join h rest) !! a = Some v0) by (cbn; by apply lookup_union_Some_l).
  destruct (entries_remove col comp w0 col_u8 c s _ _ a v0 Hr Hc Ha') as (res & s' & Hrun & Hr').
  exists res, s'. split; [done|]. eapply entries_weaken; [done| | |exact Hr']; cbn; [|lia]. rw map_empty_union.
  apply map_subseteq_spec. intros b x Hb. rw lookup_delete_ne; [by apply lookup_union_Some_r|].
  intros <-. by eapply (map_disjoint_spec (cells h) (cells rest)).
Qed.

End Compression.
(** ** The rules *)

Lemma wp_new_value v : can_write comp v → credit (entry_cost v) ⊢ wp (write_new_value_plan NoHash v) (λ a, a ↦ v).
Proof.
  intros Hv. split. intros h Hk rest s Hd Hw.
  destruct (new_plan comp (or_introl eq_refl) v s h h rest Hk (reflexivity _) Hd Hv Hw) as (a & s' & h' & ? & ? & ? & ?).
  by exists a, s', h'.
Qed.

Lemma wp_replace_value a v0 v : can_write comp v →
  a ↦ v0 ∗ credit (entry_cost v) ⊢ wp (write_existing_value_plan NoHash a (Some v)) (λ res, default a res.2 ↦ v).
Proof.
  intros Hv. split. intros h (h1 & h2 & Hd12 & Hle & [_ Ha] & Hk) rest s Hd Hw.
  destruct (replace_plan comp (or_introl eq_refl) a v0 v s h1 h2 h rest Ha Hk Hd12 Hle Hd Hv Hw) as
    (res & a' & s' & h' & ? & ? & ? & ? & <- & _). by exists res, s', h'.
Qed.

(** A small entry of the first table stays where it is. *)
Lemma wp_replace_small a v0 v : can_write comp v → (length v ≤ 28)%nat → tier_of a = 0%nat →
  a ↦ v0 ∗ credit (entry_cost v) ⊢ wp (write_existing_value_plan NoHash a (Some v)) (λ _, a ↦ v).
Proof.
  intros Hv Hlen Ht. split. intros h (h1 & h2 & Hd12 & Hle & [_ Ha] & Hk) rest s Hd Hw.
  destruct (replace_plan comp (or_introl eq_refl) a v0 v s h1 h2 h rest Ha Hk Hd12 Hle Hd Hv Hw) as
    (res & a' & s' & h' & Hrun & Hd' & Hw' & Ha' & _ & E). rw (E Hlen Ht) in Ha'. by exists res, s', h'.
Qed.

Lemma wp_remove_value a v0 : a ↦ v0 ⊢ wp (write_existing_value_plan NoHash a None) (λ _, True).
Proof.
  split. intros h [_ Ha] rest s Hd Hw.
  destruct (remove_plan comp (or_introl eq_refl) a v0 s h rest Ha Hd Hw) as (res & s' & ? & ?).
  exists res, s', heap_none. split_and!; [done|apply heap_none_sep|done|done].
Qed.

Lemma wp_remove_node a v0 : a ↦ v0 ⊢ wp (write_plan_remove_node a) (λ _, True).
Proof. iIntros "Ha". iApply wp_bind. iApply (wp_mono with "[Ha]"); [|by iApply wp_remove_value]. iIntros (r) "_". by iApply wp_ret. Qed.

(** Nodes are written without compression. *)
Lemma node_can_write n : Z.of_nat (length (encode_node n)) < 2 ^ 32 → can_write Compress.NO_COMPRESSION (encode_node n).
Proof. intros Hl. split; [done|]. by eexists. Qed.

Lemma with_none_run {A} (m : ST TRW A) r w h x s' h' : world (r, w) h →
  m (set_tr_compression Compress.NO_COMPRESSION r, w) = (Ok x, s') →
  entries_repr col comp w0 Compress.NO_COMPRESSION s' (cells h') (credits h') →
  ∃ s2, with_compression Compress.NO_COMPRESSION m (r, w) = (Ok x, s2) ∧ world s2 h'.
Proof.
  intros Hw Hm Hr. destruct s' as [r' w']. exists (set_tr_compression comp r', w'). split.
  - unfold with_compression. rw Hm. pose proof (er_comp _ _ _ _ _ _ _ Hw) as E. cbn in E. by rw E.
  - by apply (entries_compression col comp w0 col_u8 Compress.NO_COMPRESSION comp (r', w')).
Qed.

Lemma wp_new_node n : node_changed n = true → Z.of_nat (length (encode_node n)) < 2 ^ 32 →
  credit (entry_cost (encode_node n)) ⊢ wp (write_node_plan n None) (λ o, ∃ a, ⌜o = Some a⌝ ∗ a ↦ encode_node n).
Proof.
  intros Hc Hl. split. intros h Hk rest s Hd Hw. destruct s as [r w].
  pose proof (entries_compression col comp w0 col_u8 _ Compress.NO_COMPRESSION _ _ _ Hw) as Hw2.
  destruct (new_plan Compress.NO_COMPRESSION (or_intror eq_refl) (encode_node n) _ h h rest Hk (reflexivity _) Hd
    (node_can_write n Hl) Hw2) as (a & s' & h' & Hrun & Hd' & Hw' & Ha).
  assert (Hm : (a ← write_new_value_plan NoHash (encode_node n); mret (Some a)) (set_tr_compression Compress.NO_COMPRESSION r, w) =
    (Ok (Some a), s')) by (by erewrite ST_bind_Ok by exact Hrun).
  destruct (with_none_run _ r w _ _ s' _ Hw Hm Hw') as (s2 & Hrun2 & Hw2').
  exists (Some a), s2, h'. unfold write_node_plan. rw Hc. split_and!; [done|done|done|].
  exists a, heap_none, h'. split_and!; [apply heap_none_sep|by rw heap_none_join|done|done].
Qed.

Lemma wp_node_at n a e : node_changed n = true → Z.of_nat (length (encode_node n)) < 2 ^ 32 →
  a ↦ e ∗ credit (entry_cost (encode_node n)) ⊢ wp (write_node_plan n (Some a)) (λ o, default a o ↦ encode_node n).
Proof.
  intros Hc Hl. split. intros h (h1 & h2 & Hd12 & Hle & [_ Ha] & Hk) rest s Hd Hw. destruct s as [r w].
  pose proof (entries_compression col comp w0 col_u8 _ Compress.NO_COMPRESSION _ _ _ Hw) as Hw2.
  destruct (replace_plan Compress.NO_COMPRESSION (or_intror eq_refl) a e (encode_node n) _ h1 h2 h rest Ha Hk Hd12 Hle Hd
    (node_can_write n Hl) Hw2) as ([x o] & a' & s' & h' & Hrun & Hd' & Hw' & Ha' & <- & _).
  assert (Hm : ('(_, new_index) ← write_existing_value_plan NoHash a (Some (encode_node n)); mret new_index)
    (set_tr_compression Compress.NO_COMPRESSION r, w) = (Ok o, s')) by (by erewrite ST_bind_Ok by exact Hrun).
  destruct (with_none_run _ r w _ _ s' _ Hw Hm Hw') as (s2 & Hrun2 & Hw2').
  exists o, s2, h'. unfold write_node_plan. rw Hc. split_and!; [done|done|done|done].
Qed.

End Plans.
