(* ===== verification/TreeRep.v ===== *)
(** * Trees of nodes in the logic of entries

    The entries of a tree of the ordered column as an assertion: a node at its
    address, the values of its separators and its children (src/src/btree/node.rs).
    The tree stands for the list of its pairs; the parts of a node on the left and
    on the right of a child stand for what is before and after. *)

From iris.proofmode Require Import proofmode.
From S2P Require Import Prelude.
From S2P Require Import Bytes.
From S2P Require Import Ids.
From S2P Require Import Log.
From S2P Require Import Table.
From S2P Require Import Compress.
From S2P Require Import Column.
From S2P Require Import ColumnTables.
From S2P Require Import ColumnLinks.
From S2P Require Import BTreeNode.
From S2P Require Import BTree.
From S2P Require Import KeyOrder.
From S2P Require Import BTreeCodec.
From S2P Require Import BTreeShape.
From S2P Require Import EntryStore.
From S2P Require Import EntryLogic.
From stdpp Require Import options.
#[local] Set Default Proof Using "Type*".

Abbreviation Pair := (bytes * bytes)%type.

(** Whether the nodes at a height have children. *)
Definition inner_at (h : nat) : bool := negb (h =? 0)%nat.

Section Rep.
Context (K : nat).

(** ** Parts of a node *)

(** A separator and its value; keys have at most [K] bytes. *)
Definition sepv (s : SeparatorInner) (p : Pair) : hprop :=
  ⌜sep_key s = p.1 ∧ (length p.1 ≤ K)%nat⌝ ∗ sep_value s ↦ p.2.

Section Parts.
Context (kid : list Address → list Pair → hprop).

(** The separators with the children on their right. *)
Fixpoint rpart (ss : list SeparatorInner) (as_ : list Address) (R : list Pair) : hprop :=
  match ss with
  | [] => ⌜as_ = [] ∧ R = []⌝
  | s :: ss => ∃ p la as' m R', ⌜as_ = la ++ as' ∧ R = p :: m ++ R'⌝ ∗ sepv s p ∗ kid la m ∗ rpart ss as' R'
  end.
(** The separators with the children on their left. *)
Fixpoint lpart (ss : list SeparatorInner) (as_ : list Address) (L : list Pair) : hprop :=
  match ss with
  | [] => ⌜as_ = [] ∧ L = []⌝
  | s :: ss => ∃ p la as' m L', ⌜as_ = la ++ as' ∧ L = m ++ p :: L'⌝ ∗ kid la m ∗ sepv s p ∗ lpart ss as' L'
  end.
Definition parts (ss : list SeparatorInner) (as_ : list Address) (l : list Pair) : hprop :=
  ∃ la as' m R, ⌜as_ = la ++ as' ∧ l = m ++ R⌝ ∗ kid la m ∗ rpart ss as' R.

Lemma rpart_nil as_ R : rpart [] as_ R ⊣⊢ ⌜as_ = [] ∧ R = []⌝.
Proof. done. Qed.
Lemma lpart_nil as_ L : lpart [] as_ L ⊣⊢ ⌜as_ = [] ∧ L = []⌝.
Proof. done. Qed.
Lemma lpart_cons s ss as_ L : lpart (s :: ss) as_ L ⊣⊢
  ∃ p la as' m L', ⌜as_ = la ++ as' ∧ L = m ++ p :: L'⌝ ∗ kid la m ∗ sepv s p ∗ lpart ss as' L'.
Proof. done. Qed.
Lemma parts_open ss as_ l : parts ss as_ l ⊣⊢ ∃ la as' m R, ⌜as_ = la ++ as' ∧ l = m ++ R⌝ ∗ kid la m ∗ rpart ss as' R.
Proof. done. Qed.
Lemma rpart_cons s ss as_ R : rpart (s :: ss) as_ R ⊣⊢ ∃ p l, ⌜R = p :: l⌝ ∗ sepv s p ∗ parts ss as_ l.
Proof.
  iSplit.
  - iIntros "(%p & %la & %as' & %m & %R' & [-> ->] & Hs & Hk & Hr)". iExists p, (m ++ R'). iFrame "Hs". iSplit; [done|].
    iExists la, as', m, R'. by iFrame.
  - iIntros "(%p & %l & -> & Hs & %la & %as' & %m & %R' & [-> ->] & Hk & Hr)". iExists p, la, as', m, R'. by iFrame.
Qed.
#[local] Typeclasses Opaque rpart lpart parts.

Lemma parts_nil as_ l : parts [] as_ l ⊣⊢ kid as_ l.
Proof.
  rw parts_open. iSplit.
  - iIntros "(%la & %as' & %m & %R & [-> ->] & Hk & Hr)". rw rpart_nil. iDestruct "Hr" as "[-> ->]". by rw !app_nil_r.
  - iIntros "Hk". iExists as_, [], l, []. rw !app_nil_r rpart_nil. by iFrame.
Qed.
Lemma parts_cons s ss as_ l : parts (s :: ss) as_ l ⊣⊢
  ∃ p la as' m l', ⌜as_ = la ++ as' ∧ l = m ++ p :: l'⌝ ∗ kid la m ∗ sepv s p ∗ parts ss as' l'.
Proof.
  rw parts_open. iSplit.
  - iIntros "(%la & %as' & %m & %R & [-> ->] & Hk & Hr)". rw rpart_cons. iDestruct "Hr" as "(%p & %l' & -> & Hs & Hp)".
    iExists p, la, as', m, l'. by iFrame.
  - iIntros "(%p & %la & %as' & %m & %l' & [-> ->] & Hk & Hs & Hp)". iExists la, as', m, (p :: l'). iFrame "Hk". iSplit; [done|].
    rw rpart_cons. iExists p, l'. by iFrame.
Qed.

(** A node around one of its children. *)
Lemma parts_focus ss1 : ∀ ss2 as_ l, parts (ss1 ++ ss2) as_ l ⊢
  ∃ as1 la as2 L m R, ⌜as_ = as1 ++ la ++ as2 ∧ l = L ++ m ++ R⌝ ∗ lpart ss1 as1 L ∗ kid la m ∗ rpart ss2 as2 R.
Proof.
  induction ss1 as [|s ss1 IH]; intros ss2 as_ l.
  - rw parts_open. iIntros "(%la & %as' & %m & %R & [-> ->] & Hk & Hr)". iExists [], la, as', [], m, R. rw lpart_nil. by iFrame.
  - cbn [app]. rw parts_cons. iIntros "(%p & %la & %as' & %m & %l' & [-> ->] & Hk & Hs & Hp)".
    iDestruct (IH with "Hp") as "(%as1 & %lb & %as2 & %L & %mb & %R & [-> ->] & Hl & Hkb & Hr)".
    iExists (la ++ as1), lb, as2, (m ++ p :: L), mb, R. iFrame "Hkb Hr". iSplit; [by rw -!app_assoc|].
    rw lpart_cons. iExists p, la, as1, m, L. by iFrame.
Qed.
Lemma focus_parts ss1 : ∀ ss2 as1 la as2 L m R,
  lpart ss1 as1 L ∗ kid la m ∗ rpart ss2 as2 R ⊢ parts (ss1 ++ ss2) (as1 ++ la ++ as2) (L ++ m ++ R).
Proof.
  induction ss1 as [|s ss1 IH]; intros ss2 as1 la as2 L m R.
  - rw lpart_nil parts_open. iIntros "([-> ->] & Hk & Hr)". iExists la, as2, m, R. by iFrame.
  - cbn [app]. rw parts_cons lpart_cons. iIntros "((%p & %lb & %as' & %mb & %L' & [-> ->] & Hkb & Hs & Hl) & Hk & Hr)".
    iExists p, lb, (as' ++ la ++ as2), mb, (L' ++ m ++ R). iFrame "Hkb Hs". iSplit; [by rw -!app_assoc|].
    iApply IH. iFrame.
Qed.

(** A node around one of its separators. *)
Lemma parts_split ss1 : ∀ s ss2 as_ l, parts (ss1 ++ s :: ss2) as_ l ⊢
  ∃ as1 as2 l1 p l2, ⌜as_ = as1 ++ as2 ∧ l = l1 ++ p :: l2⌝ ∗ parts ss1 as1 l1 ∗ sepv s p ∗ parts ss2 as2 l2.
Proof.
  induction ss1 as [|s1 ss1 IH]; intros s ss2 as_ l; cbn [app]; rw parts_cons.
  - iIntros "(%p & %la & %as' & %m & %l' & [-> ->] & Hk & Hs & Hp)". iExists la, as', m, p, l'. rw parts_nil. by iFrame.
  - iIntros "(%p & %la & %as' & %m & %l' & [-> ->] & Hk & Hs & Hp)".
    iDestruct (IH with "Hp") as "(%as1 & %as2 & %l1 & %q & %l2 & [-> ->] & Hp1 & Hs' & Hp2)".
    iExists (la ++ as1), as2, (m ++ p :: l1), q, l2. rw parts_cons. iFrame "Hs' Hp2". iSplit; [by rw -!app_assoc|].
    iExists p, la, as1, m, l1. by iFrame.
Qed.
Lemma split_parts ss1 : ∀ s ss2 as1 as2 l1 p l2,
  parts ss1 as1 l1 ∗ sepv s p ∗ parts ss2 as2 l2 ⊢ parts (ss1 ++ s :: ss2) (as1 ++ as2) (l1 ++ p :: l2).
Proof.
  induction ss1 as [|s1 ss1 IH]; intros s ss2 as1 as2 l1 p l2; cbn [app]; rw parts_cons.
  - rw parts_nil. iIntros "(Hk & Hs & Hp)". iExists p, as1, as2, l1, l2. by iFrame.
  - rw parts_cons. iIntros "((%q & %la & %as' & %m & %l' & [-> ->] & Hk & Hs & Hp) & Hs' & Hp2)".
    iExists q, la, (as' ++ as2), m, (l' ++ p :: l2). iFrame "Hk Hs". iSplit; [by rw -!app_assoc|]. iApply IH. iFrame.
Qed.

(** The last separator of a left part, with the child on its left. *)
Lemma lpart_snoc ss : ∀ s as_ L, lpart (ss ++ [s]) as_ L ⊢
  ∃ as1 la L1 m p, ⌜as_ = as1 ++ la ∧ L = L1 ++ m ++ [p]⌝ ∗ lpart ss as1 L1 ∗ kid la m ∗ sepv s p.
Proof.
  induction ss as [|s1 ss IH]; intros s as_ L; cbn [app]; rw lpart_cons;
    iIntros "(%p & %la & %as' & %m & %L' & [-> ->] & Hk & Hs & Hl)".
  - rw lpart_nil. iDestruct "Hl" as "[-> ->]". iExists [], la, [], m, p. rw lpart_nil app_nil_r. by iFrame.
  - iDestruct (IH with "Hl") as "(%as1 & %lb & %L1 & %mb & %q & [-> ->] & Hl & Hkb & Hsq)".
    iExists (la ++ as1), lb, (m ++ p :: L1), mb, q. iFrame "Hkb Hsq". iSplit; [by rw -!app_assoc|].
    rw lpart_cons. iExists p, la, as1, m, L1. by iFrame.
Qed.
Lemma snoc_lpart ss : ∀ s as1 la L1 m p,
  lpart ss as1 L1 ∗ kid la m ∗ sepv s p ⊢ lpart (ss ++ [s]) (as1 ++ la) (L1 ++ m ++ [p]).
Proof.
  induction ss as [|s1 ss IH]; intros s as1 la L1 m p; cbn [app]; rw lpart_cons.
  - rw lpart_nil. iIntros "([-> ->] & Hk & Hs)". iExists p, la, [], m, []. rw lpart_nil app_nil_r. by iFrame.
  - rw lpart_cons. iIntros "((%q & %lb & %as' & %mb & %L' & [-> ->] & Hkb & Hsq & Hl) & Hk & Hs)".
    iExists q, lb, (as' ++ la), mb, (L' ++ m ++ [p]). iFrame "Hkb Hsq". iSplit; [by rw -!app_assoc|]. iApply IH. iFrame.
Qed.

(** The keys next to a child. *)
Lemma sepv_key s p : sepv s p ⊢ ⌜p.1 = sep_key s⌝.
Proof. iIntros "[[-> _] _]". done. Qed.
Lemma rpart_head ss as_ R : rpart ss as_ R ⊢
  ⌜match head ss with Some s => ∃ p R', R = p :: R' ∧ p.1 = sep_key s | None => R = [] end⌝.
Proof.
  destruct ss as [|s ss]; [rw rpart_nil; by iIntros "[-> ->]"|]. rw rpart_cons. iIntros "(%p & %l & -> & Hs & _)".
  iDestruct (sepv_key with "Hs") as %E. iPureIntro. by exists p, l.
Qed.
Lemma lpart_last ss as_ L : lpart ss as_ L ⊢
  ⌜match last ss with Some s => ∃ p L', L = L' ++ [p] ∧ p.1 = sep_key s | None => L = [] end⌝.
Proof.
  destruct ss as [|s ss _] using rev_ind; [rw lpart_nil; by iIntros "[-> ->]"|]. rw last_snoc lpart_snoc.
  iIntros "(%as1 & %la & %L1 & %m & %p & [-> ->] & _ & _ & Hs)".
  iDestruct (sepv_key with "Hs") as %E. iPureIntro. exists p, (L1 ++ m). by rw -app_assoc.
Qed.

End Parts.
#[local] Typeclasses Opaque rpart lpart parts.

(** ** Subtrees *)

(** The child of a node of height [h]: none of a leaf. *)
Fixpoint kid (h : nat) (la : list Address) (m : list Pair) : hprop :=
  match h with
  | O => ⌜la = [] ∧ m = []⌝
  | S h => ∃ a ss as_, ⌜la = [a] ∧ (4 ≤ length ss ≤ ORDER)%nat⌝ ∗ a ↦ encoded (inner_at h) ss as_ ∗ parts (kid h) ss as_ m
  end.

Abbreviation content h := (parts (kid h)).
Abbreviation left_part h := (lpart (kid h)).
Abbreviation right_part h := (rpart (kid h)).

(** A node at an address with [k] separators. *)
Definition node_at (h : nat) (a : Address) (k : nat) (l : list Pair) : hprop :=
  ∃ ss as_, ⌜length ss = k ∧ (k ≤ ORDER)%nat⌝ ∗ a ↦ encoded (inner_at h) ss as_ ∗ content h ss as_ l.

Lemma kid_leaf la m : kid 0 la m ⊣⊢ ⌜la = [] ∧ m = []⌝.
Proof. done. Qed.
Lemma kid_node h la m : kid (S h) la m ⊣⊢ ∃ a k, ⌜la = [a] ∧ (4 ≤ k)%nat⌝ ∗ node_at h a k m.
Proof.
  iSplit.
  - iIntros "(%a & %ss & %as_ & [-> [%H1 %H2]] & Ha & Hp)". iExists a, (length ss). iSplit; [done|].
    iExists ss, as_. by iFrame.
  - iIntros "(%a & %k & [-> %H1] & %ss & %as_ & [%H2 %H3] & Ha & Hp)". subst k. iExists a, ss, as_. by iFrame.
Qed.
#[local] Typeclasses Opaque kid.

(** ** The number of children *)

Definition kids_len (h : nat) (n : nat) (as_ : list Address) : Prop := if inner_at h then length as_ = n else as_ = [].

Lemma kids_len_nil h : kids_len h 0 [].
Proof. unfold kids_len. by destruct (inner_at h). Qed.
Lemma kid_len h la m : kid h la m ⊢ ⌜kids_len h 1 la⌝.
Proof. destruct h as [|h]; [rw kid_leaf; by iIntros "[-> ->]"|]. rw kid_node. by iIntros "(%a & %k & [-> _] & _)". Qed.
Lemma kids_len_app h n m as1 as2 : kids_len h n as1 → kids_len h m as2 → kids_len h (n + m) (as1 ++ as2).
Proof. unfold kids_len. destruct (inner_at h); [rw length_app; lia|]. by intros -> ->. Qed.
Lemma lpart_len h ss : ∀ as_ R, left_part h ss as_ R ⊢ ⌜kids_len h (length ss) as_⌝.
Proof.
  induction ss as [|s ss IH]; intros as_ R.
  - rw lpart_nil. iIntros "[-> _]". iPureIntro. apply kids_len_nil.
  - rw lpart_cons. iIntros "(%p & %la & %as' & %m & %R' & [-> ->] & Hk & _ & Hr)". iDestruct (kid_len with "Hk") as %H1.
    iDestruct (IH with "Hr") as %H2. iPureIntro. by apply (kids_len_app h 1).
Qed.
Lemma content_len h ss : ∀ as_ l, content h ss as_ l ⊢ ⌜kids_len h (S (length ss)) as_⌝.
Proof.
  induction ss as [|s ss IH]; intros as_ l.
  - rw parts_nil. apply kid_len.
  - rw parts_cons. iIntros "(%p & %la & %as' & %m & %l' & [-> ->] & Hk & _ & Hp)". iDestruct (kid_len with "Hk") as %H1.
    iDestruct (IH with "Hp") as %H2. iPureIntro. by apply (kids_len_app h 1).
Qed.
Lemma rpart_len h ss as_ R : right_part h ss as_ R ⊢ ⌜kids_len h (length ss) as_⌝.
Proof.
  destruct ss as [|s ss].
  - rw rpart_nil. iIntros "[-> _]". iPureIntro. apply kids_len_nil.
  - rw rpart_cons. iIntros "(%p & %l & -> & _ & Hp)". by iApply content_len.
Qed.

(** The separators and values of a leaf. *)
Lemma content_leaf ss : ∀ as_ l, content 0 ss as_ l ⊣⊢ ⌜as_ = []⌝ ∗ [∗ list] s;p ∈ ss;l, sepv s p.
Proof.
  induction ss as [|s ss IH]; intros as_ l.
  - rw parts_nil kid_leaf. destruct l as [|p l]; cbn; iSplit; by iIntros "[% %]".
  - rw parts_cons. iSplit.
    + iIntros "(%p & %la & %as' & %m & %l' & [-> ->] & Hk & Hs & Hp)". rw IH kid_leaf.
      iDestruct "Hk" as "[-> ->]". iDestruct "Hp" as "[-> Hp]". by iFrame.
    + iIntros "[-> Hl]". destruct l as [|p l]; [done|]. iDestruct "Hl" as "[Hs Hl]". iExists p, [], [], [], l.
      rw IH kid_leaf. by iFrame.
Qed.

(** ** Facts about the content of a node *)

Lemma entry_address_ok a : entry_address a → address_ok a.
Proof. unfold entry_address, valid_address, is_u64, address_ok. lia. Qed.

Lemma sepv_ok s p : Z.of_nat K < 2 ^ 32 → sepv s p ⊢ ⌜sep_ok s ∧ (length (sep_key s) ≤ K)%nat⌝.
Proof.
  iIntros (HK) "[[%E %Hl] Ha]". iDestruct (cell_address with "Ha") as %Ha. iPureIntro. rw E. split; [|done].
  split; [rw E; lia|]. by apply entry_address_ok.
Qed.
Lemma kid_ok h la m : kid h la m ⊢ ⌜Forall address_ok la⌝.
Proof.
  destruct h as [|h]; [rw kid_leaf; by iIntros "[-> ->]"|]. rw kid_node. iIntros "(%a & %k & [-> _] & %ss & %as_ & _ & Ha & _)".
  iDestruct (cell_address with "Ha") as %Ha. iPureIntro. apply Forall_singleton. by apply entry_address_ok.
Qed.
Lemma content_ok h ss : Z.of_nat K < 2 ^ 32 → ∀ as_ l, content h ss as_ l ⊢
  ⌜Forall (fun s => sep_ok s ∧ (length (sep_key s) ≤ K)%nat) ss ∧ Forall address_ok as_⌝.
Proof.
  intros HK. induction ss as [|s ss IH]; intros as_ l.
  - rw parts_nil. iIntros "Hk". iDestruct (kid_ok with "Hk") as %H. iPureIntro. by split.
  - rw parts_cons. iIntros "(%p & %la & %as' & %m & %l' & [-> ->] & Hk & Hs & Hp)".
    iDestruct (kid_ok with "Hk") as %H1. iDestruct (sepv_ok with "Hs") as %H2; [done|]. iDestruct (IH with "Hp") as %[H3 H4].
    iPureIntro. rw Forall_cons Forall_app. done.
Qed.

(** Every pair has an entry of its own; a tree of height [h] has [4 ^ h] pairs. *)
Lemma content_ge h : ∀ ss as_ l, content h ss as_ l ⊢ entries_ge (length l) ∗ ⌜((S (length ss)) * (4 ^ h) ≤ S (length l))%nat⌝.
Proof.
  induction h as [|h IHh].
  - intros ss as_ l. rw content_leaf. iIntros "[_ Hl]". iDestruct (big_sepL2_length with "Hl") as %Hlen. iSplit; [|iPureIntro; cbn; lia].
    clear Hlen. iInduction l as [|p l] forall (ss). { iApply entries_ge_none. }
    destruct ss as [|s ss]; [done|]. iDestruct "Hl" as "[[_ Ha] Hl]". iDestruct ("IHl" with "Hl") as "Hl".
    iApply (entries_ge_sep 1). iFrame. by iApply entries_ge_one.
  - assert (Hkid : ∀ la m, kid (S h) la m ⊢ entries_ge (length m) ∗ ⌜(4 ^ S h ≤ S (length m))%nat⌝).
    { intros la m. rw kid_node. iIntros "(%a & %k & [-> %Hk] & %ss & %as_ & [%H2 _] & _ & Hp)".
      rw IHh. iDestruct "Hp" as "[$ %Hp]". iPureIntro. rw H2 in Hp. rw Nat.pow_succ_r'. nia. }
    induction ss as [|s ss IH]; intros as_ l.
    + rw parts_nil Hkid. iIntros "[$ %H]". iPureIntro. cbn [length]. lia.
    + rw parts_cons. iIntros "(%p & %la & %as' & %m & %l' & [-> ->] & Hk & [_ Ha] & Hp)". rw Hkid IH.
      iDestruct "Hk" as "[Hk %H1]". iDestruct "Hp" as "[Hp %H2]". iSplit.
      * rw length_app. iApply entries_ge_sep. iFrame. iApply (entries_ge_sep 1). iFrame. by iApply entries_ge_one.
      * iPureIntro. rw length_app. cbn [length] in *. lia.
Qed.
Lemma content_height h ss as_ l : (0 < length ss)%nat → content h ss as_ l ⊢ ⌜(h < 32)%nat⌝.
Proof.
  iIntros (Hss) "Hp". rw content_ge. iDestruct "Hp" as "[Hl %Hp]". iDestruct (entries_ge_bound with "Hl") as %Hb. iPureIntro.
  destruct (Nat.lt_ge_cases h 32) as [|Hh]; [done|]. exfalso.
  assert (H4 : (4 ^ 32 ≤ 4 ^ h)%nat) by (apply Nat.pow_le_mono_r; lia).
  assert (H5 : Z.of_nat (4 ^ h) = 4 ^ Z.of_nat h) by (by rw Nat2Z.inj_pow).
  assert (H6 : 4 ^ 32 ≤ 4 ^ Z.of_nat h) by (apply Z.pow_le_mono_r; lia).
  assert (H7 : 2 * Z.of_nat (4 ^ h) ≤ Z.of_nat (S (length l))) by nia. lia.
Qed.

End Rep.

#[global] Typeclasses Opaque rpart lpart parts kid.
#[global] Arguments rpart : simpl never.
#[global] Arguments lpart : simpl never.
#[global] Arguments kid : simpl never.

(** * Reading and writing the nodes of a tree

    Children are read from their entries and written back when they changed
    ([Node::fetch_child], [Node::write_child], src/src/btree/node.rs): a node in
    memory with its content and the entry that it was read from. *)

(** The room that the write of a node takes at most. *)
Definition node_cost (K : nat) : nat := (31 + node_bytes K)%nat.

Section Nodes.
Context `{UI : !Uninit, CD : !Codecs, CL : !CodecLaws}.
Context (col : ColId) (comp : Compress) (w0 : LogWriter).
Hypothesis col_u8 : is_u8 col.
Context (K : nat).
Hypothesis K_small : Z.of_nat (node_bytes K) < 2 ^ 32.
Abbreviation wp := (wp col comp w0 col_u8).
Abbreviation kid := (kid K).
Abbreviation content h := (parts K (kid h)).
Abbreviation left_part h := (lpart K (kid h)).
Abbreviation right_part h := (rpart K (kid h)).
Abbreviation node_at := (node_at K).

(** A node in memory; [a] is the address of its entry. *)
Definition loaded (h : nat) (n : Node) (a : Address) ss as_ (l : list Pair) : hprop :=
  ∃ e, ⌜mem (inner_at h) n ss as_ ∧ (changed n = false → e = encoded (inner_at h) ss as_)⌝ ∗ a ↦ e ∗ content h ss as_ l.

Lemma K_bound : Z.of_nat K < 2 ^ 32.
Proof. unfold node_bytes in K_small. lia. Qed.

Lemma content_keys h ss as_ l : content h ss as_ l ⊢ ⌜Forall (fun s => (length (sep_key s) ≤ K)%nat) ss⌝.
Proof.
  iIntros "Hp". iDestruct (content_ok with "Hp") as %[Hok _]; [exact K_bound|]. iPureIntro. eapply Forall_impl; [exact Hok|]. by intros s [].
Qed.
Lemma content_encode h n ss as_ l : mem (inner_at h) n ss as_ → content h ss as_ l ⊢
  ⌜Z.of_nat (length (encode_node n)) < 2 ^ 32 ∧ (entry_cost (encode_node n) ≤ node_cost K)%nat⌝.
Proof.
  iIntros (Hm) "Hp". iDestruct (content_keys with "Hp") as %Hk. iPureIntro. pose proof (encode_mem_length K _ _ _ _ Hm Hk) as Hl.
  unfold entry_cost, node_cost. lia.
Qed.

(** A node that did not change is as its entry. *)
Lemma loaded_node h n a ss as_ l : changed n = false → loaded h n a ss as_ l ⊢ node_at h a (length ss) l.
Proof.
  iIntros (Hc) "(%e & [%Hm %He] & Ha & Hp)". rw (He Hc). iExists ss, as_. iFrame. iPureIntro. split; [done|]. apply (mem_le _ _ _ _ Hm).
Qed.

Lemma node_read h ss as_ l : (length ss ≤ ORDER)%nat → content h ss as_ l ⊢
  ⌜from_encoded (encoded (inner_at h) ss as_) = Ok (read_form (inner_at h) ss as_) ∧
   mem (inner_at h) (read_form (inner_at h) ss as_) ss as_⌝.
Proof.
  iIntros (Hle) "Hp". iDestruct (content_ok with "Hp") as %[H1 H2]; [exact K_bound|].
  iDestruct (content_len with "Hp") as %Hlen. unfold kids_len in Hlen. iPureIntro. split.
  - apply read_encoded; [done|done| |done]. eapply Forall_impl; [exact H1|]. by intros s [].
  - by apply read_form_mem.
Qed.

Lemma wp_fetch h a k l i n c : child_at i n = Ok c → entry_index c = Some a → node_at h a k l ⊢
  wp (fetch_child_st i n) (λ o, ∃ c ss as_, ⌜o = Some c ∧ length ss = k ∧ changed c = false⌝ ∗ loaded h c a ss as_ l).
Proof.
  iIntros (Hc Ha) "(%ss & %as_ & [<- %Hle] & Ha & Hp)". iDestruct (node_read with "Hp") as %[Hr Hm]; [done|].
  iApply (wp_wand with "[Ha]"); [by iApply (wp_fetch_child with "Ha")|]. iIntros (o) "[-> Ha]".
  iExists _, ss, as_. iSplit; [done|]. iExists _. by iFrame.
Qed.

(** ** Writing a child *)

(** The parent is given by its arrays: a separator may be missing. *)
Lemma wp_write_child h n L C i c a ss as_ l : arr n L C → C !! i = Some (Some a) →
  loaded h c a ss as_ l ∗ credit (node_cost K) ⊢ wp (write_child i c n) (λ n', ∃ a',
    ⌜arr n' L (<[i := Some a']> C) ∧ (changed n = true → changed n' = true) ∧ (changed n' = false → a' = a)⌝ ∗
    node_at h a' (length ss) l).
Proof.
  iIntros (Ha Hi) "[Hl Hk]". unfold write_child. destruct (changed c) eqn:Hc.
  - iDestruct "Hl" as "(%e & [%Hm _] & Ha & Hp)". iDestruct (content_encode with "Hp") as %[H1 H2]; [done|].
    destruct (child_at_arr _ _ _ _ _ Ha Hi) as (c0 & Hc0 & E0). iApply wp_lift_bind; [exact Hc0|]. rw E0.
    iApply wp_bind. iApply (wp_wand with "[Ha Hk]").
    { iApply wp_node_at; [unfold node_changed; by rw Hc|done|]. iFrame. by iApply (credit_le with "Hk"). }
    iIntros (o) "Ha". rw (encode_mem _ _ _ _ Hm). destruct o as [b|]; cbn [default].
    + destruct (put_child_arr (set_changed n) L C i (MkChild (moved c0) (Some b))) as (n' & Hp & Hn' & Hcn);
        [by apply arr_set_changed|by eexists|].
      iApply wp_lift; [exact Hp|]. iExists b. iSplit; [iPureIntro; rw Hcn; by split_and!|]. iExists ss, as_. iFrame.
      iPureIntro. split; [done|]. apply (mem_le _ _ _ _ Hm).
    + iApply wp_ret. iExists a. iSplit; [iPureIntro; rw list_insert_id //|]. iExists ss, as_. iFrame.
      iPureIntro. split; [done|]. apply (mem_le _ _ _ _ Hm).
  - iApply wp_ret. iExists a. iSplit; [iPureIntro; rw list_insert_id //|]. by iApply loaded_node.
Qed.

(** A place without an entry gets a new one: the right one of two merged nodes. *)
Lemma wp_write_new_child n L C i c : arr n L C → C !! i = Some None → changed c = true →
  (length (encode_node c) ≤ node_bytes K)%nat →
  credit (node_cost K) ⊢ wp (write_child i c n) (λ n', ∃ b, ⌜arr n' L (<[i := Some b]> C) ∧ changed n' = true⌝).
Proof.
  iIntros (Ha Hi Hc Hl) "Hk". unfold write_child. rw Hc. destruct (child_at_arr _ _ _ _ _ Ha Hi) as (c0 & Hc0 & E0).
  iApply wp_lift_bind; [exact Hc0|]. rw E0. iApply wp_bind. iApply (wp_wand with "[Hk]").
  { iApply wp_new_node; [unfold node_changed; by rw Hc|lia|]. iApply (credit_le with "Hk"). unfold entry_cost, node_cost. lia. }
  iIntros (o) "(%b & -> & _)".
  destruct (put_child_arr (set_changed n) L C i (MkChild (moved c0) (Some b))) as (n' & Hp & Hn' & Hcn);
    [by apply arr_set_changed|by eexists|].
  iApply wp_lift; [exact Hp|]. iExists b. by rw Hcn.
Qed.

(** A child of a node that is complete. *)
Lemma wp_write_kid h n ss as1 a as2 c css cas l : mem true n ss (as1 ++ a :: as2) →
  loaded h c a css cas l ∗ credit (node_cost K) ⊢ wp (write_child (length as1) c n) (λ n', ∃ a',
    ⌜mem true n' ss (as1 ++ a' :: as2) ∧ (changed n = true → changed n' = true) ∧ (changed n' = false → a' = a)⌝ ∗
    node_at h a' (length css) l).
Proof.
  iIntros ([(C & Ha & Hk) Hle Has]) "H". destruct (kids_true _ _ _ _ Hk) as (Hi & _ & Hset).
  iApply (wp_wand with "[H]"); [by iApply (wp_write_child with "H")|]. iIntros (n') "(%a' & [%Ha' [%H1 %H2]] & $)".
  iPureIntro. split_and!; [|done|done]. split; [by eexists|done|]. revert Has. rw !length_app //.
Qed.
Lemma wp_fetch_kid h n ss as1 a as2 k l : mem true n ss (as1 ++ a :: as2) → node_at h a k l ⊢
  wp (fetch_child_st (length as1) n) (λ o, ∃ c ss as_, ⌜o = Some c ∧ length ss = k ∧ changed c = false⌝ ∗ loaded h c a ss as_ l).
Proof.
  iIntros (Hm) "Ha". destruct (child_at_mem n ss (as1 ++ a :: as2) (length as1) a Hm) as (c & Hc & E); [by apply lookup_mid|].
  by iApply (wp_fetch with "Ha").
Qed.

(** ** Children of a node *)

Lemma node_kid h a k l : (4 ≤ k)%nat → node_at h a k l ⊢ kid (S h) [a] l.
Proof. iIntros (Hk) "Ha". rw kid_node. iExists a, k. by iFrame. Qed.

Lemma close_kid h ss1 ss2 as1 a as2 L m R k : (4 ≤ k)%nat →
  left_part (S h) ss1 as1 L ∗ node_at h a k m ∗ right_part (S h) ss2 as2 R ⊢ content (S h) (ss1 ++ ss2) (as1 ++ a :: as2) (L ++ m ++ R).
Proof.
  iIntros (Hk) "(Hl & Ha & Hr)". iApply (focus_parts K (kid (S h)) ss1 ss2 as1 [a] as2). iFrame. by iApply node_kid.
Qed.
Lemma close_siblings h ss1 s ss2 as1 al ar as2 L ml p mr R kl kr : (4 ≤ kl)%nat → (4 ≤ kr)%nat →
  left_part (S h) ss1 as1 L ∗ node_at h al kl ml ∗ sepv K s p ∗ node_at h ar kr mr ∗ right_part (S h) ss2 as2 R ⊢
  content (S h) (ss1 ++ s :: ss2) (as1 ++ al :: ar :: as2) (L ++ (ml ++ p :: mr) ++ R).
Proof.
  iIntros (H1 H2) "(Hl & Hal & Hs & Har & Hr)". rw -app_assoc /=. iApply close_kid; [exact H1|]. iFrame "Hl Hal".
  rw rpart_cons. iExists p, (mr ++ R). iSplit; [done|]. iFrame "Hs". rw parts_open. iExists [ar], as2, mr, R. iFrame.
  iSplit; [done|]. by iApply node_kid.
Qed.

End Nodes.
