(* ===== verification/TreeOps.v ===== *)
(** * Operations on one node of a tree

    A separator goes into a node or out of it, the last pair of a subtree is taken
    out, a full node is split ([Node::insert_node], [Node::remove_last] and the
    parts of [Node::insert] and [Node::remove], src/src/btree/node.rs): what they
    do to the pairs of the tree. *)

From iris.proofmode Require Import proofmode.
From S2P Require Import Prelude.
From S2P Require Import Bytes.
From S2P Require Import Ids.
From S2P Require Import Log.
From S2P Require Import Table.
From S2P Require Import Compress.
From S2P Require Import Column.
From S2P Require Import ColumnTables.
From S2P Require Import BTreeNode.
From S2P Require Import BTree.
From S2P Require Import BTreeCodec.
From S2P Require Import BTreeShape.
From S2P Require Import EntryStore.
From S2P Require Import EntryLogic.
From S2P Require Import TreeRep.
From stdpp Require Import options.
#[local] Set Default Proof Using "Type*".

(** * Rebalancing

    A child with three separators gets one of a sibling, or is merged with it
    ([Node::rebalance], src/src/btree/node.rs); the pairs of the node stay. *)

(** The next step of a program that is a pure computation. *)
Ltac wp_pure H := iApply (wp_lift_bind _ _ _ _ _ _ _ _ H); cbv beta iota.

Lemma can_give_mem inner c ss as_ : mem inner c ss as_ → can_give (Some c) = Ok (bool_decide (4 < length ss)%nat).
Proof. intros Hm. unfold can_give. apply (has_separator_mem _ _ _ _ _ Hm). unfold ORDER. cbn. lia. Qed.

Section Balance.
Context `{UI : !Uninit, CD : !Codecs, CL : !CodecLaws}.
Context (col : ColId) (comp : Compress) (w0 : LogWriter).
Hypothesis col_u8 : is_u8 col.
Context (K : nat).
Hypothesis K_small : Z.of_nat (node_bytes K) < 2 ^ 32.
Abbreviation wp := (wp col comp w0 col_u8).
Abbreviation kid := (kid K).
Abbreviation content h := (parts K (kid h)).
Abbreviation left_part h := (lpart K (kid h)).
Abbreviation right_part h := (rpart K (kid h)).
Abbreviation node_at := (node_at K).
Abbreviation loaded := (loaded K).

(** The child that moves with a separator, as the code takes it. *)
Lemma wp_take (inner : bool) i n o n' (Φ : option Child * Node → hprop) : take_child inner i n = Ok (o, n') → Φ (o, n') ⊢
  wp (if inner then '(c, n) ← lift_st (remove_child i n); mret (Some c, n) else mret (None, n)) Φ.
Proof.
  iIntros (Ht) "H". destruct inner; cbn [take_child] in Ht.
  - apply outcome_bind_inv in Ht as ([c n1] & Hr & [= <- <-]). wp_pure Hr. by iApply wp_ret.
  - injection Ht as <- <-. by iApply wp_ret.
Qed.

(** The kid that moves is in the list of the children. *)
Lemma kid_moved h la m : kid h la m ⊢ ⌜if inner_at h then length la = 1%nat else la = []⌝.
Proof. iIntros "H". by iDestruct (kid_len with "H") as %Hl. Qed.

Lemma wp_balance_left h n ss1 s ss2 as1 al ar as2 l_node lss las ll p kr rl :
  mem true n (ss1 ++ s :: ss2) (as1 ++ al :: ar :: as2) → length as1 = length ss1 → (5 ≤ length lss)%nat → (kr < ORDER)%nat →
  loaded h l_node al lss las ll ∗ sepv K s p ∗ node_at h ar kr rl ∗ credit (node_cost K + node_cost K) ⊢
  wp (balance_from_left (inner_at h) (S (length ss1)) l_node n) (λ n', ∃ s' p' al' ar' ll' rl',
    ⌜mem true n' (ss1 ++ s' :: ss2) (as1 ++ al' :: ar' :: as2) ∧ changed n' = true ∧ ll ++ p :: rl = ll' ++ p' :: rl'⌝ ∗
    sepv K s' p' ∗ node_at h al' (length lss - 1) ll' ∗ node_at h ar' (S kr) rl').
Proof.
  iIntros (Hm Has Hlss Hkr) "((%e & [%Hml _] & Hal & Hpl) & Hs & Har & Hk)". rw credit_split. iDestruct "Hk" as "[Hk1 Hk2]".
  destruct lss as [|sl lss _] using rev_ind; [cbn in Hlss; lia|].
  iDestruct (parts_split with "Hpl") as "(%las1 & %la & %l1 & %q & %m & [-> ->] & Hpl & Hsl & Hm)". rw parts_nil.
  iDestruct (kid_moved with "Hm") as %Hla.
  destruct (take_last_ok _ _ _ _ _ _ Hml Hla) as (o & n1 & sp & l2 & Ht & Ho & Hr & Esp & Hml2 & Hcl2).
  unfold balance_from_left. replace (S (length ss1) - 1)%nat with (length ss1) by lia.
  assert (Hlast : unwrap (last_separator_index l_node) = Ok (length lss)).
  { rw (last_separator_mem _ _ _ _ Hml) length_app Nat.add_sub. by destruct lss. }
  wp_pure Hlast. iApply wp_bind. iApply (wp_take _ _ _ _ _ _ Ht). wp_pure Hr.
  destruct (replace_mid _ _ _ _ _ _ Hm) as (spn & n2 & Hrn & Espn & Hset). wp_pure Hrn.
  destruct (Hset sp sl Esp) as (n3 & Hsn & Hm3 & Hc3). wp_pure Hsn.
  iApply wp_bind. iApply (wp_wand with "[Har]").
  { replace (S (length ss1)) with (length (as1 ++ [al])) by (rw length_app Has /=; lia).
    iApply (wp_fetch_kid with "Har"); [done|]. rw -app_assoc. exact Hm3. }
  iIntros (ofr) "(%rn & %rss & %ras & (-> & <- & _) & %er & [%Hmr _] & Har & Hpr)".
  wp_pure (eq_refl (Ok rn) : unwrap (Some rn) = Ok rn).
  destruct (prepend_ok _ _ _ _ _ _ _ _ Hmr Hkr Ho Espn) as (r1 & r2 & r3 & H1 & H2 & H3 & Hmr3 & Hcr3).
  wp_pure H1. wp_pure H2. wp_pure H3.
  iApply wp_bind. iApply (wp_wand with "[Hal Hpl Hk1]").
  { rw -Has. iApply (wp_write_kid col comp w0 col_u8 K K_small h n3 _ as1 al (ar :: as2) l2 lss las1 l1 Hm3). iFrame "Hk1". iExists e. iFrame. iPureIntro.
    split; [done|]. by rw Hcl2. }
  iIntros (n4) "(%al' & [%Hm4 [%Hc4 _]] & Hal)".
  iApply (wp_wand with "[Har Hpr Hs Hm Hk2]").
  { replace (S (length ss1)) with (length (as1 ++ [al'])) by (rw length_app Has /=; lia).
    iApply (wp_write_kid col comp w0 col_u8 K K_small h n4 _ (as1 ++ [al']) ar as2 r3 (s :: rss) (la ++ ras) (m ++ p :: rl)).
    { rw -app_assoc. exact Hm4. }
    iFrame "Hk2". iExists er. iFrame "Har". iSplit; [iPureIntro; split; [done|by rw Hcr3]|].
    rw parts_cons. iExists p, la, ras, m, rl. by iFrame. }
  iIntros (n5) "(%ar' & [%Hm5 [%Hc5 _]] & Har)". rw -app_assoc in Hm5. iExists sl, q, al', ar', l1, (m ++ p :: rl).
  iSplit; [iPureIntro; split_and!; [exact Hm5|by apply Hc5, Hc4|by rw -app_assoc]|]. rw length_app Nat.add_sub. iFrame.
Qed.

Lemma wp_balance_right h n ss1 s ss2 as1 al ar as2 r_node rss ras rl p kl ll :
  mem true n (ss1 ++ s :: ss2) (as1 ++ al :: ar :: as2) → length as1 = length ss1 → (5 ≤ length rss)%nat → (kl < ORDER)%nat →
  loaded h r_node ar rss ras rl ∗ sepv K s p ∗ node_at h al kl ll ∗ credit (node_cost K + node_cost K) ⊢
  wp (balance_from_right (inner_at h) (length ss1) r_node n) (λ n', ∃ s' p' al' ar' ll' rl',
    ⌜mem true n' (ss1 ++ s' :: ss2) (as1 ++ al' :: ar' :: as2) ∧ changed n' = true ∧ ll ++ p :: rl = ll' ++ p' :: rl'⌝ ∗
    sepv K s' p' ∗ node_at h al' (S kl) ll' ∗ node_at h ar' (length rss - 1) rl').
Proof.
  iIntros (Hm Has Hrss Hkl) "((%e & [%Hmr _] & Har & Hpr) & Hs & Hal & Hk)". rw credit_split. iDestruct "Hk" as "[Hk1 Hk2]".
  destruct rss as [|sr rss]; [cbn in Hrss; lia|]. rw parts_cons.
  iDestruct "Hpr" as "(%q & %la & %ras' & %m & %r1 & [-> ->] & Hm & Hsr & Hpr)".
  iDestruct (kid_moved with "Hm") as %Hla.
  destruct (take_first_ok _ _ _ _ _ _ Hmr Hla) as (o & n1 & sp & r2 & r3 & Ht & Ho & Hr & Esp & Hrf & Hmr3 & Hcr3).
  unfold balance_from_right. iApply wp_bind. iApply (wp_take _ _ _ _ _ _ Ht). wp_pure Hr. wp_pure Hrf.
  destruct (replace_mid _ _ _ _ _ _ Hm) as (spn & n2 & Hrn & Espn & Hset). wp_pure Hrn.
  destruct (Hset sp sr Esp) as (n3 & Hsn & Hm3 & Hc3). wp_pure Hsn.
  iApply wp_bind. iApply (wp_wand with "[Hal]"). { rw -Has. by iApply (wp_fetch_kid with "Hal"). }
  iIntros (ofl) "(%ln & %lss & %las & (-> & <- & _) & %el & [%Hml _] & Hal & Hpl)".
  wp_pure (eq_refl (Ok ln) : unwrap (Some ln) = Ok ln).
  destruct (append_ok _ _ _ _ _ _ _ _ Hml Hkl Ho Espn) as (l1 & l2 & H1 & H2 & Hml2 & Hcl2).
  rw (number_separator_mem _ _ _ _ Hml). wp_pure H1. wp_pure H2.
  iApply wp_bind. iApply (wp_wand with "[Hal Hpl Hs Hm Hk1]").
  { rw -Has. iApply (wp_write_kid col comp w0 col_u8 K K_small h n3 _ as1 al (ar :: as2) l2 (lss ++ [s]) (las ++ la) (ll ++ p :: m) Hm3).
    iFrame "Hk1". iExists el. iFrame "Hal". iSplit; [iPureIntro; split; [done|by rw Hcl2]|]. iApply split_parts. iFrame. by rw parts_nil. }
  iIntros (n4) "(%al' & [%Hm4 [%Hc4 _]] & Hal)".
  iApply (wp_wand with "[Har Hpr Hk2]").
  { replace (S (length ss1)) with (length (as1 ++ [al'])) by (rw length_app Has /=; lia).
    iApply (wp_write_kid col comp w0 col_u8 K K_small h n4 _ (as1 ++ [al']) ar as2 r3 rss ras' r1).
    { rw -app_assoc. exact Hm4. }
    iFrame "Hk2". iExists e. iFrame. iPureIntro. split; [done|by rw Hcr3]. }
  iIntros (n5) "(%ar' & [%Hm5 [%Hc5 _]] & Har)". rw -app_assoc in Hm5. iExists sr, q, al', ar', (ll ++ p :: m), r1.
  iSplit; [iPureIntro; split_and!; [exact Hm5|by apply Hc5, Hc4|by rw -app_assoc]|]. rw length_app Nat.add_1_r /= Nat.sub_0_r. iFrame.
Qed.

(** The right one of two siblings is merged into the left one. *)
Lemma wp_merge h n ss1 s ss2 as1 al ar as2 l_node lss las ll r_node rss ras rl p :
  mem true n (ss1 ++ s :: ss2) (as1 ++ al :: ar :: as2) → length as1 = length ss1 → (S (length lss + length rss) ≤ ORDER)%nat → rss ≠ [] →
  loaded h l_node al lss las ll ∗ sepv K s p ∗ loaded h r_node ar rss ras rl ∗ credit (node_cost K + node_cost K) ⊢
  wp (merge_children (inner_at h) (length ss1) (S (length ss1)) (Some l_node) (Some r_node) n) (λ n', ∃ al',
    ⌜mem true n' (ss1 ++ ss2) (as1 ++ al' :: as2) ∧ changed n' = true⌝ ∗
    node_at h al' (S (length lss + length rss)) (ll ++ p :: rl)).
Proof.
  iIntros (Hm Has Hle Hne) "((%e & [%Hml _] & Hal & Hpl) & Hs & (%er & [%Hmr _] & Har & Hpr) & Hk)".
  rw credit_split. iDestruct "Hk" as "[Hk1 Hk2]". unfold merge_children.
  wp_pure (eq_refl (Ok l_node) : unwrap (Some l_node) = Ok l_node).
  pose proof (mem_len _ _ _ _ Hm) as Hlen. cbn in Hlen. rw !length_app /= in Hlen.
  pose proof (mem_le _ _ _ _ Hm) as Hle8. rw length_app /= in Hle8.
  destruct (remove_mid _ _ _ _ _ _ Hm) as (spn & n1 & C & Hrn & Espn & Ha1 & Hk & Hc1). wp_pure Hrn.
  destruct (merge_ok _ _ _ _ _ _ _ _ _ Hml Hmr Espn Hle Hne) as (l1 & l2 & r2 & Hs1 & Hmerge & Hml2 & Hcl2 & Hcr2 & Hlr2).
  rw (number_separator_mem _ _ _ _ Hml). wp_pure Hs1. wp_pure (eq_refl (Ok r_node) : unwrap (Some r_node) = Ok r_node).
  rw (number_separator_mem _ _ _ _ Hmr). wp_pure Hmerge.
  rw (app_assoc as1 [al] (ar :: as2) : as1 ++ al :: _ = _) in Hk. destruct (kids_true _ _ _ _ Hk) as (Hx & Hg & _).
  rw length_app Nat.add_1_r in Hx Hg.
  destruct (remove_child_arr _ _ _ _ _ Ha1 Hx) as (c & n2 & Hrc & Ec & Ha2 & Hc2). rw Has in Hrc. wp_pure Hrc. rw Ec.
  iApply wp_bind. iApply (wp_wand with "[Har]"); [by iApply (wp_remove_node with "Har")|]. iIntros ([]) "_".
  destruct Hg as [HlC (x & junk & EC)]. rw EC fmap_app -app_assoc /= in Ha2. rw EC in HlC.
  set (C2 := (Some <$> as1) ++ Some al :: x :: (Some <$> as2) ++ junk) in *.
  assert (HC1 : C2 !! length ss1 = Some (Some al)) by (apply lookup_mid; by rw length_fmap).
  iApply wp_bind. iApply (wp_wand with "[Hal Hpl Hs Hpr Hk1]").
  { iApply (wp_write_child col comp w0 col_u8 K K_small h n2 _ C2 (length ss1) l2 al (lss ++ s :: rss) (las ++ ras) (ll ++ p :: rl) Ha2 HC1).
    iFrame "Hk1". iExists e. iFrame "Hal". iSplit; [iPureIntro; split; [done|by rw Hcl2]|]. iApply split_parts. iFrame. }
  iIntros (n3) "(%al' & [%Ha3 [%Hc3 _]] & Hal)". subst C2. rw insert_mid in Ha3; [|by rw length_fmap].
  assert (Hx' : x = None).
  { assert (E : <[S (length as1):=None]> C !! S (length as1) = Some x).
    { rw EC fmap_app -app_assoc /=. rw (app_assoc (Some <$> as1) [Some al] _ : _ ++ Some al :: _ = _). apply lookup_mid.
      rw length_app length_fmap /=. lia. }
    rw list_lookup_insert_eq in E; [by injection E|]. by apply lookup_lt_Some in Hx. }
  subst x. rw (app_assoc (Some <$> as1) [Some al'] _ : _ ++ Some al' :: _ = _) in Ha3.
  iApply wp_bind. iApply (wp_wand with "[Hk2]").
  { iApply (wp_write_new_child col comp w0 col_u8 K K_small n3 _ _ (S (length ss1)) r2 Ha3 with "Hk2"); [|done|].
    - apply lookup_mid. rw length_app length_fmap Has /=. lia.
    - rw Hlr2. unfold node_bytes. lia. }
  iIntros (n4) "(%b & [%Ha4 %Hc4])". rw insert_mid in Ha4; [|rw length_app length_fmap Has /=; lia].
  destruct (remove_from_ok true false n4 ss1 ss2 (as1 ++ [al']) as2 _ Ha4) as (n5 & Hrf & Hm5 & Hc5).
  - split; [|exists (Some b), junk; by rw fmap_app]. revert HlC. do 3 rw ?length_app ?length_fmap /=. lia.
  - lia.
  - intros _. rw !length_app /=. lia.
  - iApply wp_lift; [exact Hrf|]. iExists al'. rw -app_assoc in Hm5. iSplit; [done|]. rw length_app /= Nat.add_succ_r. iFrame.
Qed.

(** ** The choice of the sibling *)

Definition rebalanced (h k : nat) (l : list Pair) (n : Node) : hprop :=
  ∃ ss as_, ⌜mem true n ss as_ ∧ changed n = true ∧ (k ≤ S (length ss))%nat⌝ ∗ content (S h) ss as_ l.

(** [rebalance] when the left sibling cannot give a separator. *)
Definition rebalance_right (has_child : bool) (at_ : nat) (l_node : option Node) (n : Node) : ST TRW Node :=
  let number_child := S (number_separator n) in
  r_node ← (if (S at_ <? number_child)%nat then fetch_child_st (S at_) n else mret None);
  give ← lift_st (can_give r_node);
  if give : bool then
    r_node ← lift_st (unwrap r_node); balance_from_right has_child at_ r_node n
  else if (S at_ =? number_child)%nat then
    r_node ← fetch_child_st at_ n;
    merge_children has_child (at_ - 1) at_ l_node r_node n
  else
    l_node ← fetch_child_st at_ n;
    r_node ← match r_node with Some r => mret (Some r) | None => fetch_child_st (S at_) n end;
    merge_children has_child at_ (S at_) l_node r_node n.

Lemma rebalance_unfold has_child at_ n : rebalance has_child at_ n =
  (l_node ← (if (0 <? at_)%nat then fetch_child_st (at_ - 1) n else mret None);
   give ← lift_st (can_give l_node);
   if give : bool then l_node ← lift_st (unwrap l_node); balance_from_left has_child at_ l_node n
   else rebalance_right has_child at_ l_node n).
Proof. done. Qed.

Lemma loaded_give h c a ss as_ l : loaded h c a ss as_ l ⊢ ⌜can_give (Some c) = Ok (bool_decide (4 < length ss)%nat)⌝.
Proof. iIntros "(%e & [%Hm _] & _)". iPureIntro. by eapply can_give_mem. Qed.

Lemma wp_rebalance_right h n ss1 s ss2 as1 al ar as2 l_node L ll p kr rl R :
  mem true n (ss1 ++ s :: ss2) (as1 ++ al :: ar :: as2) → length as1 = length ss1 → (4 ≤ kr)%nat →
  left_part (S h) ss1 as1 L ∗ node_at h al 3 ll ∗ sepv K s p ∗ node_at h ar kr rl ∗ right_part (S h) ss2 as2 R ∗
    credit (node_cost K + node_cost K) ⊢
  wp (rebalance_right (inner_at h) (length ss1) l_node n)
    (rebalanced h (length (ss1 ++ s :: ss2)) (L ++ (ll ++ p :: rl) ++ R)).
Proof.
  iIntros (Hm Has Hkr) "(HL & Hal & Hs & Har & HR & Hk)". unfold rebalance_right. rw (number_separator_mem _ _ _ _ Hm) length_app /=.
  rw (proj2 (Nat.ltb_lt _ _)); [|lia]. rw (proj2 (Nat.eqb_neq _ _)); [|lia].
  assert (Hm' : mem true n (ss1 ++ s :: ss2) ((as1 ++ [al]) ++ ar :: as2)) by (by rw -app_assoc).
  replace (S (length ss1)) with (length (as1 ++ [al])) at 1 by (rw length_app Has /=; lia).
  iApply wp_bind. iApply (wp_wand with "[Har]"); [by iApply (wp_fetch_kid with "Har")|].
  iIntros (o) "(%rn & %rss & %ras & (-> & <- & %Hcr) & Har)". iDestruct (loaded_give with "Har") as %Hg. wp_pure Hg.
  case_bool_decide as H5.
  - wp_pure (eq_refl (Ok rn) : unwrap (Some rn) = Ok rn). iApply (wp_wand with "[Hal Hs Har Hk]").
    { iApply (wp_balance_right h n ss1 s ss2 as1 al ar as2 rn rss ras rl p 3 ll Hm Has); [lia|unfold ORDER; lia|]. iFrame. }
    iIntros (n') "(%s' & %p' & %al' & %ar' & %ll' & %rl' & (%Hm2 & %Hc2 & %E) & Hs & Hal & Har)".
    iExists (ss1 ++ s' :: ss2), (as1 ++ al' :: ar' :: as2). rw E. iSplit; [iPureIntro; rw length_app /=; split_and!; [done|done|lia]|].
    iApply (close_siblings K K_small h ss1 s' ss2 as1 al' ar' as2 L ll' p' rl' R 4 (length rss - 1)); [lia|lia|]. iFrame.
  - iApply wp_bind. iApply (wp_wand with "[Hal]"). { rw -Has. by iApply (wp_fetch_kid with "Hal"). }
    iIntros (o) "(%ln & %lss & %las & (-> & %Hl3 & _) & Hal)". iApply wp_ret_bind.
    iApply (wp_wand with "[Hal Hs Har Hk]").
    { iApply (wp_merge h n ss1 s ss2 as1 al ar as2 ln lss las ll rn rss ras rl p Hm Has); [rw Hl3; unfold ORDER; lia| |iFrame].
      intros ->. cbn in Hkr. lia. }
    iIntros (n') "(%al' & [%Hm2 %Hc2] & Hal)". iExists (ss1 ++ ss2), (as1 ++ al' :: as2).
    iSplit; [iPureIntro; rw !length_app /=; split_and!; [done|done|lia]|].
    iApply (close_kid K K_small h ss1 ss2 as1 al' as2 L (ll ++ p :: rl) R); [|iFrame]. lia.
Qed.

Lemma wp_rebalance h n ss1 ss2 as1 a as2 L m R : mem true n (ss1 ++ ss2) (as1 ++ a :: as2) → length as1 = length ss1 →
  (0 < length (ss1 ++ ss2))%nat →
  left_part (S h) ss1 as1 L ∗ node_at h a 3 m ∗ right_part (S h) ss2 as2 R ∗ credit (node_cost K + node_cost K) ⊢
  wp (rebalance (inner_at h) (length ss1) n) (rebalanced h (length (ss1 ++ ss2)) (L ++ m ++ R)).
Proof.
  iIntros (Hm Has Hpos) "(HL & Ha & HR & Hk)". rw rebalance_unfold. destruct ss1 as [|s ss1 _] using rev_ind.
  - destruct ss2 as [|s ss2]; [cbn in Hpos; lia|]. destruct as1; [|done]. cbn [length Nat.ltb Nat.leb]. iApply wp_ret_bind.
    wp_pure (eq_refl (Ok false) : can_give None = Ok false). rw rpart_cons. iDestruct "HR" as "(%p & %l' & -> & Hs & Hp)".
    rw parts_open. iDestruct "Hp" as "(%la & %as2' & %mr & %R' & [-> ->] & Hkid & HR)". rw kid_node.
    iDestruct "Hkid" as "(%ar & %kr & [-> %Hkr] & Har)". rw (_ : m ++ p :: mr ++ R' = (m ++ p :: mr) ++ R'); [|by rw -app_assoc].
    iApply (wp_rebalance_right h n [] s ss2 [] a ar as2' None L m p kr mr R' Hm); [done|done|]. iFrame.
  - rw length_app /=. rw (proj2 (Nat.ltb_lt _ _)); [|lia]. rw Nat.add_sub. rw lpart_snoc.
    iDestruct "HL" as "(%as1' & %la & %L1 & %ml & %p & [-> ->] & HL & Hkid & Hs)". rw kid_node.
    iDestruct "Hkid" as "(%al & %kl & [-> %Hkl] & Hal)". rw !length_app /= in Has.
    assert (Has' : length as1' = length ss1) by lia. rw -app_assoc /= in Hm. rw -app_assoc /= in Hm.
    rw (_ : (L1 ++ ml ++ [p]) ++ m ++ R = L1 ++ (ml ++ p :: m) ++ R); [|by rw -!app_assoc].
    iApply wp_bind. iApply (wp_wand with "[Hal]"). { rw -Has'. by iApply (wp_fetch_kid with "Hal"). }
    iIntros (o) "(%ln & %lss & %las & (-> & <- & %Hcl) & Hal)". iDestruct (loaded_give with "Hal") as %Hg. wp_pure Hg.
    case_bool_decide as H5.
    + wp_pure (eq_refl (Ok ln) : unwrap (Some ln) = Ok ln). rw Nat.add_1_r. iApply (wp_wand with "[Ha Hs Hal Hk]").
      { iApply (wp_balance_left h n ss1 s ss2 as1' al a as2 ln lss las ml p 3 m Hm Has'); [lia|unfold ORDER; lia|]. iFrame. }
      iIntros (n') "(%s' & %p' & %al' & %ar' & %ll' & %rl' & (%Hm2 & %Hc2 & %E) & Hs & Hal & Har)".
      iExists (ss1 ++ s' :: ss2), (as1' ++ al' :: ar' :: as2). rw E. iSplit; [iPureIntro; rw !length_app /=; split_and!; [done|done|lia]|].
      iApply (close_siblings K K_small h ss1 s' ss2 as1' al' ar' as2 L1 ll' p' rl' R (length lss - 1) 4); [lia|lia|]. iFrame.
    + rw Nat.add_1_r. destruct ss2 as [|s2 ss2].
      * rw rpart_nil. iDestruct "HR" as "[-> ->]". unfold rebalance_right.
        rw (number_separator_mem _ _ _ _ Hm) length_app /= Nat.add_1_r Nat.ltb_irrefl Nat.eqb_refl. iApply wp_ret_bind.
        wp_pure (eq_refl (Ok false) : can_give None = Ok false). rw Nat.sub_0_r.
        assert (Hm' : mem true n (ss1 ++ [s]) ((as1' ++ [al]) ++ [a])) by (by rw -app_assoc).
        iApply wp_bind. iApply (wp_wand with "[Ha]").
        { replace (S (length ss1)) with (length (as1' ++ [al])) by (rw length_app Has' /=; lia). by iApply (wp_fetch_kid with "Ha"). }
        iIntros (o) "(%rn & %rss & %ras & (-> & %Hl3 & _) & Ha)". iApply (wp_wand with "[Ha Hs Hal Hk]").
        { iApply (wp_merge h n ss1 s [] as1' al a [] ln lss las ml rn rss ras m p Hm Has'); [rw Hl3; unfold ORDER; lia| |iFrame].
          by intros ->. }
        iIntros (n') "(%al' & [%Hm2 %Hc2] & Hal)". iExists ss1, (as1' ++ [al']). rw app_nil_r in Hm2.
        iSplit; [iPureIntro; rw ?length_app /=; split_and!; [done|done|lia]|]. rw -{2}(app_nil_r ss1).
        iApply (close_kid K K_small h ss1 [] as1' al' [] L1 (ml ++ p :: m) []); [|iFrame; by rw rpart_nil]. lia.
      * rw loaded_node //. rw (_ : L1 ++ (ml ++ p :: m) ++ R = (L1 ++ ml ++ [p]) ++ m ++ R); [|by rw -!app_assoc].
        rw rpart_cons. iDestruct "HR" as "(%q & %l' & -> & Hs2 & Hp)".
        rw parts_open. iDestruct "Hp" as "(%la & %as2' & %mr & %R' & [-> ->] & Hkid & HR)". rw kid_node.
        iDestruct "Hkid" as "(%ar & %kr & [-> %Hkr] & Har)". rw (_ : m ++ q :: mr ++ R' = (m ++ q :: mr) ++ R'); [|by rw -app_assoc].
        replace (S (length ss1)) with (length (ss1 ++ [s])) by (rw length_app /=; lia).
        match goal with |- context [rebalanced h ?k] => replace k with (length ((ss1 ++ [s]) ++ s2 :: ss2)) by (rw !length_app /=; lia) end.
        iApply (wp_rebalance_right h n (ss1 ++ [s]) s2 ss2 (as1' ++ [al]) a ar as2' (Some ln) (L1 ++ ml ++ [p]) m q kr mr R'); [by rw -!app_assoc|by rw !length_app Has'|done|].
        iFrame. iApply snoc_lpart. iFrame. iApply (node_kid K K_small h al (length lss) with "Hal"). lia.
Qed.

End Balance.

(** * Separators that come and go *)

(** A node that did not change has the content that it had. *)
Definition kept (n : Node) (ss : list SeparatorInner) (as_ : list Address) (n' : Node) ss' as' : Prop :=
  changed n' = false → changed n = false ∧ ss' = ss ∧ as' = as_.

Lemma kept_refl n ss as_ : kept n ss as_ n ss as_.
Proof. done. Qed.
Lemma kept_changed n ss as_ n' ss' as' : changed n' = true → kept n ss as_ n' ss' as'.
Proof. by intros Hc; rw /kept Hc. Qed.
Lemma kept_trans n ss as_ n1 ss1 as1 n2 ss2 as2 : kept n ss as_ n1 ss1 as1 → kept n1 ss1 as1 n2 ss2 as2 → kept n ss as_ n2 ss2 as2.
Proof. intros H1 H2 Hc. destruct (H2 Hc) as (Hc1 & -> & ->). by apply H1. Qed.

(** The room for the writes of one level of the tree. *)
Definition level_cost (K : nat) : nat := (node_cost K + (node_cost K + node_cost K))%nat.
Lemma level_split K : credit (level_cost K) ⊣⊢ credit (node_cost K) ∗ credit (node_cost K + node_cost K).
Proof. apply credit_split. Qed.

Section Ops.
Context `{UI : !Uninit, CD : !Codecs, CL : !CodecLaws}.
Context (col : ColId) (comp : Compress) (w0 : LogWriter).
Hypothesis col_u8 : is_u8 col.
Context (K : nat).
Hypothesis K_small : Z.of_nat (node_bytes K) < 2 ^ 32.
Abbreviation wp := (wp col comp w0 col_u8).
Abbreviation kid := (kid K).
Abbreviation content h := (parts K (kid h)).
Abbreviation left_part h := (lpart K (kid h)).
Abbreviation right_part h := (rpart K (kid h)).
Abbreviation node_at := (node_at K).
Abbreviation loaded := (loaded K).

Abbreviation level_cost := (level_cost K).

(** ** Separators *)

Lemma wp_new_separator key v : (length key ≤ K)%nat → can_write comp v →
  credit (entry_cost v) ⊢ wp (create_separator key v None) (λ sp, ∃ s, ⌜separator sp = Some s⌝ ∗ sepv K s (key, v)).
Proof.
  iIntros (Hk Hv) "H". iApply wp_bind. iApply (wp_wand with "[H]"); [by iApply (wp_new_value with "H")|]. iIntros (a) "Ha".
  iApply wp_ret. iExists (MkSep key a). iSplit; [done|]. by iFrame.
Qed.
Lemma wp_set_separator key s p v : (length key ≤ K)%nat → can_write comp v →
  sepv K s p ∗ credit (entry_cost v) ⊢ wp (create_separator key v (Some (sep_value s)))
    (λ sp, ∃ s, ⌜separator sp = Some s⌝ ∗ sepv K s (key, v)).
Proof.
  iIntros (Hk Hv) "[[_ Ha] H]". iApply wp_bind. iApply wp_bind. iApply (wp_wand with "[Ha H]").
  { iApply (wp_replace_value col comp w0 col_u8 (sep_value s) p.2 v Hv). iFrame. }
  iIntros ([x a]) "Ha". iApply wp_ret. iApply wp_ret. iExists (MkSep key (default (sep_value s) a)). iSplit; [done|]. by iFrame.
Qed.

(** ** The largest pair of a subtree *)

Lemma wp_remove_last h : ∀ n ss as_ l, mem (inner_at h) n ss as_ → (4 ≤ length ss)%nat →
  content h ss as_ l ∗ credit (h * level_cost) ⊢ wp (remove_last h n) (λ '(need, sp, n'), ∃ sp' s p l' ss' as',
    ⌜sp = Some sp' ∧ separator sp' = Some s ∧ l = l' ++ [p] ∧ mem (inner_at h) n' ss' as' ∧ kept n ss as_ n' ss' as' ∧
     need = bool_decide (length ss' ≤ 3)%nat ∧ (length ss ≤ S (length ss'))%nat⌝ ∗ sepv K s p ∗ content h ss' as' l').
Proof.
  induction h as [|h IH]; intros n ss as_ l Hm Hlen; iIntros "[Hp Hk]".
  - destruct ss as [|s ss _] using rev_ind; [cbn in Hlen; lia|]. rw length_app /= in Hlen.
    iDestruct (parts_split with "Hp") as "(%as1 & %as2 & %l1 & %p & %l2 & [-> ->] & Hp & Hs & Hn)". rw parts_nil kid_leaf.
    iDestruct "Hn" as "[-> ->]". pose proof (mem_leaf_kids _ _ _ Hm) as Eas. rw app_nil_r in Eas. subst as1.
    cbn [remove_last]. rw (last_separator_mem _ _ _ _ Hm) length_app /= Nat.add_sub.
    destruct (remove_last_ok _ _ _ Hm) as (sp & n' & Hr & Hs & Hm' & Hc).
    rw (_ : match ss ++ [s] with [] => None | _ :: _ => Some (length ss) end = Some (length ss)); [|by destruct ss].
    wp_pure Hr. wp_pure (need_rebalance_mem _ _ _ _ Hm'). iApply wp_ret. iExists sp, s, p, l1, ss, []. iFrame.
    iPureIntro. split_and!; [done|done|done|done|by apply kept_changed|done|lia].
  - rw -{1}(app_nil_r ss). iDestruct (parts_focus with "Hp") as "(%as1 & %la & %as2 & %L & %m & %R & [-> ->] & HL & Hkid & HR)".
    rw rpart_nil kid_node. iDestruct "HR" as "[-> ->]". iDestruct "Hkid" as "(%a & %k & [-> %Hk4] & Ha)".
    iDestruct (lpart_len with "HL") as %Has. unfold kids_len in Has. cbn in Has. rw !app_nil_r.
    cbn [remove_last]. rw (last_separator_mem _ _ _ _ Hm).
    rw (_ : match ss with [] => None | _ :: _ => Some (length ss - 1)%nat end = Some (length ss - 1)%nat); [|destruct ss; [cbn in Hlen; lia|done]].
    replace (S (length ss - 1)) with (length as1) by lia. rw Nat.mul_succ_l credit_split level_split. iDestruct "Hk" as "[Hk [Hk1 Hk2]]".
    iApply wp_bind. iApply (wp_wand with "[Ha]"); [by iApply (wp_fetch_kid with "Ha")|].
    iIntros (o) "(%c & %css & %cas & (-> & <- & _) & %e & [%Hmc %He] & Ha & Hp)".
    iApply wp_bind. iApply (wp_wand with "[Hp Hk]"). { iApply (IH c css cas m Hmc Hk4). iFrame. }
    iIntros ([[need sp] c']) "(%sp' & %s & %p & %m' & %css' & %cas' & (-> & Hs & -> & %Hmc' & %Hkept & -> & %Hle) & Hsv & Hp)".
    iDestruct "Hs" as %Hs. iApply wp_bind. iApply (wp_wand with "[Ha Hp Hk1]").
    { iApply (wp_write_kid col comp w0 col_u8 K K_small h n ss as1 a [] c' css' cas' m' Hm). iFrame "Hk1". iExists e. iFrame.
      iPureIntro. split; [done|]. intros Hc. destruct (Hkept Hc) as (H0 & -> & ->). by apply He. }
    iIntros (n1) "(%a' & [%Hm1 [%Hc1 %Ha1]] & Ha)". case_bool_decide as Hneed.
    + assert (E3 : length css' = 3%nat) by lia. rw E3. assert (Hss : (0 < length (ss ++ []))%nat) by (rw length_app; lia).
      iApply wp_bind. iApply (wp_wand with "[HL Ha Hk2]").
      { rw Has. rw -{1}(app_nil_r ss) in Hm1. iApply (wp_rebalance col comp w0 col_u8 K K_small h n1 ss [] as1 a' [] L m' [] Hm1 Has Hss).
        iFrame. by rw rpart_nil. }
      iIntros (n2) "(%ss2 & %as2 & (%Hm2 & %Hc2 & %Hle2) & Hp)". wp_pure (need_rebalance_mem _ _ _ _ Hm2). iApply wp_ret.
      rw !app_nil_r in Hle2 |- *. iExists sp', s, p, (L ++ m'), ss2, as2. iFrame. iPureIntro.
      split_and!; [done|done|by rw -app_assoc|done|by apply kept_changed|done|done].
    + iApply wp_ret. iExists sp', s, p, (L ++ m'), ss, (as1 ++ [a']). iFrame "Hsv". iSplit.
      * iPureIntro. split_and!; [done|done|by rw -app_assoc|done| |by rw bool_decide_false; [|lia]|lia].
        intros Hc. split_and!; [|done|by rw Ha1]. destruct (changed n); [|done]. by rw Hc1 in Hc.
      * iPoseProof (close_kid K K_small h ss [] as1 a' [] L m' [] (length css') with "[HL Ha]") as "Hp"; [lia| |].
        { iFrame. by rw rpart_nil. }
        by rw !app_nil_r.
Qed.

(** ** What a change leaves *)

(** The node after a change of its tree to the pairs [l], with what the parent
    has to do: [k] separators before, fewer only when that is reported; or two
    nodes with a separator in between. *)
Definition changed_to (h : nat) (n : Node) ss as_ (l : list Pair) (n' : Node) (r : ChangeRes) : hprop :=
  match r with
  | (None, b) => ∃ ss' as', ⌜mem (inner_at h) n' ss' as' ∧ kept n ss as_ n' ss' as' ∧
      (if b : bool then (length ss' ≤ 3)%nat ∧ (Nat.min 4 (length ss) ≤ S (length ss'))%nat
       else (Nat.min 4 (length ss) ≤ length ss')%nat)⌝ ∗ content h ss' as' l
  | (Some (sp, c), _) => ∃ s p ll rl lss las a,
      ⌜separator sp = Some s ∧ entry_index c = Some a ∧ mem (inner_at h) n' lss las ∧ changed n' = true ∧
       length lss = 4%nat ∧ l = ll ++ p :: rl⌝ ∗
      content h lss las ll ∗ sepv K s p ∗ node_at h a 4 rl
  end.

Lemma changed_to_node h n ss as_ l n' ss' as' (b : bool) : mem (inner_at h) n' ss' as' → kept n ss as_ n' ss' as' →
  (if b : bool then (length ss' ≤ 3)%nat ∧ (Nat.min 4 (length ss) ≤ S (length ss'))%nat else (Nat.min 4 (length ss) ≤ length ss')%nat) →
  content h ss' as' l ⊢ changed_to h n ss as_ l n' (None, b).
Proof. iIntros (Hm Hk Hb) "Hp". iExists ss', as'. by iFrame. Qed.

(** A result that says whether the node has too few separators. *)
Lemma changed_to_checked h n ss as_ l n' ss' as' : mem (inner_at h) n' ss' as' → kept n ss as_ n' ss' as' → (length ss ≤ S (length ss'))%nat →
  content h ss' as' l ⊢ changed_to h n ss as_ l n' (None, bool_decide (length ss' ≤ 3)%nat).
Proof.
  iIntros (Hm Hk Hle) "Hp". iApply (changed_to_node with "Hp"); [done|done|]. case_bool_decide; lia.
Qed.

(** ** Splitting *)

Lemma wp_split h n ss as_ at_ sp o all kids_ l : split_ok (inner_at h) at_ sp o n all kids_ → length all = 9%nat →
  content h all kids_ l ∗ credit (node_cost K) ⊢
  wp (insert_split at_ sp o n) (λ '(up, c, n'), changed_to h n ss as_ l n' (Some (up, c), false)).
Proof.
  iIntros ((up & ln & rn & u & Hsplit & Hu & E & Hml & Hmr & Hcl & Hcr) Hlen) "[Hp Hk]".
  iApply (wp_ext _ _ _ _ _ (c ← write_split_child rn; mret (up, c, ln))); [intros s; by apply insert_split_nodes|].
  rw {1}E. iDestruct (parts_split with "Hp") as "(%as1 & %as2 & %l1 & %p & %l2 & [-> ->] & Hp1 & Hs & Hp2)".
  iDestruct (content_len with "Hp1") as %Has. unfold kids_len in Has. rw length_take Hlen in Has. cbn [Nat.min] in Has.
  assert (E1 : (if inner_at h then take 5 (as1 ++ as2) else []) = as1).
  { destruct (inner_at h); [|by rw Has]. by rw -Has take_app_length. }
  rw E1 in Hml. iDestruct (content_len with "Hp2") as %Has2. unfold kids_len in Has2.
  assert (E2 : (if inner_at h then drop 5 (as1 ++ as2) else []) = as2).
  { destruct (inner_at h); [|by rw Has2]. by rw -Has drop_app_length. }
  rw E2 in Hmr. iDestruct (content_encode with "Hp2") as %[Hb Hc]; [exact K_small|exact Hmr|].
  iApply wp_bind. iApply wp_bind. iApply (wp_wand with "[Hk]").
  { iApply (wp_new_node col comp w0 col_u8 rn); [unfold node_changed; by rw Hcr|done|]. by iApply (credit_le with "Hk"). }
  iIntros (oa) "(%a & -> & Ha)". iApply wp_ret. iApply wp_ret. rw (encode_mem _ _ _ _ Hmr).
  iExists u, p, l1, l2, (take 4 all), as1, a. iFrame. iSplit.
  - iPureIntro. split_and!; [done|done|done|done|by rw length_take Hlen|done].
  - iPureIntro. rw length_drop Hlen. unfold ORDER. lia.
Qed.

(** A child was split: its separator and its new right node come in. *)
Lemma wp_insert_node h n0 ss0 as0 n ss1 ss2 as1 a as2 sp s rc c L ll p rl R : mem true n (ss1 ++ ss2) (as1 ++ a :: as2) →
  length as1 = length ss1 → separator sp = Some s → entry_index rc = Some c → (length (ss0) ≤ length (ss1 ++ ss2))%nat →
  left_part (S h) ss1 as1 L ∗ node_at h a 4 ll ∗ sepv K s p ∗ node_at h c 4 rl ∗ right_part (S h) ss2 as2 R ∗ credit (node_cost K) ⊢
  wp (insert_node (length ss1) sp rc n) (λ '(up, n'), changed_to (S h) n0 ss0 as0 (L ++ (ll ++ p :: rl) ++ R) n' (up, false)).
Proof.
  iIntros (Hm Has Hs Hc Hle) "(HL & Ha & Hs & Hc & HR & Hk)". rw length_app in Hle.
  iPoseProof (close_siblings K K_small h ss1 s ss2 as1 a c as2 L ll p rl R 4 4 with "[$HL $Ha $Hs $Hc $HR]") as "Hp"; [lia|lia|].
  unfold insert_node. wp_pure (has_separator_mem _ _ _ _ (ORDER - 1) Hm ltac:(unfold ORDER; lia)).
  pose proof (mem_le _ _ _ _ Hm) as Hle8. rw length_app in Hle8.
  assert (Hm' : mem true n (ss1 ++ ss2) ((as1 ++ [a]) ++ as2)) by (by rw -app_assoc).
  case_bool_decide as Hfull; rw length_app in Hfull.
  - assert (Hlen : (length ss1 + length ss2 = ORDER)%nat) by (unfold ORDER in *; lia).
    assert (Has1 : length (as1 ++ [a]) = S (length ss1)) by (rw length_app /=; lia).
    pose proof (split_inner_ok n ss1 ss2 (as1 ++ [a]) as2 sp s rc c Hm' Hlen Has1 Hs Hc) as Hok. rw -app_assoc in Hok.
    iApply wp_bind. iApply (wp_wand with "[Hp Hk]").
    { iApply (wp_split (S h) n ss0 as0 (length ss1) sp (Some rc)); [exact Hok|rw length_app /=; unfold ORDER in *; lia|]. iFrame. }
    iIntros ([[up cc] n']) "H". by iApply wp_ret.
  - destruct (insert_child_ok n ss1 ss2 (as1 ++ [a]) as2 sp s rc c Hm') as (n1 & n2 & n3 & H1 & H2 & H3 & Hm3 & Hc3);
      [unfold ORDER in *; lia|rw length_app /=; lia|done|done|].
    wp_pure H1. wp_pure H2. wp_pure H3. iApply wp_ret. rw -app_assoc in Hm3.
    iApply (changed_to_node with "Hp"); [exact Hm3|by apply kept_changed|]. rw length_app. cbn [length]. lia.
Qed.

(** ** Changes of a leaf *)

Lemma leaf_parts ss as_ l : content 0 ss as_ l ⊢ ⌜as_ = []⌝.
Proof. rw content_leaf. by iIntros "[-> _]". Qed.

(** A pair comes into a leaf between two of its separators. *)
Lemma leaf_insert ss1 s p ss2 as1 as2 L R : left_part 0 ss1 as1 L ∗ sepv K s p ∗ right_part 0 ss2 as2 R ⊢
  content 0 (ss1 ++ s :: ss2) [] (L ++ p :: R).
Proof.
  iIntros "(HL & Hs & HR)". iDestruct (lpart_len with "HL") as %E1. iDestruct (rpart_len with "HR") as %E2. cbn in E1, E2. subst as1 as2.
  iApply (focus_parts K (kid 0) ss1 (s :: ss2) [] [] [] L [] (p :: R)). iFrame "HL". rw kid_leaf rpart_cons. iSplit; [done|].
  iExists p, R. iFrame. iSplit; [done|]. rw parts_open. iExists [], [], [], R. rw kid_leaf. by iFrame.
Qed.
Lemma leaf_app ss1 ss2 as1 as2 l1 l2 : content 0 ss1 as1 l1 ∗ content 0 ss2 as2 l2 ⊢ content 0 (ss1 ++ ss2) [] (l1 ++ l2).
Proof. rw !content_leaf. iIntros "[[_ H1] [_ H2]]". iSplit; [done|]. iApply (big_sepL2_app with "H1 H2"). Qed.

End Ops.
