(* ===== verification/TreeChange.v ===== *)
(** * Changes of a tree

    [Node::change] with [Node::insert] and [Node::remove]
    (src/src/btree/node.rs) applies the changes that belong to a subtree, in
    order: what is in the tree afterwards, which changes are left, and what the
    parent has to do. *)

From iris.proofmode Require Import proofmode.
From stdpp Require Import sorting.
From S2P Require Import Prelude.
From S2P Require Import Bytes.
From S2P Require Import Ids.
From S2P Require Import Log.
From S2P Require Import Table.
From S2P Require Import Compress.
From S2P Require Import Column.
From S2P Require Import ColumnTables.
From S2P Require Import BTreeNode.
From S2P Require Import BTree.
From S2P Require Import KeyOrder.
From S2P Require Import BTreeCodec.
From S2P Require Import BTreeShape.
From S2P Require Import EntryStore.
From S2P Require Import EntryLogic.
From S2P Require Import TreeRep.
From S2P Require Import TreeOps.
From stdpp Require Import options.
#[local] Set Default Proof Using "Type*".

(** ** The place of a key *)

Lemma below_last key (l : list Pair) p : keys_sorted (l ++ [p]) → key_lt p.1 key → all_below key (l ++ [p]).
Proof.
  intros Hs Hp. apply all_below_app. split; [|by constructor]. apply sorted_app in Hs as (_ & _ & Hs). apply Forall_forall.
  intros k Hk. etrans; [|exact Hp]. apply Hs; [done|]. by left.
Qed.
Lemma above_head key (l : list Pair) p : keys_sorted (p :: l) → key_lt key p.1 → all_above key (p :: l).
Proof.
  intros [Hl _]%StronglySorted_cons Hp. constructor; [done|]. eapply Forall_impl; [exact Hl|]. intros k Hk. by etrans.
Qed.
Lemma above_member key (l l2 : list Pair) p : keys_sorted (l ++ l2) → p ∈ l → key_le key p.1 → all_above key l2.
Proof.
  intros (_ & _ & Hs)%sorted_app Hp Hk. apply Forall_forall. intros k Hk2.
  eapply key_lt_le; [exact Hk|]. apply Hs; [exact (list_elem_of_fmap_2 fst l p Hp)|done].
Qed.
Lemma below_le key key' (l : list Pair) : all_below key l → key_le key key' → all_below key' l.
Proof. intros Hl Hk. eapply Forall_impl; [exact Hl|]. intros k Hk'. exact (key_le_lt _ _ _ Hk' Hk). Qed.

Lemma sorted_mid (l1 : list Pair) p l2 : keys_sorted (l1 ++ p :: l2) → all_below p.1 l1 ∧ all_above p.1 l2.
Proof.
  intros (_ & [H2 _]%StronglySorted_cons & H3)%sorted_app. split; [|done]. apply Forall_forall. intros k Hk. apply H3; [done|]. by left.
Qed.

(** The context of a change: the pairs on both sides of a subtree. *)
Definition in_range (key : bytes) (l1 l2 : list Pair) : Prop := all_below key l1 ∧ all_above key l2.

Lemma upds_mid key o l1 l l2 : in_range key l1 l2 → upds [(key, o)] (l1 ++ l ++ l2) = l1 ++ upd key o l ++ l2.
Proof. intros [H1 H2]. by apply upd_mid. Qed.

(** The range of a child is between the separators around it. *)
Lemma range_below key (ss : list SeparatorInner) (l1 L : list Pair) : keys_sorted (l1 ++ L) → all_below key l1 →
  match last ss with Some s => ∃ p L', L = L' ++ [p] ∧ p.1 = sep_key s | None => L = [] end →
  (∀ s, last ss = Some s → key_lt (sep_key s) key) → all_below key (l1 ++ L).
Proof.
  intros Hs Hb HL Hlt. destruct (last ss) as [s|]; [|subst L; by rw app_nil_r]. destruct HL as (p & L' & -> & E).
  rw app_assoc in Hs |- *. apply below_last; [done|]. rw E. by apply Hlt.
Qed.
Lemma range_above key (ss : list SeparatorInner) (R l2 : list Pair) : keys_sorted (R ++ l2) → all_above key l2 →
  match head ss with Some s => ∃ p R', R = p :: R' ∧ p.1 = sep_key s | None => R = [] end →
  (∀ s, head ss = Some s → key_lt key (sep_key s)) → all_above key (R ++ l2).
Proof.
  intros Hs Ha HR Hlt. destruct (head ss) as [s|]; [|by subst R]. destruct HR as (p & R' & -> & E).
  apply above_head; [done|]. rw E. by apply Hlt.
Qed.

(** A key that the parent sends to the same child is in the range of the child. *)
Definition parent_ok (parent : option (Node * nat)) (l2 : list Pair) : Prop :=
  ∀ pn p, parent = Some (pn, p) → ∀ key, position key pn = (false, p) → (p < number_separator pn)%nat → all_above key l2.

(** The part of a node that belongs to a key that is not in it. *)
Definition at_child (n : Node) (key : bytes) (ss1 ss2 : list SeparatorInner) : Prop :=
  position key n = (false, length ss1) ∧ (∀ s, last ss1 = Some s → key_lt (sep_key s) key) ∧
  (∀ s, head ss2 = Some s → key_lt key (sep_key s)).

Lemma child_parent_ok n ss1 ss2 as_ R l2 : mem true n (ss1 ++ ss2) as_ → keys_sorted (R ++ l2) →
  match head ss2 with Some s => ∃ p R', R = p :: R' ∧ p.1 = sep_key s | None => R = [] end →
  parent_ok (Some (n, length ss1)) (R ++ l2).
Proof.
  intros Hm Hs HR pn p [= <- <-] key Hpos Hlt. rw (number_separator_mem _ _ _ _ Hm) length_app in Hlt.
  destruct (position_mem _ _ _ _ _ _ _ Hm Hpos) as (k1 & k2 & E & Hlen & _ & Hh).
  apply app_inj_1 in E as [-> ->]; [|done]. destruct k2 as [|s k2]; [cbn in Hlt; lia|].
  destruct HR as (q & R' & -> & Eq). apply above_head; [done|]. rw Eq. by apply Hh.
Qed.

(** Why a node goes on with the next change. *)
Lemma stays_cases inner parent n ss as_ key : mem inner n ss as_ → stays parent n key = true →
  (∃ s, s ∈ ss ∧ key_le key (sep_key s)) ∨ (∃ pn p, parent = Some (pn, p) ∧ position key pn = (false, p) ∧ (p < number_separator pn)%nat).
Proof.
  intros Hm. unfold stays. destruct parent as [[pn p]|]; [|done]. destruct (position key n) as [b i] eqn:E.
  destruct (position_mem _ _ _ _ _ _ _ Hm E) as (ss1 & ss2 & -> & -> & _ & Hb). rw (number_separator_mem _ _ _ _ Hm) length_app.
  destruct b; cbn [orb].
  - intros _. left. destruct Hb as (s & ss3 & -> & <-). exists s. split; [set_solver|]. apply key_lt_irrefl.
  - destruct (Nat.ltb_spec (length ss1) (length ss1 + length ss2)) as [Hlt|_].
    + intros _. left. destruct ss2 as [|s ss2]; [cbn in Hlt; lia|]. exists s. split; [set_solver|].
      specialize (Hb s eq_refl). intros Hk. eapply key_lt_irrefl. by etrans.
    + destruct (position key pn) as [b' i'] eqn:E'. intros [[Hb' Hi]%andb_prop Hlt]%andb_prop. right. exists pn, p.
      destruct b'; [done|]. apply Nat.eqb_eq in Hi as ->. apply Nat.ltb_lt in Hlt. done.
Qed.

(** ** The specification *)

Section Change.
Context `{UI : !Uninit, CD : !Codecs, CL : !CodecLaws}.
Context (col : ColId) (comp : Compress) (w0 : LogWriter).
Hypothesis col_u8 : is_u8 col.
Context (K : nat).
Hypothesis K_small : Z.of_nat (node_bytes K) < 2 ^ 32.
Abbreviation wp := (wp col comp w0 col_u8).
Abbreviation kid := (kid K).
Abbreviation content h := (parts K (kid h)).
Abbreviation left_part h := (lpart K (kid h)).
Abbreviation right_part h := (rpart K (kid h)).
Abbreviation node_at := (node_at K).
Abbreviation loaded := (loaded K).
Abbreviation level_cost := (level_cost K).
Abbreviation changed_to := (changed_to K).

Definition change_ok (c : bytes * option bytes) : Prop :=
  (length c.1 ≤ K)%nat ∧ match c.2 with Some v => can_write comp v | None => True end.

(** The room for the changes of a tree of height [h]. *)
Definition value_cost (o : option bytes) : nat := match o with Some v => entry_cost v | None => 0 end.
Definition changes_cost (h : nat) (cs : Changes) : nat := sum_list_with (fun c => (value_cost c.2 + S h * level_cost)%nat) cs.

Lemma changes_cost_cons h c cs : changes_cost h (c :: cs) = (value_cost c.2 + S h * level_cost + changes_cost h cs)%nat.
Proof. done. Qed.
Lemma changes_cost_app h cs1 cs2 : changes_cost h (cs1 ++ cs2) = (changes_cost h cs1 + changes_cost h cs2)%nat.
Proof. apply sum_list_with_app. Qed.
Lemma changes_cost_S h cs : changes_cost (S h) cs = (changes_cost h cs + length cs * level_cost)%nat.
Proof. induction cs as [|c cs IH]; [done|]. rw !changes_cost_cons IH. cbn [length]. lia. Qed.

(** Some first changes were applied to the pairs [l] of the subtree; the last
    one of them is still there. *)
Definition applied (h : nat) (n : Node) ss as_ (l1 l l2 : list Pair) (cs : Changes) (r : Node * Changes * ChangeRes) : hprop :=
  ∃ pre d post l', ⌜cs = pre ++ d :: post ∧ r.1.2 = d :: post ∧ upds (pre ++ [d]) (l1 ++ l ++ l2) = l1 ++ l' ++ l2⌝ ∗
    changed_to h n ss as_ l' r.1.1 r.2 ∗ credit (changes_cost h post).

(** A turn for the next change. *)
Definition turn_spec (h : nat) (n : Node) (c : bytes * option bytes) (cs : Changes) (m : ST TRW (Node * Changes * ChangeRes)) : Prop :=
  ∀ ss as_ l l1 l2, mem (inner_at h) n ss as_ → (h = 0%nat ∨ (0 < length ss)%nat) → keys_sorted (l1 ++ l ++ l2) →
    in_range c.1 l1 l2 → changes_sorted (c :: cs) → Forall change_ok (c :: cs) →
    content h ss as_ l ∗ credit (changes_cost h (c :: cs)) ⊢ wp m (applied h n ss as_ l1 l l2 (c :: cs)).

Definition change_spec (h : nat) (F : option (Node * nat) → Node → Changes → ST TRW (Node * Changes * ChangeRes)) : Prop :=
  ∀ parent n c cs ss as_ l l1 l2, mem (inner_at h) n ss as_ → (h = 0%nat ∨ (0 < length ss)%nat) → keys_sorted (l1 ++ l ++ l2) →
    in_range c.1 l1 l2 → changes_sorted (c :: cs) → Forall change_ok (c :: cs) → parent_ok parent l2 →
    content h ss as_ l ∗ credit (changes_cost h (c :: cs)) ⊢ wp (F parent n (c :: cs)) (applied h n ss as_ l1 l l2 (c :: cs)).

(** One change was applied. *)
Lemma applied_one h n ss as_ l1 l l2 key o cs n' r l' : in_range key l1 l2 → l' = upd key o l →
  changed_to h n ss as_ l' n' r ∗ credit (changes_cost h cs) ⊢ applied h n ss as_ l1 l l2 ((key, o) :: cs) (n', (key, o) :: cs, r).
Proof.
  iIntros (Hr ->) "[H Hk]". iExists [], (key, o), cs, (upd key o l). iFrame. iPureIntro. split_and!; [done|done|]. by apply upds_mid.
Qed.

(** ** Going into a child *)

(** What the parent does with the result of a change of its child. *)
Lemma wp_after_child h n0 ss0 as0 n ss1 ss2 as1 a as2 L k m R c css cas r (changes : Changes) : mem true n (ss1 ++ ss2) (as1 ++ a :: as2) →
  length as1 = length ss1 → (4 ≤ k)%nat → (0 < length (ss1 ++ ss2))%nat → k = length css →
  kept n0 ss0 as0 n (ss1 ++ ss2) (as1 ++ a :: as2) → length ss0 = length (ss1 ++ ss2) →
  ∀ e child, (changed child = false → e = encoded (inner_at h) css cas) →
  left_part (S h) ss1 as1 L ∗ a ↦ e ∗ changed_to h child css cas m c r ∗ right_part (S h) ss2 as2 R ∗ credit level_cost ⊢
  wp (n ← write_child (length ss1) c n;
      match r with
      | (Some (sep, rc), _) => '(up, n) ← insert_node (length ss1) sep rc n; mret (n, changes, (up, false))
      | (None, true) =>
          n ← rebalance (inner_at h) (length ss1) n;
          b ← lift_st (need_rebalance n);
          mret (n, changes, (None, b))
      | (None, false) => mret (n, changes, (None, false))
      end) (λ r', ⌜r'.1.2 = changes⌝ ∗ changed_to (S h) n0 ss0 as0 (L ++ m ++ R) r'.1.1 r'.2).
Proof.
  iIntros (Hm Has Hk4 Hpos Ek Hkept Hlen e child He) "(HL & Ha & Hc & HR & Hk)". rw level_split. iDestruct "Hk" as "[Hk1 Hk2]".
  destruct r as [[[sp rc]|] b].
  - iDestruct "Hc" as "(%s & %p & %ll & %rl & %lss & %las & %ra & (%Hs & %Hrc & %Hmc & %Hcc & %Hl4 & ->) & Hp & Hs & Hra)".
    iApply wp_bind. iApply (wp_wand with "[Ha Hp Hk1]").
    { rw -Has. iApply (wp_write_kid col comp w0 col_u8 K K_small h n _ as1 a as2 c lss las ll Hm). iFrame "Hk1". iExists e. iFrame.
      iPureIntro. split; [done|by rw Hcc]. }
    iIntros (n1) "(%a' & [%Hm1 _] & Ha)". rw credit_split. iDestruct "Hk2" as "[Hk2 _]". rw Hl4. iApply wp_bind.
    iApply (wp_wand with "[HL Ha Hs Hra HR Hk2]").
    { iApply (wp_insert_node col comp w0 col_u8 K K_small h n0 ss0 as0 n1 ss1 ss2 as1 a' as2 sp s rc ra L ll p rl R Hm1 Has Hs Hrc); [lia|]. iFrame. }
    iIntros ([up n2]) "H". iApply wp_ret. by iFrame.
  - iDestruct "Hc" as "(%css' & %cas' & (%Hmc & %Hkc & %Hb) & Hp)". iApply wp_bind. iApply (wp_wand with "[Ha Hp Hk1]").
    { rw -Has. iApply (wp_write_kid col comp w0 col_u8 K K_small h n _ as1 a as2 c css' cas' m Hm). iFrame "Hk1". iExists e. iFrame.
      iPureIntro. split; [done|]. intros Hcf. destruct (Hkc Hcf) as (H0 & -> & ->). by apply He. }
    iIntros (n1) "(%a' & [%Hm1 [%Hc1 %Ha1]] & Ha)". rw Nat.min_l in Hb; [|lia]. destruct b.
    + assert (E3 : length css' = 3%nat) by lia. rw E3. iApply wp_bind. iApply (wp_wand with "[HL Ha HR Hk2]").
      { iApply (wp_rebalance col comp w0 col_u8 K K_small h n1 ss1 ss2 as1 a' as2 L m R Hm1 Has Hpos). iFrame. }
      iIntros (n2) "(%ss' & %as' & (%Hm2 & %Hc2 & %Hle) & Hp)". wp_pure (need_rebalance_mem _ _ _ _ Hm2). iApply wp_ret.
      iSplit; [done|]. iApply (changed_to_checked K K_small with "Hp"); [done|by apply kept_changed|lia].
    + iApply wp_ret. iSplit; [done|]. iPoseProof (close_kid K K_small h ss1 ss2 as1 a' as2 L m R (length css') with "[$HL $Ha $HR]") as "Hp"; [lia|].
      iApply (changed_to_node K K_small with "Hp"); [exact Hm1| |lia]. eapply kept_trans; [exact Hkept|].
      intros Hc. rw (Ha1 Hc). split_and!; [|done|done]. destruct (changed n); [|done]. by rw Hc1 in Hc.
Qed.

Lemma wp_change_below h F n c cs ss1 ss2 as_ l l1 l2 : change_spec h F → mem true n (ss1 ++ ss2) as_ →
  (0 < length (ss1 ++ ss2))%nat → at_child n c.1 ss1 ss2 → keys_sorted (l1 ++ l ++ l2) → in_range c.1 l1 l2 →
  changes_sorted (c :: cs) → Forall change_ok (c :: cs) →
  content (S h) (ss1 ++ ss2) as_ l ∗ credit (changes_cost (S h) (c :: cs)) ⊢
  wp (change_below F h (length ss1) n (c :: cs)) (applied (S h) n (ss1 ++ ss2) as_ l1 l l2 (c :: cs)).
Proof.
  iIntros (HF Hm Hpos (Hat & Hlast & Hhead) Hs [Hb Ha] Hcs Hok) "[Hp Hk]".
  iDestruct (parts_focus with "Hp") as "(%as1 & %la & %as2 & %L & %m & %R & [-> ->] & HL & Hkid & HR)". rw kid_node.
  iDestruct "Hkid" as "(%a & %k & [-> %Hk4] & Hn)". iDestruct (lpart_len with "HL") as %Has. unfold kids_len in Has. cbn in Has.
  iDestruct (lpart_last with "HL") as %HL. iDestruct (rpart_head with "HR") as %HR. cbn [app] in Hm.
  rw (_ : l1 ++ (L ++ m ++ R) ++ l2 = (l1 ++ L) ++ m ++ (R ++ l2)) in Hs; [|by rw -!app_assoc].
  pose proof (proj1 (sorted_app _ _) Hs) as (Hs1 & Hs2 & _). pose proof (proj1 (sorted_app _ _) Hs2) as (_ & Hs3 & _).
  assert (Hr : in_range c.1 (l1 ++ L) (R ++ l2)) by (split; [by eapply range_below|by eapply range_above]).
  rw changes_cost_S credit_split. iDestruct "Hk" as "[Hk Hlev]". cbn [length]. rw Nat.mul_succ_l Nat.add_comm credit_split.
  iDestruct "Hlev" as "[Hlev Hrest]". unfold change_below.
  iApply wp_bind. iApply (wp_wand with "[Hn]"). { rw -Has. by iApply (wp_fetch_kid with "Hn"). }
  iIntros (o) "(%child & %css & %cas & (-> & <- & _) & %e & [%Hmc %He] & Hn & Hp)".
  iApply wp_bind. iApply (wp_wand with "[Hp Hk]").
  { iApply (HF (Some (n, length ss1)) child c cs css cas m (l1 ++ L) (R ++ l2) Hmc); [right; lia|done|done|done|done| |iFrame].
    by eapply child_parent_ok. }
  iIntros ([[child' changes'] r]) "(%pre & %d & %post & %m' & (%Ecs & %Ech & %Eu) & Hc & Hk)". cbn [fst snd] in Ech. subst changes'.
  iApply (wp_wand with "[HL Hn Hc HR Hlev]").
  { iApply (wp_after_child h n (ss1 ++ ss2) (as1 ++ a :: as2) n ss1 ss2 as1 a as2 L (length css) m' R child' css cas r (d :: post) Hm Has Hk4 Hpos
      eq_refl (kept_refl _ _ _) eq_refl e child He). iFrame. }
  iIntros (r') "[%E Hc]". iExists pre, d, post, (L ++ m' ++ R). iFrame "Hc". iSplit.
  { iPureIntro. split_and!; [done|done|]. rw (_ : l1 ++ (L ++ m ++ R) ++ l2 = (l1 ++ L) ++ m ++ (R ++ l2)) ?Eu; by rw -!app_assoc. }
  rw changes_cost_S credit_split. iFrame. iApply (credit_le with "Hrest"). apply Nat.mul_le_mono_r.
  apply (f_equal length) in Ecs. rw length_app /= in Ecs. lia.
Qed.

(** ** A key that is in the node *)

Lemma hit_node h n key ss1 s ss2 as_ l l1 l2 : mem (inner_at h) n (ss1 ++ s :: ss2) as_ → sep_key s = key → keys_sorted (l1 ++ l ++ l2) →
  content h (ss1 ++ s :: ss2) as_ l ⊢ ∃ as1 as2 L p R, ⌜as_ = as1 ++ as2 ∧ l = L ++ (key, p) :: R ∧ ∀ o, upd key o l = L ++ new_pair key o ++ R⌝ ∗
    content h ss1 as1 L ∗ sepv K s (key, p) ∗ content h ss2 as2 R.
Proof.
  iIntros (Hm Hkey Hs) "Hp". iDestruct (parts_split with "Hp") as "(%as1 & %as2 & %L & %p & %R & [-> ->] & Hp1 & Hs & Hp2)".
  iDestruct (sepv_key with "Hs") as %E. rw Hkey in E. destruct p as [pk pv]. cbn in E. subst pk.
  iExists as1, as2, L, pv, R. iFrame. iPureIntro. split_and!; [done|done|]. intros o.
  apply sorted_app in Hs as (_ & (Hs & _)%sorted_app & _). destruct (sorted_mid _ _ _ Hs). by apply upd_hit.
Qed.

Lemma wp_insert_hit h n key v cs ss1 s ss2 as_ l l1 l2 :
  mem (inner_at h) n (ss1 ++ s :: ss2) as_ → sep_key s = key → keys_sorted (l1 ++ l ++ l2) → in_range key l1 l2 → change_ok (key, Some v) →
  content h (ss1 ++ s :: ss2) as_ l ∗ credit (changes_cost h ((key, Some v) :: cs)) ⊢
  wp (existing ← lift_st (separator_address (length ss1) n);
      s ← create_separator key v existing;
      n ← lift_st (set_separator (length ss1) s n);
      mret (n, (key, Some v) :: cs, (None, false)))
    (applied h n (ss1 ++ s :: ss2) as_ l1 l l2 ((key, Some v) :: cs)).
Proof.
  iIntros (Hm Hkey Hs Hr [Hlen Hv]) "[Hp Hk]". rw changes_cost_cons credit_split credit_split. iDestruct "Hk" as "[[Hk _] Hrest]". cbn [value_cost snd] in *.
  iDestruct (hit_node with "Hp") as "(%as1 & %as2 & %L & %p & %R & (-> & -> & %Hu) & Hp1 & Hsv & Hp2)"; [done..|].
  wp_pure (separator_address_mem _ _ _ _ (length ss1) s Hm (lookup_mid ss1 ss2 s _ eq_refl)).
  iApply wp_bind. iApply (wp_wand with "[Hsv Hk]").
  { iApply (wp_set_separator col comp w0 col_u8 K K_small key s (key, p) v Hlen Hv). iFrame. }
  iIntros (sp) "(%s' & %Es & Hsv)". destruct (overwrite_mid _ _ _ _ _ _ sp s' Hm Es) as (n2 & H2 & Hm2 & Hc2). wp_pure H2. iApply wp_ret.
  iApply applied_one; [done..|]. rw Hu. iFrame "Hrest". iApply (changed_to_node K K_small _ _ _ _ _ _ (ss1 ++ s' :: ss2)); [exact Hm2|by apply kept_changed| |].
  - rw !length_app. cbn [length]. lia.
  - iApply split_parts. iFrame.
Qed.

(** ** Insertion *)

Lemma leaf_focus ss1 ss2 as_ l : content 0 (ss1 ++ ss2) as_ l ⊢ ∃ L R, ⌜as_ = [] ∧ l = L ++ R⌝ ∗ left_part 0 ss1 [] L ∗ right_part 0 ss2 [] R.
Proof.
  iIntros "Hp". iDestruct (parts_focus with "Hp") as "(%as1 & %la & %as2 & %L & %m & %R & [-> ->] & HL & Hkid & HR)". rw kid_leaf.
  iDestruct "Hkid" as "[-> ->]". iDestruct (lpart_len with "HL") as %E1. iDestruct (rpart_len with "HR") as %E2.
  cbn in E1, E2. subst as1 as2. iExists L, R. by iFrame.
Qed.

Lemma wp_insert_leaf n key v cs ss1 ss2 as_ l l1 l2 :
  mem false n (ss1 ++ ss2) as_ → at_child n key ss1 ss2 → keys_sorted (l1 ++ l ++ l2) → in_range key l1 l2 → change_ok (key, Some v) →
  content 0 (ss1 ++ ss2) as_ l ∗ credit (changes_cost 0 ((key, Some v) :: cs)) ⊢
  wp (full ← lift_st (has_separator (ORDER - 1) n);
      if full : bool then
        s ← create_separator key v None;
        '(up, c, n) ← insert_split (length ss1) s None n;
        mret (n, (key, Some v) :: cs, (Some (up, c), false))
      else
        n ← lift_st (shift_from (length ss1) false false n);
        s ← create_separator key v None;
        n ← lift_st (set_separator (length ss1) s n);
        mret (n, (key, Some v) :: cs, (None, false)))
    (applied 0 n (ss1 ++ ss2) as_ l1 l l2 ((key, Some v) :: cs)).
Proof.
  iIntros (Hm (_ & Hlast & Hhead) Hs Hr [Hlen Hv]) "[Hp Hk]". rw changes_cost_cons credit_split credit_split. iDestruct "Hk" as "[[Hk Hlev] Hrest]".
  cbn [value_cost snd] in *. rw Nat.mul_1_l level_split. iDestruct "Hlev" as "[Hlev _]".
  iDestruct (leaf_focus with "Hp") as "(%L & %R & [-> ->] & HL & HR)".
  iDestruct (lpart_last with "HL") as %HL. iDestruct (rpart_head with "HR") as %HR.
  apply sorted_app in Hs as (_ & (Hs & _)%sorted_app & _). pose proof (proj1 (sorted_app _ _) Hs) as (_ & Hs2 & _).
  assert (Hu : upd key (Some v) (L ++ R) = L ++ (key, v) :: R).
  { rw upd_miss; [done|exact (range_below key ss1 [] L ltac:(by apply sorted_app in Hs as [? _]) ltac:(constructor) HL Hlast)|].
    rw -(app_nil_r R). apply (range_above key ss2 R []); [by rw app_nil_r|constructor|done|done]. }
  wp_pure (has_separator_mem _ _ _ _ (ORDER - 1) Hm ltac:(unfold ORDER; lia)).
  pose proof (mem_le _ _ _ _ Hm) as Hle8. rw length_app in Hle8.
  case_bool_decide as Hfull; rw length_app in Hfull.
  - iApply wp_bind. iApply (wp_wand with "[Hk]"); [by iApply (wp_new_separator with "Hk")|]. iIntros (sp) "(%s & %Es & Hsv)".
    assert (Hl8 : (length ss1 + length ss2 = ORDER)%nat) by (unfold ORDER in *; lia).
    pose proof (split_leaf_ok n ss1 ss2 sp s Hm Hl8 Es) as Hok.
    iApply wp_bind. iApply (wp_wand with "[HL HR Hsv Hlev]").
    { iApply (wp_split col comp w0 col_u8 K K_small 0 n (ss1 ++ ss2) [] (length ss1) sp None _ _ _ Hok with "[HL HR Hsv Hlev]").
      - rw length_app /=. unfold ORDER in *. lia.
      - iFrame "Hlev". iApply (leaf_insert K K_small). iFrame. }
    iIntros ([[up c] n']) "Hc". iApply wp_ret. iApply applied_one; [done|exact (eq_sym Hu)|]. iFrame.
  - destruct (shift_from_ok false false n ss1 ss2 [] [] Hm) as (n1 & C & H1 & Ha1 & Hc1 & Hk1); [unfold ORDER in *; lia|done|].
    wp_pure H1. iApply wp_bind. iApply (wp_wand with "[Hk]"); [by iApply (wp_new_separator with "Hk")|]. iIntros (sp) "(%s & %Es & Hsv)".
    destruct (set_mid false n1 ss1 ss2 C [] sp s Ha1 Hk1 Es) as (n2 & H2 & Hm2 & Hc2); [unfold ORDER in *; lia|done|].
    wp_pure H2. iApply wp_ret. iApply applied_one; [done|exact (eq_sym Hu)|]. iFrame "Hrest".
    iApply (changed_to_node K K_small _ _ _ _ _ _ (ss1 ++ s :: ss2)); [exact Hm2|by apply kept_changed| |].
    + rw !length_app. cbn [length]. lia.
    + iApply (leaf_insert K K_small). iFrame.
Qed.

Lemma wp_node_insert h F n key v cs : (∀ h', h = S h' → change_spec h' F) →
  turn_spec h n (key, Some v) cs (node_insert F h key v n ((key, Some v) :: cs)).
Proof.
  iIntros (HF ss as_ l l1 l2 Hm Hpos Hs Hr Hcs Hok) "[Hp Hk]". unfold node_insert.
  destruct (position key n) as [b i] eqn:Epos. destruct (position_mem _ _ _ _ _ _ _ Hm Epos) as (ss1 & ss2 & -> & -> & Hlast & Hb).
  pose proof (Forall_inv Hok) as Hok1. destruct b.
  - destruct Hb as (s & ss3 & -> & Hkey). by iApply (wp_insert_hit with "[$Hp $Hk]").
  - destruct h as [|h].
    + by iApply (wp_insert_leaf with "[$Hp $Hk]").
    + iApply (wp_change_below h F with "[$Hp $Hk]"); [by apply HF|done|by destruct Hpos|done|done|done|done|done].
Qed.

(** ** Removal *)

Lemma wp_remove_pair s p : sepv K s p ⊢ wp (_ ← write_existing_value_plan NoHash (sep_value s) None; mret tt) (λ _, True).
Proof.
  iIntros "[_ Ha]". iApply wp_bind. iApply (wp_wand with "[Ha]"); [by iApply (wp_remove_value with "Ha")|]. iIntros (x) "_". by iApply wp_ret.
Qed.

(** The predecessor of a removed pair takes its place: the part of [Node::remove]
    for a node with children. *)
Lemma wp_predecessor h n ss1 ss2 C as1 as2 L R : arr n (gap ss1 ss2) C → kids true C (as1 ++ as2) → changed n = true →
  (length ss1 + length ss2 < ORDER)%nat →
  content (S h) ss1 as1 L ∗ content (S h) ss2 as2 R ∗ credit (S h * level_cost) ⊢
  wp (o ← fetch_child_st (length ss1) n;
      match o with
      | Some child =>
          '(need_balance, sep, child) ← remove_last h child;
          n ← write_child (length ss1) child n;
          n ← lift_st (match sep with Some s => set_separator (length ss1) s n | None => Ok n end);
          if need_balance : bool then rebalance (inner_at h) (length ss1) n else mret n
      | None => mret n
      end) (rebalanced K h (S (length ss1 + length ss2)) (L ++ R)).
Proof.
  iIntros (Ha Hk Hc Hle) "(Hp1 & Hp2 & Hcr)". rw -{1}(app_nil_r ss1).
  iDestruct (parts_focus with "Hp1") as "(%bs & %la & %x & %L1 & %m & %y & [-> ->] & HL & Hkid & HR)".
  rw rpart_nil kid_node. iDestruct "HR" as "[-> ->]". iDestruct "Hkid" as "(%a & %k & [-> %Hk4] & Hn)". rw !app_nil_r -app_assoc in Hk |- *.
  iDestruct (lpart_len with "HL") as %Hbs. iDestruct (content_len with "Hp2") as %Has2. unfold kids_len in Hbs, Has2. cbn in Hbs, Has2.
  destruct (kids_true _ _ _ _ Hk) as (Hx & _ & Hset). destruct (child_at_arr _ _ _ _ _ Ha Hx) as (c0 & Hc0 & E0). rw Hbs in Hx Hset Hc0.
  rw Nat.mul_succ_l credit_split level_split. iDestruct "Hcr" as "[Hcr [Hk1 Hk2]]".
  iApply wp_bind. iApply (wp_wand with "[Hn]"); [by iApply (wp_fetch with "Hn")|].
  iIntros (o) "(%c & %css & %cas & (-> & <- & _) & %e & [%Hmc %He] & Hn & Hp)".
  iApply wp_bind. iApply (wp_wand with "[Hp Hcr]").
  { iApply (wp_remove_last col comp w0 col_u8 K K_small h c css cas m Hmc Hk4). iFrame. }
  iIntros ([[need sp] c']) "(%sp' & %s & %p & %m' & %css' & %cas' & (-> & %Hs & -> & %Hmc' & %Hkept & -> & %Hle') & Hsv & Hp)".
  iApply wp_bind. iApply (wp_wand with "[Hn Hp Hk1]").
  { iApply (wp_write_child col comp w0 col_u8 K K_small h n _ C (length ss1) c' a css' cas' m' Ha Hx). iFrame "Hk1". iExists e. iFrame.
    iPureIntro. split; [done|]. intros Hcf. destruct (Hkept Hcf) as (H0 & -> & ->). by apply He. }
  iIntros (n1) "(%a' & [%Ha1 [%Hc1 _]] & Hn)".
  destruct (set_mid true n1 ss1 ss2 _ (bs ++ a' :: as2) sp' s Ha1 (Hset a') Hs Hle) as (n2 & H2 & Hm2 & Hc2).
  { rw length_app /=. lia. }
  wp_pure H2. rw (_ : (L1 ++ m' ++ [p]) ++ R = L1 ++ m' ++ p :: R); [|by rw -!app_assoc].
  iAssert (right_part (S h) (s :: ss2) as2 (p :: R)) with "[Hsv Hp2]" as "HR". { rw rpart_cons. iExists p, R. by iFrame. }
  case_bool_decide as Hneed.
  - assert (E3 : length css' = 3%nat) by lia. rw E3. iApply (wp_wand with "[HL Hn HR Hk2]").
    { iApply (wp_rebalance col comp w0 col_u8 K K_small h n2 ss1 (s :: ss2) bs a' as2 L1 m' (p :: R) Hm2 Hbs); [rw length_app /=; lia|]. iFrame. }
    iIntros (n3) "(%ss' & %as' & (%Hm3 & %Hc3 & %Hle3) & Hp)". rw length_app /= in Hle3. iExists ss', as'. iFrame. iPureIntro. split_and!; [done|done|lia].
  - iApply wp_ret. iExists (ss1 ++ s :: ss2), (bs ++ a' :: as2). iSplit; [iPureIntro; rw length_app /=; split_and!; [done|done|lia]|].
    iApply (close_kid K K_small h ss1 (s :: ss2) bs a' as2 L1 m' (p :: R) (length css')); [lia|]. iFrame.
Qed.

Lemma wp_remove_hit h F n key cs ss1 s ss2 as_ l l1 l2 : mem (inner_at h) n (ss1 ++ s :: ss2) as_ → sep_key s = key →
  position key n = (true, length ss1) → keys_sorted (l1 ++ l ++ l2) → in_range key l1 l2 →
  content h (ss1 ++ s :: ss2) as_ l ∗ credit (changes_cost h ((key, None) :: cs)) ⊢
  wp (node_remove F h key n ((key, None) :: cs)) (applied h n (ss1 ++ s :: ss2) as_ l1 l l2 ((key, None) :: cs)).
Proof.
  iIntros (Hm Hkey Hpos Hs Hr) "[Hp Hk]". rw changes_cost_cons credit_split credit_split. iDestruct "Hk" as "[[_ Hk] Hrest]".
  iDestruct (hit_node with "Hp") as "(%as1 & %as2 & %L & %p & %R & (-> & -> & %Hu) & Hp1 & Hsv & Hp2)"; [done..|].
  specialize (Hu None). cbn [new_pair app] in Hu. unfold node_remove. rw Hpos.
  wp_pure (separator_address_mem _ _ _ _ (length ss1) s Hm (lookup_mid ss1 ss2 s _ eq_refl)).
  iApply wp_bind. iApply (wp_wand with "[Hsv]"); [by iApply (wp_remove_pair with "Hsv")|]. iIntros ([]) "_". destruct h as [|h].
  - iDestruct (leaf_parts K K_small with "Hp1") as %->. iDestruct (leaf_parts K K_small with "Hp2") as %->.
    destruct (remove_leaf_ok _ _ _ _ Hm) as (sp & n1 & n2 & H1 & _ & H2 & Hm2 & Hc2). wp_pure H1. wp_pure H2.
    wp_pure (need_rebalance_mem _ _ _ _ Hm2). iApply wp_ret. iApply applied_one; [done|exact (eq_sym Hu)|]. iFrame "Hrest".
    iApply (changed_to_checked K K_small); [exact Hm2|by apply kept_changed|rw !length_app /=; lia|]. iApply (leaf_app K K_small). iFrame.
  - destruct (remove_mid _ _ _ _ _ _ Hm) as (sp & n1 & C & H1 & _ & Ha1 & Hk1 & Hc1). wp_pure H1.
    pose proof (mem_le _ _ _ _ Hm) as Hle. rw length_app /= in Hle.
    iApply wp_bind. iApply (wp_wand with "[Hp1 Hp2 Hk]").
    { iApply (wp_predecessor h n1 ss1 ss2 C as1 as2 L R Ha1 Hk1 Hc1); [lia|]. iFrame "Hp1 Hp2". iApply (credit_le with "Hk"). lia. }
    iIntros (n2) "(%ss' & %as' & (%Hm2 & %Hc2 & %Hle2) & Hp)". wp_pure (need_rebalance_mem _ _ _ _ Hm2). iApply wp_ret.
    iApply applied_one; [done|exact (eq_sym Hu)|]. iFrame "Hrest".
    iApply (changed_to_checked K K_small with "Hp"); [exact Hm2|by apply kept_changed|rw length_app /=; lia].
Qed.

(** A key that is not in the tree. *)
Lemma wp_remove_miss n key cs ss1 ss2 as_ l l1 l2 : mem false n (ss1 ++ ss2) as_ → at_child n key ss1 ss2 → keys_sorted (l1 ++ l ++ l2) →
  in_range key l1 l2 →
  content 0 (ss1 ++ ss2) as_ l ∗ credit (changes_cost 0 ((key, None) :: cs)) ⊢
  applied 0 n (ss1 ++ ss2) as_ l1 l l2 ((key, None) :: cs) (n, (key, None) :: cs, (None, false)).
Proof.
  iIntros (Hm (_ & Hlast & Hhead) Hs Hr) "[Hp Hk]". rw changes_cost_cons credit_split. iDestruct "Hk" as "[_ Hrest]".
  iDestruct (leaf_focus with "Hp") as "(%L & %R & [-> ->] & HL & HR)".
  iDestruct (lpart_last with "HL") as %HL. iDestruct (rpart_head with "HR") as %HR.
  apply sorted_app in Hs as (_ & (Hs & _)%sorted_app & _). pose proof (proj1 (sorted_app _ _) Hs) as (_ & Hs2 & _).
  assert (Hu : upd key None (L ++ R) = L ++ R).
  { rw upd_miss; [done|exact (range_below key ss1 [] L ltac:(by apply sorted_app in Hs as [? _]) ltac:(constructor) HL Hlast)|].
    rw -(app_nil_r R). apply (range_above key ss2 R []); [by rw app_nil_r|constructor|done|done]. }
  iApply applied_one; [done|exact (eq_sym Hu)|]. iFrame "Hrest".
  iApply (changed_to_node K K_small); [exact Hm|apply kept_refl|lia|].
  iApply (focus_parts K (kid 0) ss1 ss2 [] [] [] L [] R). iFrame. by rw kid_leaf.
Qed.

Lemma wp_node_remove h F n key cs : (∀ h', h = S h' → change_spec h' F) →
  turn_spec h n (key, None) cs (node_remove F h key n ((key, None) :: cs)).
Proof.
  iIntros (HF ss as_ l l1 l2 Hm Hpos Hs Hr Hcs Hok) "[Hp Hk]".
  destruct (position key n) as [b i] eqn:Epos. destruct (position_mem _ _ _ _ _ _ _ Hm Epos) as (ss1 & ss2 & -> & -> & Hlast & Hb).
  destruct b.
  - destruct Hb as (s & ss3 & -> & Hkey). by iApply (wp_remove_hit with "[$Hp $Hk]").
  - unfold node_remove. rw Epos. destruct h as [|h].
    + iApply wp_ret. by iApply (wp_remove_miss with "[$Hp $Hk]").
    + iApply (wp_change_below h F with "[$Hp $Hk]"); [by apply HF|done|by destruct Hpos|done|done|done|done|done].
Qed.

(** ** The loop *)

Lemma content_member h ss as_ l s : s ∈ ss → content h ss as_ l ⊢ ⌜∃ p, p ∈ l ∧ p.1 = sep_key s⌝.
Proof.
  iIntros ((ss1 & ss2 & ->)%list_elem_of_split) "Hp".
  iDestruct (parts_split with "Hp") as "(%as1 & %as2 & %L & %p & %R & [-> ->] & _ & Hs & _)".
  iDestruct (sepv_key with "Hs") as %E. iPureIntro. exists p. split; [|done]. apply elem_of_app. right. by left.
Qed.

Lemma changed_to_trans h n ss as_ n1 ss1 as1 l n2 r : kept n ss as_ n1 ss1 as1 → (Nat.min 4 (length ss) ≤ length ss1)%nat →
  changed_to h n1 ss1 as1 l n2 r ⊢ changed_to h n ss as_ l n2 r.
Proof.
  iIntros (Hk Hle) "H". destruct r as [[[sp c]|] b]; [done|]. iDestruct "H" as "(%ss' & %as' & (%Hm & %Hk' & %Hb) & Hp)".
  iApply (changed_to_node K K_small with "Hp"); [done|by eapply kept_trans|]. destruct b; lia.
Qed.

Lemma applied_skip h n ss as_ l1 l l2 c d cs r : keys_sorted (l1 ++ l ++ l2) → c.1 = d.1 →
  applied h n ss as_ l1 l l2 (d :: cs) r ⊢ applied h n ss as_ l1 l l2 (c :: d :: cs) r.
Proof.
  iIntros (Hs E) "(%pre & %d' & %post & %l' & (%Ecs & %Er & %Eu) & H)". iExists (c :: pre), d', post, l'. iFrame. iPureIntro.
  split_and!; [by rw Ecs|done|]. rw -Eu. destruct pre as [|e pre]; injection Ecs as <- _; by apply upds_skip.
Qed.

(** What the loop has done so far, and what it does then. *)
Lemma applied_trans h n ss as_ l1 l l2 cs pre d post n1 ss1 as1 l' r : cs = pre ++ d :: post → upds (pre ++ [d]) (l1 ++ l ++ l2) = l1 ++ l' ++ l2 →
  kept n ss as_ n1 ss1 as1 → (Nat.min 4 (length ss) ≤ length ss1)%nat →
  applied h n1 ss1 as1 l1 l' l2 post r ⊢ applied h n ss as_ l1 l l2 cs r.
Proof.
  iIntros (-> Eu Hk Hle) "(%pre2 & %d2 & %post2 & %l2' & (-> & %Er & %Eu2) & H & Hc)". iExists (pre ++ d :: pre2), d2, post2, l2'. iFrame "Hc".
  iSplit; [|by iApply changed_to_trans]. iPureIntro. split_and!; [by rw -app_assoc|done|].
  rw (_ : (pre ++ d :: pre2) ++ [d2] = (pre ++ [d]) ++ (pre2 ++ [d2])); [|by rw -!app_assoc]. by rw upds_app Eu.
Qed.

Lemma wp_change_loop h F : (∀ h', h = S h' → change_spec h' F) → ∀ fuel parent n c cs ss as_ l l1 l2,
  (length cs < fuel)%nat → mem (inner_at h) n ss as_ → (h = 0%nat ∨ (0 < length ss)%nat) → keys_sorted (l1 ++ l ++ l2) →
  in_range c.1 l1 l2 → changes_sorted (c :: cs) → Forall change_ok (c :: cs) → parent_ok parent l2 →
  content h ss as_ l ∗ credit (changes_cost h (c :: cs)) ⊢
  wp (change_loop F fuel h parent n (c :: cs)) (applied h n ss as_ l1 l l2 (c :: cs)).
Proof.
  intros HF. induction fuel as [|fuel IH]; intros parent n c cs ss as_ l l1 l2 Hf Hm Hpos Hs Hr Hcs Hok Hpar; [lia|].
  destruct c as [key o]. cbn [change_loop]. case_decide as Hdup.
  - destruct cs as [|d cs]; [done|]. injection Hdup as Hd. iIntros "[Hp Hk]". rw changes_cost_cons credit_split. iDestruct "Hk" as "[_ Hk]".
    apply StronglySorted_cons in Hcs as [_ Hcs]. apply Forall_cons in Hok as [_ Hok].
    iApply (wp_mono col comp w0 col_u8); [intros r; by apply (applied_skip h n ss as_ l1 l l2 (key, o) d)|].
    iApply (IH parent n d cs ss as_ l l1 l2); [cbn in Hf; lia|done|done|done|by rw Hd|done|done|done|]. iFrame.
  - iIntros "H". iApply wp_bind. iApply (wp_wand with "[H]").
    { iApply (wp_ext _ _ _ _ _ (match o with Some value => node_insert F h key value n ((key, o) :: cs) | None => node_remove F h key n ((key, o) :: cs) end)); [done|].
      destruct o as [v|]; [by iApply (wp_node_insert h F n key v cs HF with "H")|by iApply (wp_node_remove h F n key cs HF with "H")]. }
    iIntros ([[n1 changes1] r]) "(%pre & %d & %post & %l' & (%Ecs & %Ech & %Eu) & Hc & Hk)". cbn [fst snd] in *. subst changes1.
    assert (Hstop : changed_to h n ss as_ l' n1 r ∗ credit (changes_cost h post) ⊢ wp (mret (n1, d :: post, r)) (applied h n ss as_ l1 l l2 ((key, o) :: cs))).
    { iIntros "[Hc Hk]". iApply wp_ret. iExists pre, d, post, l'. by iFrame. }
    destruct r as [[x|] []]; [iApply Hstop; iFrame..|]. destruct post as [|[k2 o2] post]; [iApply Hstop; iFrame|].
    destruct (stays parent n1 k2) eqn:Hstay; [|iApply Hstop; iFrame].
    iDestruct "Hc" as "(%ss1 & %as1 & (%Hm1 & %Hkept & %Hle) & Hp)".
    assert (Hs1 : keys_sorted (l1 ++ l' ++ l2)) by (rw -Eu; by apply upds_sorted).
    assert (Hsp : changes_sorted ((k2, o2) :: post) ∧ Forall change_ok ((k2, o2) :: post) ∧ key_le key k2 ∧ (length post < fuel)%nat).
    { rw Ecs in Hcs, Hok. split_and!.
      - rw /changes_sorted fmap_app in Hcs. apply StronglySorted_app_1_r, StronglySorted_cons in Hcs as [_ Hcs]. exact Hcs.
      - apply Forall_app in Hok as [_ Hok]. by apply Forall_cons in Hok as [_ Hok].
      - destruct pre as [|e pre]; injection Ecs as <- Ecs'; apply StronglySorted_cons in Hcs as [Hcs _]; rw Forall_forall in Hcs; apply Hcs.
        + by left.
        + apply (list_elem_of_fmap_2 fst (pre ++ d :: (k2, o2) :: post) (k2, o2)), elem_of_app. right. right. by left.
      - apply (f_equal length) in Ecs. rw length_app /= in Ecs. lia. }
    destruct Hsp as (Hsp1 & Hsp2 & Hk2 & Hlen).
    iAssert ⌜all_above k2 l2⌝%I as %Ha2.
    { destruct (stays_cases _ _ _ _ _ _ Hm1 Hstay) as [(s & Hin & Hle2)|(pn & p & -> & Hp1 & Hp2)].
      - iDestruct (content_member with "Hp") as %(p & Hp & E); [done|]. iPureIntro. apply sorted_app in Hs1 as (_ & Hs1 & _).
        eapply above_member; [exact Hs1|exact Hp|by rw E].
      - iPureIntro. by eapply Hpar. }
    iApply (wp_mono col comp w0 col_u8); [intros r; by eapply applied_trans|].
    iApply (IH parent n1 (k2, o2) post ss1 as1 l' l1 l2); [done|done| |done| |done|done|done|iFrame].
    + destruct Hpos as [->|Hpos]; [by left|right; lia].
    + split; [|done]. eapply below_le; [apply Hr|done].
Qed.

Lemma wp_node_change h : change_spec h (node_change h).
Proof.
  induction h as [|h IH]; intros parent n c cs ss as_ l l1 l2 Hm Hpos Hs Hr Hcs Hok Hpar.
  - apply (wp_change_loop 0 _ ltac:(done) (S (length (c :: cs)))); try done. cbn [length]. lia.
  - apply (wp_change_loop (S h) (node_change h) ltac:(by intros h' [= <-]) (S (length (c :: cs)))); try done. cbn [length]. lia.
Qed.

End Change.
