(* ===== verification/TreeCommit.v ===== *)
(** * Commits to an ordered column

    [BTree::write_sorted_changes] (src/src/btree/btree.rs) applies sorted changes
    at the root, with the levels of the tree growing and shrinking;
    [BTreeChangeSet::write_plan] (src/src/btree/mod.rs) does so for one commit and
    updates the header. *)

From iris.proofmode Require Import proofmode.
From stdpp Require Import sorting.
From S2P Require Import Prelude.
From S2P Require Import Bytes.
From S2P Require Import Ids.
From S2P Require Import Log.
From S2P Require Import Table.
From S2P Require Import Compress.
From S2P Require Import Column.
From S2P Require Import ColumnTables.
From S2P Require Import BTreeNode.
From S2P Require Import BTree.
From S2P Require Import KeyOrder.
From S2P Require Import BTreeCodec.
From S2P Require Import BTreeLookup.
From S2P Require Import BTreeShape.
From S2P Require Import EntryStore.
From S2P Require Import EntryLogic.
From S2P Require Import TreeRep.
From S2P Require Import TreeOps.
From S2P Require Import TreeChange.
From stdpp Require Import options.
#[local] Set Default Proof Using "Type*".

(** The root of a tree that is new. *)
Lemma new_root_ok o1 a1 r a2 sp s : o1 = Some a1 → entry_index r = Some a2 → separator sp = Some s →
  ∃ n1 n2 n3, set_child 0 (new_child o1) default_node = Ok n1 ∧ set_child 1 r n1 = Ok n2 ∧ set_separator 0 sp n2 = Ok n3 ∧
    mem true n3 [s] [a1; a2] ∧ changed n3 = true.
Proof.
  intros -> Hr Hs. destruct r as [m x], sp as [m' y]. cbn in Hr, Hs. subst x y. eexists _, _, _.
  split; [vm_compute; reflexivity|]. split; [vm_compute; reflexivity|]. split; [vm_compute; reflexivity|]. split; [|done].
  split; [|cbn; unfold ORDER; lia|done]. eexists. split; [split; reflexivity|]. split; [reflexivity|]. by eexists.
Qed.
Lemma default_root : mem false default_node [] [] ∧ changed default_node = true.
Proof.
  split; [|done]. split; [|cbn; lia|done]. eexists. split; [split; reflexivity|]. by split.
Qed.
Lemma clean_unchanged ss cs : node_changed (clean_node ss cs) = false.
Proof.
  unfold node_changed. cbn [changed children separators clean_node]. apply orb_false_intro; [cbn [orb]|].
  - apply Bool.not_true_is_false. intros (c & Hc & Hm)%existsb_exists. apply list_elem_of_In in Hc. unfold fill in Hc.
    apply elem_of_app in Hc as [(x & -> & _)%list_elem_of_fmap|[-> _]%elem_of_replicate]; done.
  - apply Bool.not_true_is_false. intros (c & Hc & Hm)%existsb_exists. apply list_elem_of_In in Hc. unfold fill in Hc.
    apply elem_of_app in Hc as [(x & -> & _)%list_elem_of_fmap|[-> _]%elem_of_replicate]; done.
Qed.

Section Commit.
Context `{UI : !Uninit, CD : !Codecs, CL : !CodecLaws}.
Context (col : ColId) (comp : Compress) (w0 : LogWriter).
Hypothesis col_u8 : is_u8 col.
Context (K : nat).
Hypothesis K_small : Z.of_nat (node_bytes K) < 2 ^ 32.
Abbreviation wp := (wp col comp w0 col_u8).
Abbreviation kid := (kid K).
Abbreviation content h := (parts K (kid h)).
Abbreviation node_at := (node_at K).
Abbreviation changed_to := (changed_to K).
Abbreviation changes_cost := (changes_cost K).
Abbreviation change_ok := (change_ok comp K).

(** The levels of a tree are less than this. *)
Definition HEIGHT : nat := 32.

Lemma changes_cost_plus h k cs : changes_cost (h + k) cs = (changes_cost h cs + length cs * (k * level_cost K))%nat.
Proof.
  induction k as [|k IH]; [rw Nat.add_0_r; lia|]. rw Nat.add_succ_r (changes_cost_S K K_small) IH. lia.
Qed.

(** ** The root *)

(** The entry of the root in memory: without one the root will be written. *)
Definition root_entry (h : nat) (o : option Address) (n : Node) ss as_ : hprop :=
  match o with
  | Some a => ∃ e, ⌜changed n = false → e = encoded (inner_at h) ss as_⌝ ∗ a ↦ e
  | None => ⌜changed n = true⌝
  end.
Lemma root_entry_kept h o n ss as_ n' ss' as' : kept n ss as_ n' ss' as' → root_entry h o n ss as_ ⊢ root_entry h o n' ss' as'.
Proof.
  iIntros (Hk) "H". destruct o as [a|].
  - iDestruct "H" as "(%e & %He & Ha)". iExists e. iFrame. iPureIntro. intros Hc. destruct (Hk Hc) as (Hc' & -> & ->). by apply He.
  - iDestruct "H" as %Hc. iPureIntro. destruct (changed n') eqn:E; [done|]. destruct (Hk E) as [Hc' _]. congruence.
Qed.

(** The tree [t] with its root [n] in memory. *)
Definition tree_in_memory (t : BTree) (n : Node) (l : list Pair) : hprop :=
  ∃ h ss as_, ⌜bt_depth t = Z.of_nat h ∧ mem (inner_at h) n ss as_ ∧ (h = 0%nat ∨ (0 < length ss)%nat)⌝ ∗
    root_entry h (bt_root_index t) n ss as_ ∗ content h ss as_ l.

(** The root is written to its entry, or to a new one. *)
Lemma wp_write_root h o n ss as_ l : mem (inner_at h) n ss as_ → changed n = true →
  root_entry h o n ss as_ ∗ content h ss as_ l ∗ credit (node_cost K) ⊢
  wp (write_node_plan n o) (λ o', ∃ a, ⌜(match o' with Some _ => o' | None => o end) = Some a⌝ ∗ node_at h a (length ss) l).
Proof.
  iIntros (Hm Hc) "(He & Hp & Hk)". iDestruct (content_encode with "Hp") as %[H1 H2]; [exact K_small|exact Hm|].
  iDestruct (credit_le _ _ H2 with "Hk") as "Hk". assert (Hch : node_changed n = true) by (unfold node_changed; by rw Hc).
  rw (encode_mem _ _ _ _ Hm) in H1 *. destruct o as [a|].
  - iDestruct "He" as "(%e & _ & Ha)". iApply (wp_wand with "[Ha Hk]").
    { iApply (wp_node_at col comp w0 col_u8 n a e Hch); rw (encode_mem _ _ _ _ Hm) //. iFrame. }
    iIntros (o') "Ha". rw (encode_mem _ _ _ _ Hm). iExists (default a o'). iSplit; [by destruct o'|]. iExists ss, as_. iFrame. iPureIntro. split; [done|apply (mem_le _ _ _ _ Hm)].
  - iApply (wp_wand with "[Hk]").
    { iApply (wp_new_node col comp w0 col_u8 n Hch); rw (encode_mem _ _ _ _ Hm) //. }
    iIntros (o') "(%a & -> & Ha)". rw (encode_mem _ _ _ _ Hm). iExists a. iSplit; [done|]. iExists ss, as_. iFrame. iPureIntro. split; [done|apply (mem_le _ _ _ _ Hm)].
Qed.

(** A level goes away when its root has no separator. *)
Lemma wp_remove_level h t n ss as_ l : mem (inner_at h) n ss as_ → bt_depth t = Z.of_nat h → (h < HEIGHT)%nat →
  root_entry h (bt_root_index t) n ss as_ ∗ content h ss as_ l ⊢
  wp ('(o, root) ← need_remove_root n;
      match o with
      | Some (node_index, node) =>
          _ ← match bt_root_index t with
              | Some index => write_plan_remove_node index
              | None => mret tt
              end;
          mret (MkBTree (wrap32 (bt_depth t - 1)) node_index (bt_record_id t), node)
      | None => mret (t, root)
      end) (λ '(t', n'), ⌜bt_record_id t' = bt_record_id t⌝ ∗ tree_in_memory t' n' l).
Proof.
  iIntros (Hm Hd Hh) "[He Hp]". unfold need_remove_root. rw (number_separator_mem _ _ _ _ Hm). destruct (Nat.eqb_spec (length ss) 0) as [E|E].
  - destruct ss; [|done]. destruct h as [|h].
    + destruct (child_at_leaf n [] as_ 0 Hm ltac:(unfold ORDER_CHILD; lia)) as (c & Hc & Ec).
      iApply wp_bind. iApply wp_bind. iApply (wp_fetch_none _ _ _ _ _ _ _ _ Hc Ec). iApply wp_ret. iApply wp_ret.
      iSplit; [done|]. iExists 0%nat, [], as_. iFrame. iPureIntro. split_and!; [done|done|by left].
    + rw parts_nil kid_node. iDestruct "Hp" as "(%a & %k & [-> %Hk] & Hn)".
      iApply wp_bind. iApply wp_bind. iApply (wp_wand with "[Hn]").
      { by iApply (wp_fetch_kid col comp w0 col_u8 K K_small h n [] [] a [] with "Hn"). }
      iIntros (o) "(%c & %css & %cas & (-> & <- & %Hcc) & Hn)". destruct Hm as [(C & Ha & HC) _ _].
      destruct (kids_true C [] a [] HC) as (Hx & _ & _).
      destruct (remove_child_arr _ _ _ _ _ Ha Hx) as (ch & n1 & Hr & Ech & _ & _). wp_pure Hr. iApply wp_ret. rw Ech.
      iApply wp_bind. iAssert (wp match bt_root_index t with Some index => write_plan_remove_node index | None => mret tt end (λ _, True)%I) with "[He]" as "Hw".
      { destruct (bt_root_index t) as [b|]; [|by iApply wp_ret]. iDestruct "He" as "(%e & _ & He)". by iApply (wp_remove_node with "He"). }
      iApply (wp_wand with "Hw"). iIntros (x) "_". iApply wp_ret. iSplit; [done|].
      iDestruct "Hn" as "(%e & [%Hmc %He] & Ha & Hp)". iExists h, css, cas. iSplit.
      * iPureIntro. cbn [bt_depth]. rw Hd. split_and!; [|done|right; lia]. unfold wrap32. unfold HEIGHT in Hh. rw Z.mod_small; lia.
      * iFrame "Hp". cbn [bt_root_index root_entry]. iExists e. by iFrame.
  - iApply wp_bind. iApply wp_ret. iApply wp_ret. iSplit; [done|]. iExists h, ss, as_. iFrame. iPureIntro. split_and!; [done|done|right; lia].
Qed.

(** ** The loop over the changes *)

Lemma content_small h ss as_ l : (h = 0%nat ∨ (0 < length ss)%nat) → content h ss as_ l ⊢ ⌜(h < HEIGHT)%nat⌝.
Proof.
  iIntros ([->|Hpos]) "Hp"; [iPureIntro; unfold HEIGHT; lia|]. by iApply (content_height with "Hp").
Qed.

(** The changes applied so far, and the root after them. *)
Lemma wp_root_change t n c cs l : changes_sorted (c :: cs) → Forall change_ok (c :: cs) → keys_sorted l →
  tree_in_memory t n l ∗ credit (changes_cost HEIGHT (c :: cs)) ⊢
  wp (node_change (Z.to_nat (bt_depth t)) None n (c :: cs)) (λ r, ∃ pre d post l' h ss as_,
    ⌜c :: cs = pre ++ d :: post ∧ r.1.2 = d :: post ∧ upds (pre ++ [d]) l = l' ∧ bt_depth t = Z.of_nat h ∧ (h < HEIGHT)%nat ∧ (h = 0%nat ∨ (0 < length ss)%nat)⌝ ∗
    root_entry h (bt_root_index t) n ss as_ ∗ changed_to h n ss as_ l' r.1.1 r.2 ∗ credit (changes_cost HEIGHT post)).
Proof.
  iIntros (Hcs Hok Hs) "[(%h & %ss & %as_ & (%Hd & %Hm & %Hpos) & He & Hp) Hk]".
  iDestruct (content_small with "Hp") as %Hh; [done|]. rw Hd Nat2Z.id.
  replace HEIGHT with (h + (HEIGHT - h))%nat by lia. rw changes_cost_plus credit_split. iDestruct "Hk" as "[Hk Hrest]".
  iApply (wp_wand with "[Hp Hk]").
  { iApply (wp_node_change col comp w0 col_u8 K K_small h None n c cs ss as_ l [] [] Hm Hpos); [by rw app_nil_r|by split; constructor|done|done|done|].
    iFrame. }
  iIntros (r) "(%pre & %d & %post & %l' & (%E1 & %E2 & %Eu) & Hc & Hk)". cbn [app] in Eu. rw !app_nil_r in Eu.
  iExists pre, d, post, l', h, ss, as_. iFrame "He Hc". iSplit; [iPureIntro; split_and!; try done; lia|].
  rw changes_cost_plus credit_split. iFrame. iApply (credit_le with "Hrest"). apply Nat.mul_le_mono_r.
  apply (f_equal length) in E1. rw length_app /= in E1. cbn [length]. lia.
Qed.

(** What follows a change of the root: a new level, or one less. *)
Lemma wp_root_result h t n ss as_ l n1 r : bt_depth t = Z.of_nat h → (h < HEIGHT)%nat → (h = 0%nat ∨ (0 < length ss)%nat) →
  root_entry h (bt_root_index t) n ss as_ ∗ changed_to h n ss as_ l n1 r ∗ credit (node_cost K) ⊢
  wp (match r with
      | (Some (sep, r_node), _) =>
          let left_index := bt_root_index t in
          new_index ← write_node_plan n1 left_index;
          let new_index := match new_index with Some _ => new_index | None => left_index end in
          root ← lift_st (set_child 0 (new_child new_index) default_node);
          root ← lift_st (set_child 1 r_node root);
          root ← lift_st (set_separator 0 sep root);
          mret (MkBTree (wrap32 (bt_depth t + 1)) None (bt_record_id t), root)
      | (None, true) =>
          '(o, root) ← need_remove_root n1;
          match o with
          | Some (node_index, node) =>
              _ ← match bt_root_index t with
                  | Some index => write_plan_remove_node index
                  | None => mret tt
                  end;
              mret (MkBTree (wrap32 (bt_depth t - 1)) node_index (bt_record_id t), node)
          | None => mret (t, root)
          end
      | (None, false) => mret (t, n1)
      end) (λ '(t', n'), ⌜bt_record_id t' = bt_record_id t⌝ ∗ tree_in_memory t' n' l).
Proof.
  iIntros (Hd Hh Hpos) "(He & Hc & Hk)". destruct r as [[[sp rc]|] b].
  - iDestruct "Hc" as "(%s & %p & %ll & %rl & %lss & %las & %ra & (%Hs & %Hrc & %Hmc & %Hcc & %Hl4 & ->) & Hp & Hs & Hra)".
    iDestruct (root_entry_kept h _ n ss as_ n1 lss las with "He") as "He"; [by apply kept_changed|].
    iApply wp_bind. iApply (wp_wand with "[He Hp Hk]"). { iApply (wp_write_root h _ n1 lss las ll Hmc Hcc). iFrame. }
    iIntros (o) "(%a & %Ea & Ha)". rw Ea Hl4.
    destruct (new_root_ok (Some a) a rc ra sp s eq_refl Hrc Hs) as (m1 & m2 & m3 & H1 & H2 & H3 & Hm3 & Hc3).
    wp_pure H1. wp_pure H2. wp_pure H3. iApply wp_ret. iSplit; [done|]. iExists (S h), [s], [a; ra]. iSplit.
    + iPureIntro. cbn [bt_depth]. rw Hd. split_and!; [|done|right; cbn; lia]. unfold wrap32. unfold HEIGHT in Hh. rw Z.mod_small; lia.
    + iSplit; [done|]. iPoseProof (close_siblings K K_small h [] s [] [] a ra [] [] ll p rl [] 4 4 with "[Ha Hs Hra]") as "Hp"; [lia|lia| |].
      { iFrame. rw lpart_nil rpart_nil. by iSplit. }
      by rw app_nil_r.
  - iDestruct "Hc" as "(%ss' & %as' & (%Hm & %Hkept & %Hb) & Hp)". iDestruct (root_entry_kept with "He") as "He"; [exact Hkept|]. destruct b.
    + iApply (wp_remove_level h t n1 ss' as' l Hm Hd Hh). iFrame.
    + iApply wp_ret. iSplit; [done|]. iExists h, ss', as'. iFrame. iPureIntro. split_and!; [done|done|].
      destruct Hpos as [|Hpos]; [by left|right; lia].
Qed.

Lemma wp_changes_loop fuel : ∀ t n cs l, (length cs < fuel)%nat → changes_sorted cs → Forall change_ok cs → keys_sorted l →
  tree_in_memory t n l ∗ credit (changes_cost (S HEIGHT) cs) ⊢
  wp (write_changes_loop fuel t n cs) (λ '(t', n'), ⌜bt_record_id t' = bt_record_id t⌝ ∗ tree_in_memory t' n' (upds cs l)).
Proof.
  induction fuel as [|fuel IH]; intros t n cs l Hf Hcs Hok Hs; [lia|]. iIntros "[Ht Hk]". cbn [write_changes_loop].
  destruct cs as [|c cs]; [iApply wp_ret; by iFrame|].
  rw (changes_cost_S K K_small) credit_split. iDestruct "Hk" as "[Hk Hlev]". cbn [length]. rw Nat.mul_succ_l Nat.add_comm credit_split level_split.
  iDestruct "Hlev" as "[[Hk1 _] Hrest]".
  iApply wp_bind. iApply (wp_wand with "[Ht Hk]"). { iApply (wp_root_change t n c cs l Hcs Hok Hs). iFrame. }
  iIntros ([[n1 cs1] r]) "(%pre & %d & %post & %l' & %h & %ss & %as_ & (%E1 & %E2 & %Eu & %Hd & %Hh & %Hpos) & He & Hc & Hk)".
  cbn [fst snd] in *. subst cs1. iApply wp_bind. iApply (wp_wand with "[He Hc Hk1]").
  { iApply (wp_root_result h t n ss as_ l' n1 r Hd Hh Hpos). iFrame. }
  iIntros ([t1 n2]) "[%Hr Ht]". assert (Hlen : (length post ≤ length cs)%nat) by (apply (f_equal length) in E1; rw length_app /= in E1; lia).
  rw E1 in Hcs, Hok. iApply (wp_wand with "[Ht Hk Hrest]").
  { iApply (IH t1 n2 post l'); [cbn in Hf; lia| | | |].
    - rw /changes_sorted fmap_app in Hcs. by apply StronglySorted_app_1_r, StronglySorted_cons in Hcs as [_ Hcs].
    - apply Forall_app in Hok as [_ Hok]. by apply Forall_cons in Hok as [_ Hok].
    - rw -Eu. by apply upds_sorted.
    - iFrame "Ht". rw (changes_cost_S K K_small) credit_split. iFrame. iApply (credit_le with "Hrest"). by apply Nat.mul_le_mono_r. }
  iIntros ([t2 n3]) "[%Hr2 Ht]". iSplit; [iPureIntro; congruence|]. rw E1. rw (_ : pre ++ d :: post = (pre ++ [d]) ++ post); [|by rw -app_assoc].
  by rw upds_app Eu.
Qed.

(** ** The tree in its entries *)

(** The tree with its root at an address; an empty one may have none. *)
Definition tree_at (o : option Address) (h : nat) (l : list Pair) : hprop :=
  match o with
  | Some a => ∃ k, ⌜h = 0%nat ∨ (0 < k)%nat⌝ ∗ node_at h a k l
  | None => ⌜l = [] ∧ h = 0%nat⌝
  end.

Lemma address_not_null a : entry_address a → a ≠ NULL_ADDRESS.
Proof. intros [_ Ha] ->. by cbn in Ha. Qed.

Lemma wp_root_node h a k l : node_at h a k l ⊢ wp (fetch_root_st a) (λ n, ∃ ss as_,
  ⌜n = read_form (inner_at h) ss as_ ∧ mem (inner_at h) n ss as_ ∧ length ss = k ∧ (k ≤ ORDER)%nat⌝ ∗
  a ↦ encoded (inner_at h) ss as_ ∗ content h ss as_ l).
Proof.
  iIntros "(%ss & %as_ & [%Hk %Hle] & Ha & Hp)". iDestruct (cell_address with "Ha") as %Haa.
  iDestruct (node_read with "Hp") as %[Hr Hm]; [exact K_small|lia|].
  iApply (wp_wand with "[Ha]"); [iApply (wp_fetch_root with "Ha"); [by apply address_not_null|exact Hr]|].
  iIntros (n) "[-> Ha]". iExists ss, as_. by iFrame.
Qed.

Lemma wp_read_root h t l : bt_depth t = Z.of_nat h → tree_at (bt_root_index t) h l ⊢
  wp (fetch_root_st (default NULL_ADDRESS (bt_root_index t))) (λ n, tree_in_memory t n l).
Proof.
  iIntros (Hd) "Ht". destruct (bt_root_index t) as [a|] eqn:E; cbn [default tree_at].
  - iDestruct "Ht" as "(%k & %Hpos & Hn)". iApply (wp_wand with "[Hn]"); [by iApply wp_root_node|].
    iIntros (n) "(%ss & %as_ & (-> & %Hm & %Hk & %Hle) & Ha & Hp)". iExists h, ss, as_. iFrame "Hp".
    iSplit; [iPureIntro; split_and!; [done|done|by rw Hk]|]. rw E. iExists _. by iFrame.
  - iDestruct "Ht" as "[-> ->]". iApply (wp_ext _ _ _ _ _ (mret default_node)).
    { intros [r w]. unfold fetch_root_st, fetch_root, mbind, ST_bind, get_st, lift_st. by case_decide. }
    iApply wp_ret. destruct default_root as [Hm Hc]. iExists 0%nat, [], []. rw E. iSplit; [iPureIntro; split_and!; [done|done|by left]|].
    iSplit; [done|]. by rw parts_nil kid_leaf.
Qed.

Lemma wp_write_sorted t h cs l : bt_depth t = Z.of_nat h → changes_sorted cs → Forall change_ok cs → keys_sorted l →
  tree_at (bt_root_index t) h l ∗ credit (changes_cost (S HEIGHT) cs + node_cost K) ⊢
  wp (write_sorted_changes t cs) (λ t', ∃ h' a, ⌜t' = MkBTree (Z.of_nat h') (Some a) (bt_record_id t)⌝ ∗ tree_at (Some a) h' (upds cs l)).
Proof.
  iIntros (Hd Hcs Hok Hs) "[Ht Hk]". rw credit_split. iDestruct "Hk" as "[Hk1 Hk2]". unfold write_sorted_changes.
  iApply wp_bind. iApply (wp_wand with "[Ht]"); [by iApply wp_read_root|]. iIntros (n) "Ht".
  iApply wp_bind. iApply (wp_wand with "[Ht Hk1]"). { iApply (wp_changes_loop (S (length cs)) t n cs l); [lia|done|done|done|]. iFrame. }
  iIntros ([[d o r] n']) "[%Hr (%h' & %ss & %as_ & (%Hd' & %Hm & %Hpos) & He & Hp)]". cbn [bt_depth bt_root_index bt_record_id] in *. subst d r.
  destruct (changed n') eqn:Hc.
  - iApply wp_bind. iApply (wp_wand with "[He Hp Hk2]"). { iApply (wp_write_root h' o n' ss as_ _ Hm Hc). iFrame. }
    iIntros (o') "(%a & %Ea & Ha)". iApply wp_ret. iExists h', a. iSplit; [|iExists _; by iFrame].
    iPureIntro. destruct o' as [b|]; [by rw Ea|by rw Ea].
  - iApply wp_ret. destruct o as [a|]; cbn [root_entry]; [|iDestruct "He" as %Hcf; congruence].
    iDestruct "He" as "(%e & %He & Ha)". rw (He Hc). iExists h', a. iSplit; [done|]. iExists (length ss). iSplit; [done|].
    iExists ss, as_. iFrame. iPureIntro. split; [done|apply (mem_le _ _ _ _ Hm)].
Qed.

(** The root is read again and not written again. *)
Lemma wp_plan h a l r rid : tree_at (Some a) h l ⊢ wp (btree_write_plan (MkBTree (Z.of_nat h) (Some a) r) rid)
  (λ x, ⌜x.2 = MkBTreeHeader a (Z.of_nat h)⌝ ∗ tree_at (Some a) h l).
Proof.
  iIntros "(%k & %Hpos & Hn)". unfold btree_write_plan. cbn [bt_root_index default bt_depth].
  iApply wp_bind. iApply (wp_wand with "[Hn]"); [by iApply wp_root_node|].
  iIntros (n) "(%ss & %as_ & (-> & %Hm & %Hk & %Hle) & Ha & Hp)". iApply wp_bind. unfold write_node_plan, read_form. rw clean_unchanged.
  iApply wp_ret. iApply wp_ret. iSplit; [done|]. iExists k. iSplit; [done|]. iExists ss, as_. by iFrame.
Qed.

(** ** The header *)

Definition header_of (o : option Address) (h : nat) : BTreeHeader := MkBTreeHeader (default NULL_ADDRESS o) (Z.of_nat h).
(** The header leads to the tree of the pairs [l]. *)
Definition ordered (l : list Pair) : hprop :=
  ∃ o h, ⌜keys_sorted l ∧ (h < HEIGHT)%nat⌝ ∗ HEADER_ADDRESS ↦ write_header (header_of o h) ∗ tree_at o h l.

Lemma header_length hd : length (write_header hd) = BTREE_HEADER_SIZE.
Proof. unfold write_header. by rw length_app !length_le_encode. Qed.
Lemma header_read hd : 0 ≤ Address.as_u64 (root hd) < 2 ^ 64 → 0 ≤ depth hd < 2 ^ 32 →
  fst ((root ← Entry.read_u64; depth ← Entry.read_u32; mret (MkBTreeHeader (Address.from_u64 root) depth)) (Entry.new (write_header hd))) = Ok hd.
Proof.
  intros Hr Hd. destruct hd as [[a] d]. cbn in Hr, Hd. unfold write_header. cbn [root depth Address.as_u64 address_u64].
  change (Entry.new (le_encode 8 a ++ le_encode 4 d)) with (cursor [] (le_encode 8 a ++ le_encode 4 d)).
  erewrite ST_bind_Ok by (by apply cursor_u64). rw -(app_nil_r (le_encode 4 d)). erewrite ST_bind_Ok by (by apply cursor_u32). done.
Qed.

Lemma tree_at_small o h l : tree_at o h l ⊢ ⌜(h < HEIGHT)%nat ∧ 0 ≤ Address.as_u64 (default NULL_ADDRESS o) < 2 ^ 64 ∧
  (if decide (default NULL_ADDRESS o = NULL_ADDRESS) then None else Some (default NULL_ADDRESS o)) = o⌝.
Proof.
  destruct o as [a|]; cbn [tree_at default].
  - iIntros "(%k & %Hpos & %ss & %as_ & [<- _] & Ha & Hp)". iDestruct (content_small with "Hp") as %Hh; [done|].
    iDestruct (cell_address with "Ha") as %Haa. iPureIntro. split_and!; [done|apply Haa|apply Haa|].
    rw decide_False //. by apply address_not_null.
  - iIntros "[_ ->]". iPureIntro. unfold HEIGHT. split_and!; [lia|done|done|done].
Qed.

Lemma wp_open o h l rid : HEADER_ADDRESS ↦ write_header (header_of o h) ∗ tree_at o h l ⊢
  wp ('(r, w) ← get_st; lift_st (tree_open (tr_tables r) (tr_compression r) w rid)) (λ t, ⌜t = MkBTree (Z.of_nat h) o rid⌝ ∗
    HEADER_ADDRESS ↦ write_header (header_of o h) ∗ tree_at o h l).
Proof.
  iIntros "[Hh Ht]". iDestruct (tree_at_small with "Ht") as %(Hh & Ho & Eo). iApply (wp_wand with "[Hh]").
  - iApply (wp_read col comp w0 col_u8 HEADER_ADDRESS (write_header (header_of o h)) (fun r w => tree_open (tr_tables r) (tr_compression r) w rid)
      (MkBTree (Z.of_nat h) o rid) with "Hh"). intros r w Hget. unfold tree_open, btree_header. rw Hget outcome_bind_Ok.
    rw (header_read (header_of o h)); [|done|unfold header_of, HEIGHT in *; cbn; lia]. rw outcome_bind_Ok. cbn [header_of depth root]. by rw Eo.
  - iIntros (t) "[-> Hh]". by iFrame.
Qed.

(** A value that is always compressed without an error: the encoder of snappy
    cannot fail, that of lz4 is documented not to for these sizes. *)
Definition compresses (c : Compress) : Prop := ∀ v, Z.of_nat (length v) < 2 ^ 32 → ∃ cv, Compress.compress c v = Ok cv.

Definition key_ok (c : bytes * option bytes) : Prop :=
  (length c.1 ≤ K)%nat ∧ match c.2 with Some v => Z.of_nat (length v) < 2 ^ 32 | None => True end.

(** The room for a commit. *)
Definition commit_cost (cs : Changes) : nat := (changes_cost (S HEIGHT) cs + node_cost K + (31 + BTREE_HEADER_SIZE))%nat.

Lemma changes_cost_perm h cs cs' : cs ≡ₚ cs' → changes_cost h cs = changes_cost h cs'.
Proof. induction 1; rw ?(changes_cost_cons K K_small); lia. Qed.

Lemma wp_changeset rid cs l : compresses comp → Forall key_ok cs →
  ordered l ∗ credit (commit_cost cs) ⊢ wp (changeset_write_plan rid cs) (λ _, ordered (upds (sort_changes cs) l)).
Proof.
  iIntros (Hcomp Hok) "[(%o & %h & [%Hs %Hh] & Hhd & Ht) Hk]". unfold commit_cost. rw credit_split. iDestruct "Hk" as "[Hk Hkh]".
  set (rest := fun tree : BTree =>
    let old := MkBTreeHeader (default NULL_ADDRESS (bt_root_index tree)) (bt_depth tree) in
    tree ← write_sorted_changes tree (sort_changes cs);
    '(_, header) ← btree_write_plan tree rid;
    if decide (old = header) then mret tt
    else
      _ ← write_existing_value_plan NoHash HEADER_ADDRESS (Some (take BTREE_HEADER_SIZE (write_header header)));
      mret tt).
  iApply (wp_ext _ _ _ _ _ (('(r, w) ← get_st; lift_st (tree_open (tr_tables r) (tr_compression r) w rid)) ≫= rest)).
  { intros [r w]. unfold changeset_write_plan, mbind, ST_bind, get_st, lift_st. reflexivity. }
  iApply wp_bind. iApply (wp_wand with "[Hhd Ht]"). { iApply wp_open. iFrame. } iIntros (t) "(-> & Hhd & Ht)".
  subst rest. cbv beta. cbn [bt_root_index bt_depth]. cbv zeta. iApply wp_bind. iApply (wp_wand with "[Ht Hk]").
  { iApply (wp_write_sorted (MkBTree (Z.of_nat h) o rid) h (sort_changes cs) l); [done|apply sort_changes_sorted| |done|].
    - rw sort_changes_Permutation. eapply Forall_impl; [exact Hok|]. intros [k [v|]] [H1 H2]; split; try done.
      split; [done|by apply Hcomp].
    - iFrame "Ht". by rw (changes_cost_perm _ _ _ (sort_changes_Permutation cs)). }
  iIntros (t) "(%h' & %a & -> & Ht)". cbn [bt_record_id]. iDestruct (tree_at_small with "Ht") as %(Hh' & _ & _).
  iApply wp_bind. iApply (wp_wand with "[Ht]"); [by iApply wp_plan|]. iIntros ([t header]) "[%E Ht]". cbn [snd] in E. subst header.
  assert (Hs' : keys_sorted (upds (sort_changes cs) l)) by (by apply upds_sorted).
  case_decide as Hold.
  - iApply wp_ret. iExists (Some a), h'. iSplit; [done|]. iFrame "Ht". unfold header_of in *. cbn [default]. by rw -Hold.
  - rw take_ge; [|by rw header_length]. iApply wp_bind. iApply (wp_wand with "[Hhd Hkh]").
    { iApply (wp_replace_small col comp w0 col_u8 HEADER_ADDRESS _ (write_header (header_of (Some a) h'))).
      - split; [rw header_length; unfold BTREE_HEADER_SIZE; lia|]. apply Hcomp. rw header_length. unfold BTREE_HEADER_SIZE. lia.
      - rw header_length. unfold BTREE_HEADER_SIZE. lia.
      - vm_compute. reflexivity.
      - iFrame "Hhd". unfold entry_cost. by rw header_length. }
    iIntros (x) "Hhd". iApply wp_ret. iExists (Some a), h'. by iFrame.
Qed.

End Commit.

(** * Reading a tree from its entries

    Where the logic of entries says that an ordered column holds the pairs [l],
    its tables and log hold the search tree that lookup is proved for
    ([BTreeLookup.table_repr]). *)

Section Read.
Context `{UI : !Uninit, CD : !Codecs, CL : !CodecLaws}.
Context (col : ColId) (comp : Compress) (w0 : LogWriter).
Hypothesis col_u8 : is_u8 col.
Context (K : nat).
Hypothesis K_small : Z.of_nat (node_bytes K) < 2 ^ 32.
Abbreviation kid := (kid K).
Abbreviation content h := (parts K (kid h)).
Abbreviation world := (world col comp w0).
Context (s : TRW).
Abbreviation tables := (tr_tables s.1).
Abbreviation compression := (tr_compression s.1).

(** What holds of the state where an assertion holds of some of its entries. *)
Program Definition fact (φ : Prop) : hprop := MkHprop (fun h => ∀ rest, heap_sep h rest → world s (heap_join h rest) → φ) _.
Next Obligation.
  intros φ h h' Hle Hf rest Hd Hw. apply (Hf rest); [by eapply heap_sep_le; [exact Hle|reflexivity|]|].
  eapply world_le; [exact col_u8| |exact Hw]. by apply heap_join_le.
Qed.
Lemma fact_pure φ : φ → ⊢ fact φ.
Proof. intros Hφ. split. by intros h _ rest. Qed.
Lemma fact_mono (φ ψ : Prop) : (φ → ψ) → fact φ ⊢ fact ψ.
Proof. intros Hi. split. intros h Hf rest Hd Hw. by apply Hi, (Hf rest). Qed.
Lemma fact_sep φ ψ : fact φ ∗ fact ψ ⊢ fact (φ ∧ ψ).
Proof.
  split. intros h (h1 & h2 & Hd12 & Hle & H1 & H2) rest Hd Hw.
  assert (Hd' : heap_sep (heap_join h1 h2) rest) by (by eapply heap_sep_le; [exact Hle|reflexivity|]).
  assert (Hw' : world s (heap_join (heap_join h1 h2) rest)).
  { eapply world_le; [exact col_u8| |exact Hw]. by apply heap_join_le. }
  apply heap_sep_join_l in Hd' as [Hd1 Hd2]. split.
  - apply (H1 (heap_join h2 rest)); [by apply heap_sep_join_r|]. by rw -heap_join_assoc.
  - apply (H2 (heap_join h1 rest)); [apply heap_sep_join_r; by split|]. rw -heap_join_assoc (heap_join_comm h2 h1) //.
Qed.
Lemma fact_cell a v : a ↦ v ⊢ fact (∀ q, q = Check_ NoHash ∨ q = Fetch None →
  get_value q a tables compression s.2 = Ok (Some (Address.size_tier a, v))).
Proof.
  split. intros h [_ Ha] rest Hd Hw q Hq. apply (world_get col comp w0 col_u8 s (heap_join h rest) a v q Hw); [|done].
  by apply lookup_union_Some_l.
Qed.

(** ** Trees *)

Definition agrees (e : bytes * Address) (p : Pair) : Prop := e.1 = p.1 ∧ stored_value tables compression s.2 e.2 p.2.
Abbreviation stored_node := (stored_node tables compression s.2).
Abbreviation node_tree := (node_tree tables compression s.2).

Lemma sepv_fact x p : sepv K x p ⊢ fact (agrees (sep_entry x) p).
Proof.
  iIntros "[[%E _] Ha]". iDestruct (fact_cell with "Ha") as "H". iApply (fact_mono with "H"). intros Hg. split; [done|].
  eexists. apply Hg. by right.
Qed.

Definition kid_tree (h : nat) (a : Address) (le : Entries) : Prop := ∃ child, stored_node a child ∧ node_tree h child le.

(** The children and separators of a node with children. *)
Lemma parts_fact h ss : (∀ la m, kid (S h) la m ⊢ fact (∃ a le, la = [a] ∧ kid_tree h a le ∧ Forall2 agrees le m)%type) →
  ∀ as_ l, content (S h) ss as_ l ⊢
  fact (∃ ls, length ls = S (length ss) ∧ Forall2 (kid_tree h) as_ ls ∧ Forall2 agrees (interleave ls ss) l)%type.
Proof.
  intros Hkid. induction ss as [|x ss IH]; intros as_ l.
  - rw parts_nil Hkid. iIntros "H". iApply (fact_mono with "H"). intros (a & le & -> & Ht & Hl). exists [le]. cbn. rw app_nil_r.
    split_and!; [done|by constructor|done].
  - rw parts_cons. iIntros "(%p & %la & %as' & %m & %l' & [-> ->] & Hk & Hs & Hp)". rw Hkid sepv_fact IH.
    iDestruct (fact_sep with "[$Hs $Hp]") as "Hp". iDestruct (fact_sep with "[$Hk $Hp]") as "H". iApply (fact_mono with "H").
    intros ((a & le & -> & Ht & Hl) & Hx & (ls & Hlen & Hls & Hl')). exists (le :: ls). cbn [length app interleave]. split_and!; [lia|by constructor|].
    apply Forall2_app; [done|]. by constructor.
Qed.

Lemma read_content h ss as_ : (length ss ≤ ORDER)%nat → kids_len h (S (length ss)) as_ →
  has_content (read_form (inner_at h) ss as_) ss (kid_list (inner_at h) ss as_).
Proof. intros Hle Hlen. apply clean_node_content; [done|]. by apply kid_list_length. Qed.

Lemma content_fact h : ∀ ss as_ l, (length ss ≤ ORDER)%nat → content h ss as_ l ⊢
  fact (∃ le, node_tree h (read_form (inner_at h) ss as_) le ∧ Forall2 agrees le l)%type.
Proof.
  induction h as [|h IH]; intros ss as_ l Hle; iIntros "Hp"; iDestruct (content_len with "Hp") as %Hlen.
  - rw content_leaf. iDestruct "Hp" as "[_ Hl]".
    iAssert (fact (Forall2 agrees (sep_entry <$> ss) l)) with "[Hl]" as "H".
    { clear Hle Hlen. iInduction ss as [|x ss] forall (l); destruct l as [|p l]; try done; [by iApply fact_pure|].
      iDestruct "Hl" as "[Hs Hl]". iDestruct ("IHss" with "Hl") as "Hl". rw sepv_fact. iDestruct (fact_sep with "[$Hs $Hl]") as "H".
      iApply (fact_mono with "H"). intros [H1 H2]. by constructor. }
    iApply (fact_mono with "H"). intros Hl. exists (sep_entry <$> ss). split; [|done]. exists ss, (kid_list (inner_at 0) ss as_).
    split_and!; [by apply read_content| |done]. by apply Forall_replicate.
  - iDestruct (parts_fact with "Hp") as "H".
    { intros la m. rw kid_node. iIntros "(%a & %k & [-> _] & %css & %cas & [<- %Hle2] & Ha & Hp)".
      iDestruct (node_read with "Hp") as %[Hr _]; [exact K_small|done|]. iDestruct (IH with "Hp") as "Hp"; [done|].
      iDestruct (fact_cell with "Ha") as "Ha". iDestruct (fact_sep with "[$Ha $Hp]") as "H". iApply (fact_mono with "H").
      intros [Hg (le & Ht & Hl)]. exists a, le. split_and!; [done| |done]. eexists. split; [|exact Ht]. eexists. split; [|exact Hr].
      unfold get_encoded_entry. rw Hg; [|by left]. by rw outcome_bind_Ok. }
    iApply (fact_mono with "H"). intros (ls & Hls & Hk & Hl). exists (interleave ls ss). split; [|done].
    exists ss, (kid_list (inner_at (S h)) ss as_). split; [by apply read_content|]. exists ls. split; [done|].
    cbn [kid_list inner_at]. apply Forall2_fmap_l. eapply Forall2_impl; [exact Hk|]. intros a le (child & H1 & H2). by exists a, child.
Qed.

Lemma agrees_keys l kv : Forall2 agrees l kv → l.*1 = kv.*1.
Proof. induction 1 as [|e p l kv [E _] _ IH]; [done|]. cbn. by rw E IH. Qed.

Lemma ordered_fact kv : ordered K kv ⊢ fact (table_repr tables compression s.2 kv).
Proof.
  iIntros "(%o & %h & [%Hs %Hh] & Hhd & Ht)". iDestruct (tree_at_small with "Ht") as %(_ & Ho & _); [exact K_small|].
  iDestruct (fact_cell with "Hhd") as "Hhd". iAssert (fact (btree_header tables compression s.2 = Ok (header_of o h))) with "[Hhd]" as "Hhd".
  { iApply (fact_mono with "Hhd"). intros Hg. unfold btree_header. rw Hg; [|by right]. rw outcome_bind_Ok.
    apply header_read; [done|]. unfold header_of, HEIGHT in *. cbn. lia. }
  destruct o as [a|]; cbn [tree_at].
  - iDestruct "Ht" as "(%k & _ & %ss & %as_ & [<- %Hle] & Ha & Hp)". iDestruct (cell_address with "Ha") as %Haa.
    iDestruct (node_read with "Hp") as %[Hr _]; [exact K_small|done|]. iDestruct (content_fact with "Hp") as "Hp"; [done|].
    iDestruct (fact_cell with "Ha") as "Ha". iDestruct (fact_sep with "[$Ha $Hp]") as "H". iDestruct (fact_sep with "[$Hhd $H]") as "H".
    iApply (fact_mono with "H"). intros (Hhd & Hg & (le & Ht & Hl)). exists (header_of (Some a) h). split; [done|].
    rw decide_False; [|by apply address_not_null]. exists (read_form (inner_at h) ss as_), le, h. split_and!; [|done| | |done].
    + eexists. split; [|exact Hr]. unfold get_encoded_entry. rw Hg; [|by left]. by rw outcome_bind_Ok.
    + unfold MAX_DEPTH, HEIGHT in *. lia.
    + unfold keys_sorted. by rw (agrees_keys _ _ Hl).
  - iDestruct "Ht" as "[-> ->]". iApply (fact_mono with "Hhd"). intros Hhd. exists (header_of None 0). split; [done|]. by case_decide.
Qed.

End Read.

(** A header without a tree is an empty column. *)
Lemma new_ordered `{!Uninit, !Codecs, !CodecLaws} K : ordered K [] (MkHeap {[HEADER_ADDRESS := write_header (MkBTreeHeader NULL_ADDRESS 0)]} 0).
Proof.
  assert (Hent : HEADER_ADDRESS ↦ write_header (header_of None 0) ⊢ ordered K []).
  { iIntros "H". iExists None, 0%nat. iFrame. iPureIntro. split; [split; [constructor|unfold HEIGHT; lia]|done]. }
  apply (entails_at Hent). split; [done|]. apply lookup_singleton_eq.
Qed.
