(* ===== verification/TreeSession.v ===== *)
(** * Ordered columns in log records

    An ordered column with the overlays of the log holds pairs; a record of the
    log that commits changes to it and ends keeps that
    ([DbInner::process_commits], src/src/db.rs). *)

From S2P Require Import Prelude.
From S2P Require Import Bytes.
From S2P Require Import Ids.
From S2P Require Import File.
From S2P Require Import Log.
From S2P Require Import LogState.
From S2P Require Import Table.
From S2P Require Import TableSpec.
From S2P Require Import TableOps.
From S2P Require Import TableRefine.
From S2P Require Import TableStore.
From S2P Require Import TableEnact.
From S2P Require Import Instances.
From S2P Require Import TableThms.
From S2P Require Import Compress.
From S2P Require Import Options.
From S2P Require Import Column.
From S2P Require Import HashColumn.
From S2P Require Import ColumnTables.
From S2P Require Import ColumnLinks.
From S2P Require Import Frames.
From S2P Require Import ColumnSession.
From S2P Require Import ColumnOpen.
From S2P Require Import BTreeNode.
From S2P Require Import BTree.
From S2P Require Import KeyOrder.
From S2P Require Import BTreeCodec.
From S2P Require Import BTreeLookup.
From S2P Require Import BTreeShape.
From S2P Require Import EntryStore.
From S2P Require Import EntryLogic.
From S2P Require Import TreeRep.
From S2P Require Import TreeCommit.
From stdpp Require Import options.
#[local] Set Default Proof Using "Type*".

(** * A new ordered column

    [BTreeTable::open] (src/src/btree/mod.rs) on the value tables of a new column
    writes the header of an empty tree to the first table, through a log record
    of its own that goes straight to the file ([ValueTable::init_with_entry],
    src/src/table.rs). *)

Section Init.
Context `{!Uninit, !HashMapOrder}.

(** Writing the entries of a record to the file. *)
Lemma write_entries_spec t0 l : ∀ m t, table_wf t0 → enacted t0 m t → is_Some (file (vt_file t)) → NoDup l.*1 →
  (∀ i, is_Some (m !! i) → 0 ≤ i ≤ 2 ^ 48) → (∀ i, i ∈ l.*1 → m !! i = None) →
  Forall (fun '(i, (_, d)) => 0 ≤ i < capacity (vt_file t) ∧ i ≤ 2 ^ 48 ∧ logged t0 i d) l →
  ∃ f, write_entries l t = (Ok tt, set_vt_file f t) ∧ is_Some (file f) ∧ enacted t0 (entries_map l ∪ m) (set_vt_file f t).
Proof.
  induction l as [|[i [rid d]] l IH]; intros m t Hwf Hen Hf Hnd Hdom Hdis Hall.
  - exists (vt_file t). unfold entries_map. cbn. rewrite (left_id_L ∅ (∪)). destruct t. done.
  - cbn in Hnd, Hdis. apply NoDup_cons in Hnd as [Hni Hnd]. apply Forall_cons in Hall as [(Hi & Hi48 & Hlog) Hall].
    destruct Hen as [[f0 ->] Hok Hnew Hold Hhd]. cbn [vt_file set_vt_file] in *.
    destruct (write_entry t0 f0 i d Hwf Hok) as (f1 & Hw & Hok1 & Hf1 & Htail & Hoth & Hhd1); [lia|lia|done|by apply logged_le with i|].
    assert (Hcap : capacity f1 = capacity f0).
    { revert Hw. unfold TableFile.write_at. cbn. destruct (file f0); [|done]. by intros [= <-]. }
    destruct (IH (<[i := d]> m) (set_vt_file f1 t0)) as (f & Hrun & Hfs & Hen'); try done.
    + split; [by eexists|done| | |].
      * intros j d'. rewrite lookup_insert. case_decide as Hij; [subst; intros [= <-]; apply Htail|].
        intros Hj. destruct (Hnew j d' Hj) as [tail Hw']. exists tail. apply Hoth; [eauto|congruence|done].
      * intros j b Hj. rewrite lookup_insert. case_decide as Hij; [done|]. intros Hnone Hw'.
        apply Hoth; [done|congruence|]. by apply Hold.
      * rewrite lookup_insert. case_decide; [done|]. intros Hm. rewrite Hhd1 by done. by apply Hhd.
    + intros k. rewrite lookup_insert_is_Some. intros [<-|[_ ?]]; [lia|auto].
    + intros k Hk. rewrite lookup_insert_ne by set_solver. apply Hdis. set_solver.
    + cbn. by rewrite Hcap.
    + exists f. split_and!; [|done|].
      * cbn [write_entries]. erewrite ST_bind_Ok by done. erewrite ST_bind_Ok; [exact Hrun|].
        unfold on_vt_file, zoom. cbn [vt_file set_vt_file entry_size]. by rewrite Hw.
      * replace (entries_map ((i, (rid, d)) :: l) ∪ m) with (entries_map l ∪ <[i := d]> m); [done|].
        unfold entries_map. cbn. rewrite <- insert_union_l, insert_union_r; [done|].
        apply not_elem_of_list_to_map_1. rewrite <- list_fmap_compose.
        replace ((fst ∘ λ '(i0, (_, d0)), (i0, d0)) <$> l) with l.*1; [done|].
        apply list_fmap_ext. by intros ? [? [? ?]].
Qed.

(** A new table whose file has grown to the bytes [c]. *)
Definition grown_table (c : bytes) (tid : ValueTableId) (v : Z) : ValueTable :=
  MkValueTable tid 32 (MkTableFile (Some c) 8192 false tid) 1 0 false false false v.

Lemma grow_new tid v : ∃ c, length c = Z.to_nat 262144 ∧
  on_vt_file (TableFile.grow (entry_size (new_table tid (Some 32) false v))) (new_table tid (Some 32) false v) =
    (Ok tt, grown_table c tid v).
Proof.
  assert (Ec : wrap64 (0 + GROW_SIZE_BYTES / 32) = 8192) by (vm_compute; reflexivity).
  unfold on_vt_file, zoom, TableFile.grow, new_table. cbn [vt_file entry_size default file capacity dirty file_id from_option id].
  rewrite Ec. eexists. split; [|reflexivity]. rewrite length_set_len. f_equal.
Qed.

Lemma grown_file c tid v : length c = Z.to_nat 262144 → file_ok (grown_table c tid v).
Proof.
  intros Hc. assert (E : length (contents (grown_table c tid v)) = Z.to_nat 262144) by exact Hc.
  unfold file_ok. rewrite E. unfold grown_table. cbn [vt_file file capacity entry_size]. split_and!; lia.
Qed.
Lemma grown_repr c tid v w : repr (grown_table c tid v) w [] [].
Proof. by split. Qed.

(** The record that [init_with_entry] writes. *)
Lemma init_record c tid v entry rid : (length entry ≤ 26)%nat →
  ∃ free new t2 w2, (at_ ← overwrite_chain NoHash entry None false; _ ← complete_plan; mret at_) (grown_table c tid v, LogWriter.new empty_overlays rid) =
    (Ok 1, (set_dirty_header false t2, logged_header t2 w2)) ∧
    same_shape (grown_table c tid v) t2 ∧ repr t2 w2 free ((1 :: new, stored_new NoHash entry false) :: []) ∧
    2 ≤ filled t2 ≤ 30 ∧ log_frame (grown_table c tid v) (seqZ 1 (filled t2 - 1)) (LogWriter.new empty_overlays rid) w2 ∧ dirty_header t2 = true.
Proof.
  intros Hlen. set (t := grown_table c tid v). set (w0 := LogWriter.new empty_overlays rid).
  destruct (write_insert_at t w0 [] [] NoHash entry false (grown_repr c tid v w0)) as
    (i & new & t2 & w2 & free & Hrun & Hsh & Hr & Hfl & Hfr & Hi); [done|right; change (length entry ≤ 30)%nat; lia|change (1 + Z.of_nat (length entry + 0 + 0)%nat < 2 ^ 48); lia|].
  rewrite (Hi eq_refl) in *. change (filled t) with 1 in *. cbn [app] in Hfr.
  pose proof (repr_range _ _ _ _ Hr) as [_ [Hpos _]%Forall_cons]%Forall_app. cbn in Hpos.
  exists free, new, t2, w2. split_and!; try done; [|lia| |].
  - change (overwrite_chain NoHash entry None false) with (write_insert_plan NoHash entry false).
    erewrite ST_bind_Ok by exact Hrun. by erewrite ST_bind_Ok by apply complete_plan_spec.
  - unfold payload_len in Hfl. cbn in Hfl. lia.
  - pose proof (keeps_overwrite_chain NoHash entry None false (t, w0)) as Hm.
    change (overwrite_chain NoHash entry None false) with (write_insert_plan NoHash entry false) in Hm.
    rewrite Hrun in Hm. destruct Hm as [?|(_ & E & _)]; [done|]. cbn in E. lia.
Qed.

(** The first table of a new column, with a small entry. *)
Lemma init_new_table tid v entry : is_u16 (ValueTableId.as_u16 tid) → (length entry ≤ 26)%nat →
  ∃ t', init_with_entry entry (new_table tid (Some 32) false v) = (Ok tt, t') ∧
    (∀ rid, store_repr t' (LogWriter.new empty_overlays rid) {[1 := stored_new NoHash entry false]}) ∧ file_ok t' ∧ disk_meta t' ∧
    same_shape t' (set_vt_file (vt_file t') (grown_table [] tid v)) ∧ filled t' ≤ 30.
Proof.
  intros Hid Hlen. destruct (grow_new tid v) as (c & Hc & Hgrow). set (t := grown_table c tid v). set (w0 := LogWriter.new empty_overlays 0).
  destruct (init_record c tid v entry 0 Hlen) as (free & new & t2 & w2 & Hrun & Hsh & Hr & Hfl & Hfr & Hd). fold t w0 in Hrun, Hsh, Hfr.
  set (t3 := set_dirty_header false t2) in *. set (w3 := logged_header t2 w2) in *. set (o := own_entries w3 tid).
  assert (Et : vt_id t2 = tid) by apply (sh_id _ _ Hsh).
  assert (Ef : vt_file t2 = vt_file t) by apply (sh_file _ _ Hsh).
  destruct (entries_map_perm (iter o) o (iter_perm o)) as [Hnd Hmap].
  assert (Hm : ∀ i, entries_map (iter o) !! i = own_value w3 tid i) by (intros i; by rewrite Hmap, own_entries_value).
  assert (Hok : file_ok t3).
  { pose proof (grown_file c tid v Hc) as Hg. unfold file_ok, contents, t3 in *. cbn [vt_file set_dirty_header entry_size].
    by rewrite Ef, (sh_size _ _ Hsh). }
  assert (Hwf3 : table_wf t3) by (by destruct (r_wf _ _ _ _ Hr)).
  destruct (write_entries_spec t3 (iter o) ∅ t3) as (f & Hwrite & Hf & Hen).
  { done. } { by apply enacted_nil. } { change (vt_file t3) with (vt_file t2). by rewrite Ef. } { done. } { by intros i [? ?]. } { done. }
  { apply Forall_forall. intros [i [k d]] Hin. rewrite (iter_perm o) in Hin. apply elem_of_map_to_list in Hin.
    assert (Ho : own_value w3 (vt_id t) i = Some d) by (change (vt_id t) with tid; by rewrite own_entries_value; fold o; rewrite Hin).
    destruct (record_logged t t2 w0 w2 (filled t2 - 1) i d Hsh) as [Hi Hl]; [done|done|lia|done|].
    split_and!; [lia| |lia|by eapply (logged_shape t); [etrans; [exact Hsh|]|]].
    change (vt_file t3) with (vt_file t2). rewrite Ef. cbn [vt_file t grown_table capacity].
    destruct (Z.eq_dec i 0) as [->|Hi0]; [lia|]. change (vt_id t) with tid in Ho. rewrite <- Et in Ho. unfold w3 in Ho.
    rewrite own_value_logged_header, Et in Ho by lia. destruct (fr_own _ _ _ _ Hfr i d Ho) as [Hx|[Hx%elem_of_seqZ _]]; [done|lia]. }
  rewrite (right_id_L ∅ (∪)) in Hen. exists (set_vt_file f t3).
  assert (Hhd : TableEnact.header_of (set_vt_file f t3) = Header.make (last_removed t2) (filled t2)).
  { apply (enacted_header t3 _ f _ Hwf3 Hen); [|unfold Header.make, INDEX_SIZE; len]. rewrite Hm. unfold w3, logged_header.
    rewrite Hd, Et, own_value_insert_value, decide_True by done. done. }
  assert (Hlv : local_values (writer_log w3) !! tid = Some o).
  { assert (Hx : own_value w3 tid 0 = Some (Header.make (last_removed t2) (filled t2))).
    { unfold w3, logged_header. rewrite Hd, Et, own_value_insert_value, decide_True by done. done. }
    unfold own_value, overlay_lookup in Hx. unfold o, own_entries. by destruct (local_values (writer_log w3) !! tid). }
  assert (Hov : writer_overlays w3 = empty_overlays) by (unfold w3, logged_header; rewrite Hd; apply (fr_overlays _ _ _ _ Hfr)).
  assert (Hmeta : is_u64 (last_removed t2)).
  { eapply free_head_u64; [apply (r_free _ _ _ _ Hr)|]. pose proof (repr_range _ _ _ _ Hr) as [Hrg _]%Forall_app.
    eapply Forall_impl; [exact Hrg|]. unfold is_u64. cbn. lia. }
  destruct (header_make (last_removed t2) (filled t2)) as (_ & Hlr & Hfi); [done|unfold is_u64; lia|].
  split_and!.
  - unfold init_with_entry. erewrite ST_bind_Ok by done.
    erewrite ST_bind_Ok by exact Hgrow.
    erewrite ST_bind_Ok.
    2: { unfold with_writer. change (LogWriter.new empty_overlays 0) with w0. fold t. rewrite Hrun. reflexivity. }
    cbv beta iota. erewrite ST_bind_Ok by reflexivity. erewrite ST_bind_Ok; [exact Hwrite|].
    unfold lift_st, local_values_changes, LogWriter.drain. change (vt_id _) with tid. rewrite Hlv. reflexivity.
  - intros rid. exists free, [(1 :: new, stored_new NoHash entry false)]. split; [|done]. eapply (enacted_repr t3 w3 _ _ _ _ _ Hen); [|by intros i; rewrite Hov|done|by apply repr_logged_header].
    intros i. rewrite Hm. change (vt_id t3) with (vt_id t2). by rewrite Et.
  - apply (en_ok _ _ _ Hen).
  - unfold disk_meta. rewrite Hhd, Hlr, Hfi. cbn. destruct (Z.eqb_spec (filled t2) 0); [lia|done].
  - destruct Hsh. by split.
  - cbn. lia.
Qed.


End Init.

Section Open.
Context `{UI : !Uninit, CD : !Codecs, HO : !HashMapOrder}.
Context (col : ColId) (o : ColumnOptions) (meta : Metadata).
Hypothesis col_u8 : is_u8 col.
Hypothesis no_rc : ref_counted_opt o = false.
Hypothesis of_column : meta_columns meta !! Z.to_nat col = Some o.
Abbreviation new := (new_tables col o (meta_version meta) (seq 0 SIZE_TIERS)).
Abbreviation header := (write_header (MkBTreeHeader NULL_ADDRESS 0)).
Abbreviation stores := (<[0%nat := {[1 := stored_new NoHash header false]}]> (replicate SIZE_TIERS (∅ : Store))).

(** The new tables with the first one replaced. *)
Lemma header_tables_repr t' comp rid :
  (∀ rid, store_repr t' (LogWriter.new empty_overlays rid) {[1 := stored_new NoHash header false]}) → file_ok t' → disk_meta t' →
  same_shape t' (set_vt_file (vt_file t') (grown_table [] (ValueTableId.new col 0) (meta_version meta))) →
  tables_repr col false comp (<[0%nat := t']> new) (LogWriter.new empty_overlays rid) stores.
Proof using Type* UI.
  intros Hr Hok Hm Hsh. destruct (new_tables_repr col o (meta_version meta) comp rid col_u8) as [T1 T2 T3 T4 T5 T6 T7 T8 T9 T10 T11].
  rewrite no_rc in T5.
  assert (Hlk : ∀ (P : nat → ValueTable → Prop), P 0%nat t' → (∀ i t, new !! i = Some t → P i t) → ∀ i t, <[0%nat := t']> new !! i = Some t → P i t).
  { intros P Hz Hs i t [(<- & <- & _)|[_ Ht]]%list_lookup_insert_Some; [exact Hz|by apply Hs]. }
  destruct Hsh as [S1 S2 S3 S4 S5 S6]. cbn in S1, S2, S4, S5.
  split; rewrite ?length_insert; try done.
  - intros i t m Ht [(<- & <- & _)|[Hi Hs]]%list_lookup_insert_Some; apply list_lookup_insert_Some in Ht as [(? & -> & _)|[? Ht]]; try done.
    by eapply T3.
  - apply Hlk; [by rewrite <- S1|done].
  - apply (Hlk (fun _ t => ref_counted t = false)); [by rewrite <- S5|done].
  - intros i m off s [(<- & <- & _)|[_ Hs]]%list_lookup_insert_Some; [|by eapply T7].
    intros [<- <-]%lookup_singleton_Some. split; [lia|]. split; [done|]. by exists header.
  - apply (Hlk (fun _ t => file_ok t)); done.
  - apply Hlk; [by rewrite <- S2, <- S4|done].
  - apply (Hlk (fun _ t => header_shown t _)); [by right|done].
Qed.

(** Opening a new ordered column leaves the header of an empty tree. *)
Lemma open_new_column : ∃ t, btree_open col new meta = Ok t ∧
  btt_compression t = Compress.new (compression o) (compression_threshold o) ∧ btt_ref_counted t = false ∧
  ∀ comp rid, tables_repr col false comp (btt_tables t) (LogWriter.new empty_overlays rid) stores ∧
    room (btt_tables t) (2 ^ 47).
Proof.
  destruct (init_new_table (ValueTableId.new col 0) (meta_version meta) header) as (t' & Hrun & Hr & Hok & Hm & Hsh & Hf).
  - by apply value_id_new.
  - unfold write_header. len.
  - exists (MkBTreeTable col (<[0%nat := t']> new) false (Compress.new (compression o) (compression_threshold o))). split_and!; try done.
    + unfold btree_open. change (tier_of HEADER_ADDRESS) with 0%nat.
      assert (Hz : new !! 0%nat = Some (new_table (ValueTableId.new col 0) (Some 32) false (meta_version meta))).
      { unfold new_tables. cbn. by rewrite no_rc. }
      rewrite Hz. cbn [unwrap]. rewrite outcome_bind_Ok. cbn [is_init vt_file new_table file]. rewrite Hrun.
      rewrite outcome_bind_Ok, outcome_bind_Ok, of_column. cbn [unwrap]. by rewrite outcome_bind_Ok, no_rc.
    + intros comp rid. split; [by apply header_tables_repr|]. cbn [btt_tables].
      intros i t [(<- & <- & _)|[_ Ht]]%list_lookup_insert_Some; [lia|]. apply new_tables_lookup in Ht as [_ ->]. cbn. lia.
Qed.

(** The header is the only entry. *)
Lemma new_entries t rid comp n w0 : btree_open col new meta = Ok t → w0 = LogWriter.new empty_overlays rid → Z.of_nat n ≤ 2 ^ 47 →
  comp = Compress.new (compression o) (compression_threshold o) →
  entries_repr col comp w0 comp (btree_locked t, LogWriter.new empty_overlays rid) {[HEADER_ADDRESS := header]} n.
Proof.
  intros Ho -> Hn ->. destruct open_new_column as (t' & Ho' & Hc & Hrc & Ht). rewrite Ho in Ho'. injection Ho' as <-.
  destruct (Ht (Compress.new (compression o) (compression_threshold o)) rid) as [Htb Hroom]. split; try done.
  - exists stores. split; [done|]. intros a v [<- <-]%lookup_singleton_Some. split; [done|].
    exists (stored_new NoHash header false). done.
  - intros i vt Hvt. pose proof (Hroom i vt Hvt). lia.
Qed.

End Open.

(** * What a commit to an ordered column leaves alone

    The writer of a record keeps its record and the overlays it reads, and only
    tables of the column are logged (src/src/btree/btree.rs,
    src/src/btree/node.rs). *)

Section Frames.
Context `{!Uninit, !Codecs}.
Context (col : ColId).
Abbreviation rkeeps := (keeps (of_tables col) (tables_step col)).

Lemma rkeeps_read {A} (f : TablesRef → LogWriter → outcome A) : rkeeps ('(r, w) ← get_st; lift_st (f r w)).
Proof. keeps_tac. Qed.
Lemma with_compression_keeps {A} c (m : ST TRW A) : rkeeps m → rkeeps (with_compression c m).
Proof.
  intros Hm [r w] Hs. unfold with_compression. destruct (Hm (set_tr_compression c r, w) Hs) as [H1 H2].
  by destruct (m (set_tr_compression c r, w)) as [o [r' w']].
Qed.
Hint Resolve write_existing_value_plan_keeps write_new_value_plan_keeps : keeps.

Lemma fetch_child_keeps i n : rkeeps (fetch_child_st i n).
Proof. unfold fetch_child_st. keeps_tac. Qed.
Lemma fetch_root_keeps a : rkeeps (fetch_root_st a).
Proof. unfold fetch_root_st. keeps_tac. Qed.
Lemma write_node_plan_keeps n o : rkeeps (write_node_plan n o).
Proof. unfold write_node_plan. destruct (node_changed n); [apply with_compression_keeps|]; keeps_tac. Qed.
Hint Resolve fetch_child_keeps fetch_root_keeps write_node_plan_keeps : keeps.
Lemma write_plan_remove_node_keeps a : rkeeps (write_plan_remove_node a).
Proof. unfold write_plan_remove_node. keeps_tac. Qed.
Lemma write_child_keeps i c n : rkeeps (write_child i c n).
Proof. unfold write_child. keeps_tac. Qed.
Lemma write_split_child_keeps n : rkeeps (write_split_child n).
Proof. unfold write_split_child. keeps_tac. Qed.
Lemma create_separator_keeps k v o : rkeeps (create_separator k v o).
Proof. unfold create_separator. keeps_tac. Qed.
Hint Resolve write_plan_remove_node_keeps write_child_keeps write_split_child_keeps create_separator_keeps : keeps.

Lemma rebalance_keeps hc i n : rkeeps (rebalance hc i n).
Proof. unfold rebalance, balance_from_left, balance_from_right, merge_children. keeps_tac. Qed.
Lemma need_remove_root_keeps n : rkeeps (need_remove_root n).
Proof. unfold need_remove_root. keeps_tac. Qed.
Hint Resolve rebalance_keeps need_remove_root_keeps : keeps.
Lemma remove_last_keeps d : ∀ n, rkeeps (remove_last d n).
Proof. induction d as [|d IH]; intros n; cbn [remove_last]; keeps_tac. Qed.
Lemma insert_split_keeps i s c n : rkeeps (insert_split i s c n).
Proof. unfold insert_split. keeps_tac. Qed.
Hint Resolve remove_last_keeps insert_split_keeps : keeps.
Lemma insert_node_keeps i s c n : rkeeps (insert_node i s c n).
Proof. unfold insert_node. keeps_tac. Qed.
Hint Resolve insert_node_keeps : keeps.

Section Change.
Context (change_child : option (Node * nat) → Node → Changes → ST TRW (Node * Changes * ChangeRes)).
Hypothesis child_keeps : ∀ p n cs, rkeeps (change_child p n cs).

Lemma change_below_keeps d i n cs : rkeeps (change_below change_child d i n cs).
Proof using Type*. unfold change_below. keeps_tac. Qed.
Hint Resolve change_below_keeps : keeps.
Lemma node_insert_keeps d k v n cs : rkeeps (node_insert change_child d k v n cs).
Proof using Type*. unfold node_insert. keeps_tac. Qed.
Lemma node_remove_keeps d k n cs : rkeeps (node_remove change_child d k n cs).
Proof using Type*. unfold node_remove. keeps_tac. Qed.
Hint Resolve node_insert_keeps node_remove_keeps : keeps.
Lemma change_loop_keeps fuel d p : ∀ n cs, rkeeps (change_loop change_child fuel d p n cs).
Proof using Type*. induction fuel as [|fuel IH]; intros n cs; cbn [change_loop]; keeps_tac. Qed.
End Change.

Lemma node_change_keeps d : ∀ p n cs, rkeeps (node_change d p n cs).
Proof.
  induction d as [|d IH]; intros p n cs; cbn [node_change]; apply change_loop_keeps; [|done].
  intros. apply keeps_lift, _.
Qed.
Hint Resolve node_change_keeps : keeps.
Lemma write_changes_loop_keeps fuel : ∀ t n cs, rkeeps (write_changes_loop fuel t n cs).
Proof. induction fuel as [|fuel IH]; intros t n cs; cbn [write_changes_loop]; keeps_tac. Qed.
Hint Resolve write_changes_loop_keeps : keeps.

Lemma changeset_keeps rid cs : rkeeps (changeset_write_plan rid cs).
Proof. unfold changeset_write_plan, write_sorted_changes, btree_write_plan. keeps_tac. Qed.

End Frames.

(** * Records with one commit *)

Section Commit.
Context `{!Uninit, !Codecs}.
Context (col : ColId) (comp : Compress) (w0 : LogWriter) (K : nat).

(** The tables and the log of an ordered column hold the pairs [kv], keys of at
    most [K] bytes, and have room for [n] more; maybe there are other entries,
    that nothing refers to. *)
Definition ordered_repr (s : TRW) (n : nat) (kv : list (bytes * bytes)) : Prop :=
  ∃ h, entries_repr col comp w0 comp s (cells h) (credits h + n) ∧ ordered K kv h.

Context `{!CodecLaws}.
Hypothesis col_u8 : is_u8 col.
Hypothesis K_small : Z.of_nat (node_bytes K) < 2 ^ 32.

Lemma ordered_table s n kv : ordered_repr s n kv → table_repr (tr_tables s.1) (tr_compression s.1) s.2 kv.
Proof.
  intros (h & Hr & Ho). pose proof (entails_at (ordered_fact col comp w0 col_u8 K K_small s kv) _ Ho) as Hf.
  apply (Hf (MkHeap ∅ n)); [apply map_disjoint_empty_r|]. unfold world. cbn. by rewrite map_union_empty.
Qed.

Lemma ordered_commit_run s n kv rid changes : ordered_repr s n kv → compresses comp → Forall (key_ok K) changes → (commit_cost K changes ≤ n)%nat →
  ∃ s', changeset_write_plan rid changes s = (Ok tt, s') ∧
    ordered_repr s' (n - commit_cost K changes) (upds (sort_changes changes) kv).
Proof.
  intros (h & Hr & Ho) Hc Hk Hn. set (cost := commit_cost K changes) in *.
  destruct (entails_at (wp_changeset col comp w0 col_u8 K K_small rid changes kv Hc Hk) (MkHeap (cells h) (credits h + cost))) with
    (rest := MkHeap ∅ (n - cost)) (s := s) as ([] & s' & h' & Hrun & Hd & Hw & Ho').
  - exists h, (MkHeap ∅ cost). split_and!; [apply map_disjoint_empty_r| |done|cbn; lia].
    split; cbn; [by rewrite map_union_empty|lia].
  - apply map_disjoint_empty_r.
  - unfold world. cbn. rewrite map_union_empty. by replace (credits h + cost + (n - cost))%nat with (credits h + n)%nat by lia.
  - exists s'. split; [done|]. exists h'. split; [|done].
    unfold world in Hw. cbn in Hw. by rewrite map_union_empty in Hw.
Qed.

End Commit.

(** ** The end of a record *)

(** The next record reads the overlays of the log, which show what the writer of
    this one saw. *)
Lemma entries_next `{!Uninit, !Codecs} col comp w0 c r w o rid E n : entries_repr col comp w0 c (r, w) E n →
  (∀ id i, value_view o id i = value_view w id i) →
  entries_repr col comp (LogWriter.new o rid) c (r, LogWriter.new o rid) E n.
Proof.
  intros [R1 R2 R3 R4 (SS & Htb & Hh) R6 R7] Hv. split; try done. exists SS. split; [|done].
  assert (Hn : ∀ id i, value_view (LogWriter.new o rid) id i = value_view w id i).
  { intros id i. by rewrite <- Hv. }
  destruct Htb as [T1 T2 T3 T4 T5 T6 T7 T8 T9 T10 T11]. split; try done.
  - intros i t m Ht Hm. eapply store_repr_frame; [|by eapply T3]. intros j. apply Hn.
  - intros i t Ht. specialize (T11 i t Ht). unfold header_shown in *. by rewrite Hn.
Qed.

(** Ending the record leaves the entries and the room. *)
Lemma complete_tables_filled `{!Uninit} tiers : ∀ r w o r' w', complete_tables tiers (r, w) = (o, (r', w')) →
  ∀ j, filled <$> tr_tables r' !! j = filled <$> tr_tables r !! j.
Proof.
  induction tiers as [|i tiers IH]; intros r w o r' w' Hrun j; [by injection Hrun as _ <- _|].
  cbn [complete_tables] in Hrun. unfold mbind, ST_bind, on_tier in Hrun.
  destruct (tr_tables r !! i) as [t|] eqn:Ht; [|by injection Hrun as _ <- _]. rewrite complete_plan_spec in Hrun.
  rewrite (IH _ _ _ _ _ Hrun j). cbn [tr_tables set_tr_tables]. rewrite list_lookup_insert. case_decide as Hd; [|done].
  destruct Hd as [<- _]. by rewrite Ht.
Qed.

Lemma entries_complete `{!Uninit, !Codecs, !CodecLaws} col comp w0 c r w tiers E n : is_u8 col → entries_repr col comp w0 c (r, w) E n →
  Forall (fun i => (i < SIZE_TIERS)%nat) tiers →
  ∃ ts w', complete_tables tiers (r, w) = (Ok tt, (set_tr_tables ts r, w')) ∧
    entries_repr col comp w0 c (set_tr_tables ts r, w') E n.
Proof.
  intros Hu [R1 R2 R3 R4 (SS & Htb & Hh) R6 R7] Hlt. cbn [fst snd] in *.
  destruct (complete_tables_ok col false comp tiers Hu r w SS Htb Hlt) as (ts & w' & Hrun & Htb' & Hix & _).
  exists ts, w'. split; [exact Hrun|]. split; try done.
  - by exists SS.
  - intros i t Ht. pose proof (complete_tables_filled _ _ _ _ _ _ Hrun i) as Hf. cbn in Ht, Hf. rewrite Ht in Hf.
    destruct (tr_tables r !! i) as [t0|] eqn:Ht0; [|done]. injection Hf as ->. by apply R6 in Ht0.
  - by etrans.
Qed.

(** ** Lookups read the log through its view *)

Lemma outcome_bind_ext {A B} (m : outcome A) (f g : A → outcome B) : (∀ a, f a = g a) → (m ≫= f) = (m ≫= g).
Proof. intros Hf. by destruct m as [a| | | | |]; [apply Hf|..]. Qed.
Lemma outcome_bind_assoc {A B C} (m : outcome A) (f : A → outcome B) (g : B → outcome C) :
  ((m ≫= f) ≫= g) = (m ≫= fun a => f a ≫= g).
Proof. by destruct m. Qed.

Section Ext.
Context `{!Uninit, !Codecs} {L1 L2 : Type} `{LogView L1, LogView L2} (l1 : L1) (l2 : L2).
Hypothesis same_values : ∀ id i, value_view l1 id i = value_view l2 id i.
Hypothesis same_chunks : ∀ id i, index_view l1 id i = index_view l2 id i.

Lemma btree_get_ext ts c key : btree_get ts c l1 key = btree_get ts c l2 key.
Proof using All.
  assert (He : ∀ a, get_encoded_entry ts c l1 a = get_encoded_entry ts c l2 a).
  { intros a. unfold get_encoded_entry. by rewrite (get_value_ext l1 l2). }
  assert (Hn : ∀ fuel n, node_get ts c l1 fuel key n = node_get ts c l2 fuel key n).
  { induction fuel as [|fuel IH]; intros n; [reflexivity|]. cbn [node_get]. destruct (position key n) as [[] i]; [reflexivity|].
    unfold fetch_child. rewrite !outcome_bind_assoc. apply outcome_bind_ext. intros x. destruct (entry_index x) as [a|]; [|reflexivity].
    rewrite He, !outcome_bind_assoc. apply outcome_bind_ext. intros e. rewrite !outcome_bind_assoc. apply outcome_bind_ext.
    intros child. rewrite !outcome_bind_Ok. apply IH. }
  assert (Hh : btree_header ts c l1 = btree_header ts c l2).
  { unfold btree_header. by rewrite (get_value_ext l1 l2). }
  unfold btree_get. rewrite Hh. apply outcome_bind_ext. intros h. case_decide as Hroot; [reflexivity|].
  unfold tree_get, fetch_root. rewrite He. apply outcome_bind_ext. intros n. rewrite Hn. apply outcome_bind_ext.
  intros [a|]; [|reflexivity]. by rewrite (get_value_ext l1 l2).
Qed.

End Ext.

(** ** Records *)

Section Records.
Context `{!Uninit, !Codecs, !CodecLaws, !HashMapOrder}.
Context (col : ColId) (comp : Compress) (K : nat).
Hypothesis col_u8 : is_u8 col.
Hypothesis K_small : Z.of_nat (node_bytes K) < 2 ^ 32.

(** The column [t] with the overlays [o] of the log holds the pairs [kv]; its
    tables have room for [n] more. *)
Definition ordered_store (t : BTreeTable) (o : LogOverlays) (n : nat) (kv : list (bytes * bytes)) : Prop :=
  ∀ rid, ordered_repr col comp (LogWriter.new o rid) K (btree_locked t, LogWriter.new o rid) n kv.

Lemma ordered_store_get t o n kv key : ordered_store t o n kv →
  btree_get (btt_tables t) (btt_compression t) o key = Ok (find_key key kv).
Proof using Type*.
  intros Hs. rewrite (btree_get_ext o (LogWriter.new o 0)) by done.
  apply (table_get _ _ _ key _ (ordered_table _ _ _ K col_u8 K_small _ _ _ (Hs 0))).
Qed.

Lemma on_btree_run {A} (m : ST TRW A) t w a r' w' : m (btree_locked t, w) = (Ok a, (r', w')) →
  on_btree m (t, w) = (Ok a, (set_btt_tables (tr_tables r') t, w')).
Proof using Type. intros Hm. unfold on_btree, zoom. by rewrite Hm. Qed.

Lemma locked_eq t r w w0 E n : entries_repr col comp w0 comp (r, w) E n → btt_compression t = comp → btt_ref_counted t = false →
  btree_locked (set_btt_tables (tr_tables r) t) = r.
Proof using Type.
  intros [R1 R2 R3 R4 _ _ _] Hc Hrc. cbn in *. unfold btree_locked. cbn. destruct r. cbn in *. congruence.
Qed.

(** A record with one commit: the plan and the end of the record. *)
Lemma ordered_record_run t o rid n kv changes : ordered_store t o n kv → compresses comp → Forall (key_ok K) changes →
  (commit_cost K changes ≤ n)%nat →
  ∃ t1 w1 t2 w2, on_btree (changeset_write_plan rid changes) (t, LogWriter.new o rid) = (Ok tt, (t1, w1)) ∧
    btree_complete_plan (t1, w1) = (Ok tt, (t2, w2)) ∧ writer_overlays w2 = o ∧ LogWriter.record_id w2 = rid ∧
    ∀ o', (∀ id i, value_view o' id i = value_view w2 id i) →
      ordered_store t2 o' (n - commit_cost K changes) (upds (sort_changes changes) kv).
Proof using Type*.
  intros Hs Hc Hk Hn. destruct (Hs rid) as (h0 & Hr0 & _).
  destruct (ordered_commit_run col comp _ K col_u8 K_small _ n kv rid changes (Hs rid) Hc Hk Hn) as ([r1 w1] & Hrun & (h & Hr & Ho)).
  assert (Hof : of_tables col (btree_locked t, LogWriter.new o rid)).
  { intros i t0 Ht. destruct (er_tables _ _ _ _ _ _ _ Hr0) as (SS & Htb & _). rewrite (tb_id _ _ _ _ _ _ Htb _ _ Ht).
    apply value_id_new; [done|]. apply lookup_lt_Some in Ht. rewrite (tb_len _ _ _ _ _ _ Htb) in Ht. unfold SIZE_TIERS, is_u8 in *. lia. }
  destruct (changeset_keeps col rid changes _ Hof) as [Hof1 [Hw1 _]]. rewrite Hrun in Hof1, Hw1. cbn [snd] in Hof1, Hw1.
  destruct (entries_complete col comp _ comp r1 w1 (seq 0 (length (tr_tables r1))) _ _ col_u8 Hr) as (ts & w2 & Hcomp & Hr2).
  { apply Forall_forall. intros i Hi%elem_of_seq. destruct (er_tables _ _ _ _ _ _ _ Hr) as (SS & Htb & _). cbn in Htb.
    rewrite (tb_len _ _ _ _ _ _ Htb) in Hi. lia. }
  destruct (complete_tables_keeps col (seq 0 (length (tr_tables r1))) _ Hof1) as [_ [Hw2 _]]. rewrite Hcomp in Hw2. cbn [snd] in Hw2.
  assert (Hl1 : btree_locked (set_btt_tables (tr_tables r1) t) = r1).
  { eapply locked_eq; [exact Hr|apply (er_comp _ _ _ _ _ _ _ Hr0)|apply (er_rc _ _ _ _ _ _ _ Hr0)]. }
  assert (Hl2 : btree_locked (set_btt_tables ts (set_btt_tables (tr_tables r1) t)) = set_tr_tables ts r1).
  { apply (locked_eq (set_btt_tables (tr_tables r1) t) (set_tr_tables ts r1) w2 (LogWriter.new o rid) (cells h) (credits h + (n - commit_cost K changes)));
      [exact Hr2|apply (er_comp _ _ _ _ _ _ _ Hr0)|apply (er_rc _ _ _ _ _ _ _ Hr0)]. }
  eexists _, w1, _, w2. split_and!.
  - by apply on_btree_run in Hrun.
  - unfold btree_complete_plan. erewrite ST_bind_Ok by done. cbv beta iota. rewrite <- Hl1 in Hcomp. apply on_btree_run in Hcomp. exact Hcomp.
  - cbn in Hw1, Hw2. by rewrite (ws_overlays _ _ _ Hw2), (ws_overlays _ _ _ Hw1).
  - cbn in Hw1, Hw2. by rewrite (ws_record _ _ _ Hw2), (ws_record _ _ _ Hw1).
  - intros o' Hv rid'. exists h. split; [|done]. change (btree_locked _) with (btree_locked (set_btt_tables ts (set_btt_tables (tr_tables r1) t))). rewrite Hl2. by eapply entries_next.
Qed.

End Records.

(** A new column. *)
Lemma new_store `{!Uninit, !Codecs, !CodecLaws, !HashMapOrder} col comp K o meta n : is_u8 col →
  ref_counted_opt o = false → meta_columns meta !! Z.to_nat col = Some o →
  comp = Compress.new (compression o) (compression_threshold o) → Z.of_nat n ≤ 2 ^ 47 →
  ∃ t, btree_open col (new_tables col o (meta_version meta) (seq 0 SIZE_TIERS)) meta = Ok t ∧
    ordered_store col comp K t empty_overlays n [].
Proof.
  intros Hu Hrc Hm Hc Hn. destruct (open_new_column col o meta Hu Hrc Hm) as (t & Ho & _). exists t. split; [done|].
  intros rid. exists (MkHeap {[HEADER_ADDRESS := write_header (MkBTreeHeader NULL_ADDRESS 0)]} 0). split.
  - by apply (new_entries col o meta Hu Hrc Hm t rid comp (0 + n)).
  - apply new_ordered.
Qed.
