(* ===== verification/TreeThms.v ===== *)
(** * Theorems about ordered columns

    A new ordered column is empty; a commit to it keeps its search tree and
    changes its pairs as the abstract map does, also as a record of the log that
    the log worker writes (src/src/btree/mod.rs, src/src/btree/btree.rs,
    src/src/btree/node.rs, src/src/db.rs). *)

From S2P Require Import Prelude.
From S2P Require Import Bytes.
From S2P Require Import Ids.
From S2P Require Import Log.
From S2P Require Import LogState.
From S2P Require Import LogStateProofs.
From S2P Require Import Table.
From S2P Require Import Instances.
From S2P Require Import LogThms.
From S2P Require Import Compress.
From S2P Require Import Options.
From S2P Require Import Column.
From S2P Require Import ColumnLinks.
From S2P Require Import ColumnOpen.
From S2P Require Import ColumnThms.
From S2P Require Import BTreeNode.
From S2P Require Import BTree.
From S2P Require Import Overlay.
From S2P Require Import DbOpen.
From S2P Require Import Db.
From S2P Require Import KeyOrder.
From S2P Require Import BTreeLookup.
From S2P Require Import BTreeShape.
From S2P Require Import EntryStore.
From S2P Require Import TreeCommit.
From S2P Require Import TreeSession.
From stdpp Require Import options.
#[local] Set Default Proof Using "Type*".

(** What a lookup finds after changes: the last change of the key, or what was
    there before. *)
Definition looked_up (changes : Changes) (kv : list (bytes * bytes)) (key : bytes) : option bytes :=
  match last_change key changes with Some o => o | None => find_key key kv end.

Lemma find_key_sorted_changes key changes kv : find_key key (upds (sort_changes changes) kv) = looked_up changes kv key.
Proof. by rewrite find_key_upds, last_change_sort. Qed.

Lemma iter_singleton `{!HashMapOrder} {K A} `{Countable K} (k : K) (a : A) : iter {[k := a]} = [(k, a)].
Proof. apply Permutation_singleton_r. by rewrite iter_perm, map_to_list_singleton. Qed.
Lemma iter_empty `{!HashMapOrder} {K A} `{Countable K} : iter (∅ : gmap K A) = [].
Proof. apply Permutation_nil_r. by rewrite iter_perm, map_to_list_empty. Qed.

(** A transaction with changes to column 0, an ordered one. *)
Definition tree_changes (changes : Changes) : CommitChangeSet := MkCommitChangeSet ∅ {[0 := changes]}.

Section Claims.
Context `{UI : !Uninit, CD : !Codecs, CL : !CodecLaws, HO : !HashMapOrder}.
Context (col : ColId) (comp : Compress) (K : nat).
Hypothesis col_u8 : is_u8 col.
Hypothesis K_small : Z.of_nat (node_bytes K) < 2 ^ 32.

(** C3. A commit to an ordered column, whatever its changes and however large
    the tree is, runs without an error where there is room and keeps the search
    tree: nodes are split, balanced and merged, levels come and go, and after it
    the column holds the pairs that the changes, the later ones last, make of the
    pairs it held; a lookup of any key returns the last change of the commit to
    the key, or what the column held if the commit does not change it. *)
Theorem ordered_commit w0 s n kv rid changes :
  ordered_repr col comp w0 K s n kv → compresses comp → Forall (key_ok K) changes → (commit_cost K changes ≤ n)%nat →
  ∃ s', changeset_write_plan rid changes s = (Ok tt, s') ∧
    ordered_repr col comp w0 K s' (n - commit_cost K changes) (upds (sort_changes changes) kv) ∧
    ∀ key, btree_get (tr_tables s'.1) (tr_compression s'.1) s'.2 key = Ok (looked_up changes kv key).
Proof using Type*.
  intros Hr Hc Hk Hn. destruct (ordered_commit_run col comp w0 K col_u8 K_small s n kv rid changes Hr Hc Hk Hn) as (s' & Hrun & Hr').
  exists s'. split_and!; [done|done|]. intros key.
  by rewrite (table_get _ _ _ key _ (ordered_table col comp w0 K col_u8 K_small _ _ _ Hr')), find_key_sorted_changes.
Qed.

(** C20. Opening an ordered column on the value tables of a new column, without
    reference counts, succeeds: the first table gets a file with the header of an
    empty tree, written through a record of its own, and the column holds no
    pair, with room for 2^47 entries. *)
Theorem ordered_open o meta n : ref_counted_opt o = false → meta_columns meta !! Z.to_nat col = Some o →
  comp = Compress.new (compression o) (compression_threshold o) → Z.of_nat n ≤ 2 ^ 47 →
  ∃ t, btree_open col (new_tables col o (meta_version meta) (seq 0 SIZE_TIERS)) meta = Ok t ∧
    ordered_store col comp K t empty_overlays n [] ∧
    ∀ key, btree_get (btt_tables t) (btt_compression t) empty_overlays key = Ok None.
Proof using Type*.
  intros Hrc Hm Hc Hn. destruct (new_store col comp K o meta n col_u8 Hrc Hm Hc Hn) as (t & Ho & Hs).
  exists t. split_and!; [done|done|]. intros key. by apply (ordered_store_get col comp K col_u8 K_small t _ n []).
Qed.

End Claims.

Section Record.
Context `{UI : !Uninit, CD : !Codecs, CL : !CodecLaws, HO : !HashMapOrder, CR : !Crc32, BL : !Blake2}.
Context (comp : Compress) (K : nat).
Hypothesis K_small : Z.of_nat (node_bytes K) < 2 ^ 32.

(** The plan of such a commit on the only column. *)
Lemma plan_tree t w changes t1 w1 t2 w2 :
  on_btree (changeset_write_plan (LogWriter.record_id w) changes) (t, w) = (Ok tt, (t1, w1)) →
  btree_complete_plan (t1, w1) = (Ok tt, (t2, w2)) →
  ∃ ops, plan_commit (tree_changes changes) (([Tree t], w), (0, false)) = (Ok tt, (([Tree t2], w2), (ops, false))).
Proof using Type.
  intros H1 H2. eexists. unfold plan_commit, tree_changes. cbn [cs_indexed cs_btree]. rewrite iter_empty, iter_singleton.
  erewrite ST_bind_Ok by done. cbn [for_each]. erewrite ST_bind_Ok.
  2: { erewrite ST_bind_Ok; [reflexivity|]. unfold plan_btree, at_column. change ([Tree t] !! Z.to_nat 0) with (Some (Tree t)). cbv beta iota. rewrite H1. reflexivity. }
  erewrite ST_bind_Ok by done. cbv beta iota. change (seq 0 _) with [0%nat]. cbn [for_each].
  erewrite ST_bind_Ok; [reflexivity|]. unfold plan_complete, zoom, at_column.
  change (<[Z.to_nat 0:=Tree t1]> [Tree t]) with [Tree t1]. cbn [fst]. change ([Tree t1] !! 0%nat) with (Some (Tree t1)).
  unfold any_complete_plan. cbv beta iota. rewrite H2. reflexivity.
Qed.

(** C4. The log worker of a database with an ordered column writes a commit to
    it as one record of the log: the record gets the next number, the files of
    the log stay in order, and the column with the overlays of the log then holds
    the pairs that the changes make, so that every lookup sees the commit. *)
Theorem ordered_record d t n kv changes : db_columns d = [Tree t] → log_ok (db_log d) →
  next_log_id (db_log d) + 1 < 2 ^ 32 → 0 ≤ next_record_id (db_log d) → next_record_id (db_log d) + 1 < 2 ^ 64 →
  ordered_store 0 comp K t (lg_overlays (db_log d)) n kv → compresses comp → Forall (key_ok K) changes →
  (commit_cost K changes ≤ n)%nat →
  ∃ d' t', log_record (plan_commit (tree_changes changes)) d = (Ok (next_record_id (db_log d), false), d') ∧
    db_columns d' = [Tree t'] ∧ log_ok (db_log d') ∧ next_record_id (db_log d') = next_record_id (db_log d) + 1 ∧
    ordered_store 0 comp K t' (lg_overlays (db_log d')) (n - commit_cost K changes) (upds (sort_changes changes) kv) ∧
    ∀ key, btree_get (btt_tables t') (btt_compression t') (lg_overlays (db_log d')) key = Ok (looked_up changes kv key).
Proof.
  intros Hd Hok Hid Hnr Hnr64 Hs Hc Hk Hn. set (l := db_log d) in *. set (rid := next_record_id l) in *.
  destruct (ordered_record_run 0 comp K ltac:(done) K_small t (lg_overlays l) rid n kv changes Hs Hc Hk Hn) as
    (t1 & w1 & t2 & w2 & H1' & H2' & Hov & Hrid & Hs').
  destruct (plan_tree t (LogWriter.new (lg_overlays l) rid) changes t1 w1 t2 w2) as [ops Hplan]; [done|done|].
  assert (Hwr : wrap64 (rid + 1) = rid + 1) by (apply wrap64_small; unfold is_u64; lia).
  set (l1 := set_next_record_id (wrap64 (rid + 1)) l).
  destruct (end_record_spec l1 w2) as (l2 & h & f & Hend & Hok2 & _ & _ & _ & _ & _ & _ & _ & Hnext & Hv & _);
    [by destruct Hok|done|done|by rewrite Hrid|].
  eexists _, t2. split; [|split_and!].
  - unfold log_record. erewrite ST_bind_Ok by reflexivity. erewrite ST_bind_Ok.
    2: { cbn [db_columns set_log]. rewrite Hd. change (LogWriter.new _ _) with (LogWriter.new (lg_overlays l) rid). rewrite Hplan. reflexivity. }
    cbv beta iota. erewrite ST_bind_Ok.
    2: { unfold on_db_log, zoom. cbn [db_log set_log set_columns]. change (set_next_record_id _ _) with l1. rewrite Hend. reflexivity. }
    erewrite ST_bind_Ok by reflexivity. unfold mret, ST_ret. rewrite Hrid. reflexivity.
  - done.
  - exact Hok2.
  - cbn. rewrite Hnext. exact Hwr.
  - by apply Hs'.
  - intros key. cbn. rewrite (ordered_store_get 0 comp K ltac:(done) K_small t2 _ _ _ key (Hs' _ Hv)). by rewrite find_key_sorted_changes.
Qed.

End Record.

(** ** The theorems at a concrete column *)

#[local] Existing Instances zero_uninit stored_codecs list_order ieee_crc32.
#[local] Instance prefix_hash : Blake2.
Proof.
  refine {| blake2b := fun _ d => take 32 (d ++ replicate 32 x00) |}.
  intros k d. rewrite length_take, length_app, length_replicate. lia.
Defined.

Definition tree_options : ColumnOptions := MkColumnOptions false false false NoCompression 4096 true.
Definition tree_meta : Metadata := MkMetadata (replicate 32 x00) 8 [tree_options].
Definition tree_compress : Compress := Compress.new NoCompression 4096.
Definition one_change : Changes := [([x01], Some [x02]); ([x03], None)].
Abbreviation tree_tables := (new_tables 0 tree_options (meta_version tree_meta) (seq 0 SIZE_TIERS)).
(** A database with this column and a new log. *)
Definition tree_db (t : BTreeTable) : DbInner :=
  MkDbInner [Tree t] (MkOptions [tree_options] true true false None) false empty_log (MkCommitQueue 0 0 [])
    [] 0 (MkSignals false false false false) 0 0 None 8.

Lemma small_nodes : Z.of_nat (node_bytes 1) < 2 ^ 32.
Proof. vm_compute. reflexivity. Qed.
Lemma one_change_ok : Forall (key_ok 1) one_change.
Proof. repeat constructor. Qed.
Lemma no_compression_compresses : compresses tree_compress.
Proof. intros v _. by exists v. Qed.

Lemma ordered_open_witness : ∃ t, btree_open 0 tree_tables tree_meta = Ok t ∧
  btree_get (btt_tables t) (btt_compression t) empty_overlays [x01] = Ok None.
Proof.
  destruct (ordered_open (CL := stored_codec_laws) 0 tree_compress 1 ltac:(done) small_nodes tree_options tree_meta 1000) as (t & Ho & _ & Hg);
    [reflexivity|reflexivity|reflexivity|lia|].
  exists t. split; [exact Ho|apply Hg].
Defined.

Lemma ordered_commit_witness : ∃ t s', btree_open 0 tree_tables tree_meta = Ok t ∧
  changeset_write_plan 1 one_change (btree_locked t, LogWriter.new empty_overlays 1) = (Ok tt, s') ∧
  btree_get (tr_tables s'.1) (tr_compression s'.1) s'.2 [x01] = Ok (Some [x02]).
Proof.
  destruct (new_store (H1 := stored_codec_laws) 0 tree_compress 1 tree_options tree_meta (commit_cost 1 one_change)) as (t & Ho & Hs);
    [done|reflexivity|reflexivity|reflexivity|apply Z.leb_le; vm_compute; reflexivity|].
  destruct (ordered_commit (CL := stored_codec_laws) 0 tree_compress 1 ltac:(done) small_nodes _ _ _ _ 1 one_change (Hs 1)) as (s' & Hrun & _ & Hg);
    [exact no_compression_compresses|exact one_change_ok|apply Nat.le_refl|].
  exists t, s'. split; [exact Ho|]. split; [exact Hrun|apply Hg].
Defined.

Lemma ordered_record_witness : ∃ t t' d', btree_open 0 tree_tables tree_meta = Ok t ∧
  log_record (plan_commit (tree_changes one_change)) (tree_db t) = (Ok (2, false), d') ∧ db_columns d' = [Tree t'] ∧
  btree_get (btt_tables t') (btt_compression t') (lg_overlays (db_log d')) [x01] = Ok (Some [x02]).
Proof.
  destruct (new_store (H1 := stored_codec_laws) 0 tree_compress 1 tree_options tree_meta (commit_cost 1 one_change)) as (t & Ho & Hs);
    [done|reflexivity|reflexivity|reflexivity|apply Z.leb_le; vm_compute; reflexivity|].
  destruct (ordered_record (CL := stored_codec_laws) tree_compress 1 small_nodes (tree_db t) t (commit_cost 1 one_change) [] one_change) as (d' & t' & Hrun & Hc & _ & _ & _ & Hg);
    [reflexivity|apply empty_log_ok|reflexivity|done|reflexivity|exact Hs|exact no_compression_compresses|exact one_change_ok|apply Nat.le_refl|].
  exists t, t', d'. split; [exact Ho|]. split; [exact Hrun|]. split; [exact Hc|apply Hg].
Defined.
